(* ===== verification/_CoqProject ===== *)
-Q . S2P
Prelude.v
GoValue.v
Errors.v
StateMap.v
ValueChannels.v
Channels.v
Registry.v
Config.v
Checkpoint.v
CheckpointManager.v
MemorySaver.v
Retry.v
StateGraph.v
GraphCompile.v
Scheduling.v
Writes.v
Execution.v
Engine.v
EngineLemmas.v
Store.v
Cache.v
PriorityQueue.v
AsyncExecutor.v
Interrupt.v
SubGraph.v
Tokenizer.v
TitleLevels.v
TitleGroups.v
ChunkDoc.v
TokenSplit.v
TokenMerge.v
TitleChunks.v
Reranker.v
Retrieval.v
IngestionTask.v
IngestionSystem.v
EngineProps.v
CheckpointProps.v
GraphProps.v
RuntimeProps.v
IngestionProps.v
SubGraphProps.v
ParallelProps.v
TitleProps.v
HierarchyProps.v
TokenSplitProps.v
TokenMergeProps.v
TitleChunksProps.v
RetrievalProps.v
AgentValue.v
CanvasState.v
AgentLemmas.v
CanvasTemplate.v
NodeSwitch.v
NodeAssign.v
NodeLists.v
NodeData.v
Workflow.v
CanvasDSL.v
LoopCondition.v
DSLNormalize.v
CanvasBuild.v
CanvasNodes.v
CanvasProps.v
TemplateProps.v
AssignProps.v
DataProps.v
BuildProps.v
NodeProps.v
DSLProps.v
WorkflowProps.v
CliLexer.v
CliParser.v
CliLexerProps.v
CliDev.v
CliUser.v
CliUserOps.v
CliAdmin.v
CliAdminOps.v
CliProps.v
