(* ===== verification/Prelude.v ===== *)
(** * Verification of the Go core of RAGFlow: agent graphs, ingestion, chunking, retrieval,
    agent canvas, command line

    The program.  [internal/harness/graph] is the runtime that executes agent
    graphs.  A graph (package [graph]) has nodes, regular, conditional and data
    edges, branches and named channels.  [Compile] checks it and configures a
    channel per field of the state schema.  The engine (package [pregel]) runs a
    compiled graph in supersteps, as in the bulk-synchronous-parallel model: it
    prepares the tasks of the nodes that are due, runs them concurrently with
    retries, applies their writes to the channels (package [channels]) and saves
    a checkpoint (package [checkpoint]); it stops when no node is due, at an
    interrupt, when all tasks fail, or at the recursion limit.  A run whose thread
    has a checkpoint resumes from it.  A node may be a loop or a parallel map over
    a sub-graph, which save their own progress when they are interrupted.  Next to
    the engine there are an in-memory store (package [store]) and a cache of node
    results ([pregel/cache.go]).
    [internal/ingestion] turns documents into chunks: tasks are rows of a table,
    messages of a queue start workers, a worker runs the pipeline of a task, and
    the chunkers of [ingestion/component/chunker] split text by tokens
    ([internal/tokenizer]), by delimiters or by headings.  [internal/service/nlp]
    answers a question from the chunks a search engine returns: it scores, ranks
    and pages them.
    [internal/agent] runs agents that are drawn on a canvas.  A canvas is a graph of
    components in JSON; it is decoded and built into a workflow of a graph library,
    in which Loop and Parallel components become sub-workflows over their members.
    The components of a run share a state of variables, outputs and a conversation;
    templates refer to it, handlers around every node read and write it, and the
    components that are pure functions of it (switch, assigner, list and data
    operations, text) are modelled here.  The package [workflowx] drives the loops
    and the parallel nodes of a canvas.
    [internal/cli] is the command line client: a lexer and a recursive descent
    parser turn a text such as [LIST USERS;] into a command with parameters, in the
    mode of a user or of an administrator.

    The files, in dependency order, and the sources they translate.  Under
    [internal/harness/graph]:
    - [Prelude]: machine integers, computations that may panic ([go]), the
      iteration order of maps, strings, lists, stable sorting.
    - [GoValue]: values of type [interface{}] with Go's dynamic types, equality,
      float64, UTF-8 and JSON (what [json.Marshal] followed by
      [json.Unmarshal] gives).
    - [Errors] (errors/errors.go): errors as a data type, their predicates.
    - [StateMap] (checkpoint.go [deepCopy]; engine.go [toMap], [mergeStates],
      nested fields, field mappings, the encoding of sets of names).
    - [ValueChannels], [Channels] (channels/): each channel
      type is a record with its methods; [ChannelOps] is the interface
      [Channel] and [ChannelLaws] what its clients rely on; [Channel] is the sum
      of the implementations, with the reducer wrapper, and its instance.
    - [Registry] (channels/base.go): the registry, over any [ChannelOps].
    - [Config] (types/config.go): run configurations.
    - [Checkpoint], [CheckpointManager] (checkpoint.go): the
      checkpoint and its map form, and the manager of histories.
    - [MemorySaver] (checkpoint/memory.go): the interface [BaseCheckpointer],
      its laws [CheckpointerLaws], and the in-memory instance.
    - [Retry] (types.go, pregel/retry.go, retry_multi.go): policies, backoff
      and the two executors.
    - [StateGraph], [GraphCompile] (graph/graph.go, graph/state.go): the builder
      and its operations; schema validation, reachability, [Compile].
    - [Scheduling], [Writes], [Execution], [Engine] (pregel/engine.go): task
      preparation and routing; [applyWrites]; task execution, options and input;
      and the run loop.
    - [EngineLemmas]: invariants and simulation lemmas of the run, and small
      concrete graphs the witnesses evaluate.
    - [Store] (store/memory.go), [Cache] (pregel/cache.go).
    - [PriorityQueue] (pregel/background.go): the heap of background tasks.
    - [AsyncExecutor] (pregel/async.go): the pool of worker slots as a transition
      system of goroutines, and the pipeline with its channels.
    - [Interrupt] (interrupt/interrupt.go), [SubGraph] (graph/loop.go,
      graph/parallel.go): interrupts with resume values, and the two nodes over
      a sub-graph with their snapshots.
    Under [internal/tokenizer], [internal/ingestion] and [internal/service/nlp]:
    - [Tokenizer] (tokenizer.go, message_fit.go): token counts, trimming and
      conversations that fit a budget.
    - [TitleLevels], [TitleGroups], [TitleChunks] (chunker/title.go, title_cap.go,
      group.go, hierarchy.go, manual.go): heading levels and the token ceiling;
      groups of lines and the tree of headings; from records to chunks.
    - [ChunkDoc], [TokenSplit], [TokenMerge]
      (schema/chunk_types.go, chunker/token.go, common.go, positions_slice.go,
      parser/chunk/delim.go): the chunk record and its positions; delimiters,
      tags, sentences and the hard split; the merge with overlap and the payloads.
    - [Reranker], [Retrieval] (service/nlp/reranker.go, retrieval.go): scores;
      ranking, pages and aggregation.
    - [IngestionTask], [IngestionSystem] (dao, service, service/document,
      ingestion/service): the table of tasks and its transitions, what requests on
      documents do to their tasks, the handling of a message by a worker, and the
      system of requests and workers as a transition relation.
    Under [internal/agent]:
    - [AgentValue]: values of type [any] over a heap of maps and backing arrays,
      slices as windows with a capacity, the monad [mem] of computations on the
      heap that may panic, and what the code uses of the standard library ([GoLib]).
    - [CanvasState] (runtime/state.go): the state of a run and its methods.
    - [AgentLemmas]: what a walk into nested maps changes; values
      as trees, and deep copies.
    - [CanvasTemplate] (runtime/template.go, template_jinja.go): references in
      templates as a regular expression, the matching of one by leftmost-first
      backtracking as the standard library documents it, the substitution.
    - [NodeSwitch], [NodeAssign], [NodeLists], [NodeData]
      (component/switch.go, variable_assigner.go, list_operations.go,
      data_operations.go, string_transform.go, variable_aggregator.go).
    - [CanvasDSL] (canvas/canvas.go, decode.go): decoding, the stored conversation
      and memory, members of bodies.
    - [LoopCondition] (canvas/loop_subgraph.go): variables and the condition of a
      loop.
    - [CanvasBuild] (canvas/scheduler.go, loop_subgraph.go, parallel_subgraph.go,
      multibranch.go, node_body.go): the workflow as the calls that build it.
    - [DSLNormalize] (agent/dsl): the normal form of a stored canvas for the front
      end and for a run, its reset, and the extraction of parameters.
    - [CanvasNodes] (same files as [CanvasBuild]): the handlers around a node, the state of a run,
      the items of a parallel node.
    - [Workflow] (workflowx/loop.go, parallel.go): the drivers that run a compiled
      sub-workflow until a condition holds, by calls or by streams, or once per
      item, and save and resume their progress.
    Under [internal/cli]:
    - [CliLexer] (lexer.go, types.go): tokens, keywords and the lexer.
    - [CliParser] (parser.go, types.go): commands, the state of the parser, the monad
      [P] of computations on it, and the shapes of the statements the parser is
      made of ([expect], [skip], [switch], [loop], ...).
    - [CliDev], [CliUser], [CliUserOps], [CliAdmin], [CliAdminOps] (dev_parser.go,
      user_parser.go, admin_parser.go, the dispatch of parser.go): one definition
      per parse function, callees first.
    The theorems are in [EngineProps], [GraphProps] (channels, registry, graphs),
    [RuntimeProps] (retries, store, cache, pool, queue), [CheckpointProps],
    [IngestionProps], [SubGraphProps] (loops and interrupts), [ParallelProps],
    [TitleProps] (tokens, levels, ceiling), [HierarchyProps],
    [TokenSplitProps], [TokenMergeProps], [TitleChunksProps], [RetrievalProps],
    [CanvasProps] (state and conversation), [TemplateProps], [AssignProps] (switch
    and assigner), [DataProps] (lists, data, text), [BuildProps], [NodeProps], [DSLProps],
    [WorkflowProps], [CliLexerProps] and [CliProps].

    How the state corresponds.  A struct is a record with the same fields; a
    method that changes its receiver returns the new record; [error] results are
    sums; a panic is [Panic].  A map is a [gmap]; wherever the code ranges over a
    map the iteration order is a parameter (class [MapOrder]: for every map
    some permutation of its entries), so the theorems hold for every order; an
    unstable sort is a parameter too ([RowSort], [AggOrder]).  The state of a run
    is the record [RunState]; one iteration of the loop of [Engine.Run] is
    [superstep], and [estep] is the relation between the states of two successive
    iterations.  The node functions act on a world of arbitrary type [W].  The
    tasks of a superstep are atomic with respect to the shared registry and world
    and take effect in an arbitrary order, the parameter [sched]; that the pool
    lets every task run and deliver one result in every interleaving is shown
    separately, on [AsyncExecutor], whose steps are single actions of a goroutine
    ([tstep], [astep]).  The fan-out of the token chunker writes its slots in an
    arbitrary order as well.  The tree of headings is a store of nodes addressed
    by index, as the code builds it by reference.  Slices that the code returns
    twice are one slice ([hs_shared]).  Machine integers wrap at 64 bits; floating
    point numbers are the binary64 arithmetic of the standard library.  In the
    canvas, maps and slices are shared between the state, the inputs and outputs of
    components and their configuration, so a map is a location of a heap, a slice a
    window of an array of the heap, and an operation a computation on it; the mutex
    of the state makes each method one atomic step, and steps of concurrent nodes
    interleave.  The run of one item of a parallel node is one atomic action on the
    shared store, in any order after the first.  A parse function is a computation
    on the parser's state with three outcomes: a value, an error by its text, and
    [RLoop], a loop that runs for ever, which is shown not to happen.

    What is a parameter.  The record [Env] (in [Execution]) gathers what a run
    takes from outside: fresh identifiers, the clock and the parser of times,
    the context and its waits, random numbers, [sched], the formatting of values
    and the text form of JSON.  The digest of a cache key and the test of one
    string against the store's query are arguments of their definitions.  The
    byte-pair encoder is the record [Encoder], perhaps absent, with the laws
    [EncoderLaws], which speak of ASCII texts only; the regular expressions of the title chunkers are [Patterns]
    and [level_match]; the outcome of a pipeline, the cropping of PDF previews,
    the search engine, the table of documents, the query builder and the
    reranking model ([RetrievalEnv]) are arguments.  For the canvas, the formatting
    and parsing of numbers and the case of letters ([GoLib], [GoLibLaws]), the
    stable sort ([SliceStable]), the template engine, the text of JSON, the factory
    of components, the acceptance of a sub-workflow by the graph library, and a
    [MapOrder] per range are arguments; for its drivers, the compiled sub-workflow.
    For the command line, the texts of errors made by the library ([CliText]).
    Hypotheses on them are stated
    where they are used, and the witnesses instantiate them.

    What the theorems show.  The engine: every run ends within the recursion
    limit; the tasks scheduled, the routing, the effect of the writes of a
    superstep on each channel independently of map order, versions as clocks,
    one result per task, what a later run restores from the checkpoint of a
    superstep, resumption after an interrupt.  Loops and parallel nodes: a loop
    ends within its bound; a parallel node gives the outputs of all items or saves
    the interrupted ones; every question is answered once.  Graphs: reachability is the closure of the edge relation and
    [Compile] accepts exactly the valid graphs.  Checkpoints: the manager is a
    compare-and-swap register with linear history, storage round trips, the
    savers meet their interface.  Channels: aggregation, the named barrier as a
    set, registry round trip.  Retries: bounds on calls and waits, termination.
    Store and cache: reads after writes, transparent clean-up, bounded size,
    memoisation.  The pool: bounded concurrency, no deadlock, one result per task;
    the pipeline never misuses its channels; the priority queue sorts.
    Ingestion: only allowed changes of status, removal only of tasks that no worker
    runs, but for one request on documents, one pipeline per task, messages
    acknowledged when their task is settled.  Tokens: fitted conversations stay
    within the budget.  Chunkers: no line and no text is lost, for every encoder;
    chunks are within their size, without an encoder or on ASCII texts, since
    nothing is assumed of an encoder that cuts inside a rune; the tree and the groups of headings cover the document, the
    fan-out is deterministic.  Retrieval: the pages of a query are slices of one
    ranking, and the aggregation counts every chunk once.  The canvas: a variable
    that is set is read back and nothing else changes; a template is its text with the
    references replaced;
    assignments are read back; sorting of keys of one kind is stable and the transforms of maps leave
    the objects of the state alone; the members of a body are the descendants of
    its node; every edge of the canvas is wired once, and within bodies likewise;
    upstream edges into a body are refused; outputs of a node are visible to the
    nodes after it; a conversation and its stored form correspond; the normal form
    and the reset of a DSL have the shape they promise and leave their argument
    alone; a streamed loop does what a called one does; a parallel node that is
    resumed any number of times gives the outputs of all its items.  The command
    line: words are read back from any layout, the parser returns on every input,
    and what it returns depends on the tokens only.  Some lemmas and examples state
    behaviour that differs from the documentation in the code (input applied
    twice, dropped writes, context that is never attached, [panic_acknowledged],
    [rounds_forget], [parallel_forgets], [loop_state_lost], [running_task_deleted],
    [dotted_outputs_race], ...).

    Fuel.  [run_loop] takes [limit + 1] iterations of fuel, since the step
    counter grows by one in each and the loop leaves at the limit;
    [computeReachable] takes one more than the number of possible targets, since
    each round removes one from the queue; the multi-policy executor takes one
    more than the largest number of attempts; the loops of the heap take its
    index or its length plus one; a loop node takes one more than its remaining
    iterations; [getPaths] takes the number of nodes, since a child has a larger
    index than its parent; the hard splits take one more than the length of the
    text, since each cut is not empty; the search for tags likewise; a pairwise
    sum takes its length, since each round halves it.  A recursion into values of the
    heap takes two more than the number of its cells, which every value without a
    cycle is within ([readback_bound]), and panics beyond, as a value with a cycle
    exhausts the stack; the search for the members of a body takes one more than
    the number of edges ([search_total]).  A loop of the lexer takes one more than
    the length of its input, since it moves on at every byte; a loop of the parser
    takes the bytes and tokens that are left, since every iteration that goes on
    takes a token away ([parse_total]).  Theorems show that this
    suffices ([run_terminates], [computeReachable_spec], [multi_terminates],
    [queue_sorts], [loop_bounded], [hierarchy_keeps_lines], [title_cap],
    [merge_keeps_text], [retrieval_pages]).

    What is not modelled.  Stream events, callbacks, logs and tracing, which
    only observe a run; the goroutine that saves checkpoints asynchronously
    (its requests are recorded in [rs_async], their effect is not); the
    background worker pool; sharing of nested maps between a task's input and the
    last state, except where [applyInput] writes into its argument; the vector
    index and the filter language of the store; NATS persistence; the decoding of
    the inputs and configurations of the chunkers; the question, table and page
    chunkers; the queries sent to search engines; the rest of RAGFlow (database
    access, parsers, connectors, handlers, the Python code and the web client),
    which is input and output around external systems.
    Of the canvas, the graph library that runs a workflow, the components over
    models and tools, events and logs, the JSON form of the state in checkpoints,
    and the runner with its store of runs are not modelled.  Of the command line,
    the execution of commands (requests, tables, the prompt and the virtual file
    system) is not modelled.
    The parts that could be added next are, in this order: the runner of the canvas,
    parents of child chunks, the question and answer chunker, the background worker
    pool and the concurrency limiter, asynchronous saves as steps of their own, the
    filters and items of the store, managed values, and the path resolution of the
    virtual file system. *)

From stdpp Require Export base gmap strings list fin_maps sorting.
From Stdlib Require Export ZArith.
From Stdlib Require Import Sorted.

(** ** Scopes and automation *)

Declare Scope go_scope.
Delimit Scope go_scope with go.

Create HintDb graph.
Create Rewrite HintDb graph_range.

(** Case analysis on every [match] and [if] of the goal or of a hypothesis. *)
Ltac go_cases :=
  repeat (case_match || case_decide || case_bool_decide); simplify_eq/=; try done.

(** Unfold, split the cases and finish with the library's own solvers. *)
Tactic Notation "go_solve" := go_cases; naive_solver.

(** ** Integers at their width *)

(** Go's [int] is 64 bits wide on the supported platforms; arithmetic wraps. *)
Definition int64_min : Z := (- 2 ^ 63)%Z.
Definition int64_max : Z := (2 ^ 63 - 1)%Z.
Definition wrap64 (z : Z) : Z := ((z + 2 ^ 63) mod 2 ^ 64 - 2 ^ 63)%Z.
Definition int_add (a b : Z) : Z := wrap64 (a + b).
Definition in_int64 (z : Z) : Prop := (int64_min ≤ z ≤ int64_max)%Z.

Lemma wrap64_id z : in_int64 z → wrap64 z = z.
Proof.
  unfold in_int64, wrap64, int64_min, int64_max; intros H.
  rewrite Z.mod_small; lia.
Qed.

Lemma wrap64_range z : in_int64 (wrap64 z).
Proof.
  unfold in_int64, wrap64, int64_min, int64_max.
  pose proof (Z.mod_pos_bound (z + 2 ^ 63) (2 ^ 64)). lia.
Qed.

Lemma int_add_small a b : in_int64 (a + b) → int_add a b = (a + b)%Z.
Proof. apply wrap64_id. Qed.

#[export] Hint Resolve wrap64_range : graph.

(** ** Computations that may panic *)

Inductive go (A : Type) := Ret (a : A) | Panic.
Arguments Ret {_} _.
Arguments Panic {_}.

Definition go_bind {A B} (x : go A) (f : A → go B) : go B :=
  match x with Ret a => f a | Panic => Panic end.
Notation "x <-! c ; k" := (go_bind c (λ x, k))
  (at level 20, c at level 100, k at level 200, right associativity) : go_scope.

Lemma go_bind_Ret {A B} (x : go A) (f : A → go B) b :
  go_bind x f = Ret b ↔ ∃ a, x = Ret a ∧ f a = Ret b.
Proof. destruct x; naive_solver. Qed.

(** ** Iteration over a Go map

    The order in which [for k, v := range m] visits a map is unspecified.  A
    [MapOrder] chooses one order per map; a statement quantified over
    [MapOrder] holds for every order the runtime may choose. *)

Class MapOrder := {
  range : ∀ {V : Type}, gmap string V → list (string * V);
  range_perm : ∀ {V : Type} (m : gmap string V), range m ≡ₚ map_to_list m;
}.

(** Two concrete orders: the one of [map_to_list] and its reverse. *)
#[program] Definition order_fwd : MapOrder := {| range V m := map_to_list m |}.
Next Obligation. done. Qed.

#[program] Definition order_bwd : MapOrder := {| range V m := reverse (map_to_list m) |}.
Next Obligation. intros. apply reverse_Permutation. Qed.

Section range_lemmas.
Context `{MO : MapOrder} {V W : Type}.
Implicit Types (m : gmap string V) (acc : gmap string W).

Lemma range_NoDup m : NoDup (range m).*1.
Proof. rewrite range_perm. apply NoDup_fst_map_to_list. Qed.

Lemma elem_of_range m k v : (k, v) ∈ range m ↔ m !! k = Some v.
Proof. rewrite range_perm. apply elem_of_map_to_list. Qed.

Lemma elem_of_range_keys m k : k ∈ (range m).*1 ↔ is_Some (m !! k).
Proof.
  rewrite list_elem_of_fmap. split.
  - intros ([k' v] & -> & Hin%elem_of_range); eauto.
  - intros [v Hv]. exists (k, v). by rewrite elem_of_range.
Qed.

Lemma range_empty : range (∅ : gmap string V) = [].
Proof. apply Permutation_nil_r. rewrite range_perm. by rewrite map_to_list_empty. Qed.

Lemma range_nil_inv m : range m = [] → m = ∅.
Proof.
  intros H. apply map_to_list_empty_iff. apply Permutation_nil_r.
  by rewrite <- range_perm, H.
Qed.

Lemma length_range m : length (range m) = size m.
Proof. rewrite range_perm. apply length_map_to_list. Qed.

(** The loop [for k, v := range m { r[k] = f(v) }]. *)
Definition copy_loop (f : V → W) m acc : gmap string W :=
  foldl (λ r kv, <[kv.1 := f kv.2]> r) acc (range m).

Lemma foldl_insert_lookup (f : V → W) l acc k :
  NoDup l.*1 →
  foldl (λ r kv, <[kv.1 := f kv.2]> r) acc l !! k =
    match list_to_map (M := gmap string V) l !! k with
    | Some v => Some (f v) | None => acc !! k end.
Proof.
  revert acc. induction l as [|[k' v'] l IH]; intros acc Hnd; [done|].
  apply NoDup_cons in Hnd as [Hni Hnd]. simpl. rewrite IH by done.
  destruct (decide (k = k')) as [->|Hne].
  - rewrite lookup_insert_eq, (not_elem_of_list_to_map_1 l k') by done.
    by rewrite lookup_insert_eq.
  - rewrite !(lookup_insert_ne _ k' k) by done. done.
Qed.

Lemma list_to_map_range m : list_to_map (range m) = m.
Proof.
  rewrite <- (list_to_map_to_list m) at 2.
  apply list_to_map_proper; [apply range_NoDup | apply range_perm].
Qed.

(** Whatever the order, the loop is the right-biased union. *)
Lemma copy_loop_spec (f : V → W) m acc : copy_loop f m acc = (f <$> m) ∪ acc.
Proof.
  apply map_eq; intros k. unfold copy_loop.
  rewrite foldl_insert_lookup by apply range_NoDup.
  rewrite list_to_map_range, lookup_union, lookup_fmap.
  destruct (m !! k); simpl; [by destruct (acc !! k)|by destruct (acc !! k)].
Qed.

Lemma copy_loop_empty (f : V → W) m : copy_loop f m ∅ = f <$> m.
Proof. rewrite copy_loop_spec. apply map_union_empty. Qed.
End range_lemmas.

Lemma copy_loop_id `{MapOrder} {V} (m : gmap string V) : copy_loop id m ∅ = m.
Proof. rewrite copy_loop_empty. apply map_fmap_id. Qed.

#[export] Hint Rewrite @copy_loop_empty @copy_loop_id @range_empty : graph_range.

(** A loop body that commutes with itself on distinct keys gives the same
    result in every order. *)
Lemma foldl_range_comm {V A} (M1 M2 : MapOrder) (step : A → string * V → A)
    (m : gmap string V) (a : A) :
  (∀ a k1 v1 k2 v2, k1 ≠ k2 →
     step (step a (k1, v1)) (k2, v2) = step (step a (k2, v2)) (k1, v1)) →
  foldl step a (range (MapOrder := M1) m) = foldl step a (range (MapOrder := M2) m).
Proof.
  intros Hcomm.
  assert (Hp : range (MapOrder := M1) m ≡ₚ range (MapOrder := M2) m)
    by (by rewrite !range_perm).
  pose proof (range_NoDup (MO := M1) m) as Hnd.
  revert a. induction Hp as [|x l1 l2 Hp IH|x y l|l1 l2 l3 Hp1 IH1 Hp2 IH2]; intros a.
  - done.
  - simpl. apply IH. by apply NoDup_cons in Hnd as [_ ?].
  - simpl. f_equal. destruct x as [kx vx], y as [ky vy]. apply Hcomm.
    apply NoDup_cons in Hnd as [Hni _]. set_solver.
  - rewrite IH1 by done. apply IH2. by rewrite <- Hp1.
Qed.

(** ** Strings: [strings.Split], [strings.Join] for a one-byte separator *)

Definition comma : Ascii.ascii := Ascii.ascii_of_N 44.
Definition equals_sign : Ascii.ascii := Ascii.ascii_of_N 61.
Definition slash : Ascii.ascii := Ascii.ascii_of_N 47.
Definition colon : Ascii.ascii := Ascii.ascii_of_N 58.

Fixpoint split_on (c : Ascii.ascii) (s : string) : list string :=
  match s with
  | EmptyString => [""]
  | String a s' =>
      if decide (a = c) then "" :: split_on c s'
      else match split_on c s' with
           | [] => [String a EmptyString]
           | w :: ws => String a w :: ws
           end
  end.

Fixpoint join_with (c : Ascii.ascii) (l : list string) : string :=
  match l with
  | [] => ""
  | [w] => w
  | w :: ws => w +:+ String c (join_with c ws)
  end.

Fixpoint contains_byte (c : Ascii.ascii) (s : string) : bool :=
  match s with
  | EmptyString => false
  | String a s' => bool_decide (a = c) || contains_byte c s'
  end.

Lemma split_on_not_nil c s : split_on c s ≠ [].
Proof. destruct s as [|a s]; simpl; go_cases. Qed.

Lemma join_split c s : join_with c (split_on c s) = s.
Proof.
  induction s as [|a s IH]; simpl; [done|].
  pose proof (split_on_not_nil c s). case_decide; subst.
  - destruct (split_on c s) eqn:E; [done|]. by rewrite <- IH.
  - destruct (split_on c s) as [|w [|w' ws]] eqn:E; [done|..]; by rewrite <- IH.
Qed.

Lemma split_on_free c s : contains_byte c s = false → split_on c s = [s].
Proof.
  induction s as [|a s IH]; simpl; [done|]. intros [Ha Hs]%orb_false_iff.
  rewrite IH by done. by case_decide; case_bool_decide.
Qed.

Lemma split_on_app c w s :
  contains_byte c w = false → split_on c (w +:+ String c s) = w :: split_on c s.
Proof.
  induction w as [|a w IH]; simpl.
  - by case_decide.
  - intros [Ha Hw]%orb_false_iff. change (String.append ?x ?y) with (x +:+ y).
    rewrite IH by done. by case_decide; case_bool_decide.
Qed.

Lemma split_on_join2 c w s : split_on c (w +:+ String c s) = split_on c w ++ split_on c s.
Proof.
  induction w as [|a w IH]; simpl.
  - by rewrite decide_True.
  - change (String.append ?x ?y) with (x +:+ y). rewrite IH. case_decide; [done|].
    pose proof (split_on_not_nil c w). by destruct (split_on c w).
Qed.

Lemma split_join c l :
  l ≠ [] → Forall (λ w, contains_byte c w = false) l → split_on c (join_with c l) = l.
Proof.
  intros Hne Hl. induction Hl as [|w ws Hw Hws IH]; [done|].
  destruct ws as [|w' ws]; [by apply split_on_free|].
  change (join_with c (w :: w' :: ws)) with (w +:+ String c (join_with c (w' :: ws))).
  rewrite split_on_app by done. by rewrite IH.
Qed.

(** [sort.Strings]. *)
Definition sort_strings (l : list string) : list string := merge_sort String.le l.

Lemma sort_strings_perm l : sort_strings l ≡ₚ l.
Proof. apply merge_sort_Permutation. Qed.

Lemma sort_strings_sorted l : Sorted String.le (sort_strings l).
Proof. apply Sorted_merge_sort, _. Qed.

Lemma sort_strings_unique l1 l2 : l1 ≡ₚ l2 → sort_strings l1 = sort_strings l2.
Proof.
  intros Hp. apply (Sorted_unique String.le); [apply sort_strings_sorted..|].
  by rewrite !sort_strings_perm.
Qed.

(** ** Lists *)

(** The last element of a Go slice, [s[len(s)-1]], of a non-empty slice. *)
Lemma last_snoc_inv {A} (l : list A) x : last l = Some x → ∃ l', l = l' ++ [x].
Proof.
  intros H. destruct l as [|y l] using rev_ind; [done|].
  rewrite last_snoc in H. simplify_eq. eauto.
Qed.

Lemma last_is_Some_nonempty {A} (l : list A) : l ≠ [] → is_Some (last l).
Proof. destruct l as [|y l] using rev_ind; [done|]. rewrite last_snoc. eauto. Qed.

Lemma filter_snoc {A} (P : A → Prop) `{∀ x, Decision (P x)} l x :
  filter P (l ++ [x]) = if decide (P x) then filter P l ++ [x] else filter P l.
Proof. rewrite filter_app, filter_cons, filter_nil. case_decide; [done|apply app_nil_r]. Qed.

Lemma exists_cons {A} (P : A → Prop) y l : (∃ x, x ∈ y :: l ∧ P x) ↔ P y ∨ ∃ x, x ∈ l ∧ P x.
Proof.
  split; [intros (x & [->|Hx]%elem_of_cons & HP); eauto|].
  intros [HP|(x & Hx & HP)]; [exists y|exists x]; (split; [|done]); [left|by right].
Qed.

(** Collecting the entries [f 0], [f 1], ... that belong to the elements of [l]. *)
Lemma omap_seq_map {A B C} (na : A → C) (nb : B → C) (f : nat → option A) (l : list B) :
  (∀ i t, l !! i = Some t → ∃ r, f i = Some r ∧ na r = nb t) →
  map na (omap f (seq 0 (length l))) = map nb l.
Proof.
  revert f. induction l as [|t l IH]; intros f Hf; [done|].
  cbn [length seq]. destruct (Hf 0 t eq_refl) as (r & Hr & Hn).
  cbn [omap list_omap]. rewrite Hr. cbn [map]. rewrite Hn. f_equal.
  rewrite <- fmap_S_seq, <- (IH (λ i, f (S i))) by (intros i t'; apply (Hf (S i))).
  f_equal. generalize (seq 0 (length l)). intros l'. induction l' as [|i l' IHl]; [done|].
  cbn. destruct (f (S i)); by rewrite IHl.
Qed.

Lemma size_list_to_set_le (l : list string) : size (list_to_set l : gset string) ≤ length l.
Proof.
  induction l as [|x l IH]; [done|]. cbn [list_to_set foldr length].
  change (size ({[x]} ∪ list_to_set l : gset string) ≤ S (length l)). rewrite size_union_alt.
  rewrite size_singleton.
  pose proof (subseteq_size (list_to_set l ∖ {[x]} : gset string) (list_to_set l)
    ltac:(set_solver)). lia.
Qed.

(** ** [strings.TrimSpace]: Unicode white space at both ends *)

Definition bytes (l : list N) : list Ascii.ascii := map Ascii.ascii_of_N l.

(** The UTF-8 encodings of the runes of [unicode.IsSpace]. *)
Definition space_runes : list (list Ascii.ascii) := map bytes
  ([[9]; [10]; [11]; [12]; [13]; [32]; [194; 133]; [194; 160]; [225; 154; 128];
    [226; 128; 168]; [226; 128; 169]; [226; 128; 175]; [226; 129; 159]; [227; 128; 128]]
   ++ map (λ n, [226; 128; n]) [128; 129; 130; 131; 132; 133; 134; 135; 136; 137; 138])%N.

Fixpoint strip_prefix (p l : list Ascii.ascii) : option (list Ascii.ascii) :=
  match p, l with
  | [], _ => Some l
  | a :: p', b :: l' => if decide (a = b) then strip_prefix p' l' else None
  | _ :: _, [] => None
  end.

(** Drop runes of [ps] from the front, at most [fuel] of them. *)
Fixpoint strip_all (fuel : nat) (ps : list (list Ascii.ascii)) (l : list Ascii.ascii)
    : list Ascii.ascii :=
  match fuel with
  | O => l
  | S fuel' => match head (omap (λ p, strip_prefix p l) ps) with
               | Some l' => strip_all fuel' ps l'
               | None => l
               end
  end.

Definition trim_space (s : string) : string :=
  let l := String.list_ascii_of_string s in
  let left := strip_all (length l) space_runes l in
  String.string_of_list_ascii (reverse (strip_all (length left) (map reverse space_runes) (reverse left))).

Example trim_space_ex : trim_space "  a b	" = "a b".
Proof. reflexivity. Qed.

(** ** Decoding loops: [for k, v := range m { if x, ok := dec(v); ok { r[k] = x } }] *)

Lemma foldl_decode_lookup {V W} (dec : V → option W) (l : list (string * V))
    (acc : gmap string W) k :
  NoDup l.*1 →
  foldl (λ r kv, match dec kv.2 with Some x => <[kv.1 := x]> r | None => r end) acc l !! k =
  match list_to_map (M := gmap string V) l !! k ≫= dec with
  | Some x => Some x | None => acc !! k end.
Proof.
  revert acc. induction l as [|[n v] l IH]; intros acc Hnd; [done|].
  apply NoDup_cons in Hnd as [Hni Hnd]. cbn [foldl]. rewrite IH by done.
  cbn [list_to_map foldr uncurry fst snd]. destruct (decide (k = n)) as [->|Hne].
  - rewrite (not_elem_of_list_to_map_1 l n), lookup_insert_eq by done. cbn.
    destruct (dec v); [by rewrite lookup_insert_eq|done].
  - rewrite (lookup_insert_ne _ n k v) by done. destruct (dec v); [|done].
    by rewrite (lookup_insert_ne acc).
Qed.

Lemma decode_loop `{MapOrder} {V W} (dec : V → option W) (m : gmap string V) :
  foldl (λ r kv, match dec kv.2 with Some x => <[kv.1 := x]> r | None => r end) ∅ (range m)
  = omap dec m.
Proof.
  apply map_eq. intros k. rewrite foldl_decode_lookup by apply range_NoDup.
  rewrite list_to_map_range, lookup_omap, lookup_empty. by destruct (m !! k ≫= dec).
Qed.

(** ** Stable sorting by a strict order: [sort.SliceStable] *)

Fixpoint insert_sorted {A} (less : A → A → bool) (x : A) (l : list A) : list A :=
  match l with
  | [] => [x]
  | y :: l' => if less y x then y :: insert_sorted less x l' else x :: l
  end.
Definition stable_sort {A} (less : A → A → bool) (l : list A) : list A := foldr (insert_sorted less) [] l.

Section sort.
Context {A : Type} (less : A → A → bool) (Hasym : ∀ a b, less a b = true → less b a = false).
Definition in_order (a b : A) : Prop := less b a = false.

Lemma insert_sorted_perm x l : insert_sorted less x l ≡ₚ x :: l.
Proof. induction l as [|y l IH]; cbn; [done|]. case_match; [|done]. rewrite IH. constructor. Qed.
Lemma insert_sorted_sorted x l : Sorted in_order l → Sorted in_order (insert_sorted less x l).
Proof.
  induction l as [|y l IH]; intros Hs; cbn; [by repeat constructor|]. destruct (less y x) eqn:E; [|by constructor; [|constructor]].
  apply Sorted_inv in Hs as [Hs Hh]. constructor; [by apply IH|].
  destruct l as [|z l]; cbn; [constructor; unfold in_order; by apply Hasym|].
  destruct (less z x); [|constructor; unfold in_order; by apply Hasym]. constructor. by apply HdRel_inv in Hh.
Qed.
Lemma stable_sort_perm l : stable_sort less l ≡ₚ l.
Proof. induction l as [|x l IH]; [done|]. cbn. by rewrite insert_sorted_perm, IH. Qed.
Lemma stable_sort_sorted l : Sorted in_order (stable_sort less l).
Proof. induction l as [|x l IH]; [constructor|]. by apply insert_sorted_sorted. Qed.
Lemma sorted_lookup l i a b : Sorted in_order l → l !! i = Some a → l !! S i = Some b → in_order a b.
Proof.
  intros Hs. revert i. induction Hs as [|x l Hs IH Hh]; intros i Ha Hb; [done|]. destruct i as [|i]; [|by apply (IH i)].
  destruct l as [|y l]; [done|]. cbn in Ha, Hb. injection Ha as <-. injection Hb as <-. by apply HdRel_inv in Hh.
Qed.
End sort.

(** ** Concatenation of texts *)

Lemma string_app_cons a s t : String a s +:+ t = String a (s +:+ t).
Proof. reflexivity. Qed.
Lemma string_app_nil s : s +:+ "" = s.
Proof. induction s as [|a s IH]; [done|]. by rewrite string_app_cons, IH. Qed.
Lemma string_app_assoc s t u : (s +:+ t) +:+ u = s +:+ (t +:+ u).
Proof. induction s as [|a s IH]; [done|]. by rewrite !string_app_cons, IH. Qed.
Lemma string_length_app s t : String.length (s +:+ t) = (String.length s + String.length t)%nat.
Proof. induction s as [|a s IH]; [done|]. rewrite string_app_cons. cbn. by rewrite IH. Qed.

(** ** Texts of numbers

    A text for every positive number, from which it is read back: with an encoding
    of a type into numbers, a text form of its values. *)

Fixpoint bits (p : positive) : string :=
  match p with xH => "" | xO p => String (Ascii.ascii_of_N 48) (bits p) | xI p => String (Ascii.ascii_of_N 49) (bits p) end.
Fixpoint unbits (s : string) : positive :=
  match s with
  | "" => xH
  | String a s => if decide (a = Ascii.ascii_of_N 48) then xO (unbits s) else xI (unbits s)
  end.
Lemma unbits_bits p : unbits (bits p) = p.
Proof. by induction p as [p IH|p IH|]; cbn; [f_equal..|]. Qed.
