(* ===== verification/GoValue.v ===== *)
(** * Go values held in an [any]

    The universe of dynamic values the runtime inspects by type assertion or
    reflection, the arithmetic of [float64], and the part of [encoding/json]
    the checkpoint code uses (a marshal followed by an unmarshal into [any]). *)

From S2P Require Import Prelude.
From Stdlib Require Import SpecFloat.

(** ** float64 *)

Definition float64 : Type := spec_float.
Definition f64_add : float64 → float64 → float64 := SFadd 53 1024.
Definition f64_mul : float64 → float64 → float64 := SFmul 53 1024.
(** The conversion [float64(n)], which is also what a decimal integer literal parses to. *)
Definition f64_of_int (z : Z) : float64 := binary_normalize 53 1024 z 0 false.
Definition f64_finite (f : float64) : bool :=
  match f with S754_zero _ | S754_finite _ _ _ => true | _ => false end.

(** The conversion [int(f)]: truncation; out of range it gives the minimum, as
    the amd64 conversion instruction does. *)
Definition f64_trunc (f : float64) : option Z :=
  match f with
  | S754_zero _ => Some 0%Z
  | S754_finite s m e =>
      let a := if (0 <=? e)%Z then (Z.pos m * 2 ^ e)%Z else (Z.pos m / 2 ^ (- e))%Z in
      Some (if s then - a else a)%Z
  | _ => None
  end.
Definition int_of_f64 (f : float64) : Z :=
  match f64_trunc f with
  | Some z => if decide (in_int64 z) then z else int64_min
  | None => int64_min
  end.

(** ** time.Time: the instant and its RFC 3339 rendering *)
Record gotime := GoTime { unix_nano : Z; rfc3339 : string }.
Definition zero_time : gotime := GoTime (-62135596800000000000) "0001-01-01T00:00:00Z".

(** ** The universe of values *)
Inductive value :=
| VNil
| VBool (b : bool)
| VInt (z : Z)                                   (* int *)
| VFloat (f : float64)                           (* float64 *)
| VStr (s : string)
| VBytes (s : string)                            (* []byte *)
| VTime (t : gotime)
| VList (l : list value)                         (* []interface{} *)
| VMap (m : gmap string value)                   (* map[string]interface{} *)
| VMapBool (m : gmap string bool)                (* map[string]bool *)
| VMapInt (m : gmap string Z)                    (* map[string]int *)
| VMapMapInt (m : gmap string (gmap string Z))   (* map[string]map[string]int *)
| VMapList (l : list (gmap string value))        (* []map[string]interface{} *)
| VStruct (fs : list (string * option string * value))
    (* the exported fields: name, key the JSON encoder uses (if any), value *)
| VPtr (v : value)                               (* non-nil pointer *)
| VOverwrite (v : value)                         (* *types.Overwrite *)
| VMissing                                       (* *missingSentinel *)
| VOther (tname : string) (getter json : option value).
    (* any other type: what its GetValue method returns, if it has one, and a
       value with the same JSON encoding, if it can be encoded *)

(** ** UTF-8: the decoder of unicode/utf8, and what the JSON encoder does with
    bytes that are not UTF-8 (each is replaced by U+FFFD) *)

Definition byte_in (lo hi : N) (a : Ascii.ascii) : bool :=
  ((lo <=? Ascii.N_of_ascii a) && (Ascii.N_of_ascii a <=? hi))%N.
Definition cont : Ascii.ascii → bool := byte_in 128 191.

(** Is [a] a complete one-byte rune, [a b] a two-byte rune, ...? *)
Definition rune1 (a : Ascii.ascii) : bool := byte_in 0 127 a.
Definition rune2 (a b : Ascii.ascii) : bool := byte_in 194 223 a && cont b.
Definition rune3 (a b c : Ascii.ascii) : bool :=
  ((byte_in 224 224 a && byte_in 160 191 b) || (byte_in 225 236 a && cont b)
   || (byte_in 237 237 a && byte_in 128 159 b) || (byte_in 238 239 a && cont b)) && cont c.
Definition rune4 (a b c d : Ascii.ascii) : bool :=
  ((byte_in 240 240 a && byte_in 144 191 b) || (byte_in 241 243 a && cont b)
   || (byte_in 244 244 a && byte_in 128 143 b)) && cont c && cont d.

Definition rune_error (s : string) : string :=
  String (Ascii.ascii_of_N 239) (String (Ascii.ascii_of_N 191) (String (Ascii.ascii_of_N 189) s)).

Fixpoint utf8_fix (s : string) : string :=
  match s with
  | EmptyString => EmptyString
  | String a s1 =>
      if rune1 a then String a (utf8_fix s1) else
      match s1 with
      | EmptyString => rune_error EmptyString
      | String b s2 =>
          if rune2 a b then String a (String b (utf8_fix s2)) else
          match s2 with
          | EmptyString => rune_error (utf8_fix s1)
          | String c s3 =>
              if rune3 a b c then String a (String b (String c (utf8_fix s3))) else
              match s3 with
              | EmptyString => rune_error (utf8_fix s1)
              | String d s4 =>
                  if rune4 a b c d
                  then String a (String b (String c (String d (utf8_fix s4))))
                  else rune_error (utf8_fix s1)
              end
          end
      end
  end.

(** ** A JSON round trip into [any] *)

(** Encode the members of an object in key order and decode them again: keys
    are coerced to UTF-8, a later duplicate wins, and one member that cannot be
    encoded fails the whole object. *)
Definition json_object (m : gmap string (option value)) : option value :=
  ms ← mapM (λ k, o ← m !! k; v ← o; Some (utf8_fix k, v)) (sort_strings (map_to_list m).*1);
  Some (VMap (foldl (λ r kv, <[kv.1 := kv.2]> r) ∅ ms)).

(** The standard base64 alphabet and encoding (how []byte is marshalled). *)
Definition b64_char (n : N) : Ascii.ascii :=
  default (Ascii.ascii_of_N 61)
    (String.get (N.to_nat n) "ABCDEFGHIJKLMNOPQRSTUVWXYZabcdefghijklmnopqrstuvwxyz0123456789+/").
Fixpoint base64 (s : string) : string :=
  let n := Ascii.N_of_ascii in
  match s with
  | EmptyString => EmptyString
  | String a EmptyString =>
      String (b64_char (n a / 4)) (String (b64_char (n a mod 4 * 16)) "==")
  | String a (String b EmptyString) =>
      String (b64_char (n a / 4)) (String (b64_char (n a mod 4 * 16 + n b / 16))
        (String (b64_char (n b mod 16 * 4)) "="))
  | String a (String b (String c s')) =>
      String (b64_char (n a / 4)) (String (b64_char (n a mod 4 * 16 + n b / 16))
        (String (b64_char (n b mod 16 * 4 + n c / 64)) (String (b64_char (n c mod 64)) (base64 s'))))
  end.

(** An integer is printed in decimal and parsed as a float64; a literal out of
    the range of float64 is an error of the decoder. *)
Definition json_float (f : float64) : option value :=
  if f64_finite f then Some (VFloat f) else None.
Definition json_int (z : Z) : option value := json_float (f64_of_int z).

Fixpoint json_rt (v : value) : option value :=
  match v with
  | VNil => Some VNil
  | VBool b => Some (VBool b)
  | VInt z => json_int z
  | VFloat f => json_float f
  | VStr s => Some (VStr (utf8_fix s))
  | VBytes s => Some (VStr (base64 s))
  | VTime t => Some (VStr (utf8_fix (rfc3339 t)))
  | VList l => VList <$> mapM id (map json_rt l)
  | VMap m => json_object (json_rt <$> m)
  | VMapBool m => json_object ((λ b, Some (VBool b)) <$> m)
  | VMapInt m => json_object (json_int <$> m)
  | VMapMapInt m =>
      json_object ((λ mi : gmap string Z, json_object (json_int <$> mi)) <$> m)
  | VMapList l => VList <$> mapM id (map (λ m : gmap string value, json_object (json_rt <$> m)) l)
  | VStruct fs =>
      json_object (list_to_map (omap
        (λ f : string * option string * option value, k ← f.1.2; Some (k, f.2))
        (map (λ f : string * option string * value, (f.1, json_rt f.2)) fs)))
  | VPtr v => json_rt v
  | VOverwrite v => json_object {[ "Value" := json_rt v ]}
  | VMissing => Some (VMap ∅)
  | VOther _ _ j => match j with Some w => json_rt w | None => None end
  end.

(** ** Induction on values *)

Fixpoint vsize (v : value) : nat :=
  match v with
  | VList l => S (sum_list (map vsize l))
  | VMap m => S (map_fold (λ _ x n, vsize x + n) 0 m)
  | VMapList l => S (sum_list (map (λ m : gmap string value, map_fold (λ _ x n, vsize x + n) 0 m) l))
  | VStruct fs => S (sum_list (map (λ f : string * option string * value, vsize f.2) fs))
  | VPtr v | VOverwrite v => S (vsize v)
  | VOther _ g j =>
      S (match g with Some w => vsize w | None => 0 end
         + match j with Some w => vsize w | None => 0 end)
  | _ => 1
  end.

Lemma sum_list_elem n l : n ∈ l → n ≤ sum_list l.
Proof.
  induction l as [|m l IH]; simpl; [by intros ?%elem_of_nil|].
  intros [->|Hn%IH]%elem_of_cons; lia.
Qed.

Lemma map_size_elem (f : value → nat) (m : gmap string value) k x :
  m !! k = Some x → f x ≤ map_fold (λ _ x n, f x + n) 0 m.
Proof.
  intros Hk. rewrite <- (insert_delete_id m k x Hk).
  rewrite map_fold_insert_L; [lia| |apply lookup_delete_eq]. intros; lia.
Qed.

Lemma vsize_list l x : x ∈ l → vsize x < vsize (VList l).
Proof.
  intros Hx. simpl. apply Nat.lt_succ_r, sum_list_elem.
  by apply (list_elem_of_fmap_2 vsize).
Qed.

Lemma vsize_map (m : gmap string value) k x : m !! k = Some x → vsize x < vsize (VMap m).
Proof. intros Hx. simpl. pose proof (map_size_elem vsize m k x Hx). lia. Qed.

Lemma vsize_map_list l (m : gmap string value) k x :
  m ∈ l → m !! k = Some x → vsize x < vsize (VMapList l).
Proof.
  intros Hm Hx. pose proof (map_size_elem vsize m k x Hx) as H1.
  pose proof (sum_list_elem (map_fold (λ _ x n, vsize x + n) 0 m)
    (map (λ m : gmap string value, map_fold (λ _ x n, vsize x + n) 0 m) l)) as H2.
  simpl. apply Nat.lt_succ_r. etrans; [exact H1|]. apply H2.
  by apply (list_elem_of_fmap_2 (λ m : gmap string value, map_fold (λ _ x n, vsize x + n) 0 m)).
Qed.

Lemma vsize_struct fs (f : string * option string * value) :
  f ∈ fs → vsize f.2 < vsize (VStruct fs).
Proof.
  intros Hf. simpl. apply Nat.lt_succ_r, sum_list_elem.
  by apply (list_elem_of_fmap_2 (λ f : string * option string * value, vsize f.2)).
Qed.

(** Strong induction: a value may use the hypothesis on all its parts. *)
Lemma value_strong_ind (P : value → Prop) :
  (∀ v, (∀ w, vsize w < vsize v → P w) → P v) → ∀ v, P v.
Proof.
  intros H v. remember (vsize v) as n eqn:Hn. revert v Hn.
  induction n as [n IH] using lt_wf_ind; intros v ->. apply H. intros w Hw. by eapply IH.
Qed.

(** ** Values that survive a JSON round trip unchanged *)

Inductive plain : value → Prop :=
| plain_nil : plain VNil
| plain_bool b : plain (VBool b)
| plain_float f : f64_finite f = true → plain (VFloat f)
| plain_str s : utf8_fix s = s → plain (VStr s)
| plain_list l : Forall plain l → plain (VList l)
| plain_map (m : gmap string value) : map_Forall (λ _ v, plain v) m → plain (VMap m).
#[export] Hint Constructors plain : graph.

(** The coercion to UTF-8 is a projection. *)
Lemma utf8_fix_idem s : utf8_fix (utf8_fix s) = utf8_fix s.
Proof.
  remember (String.length s) as n eqn:Hn. revert s Hn.
  induction n as [n IH] using lt_wf_ind; intros s ->.
  destruct s as [|a s1]; [done|].
  assert (IH' : ∀ t, String.length t < String.length (String a s1) →
    utf8_fix (utf8_fix t) = utf8_fix t) by (intros; eapply IH; eauto).
  clear IH.
  assert (He : ∀ t, utf8_fix (rune_error t) = rune_error (utf8_fix t)) by done.
  simpl in IH'. cbn [utf8_fix].
  destruct (rune1 a) eqn:E1; [cbn [utf8_fix]; rewrite E1, IH' by lia; done|].
  destruct s1 as [|b s2]; [done|].
  destruct (rune2 a b) eqn:E2; [cbn [utf8_fix]; rewrite E1, E2, IH' by (simpl; lia); done|].
  destruct s2 as [|c s3]; [rewrite He, IH' by (simpl; lia); done|].
  destruct (rune3 a b c) eqn:E3; [cbn [utf8_fix]; rewrite E1, E2, E3, IH' by (simpl; lia); done|].
  destruct s3 as [|d s4]; [rewrite He, IH' by (simpl; lia); done|].
  destruct (rune4 a b c d) eqn:E4; [|rewrite He, IH' by (simpl; lia); done].
  cbn [utf8_fix]. rewrite E1, E2, E3, E4, IH' by (simpl; lia). done.
Qed.

Fixpoint ascii_only (s : string) : bool :=
  match s with EmptyString => true | String a s => rune1 a && ascii_only s end.

Lemma utf8_fix_ascii s : ascii_only s = true → utf8_fix s = s.
Proof.
  induction s as [|a s IH]; [done|]. cbn [ascii_only]. intros [Ha Hs]%andb_true_iff.
  cbn [utf8_fix]. by rewrite Ha, IH.
Qed.

Lemma b64_char_ascii n : rune1 (b64_char n) = true.
Proof.
  unfold b64_char. generalize (N.to_nat n); clear n; intros n.
  do 64 (destruct n as [|n]; [reflexivity|]). reflexivity.
Qed.

Lemma base64_ascii s : ascii_only (base64 s) = true.
Proof.
  remember (String.length s) as n eqn:Hn. revert s Hn.
  induction n as [n IH] using lt_wf_ind; intros s ->.
  destruct s as [|a [|b [|c s]]]; cbn [base64 ascii_only];
    rewrite ?b64_char_ascii; [done..|].
  erewrite IH; [done| |done]. simpl; lia.
Qed.

Lemma plain_foldl_insert (l : list (string * value)) (r : gmap string value) :
  map_Forall (λ _ v, plain v) r → Forall (λ kv, plain kv.2) l →
  map_Forall (λ _ v, plain v) (foldl (λ r kv, <[kv.1 := kv.2]> r) r l).
Proof.
  intros Hr Hl. revert r Hr. induction Hl as [|[k v] l Hv Hl IH]; intros r Hr; [done|].
  simpl. apply IH. by apply map_Forall_insert_2.
Qed.

Lemma json_object_plain (m : gmap string (option value)) r :
  json_object m = Some r → (∀ k v, m !! k = Some (Some v) → plain v) → plain r.
Proof.
  unfold json_object. intros (ms & Hms & [= <-])%bind_Some Hm.
  constructor. apply plain_foldl_insert; [apply map_Forall_empty|].
  apply mapM_Some_1 in Hms. induction Hms as [|k [k' v] l l' Hk Hl IH]; constructor; [|done].
  simpl in Hk. apply bind_Some in Hk as (o & Hk & (w & -> & [= <- <-])%bind_Some).
  simpl. eauto.
Qed.

Lemma json_object_all_plain {A} (f : A → option value) (m : gmap string A) r :
  (∀ x v, f x = Some v → plain v) → json_object (f <$> m) = Some r → plain r.
Proof.
  intros Hf Hr. eapply json_object_plain; [done|]. intros k v.
  rewrite lookup_fmap, fmap_Some. intros (x & _ & Hx). eauto.
Qed.

Lemma json_float_plain f v : json_float f = Some v → plain v.
Proof. unfold json_float. intros; go_cases. by constructor. Qed.

Lemma json_int_plain z v : json_int z = Some v → plain v.
Proof. apply json_float_plain. Qed.

Lemma json_list_plain l r :
  mapM id l = Some r → (∀ v, Some v ∈ l → plain v) → Forall plain r.
Proof.
  intros Hr%mapM_Some_1 Hl. induction Hr as [|o v l r Ho Hr IH]; constructor.
  - apply Hl. unfold id in Ho; subst. left.
  - apply IH. intros w Hw. apply Hl. by right.
Qed.

#[export] Hint Resolve json_float_plain json_int_plain : graph.

(** Whatever a JSON round trip returns is plain. *)
Lemma json_rt_plain v r : json_rt v = Some r → plain r.
Proof.
  revert r. induction v as [v IH] using value_strong_ind; intros r Hr.
  destruct v as [|b|z|f|s|s|t|l|m|m|m|m|l|fs|v|v| |tn g j]; cbn [json_rt] in Hr.
  - injection Hr as <-. constructor.
  - injection Hr as <-. constructor.
  - by eapply json_int_plain.
  - by eapply json_float_plain.
  - injection Hr as <-. constructor. apply utf8_fix_idem.
  - injection Hr as <-. constructor. apply utf8_fix_ascii, base64_ascii.
  - injection Hr as <-. constructor. apply utf8_fix_idem.
  - apply fmap_Some in Hr as (l' & Hl & ->). constructor.
    eapply json_list_plain; [done|]. intros v (w & Hw & Hin)%list_elem_of_fmap.
    eapply IH; [by apply vsize_list|done].
  - eapply json_object_plain; [done|]. intros k v. rewrite lookup_fmap, fmap_Some.
    intros (w & Hw & Hv). eapply IH; [by eapply vsize_map|done].
  - eapply json_object_all_plain; [|exact Hr]. intros b v [= <-]. constructor.
  - eapply json_object_all_plain; [apply json_int_plain|exact Hr].
  - eapply json_object_all_plain; [|exact Hr]. intros mi v Hv.
    eapply json_object_all_plain; [apply json_int_plain|exact Hv].
  - apply fmap_Some in Hr as (l' & Hl & ->). constructor.
    eapply json_list_plain; [done|]. intros v (m & Hm & Hin)%list_elem_of_fmap.
    eapply json_object_plain; [done|]. intros k w. rewrite lookup_fmap, fmap_Some.
    intros (x & Hx & Hv). eapply IH; [by eapply vsize_map_list|done].
  - eapply json_object_plain; [done|]. intros k v Hv.
    apply elem_of_list_to_map_2, list_elem_of_omap in Hv as ([[n jk] o] & Hin & Hk).
    apply list_elem_of_fmap in Hin as ([[n' jk'] w] & [= -> -> ->] & Hw).
    simpl in Hk. apply bind_Some in Hk as (k' & -> & [= -> Hj]).
    eapply IH; [by apply (vsize_struct _ _ Hw)|done].
  - eapply IH; [|done]. simpl; lia.
  - eapply json_object_plain; [done|]. intros k w. rewrite lookup_singleton_Some.
    intros [_ Hw]. eapply IH; [|done]. simpl; lia.
  - injection Hr as <-. constructor. apply map_Forall_empty.
  - destruct j as [w|]; [|done]. eapply IH; [|done]. simpl. destruct g; lia.
Qed.

(** ** Integers that float64 represents exactly *)
Lemma iter_xO_mul m d : Z.pos (Pos.iter xO m d) = (Z.pos m * 2 ^ Z.pos d)%Z.
Proof.
  induction d as [|d IH] using Pos.peano_ind.
  - simpl. lia.
  - rewrite Pos.iter_succ, Pos2Z.inj_succ, Z.pow_succ_r by lia.
    change (Z.pos (Pos.iter xO m d)~0) with (2 * Z.pos (Pos.iter xO m d))%Z. rewrite IH. lia.
Qed.

Lemma digits2_pos_size m : digits2_pos m = Pos.size m.
Proof. induction m; simpl; congruence. Qed.

Lemma digits2_iter m d : Z.pos (digits2_pos (Pos.iter xO m d)) = (Z.pos (digits2_pos m) + Z.pos d)%Z.
Proof.
  induction d as [|d IH] using Pos.peano_ind; [simpl; lia|].
  rewrite Pos.iter_succ. cbn [digits2_pos]. lia.
Qed.

Lemma digits2_bound m : (Z.pos m < 2 ^ 53)%Z → (Z.pos (digits2_pos m) ≤ 53)%Z.
Proof.
  intros H. rewrite digits2_pos_size.
  destruct (Z.le_gt_cases (Z.pos (Pos.size m)) 53) as [|Hgt]; [done|].
  pose proof (Pos.size_le m) as Hle.
  assert (Hp : (2 ^ Z.pos (Pos.size m) ≤ 2 * Z.pos m)%Z).
  { rewrite <- Pos2Z.inj_pow. lia. }
  assert ((2 ^ 54 ≤ 2 ^ Z.pos (Pos.size m))%Z) by (apply Z.pow_le_mono_r; lia). lia.
Qed.

(** A mantissa of exactly 53 digits is not rounded. *)
Lemma round_aux_exact s m e :
  (Z.pos (digits2_pos m) + e - 53 = e ∨ e = 0 ∧ Z.pos (digits2_pos m) = 53)%Z → (-1074 ≤ e ≤ 971)%Z →
  binary_round_aux 53 1024 s (Z.pos m) e loc_Exact = S754_finite s m e.
Proof.
  intros Hd He. unfold binary_round_aux.
  assert (Hs : shr_fexp 53 1024 (Z.pos m) e loc_Exact = ({| shr_m := Z.pos m; shr_r := false; shr_s := false |}, e)).
  { unfold shr_fexp, fexp, emin, Zdigits2.
    replace (Z.max (Z.pos (digits2_pos m) + e - 53) (3 - 1024 - 53) - e)%Z with 0%Z by lia.
    done. }
  rewrite Hs. cbn [shr_m loc_of_shr_record round_nearest_even]. rewrite Hs. cbn [shr_m].
  replace (e <=? 1024 - 53)%Z with true by (symmetry; apply Z.leb_le; lia). done.
Qed.

Lemma binary_round_exact s m :
  (Z.pos m < 2 ^ 53)%Z → f64_trunc (binary_round 53 1024 s m 0) = Some (if s then Z.neg m else Z.pos m).
Proof.
  intros Hm%digits2_bound. unfold binary_round, shl_align, fexp, emin.
  replace (Z.max (Z.pos (digits2_pos m) + 0 - 53) (3 - 1024 - 53) - 0)%Z
    with (Z.pos (digits2_pos m) - 53)%Z by lia.
  replace (Z.max (Z.pos (digits2_pos m) + 0 - 53) (3 - 1024 - 53))%Z
    with (Z.pos (digits2_pos m) - 53)%Z by lia.
  destruct (Z.pos (digits2_pos m) - 53)%Z as [|p|p] eqn:E; [|lia|].
  - rewrite round_aux_exact by lia. cbn -[Z.mul Z.pow]. destruct s; f_equal; lia.
  - rewrite round_aux_exact; [|rewrite digits2_iter; lia|lia].
    unfold f64_trunc. replace (0 <=? Z.neg p)%Z with false by done.
    rewrite iter_xO_mul. cbn [Z.opp]. rewrite Z.div_mul by (apply Z.pow_nonzero; lia).
    by destruct s.
Qed.

(** Integers of magnitude below 2^53 are represented exactly. *)
Lemma f64_of_int_exact z : (Z.abs z < 2 ^ 53)%Z → int_of_f64 (f64_of_int z) = z.
Proof.
  intros Hz. assert (Ht : f64_trunc (f64_of_int z) = Some z).
  { unfold f64_of_int, binary_normalize. destruct z; [done|..];
      rewrite binary_round_exact; done || lia. }
  unfold int_of_f64. rewrite Ht. rewrite decide_True; [done|].
  unfold in_int64, int64_min, int64_max. lia.
Qed.

Lemma f64_of_int_finite z : (Z.abs z < 2 ^ 53)%Z → f64_finite (f64_of_int z) = true.
Proof.
  intros Hz. assert (is_Some (f64_trunc (f64_of_int z))) as [? H].
  { unfold f64_of_int, binary_normalize. destruct z; [by eexists|..];
      rewrite binary_round_exact; by eexists || lia. }
  by destruct (f64_of_int z).
Qed.
