(* ===== verification/Errors.v ===== *)
(** * Error values (errors/errors.go)

    Go errors as one inductive type: the error types of the packages modelled
    here, and the two anonymous errors [fmt.Errorf] builds.  The runtime
    recognises an error by its dynamic type only (a type assertion), so a
    wrapped error is not recognised; [Unwrap] and the messages are modelled too. *)

From S2P Require Import Prelude GoValue.
From stdpp Require Import pretty.

(* internal/harness/graph/errors/errors.go:11-36 ErrorCode *)
Inductive ErrorCode :=
| ErrorCodeGraphRecursionLimit
| ErrorCodeInvalidConcurrentGraphUpdate
| ErrorCodeInvalidGraphNodeReturnValue
| ErrorCodeMultipleSubgraphs
| ErrorCodeInvalidChatHistory
| ErrorCodeCheckpointConflict
| ErrorCodeInvalidState
| ErrorCodeNodeNotFound
| ErrorCodeChannelNotFound
| ErrorCodeTimeout
| ErrorCodeCancellation
| ErrorCodeNone.

Definition code_text (c : ErrorCode) : string :=
  match c with
  | ErrorCodeGraphRecursionLimit => "GRAPH_RECURSION_LIMIT"
  | ErrorCodeInvalidConcurrentGraphUpdate => "INVALID_CONCURRENT_GRAPH_UPDATE"
  | ErrorCodeInvalidGraphNodeReturnValue => "INVALID_GRAPH_NODE_RETURN_VALUE"
  | ErrorCodeMultipleSubgraphs => "MULTIPLE_SUBGRAPHS"
  | ErrorCodeInvalidChatHistory => "INVALID_CHAT_HISTORY"
  | ErrorCodeCheckpointConflict => "CHECKPOINT_CONFLICT"
  | ErrorCodeInvalidState => "INVALID_STATE"
  | ErrorCodeNodeNotFound => "NODE_NOT_FOUND"
  | ErrorCodeChannelNotFound => "CHANNEL_NOT_FOUND"
  | ErrorCodeTimeout => "TIMEOUT"
  | ErrorCodeCancellation => "CANCELLATION"
  | ErrorCodeNone => ""
  end.

(* internal/harness/graph/errors/errors.go:241-413 EmptyChannelError *)
Inductive error :=
| EmptyChannelError (message : string)
| GraphRecursionError (limit : Z)
| InvalidUpdateError (message : string)
| GraphBubbleUp (message : string) (cause : option error)
| GraphInterrupt (interrupts : list value)
| ParentCommand (command : value)
| EmptyInputError (message : string)
| TaskNotFound (taskID : string)
| InvalidNodeError (nodeName message : string)
| InvalidEdgeError (from to message : string)
| ChannelNotFoundError (channelName : string)
| NodeNotFoundError (nodeName : string)
| ErrorContext (code : ErrorCode) (message : string) (stack : list string)
    (cause : option error) (metadata : list (string * string))
| RetryExhaustedError (nodeName : string) (attempts : Z) (lastErr : option error)
    (lastOutput : value)
| VersionConflictError (current expected : Z) (checkpointID threadID : string)
| StoreError (message code : string)
| ContextErr (message : string)          (* context.Canceled, DeadlineExceeded *)
| Errorf (message : string)              (* fmt.Errorf without %w *)
| Wrapf (prefix : string) (cause : error). (* fmt.Errorf("prefix%w", cause) *)

(** [fmt.Sprintf] of an optional error with %v. *)
Definition sprint_err (f : error → string) (e : option error) : string :=
  match e with Some e => f e | None => "<nil>" end.

(* internal/harness/graph/errors/errors.go:246-413 Error *)
Fixpoint Error (e : error) : string :=
  match e with
  | EmptyChannelError m => if decide (m = "") then "channel is empty" else m
  | GraphRecursionError limit =>
      "Graph recursion limit of " +:+ pretty limit +:+ " reached. To increase the limit, "
      +:+ "run your graph with a config specifying a higher recursion_limit."
  | InvalidUpdateError m => "Invalid update: " +:+ m
  | GraphBubbleUp m c =>
      if decide (m = "") then
        match c with Some c => Error c | None => "graph bubble up" end
      else m
  | GraphInterrupt ints => "graph interrupted with " +:+ pretty (Z.of_nat (length ints)) +:+ " interrupt(s)"
  | ParentCommand _ => "parent command"
  | EmptyInputError m => if decide (m = "") then "empty input" else m
  | TaskNotFound id => "task not found: " +:+ id
  | InvalidNodeError n m => "invalid node '" +:+ n +:+ "': " +:+ m
  | InvalidEdgeError f t m => "invalid edge from '" +:+ f +:+ "' to '" +:+ t +:+ "': " +:+ m
  | ChannelNotFoundError n => "channel not found: " +:+ n
  | NodeNotFoundError n => "node not found: " +:+ n
  | ErrorContext code m stack cause metadata =>
      "[" +:+ code_text code +:+ "] " +:+ m
      +:+ match cause with
          | Some c => String (Ascii.ascii_of_N 10) ("Caused by: " +:+ Error c)
          | None => "" end
      +:+ match stack with
          | [] => ""
          | _ => String (Ascii.ascii_of_N 10) "Stack trace:"
                 +:+ String.concat "" (map (λ fr, String (Ascii.ascii_of_N 10) ("  " +:+ fr)) stack)
          end
      +:+ match metadata with
          | [] => ""
          | _ => String (Ascii.ascii_of_N 10) "Metadata:"
                 +:+ String.concat "" (map (λ kv : string * string,
                       String (Ascii.ascii_of_N 10) ("  " +:+ kv.1 +:+ ": " +:+ kv.2)) metadata)
          end
  | RetryExhaustedError n a last _ =>
      "node " +:+ n +:+ " failed after " +:+ pretty a +:+ " attempts: "
      +:+ match last with Some c => Error c | None => "<nil>" end
  | VersionConflictError cur exp id th =>
      "version conflict: expected version " +:+ pretty exp +:+ " but found " +:+ pretty cur
      +:+ " for checkpoint " +:+ id +:+ " in thread " +:+ th
  | StoreError m code => if decide (code = "") then m else code +:+ ": " +:+ m
  | ContextErr m => m
  | Errorf m => m
  | Wrapf prefix c => prefix +:+ Error c
  end.

(** ** Recognition by dynamic type *)

(* internal/harness/graph/errors/errors.go:254-257 IsEmptyChannelError *)
Definition IsEmptyChannelError (err : option error) : bool :=
  match err with Some (EmptyChannelError _) => true | _ => false end.

(* internal/harness/graph/errors/errors.go:273-276 IsGraphRecursionError *)
Definition IsGraphRecursionError (err : option error) : bool :=
  match err with Some (GraphRecursionError _) => true | _ => false end.

(* internal/harness/graph/errors/errors.go:323-326 IsGraphInterrupt *)
Definition IsGraphInterrupt (err : option error) : bool :=
  match err with Some (GraphInterrupt _) => true | _ => false end.

(* internal/harness/graph/errors/errors.go:338-341 IsParentCommand *)
Definition IsParentCommand (err : option error) : bool :=
  match err with Some (ParentCommand _) => true | _ => false end.

(* internal/harness/graph/errors/errors.go:164-186 GetErrorCode *)
Definition GetErrorCode (err : option error) : ErrorCode :=
  match err with
  | None => ErrorCodeNone
  | Some (ErrorContext code _ _ _ _) => code
  | _ =>
      if IsGraphRecursionError err then ErrorCodeGraphRecursionLimit
      else if IsGraphInterrupt err then ErrorCodeCancellation
      else if IsParentCommand err then ErrorCodeInvalidConcurrentGraphUpdate
      else ErrorCodeNone
  end.

(* internal/harness/graph/errors/errors.go:144-161 WrapError *)
Definition WrapError (stack : list string) (err : option error) (code : ErrorCode)
    (message : string) : option error :=
  match err with
  | None => None
  | Some e => Some (ErrorContext code message stack (Some e) [])
  end.

(* internal/harness/graph/errors/errors.go:229-239 ChainError *)
Definition ChainError (base newErr : option error) : option error :=
  match newErr, base with
  | None, _ => base
  | Some _, None => newErr
  | Some n, Some b => Some (Wrapf (Error n +:+ ": ") b)
  end.

(** [errors.Unwrap]. *)
Definition Unwrap (e : error) : option error :=
  match e with
  | GraphBubbleUp _ c => c
  | ErrorContext _ _ _ c _ => c
  | RetryExhaustedError _ _ c _ => c
  | Wrapf _ c => Some c
  | _ => None
  end.
