(* ===== verification/StateMap.v ===== *)
(** * State maps: the conversions and merges the engine applies to states

    [toMap], [mergeStates], field mapping and the encoding of the set of
    completed tasks (pregel/engine.go), and [deepCopy] (checkpoint/checkpoint.go). *)

From S2P Require Import Prelude GoValue.

(** ** deepCopy *)

(* internal/harness/graph/checkpoint/checkpoint.go:830-853 deepCopy *)
Fixpoint deepCopy (val : value) : value :=
  match val with
  | VNil => VNil
  | VMap m => VMap (deepCopy <$> m)
  | VList slice => VList (map deepCopy slice)
  | _ => match json_rt val with Some result => result | None => VNil end
  end.

(* internal/harness/graph/checkpoint/checkpoint.go:856-862 deepCopyMap *)
Definition deepCopyMap `{MapOrder} (src : gmap string value) : gmap string value :=
  copy_loop deepCopy src ∅.

(* internal/harness/graph/checkpoint/checkpoint.go:865-871 deepCopySlice *)
Definition deepCopySlice (slice : list value) : list value := map deepCopy slice.

Lemma deepCopyMap_fmap `{MapOrder} m : deepCopyMap m = deepCopy <$> m.
Proof. apply copy_loop_empty. Qed.

#[export] Hint Rewrite @deepCopyMap_fmap : graph_range.

(** The result of [deepCopy] is a tree of JSON values, *)
Lemma deepCopy_plain v : plain (deepCopy v).
Proof.
  induction v as [v IH] using value_strong_ind.
  assert (Hj : plain (match json_rt v with Some r => r | None => VNil end)).
  { destruct (json_rt v) eqn:E; [by eapply json_rt_plain|constructor]. }
  destruct v as [| | | | | | |l|m| | | | | | | | |]; try exact Hj; cbn [deepCopy].
  - constructor. apply Forall_fmap, Forall_forall. intros x Hx. apply IH. by apply vsize_list.
  - constructor. intros k x. rewrite lookup_fmap, fmap_Some. intros (y & Hy & ->).
    apply IH. by eapply vsize_map.
Qed.

(** and [deepCopy] is the identity on such trees. *)
Lemma deepCopy_id v : plain v → deepCopy v = v.
Proof.
  induction v as [v IH] using value_strong_ind. intros Hp.
  destruct Hp as [|b|f Hf|s Hs|l Hl|m Hm]; cbn [deepCopy json_rt]; unfold json_float.
  - done.
  - done.
  - by rewrite Hf.
  - by rewrite Hs.
  - f_equal. rewrite <- (list_fmap_id l) at 2. apply list_fmap_ext. intros i x Hx.
    apply list_elem_of_lookup_2 in Hx. apply IH; [by apply vsize_list|].
    by eapply Forall_forall in Hl.
  - f_equal. rewrite <- (map_fmap_id m) at 2. apply map_fmap_ext. intros k x Hx.
    apply IH; [by eapply vsize_map|]. by eapply Hm.
Qed.

Lemma deepCopy_idem v : deepCopy (deepCopy v) = deepCopy v.
Proof. apply deepCopy_id, deepCopy_plain. Qed.

Lemma deepCopyMap_idem `{MapOrder} m : deepCopyMap (deepCopyMap m) = deepCopyMap m.
Proof.
  autorewrite with graph_range. rewrite <- map_fmap_compose.
  apply map_fmap_ext. intros k x _. apply deepCopy_idem.
Qed.

Lemma lookup_deepCopyMap `{MapOrder} m k : deepCopyMap m !! k = deepCopy <$> m !! k.
Proof. autorewrite with graph_range. apply lookup_fmap. Qed.

(** ** Errors of this layer *)
Inductive to_map_error := NilValue.

(** ** toMap *)

(** [rv] after one pointer was followed, when it is a map or a struct: its
    entries or exported fields ([*types.Overwrite] and the missing sentinel are
    pointers to structs, and [time.Time] is a struct without exported fields). *)
Definition as_entries `{MapOrder} (val : value) : option (gmap string value) :=
  match val with
  | VMap m => Some (copy_loop id m ∅)
  | VMapBool m => Some (copy_loop VBool m ∅)
  | VMapInt m => Some (copy_loop VInt m ∅)
  | VMapMapInt m => Some (copy_loop VMapInt m ∅)
  | VStruct fs => Some (foldl (λ r f, <[f.1.1 := f.2]> r) ∅ fs)
  | VTime _ => Some ∅
  | _ => None
  end.

(* internal/harness/graph/pregel/engine.go:1704-1749 toMap *)
Definition toMap `{MapOrder} (val : value) : to_map_error + gmap string value :=
  match val with
  | VNil => inl NilValue
  | VMap m => inr m
  | VOverwrite v => inr {[ "Value" := v ]}
  | VMissing => inr ∅
  | _ =>
      match as_entries (match val with VPtr v => v | v => v end) with
      | Some result => inr result
      | None => inr {[ "__root__" := val ]}
      end
  end.

(** Only nil is refused. *)
Lemma toMap_error `{MapOrder} v : toMap v = inl NilValue ↔ v = VNil.
Proof. split; [|by intros ->]. destruct v as [| | | | | | | | | | | | | |v| | |]; try done. by destruct v. Qed.

(** ** mergeStates *)

(* internal/harness/graph/pregel/engine.go:1676-1701 Engine.mergeStates *)
Definition mergeStates `{MapOrder} (existing next : value) : value :=
  match existing, next with
  | VNil, _ => next
  | _, VNil => existing
  | VMap existingMap, VMap nextMap => VMap (copy_loop id nextMap (copy_loop id existingMap ∅))
  | _, _ => next
  end.

Lemma mergeStates_maps `{MapOrder} m1 m2 : mergeStates (VMap m1) (VMap m2) = VMap (m2 ∪ m1).
Proof. simpl. by rewrite copy_loop_id, copy_loop_spec, map_fmap_id. Qed.

Lemma mergeStates_nil_l `{MapOrder} v : mergeStates VNil v = v.
Proof. done. Qed.

Lemma mergeStates_nil_r `{MapOrder} v : mergeStates v VNil = v.
Proof. by destruct v. Qed.

Lemma mergeStates_assoc_maps `{MapOrder} m1 m2 m3 :
  mergeStates (mergeStates (VMap m1) (VMap m2)) (VMap m3) =
  mergeStates (VMap m1) (mergeStates (VMap m2) (VMap m3)).
Proof. by rewrite !mergeStates_maps, map_union_assoc. Qed.

(** ** Nested fields and field mapping *)

Open Scope go_scope.

Definition dot : Ascii.ascii := Ascii.ascii_of_N 46.

(** The walk of [getNestedField] along the path components. *)
Fixpoint get_parts (cur : value) (parts : list string) : value :=
  match parts with
  | [] => cur
  | part :: rest =>
      match cur with
      | VMap cm =>
          match cm !! part with
          | None | Some VNil => VNil
          | Some v => get_parts v rest
          end
      | _ => VNil
      end
  end.

(* internal/harness/graph/pregel/engine.go:1845-1862 getNestedField *)
Definition getNestedField (m : gmap string value) (path : string) : value :=
  if decide (path = "") then VMap m else get_parts (VMap m) (split_on dot path).

(** The walk of [setNestedField]: a missing level is created; at a level that
    holds something else than a map, the failed assertion leaves the nil map in
    [m], and the assignment that follows panics. *)
Fixpoint set_parts (m : gmap string value) (parts : list string) (val : value)
    : go (gmap string value) :=
  match parts with
  | [] => Panic
  | [p] => Ret (<[p := val]> m)
  | p :: rest =>
      match m !! p with
      | None => sub <-! set_parts ∅ rest val; Ret (<[p := VMap sub]> m)
      | Some (VMap sub) => sub' <-! set_parts sub rest val; Ret (<[p := VMap sub']> m)
      | Some _ => Panic
      end
  end.

(* internal/harness/graph/pregel/engine.go:1865-1888 setNestedField *)
Definition setNestedField `{MapOrder} (m : gmap string value) (path : string) (val : value)
    : go (gmap string value) :=
  if decide (path = "") then
    match val with VMap vm => Ret (copy_loop id vm m) | _ => Panic end
  else set_parts m (split_on dot path) val.

(* internal/harness/graph/types/types.go:359-362 FieldMapping *)
Record FieldMapping := { fm_From : string; fm_To : string }.

(* internal/harness/graph/pregel/engine.go:1830-1842 applyFieldMapping *)
Definition applyFieldMapping `{MapOrder} (output : gmap string value)
    (mappings : list FieldMapping) : go (gmap string value) :=
  match mappings with
  | [] => Ret output
  | _ =>
      foldl (λ acc mapping,
        result <-! acc;
        match getNestedField output (fm_From mapping) with
        | VNil => Ret result
        | val => setNestedField result (fm_To mapping) val
        end) (Ret ∅) mappings
  end.

Lemma set_parts_get m parts val m' :
  set_parts m parts val = Ret m' → val ≠ VNil → get_parts (VMap m') parts = val.
Proof.
  intros Hs Hv. revert m m' Hs. induction parts as [|p rest IH]; intros m m' Hs; [done|].
  destruct rest as [|q rest].
  - simpl in Hs. simplify_eq. simpl. rewrite lookup_insert_eq. by destruct val.
  - cbn [set_parts] in Hs. destruct (m !! p) as [[]|]; try done;
      apply go_bind_Ret in Hs as (sub & Hsub & [= <-]);
      cbn [get_parts]; rewrite lookup_insert_eq; by apply IH in Hsub.
Qed.

Lemma set_parts_frame m p rest val m' k :
  set_parts m (p :: rest) val = Ret m' → k ≠ p → m' !! k = m !! k.
Proof.
  intros Hs Hk. destruct rest as [|q rest].
  - simpl in Hs. simplify_eq. by rewrite lookup_insert_ne.
  - cbn [set_parts] in Hs. destruct (m !! p) as [[]|]; try done;
      apply go_bind_Ret in Hs as (sub & Hsub & [= <-]); by rewrite lookup_insert_ne.
Qed.

(** [walkable m parts]: every proper prefix of the path is absent or a map. *)
Fixpoint walkable (m : gmap string value) (parts : list string) : bool :=
  match parts with
  | [] => false
  | [_] => true
  | p :: rest =>
      match m !! p with
      | None => true
      | Some (VMap sub) => walkable sub rest
      | Some _ => false
      end
  end.

Lemma walkable_empty parts : parts ≠ [] → walkable ∅ parts = true.
Proof. destruct parts as [|p [|q rest]]; [done..|]. simpl. by rewrite lookup_empty. Qed.

Lemma set_parts_cons m p q rest val :
  set_parts m (p :: q :: rest) val =
    match m !! p with
    | None => sub <-! set_parts ∅ (q :: rest) val; Ret (<[p := VMap sub]> m)
    | Some (VMap sub) => sub' <-! set_parts sub (q :: rest) val; Ret (<[p := VMap sub']> m)
    | Some _ => Panic
    end.
Proof. done. Qed.

Lemma walkable_cons m p q rest :
  walkable m (p :: q :: rest) =
    match m !! p with
    | None => true
    | Some (VMap sub) => walkable sub (q :: rest)
    | Some _ => false
    end.
Proof. done. Qed.

(** The assignment succeeds exactly on walkable paths. *)
Lemma set_parts_total m parts val :
  (∃ m', set_parts m parts val = Ret m') ↔ walkable m parts = true.
Proof.
  revert m. induction parts as [|p rest IH]; intros m; [by split; [intros []|]|].
  destruct rest as [|q rest]; [by split; [|eauto]|].
  rewrite set_parts_cons, walkable_cons.
  destruct (m !! p) as [[]|]; try (by split; [intros []|]).
  - rewrite <- IH. setoid_rewrite go_bind_Ret.
    split; [by intros (? & ? & ? & ?); eauto|by intros []; eauto].
  - split; [done|]. intros _. setoid_rewrite go_bind_Ret.
    destruct (proj2 (IH ∅) (walkable_empty (q :: rest) ltac:(done))) as [m' Hm']. eauto.
Qed.

(** ** The set of completed tasks in a checkpoint *)

Definition nul : Ascii.ascii := Ascii.ascii_of_N 0.

(* internal/harness/graph/pregel/engine.go:1892-1909 serializeStringSet *)
Definition serializeStringSet `{MapOrder} (set : gmap string bool) : string :=
  if decide (size set = 0) then "" else join_with nul (sort_strings (range set).*1).

(* internal/harness/graph/pregel/engine.go:1913-1923 deserializeStringSet *)
Definition deserializeStringSet (encoded : string) : option (gmap string bool) :=
  if decide (encoded = "") then None
  else Some (foldl (λ out part, <[part := true]> out) ∅ (split_on nul encoded)).

Lemma foldl_insert_true_lookup l (acc : gmap string bool) k :
  foldl (λ out part, <[part := true]> out) acc l !! k =
    if decide (k ∈ l) then Some true else acc !! k.
Proof.
  revert acc. induction l as [|p l IH]; intros acc; cbn [foldl].
  - case_decide as Hk; [by apply elem_of_nil in Hk|done].
  - rewrite IH, lookup_insert.
    repeat case_decide; subst; set_solver.
Qed.

(** The encoding is independent of the iteration order. *)
Lemma serializeStringSet_order (M1 M2 : MapOrder) set :
  serializeStringSet (H := M1) set = serializeStringSet (H := M2) set.
Proof.
  unfold serializeStringSet. case_decide; [done|]. f_equal. apply sort_strings_unique.
  by rewrite (range_perm (MapOrder := M1)), (range_perm (MapOrder := M2)).
Qed.

(** A set of names: every value is true and no name contains the separator. *)
Definition name_set_ok (set : gmap string bool) : Prop :=
  map_Forall (λ k b, b = true ∧ contains_byte nul k = false) set.

Lemma join_nul_empty l : join_with nul l = "" → l = [] ∨ l = [""].
Proof.
  destruct l as [|w [|w' l]]; [by left|simpl; intros ->; by right|].
  change (join_with nul (w :: w' :: l)) with (w +:+ String nul (join_with nul (w' :: l))).
  by destruct w.
Qed.

(** Decoding inverts encoding, but for the set that holds only the empty name. *)
Lemma serialize_roundtrip `{MapOrder} set :
  set ≠ ∅ → set ≠ {["" := true]} → name_set_ok set →
  deserializeStringSet (serializeStringSet set) = Some set.
Proof.
  intros Hne Hne1 Hok. unfold serializeStringSet.
  assert (size set ≠ 0) as Hs by (by intros ?%map_size_empty_iff).
  rewrite decide_False by done. set (l := sort_strings (range set).*1).
  assert (Hl : ∀ k, k ∈ l ↔ is_Some (set !! k)).
  { intros k. unfold l. rewrite sort_strings_perm. apply elem_of_range_keys. }
  assert (Hfree : Forall (λ w, contains_byte nul w = false) l).
  { apply Forall_forall. intros k [b Hb]%Hl. by apply Hok in Hb as [_ ?]. }
  assert (Hlen : length l = size set).
  { unfold l. by rewrite sort_strings_perm, length_fmap, length_range. }
  unfold deserializeStringSet. rewrite decide_False.
  - rewrite split_join; [|by intros Hnil; rewrite Hnil in Hlen|done]. f_equal.
    apply map_eq. intros k. rewrite foldl_insert_true_lookup, lookup_empty.
    case_decide as Hk; rewrite Hl in Hk.
    + destruct Hk as [b Hb]. pose proof (Hok _ _ Hb) as [-> _]. done.
    + symmetry. by apply eq_None_not_Some.
  - intros Hj. apply join_nul_empty in Hj as [Hj|Hj]; rewrite Hj in *; [done|].
    apply Hne1, map_eq. intros k. destruct (decide (k = "")) as [->|Hk].
    + rewrite lookup_singleton_eq. destruct (proj1 (Hl "") ltac:(left)) as [b Hb].
      by pose proof (Hok _ _ Hb) as [-> _].
    + rewrite lookup_singleton_ne by done. apply eq_None_not_Some.
      rewrite <- Hl. set_solver.
Qed.
