(* ===== verification/ValueChannels.v ===== *)
(** * Channels that hold one value or a list of values

    [channels/base.go] (the common part), [last_value.go], [any_value.go],
    [ephemeral_value.go], [untracked.go], [topic.go], [binop.go] and the
    [LastValueAfterFinish] of [barrier.go].  A method that mutates its receiver
    returns the new receiver first. *)

From S2P Require Import Prelude GoValue Errors StateMap.

(* internal/harness/graph/channels/base.go:22-28 IsMissing *)
Definition IsMissing (val : value) : bool :=
  match val with VMissing => true | _ => false end.

(* internal/harness/graph/channels/base.go:64-68 BaseChannel *)
Record BaseChannel := { Key : string; Typ : value; Version : Z }.

Definition new_base (typ : value) : BaseChannel := {| Key := ""; Typ := typ; Version := 0 |}.

(* internal/harness/graph/channels/base.go:76-78 BaseChannel.SetKey *)
Definition Base_SetKey (c : BaseChannel) (key : string) : BaseChannel :=
  {| Key := key; Typ := Typ c; Version := Version c |}.

(* internal/harness/graph/channels/base.go:97-99 BaseChannel.SetVersion *)
Definition Base_SetVersion (c : BaseChannel) (v : Z) : BaseChannel :=
  {| Key := Key c; Typ := Typ c; Version := v |}.

(** What a copy or a restored channel keeps of the base: the type and the key. *)
Definition rebase (c : BaseChannel) : BaseChannel := Base_SetKey (new_base (Typ c)) (Key c).

Definition empty_err : option error := Some (EmptyChannelError "").

(** ** LastValue: at most one value per step *)

(* internal/harness/graph/channels/last_value.go:10-13 LastValue *)
Record LastValue := { lv_base : BaseChannel; lv_value : value }.

(* internal/harness/graph/channels/last_value.go:16-21 NewLastValue *)
Definition NewLastValue (typ : value) : LastValue :=
  {| lv_base := new_base typ; lv_value := VMissing |}.

(* internal/harness/graph/channels/last_value.go:24-29 LastValue.Get *)
Definition LastValue_Get (c : LastValue) : value * option error :=
  if IsMissing (lv_value c) then (VNil, empty_err) else (lv_value c, None).

(* internal/harness/graph/channels/last_value.go:32-34 LastValue.IsAvailable *)
Definition LastValue_IsAvailable (c : LastValue) : bool := negb (IsMissing (lv_value c)).

(* internal/harness/graph/channels/last_value.go:37-48 LastValue.Update *)
Definition LastValue_Update (c : LastValue) (values : list value)
    : LastValue * (bool * option error) :=
  match values with
  | [] => (c, (false, None))
  | [v] => ({| lv_base := lv_base c; lv_value := v |}, (true, None))
  | _ => (c, (false, Some (InvalidUpdateError ("At key '" +:+ Key (lv_base c)
           +:+ "': Can receive only one value per step. Use a reducer to handle multiple values."))))
  end.

(* internal/harness/graph/channels/last_value.go:51-56 LastValue.Copy *)
Definition LastValue_Copy (c : LastValue) : LastValue :=
  {| lv_base := rebase (lv_base c); lv_value := lv_value c |}.

(* internal/harness/graph/channels/last_value.go:59-61 LastValue.Checkpoint *)
Definition LastValue_Checkpoint (c : LastValue) : value := lv_value c.

(* internal/harness/graph/channels/last_value.go:64-71 LastValue.FromCheckpoint *)
Definition LastValue_FromCheckpoint (c : LastValue) (checkpoint : value) : LastValue :=
  {| lv_base := rebase (lv_base c);
     lv_value := if IsMissing checkpoint then VMissing else checkpoint |}.

(** ** AnyValue: the last of any number of values *)

(* internal/harness/graph/channels/any_value.go:8-11 AnyValue *)
Record AnyValue := { av_base : BaseChannel; av_value : value }.

(* internal/harness/graph/channels/any_value.go:14-19 NewAnyValue *)
Definition NewAnyValue (typ : value) : AnyValue :=
  {| av_base := new_base typ; av_value := VMissing |}.

(* internal/harness/graph/channels/any_value.go:22-27 AnyValue.Get *)
Definition AnyValue_Get (c : AnyValue) : value * option error :=
  if IsMissing (av_value c) then (VNil, empty_err) else (av_value c, None).

(* internal/harness/graph/channels/any_value.go:30-32 AnyValue.IsAvailable *)
Definition AnyValue_IsAvailable (c : AnyValue) : bool := negb (IsMissing (av_value c)).

(* internal/harness/graph/channels/any_value.go:36-42 AnyValue.Update *)
Definition AnyValue_Update (c : AnyValue) (values : list value)
    : AnyValue * (bool * option error) :=
  match last values with
  | None => (c, (false, None))
  | Some v => ({| av_base := av_base c; av_value := v |}, (true, None))
  end.

(* internal/harness/graph/channels/any_value.go:45-50 AnyValue.Copy *)
Definition AnyValue_Copy (c : AnyValue) : AnyValue :=
  {| av_base := rebase (av_base c); av_value := av_value c |}.

(* internal/harness/graph/channels/any_value.go:53-55 AnyValue.Checkpoint *)
Definition AnyValue_Checkpoint (c : AnyValue) : value := av_value c.

(* internal/harness/graph/channels/any_value.go:58-65 AnyValue.FromCheckpoint *)
Definition AnyValue_FromCheckpoint (c : AnyValue) (checkpoint : value) : AnyValue :=
  {| av_base := rebase (av_base c);
     av_value := if IsMissing checkpoint then VMissing else checkpoint |}.

(** ** EphemeralValue: cleared by the first read *)

(* internal/harness/graph/channels/ephemeral_value.go:8-12 EphemeralValue *)
Record EphemeralValue := { ev_base : BaseChannel; ev_value : value; ev_guard : bool }.

(* internal/harness/graph/channels/ephemeral_value.go:16-22 NewEphemeralValue *)
Definition NewEphemeralValue (typ : value) (guard : bool) : EphemeralValue :=
  {| ev_base := new_base typ; ev_value := VMissing; ev_guard := guard |}.

(* internal/harness/graph/channels/ephemeral_value.go:25-35 EphemeralValue.Get *)
Definition EphemeralValue_Get (c : EphemeralValue) : EphemeralValue * (value * option error) :=
  if IsMissing (ev_value c) then
    (c, (VNil, if ev_guard c then empty_err else None))
  else
    ({| ev_base := ev_base c; ev_value := VMissing; ev_guard := ev_guard c |},
     (ev_value c, None)).

(* internal/harness/graph/channels/ephemeral_value.go:38-40 EphemeralValue.IsAvailable *)
Definition EphemeralValue_IsAvailable (c : EphemeralValue) : bool := negb (IsMissing (ev_value c)).

(* internal/harness/graph/channels/ephemeral_value.go:44-50 EphemeralValue.Update *)
Definition EphemeralValue_Update (c : EphemeralValue) (values : list value)
    : EphemeralValue * (bool * option error) :=
  match last values with
  | None => (c, (false, None))
  | Some v => ({| ev_base := ev_base c; ev_value := v; ev_guard := ev_guard c |}, (true, None))
  end.

(* internal/harness/graph/channels/ephemeral_value.go:53-58 EphemeralValue.Copy *)
Definition EphemeralValue_Copy (c : EphemeralValue) : EphemeralValue :=
  {| ev_base := rebase (ev_base c); ev_value := ev_value c; ev_guard := ev_guard c |}.

(* internal/harness/graph/channels/ephemeral_value.go:61-63 EphemeralValue.Checkpoint *)
Definition EphemeralValue_Checkpoint (c : EphemeralValue) : value := ev_value c.

(* internal/harness/graph/channels/ephemeral_value.go:66-73 EphemeralValue.FromCheckpoint *)
Definition EphemeralValue_FromCheckpoint (c : EphemeralValue) (checkpoint : value)
    : EphemeralValue :=
  {| ev_base := rebase (ev_base c);
     ev_value := if IsMissing checkpoint then VMissing else checkpoint;
     ev_guard := ev_guard c |}.

(** ** UntrackedValue: never in a checkpoint *)

(* internal/harness/graph/channels/untracked.go:9-12 UntrackedValue *)
Record UntrackedValue := { uv_base : BaseChannel; uv_value : value }.

(* internal/harness/graph/channels/untracked.go:15-20 NewUntrackedValue *)
Definition NewUntrackedValue (typ : value) : UntrackedValue :=
  {| uv_base := new_base typ; uv_value := VMissing |}.

(* internal/harness/graph/channels/untracked.go:23-28 UntrackedValue.Get *)
Definition UntrackedValue_Get (c : UntrackedValue) : value * option error :=
  if IsMissing (uv_value c) then (VNil, empty_err) else (uv_value c, None).

(* internal/harness/graph/channels/untracked.go:31-33 UntrackedValue.IsAvailable *)
Definition UntrackedValue_IsAvailable (c : UntrackedValue) : bool := negb (IsMissing (uv_value c)).

(* internal/harness/graph/channels/untracked.go:36-42 UntrackedValue.Update *)
Definition UntrackedValue_Update (c : UntrackedValue) (values : list value)
    : UntrackedValue * (bool * option error) :=
  match last values with
  | None => (c, (false, None))
  | Some v => ({| uv_base := uv_base c; uv_value := v |}, (true, None))
  end.

(* internal/harness/graph/channels/untracked.go:45-49 UntrackedValue.Copy *)
Definition UntrackedValue_Copy (c : UntrackedValue) : UntrackedValue :=
  {| uv_base := rebase (uv_base c); uv_value := VMissing |}.

(* internal/harness/graph/channels/untracked.go:52-54 UntrackedValue.Checkpoint *)
Definition UntrackedValue_Checkpoint (c : UntrackedValue) : value := VMissing.

(* internal/harness/graph/channels/untracked.go:57-59 UntrackedValue.FromCheckpoint *)
Definition UntrackedValue_FromCheckpoint (c : UntrackedValue) (checkpoint : value)
    : UntrackedValue := NewUntrackedValue (Typ (uv_base c)).

(** ** Topic: a list of values, emptied at each step unless it accumulates *)

(* internal/harness/graph/channels/topic.go:8-12 Topic *)
Record Topic := { tp_base : BaseChannel; tp_values : list value; tp_accumulate : bool }.

(* internal/harness/graph/channels/topic.go:16-22 NewTopic *)
Definition NewTopic (typ : value) (accumulate : bool) : Topic :=
  {| tp_base := new_base typ; tp_values := []; tp_accumulate := accumulate |}.

(* internal/harness/graph/channels/topic.go:25-32 Topic.Get *)
Definition Topic_Get (c : Topic) : value * option error :=
  match tp_values c with [] => (VNil, empty_err) | vs => (VList vs, None) end.

(* internal/harness/graph/channels/topic.go:35-37 Topic.IsAvailable *)
Definition Topic_IsAvailable (c : Topic) : bool := (0 <? length (tp_values c))%nat.

(* internal/harness/graph/channels/topic.go:40-50 flatten *)
Definition flatten (values : list value) : list value :=
  foldl (λ result v, result ++ match v with VList l => l | _ => [v] end) [] values.

(* internal/harness/graph/channels/topic.go:53-67 Topic.Update *)
Definition Topic_Update (c : Topic) (values : list value) : Topic * (bool * option error) :=
  let cleared := negb (tp_accumulate c) in
  let updated := cleared && (0 <? length (tp_values c))%nat in
  let vs := if cleared then [] else tp_values c in
  let flatValues := flatten values in
  let with_values vs := {| tp_base := tp_base c; tp_values := vs;
                           tp_accumulate := tp_accumulate c |} in
  if (0 <? length flatValues)%nat then (with_values (vs ++ flatValues), (true, None))
  else (with_values vs, (updated, None)).

(* internal/harness/graph/channels/topic.go:70-76 Topic.Copy *)
Definition Topic_Copy (c : Topic) : Topic :=
  {| tp_base := rebase (tp_base c); tp_values := tp_values c; tp_accumulate := tp_accumulate c |}.

(* internal/harness/graph/channels/topic.go:79-86 Topic.Checkpoint *)
Definition Topic_Checkpoint (c : Topic) : value :=
  match tp_values c with [] => VMissing | vs => VList vs end.

(* internal/harness/graph/channels/topic.go:89-99 Topic.FromCheckpoint *)
Definition Topic_FromCheckpoint (c : Topic) (checkpoint : value) : Topic :=
  {| tp_base := rebase (tp_base c);
     tp_values := match checkpoint with VList v => v | _ => [] end;
     tp_accumulate := tp_accumulate c |}.

(** ** BinaryOperatorAggregate: the fold of the values received *)

(* internal/harness/graph/channels/binop.go:12-12 BinaryOperator *)
Definition BinaryOperator : Type := value → value → value.

(** [reflect.Zero] of the dynamic type of a sample; a struct field's sample
    stands for a value of the field's static type. *)
Fixpoint reflect_zero (sample : value) : value :=
  match sample with
  | VNil => VNil
  | VBool _ => VBool false
  | VInt _ => VInt 0
  | VFloat _ => VFloat (f64_of_int 0)
  | VStr _ => VStr ""
  | VTime _ => VTime zero_time
  | VStruct fs => VStruct (map (λ f : string * option string * value, (f.1, reflect_zero f.2)) fs)
  | VOther tn _ _ => VOther tn None None
  | v => v
  end.

(** An empty slice or map of the sample's type; the zero value of other types. *)
Definition zero_elem (sample : value) : value :=
  match sample with
  | VList _ => VList []
  | VBytes _ => VBytes ""
  | VMapList _ => VMapList []
  | VMap _ => VMap ∅
  | VMapBool _ => VMapBool ∅
  | VMapInt _ => VMapInt ∅
  | VMapMapInt _ => VMapMapInt ∅
  | VPtr _ | VOverwrite _ | VMissing => VOther "nil pointer" None (Some VNil)
  | v => reflect_zero v
  end.

(* internal/harness/graph/channels/binop.go:35-75 createZeroValue *)
Definition createZeroValue (typ : value) : value :=
  match typ with
  | VNil => VMissing
  | VPtr v => zero_elem v
  | VOverwrite _ => VStruct [("Value", Some "Value", VNil)]
  | VMissing => VStruct []
  | v => zero_elem v
  end.

(* internal/harness/graph/channels/binop.go:15-19 BinaryOperatorAggregate *)
Record BinaryOperatorAggregate :=
  { bo_base : BaseChannel; bo_value : value; bo_operator : BinaryOperator }.

(* internal/harness/graph/channels/binop.go:22-32 NewBinaryOperatorAggregate *)
Definition NewBinaryOperatorAggregate (typ : value) (operator : BinaryOperator)
    : BinaryOperatorAggregate :=
  {| bo_base := new_base typ; bo_value := createZeroValue typ; bo_operator := operator |}.

(* internal/harness/graph/channels/binop.go:78-83 BinaryOperatorAggregate.Get *)
Definition BinOp_Get (c : BinaryOperatorAggregate) : value * option error :=
  if IsMissing (bo_value c) then (VNil, empty_err) else (bo_value c, None).

(* internal/harness/graph/channels/binop.go:86-88 BinaryOperatorAggregate.IsAvailable *)
Definition BinOp_IsAvailable (c : BinaryOperatorAggregate) : bool := negb (IsMissing (bo_value c)).

(* internal/harness/graph/channels/binop.go:91-114 isOverwrite *)
Definition isOverwrite (val : value) : option value :=
  match val with
  | VOther _ (Some w) _ => Some w
  | VMap m => if decide (size m = 1) then m !! "__overwrite__" else None
  | _ => None
  end.

(** The loop of [Update]: the current value, and whether an overwrite was seen. *)
Fixpoint binop_loop (op : BinaryOperator) (cur : value) (seenOverwrite : bool)
    (values : list value) : value * (bool * option error) :=
  match values with
  | [] => (cur, (true, None))
  | v :: rest =>
      match isOverwrite v with
      | Some overwriteValue =>
          if seenOverwrite then
            (cur, (false, Some (InvalidUpdateError
                     "Can receive only one Overwrite value per super-step.")))
          else binop_loop op overwriteValue true rest
      | None => binop_loop op (if seenOverwrite then cur else op cur v) seenOverwrite rest
      end
  end.

Definition with_bo_value (c : BinaryOperatorAggregate) (v : value) : BinaryOperatorAggregate :=
  {| bo_base := bo_base c; bo_value := v; bo_operator := bo_operator c |}.

(* internal/harness/graph/channels/binop.go:117-148 BinaryOperatorAggregate.Update *)
Definition BinOp_Update (c : BinaryOperatorAggregate) (values : list value)
    : BinaryOperatorAggregate * (bool * option error) :=
  match values with
  | [] => (c, (false, None))
  | first :: rest =>
      let '(v, r) :=
        if IsMissing (bo_value c) then binop_loop (bo_operator c) first false rest
        else binop_loop (bo_operator c) (bo_value c) false values in
      (with_bo_value c v, r)
  end.

(* internal/harness/graph/channels/binop.go:151-156 BinaryOperatorAggregate.Copy *)
Definition BinOp_Copy (c : BinaryOperatorAggregate) : BinaryOperatorAggregate :=
  {| bo_base := rebase (bo_base c); bo_value := bo_value c; bo_operator := bo_operator c |}.

(* internal/harness/graph/channels/binop.go:159-161 BinaryOperatorAggregate.Checkpoint *)
Definition BinOp_Checkpoint (c : BinaryOperatorAggregate) : value := bo_value c.

(* internal/harness/graph/channels/binop.go:164-171 BinaryOperatorAggregate.FromCheckpoint *)
Definition BinOp_FromCheckpoint (c : BinaryOperatorAggregate) (checkpoint : value)
    : BinaryOperatorAggregate :=
  {| bo_base := rebase (bo_base c);
     bo_value := if IsMissing checkpoint then createZeroValue (Typ (bo_base c)) else checkpoint;
     bo_operator := bo_operator c |}.

(* internal/harness/graph/channels/binop.go:174-182 StringConcat *)
Definition StringConcat (sprint : value → string) (a b : value) : value :=
  match a, b with
  | VStr sa, VStr sb => VStr (sa +:+ sb)
  | _, _ => VStr (sprint a +:+ sprint b)
  end.

(* internal/harness/graph/channels/binop.go:186-199 IntAdd *)
Definition IntAdd (a b : value) : value :=
  match a, b with
  | VInt ai, VInt bi => VInt (int_add ai bi)
  | VFloat af, VFloat bf => VFloat (f64_add af bf)
  | _, _ => a
  end.

(* internal/harness/graph/channels/binop.go:202-216 ListAppend *)
Definition ListAppend (a b : value) : value :=
  match a with
  | VList al => match b with VList bl => VList (al ++ bl) | _ => VList (al ++ [b]) end
  | _ => VList [a; b]
  end.

(** ** LastValueAfterFinish: available only once the run has finished *)

(* internal/harness/graph/channels/barrier.go:394-399 LastValueAfterFinish *)
Record LastValueAfterFinish :=
  { la_base : BaseChannel; la_value : value; la_finished : bool }.

(* internal/harness/graph/channels/barrier.go:402-408 NewLastValueAfterFinish *)
Definition NewLastValueAfterFinish (typ : value) : LastValueAfterFinish :=
  {| la_base := new_base typ; la_value := VMissing; la_finished := false |}.

(* internal/harness/graph/channels/barrier.go:411-424 LastValueAfterFinish.Get *)
Definition LastValueAfterFinish_Get (c : LastValueAfterFinish) : value * option error :=
  if la_finished c then
    if IsMissing (la_value c) then (VNil, empty_err) else (la_value c, None)
  else (VNil, empty_err).

(* internal/harness/graph/channels/barrier.go:427-431 LastValueAfterFinish.IsAvailable *)
Definition LastValueAfterFinish_IsAvailable (c : LastValueAfterFinish) : bool :=
  la_finished c && negb (IsMissing (la_value c)).

(* internal/harness/graph/channels/barrier.go:434-451 LastValueAfterFinish.Update *)
Definition LastValueAfterFinish_Update (c : LastValueAfterFinish) (values : list value)
    : LastValueAfterFinish * (bool * option error) :=
  match values with
  | [] => (c, (false, None))
  | [v] => ({| la_base := la_base c; la_value := v; la_finished := la_finished c |}, (true, None))
  | _ => (c, (false, Some (InvalidUpdateError
      "Can receive only one value per step. Use a reducer to handle multiple values.")))
  end.

(* internal/harness/graph/channels/barrier.go:454-463 LastValueAfterFinish.Copy *)
Definition LastValueAfterFinish_Copy (c : LastValueAfterFinish) : LastValueAfterFinish :=
  {| la_base := rebase (la_base c); la_value := la_value c; la_finished := la_finished c |}.

(* internal/harness/graph/channels/barrier.go:466-470 LastValueAfterFinish.Checkpoint *)
Definition LastValueAfterFinish_Checkpoint (c : LastValueAfterFinish) : value := la_value c.

(* internal/harness/graph/channels/barrier.go:473-485 LastValueAfterFinish.FromCheckpoint *)
Definition LastValueAfterFinish_FromCheckpoint (c : LastValueAfterFinish) (checkpoint : value)
    : LastValueAfterFinish :=
  {| la_base := rebase (la_base c);
     la_value := if IsMissing checkpoint then VMissing else checkpoint;
     la_finished := false |}.

(* internal/harness/graph/channels/barrier.go:488-497 LastValueAfterFinish.Finish *)
Definition LastValueAfterFinish_Finish (c : LastValueAfterFinish)
    : LastValueAfterFinish * bool :=
  ({| la_base := la_base c; la_value := la_value c; la_finished := true |}, negb (la_finished c)).

(** ** Facts *)

Lemma flatten_app l1 l2 : flatten (l1 ++ l2) = flatten l1 ++ flatten l2.
Proof.
  assert (H : ∀ l acc, foldl (λ result v, result ++ match v with VList l => l | _ => [v] end) acc l
    = acc ++ flatten l).
  { intros l. unfold flatten. induction l as [|v l IH]; intros acc; simpl.
    - by rewrite app_nil_r.
    - rewrite IH, (IH (match v with VList l => l | _ => [v] end)). by rewrite app_assoc. }
  unfold flatten at 1. rewrite foldl_app. by rewrite H.
Qed.

Lemma IsMissing_true v : IsMissing v = true ↔ v = VMissing.
Proof. by destruct v. Qed.

Lemma if_missing v : (if IsMissing v then VMissing else v) = v.
Proof. by destruct v. Qed.

#[export] Hint Rewrite if_missing : graph_range.

(** Without overwrites, an update is the left fold of the operator. *)
Lemma binop_loop_fold op cur values :
  Forall (λ v, isOverwrite v = None) values →
  binop_loop op cur false values = (foldl op cur values, (true, None)).
Proof.
  intros Hv. revert cur. induction Hv as [|v vs Hv Hvs IH]; intros cur; simpl; [done|].
  by rewrite Hv, IH.
Qed.

(** After an overwrite, later plain values are ignored. *)
Lemma binop_loop_seen op cur values :
  Forall (λ v, isOverwrite v = None) values →
  binop_loop op cur true values = (cur, (true, None)).
Proof. induction 1 as [|v vs Hv Hvs IH]; simpl; [done|]. by rewrite Hv, IH. Qed.

Lemma binop_loop_overwrite op cur pre ow w post :
  Forall (λ v, isOverwrite v = None) pre → isOverwrite ow = Some w →
  Forall (λ v, isOverwrite v = None) post →
  binop_loop op cur false (pre ++ ow :: post) = (w, (true, None)).
Proof.
  intros Hpre How Hpost. revert cur.
  induction Hpre as [|v vs Hv Hvs IH]; intros cur; simpl.
  - by rewrite How, binop_loop_seen.
  - by rewrite Hv, IH.
Qed.
