(* ===== verification/Channels.v ===== *)
(** * Barrier channels, the channel interface and reducer channels (channels/barrier.go,
    base.go, reducer.go)

    Barriers that wait for names; then what the engine may ask of any channel, as a
    class with laws, and the sum of all implementations as its instance. *)

From S2P Require Import Prelude GoValue Errors StateMap ValueChannels.

(** ** Barrier channels (channels/barrier.go)

    A barrier becomes available when every expected name was received.  The
    two implementations are [map[string]bool] based; the last part of the file
    relates the first one to the specification "a set of names still awaited". *)

(** [%T] of a value. *)
Definition type_name (v : value) : string :=
  match v with
  | VNil => "<nil>"
  | VBool _ => "bool"
  | VInt _ => "int"
  | VFloat _ => "float64"
  | VStr _ => "string"
  | VBytes _ => "[]uint8"
  | VTime _ => "time.Time"
  | VList _ => "[]interface {}"
  | VMap _ => "map[string]interface {}"
  | VMapBool _ => "map[string]bool"
  | VMapInt _ => "map[string]int"
  | VMapMapInt _ => "map[string]map[string]int"
  | VMapList _ => "[]map[string]interface {}"
  | VStruct _ => "struct"
  | VPtr _ => "pointer"
  | VOverwrite _ => "*types.Overwrite"
  | VMissing => "*channels.missingSentinel"
  | VOther tn _ _ => tn
  end.

(** [%v] of a [map[string]bool]: the entries in key order. *)
Definition sprint_set (m : gmap string bool) : string :=
  "map[" +:+ String.concat " " (map (λ k, k +:+ (if default false (m !! k) then ":true" else ":false"))
    (sort_strings (map_to_list m).*1)) +:+ "]".

(** [c.seen[name]] of a [map[string]bool]: false when absent. *)
Definition has (m : gmap string bool) (name : string) : bool := default false (m !! name).

(** [for _, name := range waitFor { names[name] = true }] *)
Definition name_set (waitFor : list string) : gmap string bool :=
  foldl (λ names name, <[name := true]> names) ∅ waitFor.

(** The method [namesMatchSeen], which both barriers have verbatim. *)
(* internal/harness/graph/channels/barrier.go:186-196 NamedBarrierValue.namesMatchSeen *)
Definition namesMatchSeen `{MapOrder} (names seen : gmap string bool) : bool :=
  if decide (size names ≠ size seen) then false
  else forallb (λ kv, has seen kv.1) (range names).

(** The loop of [Update], which both barriers have verbatim: the entries before
    a bad value stay recorded. *)
Fixpoint barrier_loop (names seen : gmap string bool) (updated : bool) (values : list value)
    : gmap string bool * (bool * option error) :=
  match values with
  | [] => (seen, (updated, None))
  | VStr name :: rest =>
      match names !! name with
      | Some _ =>
          if has seen name then barrier_loop names seen updated rest
          else barrier_loop names (<[name := true]> seen) true rest
      | None => (seen, (false, Some (InvalidUpdateError
                  ("value '" +:+ name +:+ "' not in expected names " +:+ sprint_set names))))
      end
  | v :: _ => (seen, (false, Some (InvalidUpdateError
                ("value must be a string, got " +:+ type_name v))))
  end.

(** The decoding of a checkpointed [seen] map, which both barriers have
    verbatim: after a JSON round trip the map is a [map[string]interface{}]. *)
Definition decode_seen `{MapOrder} (v : value) : gmap string bool :=
  match v with
  | VMapBool m => copy_loop id m ∅
  | VMap m => foldl (λ seen kv, match kv.2 with VBool b => <[kv.1 := b]> seen | _ => seen end)
                ∅ (range m)
  | _ => ∅
  end.

(** ** NamedBarrierValue *)

(* internal/harness/graph/channels/barrier.go:12-17 NamedBarrierValue *)
Record NamedBarrierValue :=
  { nb_base : BaseChannel; nb_names : gmap string bool; nb_seen : gmap string bool }.

(* internal/harness/graph/channels/barrier.go:21-31 NewNamedBarrierValue *)
Definition NewNamedBarrierValue (typ : value) (waitFor : list string) : NamedBarrierValue :=
  {| nb_base := new_base typ; nb_names := name_set waitFor; nb_seen := ∅ |}.

Definition with_seen (c : NamedBarrierValue) (seen : gmap string bool) : NamedBarrierValue :=
  {| nb_base := nb_base c; nb_names := nb_names c; nb_seen := seen |}.

(* internal/harness/graph/channels/barrier.go:34-42 NamedBarrierValue.Get *)
Definition NamedBarrier_Get `{MapOrder} (c : NamedBarrierValue) : value * option error :=
  if namesMatchSeen (nb_names c) (nb_seen c) then (VNil, None) else (VNil, empty_err).

(* internal/harness/graph/channels/barrier.go:45-49 NamedBarrierValue.IsAvailable *)
Definition NamedBarrier_IsAvailable `{MapOrder} (c : NamedBarrierValue) : bool :=
  namesMatchSeen (nb_names c) (nb_seen c).

(* internal/harness/graph/channels/barrier.go:53-83 NamedBarrierValue.Update *)
Definition NamedBarrier_Update (c : NamedBarrierValue) (values : list value)
    : NamedBarrierValue * (bool * option error) :=
  let '(seen, r) := barrier_loop (nb_names c) (nb_seen c) false values in (with_seen c seen, r).

(* internal/harness/graph/channels/barrier.go:86-106 NamedBarrierValue.Copy *)
Definition NamedBarrier_Copy `{MapOrder} (c : NamedBarrierValue) : NamedBarrierValue :=
  {| nb_base := rebase (nb_base c); nb_names := copy_loop id (nb_names c) ∅;
     nb_seen := copy_loop id (nb_seen c) ∅ |}.

(* internal/harness/graph/channels/barrier.go:109-123 NamedBarrierValue.Checkpoint *)
Definition NamedBarrier_Checkpoint `{MapOrder} (c : NamedBarrierValue) : value :=
  if decide (size (nb_seen c) = 0) then VMissing else VMapBool (copy_loop id (nb_seen c) ∅).

(* internal/harness/graph/channels/barrier.go:126-157 NamedBarrierValue.FromCheckpoint *)
Definition NamedBarrier_FromCheckpoint `{MapOrder} (c : NamedBarrierValue) (checkpoint : value)
    : NamedBarrierValue :=
  {| nb_base := rebase (nb_base c); nb_names := copy_loop id (nb_names c) ∅;
     nb_seen := decode_seen checkpoint |}.

(* internal/harness/graph/channels/barrier.go:161-170 NamedBarrierValue.Finish *)
Definition NamedBarrier_Finish (c : NamedBarrierValue) : NamedBarrierValue * bool :=
  if decide (0 < size (nb_seen c)) then (with_seen c ∅, true) else (c, false).

(* internal/harness/graph/channels/barrier.go:174-183 NamedBarrierValue.Consume *)
Definition NamedBarrier_Consume `{MapOrder} (c : NamedBarrierValue) : NamedBarrierValue * bool :=
  if namesMatchSeen (nb_names c) (nb_seen c) && bool_decide (0 < size (nb_seen c))
  then (with_seen c ∅, true) else (c, false).

(** ** NamedBarrierValueAfterFinish *)

(* internal/harness/graph/channels/barrier.go:200-206 NamedBarrierValueAfterFinish *)
Record NamedBarrierValueAfterFinish :=
  { na_base : BaseChannel; na_names : gmap string bool; na_seen : gmap string bool;
    na_finished : bool }.

(* internal/harness/graph/channels/barrier.go:209-220 NewNamedBarrierValueAfterFinish *)
Definition NewNamedBarrierValueAfterFinish (typ : value) (waitFor : list string)
    : NamedBarrierValueAfterFinish :=
  {| na_base := new_base typ; na_names := name_set waitFor; na_seen := ∅; na_finished := false |}.

(* internal/harness/graph/channels/barrier.go:223-231 NamedBarrierValueAfterFinish.Get *)
Definition NamedBarrierAF_Get `{MapOrder} (c : NamedBarrierValueAfterFinish) : value * option error :=
  if negb (na_finished c) || negb (namesMatchSeen (na_names c) (na_seen c))
  then (VNil, empty_err) else (VNil, None).

(* internal/harness/graph/channels/barrier.go:234-238 NamedBarrierValueAfterFinish.IsAvailable *)
Definition NamedBarrierAF_IsAvailable `{MapOrder} (c : NamedBarrierValueAfterFinish) : bool :=
  na_finished c && namesMatchSeen (na_names c) (na_seen c).

(* internal/harness/graph/channels/barrier.go:241-271 NamedBarrierValueAfterFinish.Update *)
Definition NamedBarrierAF_Update (c : NamedBarrierValueAfterFinish) (values : list value)
    : NamedBarrierValueAfterFinish * (bool * option error) :=
  let '(seen, r) := barrier_loop (na_names c) (na_seen c) false values in
  ({| na_base := na_base c; na_names := na_names c; na_seen := seen;
      na_finished := na_finished c |}, r).

(* internal/harness/graph/channels/barrier.go:274-296 NamedBarrierValueAfterFinish.Copy *)
Definition NamedBarrierAF_Copy `{MapOrder} (c : NamedBarrierValueAfterFinish)
    : NamedBarrierValueAfterFinish :=
  {| na_base := rebase (na_base c); na_names := copy_loop id (na_names c) ∅;
     na_seen := copy_loop id (na_seen c) ∅; na_finished := na_finished c |}.

(* internal/harness/graph/channels/barrier.go:299-313 NamedBarrierValueAfterFinish.Checkpoint *)
Definition NamedBarrierAF_Checkpoint (c : NamedBarrierValueAfterFinish) : value :=
  if bool_decide (size (na_seen c) = 0) && negb (na_finished c) then VMissing
  else VMap {[ "seen" := VMapBool (na_seen c); "finished" := VBool (na_finished c) ]}.

(* internal/harness/graph/channels/barrier.go:316-351 NamedBarrierValueAfterFinish.FromCheckpoint *)
Definition NamedBarrierAF_FromCheckpoint `{MapOrder} (c : NamedBarrierValueAfterFinish)
    (checkpoint : value) : NamedBarrierValueAfterFinish :=
  let fresh seen finished :=
    {| na_base := rebase (na_base c); na_names := copy_loop id (na_names c) ∅;
       na_seen := seen; na_finished := finished |} in
  match checkpoint with
  | VMap cp =>
      fresh (decode_seen (default VNil (cp !! "seen")))
            (match cp !! "finished" with Some (VBool b) => b | _ => false end)
  | _ => fresh ∅ false
  end.

(* internal/harness/graph/channels/barrier.go:355-364 NamedBarrierValueAfterFinish.Finish *)
Definition NamedBarrierAF_Finish `{MapOrder} (c : NamedBarrierValueAfterFinish)
    : NamedBarrierValueAfterFinish * bool :=
  if negb (na_finished c) && namesMatchSeen (na_names c) (na_seen c)
  then ({| na_base := na_base c; na_names := na_names c; na_seen := na_seen c;
           na_finished := true |}, true)
  else (c, false).

(* internal/harness/graph/channels/barrier.go:368-378 NamedBarrierValueAfterFinish.Consume *)
Definition NamedBarrierAF_Consume `{MapOrder} (c : NamedBarrierValueAfterFinish)
    : NamedBarrierValueAfterFinish * bool :=
  if na_finished c && namesMatchSeen (na_names c) (na_seen c)
     && bool_decide (0 < size (na_seen c))
  then ({| na_base := na_base c; na_names := na_names c; na_seen := ∅; na_finished := false |}, true)
  else (c, false).

(** ** The specification: which awaited names were received *)

(** [all_true m]: the map represents the set of its keys. *)
Definition all_true (m : gmap string bool) : Prop := map_Forall (λ _ b, b = true) m.

(** The invariant of a barrier. *)
Definition barrier_ok (c : NamedBarrierValue) : Prop :=
  all_true (nb_names c) ∧ all_true (nb_seen c) ∧ dom (nb_seen c) ⊆ dom (nb_names c).

(** Which names an update delivers: those before the first value that is not an
    awaited name. *)
Fixpoint accepted (W : gset string) (values : list value) : gset string :=
  match values with
  | VStr n :: rest => if decide (n ∈ W) then {[n]} ∪ accepted W rest else ∅
  | _ => ∅
  end.

Inductive barrier_op := BUpdate (values : list value) | BConsume | BFinish.

Definition barrier_step `{MapOrder} (c : NamedBarrierValue) (op : barrier_op) : NamedBarrierValue :=
  match op with
  | BUpdate vs => (NamedBarrier_Update c vs).1
  | BConsume => (NamedBarrier_Consume c).1
  | BFinish => (NamedBarrier_Finish c).1
  end.

Definition barrier_spec_step (W R : gset string) (op : barrier_op) : gset string :=
  match op with
  | BUpdate vs => R ∪ accepted W vs
  | BConsume => if decide (R = W) then ∅ else R
  | BFinish => ∅
  end.

Lemma all_true_lookup m k b : all_true m → m !! k = Some b → b = true.
Proof. intros Hm Hk. by eapply Hm in Hk. Qed.

Lemma has_dom m k : all_true m → has m k = true ↔ k ∈ dom m.
Proof.
  intros Hm. unfold has. rewrite elem_of_dom. destruct (m !! k) as [b|] eqn:E; simpl.
  - apply (all_true_lookup _ _ _ Hm) in E. subst. split; eauto.
  - split; [done|by intros []].
Qed.

Lemma name_set_all_true waitFor : all_true (name_set waitFor).
Proof.
  intros k b. unfold name_set. rewrite foldl_insert_true_lookup.
  case_decide; [by intros [= <-]|]. by rewrite lookup_empty.
Qed.

Lemma name_set_dom waitFor : dom (name_set waitFor) = list_to_set waitFor.
Proof.
  apply set_eq. intros k. unfold name_set. rewrite elem_of_dom, foldl_insert_true_lookup.
  rewrite elem_of_list_to_set. case_decide; [by split; eauto|].
  rewrite lookup_empty. split; [by intros []|done].
Qed.

(** On sets, the test compares the sets. *)
Lemma namesMatchSeen_spec `{MapOrder} names seen :
  all_true seen → dom seen ⊆ dom names →
  namesMatchSeen names seen = true ↔ dom seen = dom names.
Proof.
  intros Hs Hsub. unfold namesMatchSeen. split.
  - case_decide as Hsz; [done|]. intros Hall. apply set_eq. intros k. split; [apply Hsub|].
    intros [b Hb]%elem_of_dom. apply has_dom; [done|].
    rewrite forallb_forall in Hall. apply (Hall (k, b)), list_elem_of_In, elem_of_range, Hb.
  - intros Hd. case_decide as Hsz.
    { exfalso. apply Hsz. by rewrite <- !size_dom, Hd. }
    apply forallb_forall. intros [k b] Hk%list_elem_of_In%elem_of_range. simpl.
    apply has_dom; [done|]. rewrite Hd. apply elem_of_dom. eauto.
Qed.

Lemma barrier_loop_spec names seen u vs :
  all_true names → all_true seen → dom seen ⊆ dom names →
  all_true (barrier_loop names seen u vs).1 ∧
  dom (barrier_loop names seen u vs).1 = dom seen ∪ accepted (dom names) vs.
Proof.
  intros Hn. revert seen u. induction vs as [|v vs IH]; intros seen u Hs Hsub.
  { simpl. split; [done|set_solver]. }
  cbn [barrier_loop accepted]. destruct v as [| | | |s| | | | | | | | | | | | |];
    try (split; [done|set_solver]).
  destruct (names !! s) as [b|] eqn:E.
  - assert (Hd : s ∈ dom names) by (apply elem_of_dom; eauto). rewrite decide_True by done.
    destruct (has seen s) eqn:Eh.
    + apply has_dom in Eh; [|done]. destruct (IH seen u Hs Hsub) as [? ->]. split; [done|set_solver].
    + destruct (IH (<[s := true]> seen) true) as [? ->].
      * by apply map_Forall_insert_2.
      * rewrite dom_insert. set_solver.
      * rewrite dom_insert_L. split; [done|set_solver].
  - rewrite decide_False by (by apply not_elem_of_dom). split; [done|set_solver].
Qed.

Lemma dom_nonempty_size (m : gmap string bool) : (0 < size m)%nat ↔ dom m ≠ ∅.
Proof.
  rewrite <- size_dom. split.
  - intros Hs Hd. rewrite Hd, size_empty in Hs. lia.
  - intros Hd. destruct (decide (size (dom m) = 0)) as [Hz|]; [|lia].
    by apply size_empty_inv in Hz; apply leibniz_equiv in Hz.
Qed.

Lemma barrier_step_ok `{MapOrder} c op :
  barrier_ok c → barrier_ok (barrier_step c op) ∧ nb_names (barrier_step c op) = nb_names c ∧
  dom (nb_seen (barrier_step c op)) = barrier_spec_step (dom (nb_names c)) (dom (nb_seen c)) op.
Proof.
  intros (Hn & Hs & Hsub). assert (Hempty : all_true ∅) by apply map_Forall_empty.
  destruct op as [vs| |]; simpl.
  - unfold NamedBarrier_Update.
    pose proof (barrier_loop_spec (nb_names c) (nb_seen c) false vs Hn Hs Hsub) as [Ht Hd].
    destruct (barrier_loop _ _ _ _) as [seen r]. simpl in *. repeat split; try done.
    simpl. rewrite Hd. clear Hd Ht Hs Hn. revert Hsub. generalize (dom (nb_seen c)) as R.
    generalize (dom (nb_names c)) as W. intros W R Hsub.
    assert (accepted W vs ⊆ W); [|set_solver].
    clear. induction vs as [|v vs IH]; simpl; [set_solver|].
    destruct v; try set_solver. case_decide; set_solver.
  - unfold NamedBarrier_Consume.
    pose proof (namesMatchSeen_spec (nb_names c) (nb_seen c) Hs Hsub) as Hm.
    destruct (namesMatchSeen _ _); simpl.
    + rewrite decide_True by (by apply Hm). case_bool_decide as Hz; simpl.
      * repeat split; simpl; try done; rewrite dom_empty_L; set_solver.
      * repeat split; try done. rewrite dom_nonempty_size in Hz.
        destruct (decide (dom (nb_seen c) = ∅)); [done|]. exfalso. by apply Hz.
    + rewrite decide_False by (by intros Hd%Hm). done.
  - unfold NamedBarrier_Finish. case_decide as Hz; simpl.
    + repeat split; simpl; try done; rewrite dom_empty_L; set_solver.
    + repeat split; try done. rewrite dom_nonempty_size in Hz.
      destruct (decide (dom (nb_seen c) = ∅)); [done|]. exfalso. by apply Hz.
Qed.

Lemma new_barrier_ok typ waitFor : barrier_ok (NewNamedBarrierValue typ waitFor).
Proof.
  split; [apply name_set_all_true|]. split; [apply map_Forall_empty|].
  simpl. rewrite dom_empty_L. set_solver.
Qed.

(** The invariant and the abstraction along a run. *)
Lemma barrier_run_ok `{MapOrder} ops c :
  barrier_ok c →
  barrier_ok (foldl barrier_step c ops) ∧ nb_names (foldl barrier_step c ops) = nb_names c ∧
  dom (nb_seen (foldl barrier_step c ops)) =
    foldl (barrier_spec_step (dom (nb_names c))) (dom (nb_seen c)) ops.
Proof.
  revert c. induction ops as [|op ops IH]; intros c Hc; [done|]. simpl.
  destruct (barrier_step_ok c op Hc) as (Hok & Hn & Hd).
  destruct (IH _ Hok) as (Hok' & Hn' & Hd'). rewrite Hn in *. by rewrite Hd', Hd.
Qed.

(** ** A checkpointed barrier survives a JSON round trip *)

Lemma decode_seen_map `{MapOrder} (m : gmap string bool) :
  decode_seen (VMap (VBool <$> m)) = m.
Proof.
  unfold decode_seen. apply map_eq. intros k.
  assert (Hl : ∀ l (acc : gmap string bool), NoDup l.*1 →
    foldl (λ seen kv, match kv.2 with VBool b => <[kv.1 := b]> seen | _ => seen end) acc l !! k =
    match list_to_map (M := gmap string value) l !! k with
    | Some (VBool b) => Some b | _ => acc !! k end).
  { intros l. induction l as [|[n v] l IH]; intros acc Hnd; [done|].
    apply NoDup_cons in Hnd as [Hni Hnd]. cbn [foldl]. rewrite IH by done.
    cbn [list_to_map foldr uncurry fst snd]. destruct (decide (k = n)) as [->|Hne].
    - rewrite (not_elem_of_list_to_map_1 l n) by done. rewrite lookup_insert_eq.
      destruct v; try done. by rewrite lookup_insert_eq.
    - rewrite (lookup_insert_ne _ n k v) by done. destruct v; try done.
      by rewrite (lookup_insert_ne acc). }
  rewrite Hl by apply range_NoDup. rewrite list_to_map_range, lookup_fmap.
  by destruct (m !! k).
Qed.

(** Keys that are valid UTF-8. *)
Definition utf8_keys {V} (m : gmap string V) : Prop := map_Forall (λ k _, utf8_fix k = k) m.

Lemma json_object_total {V} (f : V → value) (m : gmap string V) :
  utf8_keys m → json_object ((λ x, Some (f x)) <$> m) = Some (VMap (f <$> m)).
Proof.
  intros Hu. unfold json_object.
  set (ks := sort_strings (map_to_list ((λ x, Some (f x)) <$> m)).*1).
  assert (Hks : ∀ k, k ∈ ks ↔ is_Some (m !! k)).
  { intros k. unfold ks. rewrite sort_strings_perm.
    rewrite list_elem_of_fmap. split.
    - intros ([k' o] & -> & Hk%elem_of_map_to_list). rewrite lookup_fmap in Hk.
      apply fmap_Some in Hk as (x & Hx & _). simpl; eauto.
    - intros [x Hx]. exists (k, Some (f x)). split; [done|].
      apply elem_of_map_to_list. by rewrite lookup_fmap, Hx. }
  assert (Hmap : ∀ l, (∀ k, k ∈ l → k ∈ ks) →
    mapM (λ k, o ← ((λ x, Some (f x)) <$> m) !! k; v ← o; Some (utf8_fix k, v)) l
    = Some (omap (λ k, (λ x, (k, f x)) <$> m !! k) l)).
  { intros l. induction l as [|k l IH]; intros Hl; [done|].
    destruct (proj1 (Hks k) (Hl k ltac:(left))) as [x Hx].
    cbn. rewrite lookup_fmap, Hx. cbn. rewrite (Hu k x Hx). rewrite IH by (intros; apply Hl; by right).
    done. }
  rewrite Hmap by done. cbn. do 2 f_equal. apply map_eq. intros k.
  assert (Hf : ∀ l (acc : gmap string value), foldl (λ r kv, <[kv.1:=kv.2]> r) acc
      (omap (λ k, (λ x, (k, f x)) <$> m !! k) l) !! k
    = if decide (k ∈ l ∧ is_Some (m !! k)) then f <$> m !! k else acc !! k).
  { intros l. induction l as [|k' l IH]; intros acc.
    { rewrite decide_False; [done|]. by intros [?%elem_of_nil _]. }
    cbn. destruct (m !! k') as [x|] eqn:Hx; cbn; rewrite IH.
    - destruct (decide (k = k')) as [->|Hne].
      + rewrite Hx, lookup_insert_eq. repeat case_decide; set_solver.
      + rewrite lookup_insert_ne by done. repeat case_decide; set_solver.
    - repeat case_decide; try done; exfalso; destruct (decide (k = k')); subst;
        rewrite ?Hx in *; set_solver. }
  rewrite Hf, lookup_fmap, lookup_empty. case_decide as Hd; [done|].
  destruct (m !! k) as [x|] eqn:Hx; [|done]. exfalso. apply Hd. rewrite Hks, Hx. eauto.
Qed.

(** ** The Channel interface and the channel registry (channels/base.go, reducer.go)

    [ChannelOps] is the Go interface [Channel]; [ChannelLaws] is what the
    registry and the engine rely on.  The registry is written and verified
    against the interface; the sum type [Channel] of all implementations
    discharges the laws. *)

(** ** The interface *)

(* internal/harness/graph/channels/base.go:31-60 Channel *)
Class ChannelOps (C : Type) := {
  ch_GetKey : C → string;
  ch_SetKey : C → string → C;
  ch_Get : C → C * (value * option error);
  ch_IsAvailable : C → bool;
  ch_Update : C → list value → C * (bool * option error);
  ch_Copy : C → C;
  ch_Checkpoint : C → value;
  ch_FromCheckpoint : C → value → C;
  ch_Consume : C → C * bool;
  ch_Finish : C → C * bool;
  ch_GetVersion : C → Z;
}.

Class ChannelLaws (C : Type) `{ChannelOps C} := {
  law_get_err : ∀ c c' v e, ch_Get c = (c', (v, Some e)) → IsEmptyChannelError (Some e) = true;
  law_get_fail_id : ∀ c c' v e, ch_Get c = (c', (v, Some e)) → c' = c;
  law_update_nil : ∀ c, (ch_Update c []).2.2 = None;
  law_update_key : ∀ c vs, ch_GetKey (ch_Update c vs).1 = ch_GetKey c;
  law_update_updated : ∀ c vs e, (ch_Update c vs).2.2 = Some e → (ch_Update c vs).2.1 = false;
  law_restore : ∀ c, IsMissing (ch_Checkpoint c) = false →
    ch_Checkpoint (ch_FromCheckpoint c (ch_Checkpoint c)) = ch_Checkpoint c;
  law_copy : ∀ c, ch_Checkpoint (ch_Copy c) = ch_Checkpoint c;
}.

(** ** All implementations *)

(* internal/harness/graph/types/types.go:327-327 ReducerFunc *)
Definition ReducerFunc : Type := value → value → value.

(** The structs that embed [BaseChannel]. *)
Inductive BasicChannel :=
| ChLastValue (c : LastValue)
| ChAnyValue (c : AnyValue)
| ChEphemeralValue (c : EphemeralValue)
| ChUntrackedValue (c : UntrackedValue)
| ChTopic (c : Topic)
| ChBinaryOperatorAggregate (c : BinaryOperatorAggregate)
| ChNamedBarrierValue (c : NamedBarrierValue)
| ChNamedBarrierValueAfterFinish (c : NamedBarrierValueAfterFinish)
| ChLastValueAfterFinish (c : LastValueAfterFinish).

(** A channel is one of them under a stack of [ReducerChannel] wrappers, the
    outermost reducer first.  Every method but [Update] is promoted from, or
    delegates to, the wrapped channel. *)
(* internal/harness/graph/channels/reducer.go:10-13 ReducerChannel *)
Record Channel := MkChannel { reducers : list ReducerFunc; basic : BasicChannel }.

Definition Plain (b : BasicChannel) : Channel := MkChannel [] b.
Definition is_ReducerChannel (c : Channel) : bool :=
  match reducers c with [] => false | _ => true end.
Definition is_BinaryOperatorAggregate (c : Channel) : bool :=
  match c with MkChannel [] (ChBinaryOperatorAggregate _) => true | _ => false end.

(* internal/harness/graph/channels/reducer.go:16-21 NewReducerChannel *)
Definition NewReducerChannel (channel : Channel) (reducer : ReducerFunc) : Channel :=
  MkChannel (reducer :: reducers channel) (basic channel).

Definition base_of (b : BasicChannel) : BaseChannel :=
  match b with
  | ChLastValue c => lv_base c
  | ChAnyValue c => av_base c
  | ChEphemeralValue c => ev_base c
  | ChUntrackedValue c => uv_base c
  | ChTopic c => tp_base c
  | ChBinaryOperatorAggregate c => bo_base c
  | ChNamedBarrierValue c => nb_base c
  | ChNamedBarrierValueAfterFinish c => na_base c
  | ChLastValueAfterFinish c => la_base c
  end.

(** Assign the embedded [BaseChannel]. *)
Definition with_base (f : BaseChannel → BaseChannel) (b : BasicChannel) : BasicChannel :=
  match b with
  | ChLastValue c => ChLastValue {| lv_base := f (lv_base c); lv_value := lv_value c |}
  | ChAnyValue c => ChAnyValue {| av_base := f (av_base c); av_value := av_value c |}
  | ChEphemeralValue c => ChEphemeralValue
      {| ev_base := f (ev_base c); ev_value := ev_value c; ev_guard := ev_guard c |}
  | ChUntrackedValue c => ChUntrackedValue {| uv_base := f (uv_base c); uv_value := uv_value c |}
  | ChTopic c => ChTopic
      {| tp_base := f (tp_base c); tp_values := tp_values c; tp_accumulate := tp_accumulate c |}
  | ChBinaryOperatorAggregate c => ChBinaryOperatorAggregate
      {| bo_base := f (bo_base c); bo_value := bo_value c; bo_operator := bo_operator c |}
  | ChNamedBarrierValue c => ChNamedBarrierValue
      {| nb_base := f (nb_base c); nb_names := nb_names c; nb_seen := nb_seen c |}
  | ChNamedBarrierValueAfterFinish c => ChNamedBarrierValueAfterFinish
      {| na_base := f (na_base c); na_names := na_names c; na_seen := na_seen c;
         na_finished := na_finished c |}
  | ChLastValueAfterFinish c => ChLastValueAfterFinish
      {| la_base := f (la_base c); la_value := la_value c; la_finished := la_finished c |}
  end.

(* internal/harness/graph/channels/base.go:71-73 BaseChannel.GetKey *)
Definition Channel_GetKey (c : Channel) : string := Key (base_of (basic c)).

Definition Channel_SetKey (c : Channel) (key : string) : Channel :=
  MkChannel (reducers c) (with_base (λ b, Base_SetKey b key) (basic c)).

(* internal/harness/graph/channels/base.go:92-94 BaseChannel.GetVersion *)
Definition Channel_GetVersion (c : Channel) : Z := Version (base_of (basic c)).

(** The assertion to [interface{ SetVersion(int) }]: it succeeds on every
    struct that embeds [BaseChannel], but not on [ReducerChannel], which embeds
    the interface [Channel] only. *)
Definition SetVersion (c : Channel) (v : Z) : option Channel :=
  match reducers c with
  | [] => Some (Plain (with_base (λ b, Base_SetVersion b v) (basic c)))
  | _ => None
  end.

Definition keep {A B} (wrap : A → B) {R} (p : A * R) : B * R := (wrap p.1, p.2).

Section dispatch.
Context `{MapOrder}.

Definition basic_Get (b : BasicChannel) : BasicChannel * (value * option error) :=
  match b with
  | ChLastValue l => (b, LastValue_Get l)
  | ChAnyValue l => (b, AnyValue_Get l)
  | ChEphemeralValue l => keep ChEphemeralValue (EphemeralValue_Get l)
  | ChUntrackedValue l => (b, UntrackedValue_Get l)
  | ChTopic l => (b, Topic_Get l)
  | ChBinaryOperatorAggregate l => (b, BinOp_Get l)
  | ChNamedBarrierValue l => (b, NamedBarrier_Get l)
  | ChNamedBarrierValueAfterFinish l => (b, NamedBarrierAF_Get l)
  | ChLastValueAfterFinish l => (b, LastValueAfterFinish_Get l)
  end.

Definition basic_IsAvailable (b : BasicChannel) : bool :=
  match b with
  | ChLastValue l => LastValue_IsAvailable l
  | ChAnyValue l => AnyValue_IsAvailable l
  | ChEphemeralValue l => EphemeralValue_IsAvailable l
  | ChUntrackedValue l => UntrackedValue_IsAvailable l
  | ChTopic l => Topic_IsAvailable l
  | ChBinaryOperatorAggregate l => BinOp_IsAvailable l
  | ChNamedBarrierValue l => NamedBarrier_IsAvailable l
  | ChNamedBarrierValueAfterFinish l => NamedBarrierAF_IsAvailable l
  | ChLastValueAfterFinish l => LastValueAfterFinish_IsAvailable l
  end.

Definition basic_Update (b : BasicChannel) (values : list value)
    : BasicChannel * (bool * option error) :=
  match b with
  | ChLastValue l => keep ChLastValue (LastValue_Update l values)
  | ChAnyValue l => keep ChAnyValue (AnyValue_Update l values)
  | ChEphemeralValue l => keep ChEphemeralValue (EphemeralValue_Update l values)
  | ChUntrackedValue l => keep ChUntrackedValue (UntrackedValue_Update l values)
  | ChTopic l => keep ChTopic (Topic_Update l values)
  | ChBinaryOperatorAggregate l => keep ChBinaryOperatorAggregate (BinOp_Update l values)
  | ChNamedBarrierValue l => keep ChNamedBarrierValue (NamedBarrier_Update l values)
  | ChNamedBarrierValueAfterFinish l =>
      keep ChNamedBarrierValueAfterFinish (NamedBarrierAF_Update l values)
  | ChLastValueAfterFinish l => keep ChLastValueAfterFinish (LastValueAfterFinish_Update l values)
  end.

Definition basic_Copy (b : BasicChannel) : BasicChannel :=
  match b with
  | ChLastValue l => ChLastValue (LastValue_Copy l)
  | ChAnyValue l => ChAnyValue (AnyValue_Copy l)
  | ChEphemeralValue l => ChEphemeralValue (EphemeralValue_Copy l)
  | ChUntrackedValue l => ChUntrackedValue (UntrackedValue_Copy l)
  | ChTopic l => ChTopic (Topic_Copy l)
  | ChBinaryOperatorAggregate l => ChBinaryOperatorAggregate (BinOp_Copy l)
  | ChNamedBarrierValue l => ChNamedBarrierValue (NamedBarrier_Copy l)
  | ChNamedBarrierValueAfterFinish l => ChNamedBarrierValueAfterFinish (NamedBarrierAF_Copy l)
  | ChLastValueAfterFinish l => ChLastValueAfterFinish (LastValueAfterFinish_Copy l)
  end.

Definition basic_Checkpoint (b : BasicChannel) : value :=
  match b with
  | ChLastValue l => LastValue_Checkpoint l
  | ChAnyValue l => AnyValue_Checkpoint l
  | ChEphemeralValue l => EphemeralValue_Checkpoint l
  | ChUntrackedValue l => UntrackedValue_Checkpoint l
  | ChTopic l => Topic_Checkpoint l
  | ChBinaryOperatorAggregate l => BinOp_Checkpoint l
  | ChNamedBarrierValue l => NamedBarrier_Checkpoint l
  | ChNamedBarrierValueAfterFinish l => NamedBarrierAF_Checkpoint l
  | ChLastValueAfterFinish l => LastValueAfterFinish_Checkpoint l
  end.

Definition basic_FromCheckpoint (b : BasicChannel) (cp : value) : BasicChannel :=
  match b with
  | ChLastValue l => ChLastValue (LastValue_FromCheckpoint l cp)
  | ChAnyValue l => ChAnyValue (AnyValue_FromCheckpoint l cp)
  | ChEphemeralValue l => ChEphemeralValue (EphemeralValue_FromCheckpoint l cp)
  | ChUntrackedValue l => ChUntrackedValue (UntrackedValue_FromCheckpoint l cp)
  | ChTopic l => ChTopic (Topic_FromCheckpoint l cp)
  | ChBinaryOperatorAggregate l => ChBinaryOperatorAggregate (BinOp_FromCheckpoint l cp)
  | ChNamedBarrierValue l => ChNamedBarrierValue (NamedBarrier_FromCheckpoint l cp)
  | ChNamedBarrierValueAfterFinish l =>
      ChNamedBarrierValueAfterFinish (NamedBarrierAF_FromCheckpoint l cp)
  | ChLastValueAfterFinish l => ChLastValueAfterFinish (LastValueAfterFinish_FromCheckpoint l cp)
  end.

(** [BaseChannel.Consume] and [BaseChannel.Finish] are no-ops unless overridden. *)
(* internal/harness/graph/channels/base.go:81-83 BaseChannel.Consume *)
Definition basic_Consume (b : BasicChannel) : BasicChannel * bool :=
  match b with
  | ChNamedBarrierValue l => keep ChNamedBarrierValue (NamedBarrier_Consume l)
  | ChNamedBarrierValueAfterFinish l =>
      keep ChNamedBarrierValueAfterFinish (NamedBarrierAF_Consume l)
  | _ => (b, false)
  end.

(* internal/harness/graph/channels/base.go:86-88 BaseChannel.Finish *)
Definition basic_Finish (b : BasicChannel) : BasicChannel * bool :=
  match b with
  | ChNamedBarrierValue l => keep ChNamedBarrierValue (NamedBarrier_Finish l)
  | ChNamedBarrierValueAfterFinish l =>
      keep ChNamedBarrierValueAfterFinish (NamedBarrierAF_Finish l)
  | ChLastValueAfterFinish l => keep ChLastValueAfterFinish (LastValueAfterFinish_Finish l)
  | _ => (b, false)
  end.

(** [combined] of [ReducerChannel.Update]: the reducer folded over the values,
    starting from the current value when there is one. *)
Definition reducer_combine (reducer : ReducerFunc) (current : value) (err : option error)
    (first : value) (rest : list value) : value :=
  foldl reducer (match err with None => reducer current first | Some _ => first end) rest.

(* internal/harness/graph/channels/reducer.go:24-43 ReducerChannel.Update *)
Fixpoint reducer_Update (rs : list ReducerFunc) (b : BasicChannel) (values : list value)
    : BasicChannel * (bool * option error) :=
  match rs with
  | [] => basic_Update b values
  | reducer :: rs' =>
      match values with
      | [] => (b, (false, None))
      | first :: rest =>
          let '(b', (current, err)) := basic_Get b in
          reducer_Update rs' b' [reducer_combine reducer current err first rest]
      end
  end.

Definition Channel_Get (c : Channel) : Channel * (value * option error) :=
  keep (MkChannel (reducers c)) (basic_Get (basic c)).
Definition Channel_IsAvailable (c : Channel) : bool := basic_IsAvailable (basic c).
Definition Channel_Update (c : Channel) (values : list value) : Channel * (bool * option error) :=
  keep (MkChannel (reducers c)) (reducer_Update (reducers c) (basic c) values).
(* internal/harness/graph/channels/reducer.go:46-51 ReducerChannel.Copy *)
Definition Channel_Copy (c : Channel) : Channel :=
  MkChannel (reducers c) (basic_Copy (basic c)).
(* internal/harness/graph/channels/reducer.go:54-56 ReducerChannel.Checkpoint *)
Definition Channel_Checkpoint (c : Channel) : value := basic_Checkpoint (basic c).
(* internal/harness/graph/channels/reducer.go:59-64 ReducerChannel.FromCheckpoint *)
Definition Channel_FromCheckpoint (c : Channel) (cp : value) : Channel :=
  MkChannel (reducers c) (basic_FromCheckpoint (basic c) cp).
Definition Channel_Consume (c : Channel) : Channel * bool :=
  keep (MkChannel (reducers c)) (basic_Consume (basic c)).
Definition Channel_Finish (c : Channel) : Channel * bool :=
  keep (MkChannel (reducers c)) (basic_Finish (basic c)).

#[export] Instance Channel_ops : ChannelOps Channel := {|
  ch_GetKey := Channel_GetKey; ch_SetKey := Channel_SetKey; ch_Get := Channel_Get;
  ch_IsAvailable := Channel_IsAvailable; ch_Update := Channel_Update; ch_Copy := Channel_Copy;
  ch_Checkpoint := Channel_Checkpoint; ch_FromCheckpoint := Channel_FromCheckpoint;
  ch_Consume := Channel_Consume; ch_Finish := Channel_Finish;
  ch_GetVersion := Channel_GetVersion |}.
End dispatch.

(** ** The laws *)

Section laws.
Context `{MO : MapOrder}.

Lemma basic_Get_err b b' v e :
  basic_Get b = (b', (v, Some e)) → e = EmptyChannelError "" ∧ b' = b.
Proof.
  destruct b as [c|c|c|c|c|c|c|c|c]; simpl; unfold keep, LastValue_Get, AnyValue_Get,
    EphemeralValue_Get, UntrackedValue_Get, Topic_Get, BinOp_Get, NamedBarrier_Get,
    NamedBarrierAF_Get, LastValueAfterFinish_Get, empty_err; intros Heq; go_cases.
Qed.

Lemma basic_Get_base b : base_of (basic_Get b).1 = base_of b.
Proof. destruct b as [c|c|c|c|c|c|c|c|c]; simpl; try done. unfold EphemeralValue_Get. by case_match. Qed.

Lemma basic_Update_nil b : (basic_Update b []).2.2 = None.
Proof. destruct b as [c|c|c|c|c|c|c|c|c]; try done. Qed.

Lemma basic_Update_base b vs : base_of (basic_Update b vs).1 = base_of b.
Proof.
  destruct b as [c|c|c|c|c|c|c|c|c]; simpl; unfold LastValue_Update, AnyValue_Update,
    EphemeralValue_Update, UntrackedValue_Update, Topic_Update, BinOp_Update,
    NamedBarrier_Update, NamedBarrierAF_Update, LastValueAfterFinish_Update;
    repeat case_match; simplify_eq/=; done.
Qed.

Lemma binop_loop_err op cur b vs e :
  (binop_loop op cur b vs).2.2 = Some e → (binop_loop op cur b vs).2.1 = false.
Proof.
  revert cur b. induction vs as [|v vs IH]; intros cur b; simpl; [done|].
  destruct (isOverwrite v); [destruct b|]; simpl; eauto.
Qed.

Lemma barrier_loop_err names seen u vs e :
  (barrier_loop names seen u vs).2.2 = Some e → (barrier_loop names seen u vs).2.1 = false.
Proof.
  revert seen u. induction vs as [|v vs IH]; intros seen u; simpl; [done|].
  destruct v; try done. destruct (names !! s); [|done]. case_match; eauto.
Qed.

Lemma basic_Update_err b vs e :
  (basic_Update b vs).2.2 = Some e → (basic_Update b vs).2.1 = false.
Proof.
  destruct b as [c|c|c|c|c|c|c|c|c]; simpl; unfold LastValue_Update, AnyValue_Update,
    EphemeralValue_Update, UntrackedValue_Update, Topic_Update, BinOp_Update,
    NamedBarrier_Update, NamedBarrierAF_Update, LastValueAfterFinish_Update.
  - by destruct vs as [|v [|w vs]].
  - by destruct (last vs).
  - by destruct (last vs).
  - by destruct (last vs).
  - by case_match.
  - destruct vs as [|v vs]; [done|].
    pose proof (binop_loop_err (bo_operator c) v false vs e) as H1.
    pose proof (binop_loop_err (bo_operator c) (bo_value c) false (v :: vs) e) as H2.
    destruct (IsMissing _);
      [destruct (binop_loop _ v _ _)|destruct (binop_loop _ (bo_value c) _ (v :: vs))];
      cbn [fst snd keep] in *; auto.
  - intros Hx. pose proof (barrier_loop_err (nb_names c) (nb_seen c) false vs e) as Hb.
    destruct (barrier_loop _ _ _ _); simpl in *. auto.
  - intros Hx. pose proof (barrier_loop_err (na_names c) (na_seen c) false vs e) as Hb.
    destruct (barrier_loop _ _ _ _); simpl in *. auto.
  - by destruct vs as [|v [|w vs]].
Qed.

Lemma reducer_Update_spec rs b vs :
  base_of (reducer_Update rs b vs).1 = base_of b ∧
  (∀ e, (reducer_Update rs b vs).2.2 = Some e → (reducer_Update rs b vs).2.1 = false).
Proof.
  revert b vs. induction rs as [|r rs IH]; intros b vs; simpl.
  - split; [apply basic_Update_base|]. intros e. apply basic_Update_err.
  - destruct vs as [|v vs]; [done|].
    pose proof (basic_Get_base b) as Hb. destruct (basic_Get b) as [b' [cur err]]. simpl in Hb.
    rewrite <- Hb. apply IH.
Qed.

Lemma basic_restore b :
  IsMissing (basic_Checkpoint b) = false →
  basic_Checkpoint (basic_FromCheckpoint b (basic_Checkpoint b)) = basic_Checkpoint b.
Proof.
  destruct b as [c|c|c|c|c|c|c|c|c]; simpl; unfold LastValue_Checkpoint, AnyValue_Checkpoint,
    EphemeralValue_Checkpoint, UntrackedValue_Checkpoint, BinOp_Checkpoint,
    LastValueAfterFinish_Checkpoint; simpl; intros Hm; rewrite ?Hm; try done.
  - unfold Topic_Checkpoint in *. by destruct (tp_values c).
  - revert Hm. unfold NamedBarrier_Checkpoint. simpl. case_decide as Hs; [done|].
    intros _. simpl. rewrite !copy_loop_id. by rewrite decide_False.
  - revert Hm. unfold NamedBarrierAF_Checkpoint.
    destruct (bool_decide (size (na_seen c) = 0) && negb (na_finished c)) eqn:Hb; [done|].
    intros _. unfold NamedBarrierAF_FromCheckpoint.
    rewrite lookup_insert_eq, lookup_insert_ne, lookup_singleton_eq by done.
    cbn -[copy_loop]. by rewrite copy_loop_id, Hb.
Qed.

Lemma basic_Copy_Checkpoint b : basic_Checkpoint (basic_Copy b) = basic_Checkpoint b.
Proof.
  destruct b as [c|c|c|c|c|c|c|c|c]; try done; simpl.
  - unfold NamedBarrier_Checkpoint. simpl. by rewrite !copy_loop_id.
  - unfold NamedBarrierAF_Checkpoint. simpl. by rewrite !copy_loop_id.
Qed.

#[export] Instance Channel_laws : ChannelLaws Channel.
Proof.
  split; simpl; unfold Channel_Get, Channel_Update, Channel_GetKey, keep; simpl.
  - intros c c' v e Heq. destruct (basic_Get (basic c)) as [b' [w o]] eqn:E; simplify_eq/=.
    apply basic_Get_err in E as [-> _]. done.
  - intros c c' v e Heq. destruct (basic_Get (basic c)) as [b' [w o]] eqn:E; simplify_eq/=.
    apply basic_Get_err in E as [_ ->]. by destruct c.
  - intros [[|r rs] b]; [apply basic_Update_nil|done].
  - intros [rs b] vs. simpl. by rewrite (proj1 (reducer_Update_spec _ _ _)).
  - intros [rs b] vs e. apply (proj2 (reducer_Update_spec _ _ _)).
  - intros [rs b]. apply basic_restore.
  - intros [rs b]. apply basic_Copy_Checkpoint.
Qed.
End laws.
