(* ===== verification/Registry.v ===== *)
(** * The channel registry (channels/base.go), over any channel implementation *)

From S2P Require Import Prelude GoValue Errors StateMap ValueChannels Channels.

Section registry.
Context `{MO : MapOrder} {C : Type} `{CO : ChannelOps C}.

(** The registry is its map; the mutex is held by every method for its whole body. *)
(* internal/harness/graph/channels/base.go:102-105 Registry *)
Definition Registry : Type := gmap string C.
Implicit Types r : gmap string C.

(* internal/harness/graph/channels/base.go:108-112 NewRegistry *)
Definition NewRegistry : gmap string C := ∅.

(* internal/harness/graph/channels/base.go:115-119 Registry.Register *)
Definition Register r (name : string) (channel : C) : gmap string C := <[name := channel]> r.

(* internal/harness/graph/channels/base.go:122-127 Registry.Get *)
Definition Registry_Get r (name : string) : option C := r !! name.

(* internal/harness/graph/channels/base.go:130-134 Registry.Remove *)
Definition Remove r (name : string) : gmap string C := delete name r.

(* internal/harness/graph/channels/base.go:137-141 Registry.Len *)
Definition Len r : nat := size r.

(* internal/harness/graph/channels/base.go:144-152 Registry.Names *)
Definition Names r : list string := (range r).*1.

(* internal/harness/graph/channels/base.go:160-171 Registry.CreateCheckpoint *)
Definition CreateCheckpoint r : gmap string value :=
  foldl (λ checkpoint nc,
    let cp := ch_Checkpoint nc.2 in
    if IsMissing cp then checkpoint else <[nc.1 := cp]> checkpoint) ∅ (range r).

(** The loop of [RestoreFromCheckpoint] over the entries still to visit. *)
Fixpoint restore_loop r (entries : list (string * value)) : gmap string C * option error :=
  match entries with
  | [] => (r, None)
  | (name, cp) :: rest =>
      match r !! name with
      | None => (r, Some (Errorf ("channel " +:+ name +:+ " not found in registry")))
      | Some channel => restore_loop (<[name := ch_FromCheckpoint channel cp]> r) rest
      end
  end.

(* internal/harness/graph/channels/base.go:174-186 Registry.RestoreFromCheckpoint *)
Definition RestoreFromCheckpoint r (checkpoint : gmap string value)
    : gmap string C * option error :=
  restore_loop r (range checkpoint).

(** The loop of [UpdateChannels]: the channels updated before a failure stay updated. *)
Fixpoint update_loop r (writes : list (string * list value)) : gmap string C * option error :=
  match writes with
  | [] => (r, None)
  | (name, values) :: rest =>
      match r !! name with
      | None => (r, Some (ChannelNotFoundError name))
      | Some channel =>
          let '(channel', (_, err)) := ch_Update channel values in
          let r' := <[name := channel']> r in
          match err with
          | Some e => (r', Some (Wrapf ("failed to update channel " +:+ name +:+ ": ") e))
          | None => update_loop r' rest
          end
      end
  end.

(* internal/harness/graph/channels/base.go:189-202 Registry.UpdateChannels *)
Definition UpdateChannels r (writes : gmap string (list value)) : gmap string C * option error :=
  update_loop r (range writes).

(** The loop of [GetValues]; a read may change the channel. *)
Fixpoint values_loop r (values : gmap string value) (entries : list (string * C))
    : gmap string C * (error + gmap string value) :=
  match entries with
  | [] => (r, inr values)
  | (name, channel) :: rest =>
      let '(channel', (val, err)) := ch_Get channel in
      let r' := <[name := channel']> r in
      match err with
      | Some e =>
          if IsEmptyChannelError (Some e) then values_loop r' values rest
          else (r', inl (Wrapf ("failed to get value from channel " +:+ name +:+ ": ") e))
      | None => values_loop r' (<[name := val]> values) rest
      end
  end.

(* internal/harness/graph/channels/base.go:205-220 Registry.GetValues *)
Definition GetValues r : gmap string C * (error + gmap string value) :=
  values_loop r ∅ (range r).

(** ** Facts that need no law *)

Lemma create_loop_lookup l (acc : gmap string value) k :
  NoDup l.*1 →
  foldl (λ checkpoint nc, let cp := ch_Checkpoint nc.2 in
    if IsMissing cp then checkpoint else <[nc.1 := cp]> checkpoint) acc l !! k =
  match list_to_map (M := gmap string C) l !! k with
  | Some c => if IsMissing (ch_Checkpoint c) then acc !! k else Some (ch_Checkpoint c)
  | None => acc !! k
  end.
Proof.
  revert acc. induction l as [|[n c] l IH]; intros acc Hnd; [done|].
  apply NoDup_cons in Hnd as [Hni Hnd]. cbn [foldl]. rewrite IH by done.
  cbn [fst snd list_to_map foldr uncurry].
  destruct (decide (k = n)) as [->|Hne].
  - rewrite (not_elem_of_list_to_map_1 l n) by done.
    rewrite lookup_insert_eq. cbn zeta.
    destruct (IsMissing (ch_Checkpoint c)); [done|]. by rewrite lookup_insert_eq.
  - rewrite (lookup_insert_ne _ n k) by done. cbn zeta.
    assert ((if IsMissing (ch_Checkpoint c) then acc else <[n := ch_Checkpoint c]> acc) !! k
      = acc !! k) as ->
      by (destruct (IsMissing _); [done|by rewrite lookup_insert_ne]).
    done.
Qed.

(** The checkpoint holds exactly the non-missing channel states. *)
Lemma CreateCheckpoint_lookup r k :
  CreateCheckpoint r !! k =
    c ← r !! k; if IsMissing (ch_Checkpoint c) then None else Some (ch_Checkpoint c).
Proof.
  unfold CreateCheckpoint. rewrite create_loop_lookup by apply range_NoDup.
  rewrite list_to_map_range, lookup_empty. by destruct (r !! k).
Qed.

Lemma restore_loop_lookup r l k :
  NoDup l.*1 → (∀ n v, (n, v) ∈ l → is_Some (r !! n)) →
  (restore_loop r l).2 = None ∧
  (restore_loop r l).1 !! k =
    match list_to_map (M := gmap string value) l !! k with
    | Some cp => (λ c, ch_FromCheckpoint c cp) <$> r !! k
    | None => r !! k
    end.
Proof.
  revert r. induction l as [|[n cp] l IH]; intros r Hnd Hin; [done|].
  apply NoDup_cons in Hnd as [Hni Hnd]. cbn [restore_loop list_to_map foldr uncurry fst snd].
  destruct (Hin n cp ltac:(left)) as [c Hc]. rewrite Hc.
  destruct (IH (<[n := ch_FromCheckpoint c cp]> r)) as [He Hl].
  { done. }
  { intros n' v Hn'. apply lookup_insert_is_Some'. right. eapply Hin. by right. }
  split; [done|]. rewrite Hl. clear Hl. destruct (decide (k = n)) as [->|Hne].
  - rewrite (not_elem_of_list_to_map_1 l n) by done. by rewrite !lookup_insert_eq, Hc.
  - by rewrite !lookup_insert_ne by done.
Qed.

Lemma RestoreFromCheckpoint_lookup r cps k :
  dom cps ⊆ dom r →
  (RestoreFromCheckpoint r cps).2 = None ∧
  (RestoreFromCheckpoint r cps).1 !! k =
    match cps !! k with
    | Some cp => (λ c, ch_FromCheckpoint c cp) <$> r !! k
    | None => r !! k
    end.
Proof.
  intros Hd. unfold RestoreFromCheckpoint.
  destruct (restore_loop_lookup r (range cps) k) as [He Hl].
  - apply range_NoDup.
  - intros n v Hn%elem_of_range. apply elem_of_dom, Hd, elem_of_dom. eauto.
  - split; [done|]. by rewrite Hl, list_to_map_range.
Qed.

(** Channels that are not written keep their state, whether or not the update fails. *)
Lemma update_loop_frame r l k : k ∉ l.*1 → (update_loop r l).1 !! k = r !! k.
Proof.
  revert r. induction l as [|[n vs] l IH]; intros r Hk; [done|]. cbn [update_loop].
  cbn in Hk. apply not_elem_of_cons in Hk as [Hne Hk].
  destruct (r !! n) as [c|]; [|done].
  destruct (ch_Update c vs) as [c' [u [e|]]]; cbn [fst snd].
  - by rewrite lookup_insert_ne.
  - rewrite IH by done. by rewrite lookup_insert_ne.
Qed.

(** Every written channel exists and accepts its values. *)
Definition writable r (writes : gmap string (list value)) : Prop :=
  map_Forall (λ n vs, ∃ c, r !! n = Some c ∧ (ch_Update c vs).2.2 = None) writes.

Lemma update_loop_ok r l k :
  NoDup l.*1 →
  (∀ n vs, (n, vs) ∈ l → ∃ c, r !! n = Some c ∧ (ch_Update c vs).2.2 = None) →
  (update_loop r l).2 = None ∧
  (update_loop r l).1 !! k =
    match list_to_map (M := gmap string (list value)) l !! k with
    | Some vs => (λ c, (ch_Update c vs).1) <$> r !! k
    | None => r !! k
    end.
Proof.
  revert r. induction l as [|[n vs] l IH]; intros r Hnd Hin; [done|].
  apply NoDup_cons in Hnd as [Hni Hnd]. cbn [update_loop].
  destruct (Hin n vs ltac:(left)) as (c & Hc & Hu). rewrite Hc.
  destruct (ch_Update c vs) as [c' [u e]] eqn:E. simpl in Hu; subst e.
  destruct (IH (<[n := c']> r)) as [He Hl].
  { done. }
  { intros n' vs' Hn'. destruct (Hin n' vs' ltac:(by right)) as (c2 & Hc2 & Hu2).
    exists c2. rewrite lookup_insert_ne; [done|]. intros ->. apply Hni.
    apply list_elem_of_fmap. by exists (n', vs'). }
  split; [done|]. rewrite Hl. cbn [list_to_map foldr uncurry fst snd].
  destruct (decide (k = n)) as [->|Hne].
  - rewrite (not_elem_of_list_to_map_1 l n) by done. rewrite !lookup_insert_eq, Hc.
    cbn. by rewrite E.
  - by rewrite !lookup_insert_ne by done.
Qed.

Lemma UpdateChannels_ok r writes k :
  writable r writes →
  (UpdateChannels r writes).2 = None ∧
  (UpdateChannels r writes).1 !! k =
    match writes !! k with
    | Some vs => (λ c, (ch_Update c vs).1) <$> r !! k
    | None => r !! k
    end.
Proof.
  intros Hw. unfold UpdateChannels.
  destruct (update_loop_ok r (range writes) k) as [He Hl].
  - apply range_NoDup.
  - intros n vs Hn%elem_of_range. by apply Hw.
  - split; [done|]. by rewrite Hl, list_to_map_range.
Qed.

Lemma UpdateChannels_frame r writes k :
  writes !! k = None → (UpdateChannels r writes).1 !! k = r !! k.
Proof.
  intros Hk. apply update_loop_frame. rewrite elem_of_range_keys, Hk.
  by intros [].
Qed.
End registry.

(** ** Facts that rest on the laws of the interface *)

Section registry_laws.
Context `{MO : MapOrder} {C : Type} `{CL : ChannelLaws C}.
Implicit Types r : gmap string C.

Lemma values_loop_ok r acc l : ∃ vals, (values_loop r acc l).2 = inr vals.
Proof.
  revert r acc. induction l as [|[n c] l IH]; intros r acc; [by eexists|].
  cbn [values_loop]. destruct (ch_Get c) as [c' [v [e|]]] eqn:E; [|apply IH].
  rewrite (law_get_err _ _ _ _ E). apply IH.
Qed.

Lemma values_loop_lookup r acc l vals k :
  NoDup l.*1 → (values_loop r acc l).2 = inr vals →
  vals !! k = match list_to_map (M := gmap string C) l !! k with
              | Some c => match (ch_Get c).2 with
                          | (v, None) => Some v | (_, Some _) => acc !! k end
              | None => acc !! k
              end.
Proof.
  revert r acc. induction l as [|[n c] l IH]; intros r acc Hnd Hv.
  { by simplify_eq/=. }
  apply NoDup_cons in Hnd as [Hni Hnd]. cbn [values_loop] in Hv.
  cbn [list_to_map foldr uncurry fst snd].
  destruct (ch_Get c) as [c' [v [e|]]] eqn:E.
  - rewrite (law_get_err _ _ _ _ E) in Hv. rewrite (IH _ _ Hnd Hv).
    destruct (decide (k = n)) as [->|Hne].
    + rewrite (not_elem_of_list_to_map_1 l n) by done. by rewrite lookup_insert_eq, E.
    + by rewrite lookup_insert_ne by done.
  - rewrite (IH _ _ Hnd Hv). destruct (decide (k = n)) as [->|Hne].
    + rewrite (not_elem_of_list_to_map_1 l n) by done. by rewrite !lookup_insert_eq, E.
    + by rewrite !lookup_insert_ne by done.
Qed.

Lemma GetValues_lookup r vals k :
  (GetValues r).2 = inr vals →
  vals !! k = c ← r !! k; match (ch_Get c).2 with (v, None) => Some v | _ => None end.
Proof.
  intros Hv. unfold GetValues in Hv. rewrite (values_loop_lookup _ _ _ _ k (range_NoDup r) Hv).
  rewrite list_to_map_range, lookup_empty. by destruct (r !! k).
Qed.

Lemma CreateCheckpoint_dom r : dom (CreateCheckpoint r) ⊆ dom r.
Proof.
  intros k. rewrite !elem_of_dom, CreateCheckpoint_lookup. intros [v Hv].
  apply bind_Some in Hv as (c & -> & _). eauto.
Qed.

Lemma registry_restore r :
  (RestoreFromCheckpoint r (CreateCheckpoint r)).2 = None ∧
  CreateCheckpoint (RestoreFromCheckpoint r (CreateCheckpoint r)).1 = CreateCheckpoint r.
Proof.
  split; [by apply (RestoreFromCheckpoint_lookup _ _ ""), CreateCheckpoint_dom|].
  apply map_eq. intros k. rewrite CreateCheckpoint_lookup.
  rewrite (proj2 (RestoreFromCheckpoint_lookup _ _ k (CreateCheckpoint_dom r))).
  rewrite CreateCheckpoint_lookup. destruct (r !! k) as [c|] eqn:Hc; [|done].
  cbn. destruct (IsMissing (ch_Checkpoint c)) eqn:Hm; cbn; [by rewrite Hm|].
  by rewrite law_restore, Hm.
Qed.
End registry_laws.
