(* ===== verification/Config.v ===== *)
(** * RunnableConfig (types/config.go) and reserved keys (constants/constants.go) *)

From S2P Require Import Prelude GoValue.

Definition ConfigKeyThreadID : string := "thread_id".
Definition ConfigKeyCheckpointID : string := "checkpoint_id".
Definition ConfigKeyCheckpointNS : string := "checkpoint_ns".
Definition End_ : string := "__end__".
Definition Start : string := "__start__".
Definition DefaultCheckpointMaxVersions : Z := 100.
Definition DefaultRecursionLimit : Z := 50.

(* internal/harness/graph/types/types.go:45-55 Durability *)
Definition Durability : Type := string.
Definition DurabilitySync : Durability := "sync".
Definition DurabilityAsync : Durability := "async".
Definition DurabilityExit : Durability := "exit".

(** A Go map that may be nil: reading a nil map finds nothing, writing panics. *)
Definition map_read {V} (m : option (gmap string V)) (k : string) : option V :=
  m ← m; (m : gmap string V) !! k.

(* internal/harness/graph/types/config.go:6-27 RunnableConfig *)
Record RunnableConfig := {
  Configurable : option (gmap string value);
  RecursionLimit : Z;
  Tags : list string;
  cfg_Metadata : option (gmap string value);
  RunID : string;
  ThreadID : string;
  cfg_Durability : Durability;
}.

(** [&types.RunnableConfig{}]. *)
Definition zero_config : RunnableConfig :=
  {| Configurable := None; RecursionLimit := 0; Tags := []; cfg_Metadata := None;
     RunID := ""; ThreadID := ""; cfg_Durability := "" |}.

(* internal/harness/graph/types/config.go:30-38 NewRunnableConfig *)
Definition NewRunnableConfig : RunnableConfig :=
  {| Configurable := Some ∅; RecursionLimit := DefaultRecursionLimit; Tags := [];
     cfg_Metadata := Some ∅; RunID := ""; ThreadID := ""; cfg_Durability := DurabilitySync |}.

(* internal/harness/graph/types/config.go:41-47 RunnableConfig.Get *)
Definition Config_Get (c : RunnableConfig) (key : string) : option value :=
  map_read (Configurable c) key.

(* internal/harness/graph/types/config.go:50-55 RunnableConfig.Set *)
Definition Config_Set (c : RunnableConfig) (key : string) (v : value) : RunnableConfig :=
  {| Configurable := Some (<[key := v]> (default ∅ (Configurable c)));
     RecursionLimit := RecursionLimit c; Tags := Tags c; cfg_Metadata := cfg_Metadata c;
     RunID := RunID c; ThreadID := ThreadID c; cfg_Durability := cfg_Durability c |}.

(* internal/harness/graph/types/config.go:130-133 RunnableConfig.WithThreadID *)
Definition WithThreadID (c : RunnableConfig) (threadID : string) : RunnableConfig :=
  {| Configurable := Configurable c; RecursionLimit := RecursionLimit c; Tags := Tags c;
     cfg_Metadata := cfg_Metadata c; RunID := RunID c; ThreadID := threadID;
     cfg_Durability := cfg_Durability c |}.

(** The loop [for k, v := range other.Metadata { c.Metadata[k] = v }]: it
    panics on a nil receiver map, unless there is nothing to copy. *)
Definition merge_metadata `{MapOrder} (c other : option (gmap string value))
    : go (option (gmap string value)) :=
  match other, c with
  | None, _ => Ret c
  | Some o, Some m => Ret (Some (copy_loop id o m))
  | Some o, None => if decide (o = ∅) then Ret None else Panic
  end.

Open Scope go_scope.

(* internal/harness/graph/types/config.go:58-97 RunnableConfig.Merge *)
Definition Merge `{MapOrder} (c : RunnableConfig) (other : option RunnableConfig)
    : go RunnableConfig :=
  match other with
  | None => Ret c
  | Some o =>
      let c1 := foldl (λ c kv, Config_Set c kv.1 kv.2) c (range (default ∅ (Configurable o))) in
      metadata <-! merge_metadata (cfg_Metadata c) (cfg_Metadata o);
      Ret {| Configurable := Configurable c1;
             RecursionLimit := if decide (0 < RecursionLimit o)%Z then RecursionLimit o
                               else RecursionLimit c;
             Tags := Tags c ++ Tags o;
             cfg_Metadata := metadata;
             RunID := if decide (RunID o = "") then RunID c else RunID o;
             ThreadID := if decide (ThreadID o = "") then ThreadID c else ThreadID o;
             cfg_Durability :=
               if decide (cfg_Durability o ≠ "" ∧ cfg_Durability o ≠ DurabilitySync)
               then cfg_Durability o else cfg_Durability c |}
  end.

(* internal/harness/graph/types/config.go:182-190 MergeConfigs *)
Definition MergeConfigs `{MapOrder} (configs : list (option RunnableConfig)) : go RunnableConfig :=
  foldl (λ acc config, result <-! acc; Merge result config) (Ret NewRunnableConfig) configs.

(* internal/harness/graph/types/config.go:143-153 RunnableConfig.GetOrEmpty *)
Definition GetOrEmpty (c : RunnableConfig) (key : string) : string :=
  match map_read (Configurable c) key with Some (VStr s) => s | _ => "" end.

(** The loop of [Set] over another map is the union of the maps. *)
Lemma Config_Set_loop `{MapOrder} c (m : gmap string value) :
  default ∅ (Configurable (foldl (λ c kv, Config_Set c kv.1 kv.2) c (range m)))
  = m ∪ default ∅ (Configurable c).
Proof.
  rewrite <- (map_fmap_id m) at 2. rewrite <- (copy_loop_spec id m). unfold copy_loop, id.
  generalize (range m). intros l. revert c. induction l as [|[k v] l IH]; intros c; [done|].
  simpl. by rewrite IH.
Qed.

Lemma map_read_default {V} (m : option (gmap string V)) k : map_read m k = default ∅ m !! k.
Proof. destruct m; [done|]. simpl. by rewrite lookup_empty. Qed.

Lemma GetOrEmpty_Set c k s : GetOrEmpty (Config_Set c k (VStr s)) k = s.
Proof. unfold GetOrEmpty, map_read. simpl. by rewrite lookup_insert_eq. Qed.
