(* ===== verification/Checkpoint.v ===== *)
(** * Checkpoints and the checkpoint manager (checkpoint/checkpoint.go)

    Identifiers that [uuid.New()] draws and the times that [time.Now()] reads
    are arguments.  A pointer held by the manager is modelled by the value it
    points to. *)

From S2P Require Import Prelude GoValue Errors StateMap Config.
From stdpp Require Import pretty.

(** ** Data *)

(* internal/harness/graph/checkpoint/checkpoint.go:27-42 CheckpointMetadata *)
Record CheckpointMetadata := {
  md_ID : string;
  md_ParentID : string;
  md_ThreadID : string;
  md_Step : Z;
  md_CreatedAt : gotime;
  md_Source : string;
  md_Metadata : gmap string value;
}.

Definition SourceNode : string := "node".

(* internal/harness/graph/checkpoint/checkpoint.go:56-69 PendingWrite *)
Record PendingWrite := {
  pw_Channel : string;
  pw_Value : value;
  pw_Overwrite : bool;
  pw_Node : string;
  pw_Timestamp : gotime;
  pw_TaskID : string;
}.

(* internal/harness/graph/checkpoint/checkpoint.go:72-81 NewPendingWrite *)
Definition NewPendingWrite (now : gotime) (channel : string) (val : value) (overwrite : bool)
    (node taskID : string) : PendingWrite :=
  {| pw_Channel := channel; pw_Value := val; pw_Overwrite := overwrite; pw_Node := node;
     pw_Timestamp := now; pw_TaskID := taskID |}.

(* internal/harness/graph/checkpoint/checkpoint.go:84-101 Checkpoint *)
Record Checkpoint := {
  cp_ID : string;
  cp_Version : Z;
  cp_ParentID : string;
  cp_ChannelVersions : gmap string Z;
  cp_VersionsSeen : gmap string (gmap string Z);
  cp_State : gmap string value;
  cp_PendingWrites : list PendingWrite;
  cp_Metadata : CheckpointMetadata;
}.

(* internal/harness/graph/checkpoint/checkpoint.go:104-122 NewCheckpoint *)
Definition NewCheckpoint (uuid : string) (now : gotime) (threadID : string) (step : Z) : Checkpoint :=
  {| cp_ID := uuid; cp_Version := 0; cp_ParentID := ""; cp_ChannelVersions := ∅;
     cp_VersionsSeen := ∅; cp_State := ∅; cp_PendingWrites := [];
     cp_Metadata := {| md_ID := uuid; md_ParentID := ""; md_ThreadID := threadID; md_Step := step;
                       md_CreatedAt := now; md_Source := SourceNode; md_Metadata := ∅ |} |}.

Definition with_pw_value (pw : PendingWrite) (v : value) : PendingWrite :=
  {| pw_Channel := pw_Channel pw; pw_Value := v; pw_Overwrite := pw_Overwrite pw;
     pw_Node := pw_Node pw; pw_Timestamp := pw_Timestamp pw; pw_TaskID := pw_TaskID pw |}.

(* internal/harness/graph/checkpoint/checkpoint.go:125-178 Checkpoint.Clone *)
Definition Clone `{MapOrder} (newID : string) (now : gotime) (c : Checkpoint) : Checkpoint :=
  {| cp_ID := newID;
     cp_Version := cp_Version c;
     cp_ParentID := cp_ID c;
     cp_ChannelVersions := copy_loop id (cp_ChannelVersions c) ∅;
     cp_VersionsSeen := copy_loop (λ versions, copy_loop id versions ∅) (cp_VersionsSeen c) ∅;
     cp_State := copy_loop deepCopy (cp_State c) ∅;
     cp_PendingWrites := map (λ pw, with_pw_value pw (deepCopy (pw_Value pw))) (cp_PendingWrites c);
     cp_Metadata := {| md_ID := newID; md_ParentID := cp_ID c;
                       md_ThreadID := md_ThreadID (cp_Metadata c);
                       md_Step := md_Step (cp_Metadata c); md_CreatedAt := now;
                       md_Source := md_Source (cp_Metadata c);
                       md_Metadata := copy_loop deepCopy (md_Metadata (cp_Metadata c)) ∅ |} |}.

Definition with_versions (c : Checkpoint) (cv : gmap string Z) (vs : gmap string (gmap string Z))
    : Checkpoint :=
  {| cp_ID := cp_ID c; cp_Version := cp_Version c; cp_ParentID := cp_ParentID c;
     cp_ChannelVersions := cv; cp_VersionsSeen := vs; cp_State := cp_State c;
     cp_PendingWrites := cp_PendingWrites c; cp_Metadata := cp_Metadata c |}.

Definition with_pending (c : Checkpoint) (pws : list PendingWrite) : Checkpoint :=
  {| cp_ID := cp_ID c; cp_Version := cp_Version c; cp_ParentID := cp_ParentID c;
     cp_ChannelVersions := cp_ChannelVersions c; cp_VersionsSeen := cp_VersionsSeen c;
     cp_State := cp_State c; cp_PendingWrites := pws; cp_Metadata := cp_Metadata c |}.

Definition with_state (c : Checkpoint) (st : gmap string value) : Checkpoint :=
  {| cp_ID := cp_ID c; cp_Version := cp_Version c; cp_ParentID := cp_ParentID c;
     cp_ChannelVersions := cp_ChannelVersions c; cp_VersionsSeen := cp_VersionsSeen c;
     cp_State := st; cp_PendingWrites := cp_PendingWrites c; cp_Metadata := cp_Metadata c |}.

Definition with_lineage (c : Checkpoint) (version : Z) (parent : string) : Checkpoint :=
  {| cp_ID := cp_ID c; cp_Version := version; cp_ParentID := parent;
     cp_ChannelVersions := cp_ChannelVersions c; cp_VersionsSeen := cp_VersionsSeen c;
     cp_State := cp_State c; cp_PendingWrites := cp_PendingWrites c; cp_Metadata := cp_Metadata c |}.

(** [m[k]++] on a [map[string]int]. *)
Definition incr (m : gmap string Z) (k : string) : gmap string Z :=
  <[k := int_add (default 0%Z (m !! k)) 1]> m.

(* internal/harness/graph/checkpoint/checkpoint.go:181-183 Checkpoint.IncrementChannel *)
Definition IncrementChannel (c : Checkpoint) (channel : string) : Checkpoint :=
  with_versions c (incr (cp_ChannelVersions c) channel) (cp_VersionsSeen c).

(** [seen[node][channel] = versions[channel]], creating the inner map. *)
Definition record_seen (seen : gmap string (gmap string Z)) (versions : gmap string Z)
    (node channel : string) : gmap string (gmap string Z) :=
  <[node := <[channel := default 0%Z (versions !! channel)]> (default ∅ (seen !! node))]> seen.

Definition seen_current (seen : gmap string (gmap string Z)) (versions : gmap string Z)
    (node channel : string) : bool :=
  match seen !! node with
  | Some vs => match vs !! channel with
               | Some v => bool_decide (v = default 0%Z (versions !! channel))
               | None => false end
  | None => false
  end.

(* internal/harness/graph/checkpoint/checkpoint.go:186-191 Checkpoint.MarkSeen *)
Definition MarkSeen (c : Checkpoint) (node channel : string) : Checkpoint :=
  with_versions c (cp_ChannelVersions c)
    (record_seen (cp_VersionsSeen c) (cp_ChannelVersions c) node channel).

(* internal/harness/graph/checkpoint/checkpoint.go:194-201 Checkpoint.HasSeen *)
Definition HasSeen (c : Checkpoint) (node channel : string) : bool :=
  seen_current (cp_VersionsSeen c) (cp_ChannelVersions c) node channel.

(* internal/harness/graph/checkpoint/checkpoint.go:204-211 Checkpoint.AddPendingWrite *)
Definition AddPendingWrite (c : Checkpoint) (channel : string) (val : value) (overwrite : bool)
    (node : string) : Checkpoint :=
  with_pending c (cp_PendingWrites c ++
    [{| pw_Channel := channel; pw_Value := val; pw_Overwrite := overwrite; pw_Node := node;
        pw_Timestamp := zero_time; pw_TaskID := "" |}]).

(* internal/harness/graph/checkpoint/checkpoint.go:214-216 Checkpoint.ClearPendingWrites *)
Definition ClearPendingWrites (c : Checkpoint) : Checkpoint := with_pending c [].

(** ** Storage format *)

Definition pw_map (pw : PendingWrite) : gmap string value :=
  {[ "channel" := VStr (pw_Channel pw); "value" := pw_Value pw;
     "overwrite" := VBool (pw_Overwrite pw); "node" := VStr (pw_Node pw) ]}.

Definition metadata_map `{MapOrder} (md : CheckpointMetadata) : gmap string value :=
  copy_loop id (md_Metadata md)
    {[ "id" := VStr (md_ID md); "parent_id" := VStr (md_ParentID md);
       "thread_id" := VStr (md_ThreadID md); "step" := VInt (md_Step md);
       "created_at" := VStr (rfc3339 (md_CreatedAt md)); "source" := VStr (md_Source md) ]}.

(* internal/harness/graph/checkpoint/checkpoint.go:219-272 Checkpoint.ToMap *)
Definition ToMap `{MapOrder} (c : Checkpoint) : gmap string value :=
  {[ "id" := VStr (cp_ID c);
     "version" := VInt (cp_Version c);
     "parent_id" := VStr (cp_ParentID c);
     "channel_versions" := VMapInt (copy_loop id (cp_ChannelVersions c) ∅);
     "versions_seen" := VMapMapInt
        (copy_loop (λ versions, copy_loop id versions ∅) (cp_VersionsSeen c) ∅);
     "state" := VMap (copy_loop deepCopy (cp_State c) ∅);
     "pending_writes" := VMapList (map pw_map (cp_PendingWrites c));
     "metadata" := VMap (metadata_map (cp_Metadata c)) ]}.

(* internal/harness/graph/checkpoint/checkpoint.go:359-364 getString *)
Definition getString (data : gmap string value) (key : string) : string :=
  match data !! key with Some (VStr s) => s | _ => "" end.

(* internal/harness/graph/checkpoint/checkpoint.go:366-371 getInt *)
Definition getInt (data : gmap string value) (key : string) (defaultVal : Z) : Z :=
  match data !! key with Some (VFloat f) => int_of_f64 f | _ => defaultVal end.

(* internal/harness/graph/checkpoint/checkpoint.go:373-378 getBool *)
Definition getBool (data : gmap string value) (key : string) (defaultVal : bool) : bool :=
  match data !! key with Some (VBool b) => b | _ => defaultVal end.

(** [for k, v := range m { if num, ok := v.(float64); ok { r[k] = int(num) } }] *)
Definition decode_versions `{MapOrder} (m : gmap string value) : gmap string Z :=
  foldl (λ r kv, match kv.2 with VFloat f => <[kv.1 := int_of_f64 f]> r | _ => r end) ∅ (range m).

Definition decode_seen_versions `{MapOrder} (m : gmap string value) : gmap string (gmap string Z) :=
  foldl (λ r kv, match kv.2 with VMap vm => <[kv.1 := decode_versions vm]> r | _ => r end) ∅ (range m).

Definition decode_pending (v : value) : option PendingWrite :=
  match v with
  | VMap m => Some {| pw_Channel := getString m "channel"; pw_Value := default VNil (m !! "value");
                      pw_Overwrite := getBool m "overwrite" false; pw_Node := getString m "node";
                      pw_Timestamp := zero_time; pw_TaskID := "" |}
  | _ => None
  end.

Definition reserved_md (k : string) : bool :=
  bool_decide (k ∈ ["id"; "parent_id"; "thread_id"; "step"; "created_at"; "source"]).

Definition zero_metadata : CheckpointMetadata :=
  {| md_ID := ""; md_ParentID := ""; md_ThreadID := ""; md_Step := 0; md_CreatedAt := zero_time;
     md_Source := ""; md_Metadata := ∅ |}.

Definition decode_metadata `{MapOrder} (parse_time : string → option gotime)
    (md : gmap string value) : CheckpointMetadata :=
  {| md_ID := getString md "id"; md_ParentID := getString md "parent_id";
     md_ThreadID := getString md "thread_id"; md_Step := getInt md "step" 0;
     md_CreatedAt :=
       if decide (getString md "created_at" = "") then zero_time
       else default zero_time (parse_time (getString md "created_at"));
     md_Source := getString md "source";
     md_Metadata := foldl (λ r kv, if reserved_md kv.1 then r else <[kv.1 := kv.2]> r) ∅ (range md) |}.

(** [parse_time] is [time.Parse(time.RFC3339Nano, .)].  [FromMap] never fails. *)
(* internal/harness/graph/checkpoint/checkpoint.go:275-356 FromMap *)
Definition FromMap `{MapOrder} (parse_time : string → option gotime) (data : gmap string value)
    : Checkpoint :=
  {| cp_ID := getString data "id";
     cp_Version := getInt data "version" 0;
     cp_ParentID := getString data "parent_id";
     cp_ChannelVersions :=
       match data !! "channel_versions" with Some (VMap cv) => decode_versions cv | _ => ∅ end;
     cp_VersionsSeen :=
       match data !! "versions_seen" with Some (VMap vs) => decode_seen_versions vs | _ => ∅ end;
     cp_State :=
       match data !! "state" with Some (VMap st) => copy_loop deepCopy st ∅ | _ => ∅ end;
     cp_PendingWrites :=
       match data !! "pending_writes" with Some (VList pws) => omap decode_pending pws | _ => [] end;
     cp_Metadata :=
       match data !! "metadata" with
       | Some (VMap md) => decode_metadata parse_time md | _ => zero_metadata end |}.
