(* ===== verification/CheckpointManager.v ===== *)
(** * The versioned checkpoint manager (checkpoint/checkpoint.go, second half)

    The manager keeps, per thread, the history of its checkpoints, oldest
    first.  Every operation takes the manager's lock for its whole duration, so
    operations are atomic steps on the state; [mstep] is one such step of any
    caller and [rtc mstep] a history of interleaved calls.

    Every read returns a [Clone], which draws an identifier and reads the
    clock: [fresh n] are the identifier and the time the [n]-th clone of the
    call obtains. *)

From S2P Require Import Prelude GoValue Errors StateMap Config Checkpoint.
From stdpp Require Import pretty.
Local Open Scope Z_scope.

(** ** Data *)

(* internal/harness/graph/checkpoint/checkpoint.go:381-390 CheckpointTuple *)
Record CheckpointTuple := {
  ct_Config : RunnableConfig;
  ct_Checkpoint : option Checkpoint;
  ct_ParentConfig : option RunnableConfig;
  ct_Metadata : gmap string value;
}.

(* internal/harness/graph/checkpoint/checkpoint.go:393-414 NewCheckpointTuple *)
Definition NewCheckpointTuple (config : option RunnableConfig) (checkpoint : option Checkpoint)
    (parentConfig : option RunnableConfig) : CheckpointTuple :=
  {| ct_Config := match config with Some c => c | None => NewRunnableConfig end;
     ct_Checkpoint := checkpoint;
     ct_ParentConfig := parentConfig;
     ct_Metadata :=
       match checkpoint with
       | Some cp => {[ "id" := VStr (cp_ID cp); "version" := VInt (cp_Version cp);
                       "thread_id" := VStr (md_ThreadID (cp_Metadata cp));
                       "step" := VInt (md_Step (cp_Metadata cp));
                       "source" := VStr (md_Source (cp_Metadata cp));
                       "created_at" := VTime (md_CreatedAt (cp_Metadata cp)) ]}
       | None => ∅
       end |}.

(* internal/harness/graph/checkpoint/checkpoint.go:475-479 CheckpointManager *)
Record CheckpointManager := {
  cm_checkpoints : gmap string (list Checkpoint);
  cm_maxVersions : Z;
}.

(* internal/harness/graph/checkpoint/checkpoint.go:482-491 NewCheckpointManager *)
Definition NewCheckpointManager (maxVersions : Z) : CheckpointManager :=
  {| cm_checkpoints := ∅;
     cm_maxVersions := if decide (maxVersions ≤ 0) then DefaultCheckpointMaxVersions
                       else maxVersions |}.

(* internal/harness/graph/checkpoint/checkpoint.go:496-506 RunnableConfigToMap *)
Definition RunnableConfigToMap (cfg : option RunnableConfig) : gmap string value :=
  match cfg with
  | None => ∅
  | Some cfg => {[ "thread_id" := VStr (ThreadID cfg);
                   "checkpoint_id" := VStr (GetOrEmpty cfg "checkpoint_id");
                   "checkpoint_ns" := VStr (GetOrEmpty cfg "checkpoint_ns") ]}
  end.

(** The history of a thread; a missing key is an empty slice. *)
Definition history (cm : CheckpointManager) (threadID : string) : list Checkpoint :=
  default [] (cm_checkpoints cm !! threadID).

Definition set_history (cm : CheckpointManager) (threadID : string) (l : list Checkpoint)
    : CheckpointManager :=
  {| cm_checkpoints := <[threadID := l]> (cm_checkpoints cm);
     cm_maxVersions := cm_maxVersions cm |}.

(** ** Writers: an error leaves the manager as it was *)

(** The two conflict checks of [Save] against the latest checkpoint. *)
Definition save_conflict (latest checkpoint : Checkpoint) : bool :=
  bool_decide (cp_ParentID checkpoint ≠ "" ∧ cp_ID latest ≠ cp_ParentID checkpoint)
  || bool_decide (0 < cp_Version checkpoint
                  ∧ cp_Version latest ≠ int_add (cp_Version checkpoint) (-1)).

(** [s[len(s)-n:]] when the slice is longer than [n]. *)
Definition keep_last (n : Z) (l : list Checkpoint) : list Checkpoint :=
  if decide (n < Z.of_nat (length l)) then drop (length l - Z.to_nat n) l else l.

(* internal/harness/graph/checkpoint/checkpoint.go:509-555 CheckpointManager.Save *)
Definition Save (cm : CheckpointManager) (checkpoint : Checkpoint) : error + CheckpointManager :=
  let threadID := md_ThreadID (cp_Metadata checkpoint) in
  let checkpoints := history cm threadID in
  let append := inr (set_history cm threadID
                       (keep_last (cm_maxVersions cm) (checkpoints ++ [checkpoint]))) in
  match last checkpoints with
  | Some latest =>
      if save_conflict latest checkpoint
      then inl (VersionConflictError (cp_Version checkpoint) (int_add (cp_Version latest) 1)
                  (cp_ID checkpoint) threadID)
      else append
  | None => append
  end.

(** The body of the loop over the writes. *)
Definition put_write (c : Checkpoint) (write : PendingWrite) : Checkpoint :=
  IncrementChannel (with_state c (<[pw_Channel write := pw_Value write]> (cp_State c)))
    (pw_Channel write).

(* internal/harness/graph/checkpoint/checkpoint.go:561-611 CheckpointManager.PutWrites *)
Definition PutWrites `{MapOrder} (fresh : string * gotime) (cm : CheckpointManager)
    (config : RunnableConfig) (writes : list PendingWrite) : error + CheckpointManager :=
  let threadID := ThreadID config in
  if decide (threadID = "") then inl (Errorf "thread ID is required for put_writes") else
  let checkpoints := history cm threadID in
  match last checkpoints with
  | None => inl (Errorf ("no checkpoint found for thread " +:+ threadID))
  | Some current =>
      let callerID := GetOrEmpty config "checkpoint_id" in
      if decide (callerID = "")
      then inl (Errorf ("checkpoint_id is required for put_writes on thread " +:+ threadID))
      else if decide (callerID ≠ cp_ID current)
      then inl (VersionConflictError (cp_Version current) (int_add (cp_Version current) 1)
                  (cp_ID current) threadID)
      else
        let newCheckpoint := with_lineage (Clone fresh.1 fresh.2 current)
                               (int_add (cp_Version current) 1) (cp_ID current) in
        inr (set_history cm threadID (checkpoints ++ [foldl put_write newCheckpoint writes]))
  end.

(** The position of the checkpoint with an identifier in one history. *)
Definition find_id (checkpointID : string) (l : list Checkpoint) : option nat :=
  fst <$> list_find (λ cp, cp_ID cp = checkpointID) l.

(** The first history, in iteration order, that contains the identifier. *)
Definition find_thread `{MapOrder} (cm : CheckpointManager) (checkpointID : string)
    : option (string * nat * list Checkpoint) :=
  head (omap (λ tl, i ← find_id checkpointID tl.2; Some (tl.1, i, tl.2))
             (range (cm_checkpoints cm))).

(* internal/harness/graph/checkpoint/checkpoint.go:788-803 CheckpointManager.Delete *)
Definition Delete `{MapOrder} (cm : CheckpointManager) (checkpointID : string)
    : error + CheckpointManager :=
  match find_thread cm checkpointID with
  | Some (threadID, i, checkpoints) =>
      inr (set_history cm threadID (take i checkpoints ++ drop (S i) checkpoints))
  | None => inl (Errorf ("checkpoint not found: " +:+ checkpointID))
  end.

(* internal/harness/graph/checkpoint/checkpoint.go:806-812 CheckpointManager.ClearThread *)
Definition ClearThread (cm : CheckpointManager) (threadID : string) : CheckpointManager :=
  {| cm_checkpoints := delete threadID (cm_checkpoints cm); cm_maxVersions := cm_maxVersions cm |}.

(* internal/harness/graph/checkpoint/checkpoint.go:815-821 CheckpointManager.ClearAll *)
Definition ClearAll (cm : CheckpointManager) : CheckpointManager :=
  {| cm_checkpoints := ∅; cm_maxVersions := cm_maxVersions cm |}.

(** ** Readers *)

Section readers.
Context `{MapOrder} (fresh : nat → string * gotime).

Definition clone_nth (n : nat) (c : Checkpoint) : Checkpoint := Clone (fresh n).1 (fresh n).2 c.

(* internal/harness/graph/checkpoint/checkpoint.go:614-624 CheckpointManager.Load *)
Definition Load (cm : CheckpointManager) (threadID : string) : option Checkpoint :=
  clone_nth 0 <$> last (history cm threadID).

(* internal/harness/graph/checkpoint/checkpoint.go:627-640 CheckpointManager.LoadByCheckpointID *)
Definition LoadByCheckpointID (cm : CheckpointManager) (checkpointID : string)
    : error + Checkpoint :=
  match ('(_, i, l) ← find_thread cm checkpointID; (l : list Checkpoint) !! i) with
  | Some cp => inr (clone_nth 0 cp)
  | None => inl (Errorf ("checkpoint not found: " +:+ checkpointID))
  end.

(** [limit] as [List] and [GetLineage] adjust it. *)
Definition clamp_limit (limit : Z) (n : nat) : nat :=
  if decide (limit ≤ 0 ∨ Z.of_nat n < limit) then n else Z.to_nat limit.

(* internal/harness/graph/checkpoint/checkpoint.go:643-664 CheckpointManager.List *)
Definition Manager_List (cm : CheckpointManager) (threadID : string) (limit : Z)
    : list Checkpoint :=
  let checkpoints := history cm threadID in
  imap clone_nth (drop (length checkpoints - clamp_limit limit (length checkpoints)) checkpoints).

(** [NewRunnableConfig] with the thread and the checkpoint set. *)
Definition checkpoint_config (threadID checkpointID : string) : RunnableConfig :=
  Config_Set (WithThreadID NewRunnableConfig threadID) "checkpoint_id" (VStr checkpointID).

(** Position [i] of a history and the clone of its predecessor. *)
Definition parent_config (threadID : string) (checkpoints : list Checkpoint) (i : nat)
    : option RunnableConfig :=
  match i with
  | O => None
  | S j => (λ p, checkpoint_config threadID (cp_ID (clone_nth 1 p))) <$> checkpoints !! j
  end.

(* internal/harness/graph/checkpoint/checkpoint.go:667-699 CheckpointManager.GetTuple *)
Definition GetTuple (cm : CheckpointManager) (config : RunnableConfig) : error + CheckpointTuple :=
  let threadID := ThreadID config in
  if decide (threadID = "") then inl (Errorf "thread ID is required") else
  let checkpoints := history cm threadID in
  match last checkpoints with
  | None => inr (NewCheckpointTuple (Some config) None None)
  | Some latest =>
      inr (NewCheckpointTuple (Some config) (Some (clone_nth 0 latest))
             (parent_config threadID checkpoints (pred (length checkpoints))))
  end.

(* internal/harness/graph/checkpoint/checkpoint.go:702-735 CheckpointManager.GetTupleByVersion *)
Definition GetTupleByVersion (cm : CheckpointManager) (config : RunnableConfig) (version : Z)
    : error + CheckpointTuple :=
  let threadID := ThreadID config in
  if decide (threadID = "") then inl (Errorf "thread ID is required") else
  let checkpoints := history cm threadID in
  match list_find (λ cp, cp_Version cp = version) checkpoints with
  | None => inl (Errorf ("version not found: " +:+ pretty version))
  | Some (i, cp) =>
      inr (NewCheckpointTuple (Some config) (Some (clone_nth 0 cp))
             (parent_config threadID checkpoints i))
  end.

(* internal/harness/graph/checkpoint/checkpoint.go:738-770 CheckpointManager.GetLineage *)
Definition GetLineage (cm : CheckpointManager) (threadID : string) (limit : Z)
    : list CheckpointTuple :=
  let checkpoints := history cm threadID in
  let start := (length checkpoints - clamp_limit limit (length checkpoints))%nat in
  imap (λ j cp,
    let cp' := clone_nth j cp in
    NewCheckpointTuple (Some (checkpoint_config threadID (cp_ID cp'))) (Some cp')
      (match (start + j)%nat with
       | O => None
       | S p => (λ prev, checkpoint_config threadID (cp_ID prev)) <$> checkpoints !! p
       end)) (drop start checkpoints).

(* internal/harness/graph/checkpoint/checkpoint.go:773-785 CheckpointManager.GetVersion *)
Definition GetVersion (cm : CheckpointManager) (threadID : string) (version : Z)
    : error + Checkpoint :=
  match list_find (λ cp, cp_Version cp = version) (history cm threadID) with
  | Some (_, cp) => inr (clone_nth 0 cp)
  | None => inl (Errorf ("version not found: " +:+ pretty version))
  end.
End readers.

(** ** Lemmas: histories *)

Lemma history_set cm t l : history (set_history cm t l) t = l.
Proof. unfold history, set_history. simpl. by rewrite lookup_insert_eq. Qed.

Lemma history_set_ne cm t t' l : t ≠ t' → history (set_history cm t l) t' = history cm t'.
Proof. intros. unfold history, set_history. simpl. by rewrite lookup_insert_ne. Qed.

Lemma keep_last_suffix n l : ∃ k, keep_last n l = drop k l.
Proof. unfold keep_last. case_decide; [eauto|]. by exists 0%nat. Qed.

Lemma keep_last_snoc n l x : 0 < n → ∃ k, keep_last n (l ++ [x]) = drop k l ++ [x].
Proof.
  intros Hn. unfold keep_last. rewrite length_app. simpl. case_decide as Hd.
  - exists (length l + 1 - Z.to_nat n)%nat. rewrite drop_app_le; [done|lia].
  - by exists 0%nat.
Qed.

Lemma keep_last_length n l : 0 ≤ n → Z.of_nat (length (keep_last n l)) ≤ n.
Proof. intros Hn. unfold keep_last. case_decide; [rewrite length_drop|]; lia. Qed.

(** The state after the loop over the writes: each channel holds the last value
    written to it, and its version grew by the number of writes to it. *)
Definition last_write (writes : list PendingWrite) (ch : string) : option value :=
  pw_Value <$> last (filter (λ w, pw_Channel w = ch) writes).
Definition write_count (writes : list PendingWrite) (ch : string) : Z :=
  Z.of_nat (length (filter (λ w, pw_Channel w = ch) writes)).

Lemma put_writes_state writes c ch :
  cp_State (foldl put_write c writes) !! ch =
    match last_write writes ch with Some v => Some v | None => cp_State c !! ch end.
Proof.
  unfold last_write. induction writes as [|w ws IH] using rev_ind; [done|].
  rewrite foldl_app, filter_snoc. simpl. destruct (decide (pw_Channel w = ch)) as [<-|Hne].
  - by rewrite lookup_insert_eq, last_snoc.
  - by rewrite lookup_insert_ne.
Qed.

Lemma put_writes_frame writes c :
  let c' := foldl put_write c writes in
  cp_ID c' = cp_ID c ∧ cp_Version c' = cp_Version c ∧ cp_ParentID c' = cp_ParentID c
  ∧ cp_VersionsSeen c' = cp_VersionsSeen c ∧ cp_PendingWrites c' = cp_PendingWrites c
  ∧ cp_Metadata c' = cp_Metadata c.
Proof. revert c. induction writes as [|w ws IH]; intros c; [done|].
  apply (IH (put_write c w)).
Qed.

Lemma put_writes_versions writes c ch :
  let v := default 0 (cp_ChannelVersions c !! ch) in
  in_int64 v → in_int64 (v + write_count writes ch) →
  default 0 (cp_ChannelVersions (foldl put_write c writes) !! ch) = v + write_count writes ch.
Proof.
  intros v Hv. induction writes as [|w ws IH] using rev_ind; intros Hr.
  { unfold write_count. simpl. subst v. lia. }
  assert (Hc : write_count (ws ++ [w]) ch =
    write_count ws ch + if decide (pw_Channel w = ch) then 1 else 0).
  { unfold write_count. rewrite filter_snoc. case_decide; [rewrite length_app; simpl|]; lia. }
  rewrite Hc in Hr |- *. rewrite foldl_app. simpl.
  assert (Hin : in_int64 (v + write_count ws ch)).
  { revert Hv Hr. unfold in_int64, int64_min, int64_max, write_count. case_decide; lia. }
  specialize (IH Hin). unfold incr. case_decide as Hd.
  - subst ch. rewrite lookup_insert_eq. simpl. rewrite IH, int_add_small; [lia|].
    by rewrite <- Z.add_assoc.
  - rewrite lookup_insert_ne by done. rewrite IH. lia.
Qed.

(** ** PutWrites as compare-and-swap on the identifier of the latest checkpoint *)

(** The checkpoint [PutWrites] appends. *)
Definition put_result `{MapOrder} (fresh : string * gotime) (current : Checkpoint)
    (writes : list PendingWrite) : Checkpoint :=
  foldl put_write (with_lineage (Clone fresh.1 fresh.2 current)
                     (int_add (cp_Version current) 1) (cp_ID current)) writes.

Lemma PutWrites_inr `{MapOrder} fresh cm config writes cm' :
  PutWrites fresh cm config writes = inr cm' ↔
  ∃ current, last (history cm (ThreadID config)) = Some current ∧ ThreadID config ≠ ""
    ∧ cp_ID current ≠ "" ∧ GetOrEmpty config "checkpoint_id" = cp_ID current
    ∧ cm' = set_history cm (ThreadID config)
              (history cm (ThreadID config) ++ [put_result fresh current writes]).
Proof.
  unfold PutWrites, put_result. split.
  - case_decide as Ht; [done|]. destruct (last _) as [current|] eqn:E; [|done].
    case_decide as Hc; [done|]. case_decide as Hn; [done|].
    intros [= <-]. exists current. split_and!; congruence.
  - intros (current & Hl & Ht & Hne & Hc & ->). rewrite Hl, Hc.
    rewrite !decide_False by auto. done.
Qed.

Lemma put_result_ID `{MapOrder} fresh current writes :
  cp_ID (put_result fresh current writes) = fresh.1.
Proof.
  unfold put_result. by destruct (put_writes_frame writes
    (with_lineage (Clone fresh.1 fresh.2 current) (int_add (cp_Version current) 1) (cp_ID current))) as [-> _].
Qed.

Lemma put_result_lineage `{MapOrder} fresh current writes :
  cp_Version (put_result fresh current writes) = int_add (cp_Version current) 1
  ∧ cp_ParentID (put_result fresh current writes) = cp_ID current.
Proof.
  unfold put_result. by destruct (put_writes_frame writes
    (with_lineage (Clone fresh.1 fresh.2 current) (int_add (cp_Version current) 1) (cp_ID current)))
    as (_ & -> & -> & _).
Qed.

(** ** Steps of the manager and the version chain *)

(** One atomic operation of some caller that succeeds. *)
Inductive mstep `{MapOrder} : CheckpointManager → CheckpointManager → Prop :=
| mstep_save cm cp cm' : in_int64 (cp_Version cp) → Save cm cp = inr cm' → mstep cm cm'
| mstep_put cm fresh config writes cm' :
    PutWrites fresh cm config writes = inr cm' → mstep cm cm'
| mstep_clear cm t : mstep cm (ClearThread cm t)
| mstep_clear_all cm : mstep cm (ClearAll cm).

(** [b] follows [a]: a declared parent is the predecessor, and a positive
    version is the predecessor's plus one. *)
Definition follows (a b : Checkpoint) : Prop :=
  (cp_ParentID b = "" ∨ cp_ParentID b = cp_ID a)
  ∧ (cp_Version b ≤ 0 ∨ cp_Version b = cp_Version a + 1).

Definition chain (l : list Checkpoint) : Prop :=
  Forall (λ c, in_int64 (cp_Version c)) l ∧
  ∀ i a b, l !! i = Some a → l !! S i = Some b → follows a b.

Definition manager_ok (cm : CheckpointManager) : Prop :=
  0 < cm_maxVersions cm ∧ ∀ t, chain (history cm t).

Lemma chain_drop k l : chain l → chain (drop k l).
Proof.
  intros [Hr Hl]. split; [by apply Forall_drop|]. intros i a b. rewrite !lookup_drop.
  replace (k + S i)%nat with (S (k + i)) by lia. apply Hl.
Qed.

Lemma chain_snoc l x :
  chain l → in_int64 (cp_Version x) → (∀ a, last l = Some a → follows a x) → chain (l ++ [x]).
Proof.
  intros [Hr Hl] Hx Hf. split; [by apply Forall_app_2; [|constructor]|].
  intros i a b Ha Hb. apply lookup_app_Some in Hb as [Hb|[Hge Hb]].
  - rewrite lookup_app_l in Ha by (apply lookup_lt_Some in Hb; lia). by eapply Hl.
  - apply list_lookup_singleton_Some in Hb as [Hi <-].
    rewrite lookup_app_l in Ha by lia. apply Hf. rewrite last_lookup.
    by replace (pred (length l)) with i by lia.
Qed.

Lemma save_conflict_follows a b :
  in_int64 (cp_Version b) → save_conflict a b = false → follows a b.
Proof.
  unfold save_conflict, follows. intros Hb [H1%bool_decide_eq_false_1 H2%bool_decide_eq_false_1]%orb_false_iff.
  split.
  - destruct (decide (cp_ParentID b = "")); [by left|right]. destruct (decide (cp_ID a = cp_ParentID b)); naive_solver.
  - destruct (decide (0 < cp_Version b)) as [Hp|]; [right|left; lia].
    rewrite int_add_small in H2 by (revert Hb; unfold in_int64, int64_min, int64_max; lia).
    destruct (decide (cp_Version a = cp_Version b + -1)); [lia|naive_solver].
Qed.

Lemma put_result_follows `{MapOrder} fresh a writes :
  in_int64 (cp_Version a) → follows a (put_result fresh a writes).
Proof.
  intros Ha. destruct (put_result_lineage fresh a writes) as [Hv Hp]. split; [by right|].
  rewrite Hv. unfold in_int64, int64_min, int64_max in Ha.
  destruct (decide (cp_Version a = 2 ^ 63 - 1)) as [Hm|].
  - left. rewrite Hm. by vm_compute.
  - right. rewrite int_add_small; [done|]. unfold in_int64, int64_min, int64_max. lia.
Qed.

Lemma manager_ok_set cm t l : manager_ok cm → chain l → manager_ok (set_history cm t l).
Proof.
  intros [Hm Hc] Hl. split; [done|]. intros t'.
  destruct (decide (t = t')) as [<-|]; [by rewrite history_set|by rewrite history_set_ne].
Qed.

Lemma NewCheckpointManager_ok n : manager_ok (NewCheckpointManager n).
Proof. split; [unfold NewCheckpointManager; simpl; case_decide; done || lia|]. split; [constructor|done]. Qed.

Lemma mstep_ok `{MapOrder} cm cm' : mstep cm cm' → manager_ok cm → manager_ok cm'.
Proof.
  intros Hs Hok. pose proof Hok as [Hm Hc].
  destruct Hs as [cm cp cm' Hr Hs|cm fresh config writes cm' Hs|cm t|cm].
  - assert (Hx : ∀ l, chain (history cm (md_ThreadID (cp_Metadata cp)) ++ [cp]) →
        inr (set_history cm (md_ThreadID (cp_Metadata cp)) (keep_last (cm_maxVersions cm) l)) = inr (A := error) cm' →
        l = history cm (md_ThreadID (cp_Metadata cp)) ++ [cp] → manager_ok cm').
    { intros l Hl [= <-] ->. apply manager_ok_set; [done|].
      destruct (keep_last_suffix (cm_maxVersions cm) (history cm (md_ThreadID (cp_Metadata cp)) ++ [cp])) as [k ->].
      by apply chain_drop. }
    unfold Save in Hs. destruct (last _) as [latest|] eqn:E.
    + destruct (save_conflict latest cp) eqn:Ec; [done|].
      eapply Hx; [|apply Hs|done]. apply chain_snoc; [apply Hc|done|].
      intros a Ha. rewrite E in Ha. simplify_eq. by apply save_conflict_follows.
    + eapply Hx; [|apply Hs|done]. apply chain_snoc; [apply Hc|done|]. intros a Ha. by rewrite E in Ha.
  - apply PutWrites_inr in Hs as (current & Hl & _ & _ & _ & ->).
    apply manager_ok_set; [done|]. apply chain_snoc; [apply Hc| |].
    + destruct (put_result_lineage fresh current writes) as [-> _]. apply wrap64_range.
    + intros a Ha. rewrite Hl in Ha. simplify_eq. apply put_result_follows.
      destruct (Hc (ThreadID config)) as [Hf _]. rewrite last_lookup in Hl.
      exact (Forall_lookup_1 _ _ _ _ Hf Hl).
  - split; [done|]. intros t'. unfold history, ClearThread. simpl.
    destruct (decide (t = t')) as [<-|].
    + rewrite lookup_delete_eq. by split; [constructor|].
    + rewrite lookup_delete_ne by done. apply Hc.
  - by split; [|split; [constructor|]].
Qed.

Lemma msteps_ok `{MapOrder} cm cm' : rtc mstep cm cm' → manager_ok cm → manager_ok cm'.
Proof. induction 1; eauto using mstep_ok. Qed.
