(* ===== verification/MemorySaver.v ===== *)
(** * The checkpointer interface and MemorySaver (checkpoint/memory.go)

    [BaseCheckpointer] is the interface the engine saves to and resumes from;
    [CheckpointerLaws] is what the engine relies on, and [MemorySaver] is
    proved to provide it. *)

From S2P Require Import Prelude GoValue Errors StateMap Config.
Local Open Scope Z_scope.

Abbreviation config_map := (gmap string value).

(** The string a config holds under a key (the type assertion fails otherwise). *)
Definition cfg_string (config : config_map) (key : string) : option string :=
  match config !! key with Some (VStr s) => Some s | _ => None end.

(** [fresh] holds the identifier and the time a [Put] obtains. *)
(* internal/harness/graph/checkpoint/checkpoint.go:20-24 BaseCheckpointer *)
Class BaseCheckpointer (S : Type) := {
  ckpt_Get : S → config_map → error + option (gmap string value);
  ckpt_Put : string * gotime → S → config_map → gmap string value → error + S;
  ckpt_List : S → config_map → Z → error + list (gmap string value);
}.

(** What is read back is what was stored, as JSON sees it: the latest
    checkpoint of the thread, or the one asked for; other threads are not
    affected, and a thread is required. *)
Class CheckpointerLaws (S : Type) `{MapOrder, BaseCheckpointer S} := {
  ckpt_put_total : ∀ fresh s config cp,
    is_Some (cfg_string config ConfigKeyThreadID) → ∃ s', ckpt_Put fresh s config cp = inr s';
  ckpt_put_requires : ∀ fresh s config cp s',
    ckpt_Put fresh s config cp = inr s' → is_Some (cfg_string config ConfigKeyThreadID);
  ckpt_get_put : ∀ fresh s config cp s' config',
    ckpt_Put fresh s config cp = inr s' →
    cfg_string config' ConfigKeyThreadID = cfg_string config ConfigKeyThreadID →
    cfg_string config' ConfigKeyCheckpointID = None →
    ckpt_Get s' config' = inr (Some (deepCopyMap cp));
  ckpt_get_put_ne : ∀ fresh s config cp s' config',
    ckpt_Put fresh s config cp = inr s' →
    cfg_string config' ConfigKeyThreadID ≠ cfg_string config ConfigKeyThreadID →
    ckpt_Get s' config' = ckpt_Get s config';
}.

(* internal/harness/graph/checkpoint/memory.go:25-32 checkpointEntry *)
Record checkpointEntry := {
  ent_ID : string;
  ent_ThreadID : string;
  ent_Checkpoint : gmap string value;
  ent_Metadata : gmap string value;
  ent_CreatedAt : gotime;
  ent_ParentID : string;
}.

(* internal/harness/graph/checkpoint/memory.go:19-23 MemorySaver *)
Record MemorySaver := {
  ms_checkpoints : gmap string (gmap string value);
  ms_versions : gmap string (list checkpointEntry);
}.

(* internal/harness/graph/checkpoint/memory.go:35-40 NewMemorySaver *)
Definition NewMemorySaver : MemorySaver := {| ms_checkpoints := ∅; ms_versions := ∅ |}.

Definition versions (s : MemorySaver) (threadID : string) : list checkpointEntry :=
  default [] (ms_versions s !! threadID).

Definition thread_required : error := Errorf "thread_id is required".

Definition not_found (checkpointID : string) : error :=
  Errorf ("checkpoint not found: " +:+ checkpointID).

(* internal/harness/graph/checkpoint/memory.go:43-69 MemorySaver.Get *)
Definition Memory_Get `{MapOrder} (s : MemorySaver) (config : config_map)
    : error + option (gmap string value) :=
  match cfg_string config ConfigKeyThreadID with
  | None => inl thread_required
  | Some threadID =>
      match cfg_string config ConfigKeyCheckpointID with
      | Some checkpointID =>
          match list_find (λ entry, ent_ID entry = checkpointID) (versions s threadID) with
          | Some (_, entry) => inr (Some (deepCopyMap (ent_Checkpoint entry)))
          | None => inl (not_found checkpointID)
          end
      | None => inr (deepCopyMap ∘ ent_Checkpoint <$> last (versions s threadID))
      end
  end.

(* internal/harness/graph/checkpoint/memory.go:72-101 MemorySaver.Put *)
Definition Memory_Put `{MapOrder} (fresh : string * gotime) (s : MemorySaver)
    (config : config_map) (checkpoint : gmap string value) : error + MemorySaver :=
  match cfg_string config ConfigKeyThreadID with
  | None => inl thread_required
  | Some threadID =>
      let checkpointID := default fresh.1 (cfg_string config ConfigKeyCheckpointID) in
      let entry := {| ent_ID := checkpointID; ent_ThreadID := threadID;
                      ent_Checkpoint := deepCopyMap checkpoint;
                      ent_Metadata := deepCopyMap config; ent_CreatedAt := fresh.2;
                      ent_ParentID := default "" (cfg_string config "parent_checkpoint_id") |} in
      inr {| ms_versions := <[threadID := versions s threadID ++ [entry]]> (ms_versions s);
             ms_checkpoints := <[threadID := deepCopyMap checkpoint]> (ms_checkpoints s) |}
  end.

Definition list_item `{MapOrder} (entry : checkpointEntry) : gmap string value :=
  {[ ConfigKeyCheckpointID := VStr (ent_ID entry); ConfigKeyThreadID := VStr (ent_ThreadID entry);
     "metadata" := VMap (deepCopyMap (ent_Metadata entry));
     "created_at" := VTime (ent_CreatedAt entry); "parent_id" := VStr (ent_ParentID entry) ]}.

(* internal/harness/graph/checkpoint/memory.go:104-131 MemorySaver.List *)
Definition Memory_List `{MapOrder} (s : MemorySaver) (config : config_map) (limit : Z)
    : error + list (gmap string value) :=
  match cfg_string config ConfigKeyThreadID with
  | None => inl thread_required
  | Some threadID =>
      let vs := versions s threadID in
      let limit := if decide (limit ≤ 0 ∨ Z.of_nat (length vs) < limit)
                   then length vs else Z.to_nat limit in
      inr (map list_item (take limit (reverse vs)))
  end.

(* internal/harness/graph/checkpoint/memory.go:170-173 CheckpointState *)
Record CheckpointState := {
  cs_Checkpoint : gmap string value;
  cs_Metadata : gmap string value;
}.

Definition entry_state `{MapOrder} (entry : checkpointEntry) : CheckpointState :=
  {| cs_Checkpoint := deepCopyMap (ent_Checkpoint entry);
     cs_Metadata := deepCopyMap (ent_Metadata entry) |}.

(* internal/harness/graph/checkpoint/memory.go:134-167 MemorySaver.GetState *)
Definition Memory_GetState `{MapOrder} (s : MemorySaver) (config : config_map)
    : error + option CheckpointState :=
  match cfg_string config ConfigKeyThreadID with
  | None => inl thread_required
  | Some threadID =>
      match cfg_string config ConfigKeyCheckpointID with
      | None => inr (entry_state <$> last (versions s threadID))
      | Some checkpointID =>
          match list_find (λ entry, ent_ID entry = checkpointID) (versions s threadID) with
          | Some (_, entry) => inr (Some (entry_state entry))
          | None => inl (not_found checkpointID)
          end
      end
  end.

#[export] Instance MemorySaver_ops `{MapOrder} : BaseCheckpointer MemorySaver :=
  {| ckpt_Get := Memory_Get; ckpt_Put := Memory_Put; ckpt_List := Memory_List |}.

Lemma versions_put `{MapOrder} fresh s config cp s' t :
  Memory_Put fresh s config cp = inr s' → cfg_string config ConfigKeyThreadID = Some t →
  ∃ entry, versions s' t = versions s t ++ [entry] ∧ ent_Checkpoint entry = deepCopyMap cp
    ∧ ent_ID entry = default fresh.1 (cfg_string config ConfigKeyCheckpointID)
    ∧ ent_ThreadID entry = t ∧ ent_CreatedAt entry = fresh.2
    ∧ ∀ t', t' ≠ t → versions s' t' = versions s t'.
Proof.
  unfold Memory_Put. intros Hp Ht. rewrite Ht in Hp. simplify_eq. eexists. split_and!.
  - unfold versions at 1. simpl. by rewrite lookup_insert_eq.
  - done. - done. - done. - done.
  - intros t' Hne. unfold versions. simpl. by rewrite lookup_insert_ne.
Qed.

#[export] Instance MemorySaver_laws `{MapOrder} : CheckpointerLaws MemorySaver.
Proof.
  split; simpl.
  - intros fresh s config cp [t Ht]. unfold Memory_Put. rewrite Ht. eauto.
  - intros fresh s config cp s'. unfold Memory_Put. destruct (cfg_string _ _); [eauto|done].
  - intros fresh s config cp s' config' Hp Ht Hc. unfold Memory_Get.
    destruct (cfg_string config ConfigKeyThreadID) as [t|] eqn:E;
      [|by unfold Memory_Put in Hp; rewrite E in Hp].
    rewrite Ht, Hc. destruct (versions_put _ _ _ _ _ _ Hp E) as (entry & -> & He & _).
    rewrite last_snoc. simpl. by rewrite He, deepCopyMap_idem.
  - intros fresh s config cp s' config' Hp Ht. unfold Memory_Get.
    destruct (cfg_string config ConfigKeyThreadID) as [t|] eqn:E;
      [|by unfold Memory_Put in Hp; rewrite E in Hp].
    destruct (versions_put _ _ _ _ _ _ Hp E) as (entry & _ & _ & _ & _ & _ & Hf).
    destruct (cfg_string config' ConfigKeyThreadID) as [t'|]; [|done].
    by rewrite Hf by congruence.
Qed.
