(* ===== verification/Retry.v ===== *)
(** * Retry policies and executors (types/types.go, pregel/retry.go, pregel/retry_multi.go)

    A node function is effectful: it is modelled as a transformer of a world
    [W] that returns a pair of Go results or panics.  [wait d w] is the
    [select] between the context and the timer of duration [d]: it gives the
    context's error when the context wins. *)

From S2P Require Import Prelude GoValue Errors.
From Stdlib Require Import SpecFloat.
Local Open Scope Z_scope.

(** time.Duration counts nanoseconds in an int64. *)
Definition Millisecond : Z := 1000000.
Definition Second : Z := 1000000000.

(* internal/harness/graph/types/types.go:61-74 RetryPolicy *)
Record RetryPolicy := {
  InitialInterval : Z;
  BackoffFactor : float64;
  MaxInterval : Z;
  MaxAttempts : Z;
  Jitter : bool;
  RetryOn : option (error → bool);
}.

(** Float constants of the source. *)
Definition f64_2 : float64 := f64_of_int 2.
Definition f64_1_5 : float64 := binary_normalize 53 1024 3 (-1) false.
Definition f64_0_5 : float64 := binary_normalize 53 1024 1 (-1) false.

(* internal/harness/graph/types/types.go:117-119 DefaultRetryOn *)
Definition DefaultRetryOn (err : error) : bool := true.

(* internal/harness/graph/types/types.go:77-86 DefaultRetryPolicy *)
Definition DefaultRetryPolicy : RetryPolicy :=
  {| InitialInterval := 500 * Millisecond; BackoffFactor := f64_2; MaxInterval := 128 * Second;
     MaxAttempts := 3; Jitter := true; RetryOn := Some DefaultRetryOn |}.

(* internal/harness/graph/types/types.go:103-109 powFloat *)
Definition powFloat (base : float64) (exp : Z) : float64 :=
  Nat.iter (Z.to_nat exp) (λ result, f64_mul result base) (f64_of_int 1).

(** [randFloat] is the number [rand.Float64] draws. *)
(* internal/harness/graph/types/types.go:92-100 RetryPolicy.CalculateBackoff *)
Definition CalculateBackoff (randFloat : float64) (p : RetryPolicy) (attempt : Z) : Z :=
  let backoff := Z.min (int_of_f64 (f64_mul (f64_of_int (InitialInterval p))
                                     (powFloat (BackoffFactor p) (attempt - 1))))
                       (MaxInterval p) in
  if Jitter p then
    let jitter := int_of_f64 (f64_mul (f64_mul (f64_of_int backoff) f64_0_5) randFloat) in
    Z.max (wrap64 (backoff - jitter)) 0
  else backoff.

(** ** Error predicates *)

Definition lower_byte (c : Ascii.ascii) : Ascii.ascii :=
  let n := Ascii.N_of_ascii c in
  if decide (65 ≤ n ∧ n ≤ 90)%N then Ascii.ascii_of_N (n + 32) else c.

(* internal/harness/graph/pregel/retry.go:194-204 toLower *)
Fixpoint toLower (s : string) : string :=
  match s with
  | EmptyString => EmptyString
  | String c s' => String (lower_byte c) (toLower s')
  end.

(** [s[:n]] for [n] within the string. *)
Definition str_prefix (n : nat) (s : string) : string := String.substring 0 n s.

(* internal/harness/graph/pregel/retry.go:187-191 containsIgnoreCase *)
Definition containsIgnoreCase (s substr : string) : bool :=
  let s := toLower s in
  let substr := toLower substr in
  bool_decide (String.length substr ≤ String.length s)%nat
  && bool_decide (str_prefix (String.length substr) s = substr).

(* internal/harness/graph/pregel/retry.go:178-184 contains *)
Definition contains (s substr : string) : bool :=
  bool_decide (String.length substr ≤ String.length s)%nat
  && (bool_decide (s = substr)
      || bool_decide (String.length substr < String.length s)%nat
         && (bool_decide (str_prefix (String.length substr) s = substr)
             || containsIgnoreCase s substr)).

Definition any_keyword (kws : list string) (err : error) : bool :=
  existsb (contains (Error err)) kws.

(* internal/harness/graph/pregel/retry.go:130-152 RetryPredicates.NetworkErrors(part) *)
Definition NetworkErrors : error → bool :=
  any_keyword ["connection refused"; "connection reset"; "timeout"; "network"; "dns";
               "temporary failure"; "503"; "502"; "504"].

(* internal/harness/graph/pregel/retry.go:155-174 RetryPredicates.TemporaryErrors(part) *)
Definition TemporaryErrors : error → bool :=
  any_keyword ["temporary"; "transient"; "rate limit"; "too many requests"; "429"].

(* internal/harness/graph/pregel/retry_multi.go:141-211 CreateDefaultMultiPolicy(part) *)
Definition CreateDefaultMultiPolicy : list RetryPolicy :=
  [ {| MaxAttempts := 5; InitialInterval := 100 * Millisecond; MaxInterval := 30 * Second;
       BackoffFactor := f64_2; Jitter := true; RetryOn := Some NetworkErrors |};
    {| MaxAttempts := 3; InitialInterval := 500 * Millisecond; MaxInterval := 10 * Second;
       BackoffFactor := f64_1_5; Jitter := true; RetryOn := Some TemporaryErrors |};
    {| MaxAttempts := 3; InitialInterval := 1 * Second; MaxInterval := 30 * Second;
       BackoffFactor := f64_2; Jitter := false;
       RetryOn := Some (any_keyword ["timeout"; "deadline exceeded"; "context deadline"; "408"; "504"]) |};
    {| MaxAttempts := 10; InitialInterval := 1 * Second; MaxInterval := 60 * Second;
       BackoffFactor := f64_1_5; Jitter := true;
       RetryOn := Some (any_keyword ["resource exhausted"; "too many requests"; "rate limit";
                                     "quota exceeded"; "429"; "503"]) |} ].

(** ** Executors *)

(** The outcome of one call of a node function. *)
Inductive outcome :=
| Returns (output : value) (err : option error)
| Panics (r : string).

Section executors.
Context {W : Type} (fn : W → outcome * W) (wait : Z → W → option error * W)
        (rnd : Z → float64) (name : string).

Definition retryable (p : RetryPolicy) (err : error) : bool :=
  match RetryOn p with Some f => f err | None => true end.

(** The loop from the attempt numbered [attempt], [n] attempts being left. *)
Fixpoint execute_loop (p : RetryPolicy) (n : nat) (attempt : Z) (lastErr : option error)
    (lastOutput : value) (w : W) : (value * option error) * W :=
  match n with
  | O => ((VNil, Some (RetryExhaustedError name (MaxAttempts p) lastErr lastOutput)), w)
  | S n' =>
      match fn w with
      | (Panics r, w) => ((VNil, Some (Errorf ("node " +:+ name +:+ " panicked: " +:+ r))), w)
      | (Returns output None, w) => ((output, None), w)
      | (Returns output (Some err), w) =>
          if IsGraphInterrupt (Some err) then ((VNil, Some err), w)
          else if negb (retryable p err)
          then ((VNil, Some (Wrapf ("node " +:+ name +:+ " failed with non-retryable error: ") err)), w)
          else if decide (MaxAttempts p ≤ attempt)
          then ((VNil, Some (RetryExhaustedError name (MaxAttempts p) (Some err) output)), w)
          else match wait (CalculateBackoff (rnd attempt) p attempt) w with
               | (Some ctxErr, w) =>
                   ((VNil, Some (Wrapf ("node " +:+ name +:+ " cancelled during retry: ") ctxErr)), w)
               | (None, w) => execute_loop p n' (attempt + 1) (Some err) output w
               end
      end
  end.

(* internal/harness/graph/pregel/retry.go:28-80 RetryExecutor.Execute *)
Definition Execute (policy : option RetryPolicy) (w : W) : (value * option error) * W :=
  let p := default DefaultRetryPolicy policy in
  execute_loop p (Z.to_nat (MaxAttempts p)) 1 None VNil w.

(* internal/harness/graph/pregel/retry_multi.go:84-95 MultiPolicyRetryExecutor.findMatchingPolicy *)
Definition findMatchingPolicy (policies : list RetryPolicy) (err : error) : option RetryPolicy :=
  snd <$> list_find (λ p, retryable p err) policies.

Definition with_attempts (p : RetryPolicy) (n : Z) : RetryPolicy :=
  {| InitialInterval := InitialInterval p; BackoffFactor := BackoffFactor p;
     MaxInterval := MaxInterval p; MaxAttempts := n; Jitter := Jitter p; RetryOn := RetryOn p |}.

(** The outer loop; [None] when the fuel is used up.  A panic of the calls made
    here, outside RetryExecutor, is not recovered. *)
Fixpoint multi_loop (policies : list RetryPolicy) (fuel : nat) (attempt : Z) (w : W)
    : option (go (value * option error) * W) :=
  match fuel with
  | O => None
  | S fuel' =>
      match fn w with
      | (Panics _, w) => Some (Panic, w)
      | (Returns output None, w) => Some (Ret (output, None), w)
      | (Returns output (Some err), w) =>
          let attempt := attempt + 1 in
          match findMatchingPolicy policies err with
          | None =>
              Some (Ret (VNil, Some (Wrapf ("node " +:+ name +:+ " failed with non-retryable error: ") err)), w)
          | Some policy =>
              if decide (MaxAttempts policy ≤ attempt)
              then Some (Ret (VNil, Some (RetryExhaustedError name attempt (Some err) output)), w)
              else
                let remaining := MaxAttempts policy - attempt in
                match Execute (Some (with_attempts policy (remaining + 1))) w with
                | ((result, None), w) => Some (Ret (result, None), w)
                | ((_, Some _), w) => multi_loop policies fuel' (attempt + remaining) w
                end
          end
      end
  end.

Definition max_attempts (policies : list RetryPolicy) : Z :=
  foldr (λ p acc, Z.max (MaxAttempts p) acc) 0 policies.

Definition multi_fuel (policies : list RetryPolicy) : nat := S (Z.to_nat (max_attempts policies)).

(* internal/harness/graph/pregel/retry_multi.go:28-81 MultiPolicyRetryExecutor.Execute *)
Definition Multi_Execute (policies : list RetryPolicy) (w : W)
    : option (go (value * option error) * W) :=
  match policies with
  | [] => match fn w with
          | (Panics _, w) => Some (Panic, w)
          | (Returns output err, w) => Some (Ret (output, err), w)
          end
  | _ => multi_loop policies (multi_fuel policies) 0 w
  end.
End executors.

(** ** Lemmas *)

Lemma str_prefix_length n s : (n ≤ String.length s)%nat → String.length (str_prefix n s) = n.
Proof.
  unfold str_prefix. revert n. induction s as [|c s IH]; intros [|n] Hn; simpl in *; try lia; try done.
  rewrite IH by lia. done.
Qed.

Lemma toLower_length s : String.length (toLower s) = String.length s.
Proof. induction s; simpl; congruence. Qed.

Lemma toLower_prefix n s : toLower (str_prefix n s) = str_prefix n (toLower s).
Proof.
  unfold str_prefix. revert n. induction s as [|c s IH]; intros [|n]; simpl; try done. by rewrite IH.
Qed.

(** [contains] is: equal, or strictly longer with an equal prefix up to ASCII case. *)
Lemma contains_spec s substr :
  contains s substr = true ↔
  s = substr ∨ ((String.length substr < String.length s)%nat
                ∧ str_prefix (String.length substr) (toLower s) = toLower substr).
Proof.
  unfold contains, containsIgnoreCase. rewrite !toLower_length.
  rewrite !andb_true_iff, !orb_true_iff, !andb_true_iff, !orb_true_iff, !andb_true_iff, !bool_decide_eq_true.
  split.
  - intros [Hle [->|[Hlt [Hp|[_ Hp]]]]]; [by left|right..]; split; try done.
    rewrite <- toLower_prefix. by rewrite Hp.
  - intros [->|[Hlt Hp]]; [by split; [|left]|]. split; [lia|]. right. split; [done|].
    right. split; [lia|done].
Qed.

Section executor_lemmas.
Context {W : Type} (fn : W → outcome * W) (wait : Z → W → option error * W)
        (rnd : Z → float64) (name : string).

(** A counter of the calls of [fn] in the world. *)
Context (calls : W → Z)
        (fn_counts : ∀ w, calls (fn w).2 = calls w + 1)
        (wait_counts : ∀ d w, calls (wait d w).2 = calls w).

Lemma execute_loop_calls p n attempt le lo w :
  calls w ≤ calls (execute_loop fn wait rnd name p n attempt le lo w).2 ≤ calls w + Z.of_nat n.
Proof.
  revert attempt le lo w. induction n as [|n IH]; intros attempt le lo w; simpl; [lia|].
  pose proof (fn_counts w) as Hfn. destruct (fn w) as [[output [err|]|r] w1]; simpl in *; try lia.
  destruct (match err with GraphInterrupt _ => true | _ => false end); simpl; [lia|].
  destruct (negb _); simpl; [lia|].
  case_decide; simpl; [lia|].
  match goal with |- context [wait ?d w1] =>
    pose proof (wait_counts d w1); destruct (wait d w1) as [[ctxErr|] w2] end; simpl in *; [lia|].
  specialize (IH (attempt + 1) (Some err) output w2). lia.
Qed.

Lemma max_attempts_In p policies : p ∈ policies → MaxAttempts p ≤ max_attempts policies.
Proof. induction 1 as [p ps|p q ps Hin IH]; simpl; lia. Qed.

Lemma findMatchingPolicy_In policies err p : findMatchingPolicy policies err = Some p → p ∈ policies.
Proof.
  unfold findMatchingPolicy. rewrite fmap_Some. intros ([i q] & Hf & ->).
  apply list_find_Some in Hf as (Hl & _ & _). by eapply list_elem_of_lookup_2.
Qed.

Lemma multi_loop_total policies fuel attempt w :
  0 ≤ attempt → (Z.to_nat (max_attempts policies - attempt) < fuel)%nat →
  is_Some (multi_loop fn wait rnd name policies fuel attempt w).
Proof.
  revert attempt w. induction fuel as [|fuel IH]; intros attempt w Ha Hf; [lia|]. simpl.
  destruct (fn w) as [[output [err|]|r] w1]; [|eauto..].
  destruct (findMatchingPolicy policies err) as [p|] eqn:E; [|eauto].
  apply findMatchingPolicy_In, max_attempts_In in E. case_decide; [eauto|].
  destruct (Execute _ _ _ _ _ _) as [[result [e|]] w2]; [|eauto]. apply IH; lia.
Qed.
End executor_lemmas.
