(* ===== verification/StateGraph.v ===== *)
(** * The graph builder and its compilation (graph/graph.go, graph/state.go)

    [stateGraph] is the builder's state and every builder method a transformer
    of it.  [W] is the world node and condition functions act on. *)

From S2P Require Import Prelude GoValue Errors StateMap ValueChannels Channels.
From S2P Require Import Config Retry.
Local Open Scope Z_scope.

(** ** State schemas

    The schema is inspected by reflection only: its kind and, for a struct, the
    fields.  [ft_assign v] is the value a field of the type holds after a
    reflective assignment or conversion of [v], when one is possible. *)

Inductive gokind := KSlice | KMap | KNumeric | KOther.

Record field_type := { ft_kind : gokind; ft_zero : value; ft_assign : value → option value }.

Record struct_field := {
  sf_Name : string; sf_exported : bool; sf_json : option string; sf_Type : field_type;
  sf_Tag : string; (* the value of the key "harness" of the tag *)
}.

Inductive schema :=
| SchemaNil
| SchemaStruct (fields : list struct_field)
| SchemaMap (stringKeys : bool)
| SchemaOther (kind : string)
| SchemaPtr (s : schema).

(** ** Reducers of the registry [reducers] *)

(* internal/harness/graph/channels/reducer.go:120-138 AddReducer(part) *)
Definition AddReducer (current update : value) : value :=
  match current, update with
  | VInt c, VInt u => VInt (int_add c u)
  | VFloat c, VFloat u => VFloat (f64_add c u)
  | _, _ => update
  end.

(* internal/harness/graph/channels/reducer.go:141-150 AppendReducer(part) *)
Definition AppendReducer (current update : value) : value :=
  match current with
  | VNil => VList [update]
  | VList slice => VList (slice ++ [update])
  | _ => VList [current; update]
  end.

(* internal/harness/graph/channels/reducer.go:153-170 MergeReducer(part) *)
Definition MergeReducer `{MapOrder} (current update : value) : value :=
  match current, update with
  | VMap currentMap, VMap updateMap =>
      VMap (copy_loop id updateMap (copy_loop id currentMap ∅))
  | _, _ => update
  end.

(** graph/state.go repeats the same three functions under their tag names. *)
(* internal/harness/graph/graph/state.go:149-200 reducers(part) *)
Definition reducer_registry `{MapOrder} (name : string) : option ReducerFunc :=
  if decide (name = "add") then Some AddReducer
  else if decide (name = "append") then Some AppendReducer
  else if decide (name = "merge") then Some MergeReducer
  else None.

(** ** Annotations *)

(* internal/harness/graph/graph/state.go:14-19 Annotation *)
Record Annotation := { an_Reducer : option ReducerFunc; an_Metadata : gmap string value }.

(** [strings.SplitN(pair, "=", 2)]: the parts around the first separator, if any. *)
Definition split_eq (pair : string) : option (string * string) :=
  match split_on equals_sign pair with
  | k :: ((_ :: _) as rest) => Some (k, join_with equals_sign rest)
  | _ => None
  end.

Definition annotate_pair `{MapOrder} (acc : error + Annotation) (pair : string)
    : error + Annotation :=
  match acc with
  | inl e => inl e
  | inr an =>
      match split_eq pair with
      | None => inr {| an_Reducer := an_Reducer an;
                       an_Metadata := <[pair := VBool true]> (an_Metadata an) |}
      | Some (k, v) =>
          let key := trim_space k in
          let val := trim_space v in
          if decide (key = "reducer") then
            match reducer_registry val with
            | Some r => inr {| an_Reducer := Some r; an_Metadata := an_Metadata an |}
            | None => inl (Errorf ("unknown reducer: " +:+ val))
            end
          else inr {| an_Reducer := an_Reducer an;
                      an_Metadata := <[key := VStr val]> (an_Metadata an) |}
      end
  end.

(* internal/harness/graph/graph/state.go:115-146 parseAnnotation *)
Definition parseAnnotation `{MapOrder} (tag : string) : error + Annotation :=
  foldl annotate_pair (inr {| an_Reducer := None; an_Metadata := ∅ |}) (split_on comma tag).

(** ** Channels of struct fields *)

(** A [reflect.Type] held in an [any]: a pointer to a struct without exported fields. *)
Definition rtype : value := VPtr (VStruct []).

Definition merge_operator `{MapOrder} (a b : value) : value :=
  match a, b with
  | VMap aMap, VMap bMap => VMap (copy_loop id bMap (copy_loop id aMap ∅))
  | _, _ => b
  end.

(* internal/harness/graph/channels/reducer.go:68-115 CreateReducerChannel *)
Definition CreateReducerChannel `{MapOrder} (fieldName : string) (fieldType : field_type)
    (reducer : option ReducerFunc) : Channel :=
  let channel := Plain (match ft_kind fieldType with
    | KSlice => ChBinaryOperatorAggregate (NewBinaryOperatorAggregate rtype ListAppend)
    | KMap => ChBinaryOperatorAggregate (NewBinaryOperatorAggregate rtype merge_operator)
    | KNumeric => ChBinaryOperatorAggregate (NewBinaryOperatorAggregate (ft_zero fieldType) IntAdd)
    | KOther => ChLastValue (NewLastValue rtype)
    end) in
  let channel := Channel_SetKey channel fieldName in
  match reducer with Some r => NewReducerChannel channel r | None => channel end.

(* internal/harness/graph/graph/state.go:22-27 fieldInfo *)
Record fieldInfo := {
  fi_Name : string; fi_Type : field_type; fi_Channel : Channel; fi_Annotation : option Annotation;
}.

(* internal/harness/graph/graph/state.go:81-111 processField *)
Definition processField `{MapOrder} (field : struct_field) : error + fieldInfo :=
  let annotation :=
    if decide (sf_Tag field = "") then inr None
    else match parseAnnotation (sf_Tag field) with
         | inr an => inr (Some an)
         | inl e => inl (Wrapf "invalid annotation: " e)
         end in
  match annotation with
  | inl e => inl e
  | inr an =>
      inr {| fi_Name := sf_Name field; fi_Type := sf_Type field;
             fi_Channel := CreateReducerChannel (sf_Name field) (sf_Type field) (an ≫= an_Reducer);
             fi_Annotation := an |}
  end.

Fixpoint process_fields `{MapOrder} (fields : list struct_field) (acc : gmap string fieldInfo)
    : error + gmap string fieldInfo :=
  match fields with
  | [] => inr acc
  | f :: rest =>
      if sf_exported f then
        match processField f with
        | inl e => inl (Wrapf ("field " +:+ sf_Name f +:+ ": ") e)
        | inr info => process_fields rest (<[fi_Name info := info]> acc)
        end
      else process_fields rest acc
  end.

(* internal/harness/graph/graph/state.go:31-78 validateStateSchema *)
Definition validateStateSchema `{MapOrder} (s : schema) : error + gmap string fieldInfo :=
  match s with
  | SchemaNil => inl (Errorf "state schema cannot be nil")
  | _ =>
      match (match s with SchemaPtr s' => s' | s' => s' end) with
      | SchemaStruct fields => process_fields fields ∅
      | SchemaMap true => inr ∅
      | SchemaMap false => inl (Errorf "state schema map must have string keys")
      | SchemaOther kind => inl (Errorf ("state schema must be a struct or map, got " +:+ kind))
      | SchemaPtr _ => inl (Errorf "state schema must be a struct or map, got ptr")
      | SchemaNil => inl (Errorf "state schema must be a struct or map, got invalid")
      end
  end.

(** ** The graph *)

Section graph.
Context {W : Type}.

(* internal/harness/graph/types/types.go:330-349 NodeFunc *)
Definition NodeFunc : Type := value → W → outcome * W.
(* internal/harness/graph/types/types.go:333-349 EdgeFunc *)
Definition EdgeFunc : Type := value → W → (value * option error) * W.

(* internal/harness/graph/types/types.go:340-349 Node *)
Record Node := {
  n_Name : string;
  n_Function : option NodeFunc;
  n_Triggers : list string;
  n_Writes : list string;
  n_RetryPolicy : option RetryPolicy;
  n_Tags : list string;
  n_Metadata : gmap string value;
  n_FieldMapping : list FieldMapping;
}.

(* internal/harness/graph/types/types.go:352-355 Edge *)
Record Edge := { e_From : string; e_To : string }.

(* internal/harness/graph/types/types.go:365-369 DataEdge *)
Record DataEdge := { de_From : string; de_To : string; de_Mapping : list FieldMapping }.

(* internal/harness/graph/types/types.go:372-376 ConditionalEdge *)
Record ConditionalEdge :=
  { ce_From : string; ce_Condition : EdgeFunc; ce_Mapping : gmap string string }.

(* internal/harness/graph/types/types.go:379-383 Branch *)
Record Branch := { br_From : string; br_Condition : EdgeFunc; br_Then : value → list string }.

(* internal/harness/graph/types/types.go:386-395 NodeOptions *)
Record NodeOptions := {
  o_RetryPolicy : option RetryPolicy;
  o_Tags : list string;
  o_Metadata : gmap string value;
  o_Triggers : list string;
  o_Writes : list string;
  o_FieldMapping : list FieldMapping;
  o_StatePre : option NodeFunc;
  o_StatePost : option NodeFunc;
}.

(* internal/harness/graph/types/types.go:12-12 NodeTriggerMode *)
Definition NodeTriggerMode : Type := string.
Definition NodeTriggerAnyPredecessor : NodeTriggerMode := "any".
Definition NodeTriggerAllPredecessor : NodeTriggerMode := "all".

(* internal/harness/graph/graph/graph.go:19-33 stateGraph *)
Record stateGraph := {
  g_nodes : gmap string Node;
  g_edges : list Edge;
  g_dataEdges : list DataEdge;
  g_conditionalEdges : list ConditionalEdge;
  g_branches : list Branch;
  g_entryPoint : string;
  g_finishPoints : list string;
  g_channels : gmap string Channel;
  g_reducers : gmap string ReducerFunc;
  g_stateSchema : schema;
  g_inputSchema : schema;
  g_outputSchema : schema;
  g_NodeTriggerMode : NodeTriggerMode;
}.

(* internal/harness/graph/graph/graph.go:36-49 NewStateGraph *)
Definition NewStateGraph (stateSchema : schema) : stateGraph :=
  {| g_nodes := ∅; g_edges := []; g_dataEdges := []; g_conditionalEdges := []; g_branches := [];
     g_entryPoint := ""; g_finishPoints := []; g_channels := ∅; g_reducers := ∅;
     g_stateSchema := stateSchema; g_inputSchema := stateSchema; g_outputSchema := stateSchema;
     g_NodeTriggerMode := "" |}.

(** Field updates of the builder. *)
Definition set_nodes f (g : stateGraph) : stateGraph :=
  {| g_nodes := f (g_nodes g); g_edges := g_edges g; g_dataEdges := g_dataEdges g;
     g_conditionalEdges := g_conditionalEdges g; g_branches := g_branches g;
     g_entryPoint := g_entryPoint g; g_finishPoints := g_finishPoints g;
     g_channels := g_channels g; g_reducers := g_reducers g; g_stateSchema := g_stateSchema g;
     g_inputSchema := g_inputSchema g; g_outputSchema := g_outputSchema g;
     g_NodeTriggerMode := g_NodeTriggerMode g |}.
Definition set_edges es des ces brs (g : stateGraph) : stateGraph :=
  {| g_nodes := g_nodes g; g_edges := es; g_dataEdges := des;
     g_conditionalEdges := ces; g_branches := brs;
     g_entryPoint := g_entryPoint g; g_finishPoints := g_finishPoints g;
     g_channels := g_channels g; g_reducers := g_reducers g; g_stateSchema := g_stateSchema g;
     g_inputSchema := g_inputSchema g; g_outputSchema := g_outputSchema g;
     g_NodeTriggerMode := g_NodeTriggerMode g |}.
Definition set_points entry finish (g : stateGraph) : stateGraph :=
  {| g_nodes := g_nodes g; g_edges := g_edges g; g_dataEdges := g_dataEdges g;
     g_conditionalEdges := g_conditionalEdges g; g_branches := g_branches g;
     g_entryPoint := entry; g_finishPoints := finish;
     g_channels := g_channels g; g_reducers := g_reducers g; g_stateSchema := g_stateSchema g;
     g_inputSchema := g_inputSchema g; g_outputSchema := g_outputSchema g;
     g_NodeTriggerMode := g_NodeTriggerMode g |}.
Definition set_channels chs reds (g : stateGraph) : stateGraph :=
  {| g_nodes := g_nodes g; g_edges := g_edges g; g_dataEdges := g_dataEdges g;
     g_conditionalEdges := g_conditionalEdges g; g_branches := g_branches g;
     g_entryPoint := g_entryPoint g; g_finishPoints := g_finishPoints g;
     g_channels := chs; g_reducers := reds; g_stateSchema := g_stateSchema g;
     g_inputSchema := g_inputSchema g; g_outputSchema := g_outputSchema g;
     g_NodeTriggerMode := g_NodeTriggerMode g |}.

(* internal/harness/graph/graph/graph.go:225-225 stateGraph.SetNodeTriggerMode *)
Definition SetNodeTriggerMode (mode : NodeTriggerMode) (g : stateGraph) : stateGraph :=
  {| g_nodes := g_nodes g; g_edges := g_edges g; g_dataEdges := g_dataEdges g;
     g_conditionalEdges := g_conditionalEdges g; g_branches := g_branches g;
     g_entryPoint := g_entryPoint g; g_finishPoints := g_finishPoints g;
     g_channels := g_channels g; g_reducers := g_reducers g; g_stateSchema := g_stateSchema g;
     g_inputSchema := g_inputSchema g; g_outputSchema := g_outputSchema g;
     g_NodeTriggerMode := mode |}.

(* internal/harness/graph/graph/graph.go:61-72 stateGraph.AddNode *)
Definition AddNode (g : stateGraph) (name : string) (fn : option NodeFunc) : stateGraph :=
  set_nodes <[name := {| n_Name := name; n_Function := fn; n_Triggers := []; n_Writes := [];
                         n_RetryPolicy := None; n_Tags := []; n_Metadata := ∅;
                         n_FieldMapping := [] |}]> g.

(** A nil function called. *)
Definition nil_func : string := "runtime error: invalid memory address or nil pointer dereference".
Definition call (fn : option NodeFunc) (state : value) (w : W) : outcome * W :=
  match fn with Some f => f state w | None => (Panics nil_func, w) end.

(** The node function with its pre- and post-handlers. *)
Definition wrap_handlers (name : string) (pre post : option NodeFunc) (orig : option NodeFunc)
    : NodeFunc := λ state w,
  let run state w :=
    match call orig state w with
    | (Returns out None, w) =>
        match post with
        | None => (Returns out None, w)
        | Some post =>
            match post out w with
            | (Returns _ (Some err), w) =>
                (Returns VNil (Some (Wrapf ("state post-handler for '" +:+ name +:+ "': ") err)), w)
            | r => r
            end
        end
    | (Returns _ (Some err), w) => (Returns VNil (Some err), w)
    | r => r
    end in
  match pre with
  | None => run state w
  | Some pre =>
      match pre state w with
      | (Returns state None, w) => run state w
      | (Returns _ (Some err), w) =>
          (Returns VNil (Some (Wrapf ("state pre-handler for '" +:+ name +:+ "': ") err)), w)
      | r => r
      end
  end.

(* internal/harness/graph/graph/graph.go:74-123 stateGraph.AddNodeWithOptions *)
Definition AddNodeWithOptions `{MapOrder} (g : stateGraph) (name : string)
    (fn : option NodeFunc) (opts : NodeOptions) : stateGraph :=
  let fn := match o_StatePre opts, o_StatePost opts with
            | None, None => fn
            | pre, post => Some (wrap_handlers name pre post fn)
            end in
  set_nodes <[name := {| n_Name := name; n_Function := fn; n_Triggers := o_Triggers opts;
                         n_Writes := o_Writes opts; n_RetryPolicy := o_RetryPolicy opts;
                         n_Tags := o_Tags opts; n_Metadata := copy_loop id (o_Metadata opts) ∅;
                         n_FieldMapping := o_FieldMapping opts |}]> g.

Definition has_node (g : stateGraph) (name : string) : bool :=
  bool_decide (is_Some (g_nodes g !! name)).

(** The node checks shared by [AddEdge] and [AddDataEdge]. *)
Definition edge_error (g : stateGraph) (from to : string) : option error :=
  if negb (has_node g from) && negb (bool_decide (from = Start)) then Some (NodeNotFoundError from)
  else if negb (has_node g to) && negb (bool_decide (to = End_)) then Some (NodeNotFoundError to)
  else None.

(* internal/harness/graph/graph/graph.go:150-167 stateGraph.AddEdge *)
Definition AddEdge (g : stateGraph) (from to : string) : error + stateGraph :=
  match edge_error g from to with
  | Some e => inl e
  | None =>
      let g1 := set_edges (g_edges g ++ [{| e_From := from; e_To := to |}]) (g_dataEdges g)
                  (g_conditionalEdges g) (g_branches g) g in
      inr (set_points (if decide (from = Start) then to else g_entryPoint g)
             (if decide (to = End_ ∧ from ∉ g_finishPoints g) then g_finishPoints g ++ [from]
              else g_finishPoints g) g1)
  end.

(* internal/harness/graph/graph/graph.go:169-182 stateGraph.AddConditionalEdges *)
Definition AddConditionalEdges `{MapOrder} (g : stateGraph) (from : string) (condition : EdgeFunc)
    (mapping : gmap string string) : error + stateGraph :=
  if negb (has_node g from) then inl (NodeNotFoundError from) else
  match list_find (λ kt, negb (has_node g kt.2) && negb (bool_decide (kt.2 = End_)) = true)
          (range mapping) with
  | Some (_, (_, target)) => inl (NodeNotFoundError target)
  | None =>
      inr (set_edges (g_edges g) (g_dataEdges g)
             (g_conditionalEdges g ++
                [{| ce_From := from; ce_Condition := condition; ce_Mapping := mapping |}])
             (g_branches g) g)
  end.

(* internal/harness/graph/graph/graph.go:184-192 stateGraph.AddBranch *)
Definition AddBranch (g : stateGraph) (from : string) (condition : EdgeFunc)
    (then_ : value → list string) : error + stateGraph :=
  if negb (has_node g from) then inl (NodeNotFoundError from) else
  inr (set_edges (g_edges g) (g_dataEdges g) (g_conditionalEdges g)
         (g_branches g ++ [{| br_From := from; br_Condition := condition; br_Then := then_ |}]) g).

(* internal/harness/graph/graph/graph.go:194-203 stateGraph.AddDataEdge *)
Definition AddDataEdge (g : stateGraph) (from to : string) (mappings : list FieldMapping)
    : error + stateGraph :=
  match edge_error g from to with
  | Some e => inl e
  | None =>
      inr (set_edges (g_edges g)
             (g_dataEdges g ++ [{| de_From := from; de_To := to; de_Mapping := mappings |}])
             (g_conditionalEdges g) (g_branches g) g)
  end.

(* internal/harness/graph/graph/graph.go:229-235 stateGraph.SetEntryPoint *)
Definition SetEntryPoint (g : stateGraph) (node : string) : error + stateGraph :=
  if negb (has_node g node) then inl (NodeNotFoundError node)
  else inr (set_points node (g_finishPoints g) g).

(* internal/harness/graph/graph/graph.go:237-243 stateGraph.SetFinishPoint *)
Definition SetFinishPoint (g : stateGraph) (node : string) : error + stateGraph :=
  if negb (has_node g node) then inl (NodeNotFoundError node)
  else inr (set_points (g_entryPoint g) (g_finishPoints g ++ [node]) g).

(* internal/harness/graph/graph/graph.go:245-250 stateGraph.AddChannel *)
Definition AddChannel `{MapOrder} (g : stateGraph) (name : string) (ch : Channel) : stateGraph :=
  set_channels (<[name := Channel_SetKey ch name]> (g_channels g)) (g_reducers g) g.

(* internal/harness/graph/graph/graph.go:252-257 stateGraph.SetReducer *)
Definition SetReducer (g : stateGraph) (channelName : string) (reducer : ReducerFunc) : stateGraph :=
  set_channels
    (match g_channels g !! channelName with
     | Some channel => <[channelName := NewReducerChannel channel reducer]> (g_channels g)
     | None => g_channels g
     end) (<[channelName := reducer]> (g_reducers g)) g.

(* internal/harness/graph/graph/graph.go:259-269 stateGraph.AddChannelWithReducer *)
Definition AddChannelWithReducer (g : stateGraph) (name : string) (ch : Channel)
    (reducer : option ReducerFunc) : stateGraph :=
  let ch := Channel_SetKey ch name in
  match reducer with
  | Some r => set_channels (<[name := NewReducerChannel ch r]> (g_channels g))
                (<[name := r]> (g_reducers g)) g
  | None => set_channels (<[name := ch]> (g_channels g)) (g_reducers g) g
  end.
End graph.
Arguments NodeFunc : clear implicits.
Arguments EdgeFunc : clear implicits.
Arguments Node : clear implicits.
Arguments ConditionalEdge : clear implicits.
Arguments Branch : clear implicits.
Arguments NodeOptions : clear implicits.
Arguments stateGraph : clear implicits.
