(* ===== verification/GraphCompile.v ===== *)
(** * Validation and compilation of a graph (graph/graph.go, second half)

    [computeReachable] is a breadth-first search with a queue; its fuel is the
    number of possible targets plus one, which [computeReachable_spec] shows to
    be enough, and the set it returns is the reflexive-transitive closure of
    the edges. *)

From S2P Require Import Prelude GoValue Errors StateMap ValueChannels Channels.
From S2P Require Import Config Retry StateGraph.
Local Open Scope nat_scope.

Section compile.
Context {W : Type} `{MO : MapOrder}.
Implicit Types g : stateGraph W.

(** ** Reachability *)

(** The queue and the set [reachable]. *)
Definition bfs_state : Type := list string * gset string.

(** Mark and enqueue a target, unless it is marked or the end. *)
Definition enqueue (st : bfs_state) (target : string) : bfs_state :=
  if decide (target ∈ st.2 ∨ target = End_) then st
  else (st.1 ++ [target], {[target]} ∪ st.2).

Definition visit_edge (current : string) (st : bfs_state) (edge : Edge) : bfs_state :=
  if decide (e_From edge = current) then enqueue st (e_To edge) else st.

Definition visit_conditional g (current : string) (st : bfs_state) (ce : ConditionalEdge W)
    : bfs_state :=
  if decide (ce_From ce = current) then
    foldl (λ st kt, if has_node g kt.2 then enqueue st kt.2 else st) st (range (ce_Mapping ce))
  else st.

Definition visit g (current : string) (st : bfs_state) : bfs_state :=
  foldl (visit_conditional g current) (foldl (visit_edge current) st (g_edges g))
    (g_conditionalEdges g).

Fixpoint bfs g (fuel : nat) (st : bfs_state) : option (gset string) :=
  match st.1 with
  | [] => Some st.2
  | current :: queue =>
      match fuel with
      | O => None
      | S fuel' => bfs g fuel' (visit g current (queue, st.2))
      end
  end.

(** Every name an edge leads to. *)
Definition all_targets g : list string :=
  map e_To (g_edges g) ++ concat (map (λ ce, (range (ce_Mapping ce)).*2) (g_conditionalEdges g)).

(* internal/harness/graph/graph/graph.go:290-318 stateGraph.computeReachable *)
Definition computeReachable g : option (gset string) :=
  if decide (g_entryPoint g = "") then Some ∅
  else bfs g (S (length (all_targets g))) ([g_entryPoint g], {[g_entryPoint g]}).

(** The edges reachability follows: regular and conditional edges, not branches. *)
Definition leads_to g (a b : string) : Prop :=
  b ≠ End_ ∧
  ((∃ edge, edge ∈ g_edges g ∧ e_From edge = a ∧ e_To edge = b) ∨
   (∃ ce k, ce ∈ g_conditionalEdges g ∧ ce_From ce = a ∧ ce_Mapping ce !! k = Some b
            ∧ is_Some (g_nodes g !! b))).

(** ** Correctness of the search *)

(** The targets visited from a node, in the order of the loops. *)
Definition successors g (current : string) : list string :=
  map e_To (filter (λ edge, e_From edge = current) (g_edges g))
  ++ concat (map (λ ce, filter (λ t, has_node g t = true) (range (ce_Mapping ce)).*2)
               (filter (λ ce, ce_From ce = current) (g_conditionalEdges g))).

Lemma visit_edges_enqueue current es st :
  foldl (visit_edge current) st es
  = foldl enqueue st (map e_To (filter (λ edge, e_From edge = current) es)).
Proof.
  revert st. induction es as [|edge es IH]; intros st; [done|]. simpl.
  rewrite filter_cons. unfold visit_edge at 2. case_decide; simpl; by rewrite IH.
Qed.

Lemma visit_mapping_enqueue g (l : list (string * string)) st :
  foldl (λ st kt, if has_node g kt.2 then enqueue st kt.2 else st) st l
  = foldl enqueue st (filter (λ t, has_node g t = true) l.*2).
Proof.
  revert st. induction l as [|[k t] l IH]; intros st; [done|]. cbn [foldl fmap list_fmap fst snd].
  rewrite filter_cons. destruct (has_node g t) eqn:E.
  - rewrite decide_True by done. simpl. apply IH.
  - rewrite decide_False by done. apply IH.
Qed.

Lemma visit_successors g current st : visit g current st = foldl enqueue st (successors g current).
Proof.
  unfold visit, successors. rewrite foldl_app, visit_edges_enqueue.
  generalize (foldl enqueue st (map e_To (filter (λ edge, e_From edge = current) (g_edges g)))).
  clear st. induction (g_conditionalEdges g) as [|ce ces IH]; intros st; [done|]. simpl.
  rewrite filter_cons. unfold visit_conditional at 2. case_decide; simpl; rewrite IH; [|done].
  by rewrite foldl_app, visit_mapping_enqueue.
Qed.

Lemma successors_spec g a b :
  b ∈ successors g a ∧ b ≠ End_ ↔ leads_to g a b.
Proof.
  unfold successors, leads_to. rewrite elem_of_app, list_elem_of_fmap. split.
  - intros [[(edge & -> & Hin)|Hin] Hne]; (split; [done|]).
    + apply list_elem_of_filter in Hin as [<- Hin]. left. eauto.
    + apply list_elem_of_In, in_concat in Hin as (l & Hl & Hb).
      apply list_elem_of_In, list_elem_of_fmap in Hl as (ce & -> & Hce).
      apply list_elem_of_filter in Hce as [<- Hce].
      apply list_elem_of_In, list_elem_of_filter in Hb as [Hn%bool_decide_eq_true Hb].
      apply list_elem_of_fmap in Hb as ([k t] & -> & Hk%elem_of_range). right. eauto 10.
  - intros [Hne [(edge & Hin & <- & <-)|(ce & k & Hce & <- & Hk & Hn)]]; (split; [|done]).
    + left. exists edge. split; [done|]. by apply list_elem_of_filter.
    + right. apply list_elem_of_In, in_concat.
      exists (filter (λ t, has_node g t = true) (range (ce_Mapping ce)).*2).
      split; apply list_elem_of_In.
      * apply list_elem_of_fmap. exists ce. split; [done|]. by apply list_elem_of_filter.
      * apply list_elem_of_filter. split; [by apply bool_decide_eq_true|].
        apply list_elem_of_fmap. exists (k, b). split; [done|]. by apply elem_of_range.
Qed.

(** Enqueueing a list of targets marks those that are not the end, enqueues only
    newly marked ones, and keeps the queue within the marked set. *)
Lemma enqueue_list_spec l st :
  (∀ x, x ∈ (foldl enqueue st l).2 ↔ x ∈ st.2 ∨ (x ∈ l ∧ x ≠ End_)) ∧
  (∀ x, x ∈ (foldl enqueue st l).1 ↔ x ∈ st.1 ∨ (x ∈ (foldl enqueue st l).2 ∧ x ∉ st.2)).
Proof.
  revert st. induction l as [|t l IH]; intros [q R]; simpl; [set_solver|].
  destruct (IH (enqueue (q, R) t)) as [H1 H2]. clear IH.
  unfold enqueue in *; simpl in *. destruct (decide (t ∈ R ∨ t = End_)) as [Hd|Hd]; simpl in *.
  - split; [|done]. intros x. rewrite H1. destruct Hd; set_solver.
  - split; intros x; [rewrite H1; set_solver|]. rewrite H2.
    destruct (decide (x = t)) as [->|Hne]; [|set_solver].
    rewrite H1. set_solver.
Qed.

(** The measure: marked targets leave the set of targets to come. *)
Lemma enqueue_list_measure (T : gset string) l st :
  (∀ x, x ∈ l → x ∈ T) →
  length (foldl enqueue st l).1 + size (T ∖ (foldl enqueue st l).2) = length st.1 + size (T ∖ st.2).
Proof.
  revert st. induction l as [|t l IH]; intros st HT; [done|]. cbn [foldl].
  rewrite IH by set_solver. unfold enqueue. case_decide as Hd; [done|]. cbn [fst snd].
  rewrite length_app. cbn [length].
  replace (T ∖ st.2) with ({[t]} ∪ (T ∖ ({[t]} ∪ st.2))).
  - rewrite (size_union {[t]} (T ∖ ({[t]} ∪ st.2))), size_singleton by set_solver. lia.
  - apply set_eq. intros x. destruct (decide (x = t)); set_solver.
Qed.

Lemma successors_targets g a b : b ∈ successors g a → b ∈ all_targets g.
Proof.
  unfold successors, all_targets. rewrite !elem_of_app, !list_elem_of_fmap.
  intros [(edge & -> & Hin)|Hin]; [left|right].
  - apply list_elem_of_filter in Hin as [_ Hin]. eauto.
  - apply list_elem_of_In, in_concat in Hin as (l & Hl & Hb).
    apply list_elem_of_In, list_elem_of_fmap in Hl as (ce & -> & Hce).
    apply list_elem_of_filter in Hce as [_ Hce].
    apply list_elem_of_In, list_elem_of_filter in Hb as [_ Hb].
    apply list_elem_of_In, in_concat. exists (range (ce_Mapping ce)).*2.
    split; apply list_elem_of_In; [|done]. apply list_elem_of_fmap. eauto.
Qed.

(** The invariant of the search. *)
Definition bfs_inv g (entry : string) (st : bfs_state) : Prop :=
  entry ∈ st.2 ∧ (∀ x, x ∈ st.1 → x ∈ st.2) ∧ (∀ x, x ∈ st.2 → rtc (leads_to g) entry x) ∧
  (∀ x y, x ∈ st.2 → leads_to g x y → x ∈ st.1 ∨ y ∈ st.2).

Lemma visit_inv g entry current queue R :
  bfs_inv g entry (current :: queue, R) → bfs_inv g entry (visit g current (queue, R)).
Proof.
  intros (He & Hq & Hr & Hc). rewrite visit_successors.
  destruct (enqueue_list_spec (successors g current) (queue, R)) as [H2 H1].
  set (st := foldl enqueue (queue, R) (successors g current)) in *. simpl in *.
  split_and!.
  - apply H2. by left.
  - intros x Hx. apply H1 in Hx as [Hx|[Hx _]]; [|done]. apply H2. left. apply Hq. by right.
  - intros x Hx. apply H2 in Hx as [Hx|Hx]; [by apply Hr|].
    apply successors_spec in Hx. eapply rtc_r; [|done]. apply Hr, Hq. left.
  - intros x y Hx Hxy. destruct (decide (x ∈ R)) as [HxR|HxR]; [|left; apply H1; by right].
    destruct (Hc x y HxR Hxy) as [Hin|Hin]; [|right; apply H2; by left].
    apply elem_of_cons in Hin as [->|Hin]; [|left; apply H1; by left].
    right. apply H2. right. by apply successors_spec.
Qed.

Lemma bfs_spec g entry fuel st :
  bfs_inv g entry st →
  length st.1 + size (list_to_set (all_targets g) ∖ st.2 : gset string) ≤ fuel →
  ∃ R, bfs g fuel st = Some R ∧ ∀ x, x ∈ R ↔ rtc (leads_to g) entry x.
Proof.
  revert st. induction fuel as [|fuel IH]; intros [[|current queue] R] Hinv Hf; simpl in *; try lia.
  3: { apply IH; [by apply visit_inv|]. rewrite visit_successors.
       rewrite enqueue_list_measure; [simpl; lia|].
       intros x Hx. apply elem_of_list_to_set. by eapply successors_targets. }
  all: exists R; split; [done|]; destruct Hinv as (He & _ & Hr & Hc); simpl in *;
    intros x; split; [by apply Hr|];
    intros Hx; apply rtc_ind_r with (P := λ x, x ∈ R) in Hx; try done;
    intros y z _ Hyz Hy; by destruct (Hc y z Hy Hyz) as [Hn%elem_of_nil|].
Qed.

Lemma computeReachable_some g :
  ∃ R, computeReachable g = Some R ∧
       ∀ x, x ∈ R ↔ g_entryPoint g ≠ "" ∧ rtc (leads_to g) (g_entryPoint g) x.
Proof.
  unfold computeReachable. case_decide as He.
  { exists ∅. split; [done|]. set_solver. }
  destruct (bfs_spec g (g_entryPoint g) (S (length (all_targets g)))
              ([g_entryPoint g], {[g_entryPoint g]})) as (R & HR & Hx).
  - split_and!; simpl; [set_solver..| |].
    + intros x ->%elem_of_singleton. apply rtc_refl.
    + intros x y ->%elem_of_singleton _. left. left.
  - simpl. assert (size (list_to_set (all_targets g) ∖ {[g_entryPoint g]} : gset string)
      ≤ length (all_targets g)); [|lia].
    etrans; [apply subseteq_size, subseteq_difference_l; reflexivity|apply size_list_to_set_le].
  - exists R. split; [done|]. intros x. rewrite Hx. naive_solver.
Qed.
(** ** Validation *)

(* internal/harness/graph/graph/state.go:204-207 stateGraph.ValidateStateSchema *)
Definition ValidateStateSchema g : option error :=
  match validateStateSchema (g_stateSchema g) with inl e => Some e | inr _ => None end.

(* internal/harness/graph/graph/graph.go:271-288 stateGraph.Validate *)
Definition Validate g : option error :=
  if decide (g_entryPoint g = "") then Some (Errorf "no entry point set") else
  if decide (g_finishPoints g = []) then Some (Errorf "no finish points set") else
  let reachable := default ∅ (computeReachable g) in
  match list_find (λ nn, nn.1 ∉ reachable) (range (g_nodes g)) with
  | Some (_, (name, _)) =>
      Some (Errorf ("node " +:+ name +:+ " is not reachable from entry point"))
  | None =>
      match ValidateStateSchema g with
      | Some err => Some (Wrapf "state schema validation failed: " err)
      | None => None
      end
  end.

(** The loop body of [configureChannelsFromSchema]. *)
Definition configure_field (acc : gmap string Channel * gmap string ReducerFunc)
    (ni : string * fieldInfo) : gmap string Channel * gmap string ReducerFunc :=
  (match acc.1 !! ni.1 with Some _ => acc.1 | None => <[ni.1 := fi_Channel ni.2]> acc.1 end,
   match fi_Annotation ni.2 ≫= an_Reducer with
   | Some r => <[ni.1 := r]> acc.2 | None => acc.2 end).

(* internal/harness/graph/graph/graph.go:320-334 stateGraph.configureChannelsFromSchema *)
Definition configureChannelsFromSchema g : error + stateGraph W :=
  match validateStateSchema (g_stateSchema g) with
  | inl e => inl e
  | inr fieldInfos =>
      let '(chs, reds) := foldl configure_field (g_channels g, g_reducers g) (range fieldInfos) in
      inr (set_channels chs reds g)
  end.

(** ** Compilation; [CK] is the type of the checkpointer *)

(* internal/harness/graph/graph/graph.go:342-350 compiledGraph *)
Record compiledGraph {CK : Type} := {
  cg_graph : stateGraph W;
  cg_checkpointer : option CK;
  cg_interrupts : gset string;
  cg_interruptsAfter : gset string;
  cg_recursionLimit : Z;
  cg_debug : bool;
  cg_nodeTriggerMode : NodeTriggerMode;
}.
Arguments compiledGraph : clear implicits.

Section options.
Context {CK : Type}.

(* internal/harness/graph/graph/graph.go:339-339 CompileOption *)
Definition CompileOption : Type := compiledGraph CK → compiledGraph CK.

(* internal/harness/graph/graph/graph.go:375-379 WithCheckpointer *)
Definition WithCheckpointer (checkpointer : option CK) : CompileOption := λ cg,
  {| cg_graph := cg_graph cg; cg_checkpointer := checkpointer; cg_interrupts := cg_interrupts cg;
     cg_interruptsAfter := cg_interruptsAfter cg; cg_recursionLimit := cg_recursionLimit cg;
     cg_debug := cg_debug cg; cg_nodeTriggerMode := cg_nodeTriggerMode cg |}.

(* internal/harness/graph/graph/graph.go:381-387 WithInterrupts *)
Definition WithInterrupts (nodes : list string) : CompileOption := λ cg,
  {| cg_graph := cg_graph cg; cg_checkpointer := cg_checkpointer cg;
     cg_interrupts := list_to_set nodes ∪ cg_interrupts cg;
     cg_interruptsAfter := cg_interruptsAfter cg; cg_recursionLimit := cg_recursionLimit cg;
     cg_debug := cg_debug cg; cg_nodeTriggerMode := cg_nodeTriggerMode cg |}.

(* internal/harness/graph/graph/graph.go:389-395 WithInterruptsAfter *)
Definition WithInterruptsAfter (nodes : list string) : CompileOption := λ cg,
  {| cg_graph := cg_graph cg; cg_checkpointer := cg_checkpointer cg;
     cg_interrupts := cg_interrupts cg;
     cg_interruptsAfter := list_to_set nodes ∪ cg_interruptsAfter cg;
     cg_recursionLimit := cg_recursionLimit cg;
     cg_debug := cg_debug cg; cg_nodeTriggerMode := cg_nodeTriggerMode cg |}.

(* internal/harness/graph/graph/graph.go:397-401 WithRecursionLimit *)
Definition WithRecursionLimit (limit : Z) : CompileOption := λ cg,
  {| cg_graph := cg_graph cg; cg_checkpointer := cg_checkpointer cg;
     cg_interrupts := cg_interrupts cg; cg_interruptsAfter := cg_interruptsAfter cg;
     cg_recursionLimit := limit; cg_debug := cg_debug cg;
     cg_nodeTriggerMode := cg_nodeTriggerMode cg |}.

(* internal/harness/graph/graph/graph.go:403-407 WithDebug *)
Definition WithDebug (debug : bool) : CompileOption := λ cg,
  {| cg_graph := cg_graph cg; cg_checkpointer := cg_checkpointer cg;
     cg_interrupts := cg_interrupts cg; cg_interruptsAfter := cg_interruptsAfter cg;
     cg_recursionLimit := cg_recursionLimit cg; cg_debug := debug;
     cg_nodeTriggerMode := cg_nodeTriggerMode cg |}.

(* internal/harness/graph/graph/graph.go:409-413 WithNodeTriggerMode *)
Definition WithNodeTriggerMode (mode : NodeTriggerMode) : CompileOption := λ cg,
  {| cg_graph := cg_graph cg; cg_checkpointer := cg_checkpointer cg;
     cg_interrupts := cg_interrupts cg; cg_interruptsAfter := cg_interruptsAfter cg;
     cg_recursionLimit := cg_recursionLimit cg; cg_debug := cg_debug cg;
     cg_nodeTriggerMode := mode |}.

(** The compiled graph points to the builder's graph, so the assignment of the
    trigger mode after the options is part of its [cg_graph]. *)
(* internal/harness/graph/graph/graph.go:352-373 stateGraph.Compile *)
Definition Compile g (opts : list CompileOption) : error + compiledGraph CK :=
  match Validate g with
  | Some err => inl (Wrapf "graph validation failed: " err)
  | None =>
      match configureChannelsFromSchema g with
      | inl err => inl (Wrapf "failed to configure channels from schema: " err)
      | inr g =>
          let cg := {| cg_graph := g; cg_checkpointer := None; cg_interrupts := ∅;
                       cg_interruptsAfter := ∅; cg_recursionLimit := DefaultRecursionLimit;
                       cg_debug := false; cg_nodeTriggerMode := NodeTriggerAnyPredecessor |} in
          let cg := foldl (λ cg fn, fn cg) cg opts in
          inr {| cg_graph := SetNodeTriggerMode (cg_nodeTriggerMode cg) (cg_graph cg);
                 cg_checkpointer := cg_checkpointer cg; cg_interrupts := cg_interrupts cg;
                 cg_interruptsAfter := cg_interruptsAfter cg;
                 cg_recursionLimit := cg_recursionLimit cg; cg_debug := cg_debug cg;
                 cg_nodeTriggerMode := cg_nodeTriggerMode cg |}
      end
  end.
End options.

(** A graph that validates has an entry and a finish point, every node is
    reachable, and its schema is accepted. *)
Lemma Validate_None g :
  Validate g = None ↔
  g_entryPoint g ≠ "" ∧ g_finishPoints g ≠ []
  ∧ (∀ n, is_Some (g_nodes g !! n) → rtc (leads_to g) (g_entryPoint g) n)
  ∧ ∃ infos, validateStateSchema (g_stateSchema g) = inr infos.
Proof.
  unfold Validate, ValidateStateSchema. destruct (computeReachable_some g) as (R & -> & HR).
  cbn [default]. case_decide as He; [naive_solver|]. case_decide as Hf; [naive_solver|].
  destruct (list_find _ _) as [[i [name n]]|] eqn:E.
  - split; [done|]. intros (_ & _ & Hall & _). exfalso.
    apply list_find_Some in E as (Hl & Hn & _). apply Hn, HR. split; [done|]. apply Hall.
    apply list_elem_of_lookup_2, elem_of_range in Hl. eauto.
  - apply list_find_None in E. rewrite Forall_forall in E.
    assert (Hall : ∀ n, is_Some (g_nodes g !! n) → rtc (leads_to g) (g_entryPoint g) n).
    { intros n [v Hv]. apply elem_of_range in Hv. specialize (E _ Hv). cbn in E.
      apply dec_stable, HR in E. tauto. }
    destruct (validateStateSchema _) as [e|infos]; naive_solver.
Qed.
End compile.
Arguments compiledGraph : clear implicits.
