(* ===== verification/Scheduling.v ===== *)
(** * Scheduling: which tasks a superstep runs (pregel/engine.go)

    Routing from the last completed node, the preparation of tasks in the
    any-predecessor (BSP) and all-predecessors (DAG) modes, and the interrupt
    checks.  [sprint] is [fmt.Sprintf("%v", .)]; [ids n] is the [n]-th
    identifier drawn during a call. *)

From S2P Require Import Prelude GoValue Errors StateMap ValueChannels Channels.
From S2P Require Import Registry Config Retry StateGraph GraphCompile.
From stdpp Require Import pretty.

Section scheduling.
Context {W : Type} `{MO : MapOrder} (sprint : value → string).
Implicit Types g : stateGraph W.

(** ** Tasks *)

(* internal/harness/graph/pregel/engine.go:1362-1370 Task *)
Record Task := {
  t_ID : string;
  t_Name : string;
  t_Func : option (NodeFunc W);
  t_Channels : list string;
  t_Path : list string;
  t_Triggers : gset string;
  t_RetryPolicy : option RetryPolicy;
}.

(* internal/harness/graph/pregel/engine.go:1373-1378 TaskResult *)
Record TaskResult := {
  r_Name : string;
  r_Output : value;
  r_Err : option error;
}.

(* internal/harness/graph/pregel/engine.go:1549-1564 Engine.createTask *)
Definition createTask (id : string) (node : Node W) (channels triggers : list string) : Task :=
  {| t_ID := id; t_Name := n_Name node; t_Func := n_Function node; t_Channels := channels;
     t_Path := []; t_Triggers := list_to_set triggers; t_RetryPolicy := n_RetryPolicy node |}.

(* internal/harness/graph/pregel/engine.go:1568-1581 Engine.createTaskInfo *)
Definition createTaskInfo (id : string) (node : Node W) (channels triggers : list string) : Task :=
  {| t_ID := id; t_Name := n_Name node; t_Func := None; t_Channels := channels;
     t_Path := []; t_Triggers := list_to_set triggers; t_RetryPolicy := n_RetryPolicy node |}.

(* internal/harness/graph/pregel/engine.go:1531-1536 Engine.getTriggers *)
Definition getTriggers (node : option (Node W)) : list string :=
  match node with None => [] | Some n => n_Triggers n end.

(* internal/harness/graph/pregel/engine.go:1437-1440 Engine.getNode *)
Definition getNode g (name : string) : option (Node W) := g_nodes g !! name.

(* internal/harness/graph/pregel/engine.go:1433-1435 Engine.getEntryPoint *)
Definition getEntryPoint g : string := g_entryPoint g.

(** ** Task paths *)

(* internal/harness/graph/pregel/engine.go:1382-1388 TaskPathStr *)
Definition TaskPathStr (path : list string) : string := join_with slash path.

(* internal/harness/graph/pregel/engine.go:1391-1396 ParseTaskPath *)
Definition ParseTaskPath (pathStr : string) : list string :=
  if decide (pathStr = "") then [] else split_on slash pathStr.

(** A component of a path: a string, an int, a slice of strings, or any other
    value with the text its [String] method or [%v] gives. *)
Inductive path_component := PString (s : string) | PInt (z : Z) | PStrings (l : list string)
  | PText (s : string).

(* internal/harness/graph/pregel/engine.go:1400-1419 BuildTaskPath *)
Definition BuildTaskPath (components : list path_component) : list string :=
  foldl (λ path comp, path ++ match comp with
                              | PString s => [s]
                              | PInt z => [pretty z]
                              | PStrings l => l
                              | PText s => [s]
                              end) [] components.

(** ** Routing *)

(** The nodes collected so far, and whether the function has returned. *)
Record route := { rt_done : bool; rt_next : gmap string bool }.

Definition add_next (nexts : gmap string bool) (n : string) : gmap string bool := <[n := true]> nexts.

(** The loop over the conditional edges; the flag is [hasConditional]. *)
Fixpoint cond_loop (ces : list (ConditionalEdge W)) (node : string) (state : value)
    (has : bool) (nexts : gmap string bool) (w : W) : (bool * route) * W :=
  match ces with
  | [] => ((has, {| rt_done := false; rt_next := nexts |}), w)
  | ce :: rest =>
      if decide (ce_From ce ≠ node) then cond_loop rest node state has nexts w else
      let '((conditionResult, _), w) := ce_Condition ce state w in
      match ce_Mapping ce !! sprint conditionResult with
      | None => cond_loop rest node state true nexts w
      | Some targetNode =>
          if decide (targetNode = End_) then ((true, {| rt_done := true; rt_next := nexts |}), w)
          else cond_loop rest node state true (add_next nexts targetNode) w
      end
  end.

(** The loop over the regular edges. *)
Fixpoint edge_loop (es : list Edge) (node : string) (nexts : gmap string bool) : route :=
  match es with
  | [] => {| rt_done := false; rt_next := nexts |}
  | edge :: rest =>
      if decide (e_From edge = node) then
        if decide (e_To edge = End_) then {| rt_done := true; rt_next := nexts |}
        else edge_loop rest node (add_next nexts (e_To edge))
      else edge_loop rest node nexts
  end.

(** The fallback on the key [_next] of the state. *)
Definition resume_target g (state : value) : option string :=
  match state with
  | VMap st =>
      match st !! "_next" with
      | Some (VStr tv) => if has_node g tv then Some tv else None
      | Some (VList (VStr str :: _)) => if has_node g str then Some str else None
      | _ => None
      end
  | _ => None
  end.

(** The loop over the branches. *)
Fixpoint branch_loop (brs : list (Branch W)) (node : string) (state : value)
    (nexts : gmap string bool) (w : W) : gmap string bool * W :=
  match brs with
  | [] => (nexts, w)
  | branch :: rest =>
      if decide (br_From branch = node) then
        match br_Condition branch state w with
        | ((_, Some _), w) => branch_loop rest node state nexts w
        | ((branchResult, None), w) =>
            branch_loop rest node state
              (foldl (λ nx target, if decide (target = End_) then nx else add_next nx target)
                 nexts (br_Then branch branchResult)) w
        end
      else branch_loop rest node state nexts w
  end.

(* internal/harness/graph/pregel/engine.go:1442-1529 Engine.getNextNodes *)
Definition getNextNodes g (node : string) (state : value) (w : W) : gmap string bool * W :=
  let '((hasConditional, r1), w) := cond_loop (g_conditionalEdges g) node state false ∅ w in
  if rt_done r1 then (rt_next r1, w) else
  let r2 := if negb hasConditional && bool_decide (rt_next r1 = ∅)
            then edge_loop (g_edges g) node (rt_next r1) else r1 in
  if rt_done r2 then (rt_next r2, w) else
  let nexts := if bool_decide (rt_next r2 = ∅) then
                 match resume_target g state with
                 | Some t => add_next (rt_next r2) t | None => rt_next r2 end
               else rt_next r2 in
  branch_loop (g_branches g) node state nexts w.

(** ** Preparation of tasks *)

(* internal/harness/graph/pregel/engine.go:887-893 Engine.buildIncomingEdges *)
Definition buildIncomingEdges g : gmap string (list string) :=
  foldl (λ adj edge, <[e_To edge := default [] (adj !! e_To edge) ++ [e_From edge]]> adj)
    ∅ (g_edges g).

Definition make_task (forExecution : bool) (id : string) (node : Node W) (channels : list string)
    : Task :=
  if forExecution then createTask id node channels [] else createTaskInfo id node channels [].

(** Append one task and its triggers. *)
Definition schedule_node (ids : nat → string) (forExecution : bool) (defaults : list string)
    (acc : list Task * gset string) (node : Node W) : list Task * gset string :=
  let triggers := match getTriggers (Some node) with [] => defaults | ts => ts end in
  (acc.1 ++ [make_task forExecution (ids (length acc.1)) node triggers],
   list_to_set triggers ∪ acc.2).

(** All predecessors completed; the start and the end always are. *)
Definition preds_done (completed : gmap string bool) (predecessors : list string) : bool :=
  forallb (λ pred, bool_decide (pred = Start) || bool_decide (pred = End_)
                   || bool_decide (completed !! pred = Some true)) predecessors.

(* internal/harness/graph/pregel/engine.go:824-884 Engine.prepareNextTasksDAG *)
Definition prepareNextTasksDAG (ids : nat → string) g (completedTasks : gmap string bool)
    (forExecution : bool) : list Task * gset string :=
  let incomingEdges := buildIncomingEdges g in
  foldl (λ acc kn,
    match getNode g (n_Name kn.2) with
    | None => acc
    | Some n =>
        if bool_decide (completedTasks !! n_Name kn.2 = Some true) then acc
        else if preds_done completedTasks (default [] (incomingEdges !! n_Name kn.2))
        then schedule_node ids forExecution (range (g_channels g)).*1 acc n
        else acc
    end) ([], ∅) (range (g_nodes g)).

(* internal/harness/graph/pregel/engine.go:736-819 Engine.prepareNextTasksWithMode *)
Definition prepareNextTasksWithMode (ids : nat → string) g (registry : gmap string Channel)
    (completedTasks : gmap string bool) (lastCompletedNode : string) (currentState : value)
    (forExecution : bool) (w : W) : (error + list Task * gset string) * W :=
  if decide (size completedTasks = 0) then
    let entryPoint := getEntryPoint g in
    if decide (entryPoint = "") then (inl (Errorf "no entry point set"), w) else
    if decide (entryPoint = End_) then (inr ([], ∅), w) else
    match getNode g entryPoint with
    | None => (inl (NodeNotFoundError entryPoint), w)
    | Some node =>
        let triggers := match getTriggers (Some node) with [] => Names registry | ts => ts end in
        (inr ([createTask (ids 0) node triggers []], {["__start__"]}), w)
    end
  else if decide (g_NodeTriggerMode g = NodeTriggerAllPredecessor) then
    (inr (prepareNextTasksDAG ids g completedTasks forExecution), w)
  else
    let '(nextNodes, w) := getNextNodes g lastCompletedNode currentState w in
    (inr (foldl (λ acc kn,
       match getNode g kn.1 with
       | None => acc
       | Some node => schedule_node ids forExecution (Names registry) acc node
       end) ([], ∅) (range nextNodes)), w).

(* internal/harness/graph/pregel/engine.go:719-727 Engine.prepareNextTasks *)
Definition prepareNextTasks ids g registry completedTasks lastCompletedNode currentState w :=
  prepareNextTasksWithMode ids g registry completedTasks lastCompletedNode currentState true w.

(* internal/harness/graph/pregel/engine.go:1585-1593 Engine.PrepareNextTasksForInspection *)
Definition PrepareNextTasksForInspection ids g registry completedTasks lastCompletedNode
    currentState w :=
  prepareNextTasksWithMode ids g registry completedTasks lastCompletedNode currentState false w.

(** ** Interrupts *)

Definition All : string := "*".

(* internal/harness/graph/pregel/engine.go:896-916 Engine.shouldInterrupt *)
Definition shouldInterrupt (interrupts : gset string) (tasks : list Task) : list Task :=
  if decide (size interrupts = 0) then [] else
  filter (λ task, All ∈ interrupts ∨ t_Name task ∈ interrupts) tasks.

(* internal/harness/graph/pregel/engine.go:921-935 Engine.shouldInterruptAfter *)
Definition shouldInterruptAfter (interruptsAfter : gset string) (results : list TaskResult) : bool :=
  if decide (size interruptsAfter = 0) then false else
  existsb (λ r, match r_Err r with
                | Some _ => false
                | None => bool_decide (All ∈ interruptsAfter) || bool_decide (r_Name r ∈ interruptsAfter)
                end) results.
End scheduling.
Arguments Task : clear implicits.

(** ** Lemmas about scheduling *)

Section scheduling_lemmas.
Context {W : Type} `{MO : MapOrder} (sprint : value → string).
Implicit Types g : stateGraph W.

(** Every node is stored under its own name, as the builder does. *)
Definition well_named g : Prop := map_Forall (λ k n, n_Name n = k) (g_nodes g).

Lemma well_named_new s : well_named (NewStateGraph s).
Proof. apply map_Forall_empty. Qed.

Lemma well_named_AddNode g name fn : well_named g → well_named (AddNode g name fn).
Proof. intros H. by apply map_Forall_insert_2. Qed.

Lemma well_named_AddNodeWithOptions g name fn opts :
  well_named g → well_named (AddNodeWithOptions g name fn opts).
Proof. intros H. by apply map_Forall_insert_2. Qed.

Lemma make_task_name forExecution id (node : Node W) chans :
  t_Name (make_task forExecution id node chans) = n_Name node.
Proof. by destruct forExecution. Qed.

(** A loop that schedules some of the nodes it visits. *)
Lemma schedule_fold_names {A} (sel : A → option (Node W)) ids b defaults l acc :
  map t_Name (foldl (λ acc x, match sel x with
                             | Some n => schedule_node ids b defaults acc n
                             | None => acc end) acc l).1
  = map t_Name acc.1 ++ map n_Name (omap sel l).
Proof.
  revert acc. induction l as [|x l IH]; intros acc; [by rewrite app_nil_r|]. cbn [foldl].
  rewrite IH. cbn [omap list_omap]. destruct (sel x) as [n|]; [|done].
  cbn. rewrite map_app. cbn. rewrite make_task_name, <- app_assoc. done.
Qed.

(** The predecessors of a node over regular edges. *)
Lemma buildIncomingEdges_lookup g n :
  default [] (buildIncomingEdges g !! n)
  = map e_From (filter (λ edge, e_To edge = n) (g_edges g)).
Proof.
  unfold buildIncomingEdges.
  assert (H : ∀ es (adj : gmap string (list string)),
    default [] (foldl (λ adj edge, <[e_To edge := default [] (adj !! e_To edge) ++ [e_From edge]]> adj)
      adj es !! n) = default [] (adj !! n) ++ map e_From (filter (λ edge, e_To edge = n) es)).
  { induction es as [|edge es IH]; intros adj; [by rewrite app_nil_r|]. cbn [foldl].
    rewrite IH, filter_cons. case_decide as Hn.
    - subst n. rewrite lookup_insert_eq. cbn. by rewrite <- app_assoc.
    - by rewrite lookup_insert_ne. }
  rewrite H. by rewrite lookup_empty.
Qed.

Lemma preds_done_spec completed preds :
  preds_done completed preds = true ↔
  ∀ p, p ∈ preds → p = Start ∨ p = End_ ∨ completed !! p = Some true.
Proof.
  unfold preds_done. rewrite forallb_forall. setoid_rewrite <- list_elem_of_In.
  setoid_rewrite orb_true_iff. setoid_rewrite orb_true_iff. setoid_rewrite bool_decide_eq_true.
  naive_solver.
Qed.

(** A node that the DAG mode may run now: not completed, every predecessor done. *)
Definition ready g (completed : gmap string bool) (n : string) : Prop :=
  is_Some (g_nodes g !! n) ∧ completed !! n ≠ Some true
  ∧ ∀ edge, edge ∈ g_edges g → e_To edge = n →
      e_From edge = Start ∨ e_From edge = End_ ∨ completed !! e_From edge = Some true.

Definition dag_select g (completed : gmap string bool) (kn : string * Node W) : option (Node W) :=
  match getNode g (n_Name kn.2) with
  | None => None
  | Some n =>
      if bool_decide (completed !! n_Name kn.2 = Some true) then None
      else if preds_done completed (default [] (buildIncomingEdges g !! n_Name kn.2))
      then Some n else None
  end.

Lemma dag_fold ids g completed b :
  prepareNextTasksDAG ids g completed b =
  foldl (λ acc kn, match dag_select g completed kn with
                   | Some n => schedule_node ids b (range (g_channels g)).*1 acc n
                   | None => acc end) ([], ∅) (range (g_nodes g)).
Proof.
  unfold prepareNextTasksDAG, dag_select. generalize (range (g_nodes g)) as l.
  generalize (([], ∅) : list (Task W) * gset string) as acc. intros acc l. revert acc.
  induction l as [|kn l IH]; intros acc; [done|]. cbn [foldl]. rewrite IH. f_equal.
  destruct (getNode g _); [|done]. destruct (bool_decide _); [done|]. by destruct (preds_done _ _).
Qed.

Lemma dag_select_ready g completed k n :
  well_named g → g_nodes g !! k = Some n →
  (dag_select g completed (k, n) = Some n ∧ ready g completed k)
  ∨ (dag_select g completed (k, n) = None ∧ ¬ ready g completed k).
Proof.
  intros Hw Hk. unfold dag_select, getNode. cbn [snd]. rewrite (Hw _ _ Hk), Hk.
  rewrite buildIncomingEdges_lookup. case_bool_decide as Hc.
  { right. split; [done|]. by intros (_ & ? & _). }
  destruct (preds_done _ _) eqn:Hp; [left|right]; (split; [done|]).
  - split; [eauto|]. split; [done|]. intros edge Hin Hto. rewrite preds_done_spec in Hp. apply Hp.
    apply list_elem_of_fmap. exists edge. split; [done|]. by apply list_elem_of_filter.
  - intros (_ & _ & Hr). apply not_true_iff_false in Hp. apply Hp, preds_done_spec.
    intros p Hin. apply list_elem_of_fmap in Hin as (edge & -> & [Hto Hin]%list_elem_of_filter).
    by apply Hr.
Qed.

Lemma dag_names ids g completed b :
  well_named g →
  ∃ l, map t_Name (prepareNextTasksDAG ids g completed b).1 = l ∧ NoDup l
       ∧ ∀ n, n ∈ l ↔ ready g completed n.
Proof.
  intros Hw. eexists. split; [done|]. rewrite dag_fold, schedule_fold_names. cbn [fst map app].
  assert (H : ∀ l, (∀ k n, (k, n) ∈ l → g_nodes g !! k = Some n) → NoDup l.*1 →
    let ns := map n_Name (omap (dag_select g completed) l) in
    NoDup ns ∧ ∀ n, n ∈ ns ↔ n ∈ l.*1 ∧ ready g completed n).
  { induction l as [|[k nd] l IH]; intros Hin Hnd ns; [split; [constructor|set_solver]|].
    apply NoDup_cons in Hnd as [Hni Hnd]. destruct (IH ltac:(set_solver) Hnd) as [H1 H2].
    subst ns. cbn [omap list_omap].
    pose proof (Hin k nd ltac:(left)) as Hk.
    destruct (dag_select_ready g completed k nd Hw Hk) as [[-> Hr]|[-> Hr]].
    - cbn [map]. rewrite (Hw _ _ Hk). split.
      + apply NoDup_cons. split; [|done]. rewrite H2. tauto.
      + intros n. rewrite !elem_of_cons, H2. cbn. rewrite elem_of_cons. naive_solver.
    - split; [done|]. intros n. rewrite H2. cbn. rewrite elem_of_cons. naive_solver. }
  destruct (H (range (g_nodes g))) as [H1 H2].
  { intros k n. apply elem_of_range. }
  { apply range_NoDup. }
  split; [done|]. intros n. rewrite H2, elem_of_range_keys. split; [naive_solver|].
  intros Hr. split; [apply Hr|done].
Qed.

(** ** Routing *)

Lemma add_next_lookup nexts n k b :
  add_next nexts n !! k = Some b → (k = n ∧ b = true) ∨ nexts !! k = Some b.
Proof. unfold add_next. rewrite lookup_insert_Some. naive_solver. Qed.

(** Where the names scheduled by the conditional edges come from. *)
Lemma cond_loop_sound (ces : list (ConditionalEdge W)) node state has nexts w has' r w' :
  cond_loop sprint ces node state has nexts w = ((has', r), w') →
  (has = true → has' = true) ∧
  (∀ ce, ce ∈ ces → ce_From ce = node → has' = true) ∧
  (has' = true → has = true ∨ ∃ ce, ce ∈ ces ∧ ce_From ce = node) ∧
  ∀ n b, rt_next r !! n = Some b → nexts !! n = Some b ∨
    (b = true ∧ ∃ ce k, ce ∈ ces ∧ ce_From ce = node ∧ ce_Mapping ce !! k = Some n).
Proof.
  revert has nexts w. induction ces as [|ce ces IH]; intros has nexts w; cbn [cond_loop].
  { intros [= <- <- <-]. cbn. split_and!; [done|set_solver|by left|by left]. }
  case_decide as Hf.
  { intros (H0 & H1 & H2 & H3)%IH. split_and!; [done|..]; set_solver. }
  destruct (ce_Condition ce state w) as [[res err] w1].
  destruct (ce_Mapping ce !! sprint res) as [t|] eqn:Em.
  - case_decide as He.
    { intros [= <- <- <-]. cbn. split_and!; [done|done| |by left]. right. exists ce. set_solver. }
    intros (H0 & H1 & H2 & H3)%IH. split_and!; [auto|auto| |].
    + intros _. right. exists ce. set_solver.
    + intros n b Hn. apply H3 in Hn as [Hn|(-> & ce' & k & ? & ? & ?)]; [|right; set_solver].
      apply add_next_lookup in Hn as [[-> ->]|]; [|by left].
      right. split; [done|]. exists ce, (sprint res). set_solver.
  - intros (H0 & H1 & H2 & H3)%IH. split_and!; [auto|auto| |].
    + intros _. right. exists ce. set_solver.
    + intros n b Hn. apply H3 in Hn as [Hn|(-> & ce' & k & ? & ? & ?)]; [by left|right; set_solver].
Qed.

Lemma edge_loop_sound es node nexts n b :
  rt_next (edge_loop es node nexts) !! n = Some b → nexts !! n = Some b ∨
    (b = true ∧ ∃ edge, edge ∈ es ∧ e_From edge = node ∧ e_To edge = n).
Proof.
  revert nexts. induction es as [|edge es IH]; intros nexts; cbn [edge_loop]; [by left|].
  case_decide as Hf; [case_decide as He|].
  - by left.
  - intros [Hn|(-> & edge' & ? & ? & ?)]%IH; [|right; set_solver].
    apply add_next_lookup in Hn as [[-> ->]|]; [right; set_solver|by left].
  - intros [Hn|(-> & edge' & ? & ? & ?)]%IH; [by left|right; set_solver].
Qed.

Lemma edge_loop_complete es node nexts :
  (∀ edge, edge ∈ es → e_From edge = node → e_To edge ≠ End_) →
  rt_done (edge_loop es node nexts) = false ∧
  ∀ n, rt_next (edge_loop es node nexts) !! n = Some true ↔
       nexts !! n = Some true ∨ ∃ edge, edge ∈ es ∧ e_From edge = node ∧ e_To edge = n.
Proof.
  revert nexts. induction es as [|edge es IH]; intros nexts He; cbn [edge_loop].
  { split; [done|]. set_solver. }
  case_decide as Hf.
  - rewrite decide_False by (apply He; [left|done]).
    destruct (IH (add_next nexts (e_To edge))) as [H1 H2]; [intros ed Hin; apply He; by right|].
    split; [done|]. intros n. rewrite H2, exists_cons. unfold add_next. rewrite lookup_insert_Some.
    destruct (decide (e_To edge = n)); naive_solver.
  - destruct (IH nexts) as [H1 H2]; [intros ed Hin; apply He; by right|].
    split; [done|]. intros n. rewrite H2, exists_cons. naive_solver.
Qed.

Lemma branch_targets_lookup l (nexts : gmap string bool) n b :
  foldl (λ nx target, if decide (target = End_) then nx else add_next nx target) nexts l !! n = Some b →
  nexts !! n = Some b ∨ (b = true ∧ n ∈ l ∧ n ≠ End_).
Proof.
  revert nexts. induction l as [|t l IH]; intros nexts; cbn [foldl]; [by left|].
  intros [Hn|(-> & ? & ?)]%IH; [|right; set_solver]. case_decide; [by left|].
  apply add_next_lookup in Hn as [[-> ->]|]; [right; set_solver|by left].
Qed.

Lemma branch_loop_sound (brs : list (Branch W)) node state nexts w nexts' w' n b :
  branch_loop brs node state nexts w = (nexts', w') → nexts' !! n = Some b →
  nexts !! n = Some b ∨ (b = true ∧ ∃ br v, br ∈ brs ∧ br_From br = node ∧ n ∈ br_Then br v ∧ n ≠ End_).
Proof.
  clear sprint. revert nexts w. induction brs as [|br brs IH]; intros nexts w; cbn [branch_loop].
  { intros [= <- <-]. by left. }
  case_decide as Hf.
  - destruct (br_Condition br state w) as [[v [err|]] w1].
    + intros H Hn. destruct (IH _ _ H Hn) as [|(-> & br' & v' & ? & ?)]; [by left|right; set_solver].
    + intros H Hn. destruct (IH _ _ H Hn) as [Hn'|(-> & br' & v' & ? & ?)]; [|right; set_solver].
      apply branch_targets_lookup in Hn' as [|(-> & ? & ?)]; [by left|right; set_solver].
  - intros H Hn. destruct (IH _ _ H Hn) as [|(-> & br' & v' & ? & ?)]; [by left|right; set_solver].
Qed.
End scheduling_lemmas.
