(* ===== verification/Writes.v ===== *)
(** * Applying the writes of a superstep (pregel/engine.go, applyWrites)

    The outputs of the tasks are grouped by channel in the order of the node
    names, and every channel receives one update. *)

From S2P Require Import Prelude GoValue Errors StateMap ValueChannels Channels.
From S2P Require Import Registry Config Checkpoint Retry StateGraph GraphCompile Scheduling.
Open Scope go_scope.

(** The fields of [Engine] a run changes while it applies writes. *)
(* internal/harness/graph/pregel/engine.go:36-53 Engine *)
Record EngineVars := {
  ev_currentCheckpoint : option Checkpoint;
  ev_channelVersions : gmap string Z;
  ev_versionsSeen : gmap string (gmap string Z);
}.

Section writes.
Context {W : Type} `{MO : MapOrder}.
Implicit Types g : stateGraph W.

(** ** Grouping by channel *)

(** [writesByChannel] and [pendingWrites]. *)
Record grouped := {
  gr_writes : gmap string (list value);
  gr_pending : gmap string PendingWrite;
}.

(** An [*Overwrite] is unwrapped. *)
Definition unwrap_overwrite (v : value) : value * bool :=
  match v with VOverwrite w => (w, true) | _ => (v, false) end.

(** One entry of an output; nil values are skipped. *)
Definition collect_value (node : string) (acc : grouped) (kv : string * value) : grouped :=
  match kv.2 with
  | VNil => acc
  | v =>
      let '(val, overwrite) := unwrap_overwrite v in
      {| gr_writes := <[kv.1 := default [] (gr_writes acc !! kv.1) ++ [val]]> (gr_writes acc);
         gr_pending := <[kv.1 := {| pw_Channel := kv.1; pw_Value := val; pw_Overwrite := overwrite;
                                    pw_Node := node; pw_Timestamp := zero_time;
                                    pw_TaskID := "" |}]> (gr_pending acc) |}
  end.

(** The output of a result as a map of writes: [None] when there is none. *)
Definition output_writes g (result : TaskResult) : go (option (error + gmap string value)) :=
  match r_Err result with
  | Some _ => Ret None
  | None =>
      match r_Output result with
      | VNil => Ret None
      | out =>
          match toMap out with
          | inl _ => Ret (Some (inl (Wrapf "failed to convert output to map: " (Errorf "nil value"))))
          | inr outputMap =>
              match getNode g (r_Name result) with
              | Some node =>
                  match n_FieldMapping node with
                  | [] => Ret (Some (inr outputMap))
                  | ms => mapped <-! applyFieldMapping outputMap ms; Ret (Some (inr mapped))
                  end
              | None => Ret (Some (inr outputMap))
              end
          end
      end
  end.

Fixpoint collect g (results : list TaskResult) (acc : grouped) : go (error + grouped) :=
  match results with
  | [] => Ret (inr acc)
  | result :: rest =>
      o <-! output_writes g result;
      match o with
      | None => collect g rest acc
      | Some (inl e) => Ret (inl e)
      | Some (inr outputMap) =>
          collect g rest (foldl (collect_value (r_Name result)) acc (range outputMap))
      end
  end.

(** [sort.Slice] by node name. *)
Definition name_le (a b : TaskResult) : Prop := String.le (r_Name a) (r_Name b).
#[global] Instance name_le_dec a b : Decision (name_le a b).
Proof. unfold name_le. apply _. Defined.
Definition sort_results (results : list TaskResult) : list TaskResult :=
  merge_sort name_le results.

(** ** Updating the channels *)

Definition is_nil (v : value) : bool := match v with VNil => true | _ => false end.

(** The values a channel receives: no nil, and only the last one unless the
    channel aggregates. *)
Definition narrow (ch : Channel) (values : list value) : list value :=
  let filtered := filter (λ v, is_nil v = false) values in
  if decide (1 < length filtered) then
    if is_BinaryOperatorAggregate ch || is_ReducerChannel ch then filtered
    else match last filtered with Some v => [v] | None => [] end
  else filtered.

Record update_state := {
  us_registry : gmap string Channel;
  us_versions : gmap string Z;
  us_checkpoint : option Checkpoint;
  us_updated : gset string;
}.

Definition channel_or_new (registry : gmap string Channel) (name : string) : Channel :=
  default (Plain (ChLastValue (NewLastValue VNil))) (Registry_Get registry name).

(** The body of the loop over [writesByChannel]. *)
Definition update_channel (st : update_state) (nv : string * list value) : error + update_state :=
  let ch := channel_or_new (us_registry st) nv.1 in
  let '(ch', (updated, err)) := ch_Update ch (narrow ch nv.2) in
  match err with
  | Some e => inl (Wrapf ("failed to update channel " +:+ nv.1 +:+ ": ") e)
  | None =>
      if updated && ch_IsAvailable ch' then
        let versions := incr (us_versions st) nv.1 in
        let ch'' := default ch' (SetVersion ch' (default 0%Z (versions !! nv.1))) in
        inr {| us_registry := Register (us_registry st) nv.1 ch''; us_versions := versions;
               us_checkpoint := (λ cp, IncrementChannel cp nv.1) <$> us_checkpoint st;
               us_updated := {[nv.1]} ∪ us_updated st |}
      else inr {| us_registry := Register (us_registry st) nv.1 ch'; us_versions := us_versions st;
                  us_checkpoint := us_checkpoint st; us_updated := us_updated st |}
  end.

Fixpoint update_all (st : update_state) (writes : list (string * list value))
    : error + update_state :=
  match writes with
  | [] => inr st
  | nv :: rest =>
      match update_channel st nv with inl e => inl e | inr st' => update_all st' rest end
  end.

(** ** Versions seen *)

(* internal/harness/graph/pregel/engine.go:1077-1086 Engine.markSeen *)
Definition markSeen (vars : EngineVars) (node channel : string) : EngineVars :=
  {| ev_versionsSeen := record_seen (ev_versionsSeen vars) (ev_channelVersions vars) node channel;
     ev_channelVersions := ev_channelVersions vars;
     ev_currentCheckpoint := (λ cp, MarkSeen cp node channel) <$> ev_currentCheckpoint vars |}.

(* internal/harness/graph/pregel/engine.go:1089-1096 Engine.hasSeen *)
Definition hasSeen (vars : EngineVars) (node channel : string) : bool :=
  seen_current (ev_versionsSeen vars) (ev_channelVersions vars) node channel.

(** [for resultName := range writesByChannel], each of them a trigger, mark
    every updated channel. *)
Definition mark_all (writes : list string) (triggers : gset string) (updated : list string)
    (vars : EngineVars) : EngineVars :=
  foldl (λ vars name, if decide (name ∈ triggers)
                      then foldl (λ vars ch, markSeen vars name ch) vars updated else vars)
    vars writes.

(** The iteration order of a set. *)
Definition range_set (s : gset string) : list string := (range (gset_to_gmap () s)).*1.

(* internal/harness/graph/pregel/engine.go:938-1074 Engine.applyWrites *)
Definition applyWrites g (registry : gmap string Channel) (vars : EngineVars)
    (results : list TaskResult) (triggerToNodes : gset string)
    : go (error + (gset string * gmap string Channel * EngineVars)) :=
  o <-! collect g (sort_results results) {| gr_writes := ∅; gr_pending := ∅ |};
  match o with
  | inl e => Ret (inl e)
  | inr gr =>
      match update_all {| us_registry := registry; us_versions := ev_channelVersions vars;
                          us_checkpoint := ev_currentCheckpoint vars; us_updated := ∅ |}
              (range (gr_writes gr)) with
      | inl e => Ret (inl e)
      | inr st =>
          let checkpoint := (λ cp, foldl (λ cp kp, AddPendingWrite cp (pw_Channel kp.2) (pw_Value kp.2)
                                    (pw_Overwrite kp.2) (pw_Node kp.2)) cp (range (gr_pending gr)))
                            <$> us_checkpoint st in
          let vars := {| ev_currentCheckpoint := checkpoint; ev_channelVersions := us_versions st;
                         ev_versionsSeen := ev_versionsSeen vars |} in
          Ret (inr (us_updated st, us_registry st,
                    mark_all (range (gr_writes gr)).*1 triggerToNodes (range_set (us_updated st)) vars))
      end
  end.

(** ** What grouping collects *)

(** The value one output writes to a channel. *)
Definition value_for (outputMap : gmap string value) (ch : string) : option value :=
  match outputMap !! ch with
  | None | Some VNil => None
  | Some v => Some (unwrap_overwrite v).1
  end.

(** What [output_writes] gives for results without a field mapping panic. *)
Definition written g (ch : string) (result : TaskResult) : option value :=
  match output_writes g result with
  | Ret (Some (inr outputMap)) => value_for outputMap ch
  | _ => None
  end.

Lemma output_writes_no_error g result e : output_writes g result ≠ Ret (Some (inl e)).
Proof.
  unfold output_writes. destruct (r_Err result); [done|].
  assert (∀ v, v ≠ VNil → toMap v ≠ inl NilValue) as Ht by (intros v Hv H%toMap_error; done).
  destruct (r_Output result) eqn:E; try done;
    (destruct (toMap _) as [[]|om] eqn:Em; [by apply Ht in Em|]);
    (destruct (getNode g (r_Name result)) as [node|]; [|done]);
    (destruct (n_FieldMapping node); [done|]);
    (destruct (applyFieldMapping om _); done).
Qed.

Lemma collect_value_lookup node l acc ch :
  NoDup l.*1 →
  default [] (gr_writes (foldl (collect_value node) acc l) !! ch) =
  default [] (gr_writes acc !! ch)
    ++ option_list (value_for (list_to_map l) ch).
Proof.
  revert acc. induction l as [|[k v] l IH]; intros acc Hnd; [by rewrite app_nil_r|].
  apply NoDup_cons in Hnd as [Hni Hnd]. cbn [foldl]. rewrite IH by done.
  unfold value_for. cbn [list_to_map foldr uncurry fst snd].
  destruct (decide (k = ch)) as [->|Hne].
  - rewrite (not_elem_of_list_to_map_1 l ch) by done. rewrite lookup_insert_eq.
    unfold collect_value, unwrap_overwrite; cbn [fst snd].
    destruct v; cbn [gr_writes fst snd option_list]; rewrite ?lookup_insert_eq, ?app_nil_r; done.
  - rewrite (lookup_insert_ne _ k ch) by done. f_equal.
    unfold collect_value, unwrap_overwrite; cbn [fst snd].
    destruct v; cbn [gr_writes fst snd]; rewrite ?lookup_insert_ne by done; done.
Qed.

(** The writes to a channel, in the order of the results. *)
Lemma collect_lookup g results acc gr ch :
  collect g results acc = Ret (inr gr) →
  default [] (gr_writes gr !! ch) = default [] (gr_writes acc !! ch) ++ omap (written g ch) results.
Proof.
  revert acc. induction results as [|r rs IH]; intros acc; cbn [collect omap list_omap].
  { intros [= <-]. by rewrite app_nil_r. }
  unfold written at 1. destruct (output_writes g r) as [[[e|om]|]|]; cbn [go_bind]; [done| | |done].
  - intros Hc. rewrite (IH _ Hc), collect_value_lookup by apply range_NoDup.
    rewrite list_to_map_range. destruct (value_for om ch); simpl; [by rewrite <- app_assoc|].
    by rewrite app_nil_r.
  - intros Hc. by rewrite (IH _ Hc).
Qed.

Lemma collect_value_nonempty node acc kv :
  map_Forall (λ _ vs, vs ≠ []) (gr_writes acc) →
  map_Forall (λ _ vs, vs ≠ []) (gr_writes (collect_value node acc kv)).
Proof.
  intros H. unfold collect_value, unwrap_overwrite. destruct kv as [k v]; cbn [fst snd].
  destruct v; try done; cbn [gr_writes fst snd]; apply map_Forall_insert_2; try done;
    by destruct (default _ _).
Qed.

Lemma collect_nonempty g results acc gr :
  map_Forall (λ _ vs, vs ≠ []) (gr_writes acc) → collect g results acc = Ret (inr gr) →
  map_Forall (λ _ vs, vs ≠ []) (gr_writes gr).
Proof.
  revert acc. induction results as [|r rs IH]; intros acc Ha; cbn [collect].
  { by intros [= <-]. }
  destruct (output_writes g r) as [[[e|om]|]|]; cbn [go_bind]; [done| |by apply IH|done].
  apply IH. generalize (range om). intros l. revert acc Ha.
  induction l as [|kv l IHl]; intros acc Ha; [done|]. cbn [foldl].
  apply IHl. by apply collect_value_nonempty.
Qed.

(** ** What the updates do *)

(** The channel and whether it counts as updated, after one group of values. *)
Definition channel_after (registry : gmap string Channel) (versions : gmap string Z)
    (name : string) (values : list value) : Channel * bool :=
  let ch := channel_or_new registry name in
  let '(ch', (updated, _)) := ch_Update ch (narrow ch values) in
  if updated && ch_IsAvailable ch'
  then (default ch' (SetVersion ch' (default 0%Z (incr versions name !! name))), true)
  else (ch', false).

Lemma update_channel_spec st name values st' :
  update_channel st (name, values) = inr st' →
  let ca := channel_after (us_registry st) (us_versions st) name values in
  us_registry st' = <[name := ca.1]> (us_registry st)
  ∧ us_versions st' = (if ca.2 then incr (us_versions st) name else us_versions st)
  ∧ us_updated st' = (if ca.2 then {[name]} ∪ us_updated st else us_updated st).
Proof.
  unfold update_channel, channel_after, Register. cbn [fst snd].
  destruct (ch_Update _ _) as [ch' [updated [e|]]]; [done|].
  destruct (updated && ch_IsAvailable ch'); intros [= <-]; done.
Qed.

Lemma incr_ne m k k' : k ≠ k' → incr m k !! k' = m !! k'.
Proof. intros. unfold incr. by rewrite lookup_insert_ne. Qed.

Lemma channel_after_frame r r' v v' name values :
  r !! name = r' !! name → v !! name = v' !! name →
  channel_after r v name values = channel_after r' v' name values.
Proof.
  intros Hr Hv. unfold channel_after, channel_or_new, Registry_Get. rewrite Hr.
  destruct (ch_Update _ _) as [ch' [updated e]]. unfold incr. rewrite !lookup_insert_eq.
  by rewrite Hv.
Qed.

(** Each channel is updated once, from the state before the step, whatever the
    order of the loop. *)
Lemma update_all_spec st l st' k :
  NoDup l.*1 → update_all st l = inr st' →
  let ca := channel_after (us_registry st) (us_versions st) k in
  match list_to_map (M := gmap string (list value)) l !! k with
  | None => us_registry st' !! k = us_registry st !! k ∧ us_versions st' !! k = us_versions st !! k
            ∧ (k ∈ us_updated st' ↔ k ∈ us_updated st)
  | Some vs => us_registry st' !! k = Some (ca vs).1
      ∧ us_versions st' !! k =
          (if (ca vs).2 then incr (us_versions st) k else us_versions st) !! k
      ∧ (k ∈ us_updated st' ↔ k ∈ us_updated st ∨ (ca vs).2 = true)
  end.
Proof.
  revert st. induction l as [|[n vs] l IH]; intros st Hnd; cbn [update_all].
  { intros [= <-]. by cbn. }
  apply NoDup_cons in Hnd as [Hni Hnd].
  destruct (update_channel st (n, vs)) as [e|st1] eqn:E; [done|]. intros Hu.
  apply update_channel_spec in E. cbn zeta in E. destruct E as (Hr & Hv & Hup).
  specialize (IH st1 Hnd Hu). cbn zeta in IH. cbn [list_to_map foldr uncurry fst snd].
  destruct (decide (n = k)) as [->|Hne].
  - rewrite lookup_insert_eq. rewrite (not_elem_of_list_to_map_1 l k) in IH by done.
    destruct IH as (-> & -> & ->). rewrite Hr, lookup_insert_eq. split; [done|].
    rewrite Hv, Hup. destruct (channel_after _ _ k vs).2; split; try done; set_solver.
  - rewrite lookup_insert_ne by done.
    assert (Hkr : us_registry st1 !! k = us_registry st !! k)
      by (rewrite Hr; by rewrite lookup_insert_ne).
    assert (Hkv : us_versions st1 !! k = us_versions st !! k)
      by (rewrite Hv; destruct (channel_after _ _ n vs).2; [by rewrite incr_ne|done]).
    assert (Hku : k ∈ us_updated st1 ↔ k ∈ us_updated st)
      by (rewrite Hup; destruct (channel_after _ _ n vs).2; set_solver).
    destruct (list_to_map l !! k) as [vs'|].
    + rewrite (channel_after_frame _ (us_registry st1) _ (us_versions st1)) by done.
      destruct IH as (-> & -> & ->). split; [done|]. rewrite Hku. split; [|done].
      destruct (channel_after _ _ k vs').2; [|done]. unfold incr.
      by rewrite !lookup_insert_eq, Hkv.
    + destruct IH as (-> & -> & ->). by rewrite Hkr, Hkv, Hku.
Qed.

Lemma mark_all_versions writes triggers updated vars :
  ev_channelVersions (mark_all writes triggers updated vars) = ev_channelVersions vars.
Proof.
  unfold mark_all. revert vars. induction writes as [|n ws IH]; intros vars; [done|].
  cbn [foldl]. rewrite IH. case_decide; [|done]. clear IH. revert vars.
  induction updated as [|c cs IHc]; intros vars; [done|]. cbn [foldl]. by rewrite IHc.
Qed.

(** The whole step, channel by channel: [vs] are the values the successful tasks
    wrote to the channel, in the order of the node names. *)
Lemma applyWrites_channel g registry vars results trig upd registry' vars' ch :
  applyWrites g registry vars results trig = Ret (inr (upd, registry', vars')) →
  let vs := omap (written g ch) (sort_results results) in
  let ca := channel_after registry (ev_channelVersions vars) ch vs in
  registry' !! ch = (if decide (vs = []) then registry !! ch else Some ca.1)
  ∧ ev_channelVersions vars' !! ch
    = (if decide (vs = []) then ev_channelVersions vars
       else if ca.2 then incr (ev_channelVersions vars) ch else ev_channelVersions vars) !! ch
  ∧ (ch ∈ upd ↔ vs ≠ [] ∧ ca.2 = true).
Proof.
  unfold applyWrites. destruct (collect _ _ _) as [[e|gr]|] eqn:Ec; cbn [go_bind]; [done| |done].
  destruct (update_all _ _) as [e|st] eqn:Eu; [done|]. intros [= <- <- <-]. cbn zeta.
  pose proof (collect_lookup _ _ _ _ ch Ec) as Hl. cbn [gr_writes] in Hl.
  rewrite lookup_empty in Hl. cbn in Hl.
  assert (Hne : map_Forall (λ _ vs, vs ≠ []) (gr_writes gr))
    by (eapply collect_nonempty; [|exact Ec]; apply map_Forall_empty).
  pose proof (update_all_spec _ _ _ ch (range_NoDup _) Eu) as Hs.
  rewrite list_to_map_range in Hs. cbn zeta in Hs.
  cbn [us_registry us_versions us_updated us_checkpoint] in Hs.
  rewrite mark_all_versions. cbn [ev_channelVersions]. rewrite <- Hl.
  destruct (gr_writes gr !! ch) as [vs|] eqn:Eg; cbn [default].
  - apply Hne in Eg. rewrite !decide_False by done. destruct Hs as (-> & -> & ->).
    split_and!; [done..|]. set_solver.
  - rewrite !decide_True by done. destruct Hs as (-> & -> & ->). split_and!; [done..|]. set_solver.
Qed.
End writes.
