(* ===== verification/Execution.v ===== *)
(** * Executing the tasks of a superstep, and the inputs and outputs of a run
    (pregel/engine.go)

    Tasks run concurrently in goroutines and the engine waits for all of them.
    A task is one atomic action on the registry and on the world; [sched n] is
    the order in which the [n] tasks of a step take effect, and each result is
    stored at the index of its task. *)

From S2P Require Import Prelude GoValue Errors StateMap ValueChannels Channels.
From S2P Require Import Registry Config Checkpoint MemorySaver Retry StateGraph GraphCompile.
From S2P Require Import Scheduling Writes.
From stdpp Require Import pretty.
Open Scope go_scope.

(** What a run obtains from outside the engine: the formatting verbs [%v] and
    [%T], the context ([ctx_poll] is a look at [ctx.Done()], [wait] the select
    with a timer), random numbers, the identifiers and times drawn, the text
    form of JSON and the parser of times, the context value the sub-graph state
    is handed over in, and the schedule of a step. *)
Record Env {W : Type} := {
  sprint : value → string;
  type_name : error → string;
  ctx_poll : W → option error * W;
  wait : Z → W → option error * W;
  rnd : Z → float64;
  uuid : nat → string;
  clock : nat → gotime;
  parse_time : string → option gotime;
  json_marshal : value → option string;
  json_unmarshal : string → option (gmap string value);
  set_sub_state : string → W → W;
  sched : nat → list nat;
}.
Arguments Env : clear implicits.

Section execution.
Context {W : Type} `{MO : MapOrder} {CK : Type} `{BC : BaseCheckpointer CK}.
Implicit Types g : stateGraph W.

(** ** The engine and its options *)

(** The configuration part of [Engine]; the fields a run changes are in [RunState]. *)
(* internal/harness/graph/pregel/engine.go:36-53 Engine *)
Record Engine := {
  en_graph : stateGraph W;
  en_checkpointer : option CK;
  en_interrupts : gset string;
  en_interruptsAfter : gset string;
  en_recursionLimit : Z;
  en_debug : bool;
  en_config : option RunnableConfig;
  en_maxConcurrency : Z;
  en_retryPolicy : option RetryPolicy;
}.

(* internal/harness/graph/pregel/engine.go:99-99 EngineOption *)
Definition EngineOption : Type := Engine → Engine.

(* internal/harness/graph/pregel/engine.go:68-93 NewEngine *)
Definition NewEngine g (opts : list EngineOption) : Engine :=
  foldl (λ eng opt, opt eng)
    {| en_graph := g; en_checkpointer := None; en_interrupts := ∅; en_interruptsAfter := ∅;
       en_recursionLimit := 25; en_debug := false; en_config := Some NewRunnableConfig;
       en_maxConcurrency := 10; en_retryPolicy := None |} opts.

(* internal/harness/graph/pregel/engine.go:102-106 WithCheckpointer *)
Definition Engine_WithCheckpointer (cp : option CK) : EngineOption := λ e,
  {| en_graph := en_graph e; en_checkpointer := cp; en_interrupts := en_interrupts e;
     en_interruptsAfter := en_interruptsAfter e; en_recursionLimit := en_recursionLimit e;
     en_debug := en_debug e; en_config := en_config e; en_maxConcurrency := en_maxConcurrency e;
     en_retryPolicy := en_retryPolicy e |}.

(* internal/harness/graph/pregel/engine.go:109-115 WithInterrupts *)
Definition Engine_WithInterrupts (nodes : list string) : EngineOption := λ e,
  {| en_graph := en_graph e; en_checkpointer := en_checkpointer e;
     en_interrupts := list_to_set nodes ∪ en_interrupts e;
     en_interruptsAfter := en_interruptsAfter e; en_recursionLimit := en_recursionLimit e;
     en_debug := en_debug e; en_config := en_config e; en_maxConcurrency := en_maxConcurrency e;
     en_retryPolicy := en_retryPolicy e |}.

(* internal/harness/graph/pregel/engine.go:118-124 WithInterruptsAfter *)
Definition Engine_WithInterruptsAfter (nodes : list string) : EngineOption := λ e,
  {| en_graph := en_graph e; en_checkpointer := en_checkpointer e;
     en_interrupts := en_interrupts e;
     en_interruptsAfter := list_to_set nodes ∪ en_interruptsAfter e;
     en_recursionLimit := en_recursionLimit e;
     en_debug := en_debug e; en_config := en_config e; en_maxConcurrency := en_maxConcurrency e;
     en_retryPolicy := en_retryPolicy e |}.

(* internal/harness/graph/pregel/engine.go:127-131 WithRecursionLimit *)
Definition Engine_WithRecursionLimit (limit : Z) : EngineOption := λ e,
  {| en_graph := en_graph e; en_checkpointer := en_checkpointer e;
     en_interrupts := en_interrupts e; en_interruptsAfter := en_interruptsAfter e;
     en_recursionLimit := limit; en_debug := en_debug e; en_config := en_config e;
     en_maxConcurrency := en_maxConcurrency e; en_retryPolicy := en_retryPolicy e |}.

(* internal/harness/graph/pregel/engine.go:134-138 WithDebug *)
Definition Engine_WithDebug (debug : bool) : EngineOption := λ e,
  {| en_graph := en_graph e; en_checkpointer := en_checkpointer e;
     en_interrupts := en_interrupts e; en_interruptsAfter := en_interruptsAfter e;
     en_recursionLimit := en_recursionLimit e; en_debug := debug; en_config := en_config e;
     en_maxConcurrency := en_maxConcurrency e; en_retryPolicy := en_retryPolicy e |}.

(* internal/harness/graph/pregel/engine.go:141-145 WithConfig *)
Definition Engine_WithConfig (cfg : option RunnableConfig) : EngineOption := λ e,
  {| en_graph := en_graph e; en_checkpointer := en_checkpointer e;
     en_interrupts := en_interrupts e; en_interruptsAfter := en_interruptsAfter e;
     en_recursionLimit := en_recursionLimit e; en_debug := en_debug e; en_config := cfg;
     en_maxConcurrency := en_maxConcurrency e; en_retryPolicy := en_retryPolicy e |}.

(* internal/harness/graph/pregel/engine.go:148-154 WithMaxConcurrency *)
Definition Engine_WithMaxConcurrency (max : Z) : EngineOption := λ e,
  if decide (0 < max)%Z then
  {| en_graph := en_graph e; en_checkpointer := en_checkpointer e;
     en_interrupts := en_interrupts e; en_interruptsAfter := en_interruptsAfter e;
     en_recursionLimit := en_recursionLimit e; en_debug := en_debug e; en_config := en_config e;
     en_maxConcurrency := max; en_retryPolicy := en_retryPolicy e |} else e.

(* internal/harness/graph/pregel/engine.go:157-161 WithRetryPolicy *)
Definition Engine_WithRetryPolicy (policy : option RetryPolicy) : EngineOption := λ e,
  {| en_graph := en_graph e; en_checkpointer := en_checkpointer e;
     en_interrupts := en_interrupts e; en_interruptsAfter := en_interruptsAfter e;
     en_recursionLimit := en_recursionLimit e; en_debug := en_debug e; en_config := en_config e;
     en_maxConcurrency := en_maxConcurrency e; en_retryPolicy := policy |}.

(* internal/harness/graph/pregel/engine.go:1538-1547 Engine.resolveRetryPolicy *)
Definition resolveRetryPolicy (e : Engine) (task : Task W) : RetryPolicy :=
  match t_RetryPolicy task with
  | Some p => p
  | None => match en_retryPolicy e with Some p => p | None => DefaultRetryPolicy end
  end.

(** ** Inputs of a task *)

(** The loop over the channels of the task; a read may change a channel. *)
Fixpoint read_loop (registry : gmap string Channel) (names : list string)
    (values : gmap string value) : gmap string Channel * (error + gmap string value) :=
  match names with
  | [] => (registry, inr values)
  | channelName :: rest =>
      match Registry_Get registry channelName with
      | None => read_loop registry rest values
      | Some ch =>
          let '(ch', (val, err)) := ch_Get ch in
          let registry' := <[channelName := ch']> registry in
          match err with
          | Some e => if IsEmptyChannelError (Some e) then read_loop registry' rest values
                      else (registry', inl e)
          | None => read_loop registry' rest (<[channelName := val]> values)
          end
      end
  end.

(* internal/harness/graph/pregel/engine.go:1335-1359 Engine.readTaskInput *)
Definition readTaskInput (registry : gmap string Channel) (task : Task W)
    : gmap string Channel * (error + value) :=
  match t_Channels task with
  | [] => (registry, inr (VMap ∅))
  | names => let '(registry', r) := read_loop registry names ∅ in
             (registry', match r with inl e => inl e | inr values => inr (VMap values) end)
  end.

(** The struct below the pointers of a schema. *)
Fixpoint schema_struct (s : schema) : option (list struct_field) :=
  match s with
  | SchemaStruct fields => Some fields
  | SchemaPtr s' => schema_struct s'
  | _ => None
  end.

(** The exported fields of a new struct; [reflect.ValueOf(nil).Type()] panics,
    and a value that is neither assignable nor convertible is dropped. *)
Fixpoint fill_struct (fields : list struct_field) (inputMap : gmap string value)
    : go (list (string * option string * value)) :=
  match fields with
  | [] => Ret []
  | f :: rest =>
      if sf_exported f then
        v <-! match inputMap !! sf_Name f with
              | None => Ret (ft_zero (sf_Type f))
              | Some VNil => Panic
              | Some val => Ret (default (ft_zero (sf_Type f)) (ft_assign (sf_Type f) val))
              end;
        fs <-! fill_struct rest inputMap;
        Ret ((sf_Name f, sf_json f, v) :: fs)
      else fill_struct rest inputMap
  end.

(* internal/harness/graph/pregel/engine.go:1280-1333 Engine.mapToStateSchema *)
Definition mapToStateSchema (s : schema) (input : value) : go value :=
  match input with
  | VMap inputMap =>
      match schema_struct s with
      | None => Ret input
      | Some fields =>
          fs <-! fill_struct fields inputMap;
          Ret (match s with SchemaPtr _ => VPtr (VStruct fs) | _ => VStruct fs end)
      end
  | _ => Ret input
  end.

(** ** Execution *)

Context (env : Env W).

Definition failed (name : string) (err : error) : TaskResult :=
  {| r_Name := name; r_Output := VNil; r_Err := Some err |}.

(** One goroutine of [executeTasksAsync]: read the input, wait for a worker
    slot or the context, run with retries, and wait for the result or the
    context. *)
Definition run_task (e : Engine) (t : Task W) (registry : gmap string Channel) (w : W)
    : go (TaskResult * gmap string Channel * W) :=
  let '(registry, input) := readTaskInput registry t in
  match input with
  | inl err => Ret (failed (t_Name t) (Wrapf "failed to read task input: " err), registry, w)
  | inr input =>
      convertedInput <-! mapToStateSchema (g_stateSchema (en_graph e)) input;
      match ctx_poll env w with
      | (Some err, w) => Ret (failed (t_Name t) err, registry, w)
      | (None, w) =>
          let '((output, err), w) :=
            Execute (call (t_Func t) convertedInput) (wait env) (rnd env) (t_Name t)
              (Some (resolveRetryPolicy e t)) w in
          match ctx_poll env w with
          | (Some err, w) => Ret (failed (t_Name t) err, registry, w)
          | (None, w) =>
              Ret ({| r_Name := t_Name t; r_Output := output; r_Err := err |}, registry, w)
          end
      end
  end.

(** The tasks at the given indices, one after the other. *)
Fixpoint run_tasks (e : Engine) (tasks : list (Task W)) (order : list nat)
    (results : gmap nat TaskResult) (registry : gmap string Channel) (w : W)
    : go (gmap nat TaskResult * gmap string Channel * W) :=
  match order with
  | [] => Ret (results, registry, w)
  | i :: rest =>
      match tasks !! i with
      | None => run_tasks e tasks rest results registry w
      | Some t =>
          rrw <-! run_task e t registry w;
          let '(r, registry, w) := rrw in
          run_tasks e tasks rest (<[i := r]> results) registry w
      end
  end.

(* internal/harness/graph/pregel/engine.go:1127-1216 Engine.executeTasksAsync *)
Definition executeTasksAsync (e : Engine) (tasks : list (Task W)) (registry : gmap string Channel)
    (w : W) : go (list TaskResult * gmap string Channel * W) :=
  rrw <-! run_tasks e tasks (sched env (length tasks)) ∅ registry w;
  let '(results, registry, w) := rrw in
  Ret (omap (λ i, results !! i) (seq 0 (length tasks)), registry, w).

(* internal/harness/graph/pregel/retry.go:111-114 IsRetryExhausted *)
Definition IsRetryExhausted (err : error) : bool :=
  match err with RetryExhaustedError _ _ _ _ => true | _ => false end.

(* internal/harness/graph/pregel/engine.go:1219-1274 Engine.executeTask *)
Definition executeTask (e : Engine) (task : Task W) (registry : gmap string Channel) (w : W)
    : go (TaskResult * gmap string Channel * W) :=
  let '(registry, input) := readTaskInput registry task in
  match input with
  | inl err => Ret (failed (t_Name task) (Wrapf "failed to read task input: " err), registry, w)
  | inr input =>
      input <-! mapToStateSchema (g_stateSchema (en_graph e)) input;
      let '((output, err), w) :=
        Execute (call (t_Func task) input) (wait env) (rnd env) (t_Name task)
          (Some (resolveRetryPolicy e task)) w in
      match err with
      | Some err =>
          Ret (failed (t_Name task)
                 (if IsRetryExhausted err then Wrapf "max retries exceeded: " err else err),
               registry, w)
      | None => Ret ({| r_Name := t_Name task; r_Output := output; r_Err := None |}, registry, w)
      end
  end.

(** ** The input of a run *)

Definition flip_case (key : string) (lo hi : N) (delta : N → N) : option string :=
  match key with
  | EmptyString => None
  | String c rest =>
      if byte_in lo hi c then Some (String (Ascii.ascii_of_N (delta (Ascii.N_of_ascii c))) rest)
      else None
  end.

(* internal/harness/graph/pregel/engine.go:1629-1652 caseFoldKey *)
Definition caseFoldKey (registry : gmap string Channel) (key : string) : string :=
  let known (c : option string) := k ← c; _ ← Registry_Get registry k; Some k in
  match known (flip_case key 97 122 (λ n, n - 32)%N) with
  | Some candidate => candidate
  | None => default "" (known (flip_case key 65 90 (λ n, n + 32)%N))
  end.

(** The first loop of [applyInput]: the registry and [inputMap], which is
    changed in place. *)
Definition fold_input_key (acc : gmap string Channel * gmap string value) (kv : string * value)
    : gmap string Channel * gmap string value :=
  match Registry_Get acc.1 kv.1 with
  | Some _ => acc
  | None =>
      let guessed := caseFoldKey acc.1 kv.1 in
      if decide (guessed = "")
      then (Register acc.1 kv.1 (Plain (ChLastValue (NewLastValue kv.2))), acc.2)
      else (acc.1, <[guessed := kv.2]> (delete kv.1 acc.2))
  end.

(** The registry, the error and the input, which is changed when it is a
    [map[string]any] (the map itself is updated, not a copy). *)
(* internal/harness/graph/pregel/engine.go:1595-1624 Engine.applyInput *)
Definition applyInput (registry : gmap string Channel) (input : value)
    : gmap string Channel * option error * value :=
  match toMap input with
  | inl _ => (registry, Some (Errorf "nil value"), input)
  | inr inputMap =>
      let '(registry, inputMap) := foldl fold_input_key (registry, inputMap) (range inputMap) in
      let writes := copy_loop (λ v, [v]) inputMap ∅ in
      let '(registry, err) :=
        if decide (size writes = 0) then (registry, None) else UpdateChannels registry writes in
      (registry, err, match input with VMap _ => VMap inputMap | _ => input end)
  end.

(** The thread; an identifier is drawn when the configuration has none. *)
(* internal/harness/graph/pregel/engine.go:1654-1661 Engine.getThreadID *)
Definition getThreadID (e : Engine) : string :=
  match (config ← en_config e; map_read (Configurable config) ConfigKeyThreadID) with
  | Some (VStr tid) => tid
  | _ => uuid env 0
  end.

(* internal/harness/graph/pregel/engine.go:1663-1674 Engine.buildOutput *)
Definition buildOutput (registry : gmap string Channel) (lastState : value) : value :=
  match (GetValues registry).2 with
  | inl _ => lastState
  | inr values => if decide (0 < size values) then VMap values else lastState
  end.
End execution.
Arguments Engine : clear implicits.
Arguments EngineOption : clear implicits.
