(* ===== verification/Engine.v ===== *)
(** * The run loop of the engine (pregel/engine.go, Run and RunSync)

    A run is: initialisation (channels, input, checkpoint), supersteps until
    one of them exits, and the output.  [superstep] is one iteration of the
    loop; it gives the next state, and the exit of the run if there is one.

    Stream events, callbacks and log lines observe a run and are not part of
    the state.  In the asynchronous durability mode the saves happen in
    goroutines at some later time: they are collected in [rs_async]. *)

From S2P Require Import Prelude GoValue Errors StateMap ValueChannels Channels.
From S2P Require Import Registry Config Checkpoint MemorySaver Retry StateGraph GraphCompile.
From S2P Require Import Scheduling Writes Execution.
From stdpp Require Import pretty.
Open Scope go_scope.
Local Open Scope Z_scope.

(* internal/harness/graph/pregel/engine.go:56-61 deferredCheckpoint *)
Record deferredCheckpoint := {
  dc_ThreadID : string;
  dc_CheckpointID : string;
  dc_Step : Z;
  dc_Checkpoint : gmap string value;
}.

(** How a run ends: an error on [errCh], a final state, or a panic. *)
Inductive exit := ExitError (e : error) | ExitFinal (state : value) | ExitPanic.

Section engine.
Context {W : Type} `{MO : MapOrder} {CK : Type} `{BC : BaseCheckpointer CK}.
Context (env : Env W) (e : Engine W CK).

Record RunState := {
  rs_registry : gmap string Channel;
  rs_vars : EngineVars;
  rs_checkpointer : option CK;
  rs_deferred : list deferredCheckpoint;
  rs_async : list deferredCheckpoint;
  rs_completed : gmap string bool;
  rs_last : string;
  rs_lastState : value;
  rs_step : Z;
  rs_drawn : nat; (* identifiers drawn so far *)
  rs_world : W;
}.

Definition threadID : string := getThreadID env e.

(** Assignments to the state of a run. *)
Definition with_registry (st : RunState) r : RunState :=
  {| rs_registry := r; rs_vars := rs_vars st; rs_checkpointer := rs_checkpointer st;
     rs_deferred := rs_deferred st; rs_async := rs_async st; rs_completed := rs_completed st;
     rs_last := rs_last st; rs_lastState := rs_lastState st; rs_step := rs_step st;
     rs_drawn := rs_drawn st; rs_world := rs_world st |}.
Definition with_world (st : RunState) w : RunState :=
  {| rs_registry := rs_registry st; rs_vars := rs_vars st; rs_checkpointer := rs_checkpointer st;
     rs_deferred := rs_deferred st; rs_async := rs_async st; rs_completed := rs_completed st;
     rs_last := rs_last st; rs_lastState := rs_lastState st; rs_step := rs_step st;
     rs_drawn := rs_drawn st; rs_world := w |}.
Definition with_vars (st : RunState) v : RunState :=
  {| rs_registry := rs_registry st; rs_vars := v; rs_checkpointer := rs_checkpointer st;
     rs_deferred := rs_deferred st; rs_async := rs_async st; rs_completed := rs_completed st;
     rs_last := rs_last st; rs_lastState := rs_lastState st; rs_step := rs_step st;
     rs_drawn := rs_drawn st; rs_world := rs_world st |}.
Definition with_progress (st : RunState) completed last lastState : RunState :=
  {| rs_registry := rs_registry st; rs_vars := rs_vars st; rs_checkpointer := rs_checkpointer st;
     rs_deferred := rs_deferred st; rs_async := rs_async st; rs_completed := completed;
     rs_last := last; rs_lastState := lastState; rs_step := rs_step st;
     rs_drawn := rs_drawn st; rs_world := rs_world st |}.
Definition with_saves (st : RunState) cp deferred async : RunState :=
  {| rs_registry := rs_registry st; rs_vars := rs_vars st; rs_checkpointer := cp;
     rs_deferred := deferred; rs_async := async; rs_completed := rs_completed st;
     rs_last := rs_last st; rs_lastState := rs_lastState st; rs_step := rs_step st;
     rs_drawn := rs_drawn st; rs_world := rs_world st |}.
Definition with_counters (st : RunState) step drawn : RunState :=
  {| rs_registry := rs_registry st; rs_vars := rs_vars st; rs_checkpointer := rs_checkpointer st;
     rs_deferred := rs_deferred st; rs_async := rs_async st; rs_completed := rs_completed st;
     rs_last := rs_last st; rs_lastState := rs_lastState st; rs_step := step;
     rs_drawn := drawn; rs_world := rs_world st |}.
Definition draw (st : RunState) (n : nat) : RunState :=
  with_counters st (rs_step st) (rs_drawn st + n).

(** ** Saving *)

(** A [Put] when there is a checkpointer; it may draw an identifier. *)
Definition put (st : RunState) (config : gmap string value) (cp : gmap string value)
    : error + RunState :=
  match rs_checkpointer st with
  | None => inr st
  | Some ck =>
      match ckpt_Put (uuid env (rs_drawn st), clock env (rs_drawn st)) ck config cp with
      | inl err => inl err
      | inr ck' => inr (draw (with_saves st (Some ck') (rs_deferred st) (rs_async st)) 1)
      end
  end.

(* internal/harness/graph/pregel/engine.go:1752-1761 Engine.saveCheckpoint *)
Definition saveCheckpoint (st : RunState) (threadID checkpointID : string) (step : Z)
    (checkpoint : gmap string value) : error + RunState :=
  put st {[ ConfigKeyThreadID := VStr threadID; ConfigKeyCheckpointID := VStr checkpointID;
            "step" := VInt step ]} checkpoint.

(* internal/harness/graph/pregel/engine.go:1764-1771 Engine.deferCheckpoint *)
Definition deferCheckpoint (st : RunState) (dc : deferredCheckpoint) : RunState :=
  with_saves st (rs_checkpointer st) (rs_deferred st ++ [dc]) (rs_async st).

(** The loop of [saveDeferredCheckpoints]: it continues after an error and
    returns the last one. *)
Fixpoint save_all (st : RunState) (dcs : list deferredCheckpoint) (lastErr : option error)
    : RunState * option error :=
  match dcs with
  | [] => (st, lastErr)
  | dc :: rest =>
      match saveCheckpoint st (dc_ThreadID dc) (dc_CheckpointID dc) (dc_Step dc)
              (dc_Checkpoint dc) with
      | inl err => save_all st rest (Some err)
      | inr st' => save_all st' rest lastErr
      end
  end.

(* internal/harness/graph/pregel/engine.go:1774-1790 Engine.saveDeferredCheckpoints *)
Definition saveDeferredCheckpoints (st : RunState) : RunState * option error :=
  match rs_checkpointer st, rs_deferred st with
  | None, _ | _, [] => (st, None)
  | Some _, dcs =>
      let '(st, err) := save_all st dcs None in
      (with_saves st (rs_checkpointer st) [] (rs_async st), err)
  end.

(** The save at the end of a superstep, by durability; a nil configuration is
    dereferenced. *)
(* internal/harness/graph/pregel/engine.go:636-675 Engine.Run(part) *)
Definition save_step (st : RunState) : go (error + RunState) :=
  match rs_checkpointer st with
  | None => Ret (inr st)
  | Some _ =>
      let checkpoint := CreateCheckpoint (rs_registry st) in
      let checkpointID := uuid env (rs_drawn st) in
      let st := draw st 1 in
      let dc := {| dc_ThreadID := threadID; dc_CheckpointID := checkpointID;
                   dc_Step := rs_step st; dc_Checkpoint := checkpoint |} in
      match en_config e with
      | None => Panic
      | Some config =>
          if decide (cfg_Durability config = DurabilityAsync) then
            Ret (inr (with_saves st (rs_checkpointer st) (rs_deferred st) (rs_async st ++ [dc])))
          else if decide (cfg_Durability config = DurabilityExit) then
            Ret (inr (deferCheckpoint st dc))
          else
            Ret (match saveCheckpoint st threadID checkpointID (rs_step st) checkpoint with
                 | inl err => inl (Wrapf "failed to save checkpoint: " err)
                 | inr st => inr st
                 end)
      end
  end.

(** ** Results of a superstep *)

Definition is_interrupt (r : TaskResult) : bool := IsGraphInterrupt (r_Err r).
Definition succeeded (r : TaskResult) : bool :=
  match r_Err r with None => true | Some _ => false end.

(** The loop that marks the successful tasks as completed. *)
(* internal/harness/graph/pregel/engine.go:533-548 Engine.Run(part) *)
Definition complete (st : RunState) (results : list TaskResult) : RunState :=
  foldl (λ st r, if succeeded r then
                   with_progress st (<[r_Name r := true]> (rs_completed st)) (r_Name r)
                     (mergeStates (rs_lastState st) (r_Output r))
                 else st) st results.

(** [*types.Interrupt] in an [any]. *)
(* internal/harness/graph/types/types.go:136-141 Interrupt *)
Definition as_interrupt (v : value) : option value :=
  match v with
  | VPtr (VStruct [(("Value", _), val); (("ID", _), VStr _)]) => Some val
  | _ => None
  end.

(** The first result whose GraphInterrupt carries interrupts. *)
Definition first_interrupt (results : list TaskResult) : option (list value) :=
  head (omap (λ r, match r_Err r with
                   | Some (GraphInterrupt ((_ :: _) as ints)) => Some ints
                   | _ => None end) results).

(** Store the JSON text of a value that is not nil and can be marshalled. *)
Definition add_json (key : string) (wrap : string → value) (v : value) (m : gmap string value)
    : gmap string value :=
  match v with
  | VNil => m
  | _ => match json_marshal env v with Some text => <[key := wrap text]> m | None => m end
  end.

(** The payload saved when a task was interrupted. *)
(* internal/harness/graph/pregel/engine.go:555-583 Engine.Run(part) *)
Definition interrupt_payload (st : RunState) (results : list TaskResult) : gmap string value :=
  let payload := copy_loop id (CreateCheckpoint (rs_registry st)) ∅ in
  let payload := <["__completed_tasks__" := VStr (serializeStringSet (rs_completed st))]> payload in
  let payload := <["__last_completed_node__" := VStr (rs_last st)]> payload in
  let payload := <["__step__" := VFloat (f64_of_int (rs_step st))]> payload in
  let payload := add_json "__last_state__" VStr (rs_lastState st) payload in
  match (ints ← first_interrupt results; i ← head ints; as_interrupt i) with
  | None => payload
  | Some v => add_json "__sub_state__" VBytes v payload
  end.

(* internal/harness/graph/pregel/engine.go:549-608 Engine.Run(part) *)
Definition exit_interrupted (st : RunState) (results : list TaskResult) : RunState * exit :=
  match put st {[ConfigKeyThreadID := VStr threadID]} (interrupt_payload st results) with
  | inl err => (st, ExitError (Wrapf "failed to save checkpoint on interrupt: " err))
  | inr st => (st, ExitError (GraphInterrupt (default [] (first_interrupt results))))
  end.

(* internal/harness/graph/pregel/engine.go:609-622 Engine.Run(part) *)
Definition all_failed_error (st : RunState) (results : list TaskResult) : error :=
  Errorf ("all " +:+ pretty (Z.of_nat (length results)) +:+ " tasks failed in step "
          +:+ pretty (rs_step st) +:+ ": "
          +:+ String.concat "" (map (λ r, match r_Err r with
               | Some err => " " +:+ r_Name r +:+ "=" +:+ type_name env err +:+ "(" +:+ Error err +:+ ")"
               | None => "" end) results)).

(** ** A superstep *)

(** After the tasks have run. *)
(* internal/harness/graph/pregel/engine.go:533-693 Engine.Run(part) *)
Definition finish_step (st : RunState) (triggers : gset string) (results : list TaskResult)
    : RunState * option exit :=
  let st := complete st results in
  if existsb is_interrupt results then
    let '(st, x) := exit_interrupted st results in (st, Some x)
  else if negb (bool_decide (results = [])) && negb (existsb succeeded results) then
    (st, Some (ExitError (all_failed_error st results)))
  else
    match applyWrites (en_graph e) (rs_registry st) (rs_vars st) results triggers with
    | Panic => (st, Some ExitPanic)
    | Ret (inl err) => (st, Some (ExitError (Wrapf "failed to apply writes: " err)))
    | Ret (inr (_, registry, vars)) =>
        (* the values event reads every channel *)
        let st := with_vars (with_registry st (GetValues registry).1) vars in
        match save_step st with
        | Panic => (st, Some ExitPanic)
        | Ret (inl err) => (st, Some (ExitError err))
        | Ret (inr st) =>
            if shouldInterruptAfter (en_interruptsAfter e) results
            then (st, Some (ExitError (GraphInterrupt [])))
            else (with_counters st (rs_step st + 1) (rs_drawn st), None)
        end
    end.

(** The end of a run without tasks left. *)
(* internal/harness/graph/pregel/engine.go:695-712 Engine.Run(part) *)
Definition finish_run (st : RunState) : RunState * exit :=
  let finalState := buildOutput (rs_registry st) (rs_lastState st) in
  match en_config e with
  | None => (st, ExitPanic)
  | Some config =>
      if decide (cfg_Durability config = DurabilityExit) then
        match saveDeferredCheckpoints st with
        | (st, Some err) => (st, ExitError (Wrapf "failed to save deferred checkpoints: " err))
        | (st, None) => (st, ExitFinal finalState)
        end
      else (st, ExitFinal finalState)
  end.

(** Stop before the tasks when one of them is an interrupt node. *)
(* internal/harness/graph/pregel/engine.go:496-524 Engine.Run(part) *)
Definition exit_before (st : RunState) : RunState * exit :=
  match put st {[ConfigKeyThreadID := VStr threadID]} (CreateCheckpoint (rs_registry st)) with
  | inl err => (st, ExitError (Wrapf "failed to save checkpoint: " err))
  | inr st => (st, ExitError (GraphInterrupt []))
  end.

(* internal/harness/graph/pregel/engine.go:456-531 Engine.Run(part) *)
Definition superstep (st : RunState) : RunState * option exit :=
  match ctx_poll env (rs_world st) with
  | (Some err, w) => (with_world st w, Some (ExitError err))
  | (None, w) =>
      let st := with_world st w in
      if decide (en_recursionLimit e ≤ rs_step st)
      then (st, Some (ExitError (GraphRecursionError (en_recursionLimit e)))) else
      let '(prepared, w) :=
        prepareNextTasks (sprint env) (λ n, uuid env (rs_drawn st + n)) (en_graph e)
          (rs_registry st) (rs_completed st) (rs_last st) (rs_lastState st) (rs_world st) in
      let st := with_world st w in
      match prepared with
      | inl err => (st, Some (ExitError (Wrapf "failed to prepare next tasks: " err)))
      | inr ([], _) => let '(st, x) := finish_run st in (st, Some x)
      | inr (tasks, triggers) =>
          let st := draw st (length tasks) in
          match shouldInterrupt (en_interrupts e) tasks with
          | _ :: _ => let '(st, x) := exit_before st in (st, Some x)
          | [] =>
              match executeTasksAsync env e tasks (rs_registry st) (rs_world st) with
              | Panic => (st, Some ExitPanic)
              | Ret (results, registry, w) =>
                  finish_step (with_world (with_registry st registry) w) triggers results
              end
          end
      end
  end.

(** ** Initialisation *)

(** What a loaded checkpoint restores besides the channels. *)
Record resumed := {
  re_registry : gmap string Channel;
  re_completed : option (gmap string bool);
  re_last : string;
  re_lastState : value;
  re_checkpoint : Checkpoint;
  re_world : W;
}.

Definition requested_id : option string :=
  config ← en_config e; configurable ← Configurable config;
  match configurable !! ConfigKeyCheckpointID with
  | Some (VStr cpid) => if decide (cpid = "") then None else Some cpid
  | _ => None
  end.

(* internal/harness/graph/pregel/engine.go:318-330 Engine.Run(part) *)
Definition checkpoint_request : gmap string value :=
  let config := {[ConfigKeyThreadID := VStr threadID]} in
  match requested_id with
  | Some cpid => <[ConfigKeyCheckpointID := VStr cpid]> config
  | None => config
  end.

(* internal/harness/graph/pregel/engine.go:342-383 Engine.Run(part) *)
Definition restore (registry : gmap string Channel) (cpData : gmap string value) (w : W)
    : error + resumed :=
  let w := match cpData !! "__sub_state__" with
           | Some (VBytes b) | Some (VStr b) => set_sub_state env b w
           | _ => w end in
  let filtered := foldl (λ acc kv, match Registry_Get registry kv.1 with
                                   | Some _ => <[kv.1 := kv.2]> acc | None => acc end)
                    ∅ (range cpData) in
  let '(registry, err) := if decide (0 < size filtered)%nat
                          then RestoreFromCheckpoint registry filtered else (registry, None) in
  match err with
  | Some err => inl (Wrapf "failed to restore from checkpoint: " err)
  | None =>
      inr {| re_registry := registry;
             re_completed := match cpData !! "__completed_tasks__" with
                             | Some (VStr str) => deserializeStringSet str | _ => None end;
             re_last := match cpData !! "__last_completed_node__" with
                        | Some (VStr str) => str | _ => "" end;
             re_lastState := match cpData !! "__last_state__" with
                             | Some (VStr text) | Some (VBytes text) =>
                                 match json_unmarshal env text with
                                 | Some decoded => VMap decoded | None => VNil end
                             | _ => VNil end;
             re_checkpoint := FromMap (parse_time env) cpData;
             re_world := w |}
  end.

(** The checkpoint of the thread, if there is a checkpointer and it has one. *)
(* internal/harness/graph/pregel/engine.go:316-341 Engine.Run(part) *)
Definition load : error + option (gmap string value) :=
  match en_checkpointer e with
  | None => inr None
  | Some ck =>
      match ckpt_Get ck checkpoint_request, requested_id with
      | inl err, Some cpid =>
          inl (Errorf ("requested checkpoint_id " +:+ cpid +:+ ": " +:+ Error err))
      | inr None, Some cpid =>
          inl (Errorf ("requested checkpoint_id " +:+ cpid +:+ ": checkpoint not found"))
      | inl _, None => inr None
      | inr cpData, _ => inr cpData
      end
  end.

Definition initial_registry : gmap string Channel :=
  foldl (λ r nc, Register r nc.1 (ch_Copy nc.2)) NewRegistry (range (g_channels (en_graph e))).

(* internal/harness/graph/pregel/engine.go:276-442 Engine.Run(part) *)
Definition init (input : value) (w : W) : error + RunState :=
  let '(registry, err, input) := applyInput initial_registry input in
  match err with
  | Some err => inl (Wrapf "failed to apply input: " err)
  | None =>
      let start registry cp completed last lastState w :=
        {| rs_registry := registry;
           rs_vars := {| ev_currentCheckpoint := Some cp; ev_channelVersions := ∅;
                         ev_versionsSeen := ∅ |};
           rs_checkpointer := en_checkpointer e; rs_deferred := []; rs_async := [];
           rs_completed := completed; rs_last := last; rs_lastState := lastState;
           rs_step := 0; rs_drawn := 2; rs_world := w |} in
      match load with
      | inl err => inl err
      | inr (Some cpData) =>
          match restore registry cpData w with
          | inl err => inl err
          | inr re => inr (start (re_registry re) (re_checkpoint re) (default ∅ (re_completed re))
                             (re_last re) (re_lastState re) (re_world re))
          end
      | inr None =>
          let '(registry, err, input) := applyInput registry input in
          match err with
          | Some err => inl (Wrapf "failed to apply input: " err)
          | None => inr (start registry (NewCheckpoint (uuid env 1) (clock env 1) threadID 0)
                           ∅ "" input w)
          end
      end
  end.

(** ** The run *)

Fixpoint run_loop (fuel : nat) (st : RunState) : option (RunState * exit) :=
  match fuel with
  | O => None
  | S fuel' =>
      match superstep st with
      | (st', None) => run_loop fuel' st'
      | (st', Some x) => Some (st', x)
      end
  end.

(** One superstep per unit of the recursion limit, and the one that stops. *)
Definition run_fuel : nat := S (Z.to_nat (en_recursionLimit e)).

(* internal/harness/graph/pregel/engine.go:199-715 Engine.Run(part) *)
Definition Run (input : value) (w : W) : option (RunState * exit) + error :=
  match init input w with
  | inl err => inr err
  | inr st => inl (run_loop run_fuel st)
  end.

(** The final state, or the error; [None] when the fuel does not suffice. *)
(* internal/harness/graph/pregel/engine.go:1799-1825 Engine.RunSync *)
Definition RunSync (input : value) (w : W) : option (go (value * option error)) :=
  match Run input w with
  | inr err => Some (Ret (VNil, Some err))
  | inl None => None
  | inl (Some (_, ExitError err)) => Some (Ret (VNil, Some err))
  | inl (Some (_, ExitFinal state)) => Some (Ret (state, None))
  | inl (Some (_, ExitPanic)) => Some Panic
  end.
End engine.

(** A compiled graph runs on a fresh engine. *)
(* internal/harness/graph/pregel/init_pregel.go:16-42 runCompiledGraph *)
Definition runCompiledGraph {W} `{MO : MapOrder} {CK} `{BC : BaseCheckpointer CK} (env : Env W)
    (cg : compiledGraph W CK) (input : value) (config : option RunnableConfig) (w : W)
    : option (go (value * option error)) :=
  let e := NewEngine (cg_graph cg)
    [ Engine_WithCheckpointer (cg_checkpointer cg);
      Engine_WithInterrupts (range_set (cg_interrupts cg));
      Engine_WithInterruptsAfter (range_set (cg_interruptsAfter cg));
      Engine_WithRecursionLimit (cg_recursionLimit cg);
      Engine_WithDebug (cg_debug cg);
      Engine_WithConfig config ] in
  RunSync env e input w.
