(* ===== verification/EngineLemmas.v ===== *)
(** * Lemmas about the engine, and concrete graphs on which the properties are evaluated *)

From S2P Require Import Prelude GoValue Errors StateMap ValueChannels Channels Registry Config.
From S2P Require Import Checkpoint MemorySaver Retry StateGraph GraphCompile Scheduling Writes.
From S2P Require Import Execution Engine.
From stdpp Require Import pretty.

(** ** Lemmas about the run loop: counters, frames, progress *)

Open Scope go_scope.
Local Open Scope Z_scope.

Section engine_lemmas.
Context {W : Type} `{MO : MapOrder} {CK : Type} `{BC : BaseCheckpointer CK}.
Context (env : Env W) (e : Engine W CK).
Abbreviation State := (RunState (W := W) (CK := CK)).
Implicit Types st : State.

(** ** Saving changes the checkpointer and the identifiers only *)

Definition same_run st st' : Prop :=
  rs_registry st' = rs_registry st ∧ rs_vars st' = rs_vars st ∧ rs_completed st' = rs_completed st
  ∧ rs_last st' = rs_last st ∧ rs_lastState st' = rs_lastState st ∧ rs_step st' = rs_step st
  ∧ rs_world st' = rs_world st.

#[local] Instance same_run_preorder : PreOrder same_run.
Proof. split; [by intros st|]. unfold same_run. intros s1 s2 s3. naive_solver congruence. Qed.

Lemma put_same st config cp st' : put env st config cp = inr st' → same_run st st'.
Proof.
  unfold put. destruct (rs_checkpointer st); [|by intros [= <-]].
  destruct (ckpt_Put _ _ _ _); [done|]. by intros [= <-].
Qed.

Lemma save_step_same st st' : save_step env e st = Ret (inr st') → same_run st st'.
Proof.
  unfold save_step. destruct (rs_checkpointer st); [|by intros [= <-]].
  destruct (en_config e); [|done]. repeat case_decide; try (by intros [= <-]).
  destruct (saveCheckpoint _ _ _ _ _ _) as [err|st1] eqn:E; [done|]. intros [= <-].
  apply put_same in E. exact E.
Qed.

(** ** Completion *)

(** Is a node completed by a list of results? *)
Definition completed_by (results : list TaskResult) (n : string) : bool :=
  existsb (λ r, succeeded r && bool_decide (r_Name r = n)) results.

Lemma complete_spec st results :
  let st' := complete st results in
  rs_registry st' = rs_registry st ∧ rs_vars st' = rs_vars st ∧ rs_step st' = rs_step st
  ∧ rs_checkpointer st' = rs_checkpointer st ∧ rs_deferred st' = rs_deferred st
  ∧ rs_world st' = rs_world st ∧ rs_drawn st' = rs_drawn st ∧ rs_async st' = rs_async st.
Proof.
  unfold complete. revert st. induction results as [|r rs IH]; intros st; [done|]. cbn [foldl].
  destruct (succeeded r); [|apply IH]. eapply (IH (with_progress st _ _ _)).
Qed.

Lemma complete_completed st results n :
  rs_completed (complete st results) !! n =
    if completed_by results n then Some true else rs_completed st !! n.
Proof.
  unfold complete. revert st. induction results as [|r rs IH]; intros st; [done|]. cbn [foldl].
  rewrite IH. cbn [completed_by existsb]. fold (completed_by rs n).
  destruct (succeeded r); cbn; [|done]. destruct (completed_by rs n); [by rewrite orb_true_r|].
  rewrite orb_false_r. case_bool_decide as Hn; [subst n; apply lookup_insert_eq|].
  by apply lookup_insert_ne.
Qed.

(** ** The step counter, and termination *)

Lemma finish_step_counter st triggers results st' :
  finish_step env e st triggers results = (st', None) → rs_step st' = rs_step st + 1.
Proof.
  unfold finish_step. destruct (complete_spec st results) as (_ & _ & Hs & _).
  destruct (existsb is_interrupt results).
  { destruct (exit_interrupted _ _ _ _); done. }
  destruct (negb _ && negb _); [done|].
  destruct (applyWrites _ _ _ _ _) as [[err|[[u r] v]]|]; [done| |done].
  destruct (save_step _ _ _) as [[err|st1]|] eqn:E; [done| |done].
  apply save_step_same in E as (_ & _ & _ & _ & _ & Hs1 & _).
  destruct (shouldInterruptAfter _ _); [done|]. intros [= <-].
  cbn in *. by rewrite Hs1, Hs.
Qed.

Lemma superstep_counter st st' :
  superstep env e st = (st', None) →
  rs_step st < en_recursionLimit e ∧ rs_step st' = rs_step st + 1.
Proof.
  unfold superstep. destruct (ctx_poll env _) as [[err|] w]; [done|].
  case_decide as Hl; [done|]. cbn in Hl. destruct (prepareNextTasks _ _ _ _ _ _ _ _) as [[err|[tasks trig]] w2]; [done|].
  destruct tasks as [|t ts]; [destruct (finish_run _ _ _); done|].
  destruct (shouldInterrupt _ _); [|destruct (exit_before _ _ _); done].
  destruct (executeTasksAsync _ _ _ _ _) as [[[results r] w3]|]; [|done].
  intros Hf. apply finish_step_counter in Hf. cbn in Hf. split; [lia|done].
Qed.

Lemma run_loop_total fuel st :
  (Z.to_nat (en_recursionLimit e - rs_step st) < fuel)%nat →
  is_Some (run_loop env e fuel st).
Proof.
  revert st. induction fuel as [|fuel IH]; intros st Hf; [lia|]. cbn [run_loop].
  destruct (superstep env e st) as [st' [x|]] eqn:E; [eauto|].
  apply superstep_counter in E as [Hl Hs]. apply IH. lia.
Qed.

(** A superstep that goes on has applied the writes of its results. *)
Lemma finish_step_writes st triggers results st' :
  finish_step env e st triggers results = (st', None) →
  ∃ regw upd reg', applyWrites (en_graph e) regw (rs_vars st) results triggers
                   = Ret (inr (upd, reg', rs_vars st')).
Proof.
  unfold finish_step. destruct (complete_spec st results) as (_ & Hv & _).
  destruct (existsb is_interrupt results); [by destruct (exit_interrupted _ _ _ _)|].
  destruct (negb _ && negb _); [done|].
  destruct (applyWrites _ _ _ _ _) as [[err|[[u r] v]]|] eqn:Ea; [done| |done].
  destruct (save_step _ _ _) as [[err|st1]|] eqn:E; [done| |done].
  apply save_step_same in E as (_ & Hv1 & _).
  destruct (shouldInterruptAfter _ _); [done|]. intros [= <-]. cbn in Hv1 |- *.
  rewrite Hv1. rewrite Hv in Ea. eauto.
Qed.

(** ** Results of the tasks *)

Lemma run_task_name t registry w r registry' w' :
  run_task env e t registry w = Ret (r, registry', w') → r_Name r = t_Name t.
Proof.
  unfold run_task. destruct (readTaskInput registry t) as [reg1 [err|input]].
  { by intros [= <- _ _]. }
  destruct (mapToStateSchema _ _) as [v|]; cbn [go_bind]; [|done].
  destruct (ctx_poll env w) as [[err|] w1]; [by intros [= <- _ _]|].
  destruct (Execute _ _ _ _ _ _) as [[out oerr] w2].
  destruct (ctx_poll env w2) as [[err|] w3]; by intros [= <- _ _].
Qed.

Lemma run_tasks_names tasks order results registry w results' registry' w' :
  run_tasks env e tasks order results registry w = Ret (results', registry', w') →
  (∀ i r, results !! i = Some r → r_Name <$> Some r = t_Name <$> tasks !! i) →
  (∀ i r, results' !! i = Some r → r_Name <$> Some r = t_Name <$> tasks !! i)
  ∧ ∀ i, is_Some (tasks !! i) → i ∈ order ∨ is_Some (results !! i) → is_Some (results' !! i).
Proof.
  revert results registry w. induction order as [|j order IH]; intros results registry w; cbn [run_tasks].
  { intros [= <- _ _] Hr. split; [done|]. intros i _ [Hi%elem_of_nil|]; done. }
  destruct (tasks !! j) as [t|] eqn:Ej.
  - destruct (run_task env e t registry w) as [[[r reg1] w1]|] eqn:Er; cbn [go_bind]; [|done].
    intros Hrun Hr. apply run_task_name in Er. destruct (IH _ _ _ Hrun) as [H1 H2].
    { intros i r'. destruct (decide (i = j)) as [->|Hne].
      - rewrite lookup_insert_eq. intros [= <-]. rewrite Ej. cbn. by rewrite Er.
      - rewrite lookup_insert_ne by done. apply Hr. }
    split; [done|]. intros i Hi [Hin|Hin]; apply H2; try done.
    + apply elem_of_cons in Hin as [->|Hin]; [|by left]. right. rewrite lookup_insert_eq. eauto.
    + right. apply lookup_insert_is_Some'. by right.
  - intros Hrun Hr. destruct (IH _ _ _ Hrun Hr) as [H1 H2]. split; [done|].
    intros i Hi [Hin|Hin]; apply H2; try done; [|by right].
    apply elem_of_cons in Hin as [->|Hin]; [|by left]. rewrite Ej in Hi. by destruct Hi.
Qed.

(** Every task gives exactly one result, at its index. *)
Lemma executeTasksAsync_names tasks registry w results registry' w' :
  sched env (length tasks) ≡ₚ seq 0 (length tasks) →
  executeTasksAsync env e tasks registry w = Ret (results, registry', w') →
  map r_Name results = map t_Name tasks.
Proof.
  intros Hperm. unfold executeTasksAsync.
  destruct (run_tasks _ _ _ _ _ _ _) as [[[res reg1] w1]|] eqn:E; cbn [go_bind]; [|done].
  intros [= <- _ _]. apply run_tasks_names in E as [H1 H2].
  2: { intros i r. by rewrite lookup_empty. }
  assert (H3 : ∀ i t, tasks !! i = Some t → ∃ r, res !! i = Some r ∧ r_Name r = t_Name t).
  { intros i t Ht. destruct (H2 i ltac:(eauto)) as [r Hr].
    - left. rewrite Hperm. apply elem_of_seq. apply lookup_lt_Some in Ht. lia.
    - exists r. split; [done|]. specialize (H1 _ _ Hr). rewrite Ht in H1. by injection H1. }
  by apply omap_seq_map.
Qed.

(** ** Checkpoints of a run *)

(** The keys the engine adds to the checkpoint of an interrupted run. *)
Definition reserved_keys : list string :=
  ["__completed_tasks__"; "__last_completed_node__"; "__step__"; "__last_state__"; "__sub_state__"].

Lemma completed_by_intro results r :
  r ∈ results → r_Err r = None → completed_by results (r_Name r) = true.
Proof.
  intros Hin Hr. apply existsb_exists. exists r. split; [by apply list_elem_of_In|].
  unfold succeeded. rewrite Hr. by apply bool_decide_eq_true.
Qed.

Lemma add_json_ne key wrap v m ch : ch ≠ key → add_json env key wrap v m !! ch = m !! ch.
Proof.
  intros Hne. unfold add_json. assert (H : match json_marshal env v with
    | Some text => <[key := wrap text]> m | None => m end !! ch = m !! ch)
    by (destruct (json_marshal env v); [by rewrite lookup_insert_ne|done]).
  by destruct v.
Qed.

(** The payload but for the two keys that hold JSON text. *)
Lemma interrupt_payload_other st results ch :
  ch ≠ "__last_state__" → ch ≠ "__sub_state__" →
  interrupt_payload env st results !! ch =
    (<["__step__" := VFloat (f64_of_int (rs_step st))]>
      (<["__last_completed_node__" := VStr (rs_last st)]>
        (<["__completed_tasks__" := VStr (serializeStringSet (rs_completed st))]>
          (CreateCheckpoint (rs_registry st))))) !! ch.
Proof.
  intros H1 H2. unfold interrupt_payload. rewrite copy_loop_id. cbn zeta.
  destruct (ints ← first_interrupt results; i ← head ints; as_interrupt i);
    by rewrite !add_json_ne.
Qed.

Lemma interrupt_payload_keys st results :
  interrupt_payload env st results !! "__completed_tasks__"
    = Some (VStr (serializeStringSet (rs_completed st)))
  ∧ interrupt_payload env st results !! "__last_completed_node__" = Some (VStr (rs_last st)).
Proof.
  rewrite !interrupt_payload_other by done. split.
  - rewrite !lookup_insert_ne by done. apply lookup_insert_eq.
  - rewrite lookup_insert_ne by done. apply lookup_insert_eq.
Qed.

Lemma interrupt_payload_frame st results ch v :
  ch ∉ reserved_keys → CreateCheckpoint (rs_registry st) !! ch = Some v →
  interrupt_payload env st results !! ch = Some v.
Proof.
  unfold reserved_keys. intros Hch Hv. rewrite interrupt_payload_other by set_solver.
  by rewrite !lookup_insert_ne by set_solver.
Qed.

Lemma exit_interrupted_same st results :
  rs_registry (exit_interrupted env e st results).1 = rs_registry st
  ∧ rs_completed (exit_interrupted env e st results).1 = rs_completed st.
Proof.
  unfold exit_interrupted. destruct (put _ _ _ _) as [err|st'] eqn:E; [done|].
  cbn. by apply put_same in E as (-> & _ & -> & _).
Qed.

(** The keys of a checkpoint that are channels. *)
Definition registered (registry : gmap string Channel) (cpData : gmap string value) : gmap string value :=
  foldl (λ acc kv, match Registry_Get registry kv.1 with Some _ => <[kv.1 := kv.2]> acc | None => acc end) ∅ (range cpData).
Lemma registered_lookup registry cpData k :
  registered registry cpData !! k = match registry !! k with Some _ => cpData !! k | None => None end.
Proof.
  unfold registered. assert (Hl : ∀ (l : list (string * value)) (acc : gmap string value), NoDup l.*1 →
    foldl (λ acc kv, match Registry_Get registry kv.1 with Some _ => <[kv.1 := kv.2]> acc | None => acc end) acc l !! k
    = match registry !! k, list_to_map (M := gmap string value) l !! k with Some _, Some v => Some v | _, _ => acc !! k end).
  { unfold Registry_Get. induction l as [|[k' v] l IH]; intros acc Hn; cbn [foldl fst snd list_to_map foldr].
    { rewrite lookup_empty. by destruct (registry !! k). }
    apply NoDup_cons in Hn as [Hk Hn]. rewrite IH by done. destruct (decide (k = k')) as [->|Hne].
    - assert (list_to_map (M := gmap string value) l !! k' = None) as -> by (by apply not_elem_of_list_to_map_1).
      rewrite lookup_insert_eq. destruct (registry !! k'); [by rewrite lookup_insert_eq|done].
    - assert (Hacc : ∀ o : option Channel, match o with Some _ => <[k' := v]> acc | None => acc end !! k = acc !! k)
        by (intros [?|]; by rewrite ?lookup_insert_ne).
      rewrite Hacc. by rewrite lookup_insert_ne. }
  rewrite Hl, list_to_map_range, lookup_empty by apply range_NoDup. by destruct (registry !! k), (cpData !! k).
Qed.

(** Restoring never fails: only registered channels are restored, and each of them from
    its value in the checkpoint. *)
Lemma restore_total registry cpData w :
  ∃ re, restore env registry cpData w = inr re
    ∧ re_completed re = match cpData !! "__completed_tasks__" with
                        | Some (VStr str) => deserializeStringSet str | _ => None end
    ∧ re_last re = match cpData !! "__last_completed_node__" with
                   | Some (VStr str) => str | _ => "" end.
Proof.
  unfold restore. fold (registered registry cpData).
  assert (Hd : dom (registered registry cpData) ⊆ dom registry).
  { intros k. rewrite !elem_of_dom, registered_lookup. destruct (registry !! k); [by eauto|]. by intros []. }
  assert (He : (RestoreFromCheckpoint registry (registered registry cpData)).2 = None)
    by (by apply (RestoreFromCheckpoint_lookup _ _ "")).
  case_decide.
  - destruct (RestoreFromCheckpoint registry (registered registry cpData)) as [r' err]. cbn in He. subst err. by eexists.
  - by eexists.
Qed.
Lemma restore_registry registry cpData w re k : restore env registry cpData w = inr re →
  re_registry re !! k = match registry !! k, cpData !! k with
                        | Some c, Some v => Some (ch_FromCheckpoint c v) | o, _ => o end.
Proof.
  unfold restore. fold (registered registry cpData).
  assert (Hd : dom (registered registry cpData) ⊆ dom registry).
  { intros j. rewrite !elem_of_dom, registered_lookup. destruct (registry !! j); [by eauto|]. by intros []. }
  destruct (RestoreFromCheckpoint_lookup registry (registered registry cpData) k Hd) as [He Hl].
  pose proof (registered_lookup registry cpData k) as Hr.
  case_decide as Hs.
  - destruct (RestoreFromCheckpoint registry (registered registry cpData)) as [r' err]. cbn in He, Hl. subst err.
    intros [= <-]. cbn [re_registry]. rewrite Hl, Hr. by destruct (registry !! k), (cpData !! k).
  - intros [= <-]. cbn [re_registry]. assert (registered registry cpData = ∅) as E.
    { apply map_size_empty_iff. lia. }
    rewrite E, lookup_empty in Hr. by destruct (registry !! k), (cpData !! k).
Qed.
End engine_lemmas.

(** What a run interrupted by a task saves is what a later run of the thread loads. *)
Lemma interrupted_load {W} {MO : MapOrder} {CK} `{BC : !BaseCheckpointer CK} `{CL : !CheckpointerLaws CK}
    (env : Env W) (e : Engine W CK) st results st' x ck :
  rs_checkpointer st = Some ck → requested_id e = None → exit_interrupted env e st results = (st', x) →
  ∃ ck', rs_checkpointer st' = Some ck'
    ∧ load env (Engine_WithCheckpointer (Some ck') e) = inr (Some (deepCopyMap (interrupt_payload env st results))).
Proof.
  intros Hck Hreq. unfold exit_interrupted, put. rewrite Hck.
  edestruct ckpt_put_total as [ck' Hput]; [|rewrite Hput]; [by eexists|]. intros [= <- <-].
  exists ck'. split; [done|]. unfold load. cbn [en_checkpointer Engine_WithCheckpointer].
  change (requested_id (Engine_WithCheckpointer (Some ck') e)) with (requested_id e).
  unfold checkpoint_request.
  change (requested_id (Engine_WithCheckpointer (Some ck') e)) with (requested_id e).
  rewrite Hreq. erewrite ckpt_get_put; [done|exact Hput|done|done].
Qed.

(** The same for the save at the end of a superstep. *)
Lemma step_load {W} {MO : MapOrder} {CK} `{BC : !BaseCheckpointer CK} `{CL : !CheckpointerLaws CK}
    (env : Env W) (e : Engine W CK) st ck config :
  rs_checkpointer st = Some ck → en_config e = Some config → requested_id e = None →
  cfg_Durability config ≠ DurabilityAsync → cfg_Durability config ≠ DurabilityExit →
  ∃ st' ck', save_step env e st = Ret (inr st') ∧ rs_checkpointer st' = Some ck'
    ∧ load env (Engine_WithCheckpointer (Some ck') e) = inr (Some (deepCopyMap (CreateCheckpoint (rs_registry st)))).
Proof.
  intros Hck Hcfg Hreq Hna Hne. unfold save_step, saveCheckpoint, put. rewrite Hck, Hcfg.
  rewrite !decide_False by done. cbn [rs_checkpointer draw with_counters rs_step]. rewrite Hck.
  edestruct ckpt_put_total as [ck' Hput]; [|rewrite Hput]; [by eexists|].
  eexists _, ck'. split; [done|]. split; [done|]. unfold load. cbn [en_checkpointer Engine_WithCheckpointer].
  change (requested_id (Engine_WithCheckpointer (Some ck') e)) with (requested_id e).
  unfold checkpoint_request.
  change (requested_id (Engine_WithCheckpointer (Some ck') e)) with (requested_id e).
  rewrite Hreq. erewrite ckpt_get_put; [done|exact Hput|done|done].
Qed.

(** ** Concrete graphs and environments, on which the properties are evaluated *)

#[global] Existing Instance order_fwd.

(** The context is never done, timers fire, identifiers are numbered. *)
Definition demo_env : Env unit :=
  {| sprint := λ v, match v with VStr s => s | _ => "" end;
     type_name := λ _, "error";
     ctx_poll := λ w, (None, w);
     wait := λ _ w, (None, w);
     rnd := λ _, f64_of_int 0;
     uuid := λ n, "id-" +:+ pretty (N.of_nat n);
     clock := λ _, zero_time;
     parse_time := λ _, None;
     json_marshal := λ _, None;
     json_unmarshal := λ _, None;
     set_sub_state := λ _ w, w;
     sched := λ n, seq 0 n |}.

(** A node that returns the same output every time. *)
Definition const_node (out : value) : NodeFunc unit := λ _ w, (Returns out None, w).

(** A node that asks for an interrupt. *)
Definition interrupt_node : NodeFunc unit := λ _ w, (Returns VNil (Some (GraphInterrupt [])), w).

Definition or_graph (x : error + stateGraph unit) (g : stateGraph unit) : stateGraph unit :=
  match x with inr g' => g' | inl _ => g end.
Definition edge (from to : string) (g : stateGraph unit) : stateGraph unit :=
  or_graph (AddEdge g from to) g.

(** start -> a -> {b, c} -> d -> end, every node writing the channel x. *)
Definition diamond : stateGraph unit :=
  let node n z g := AddNode g n (Some (const_node (VMap {["x" := VInt z]}))) in
  edge "d" End_ (edge "c" "d" (edge "b" "d" (edge "a" "c" (edge "a" "b" (edge Start "a"
    (node "d" 4%Z (node "c" 3%Z (node "b" 2%Z (node "a" 1%Z
      (AddChannel (NewStateGraph (SchemaMap true)) "x"
        (Plain (ChLastValue (NewLastValue VNil))))))))))))).

Definition thread_config (d : Durability) : RunnableConfig :=
  {| Configurable := Some {[ConfigKeyThreadID := VStr "t1"]}; RecursionLimit := 0; Tags := [];
     cfg_Metadata := None; RunID := ""; ThreadID := ""; cfg_Durability := d |}.

Definition demo_engine (g : stateGraph unit) : Engine unit MemorySaver :=
  NewEngine g [Engine_WithCheckpointer (Some NewMemorySaver);
               Engine_WithConfig (Some (thread_config DurabilitySync))].

Definition empty_vars : EngineVars :=
  {| ev_currentCheckpoint := None; ev_channelVersions := ∅; ev_versionsSeen := ∅ |}.

Definition last_value (v : value) : Channel :=
  Plain (ChLastValue {| lv_base := new_base VNil; lv_value := v |}).

Definition ok_result (n : string) (out : value) : TaskResult :=
  {| r_Name := n; r_Output := out; r_Err := None |}.

(** A state in the middle of a run of the diamond: a is completed. *)
Definition demo_state : RunState (W := unit) (CK := MemorySaver) :=
  {| rs_registry := {["x" := last_value (VInt 1)]}; rs_vars := empty_vars;
     rs_checkpointer := Some NewMemorySaver; rs_deferred := []; rs_async := [];
     rs_completed := {["a" := true]}; rs_last := "a"; rs_lastState := VMap {["x" := VInt 1]};
     rs_step := 1; rs_drawn := 7; rs_world := () |}.

(** The diamond runs to its end. *)
Example diamond_run :
  RunSync demo_env (demo_engine diamond) (VMap {["x" := VInt 0]}) () <> None.
Proof. vm_compute. discriminate. Qed.
