(* ===== verification/Store.v ===== *)
(** * The in-memory key-value store (store/memory.go)

    The state is the struct's maps; every method holds the store's lock for its
    whole body.  [now] is the instant [time.Now()] gives, in nanoseconds.  The
    vector index and the filter language of [SearchItems] are not modelled. *)

From S2P Require Import Prelude GoValue Errors.
Local Open Scope Z_scope.

Definition bar : Ascii.ascii := Ascii.ascii_of_N 124.

(* internal/harness/graph/store/memory.go:15-24 InMemoryStore *)
Record InMemoryStore := {
  s_data : gmap string (gmap string (gmap string value));
  s_ttl : gmap string Z;
  s_closed : bool;
}.

(* internal/harness/graph/store/memory.go:28-40 NewInMemoryStore *)
Definition NewInMemoryStore : InMemoryStore := {| s_data := ∅; s_ttl := ∅; s_closed := false |}.

Definition store_closed : error := StoreError "store is closed" "".

(** [ErrNone] or an error, and the store afterwards. *)
Definition with_data (s : InMemoryStore) d : InMemoryStore :=
  {| s_data := d; s_ttl := s_ttl s; s_closed := s_closed s |}.
Definition with_ttl (s : InMemoryStore) t : InMemoryStore :=
  {| s_data := s_data s; s_ttl := t; s_closed := s_closed s |}.

(* internal/harness/graph/store/memory.go:570-572 InMemoryStore.nsKey *)
Definition nsKey (namespace : list string) : string := join_with bar namespace.

(* internal/harness/graph/store/memory.go:574-576 InMemoryStore.fullKey *)
Definition fullKey (ns key : string) : string := ns +:+ String colon key.

(* internal/harness/graph/store/memory.go:578-583 InMemoryStore.checkTTL *)
Definition checkTTL (now : Z) (s : InMemoryStore) (fk : string) : bool :=
  match s_ttl s !! fk with Some expiry => bool_decide (now < expiry) | None => true end.

(* internal/harness/graph/store/memory.go:585-591 InMemoryStore.copyValue *)
Definition copyValue `{MapOrder} (v : gmap string value) : gmap string value := copy_loop id v ∅.

Definition ns_data (s : InMemoryStore) (ns : string) : gmap string (gmap string value) :=
  default ∅ (s_data s !! ns).

(** The entry of a key that has not expired. *)
Definition live_value (now : Z) (s : InMemoryStore) (ns key : string) : option (gmap string value) :=
  if checkTTL now s (fullKey ns key) then ns_data s ns !! key else None.

(* internal/harness/graph/store/memory.go:43-64 InMemoryStore.Get *)
Definition Store_Get `{MapOrder} (now : Z) (s : InMemoryStore) (namespace : list string) (key : string)
    : error + option (gmap string value) :=
  if s_closed s then inl store_closed else
  match s_data s !! nsKey namespace with
  | Some nsData =>
      if checkTTL now s (fullKey (nsKey namespace) key) then inr (copyValue <$> nsData !! key)
      else inr None
  | None => inr None
  end.

(** [s.data[nsKey][key] = copyValue(value)], creating the namespace. *)
Definition store_value `{MapOrder} (s : InMemoryStore) (ns key : string) (v : gmap string value)
    : InMemoryStore :=
  with_data s (<[ns := <[key := copyValue v]> (ns_data s ns)]> (s_data s)).

(* internal/harness/graph/store/memory.go:67-83 InMemoryStore.Put *)
Definition Store_Put `{MapOrder} (s : InMemoryStore) (namespace : list string) (key : string)
    (v : gmap string value) : error + InMemoryStore :=
  if s_closed s then inl store_closed else inr (store_value s (nsKey namespace) key v).

(* internal/harness/graph/store/memory.go:86-102 InMemoryStore.Delete *)
Definition Store_Delete (s : InMemoryStore) (namespace : list string) (key : string)
    : error + InMemoryStore :=
  if s_closed s then inl store_closed else
  match s_data s !! nsKey namespace with
  | Some nsData =>
      inr {| s_data := <[nsKey namespace := delete key nsData]> (s_data s);
             s_ttl := delete (fullKey (nsKey namespace) key) (s_ttl s); s_closed := s_closed s |}
  | None => inr s
  end.

(** A result list is cut when it has reached a positive limit. *)
Definition cut {A} (limit : Z) (l : list A) : list A :=
  if decide (0 < limit) then take (Z.to_nat limit) l else l.

Section search.
(** [matches] is matchQuery's test of one string against the query,
    [strings.Contains] of the lower-cased texts. *)
Context `{MapOrder} (matches : string → string → bool).

(* internal/harness/graph/store/memory.go:593-604 InMemoryStore.matchQuery *)
Definition matchQuery (v : gmap string value) (query : string) : bool :=
  existsb (λ kv, match kv.2 with VStr str => matches str query | _ => false end) (range v).

(* internal/harness/graph/store/memory.go:105-136 InMemoryStore.Search *)
Definition Store_Search (now : Z) (s : InMemoryStore) (namespace : list string) (query : string)
    (limit : Z) : error + list (gmap string value) :=
  if s_closed s then inl store_closed else
  let ns := nsKey namespace in
  inr (cut limit (omap (λ kv,
         if checkTTL now s (fullKey ns kv.1) && (bool_decide (query = "") || matchQuery kv.2 query)
         then Some (copyValue kv.2) else None) (range (ns_data s ns)))).
End search.

(* internal/harness/graph/store/memory.go:139-165 InMemoryStore.List *)
Definition Store_List `{MapOrder} (now : Z) (s : InMemoryStore) (namespace : list string) (limit : Z)
    : error + list string :=
  if s_closed s then inl store_closed else
  let ns := nsKey namespace in
  inr (cut limit (filter (λ key, checkTTL now s (fullKey ns key) = true) (range (ns_data s ns)).*1)).

(* internal/harness/graph/store/base.go:127-131 PutOperation *)
Record PutOperation := { po_Namespace : list string; po_Key : string; po_Value : gmap string value }.

(* internal/harness/graph/store/memory.go:252-269 InMemoryStore.BatchPut *)
Definition BatchPut `{MapOrder} (s : InMemoryStore) (ops : list PutOperation)
    : error + InMemoryStore :=
  if s_closed s then inl store_closed else
  inr (foldl (λ s op, store_value s (nsKey (po_Namespace op)) (po_Key op) (po_Value op)) s ops).

(* internal/harness/graph/store/memory.go:272-288 InMemoryStore.SetTTL *)
Definition SetTTL (now : Z) (s : InMemoryStore) (namespace : list string) (key : string) (ttl : Z)
    : error + InMemoryStore :=
  if s_closed s then inl store_closed else
  if decide (ttl ≤ 0) then inr s else
  inr (with_ttl s (<[fullKey (nsKey namespace) key := now + ttl]> (s_ttl s))).

(** ** Namespaces *)

(* internal/harness/graph/store/base.go:107-110 MatchCondition *)
Record MatchCondition := { mc_MatchType : string; mc_Path : list string }.

(** Only the first prefix or suffix condition decides. *)
(* internal/harness/graph/store/memory.go:510-539 InMemoryStore.matchNamespaceConditions *)
Fixpoint match_conditions (namespace : list string) (conditions : list MatchCondition) : bool :=
  match conditions with
  | [] => false
  | cond :: rest =>
      if decide (mc_MatchType cond = "prefix") then
        bool_decide (mc_Path cond = take (length (mc_Path cond)) namespace)
      else if decide (mc_MatchType cond = "suffix") then
        bool_decide (mc_Path cond = drop (length namespace - length (mc_Path cond)) namespace)
      else match_conditions namespace rest
  end.
Definition matchNamespaceConditions (namespace : list string) (conditions : list MatchCondition) : bool :=
  match conditions with [] => true | _ => match_conditions namespace conditions end.

(** Every prefix of every namespace, under its joined name. *)
Definition namespace_set `{MapOrder} (s : InMemoryStore) : gmap string (list string) :=
  foldl (λ acc nd,
    let parts := split_on bar nd.1 in
    foldl (λ acc i, let prefix := join_with bar (take i parts) in
                    match acc !! prefix with Some _ => acc | None => <[prefix := take i parts]> acc end)
      acc (seq 1 (length parts)))
    ∅ (range (s_data s)).

(** A slice expression out of range panics. *)
(* internal/harness/graph/store/memory.go:456-507 InMemoryStore.ListNamespaces(part) *)
Definition ListNamespaces `{MapOrder} (s : InMemoryStore) (conditions : list MatchCondition)
    (maxDepth : option Z) (limit offset : Z) : go (error + list (list string)) :=
  if s_closed s then Ret (inl store_closed) else
  let filtered := filter (λ ns, matchNamespaceConditions ns conditions = true)
                    (range (namespace_set s)).*2 in
  let filtered := match maxDepth with
                  | Some d => filter (λ ns, Z.of_nat (length ns) ≤ d) filtered
                  | None => filtered end in
  if decide (0 < offset) then
    if decide (offset ≤ Z.of_nat (length filtered)) then
      let filtered := drop (Z.to_nat offset) filtered in
      Ret (inr (if decide (0 < limit ∧ limit < Z.of_nat (length filtered))
                then take (Z.to_nat limit) filtered else filtered))
    else Panic
  else
    Ret (inr (if decide (0 < limit ∧ limit < Z.of_nat (length filtered))
              then take (Z.to_nat limit) filtered else filtered)).

(** ** Maintenance *)

(* internal/harness/graph/store/memory.go:542-550 InMemoryStore.Clear *)
Definition Store_Clear (s : InMemoryStore) : InMemoryStore :=
  {| s_data := ∅; s_ttl := ∅; s_closed := s_closed s |}.

(* internal/harness/graph/store/memory.go:553-566 InMemoryStore.Close *)
Definition Store_Close (s : InMemoryStore) : InMemoryStore :=
  {| s_data := s_data s; s_ttl := s_ttl s; s_closed := true |}.

(** One expired entry: its data is removed only when the full key splits into
    exactly two parts; its expiry is always removed. *)
Definition expire_entry (s : InMemoryStore) (fk : string) : InMemoryStore :=
  let data :=
    match split_on colon fk with
    | [ns; key] =>
        match s_data s !! ns with
        | Some nsData =>
            let nsData' := delete key nsData in
            if decide (size nsData' = 0%nat) then delete ns (s_data s)
            else <[ns := nsData']> (s_data s)
        | None => s_data s
        end
    | _ => s_data s
    end in
  {| s_data := data; s_ttl := delete fk (s_ttl s); s_closed := s_closed s |}.

(** One tick of the clean-up goroutine. *)
(* internal/harness/graph/store/memory.go:756-792 InMemoryStore.cleanupExpired *)
Definition cleanupExpired `{MapOrder} (now : Z) (s : InMemoryStore) : InMemoryStore :=
  foldl (λ s fe, if decide (fe.2 < now) then expire_entry s fe.1 else s) s (range (s_ttl s)).

(** ** Lemmas *)

Lemma copyValue_id `{MapOrder} v : copyValue v = v.
Proof. apply copy_loop_id. Qed.

Lemma Store_Get_live `{MapOrder} now s ns key :
  s_closed s = false → Store_Get now s ns key = inr (live_value now s (nsKey ns) key).
Proof.
  intros Hc. unfold Store_Get, live_value, ns_data. rewrite Hc.
  destruct (s_data s !! nsKey ns) as [d|] eqn:E; cbn.
  - destruct (checkTTL _ _ _); [|done]. f_equal. destruct (d !! key); [|done]. cbn. by rewrite copyValue_id.
  - rewrite lookup_empty. by destruct (checkTTL _ _ _).
Qed.

Lemma ns_data_store `{MapOrder} s ns key v ns' key' :
  ns_data (store_value s ns key v) ns' !! key' =
    if decide (ns' = ns ∧ key' = key) then Some v else ns_data s ns' !! key'.
Proof.
  unfold store_value, ns_data, with_data. cbn. rewrite copyValue_id.
  destruct (decide (ns' = ns)) as [->|Hn].
  - rewrite lookup_insert_eq. cbn. destruct (decide (key' = key)) as [->|Hk].
    + rewrite lookup_insert_eq. by rewrite decide_True.
    + rewrite lookup_insert_ne by done. by rewrite decide_False by naive_solver.
  - rewrite lookup_insert_ne by done. by rewrite decide_False by naive_solver.
Qed.

Lemma live_value_store `{MapOrder} now s ns key v ns' key' :
  live_value now (store_value s ns key v) ns' key' =
    if decide (ns' = ns ∧ key' = key)
    then if checkTTL now s (fullKey ns key) then Some v else None
    else live_value now s ns' key'.
Proof.
  unfold live_value. rewrite ns_data_store.
  change (checkTTL now (store_value s ns key v) (fullKey ns' key')) with (checkTTL now s (fullKey ns' key')).
  case_decide as Hd; [by destruct Hd as [-> ->]|done].
Qed.

(** The last operation of a batch on an entry. *)
Definition last_put (ops : list PutOperation) (ns key : string) : option (gmap string value) :=
  po_Value <$> last (filter (λ op, nsKey (po_Namespace op) = ns ∧ po_Key op = key) ops).

Lemma batch_ttl `{MapOrder} ops s :
  s_ttl (foldl (λ s op, store_value s (nsKey (po_Namespace op)) (po_Key op) (po_Value op)) s ops) = s_ttl s.
Proof. revert s. induction ops as [|op ops IH]; intros s; [done|]. cbn [foldl]. by rewrite IH. Qed.

Lemma batch_lookup `{MapOrder} ops s ns key :
  ns_data (foldl (λ s op, store_value s (nsKey (po_Namespace op)) (po_Key op) (po_Value op)) s ops) ns !! key =
    match last_put ops ns key with Some v => Some v | None => ns_data s ns !! key end.
Proof.
  induction ops as [|op ops IH] using rev_ind; [done|].
  rewrite foldl_snoc, ns_data_store, IH. unfold last_put. rewrite filter_snoc.
  destruct (decide (ns = nsKey (po_Namespace op) ∧ key = po_Key op)) as [[-> ->]|Hn].
  - rewrite decide_True by done. by rewrite last_snoc.
  - by rewrite decide_False by naive_solver.
Qed.

(** ** Expiry *)

Definition one_colon (fk : string) : Prop := length (split_on colon fk) = 2%nat.

(** A full key with one colon has one decomposition. *)
Lemma full_key_unique fk ns0 key0 ns key :
  split_on colon fk = [ns0; key0] → fullKey ns key = fk → ns = ns0 ∧ key = key0.
Proof.
  intros Hs <-. unfold fullKey in Hs. rewrite split_on_join2 in Hs.
  pose proof (split_on_not_nil colon ns). pose proof (split_on_not_nil colon key).
  pose proof (join_split colon ns) as Hn. pose proof (join_split colon key) as Hk.
  destruct (split_on colon ns) as [|x [|? [|]]], (split_on colon key) as [|y [|? [|]]]; simplify_eq/=; done.
Qed.

Lemma expire_entry_live now now' s fk expiry ns key :
  one_colon fk → s_ttl s !! fk = Some expiry → expiry < now → now ≤ now' →
  live_value now' (expire_entry s fk) ns key = live_value now' s ns key.
Proof.
  intros H1 Ht He Hn. unfold one_colon in H1.
  destruct (split_on colon fk) as [|ns0 [|key0 [|]]] eqn:Es; try done.
  assert (Hfk : fullKey ns0 key0 = fk) by (by rewrite <- (join_split colon fk), Es).
  assert (Hd : ns_data (expire_entry s fk) ns !! key =
    if decide (ns = ns0 ∧ key = key0) then None else ns_data s ns !! key).
  { unfold expire_entry, ns_data. rewrite Es. cbn [s_data].
    destruct (s_data s !! ns0) as [d|] eqn:Ed.
    - destruct (decide (ns = ns0)) as [->|Hne].
      + rewrite Ed. cbn [default]. case_decide as Hz.
        * rewrite lookup_delete_eq. cbn. apply map_size_empty_inv in Hz.
          case_decide as Hk; [done|]. rewrite lookup_empty. symmetry.
          assert (delete key0 d !! key = None) as Hl by (by rewrite Hz).
          rewrite lookup_delete_ne in Hl by naive_solver. done.
        * rewrite lookup_insert_eq. cbn. case_decide as Hk.
          -- destruct Hk as [_ ->]. apply lookup_delete_eq.
          -- apply lookup_delete_ne. naive_solver.
      + rewrite (decide_False (P := ns = ns0 ∧ key = key0)) by naive_solver.
        case_decide; [by rewrite lookup_delete_ne|by rewrite lookup_insert_ne].
    - case_decide as Hk; [destruct Hk as [-> ->]; by rewrite Ed|done]. }
  unfold live_value. rewrite Hd. unfold checkTTL, expire_entry. cbn [s_ttl].
  destruct (decide (fullKey ns key = fk)) as [Heq|Hne].
  - destruct (full_key_unique _ _ _ _ _ Es Heq) as [-> ->].
    rewrite decide_True by done. rewrite Heq, Ht, lookup_delete_eq.
    rewrite bool_decide_eq_false_2 by lia. done.
  - rewrite lookup_delete_ne by done. case_decide as Hk; [destruct Hk as [-> ->]; by rewrite Hfk in Hne|done].
Qed.

Lemma cleanup_loop_live now now' ns key l s :
  NoDup l.*1 → (∀ fk e, (fk, e) ∈ l → s_ttl s !! fk = Some e ∧ one_colon fk) → now ≤ now' →
  live_value now' (foldl (λ s fe, if decide (fe.2 < now) then expire_entry s fe.1 else s) s l) ns key =
    live_value now' s ns key.
Proof.
  intros Hnd Hl Hn. revert s Hl. induction l as [|[fk e] l IH]; intros s Hl; [done|].
  cbn [fmap list_fmap fst] in Hnd. apply NoDup_cons in Hnd as [Hni Hnd].
  destruct (Hl fk e ltac:(left)) as [Ht Hc]. cbn [foldl fst snd]. rewrite IH; [|done|].
  - case_decide; [|done]. by eapply expire_entry_live.
  - intros fk' e' Hin. destruct (Hl fk' e' ltac:(by right)) as [Ht' Hc']. split; [|done].
    case_decide; [|done]. unfold expire_entry. cbn [s_ttl]. rewrite lookup_delete_ne; [done|].
    intros ->. apply Hni, list_elem_of_fmap. by exists (fk', e').
Qed.
