(* ===== verification/Cache.v ===== *)
(** * The node cache (pregel/cache.go)

    Instants are nanoseconds; [zero_instant] is the zero [time.Time].  Every
    method holds the cache's lock. *)

From S2P Require Import Prelude GoValue Errors StateGraph Retry.
Local Open Scope Z_scope.

Definition zero_instant : Z := unix_nano zero_time.

(* internal/harness/graph/pregel/cache.go:36-41 cacheEntry *)
Record cacheEntry := {
  ce_value : value;
  ce_expiration : Z;
  ce_lastAccess : Z;
  ce_hits : Z;
}.

(* internal/harness/graph/pregel/cache.go:44-44 EvictionPolicy *)
Inductive EvictionPolicy := EvictLRU | EvictLFU | EvictRandom.

(* internal/harness/graph/pregel/cache.go:29-34 MemoryCache *)
Record MemoryCache := {
  mc_data : gmap string cacheEntry;
  mc_maxSize : Z;
  mc_eviction : EvictionPolicy;
}.

(* internal/harness/graph/pregel/cache.go:56-62 NewMemoryCache *)
Definition NewMemoryCache (maxSize : Z) (eviction : EvictionPolicy) : MemoryCache :=
  {| mc_data := ∅; mc_maxSize := maxSize; mc_eviction := eviction |}.

Definition with_entries (c : MemoryCache) d : MemoryCache :=
  {| mc_data := d; mc_maxSize := mc_maxSize c; mc_eviction := mc_eviction c |}.

Definition expired (now : Z) (entry : cacheEntry) : bool :=
  negb (bool_decide (ce_expiration entry = zero_instant)) && bool_decide (ce_expiration entry < now).

(* internal/harness/graph/pregel/cache.go:65-82 MemoryCache.Get *)
Definition Cache_Get (now : Z) (c : MemoryCache) (key : string) : MemoryCache * option value :=
  match mc_data c !! key with
  | None => (c, None)
  | Some entry =>
      if expired now entry then (c, None) else
      (with_entries c (<[key := {| ce_value := ce_value entry; ce_expiration := ce_expiration entry;
                                   ce_lastAccess := now; ce_hits := int_add (ce_hits entry) 1 |}]> (mc_data c)),
       Some (ce_value entry))
  end.

(** The scans of [evict]: the key found so far and the bound it has. *)
Definition scan_lru (acc : string * Z) (kv : string * cacheEntry) : string * Z :=
  if decide (acc.2 = zero_instant ∨ ce_lastAccess kv.2 < acc.2)
  then (kv.1, ce_lastAccess kv.2) else acc.
Definition scan_lfu (acc : string * Z) (kv : string * cacheEntry) : string * Z :=
  if decide (acc.2 = -1 ∨ ce_hits kv.2 < acc.2) then (kv.1, ce_hits kv.2) else acc.

Definition victim `{MapOrder} (c : MemoryCache) : string :=
  match mc_eviction c with
  | EvictLRU => (foldl scan_lru ("", zero_instant) (range (mc_data c))).1
  | EvictLFU => (foldl scan_lfu ("", -1) (range (mc_data c))).1
  | EvictRandom => default "" (fst <$> head (range (mc_data c)))
  end.

(* internal/harness/graph/pregel/cache.go:122-159 MemoryCache.evict *)
Definition evict `{MapOrder} (c : MemoryCache) : MemoryCache :=
  if decide (size (mc_data c) = 0%nat) then c else
  if decide (victim c = "") then c else with_entries c (delete (victim c) (mc_data c)).

(* internal/harness/graph/pregel/cache.go:85-105 MemoryCache.Set *)
Definition Cache_Set `{MapOrder} (now : Z) (c : MemoryCache) (key : string) (v : value) (ttl : Z)
    : MemoryCache :=
  let c := if decide (mc_maxSize c ≤ Z.of_nat (size (mc_data c))) then evict c else c in
  with_entries c (<[key := {| ce_value := v;
                              ce_expiration := if decide (0 < ttl) then now + ttl else zero_instant;
                              ce_lastAccess := now; ce_hits := 0 |}]> (mc_data c)).

(* internal/harness/graph/pregel/cache.go:108-112 MemoryCache.Delete *)
Definition Cache_Delete (c : MemoryCache) (key : string) : MemoryCache :=
  with_entries c (delete key (mc_data c)).

(* internal/harness/graph/pregel/cache.go:115-119 MemoryCache.Clear *)
Definition Cache_Clear (c : MemoryCache) : MemoryCache := with_entries c ∅.

(** [marshal] is [json.Marshal], [digest] the hexadecimal SHA-256 and [typ] the verb [%T]. *)
(* internal/harness/graph/pregel/cache.go:162-170 GenerateCacheKey *)
Definition GenerateCacheKey (marshal : value → option string) (digest : string → string)
    (typ : value → string) (nodeName : string) (input : value) : string :=
  match marshal input with
  | None => nodeName +:+ String colon (typ input)
  | Some data => nodeName +:+ String colon (digest data)
  end.

(** The [KeyFunc] ignores its context here; no TTL is [None]. *)
(* internal/harness/graph/types/types.go:122-128 CachePolicy *)
Record CachePolicy := { cap_KeyFunc : option (value → string); cap_TTL : option Z }.

Definition cache_key (marshal : value → option string) (digest : string → string)
    (typ : value → string) (policy : option CachePolicy) (nodeName : string) (input : value) : string :=
  match policy ≫= cap_KeyFunc with
  | Some keyFunc => keyFunc input
  | None => GenerateCacheKey marshal digest typ nodeName input
  end.
Definition cache_ttl (policy : option CachePolicy) : Z := default 0 (policy ≫= cap_TTL).

(** [fn] acts on the world [W]; the two calls of the cache read the clock at
    [now1] and [now2]; a panic of [fn] passes through. *)
(* internal/harness/graph/pregel/cache.go:187-215 CachedExecutor.Execute *)
Definition Cached_Execute `{MapOrder} (marshal : value → option string) (digest : string → string)
    (typ : value → string) {W} (policy : option CachePolicy) (now1 now2 : Z) (c : MemoryCache)
    (nodeName : string) (input : value) (fn : value → W → outcome * W) (w : W)
    : MemoryCache * outcome * W :=
  let key := cache_key marshal digest typ policy nodeName input in
  match Cache_Get now1 c key with
  | (c, Some cached) => (c, Returns cached None, w)
  | (c, None) =>
      match fn input w with
      | (Returns result None, w) =>
          (Cache_Set now2 c key result (cache_ttl policy), Returns result None, w)
      | (Returns _ (Some err), w) => (c, Returns VNil (Some err), w)
      | (Panics r, w) => (c, Panics r, w)
      end
  end.

(** ** Lemmas *)

Section eviction.
Context `{MO : MapOrder}.

(** A scan that starts from the sentinel returns a key of the list. *)
Lemma scan_key (scan : string * Z → string * cacheEntry → string * Z) l acc :
  (∀ acc kv, (scan acc kv).1 = acc.1 ∨ (scan acc kv).1 = kv.1) →
  (foldl scan acc l).1 = acc.1 ∨ (foldl scan acc l).1 ∈ l.*1.
Proof.
  intros Hs. revert acc. induction l as [|kv l IH]; intros acc; [by left|]. cbn [foldl].
  destruct (IH (scan acc kv)) as [->|Hin].
  - destruct (Hs acc kv) as [->| ->]; [by left|right; cbn; left].
  - right. cbn. by right.
Qed.

Lemma scan_lru_key acc kv : (scan_lru acc kv).1 = acc.1 ∨ (scan_lru acc kv).1 = kv.1.
Proof. unfold scan_lru. case_decide; [by right|by left]. Qed.
Lemma scan_lfu_key acc kv : (scan_lfu acc kv).1 = acc.1 ∨ (scan_lfu acc kv).1 = kv.1.
Proof. unfold scan_lfu. case_decide; [by right|by left]. Qed.

(** The first element is always taken, so the victim is a key of the cache. *)
Lemma victim_key c : mc_data c ≠ ∅ → is_Some (mc_data c !! victim c).
Proof.
  intros Hne. apply elem_of_range_keys. unfold victim.
  assert (Hr : range (mc_data c) ≠ []) by (by intros ?%range_nil_inv).
  destruct (range (mc_data c)) as [|kv l]; [done|].
  destruct (mc_eviction c).
  - cbn [foldl]. assert (scan_lru ("", zero_instant) kv = (kv.1, ce_lastAccess kv.2)) as ->.
    { unfold scan_lru. rewrite decide_True by (by left). done. }
    destruct (scan_key scan_lru l (kv.1, ce_lastAccess kv.2) scan_lru_key) as [->|Hin]; cbn; [left|by right].
  - cbn [foldl]. assert (scan_lfu ("", -1) kv = (kv.1, ce_hits kv.2)) as ->.
    { unfold scan_lfu. rewrite decide_True by (by left). done. }
    destruct (scan_key scan_lfu l (kv.1, ce_hits kv.2) scan_lfu_key) as [->|Hin]; cbn; [left|by right].
  - cbn. left.
Qed.

(** The invariant: the bound, and no entry under the empty key. *)
Definition cache_ok (c : MemoryCache) : Prop :=
  Z.of_nat (size (mc_data c)) ≤ Z.max 1 (mc_maxSize c) ∧ mc_data c !! "" = None.

Lemma evict_size c :
  cache_ok c → mc_data c ≠ ∅ → S (size (mc_data (evict c))) = size (mc_data c).
Proof.
  intros [_ He] Hne. unfold evict. rewrite decide_False by (by intros ?%map_size_empty_iff).
  destruct (victim_key c Hne) as [entry Hv]. rewrite decide_False.
  - cbn. rewrite map_size_delete_Some by eauto. apply map_size_non_empty_iff in Hne. lia.
  - intros Hn. by rewrite Hn, He in Hv.
Qed.

Lemma evict_no_empty c : mc_data c !! "" = None → mc_data (evict c) !! "" = None.
Proof.
  intros He. unfold evict. repeat case_decide; [done..|]. cbn. by apply lookup_delete_None; right.
Qed.

Lemma Cache_Set_ok now c key v ttl : cache_ok c → key ≠ "" → cache_ok (Cache_Set now c key v ttl).
Proof.
  intros Hok Hk. pose proof Hok as [Hs He]. unfold Cache_Set. case_decide as Hd.
  - split; [|cbn; rewrite lookup_insert_ne by done; by apply evict_no_empty].
    cbn [mc_data with_entries mc_maxSize].
    assert (Hm : mc_maxSize (evict c) = mc_maxSize c) by (unfold evict; by repeat case_decide).
    rewrite Hm, map_size_insert.
    destruct (decide (mc_data c = ∅)) as [Hem|Hne].
    + assert (evict c = c) as -> by (unfold evict; rewrite Hem, map_size_empty; done).
      rewrite Hem, lookup_empty, map_size_empty. lia.
    + pose proof (evict_size c Hok Hne). destruct (mc_data (evict c) !! key); unfold id; lia.
  - split; [|cbn; by rewrite lookup_insert_ne].
    cbn. rewrite map_size_insert. destruct (mc_data c !! key); unfold id; lia.
Qed.

Lemma Cache_Get_ok now c key : cache_ok c → cache_ok (Cache_Get now c key).1.
Proof.
  intros [Hs He]. unfold Cache_Get. destruct (mc_data c !! key) as [entry|] eqn:E; [|done].
  destruct (expired now entry); [done|]. split; cbn.
  - rewrite map_size_insert, E. unfold id. lia.
  - destruct (decide (key = "")) as [->|]; [by rewrite He in E|]. by rewrite lookup_insert_ne.
Qed.

Lemma Cache_Delete_ok c key : cache_ok c → cache_ok (Cache_Delete c key).
Proof.
  intros [Hs He]. split; cbn.
  - rewrite map_size_delete. destruct (mc_data c !! key); unfold id; lia.
  - apply lookup_delete_None. by right.
Qed.
End eviction.

(** ** Runs of a cache *)

Inductive cache_op :=
  | OpGet (now : Z) (key : string)
  | OpSet (now : Z) (key : string) (v : value) (ttl : Z)
  | OpDelete (key : string)
  | OpClear.

Definition cache_step `{MapOrder} (c : MemoryCache) (op : cache_op) : MemoryCache :=
  match op with
  | OpGet now key => (Cache_Get now c key).1
  | OpSet now key v ttl => Cache_Set now c key v ttl
  | OpDelete key => Cache_Delete c key
  | OpClear => Cache_Clear c
  end.

Definition named_op (op : cache_op) : Prop :=
  match op with OpSet _ key _ _ => key ≠ "" | _ => True end.
#[export] Instance named_op_dec op : Decision (named_op op).
Proof. destruct op; apply _. Defined.

Lemma cache_step_ok `{MapOrder} c op : named_op op → cache_ok c → cache_ok (cache_step c op).
Proof.
  intros Hn Hok. destruct op; cbn.
  - by apply Cache_Get_ok.
  - by apply Cache_Set_ok.
  - by apply Cache_Delete_ok.
  - split; cbn; [rewrite map_size_empty; lia|apply lookup_empty].
Qed.

Lemma cache_step_maxSize `{MapOrder} c op : mc_maxSize (cache_step c op) = mc_maxSize c.
Proof.
  destruct op; cbn; [|unfold Cache_Set, evict; by repeat case_decide|done..].
  unfold Cache_Get. by repeat case_match.
Qed.

Lemma cache_run_ok `{MapOrder} ops c :
  Forall named_op ops → cache_ok c →
  cache_ok (foldl cache_step c ops) ∧ mc_maxSize (foldl cache_step c ops) = mc_maxSize c.
Proof.
  intros Hn. revert c. induction Hn as [|op ops Hop Hops IH]; intros c Hok; [done|].
  cbn [foldl]. destruct (IH (cache_step c op)) as [? ->]; [by apply cache_step_ok|].
  by rewrite cache_step_maxSize.
Qed.

(** What [Set] stored is found until it expires. *)
Lemma Cache_Get_Set `{MapOrder} now c key v ttl now' :
  ttl ≤ 0 ∨ now' ≤ now + ttl →
  (Cache_Get now' (Cache_Set now c key v ttl) key).2 = Some v.
Proof.
  intros Ht. unfold Cache_Get, Cache_Set. cbn [mc_data with_entries]. rewrite lookup_insert_eq.
  assert (expired now' {| ce_value := v; ce_expiration := if decide (0 < ttl) then now + ttl else zero_instant;
            ce_lastAccess := now; ce_hits := 0 |} = false) as ->; [|done].
  unfold expired. cbn [ce_expiration]. apply andb_false_iff.
  case_decide; [right; apply bool_decide_eq_false; lia|left; by rewrite bool_decide_eq_true_2].
Qed.

Lemma Cache_Get_miss now c key : (Cache_Get now c key).2 = None → Cache_Get now c key = (c, None).
Proof. unfold Cache_Get. repeat case_match; naive_solver. Qed.
