(* ===== verification/PriorityQueue.v ===== *)
(** * The priority queue of background tasks (pregel/background.go)

    A binary heap in a slice.  An index out of range panics; the two loops take
    fuel ([None] when it is exhausted), which the theorems show to suffice. *)

From S2P Require Import Prelude.
From Stdlib Require Import ZifyNat.

#[local] Ltac Zify.zify_post_hook ::= Z.to_euclidean_division_equations.

(** [bt_rest] is what the queue does not look at: the function, the context,
    the channel of the result and the time of creation. *)
(* internal/harness/graph/pregel/background.go:14-23 BackgroundTask *)
Record BackgroundTask {R : Type} := {
  bt_ID : string;
  bt_Name : string;
  bt_Priority : Z;
  bt_rest : R;
}.
Arguments BackgroundTask : clear implicits.

Section queue.
Context {R : Type}.
Notation tasks := (list (BackgroundTask R)).

(** [a[i], a[j] = a[j], a[i]]. *)
Definition swap (l : tasks) (i j : nat) : go tasks :=
  match l !! i, l !! j with
  | Some x, Some y => Ret (<[j := x]> (<[i := y]> l))
  | _, _ => Panic
  end.

Fixpoint up_loop (fuel : nat) (l : tasks) (index : nat) : option (go tasks) :=
  match fuel with
  | O => None
  | S fuel' =>
      if decide (index = 0) then Some (Ret l) else
      let parent := (index - 1) / 2 in
      match l !! parent, l !! index with
      | Some p, Some t =>
          if decide (bt_Priority t ≤ bt_Priority p)%Z then Some (Ret l)
          else match swap l parent index with
               | Ret l' => up_loop fuel' l' parent
               | Panic => Some Panic
               end
      | _, _ => Some Panic
      end
  end.

(* internal/harness/graph/pregel/background.go:305-314 PriorityQueue.heapifyUp *)
Definition heapifyUp (l : tasks) (index : nat) : option (go tasks) := up_loop (S index) l index.

(** [if child < n && tasks[child].Priority > tasks[largest].Priority]. *)
Definition larger (l : tasks) (child largest : nat) : nat :=
  match l !! child, l !! largest with
  | Some c, Some t => if decide (bt_Priority t < bt_Priority c)%Z then child else largest
  | _, _ => largest
  end.

Fixpoint down_loop (fuel : nat) (l : tasks) (index : nat) : option (go tasks) :=
  match fuel with
  | O => None
  | S fuel' =>
      let largest := larger l (2 * index + 2) (larger l (2 * index + 1) index) in
      if decide (largest = index) then Some (Ret l)
      else match swap l index largest with
           | Ret l' => down_loop fuel' l' largest
           | Panic => Some Panic
           end
  end.

(* internal/harness/graph/pregel/background.go:317-336 PriorityQueue.heapifyDown *)
Definition heapifyDown (l : tasks) (index : nat) : option (go tasks) := down_loop (S (length l)) l index.

(* internal/harness/graph/pregel/background.go:262-266 NewPriorityQueue *)
Definition NewPriorityQueue : tasks := [].

(* internal/harness/graph/pregel/background.go:269-275 PriorityQueue.Push *)
Definition Push (l : tasks) (task : BackgroundTask R) : option (go tasks) :=
  let l' := l ++ [task] in heapifyUp l' (length l' - 1).

(* internal/harness/graph/pregel/background.go:278-295 PriorityQueue.Pop *)
Definition Pop (l : tasks) : option (go (option (BackgroundTask R * tasks))) :=
  match l, last l with
  | task :: _, Some t =>
      let l' := take (length l - 1) (<[0 := t]> l) in
      if decide (0 < length l') then
        match heapifyDown l' 0 with
        | Some (Ret l') => Some (Ret (Some (task, l')))
        | Some Panic => Some Panic
        | None => None
        end
      else Some (Ret (Some (task, l')))
  | _, _ => Some (Ret None)
  end.

(* internal/harness/graph/pregel/background.go:298-302 PriorityQueue.Len *)
Definition PQ_Len (l : tasks) : nat := length l.

(** ** The heap invariant, on the priorities by index *)

Definition parent (i : nat) : nat := (i - 1) / 2.

(** The priority at an index; only used in range. *)
Definition prio (l : tasks) (i : nat) : Z := default 0%Z (bt_Priority <$> l !! i).

Definition heap (l : tasks) : Prop :=
  ∀ i, 0 < i < length l → (prio l i ≤ prio l (parent i))%Z.

(** A heap but for the place of [index] among its ancestors, respectively
    among its descendants. *)
Definition heap_up (l : tasks) (index : nat) : Prop :=
  (∀ i, 0 < i < length l → i ≠ index → (prio l i ≤ prio l (parent i))%Z) ∧
  (∀ i, 0 < i < length l → parent i = index → 0 < index → (prio l i ≤ prio l (parent index))%Z).
Definition heap_down (l : tasks) (index : nat) : Prop :=
  (∀ i, 0 < i < length l → parent i ≠ index → (prio l i ≤ prio l (parent i))%Z) ∧
  (∀ i, 0 < i < length l → parent i = index → 0 < index → (prio l i ≤ prio l (parent index))%Z).

Lemma swap_spec l i j :
  i < length l → j < length l →
  ∃ l', swap l i j = Ret l' ∧ l' ≡ₚ l ∧ length l' = length l
    ∧ ∀ k, prio l' k = if decide (k = j) then prio l i else if decide (k = i) then prio l j else prio l k.
Proof.
  intros Hi Hj. unfold swap.
  destruct (lookup_lt_is_Some_2 l i Hi) as [x Hx], (lookup_lt_is_Some_2 l j Hj) as [y Hy].
  rewrite Hx, Hy. eexists; split; [done|]. split; [|split].
  - destruct (decide (i = j)) as [->|Hne].
    + simplify_eq. by rewrite list_insert_insert_eq, list_insert_id.
    + by apply Permutation_insert_swap.
  - by rewrite !length_insert.
  - intros k. unfold prio. repeat case_decide; subst.
    + rewrite list_lookup_insert_eq by (by rewrite length_insert). by rewrite Hx.
    + rewrite list_lookup_insert_ne by done. rewrite list_lookup_insert_eq by done. by rewrite Hy.
    + by rewrite !list_lookup_insert_ne by done.
Qed.

Lemma larger_spec l child largest :
  largest < length l →
  let r := larger l child largest in
  r < length l ∧ (r = child ∨ r = largest) ∧ (prio l largest ≤ prio l r)%Z
  ∧ (child < length l → (prio l child ≤ prio l r)%Z)
  ∧ (r ≠ largest → (prio l largest < prio l r)%Z).
Proof.
  intros Hl. unfold larger, prio. destruct (lookup_lt_is_Some_2 l largest Hl) as [t Ht]. rewrite Ht.
  destruct (l !! child) as [c|] eqn:Hc.
  - pose proof (lookup_lt_Some _ _ _ Hc). case_decide; rewrite ?Hc, ?Ht; cbn; split_and!; (done || lia || auto).
  - apply lookup_ge_None in Hc. cbn. rewrite Ht. split_and!; (done || lia || auto).
Qed.

Lemma up_loop_spec fuel l index :
  index < fuel → index < length l → heap_up l index →
  ∃ l', up_loop fuel l index = Some (Ret l') ∧ l' ≡ₚ l ∧ heap l'.
Proof.
  revert l index. induction fuel as [|fuel IH]; intros l index Hf Hi [HA HB]; [lia|]. cbn [up_loop].
  destruct (decide (index = 0)) as [->|Hnz].
  { exists l. split_and!; [done..|]. intros i Hr. apply HA; lia. }
  fold (parent index). assert (Hp : parent index < index) by (unfold parent; lia).
  destruct (lookup_lt_is_Some_2 l (parent index)) as [p Hlp]; [lia|].
  destruct (lookup_lt_is_Some_2 l index Hi) as [t Hlt]. rewrite Hlp, Hlt.
  assert (Hpp : prio l (parent index) = bt_Priority p) by (unfold prio; by rewrite Hlp).
  assert (Hpt : prio l index = bt_Priority t) by (unfold prio; by rewrite Hlt).
  rewrite <- Hpp, <- Hpt. case_decide as Hle.
  { exists l. split_and!; [done..|]. intros i Hr. destruct (decide (i = index)) as [->|]; auto. }
  destruct (swap_spec l (parent index) index) as (l' & -> & Hperm & Hlen & Hsw); [lia..|].
  destruct (IH l' (parent index)) as (l'' & -> & Hp'' & Hheap); [lia..| |].
  - split; intros i Hr; rewrite Hlen in Hr.
    + intros Hne. rewrite !Hsw. destruct (decide (i = index)) as [->|Hni].
      * rewrite (decide_False (P := parent index = index)), (decide_True (P := parent index = parent index)) by lia. lia.
      * rewrite (decide_False (P := i = parent index)) by done.
        pose proof (HA i Hr Hni) as Hai. case_decide as Hc.
        -- apply HB; lia.
        -- case_decide as Hd; [|lia]. rewrite Hd in Hai. lia.
    + intros Hpi Hpos. rewrite !Hsw.
      assert (Hpar : parent (parent index) < parent index) by (unfold parent in *; lia).
      rewrite (decide_False (P := parent (parent index) = index)),
        (decide_False (P := parent (parent index) = parent index)) by lia.
      pose proof (HA (parent index) ltac:(lia) ltac:(lia)).
      destruct (decide (i = index)) as [->|Hni]; [lia|].
      rewrite (decide_False (P := i = parent index)) by (unfold parent in *; lia).
      pose proof (HA i Hr Hni) as Hai. rewrite Hpi in Hai. lia.
  - exists l''. split_and!; [done| |done]. by rewrite Hp''.
Qed.

Lemma children i index : 0 < i → parent i = index → i = 2 * index + 1 ∨ i = 2 * index + 2.
Proof. unfold parent. lia. Qed.

Lemma down_loop_spec fuel l index :
  length l < fuel + index → index < length l → heap_down l index →
  ∃ l', down_loop fuel l index = Some (Ret l') ∧ l' ≡ₚ l ∧ heap l'.
Proof.
  revert l index. induction fuel as [|fuel IH]; intros l index Hf Hi [HA HB]; [lia|]. cbn [down_loop].
  destruct (larger_spec l (2 * index + 1) index Hi) as (H1 & H1c & H1g & H1l & H1s).
  set (left := larger l (2 * index + 1) index) in *.
  destruct (larger_spec l (2 * index + 2) left H1) as (H2 & H2c & H2g & H2l & H2s).
  set (largest := larger l (2 * index + 2) left) in *.
  assert (Hmax : ∀ i, 0 < i < length l → parent i = index → (prio l i ≤ prio l largest)%Z).
  { intros i Hr Hpi. destruct (children i index ltac:(lia) Hpi) as [->| ->]; [|apply H2l; lia].
    etrans; [apply H1l; lia|done]. }
  case_decide as Heq.
  { exists l. split_and!; [done..|]. intros i Hr. destruct (decide (parent i = index)) as [Hpi|]; [|auto].
    rewrite Hpi, <- Heq. auto. }
  assert (Hch : largest = 2 * index + 1 ∨ largest = 2 * index + 2) by lia.
  assert (Hpl : parent largest = index) by (unfold parent; lia).
  destruct (swap_spec l index largest) as (l' & -> & Hperm & Hlen & Hsw); [lia..|].
  destruct (IH l' largest) as (l'' & -> & Hp'' & Hheap); [lia..| |].
  - split; intros i Hr; rewrite Hlen in Hr.
    + intros Hne. rewrite !Hsw. rewrite (decide_False (P := parent i = largest)) by done.
      destruct (decide (parent i = index)) as [Hpi|Hpi].
      * rewrite (decide_False (P := i = index)) by (unfold parent in *; lia).
        case_decide; [lia|auto].
      * rewrite (decide_False (P := i = largest)) by (intros ->; done).
        case_decide as Hii; [|auto]. subst i. apply HB; lia.
    + intros Hpi Hpos. rewrite Hpl, !Hsw.
      rewrite (decide_False (P := i = largest)) by (unfold parent in *; lia).
      rewrite (decide_False (P := i = index)) by (unfold parent in *; lia).
      rewrite (decide_False (P := index = largest)), (decide_True (P := index = index)) by lia.
      pose proof (HA i Hr ltac:(lia)) as Hai. by rewrite Hpi in Hai.
  - exists l''. split_and!; [done| |done]. by rewrite Hp''.
Qed.

(** ** The operations *)

Lemma prio_app l l' i : i < length l → prio (l ++ l') i = prio l i.
Proof. intros. unfold prio. by rewrite lookup_app_l. Qed.

Lemma Push_spec l t :
  heap l → ∃ l', Push l t = Some (Ret l') ∧ l' ≡ₚ t :: l ∧ heap l'.
Proof.
  intros Hh. unfold Push, heapifyUp. rewrite length_app. cbn [length].
  replace (length l + 1 - 1) with (length l) by lia.
  destruct (up_loop_spec (S (length l)) (l ++ [t]) (length l)) as (l' & -> & Hp & Hh').
  - lia.
  - rewrite length_app. cbn. lia.
  - split; intros i; rewrite length_app; cbn [length]; intros Hr; [|unfold parent; lia].
    intros Hne. rewrite !prio_app by (unfold parent; lia). apply Hh. lia.
  - exists l'. split_and!; [done| |done]. rewrite Hp. by rewrite Permutation_app_comm.
Qed.

(** The root of a heap has the greatest priority. *)
Lemma heap_root l i : heap l → i < length l → (prio l i ≤ prio l 0)%Z.
Proof.
  intros Hh. induction (lt_wf i) as [i _ IH]. intros Hi.
  destruct (decide (i = 0)) as [->|]; [done|].
  etrans; [apply Hh; lia|]. apply IH; unfold parent; lia.
Qed.

Lemma heap_root_max t l x : heap (t :: l) → x ∈ l → (bt_Priority x ≤ bt_Priority t)%Z.
Proof.
  intros Hh [i Hi]%list_elem_of_lookup. pose proof (lookup_lt_Some _ _ _ Hi).
  pose proof (heap_root (t :: l) (S i) Hh ltac:(cbn; lia)) as Hr.
  unfold prio in Hr. change ((t :: l) !! S i) with (l !! i) in Hr. by rewrite Hi in Hr.
Qed.

Lemma Pop_spec t l :
  heap (t :: l) → ∃ l', Pop (t :: l) = Some (Ret (Some (t, l'))) ∧ l' ≡ₚ l ∧ heap l'.
Proof.
  intros Hh. destruct l as [|x l _] using rev_ind.
  { exists []. split_and!; [done..|]. intros i Hr. cbn in Hr. lia. }
  unfold Pop. rewrite (app_comm_cons l [x] t), last_snoc.
  assert (take (length ((t :: l) ++ [x]) - 1) (<[0:=x]> ((t :: l) ++ [x])) = x :: l) as ->.
  { rewrite length_app. cbn [length]. replace (S (length l) + 1 - 1) with (S (length l)) by lia.
    change (take (S (length l)) (x :: l ++ [x]) = x :: l). cbn [take]. by rewrite take_app_length. }
  cbn [app]. cbv zeta.
  rewrite decide_True by (cbn; lia). unfold heapifyDown.
  assert (Hpr : ∀ i, 0 < i → i < S (length l) → prio (x :: l) i = prio (t :: l ++ [x]) i).
  { intros [|i] Hi Hl; [lia|]. unfold prio.
    change (default 0%Z (bt_Priority <$> l !! i) = default 0%Z (bt_Priority <$> (l ++ [x]) !! i)).
    by rewrite lookup_app_l by lia. }
  destruct (down_loop_spec (S (length (x :: l))) (x :: l) 0) as (l' & -> & Hp & Hh').
  - lia.
  - cbn. lia.
  - split; intros i Hr; cbn [length] in Hr; [|lia]. intros Hne.
    rewrite !Hpr by (unfold parent in *; lia). apply Hh. cbn. rewrite length_app. cbn. lia.
  - exists l'. split_and!; [done| |done]. rewrite Hp. by rewrite Permutation_cons_append.
Qed.

Lemma Pop_nil : Pop [] = Some (Ret None).
Proof. done. Qed.

(** ** Whole runs *)

Fixpoint push_all (l ts : tasks) : option (go tasks) :=
  match ts with
  | [] => Some (Ret l)
  | t :: ts => match Push l t with Some (Ret l') => push_all l' ts | o => o end
  end.

(** Pop until the queue is empty, at most [n] times. *)
Fixpoint drain (n : nat) (l : tasks) : option (go tasks) :=
  match n with
  | O => Some (Ret [])
  | S n' => match Pop l with
            | Some (Ret None) => Some (Ret [])
            | Some (Ret (Some (t, l'))) =>
                match drain n' l' with Some (Ret out) => Some (Ret (t :: out)) | o => o end
            | Some Panic => Some Panic
            | None => None
            end
  end.

Lemma push_all_spec ts l :
  heap l → ∃ l', push_all l ts = Some (Ret l') ∧ l' ≡ₚ ts ++ l ∧ heap l'.
Proof.
  revert l. induction ts as [|t ts IH]; intros l Hh; [by exists l|]. cbn [push_all].
  destruct (Push_spec l t Hh) as (l1 & -> & Hp1 & Hh1). destruct (IH l1 Hh1) as (l2 & -> & Hp2 & Hh2).
  exists l2. split_and!; [done| |done]. rewrite Hp2, Hp1. cbn. by rewrite Permutation_middle.
Qed.

Lemma drain_spec n l :
  heap l → length l ≤ n →
  ∃ out, drain n l = Some (Ret out) ∧ out ≡ₚ l
    ∧ StronglySorted (λ a b, bt_Priority b ≤ bt_Priority a)%Z out.
Proof.
  revert l. induction n as [|n IH]; intros l Hh Hn.
  - destruct l; [|cbn in Hn; lia]. exists []. split_and!; [done..|constructor].
  - destruct l as [|t l]; [exists []; split_and!; [done..|constructor]|]. cbn [drain].
    destruct (Pop_spec t l Hh) as (l1 & -> & Hp1 & Hh1).
    destruct (IH l1 Hh1) as (out & -> & Hpo & Hs); [rewrite Hp1; cbn in Hn; lia|].
    exists (t :: out). split_and!; [done|by rewrite Hpo, Hp1|]. constructor; [done|].
    apply Forall_forall. intros x Hx. apply (heap_root_max t l); [done|]. by rewrite <- Hp1, <- Hpo.
Qed.
End queue.
