(* ===== verification/AsyncExecutor.v ===== *)
(** * The worker pool and the pipeline (pregel/async.go)

    [Execute] and [ExecuteBatch] start goroutines that share a pool of slots.
    A goroutine is a thread with a program counter; one [thread_step] is one
    atomic action of it (the mutex protects every access to the active tasks),
    and threads, cancellations and new calls interleave freely ([astep]).  The
    function of a task is assumed to return; [g_Func] is what it returns. *)

From S2P Require Import Prelude GoValue Errors.
From stdpp Require Import list_numbers.

(** The duration is left out. *)
(* internal/harness/graph/pregel/async.go:34-40 asyncTaskResult *)
Record asyncTaskResult := {
  ar_TaskID : string;
  ar_Name : string;
  ar_Output : value;
  ar_Err : option error;
}.

(** The two kinds of goroutines, and their program counters: at the select on
    the pool, at the second look at the context, in the function, and in the
    deferred calls, which give the slot back, remove the task from the active
    ones, and close the channel (or count down the wait group). *)
Inductive kind := KExecute | KBatch.
Inductive pc := PSelect | PCheck | PRun | PRelease | PDelete | PClose | PDone.
#[export] Instance pc_eq_dec : EqDecision pc.
Proof. solve_decision. Defined.

(** A task with its goroutine.  [g_ctxErr] is [ctx.Err()] of the caller's
    context, [g_taskErr] that of the task's own; [g_hasCancel] says that its
    [Cancel] is not nil; [g_sent] is what was sent on the result channel. *)
(* internal/harness/graph/pregel/async.go:24-31 asyncTask *)
Record asyncTask := {
  g_kind : kind;
  g_ID : string;
  g_Name : string;
  g_Func : value * option error;
  g_hasCancel : bool;
  g_ctxErr : option error;
  g_taskErr : option error;
  g_pc : pc;
  g_sent : list asyncTaskResult;
}.

(** [ae_tokens] slots are in the channel [workerPool], of capacity
    [ae_maxConcurrency]. *)
(* internal/harness/graph/pregel/async.go:15-21 AsyncExecutor *)
Record AsyncExecutor := {
  ae_maxConcurrency : nat;
  ae_tokens : nat;
  ae_activeTasks : gset string;
  ae_threads : list asyncTask;
}.

(* internal/harness/graph/pregel/async.go:43-61 NewAsyncExecutor *)
Definition NewAsyncExecutor (maxConcurrency : Z) : AsyncExecutor :=
  let n := if decide (maxConcurrency ≤ 0)%Z then 10 else Z.to_nat maxConcurrency in
  {| ae_maxConcurrency := n; ae_tokens := n; ae_activeTasks := ∅; ae_threads := [] |}.

(** ** Calls *)

Definition spawn (e : AsyncExecutor) (g : asyncTask) : AsyncExecutor :=
  {| ae_maxConcurrency := ae_maxConcurrency e; ae_tokens := ae_tokens e;
     ae_activeTasks := {[g_ID g]} ∪ ae_activeTasks e; ae_threads := ae_threads e ++ [g] |}.

(** The context of the task is derived from [ctx]: it is done when [ctx] is. *)
(* internal/harness/graph/pregel/async.go:64-133 AsyncExecutor.Execute *)
Definition Async_Execute (e : AsyncExecutor) (id name : string) (fn : value * option error)
    (ctx : option error) : AsyncExecutor :=
  spawn e {| g_kind := KExecute; g_ID := id; g_Name := name; g_Func := fn; g_hasCancel := true;
             g_ctxErr := ctx; g_taskErr := ctx; g_pc := PSelect; g_sent := [] |}.

(** A task of a batch has the context and the [Cancel] its caller gave it. *)
Definition batch_thread (ctx : option error) (id : string) (task : asyncTask) : asyncTask :=
  {| g_kind := KBatch; g_ID := id; g_Name := g_Name task; g_Func := g_Func task;
     g_hasCancel := g_hasCancel task; g_ctxErr := ctx; g_taskErr := g_taskErr task;
     g_pc := PSelect; g_sent := [] |}.

(* internal/harness/graph/pregel/async.go:136-192 AsyncExecutor.ExecuteBatch *)
Definition Async_ExecuteBatch (e : AsyncExecutor) (ids : list string) (tasks : list asyncTask)
    (ctx : option error) : AsyncExecutor :=
  foldl spawn e (zip_with (batch_thread ctx) ids tasks).

Definition canceled : error := ContextErr "context canceled".

(** The first error of a context stays. *)
Definition first_error (old : option error) (err : error) : option error :=
  match old with Some _ => old | None => Some err end.

Definition cancel_thread (active : gset string) (g : asyncTask) : asyncTask :=
  if decide (g_ID g ∈ active ∧ g_hasCancel g = true) then
    {| g_kind := g_kind g; g_ID := g_ID g; g_Name := g_Name g; g_Func := g_Func g;
       g_hasCancel := g_hasCancel g; g_ctxErr := g_ctxErr g;
       g_taskErr := first_error (g_taskErr g) canceled; g_pc := g_pc g; g_sent := g_sent g |}
  else g.

(* internal/harness/graph/pregel/async.go:203-213 AsyncExecutor.Cancel *)
Definition Async_Cancel (e : AsyncExecutor) : AsyncExecutor :=
  {| ae_maxConcurrency := ae_maxConcurrency e; ae_tokens := ae_tokens e; ae_activeTasks := ∅;
     ae_threads := map (cancel_thread (ae_activeTasks e)) (ae_threads e) |}.

(* internal/harness/graph/pregel/async.go:216-220 AsyncExecutor.GetActiveTaskCount *)
Definition GetActiveTaskCount (e : AsyncExecutor) : nat := size (ae_activeTasks e).

(** The context a caller passed is done; contexts derived from it are too. *)
Definition ctx_done (err : error) (g : asyncTask) : asyncTask :=
  {| g_kind := g_kind g; g_ID := g_ID g; g_Name := g_Name g; g_Func := g_Func g;
     g_hasCancel := g_hasCancel g; g_ctxErr := first_error (g_ctxErr g) err;
     g_taskErr := match g_kind g with KExecute => first_error (g_taskErr g) err | KBatch => g_taskErr g end;
     g_pc := g_pc g; g_sent := g_sent g |}.

(** ** One action of a goroutine *)

Definition goto (g : asyncTask) (p : pc) : asyncTask :=
  {| g_kind := g_kind g; g_ID := g_ID g; g_Name := g_Name g; g_Func := g_Func g;
     g_hasCancel := g_hasCancel g; g_ctxErr := g_ctxErr g; g_taskErr := g_taskErr g;
     g_pc := p; g_sent := g_sent g |}.

Definition send (g : asyncTask) (out : value * option error) (p : pc) : asyncTask :=
  {| g_kind := g_kind g; g_ID := g_ID g; g_Name := g_Name g; g_Func := g_Func g;
     g_hasCancel := g_hasCancel g; g_ctxErr := g_ctxErr g; g_taskErr := g_taskErr g; g_pc := p;
     g_sent := g_sent g ++ [{| ar_TaskID := g_ID g; ar_Name := g_Name g;
                               ar_Output := out.1; ar_Err := out.2 |}] |}.

(** The context the select waits for. *)
Definition select_err (g : asyncTask) : option error :=
  match g_kind g with KExecute => g_taskErr g | KBatch => g_ctxErr g end.

(** The next action of a thread, the tokens and the active tasks after it.
    [slot] says which case of the select is taken when both are ready. *)
Definition thread_next (slot : bool) (max tokens : nat) (active : gset string) (g : asyncTask)
    : option (nat * gset string * asyncTask) :=
  match g_pc g with
  | PSelect =>
      if slot then
        match tokens with
        | O => None
        | S tokens' => Some (tokens', active,
            goto g match g_kind g with KExecute => PCheck | KBatch => PRun end)
        end
      else err ← select_err g; Some (tokens, active, send g (VNil, Some err) PDelete)
  | PCheck =>
      match g_taskErr g with
      | Some err => Some (tokens, active, send g (VNil, Some err) PRelease)
      | None => Some (tokens, active, goto g PRun)
      end
  | PRun => Some (tokens, active, send g (g_Func g) PRelease)
  | PRelease => if decide (tokens < max) then Some (S tokens, active, goto g PDelete) else None
  | PDelete => Some (tokens, active ∖ {[g_ID g]}, goto g PClose)
  | PClose => Some (tokens, active, goto g PDone)
  | PDone => None
  end.

(* internal/harness/graph/pregel/async.go:81-127 AsyncExecutor.Execute(part) *)
Definition thread_step (slot : bool) (e : AsyncExecutor) (i : nat) : option AsyncExecutor :=
  g ← ae_threads e !! i;
  '(tokens, active, g') ← thread_next slot (ae_maxConcurrency e) (ae_tokens e) (ae_activeTasks e) g;
  Some {| ae_maxConcurrency := ae_maxConcurrency e; ae_tokens := tokens; ae_activeTasks := active;
          ae_threads := <[i := g']> (ae_threads e) |}.

(** A step of some thread, and a step of the whole system. *)
Definition tstep (e e' : AsyncExecutor) : Prop := ∃ slot i, thread_step slot e i = Some e'.

Inductive astep : AsyncExecutor → AsyncExecutor → Prop :=
  | astep_thread e e' : tstep e e' → astep e e'
  | astep_execute e id name fn ctx : astep e (Async_Execute e id name fn ctx)
  | astep_batch e ids tasks ctx : astep e (Async_ExecuteBatch e ids tasks ctx)
  | astep_cancel e : astep e (Async_Cancel e)
  | astep_ctx e i g err : ae_threads e !! i = Some g →
      astep e {| ae_maxConcurrency := ae_maxConcurrency e; ae_tokens := ae_tokens e;
                 ae_activeTasks := ae_activeTasks e;
                 ae_threads := <[i := ctx_done err g]> (ae_threads e) |}.

(** ** Invariants *)

(** Whether a thread holds a slot; the actions it has left at most. *)
Definition holds (g : asyncTask) : nat :=
  match g_pc g with PCheck | PRun | PRelease => 1 | _ => 0 end.
Definition remaining (g : asyncTask) : nat :=
  match g_pc g with
  | PSelect => 6 | PCheck => 5 | PRun => 4 | PRelease => 3 | PDelete => 2 | PClose => 1 | PDone => 0
  end.

Definition holders (e : AsyncExecutor) : nat := sum_list_with holds (ae_threads e).
Definition work (e : AsyncExecutor) : nat := sum_list_with remaining (ae_threads e).

(** A result is that of the function, or the error of a context that is done. *)
Definition result_of (g : asyncTask) (r : asyncTaskResult) : Prop :=
  ar_TaskID r = g_ID g ∧ ar_Name r = g_Name g
  ∧ ((ar_Output r, ar_Err r) = g_Func g
     ∨ ar_Output r = VNil ∧ is_Some (ar_Err r) ∧ (ar_Err r = g_taskErr g ∨ ar_Err r = g_ctxErr g)).

(** One result is sent, when the thread gets to its deferred calls. *)
Definition thread_ok (g : asyncTask) : Prop :=
  match g_pc g with
  | PSelect | PCheck | PRun => g_sent g = []
  | _ => ∃ r, g_sent g = [r] ∧ result_of g r
  end.

Record pool_ok (e : AsyncExecutor) : Prop := {
  po_slots : ae_tokens e + holders e = ae_maxConcurrency e;
  po_pos : 0 < ae_maxConcurrency e;
  po_threads : Forall thread_ok (ae_threads e);
  po_active : ∀ id, id ∈ ae_activeTasks e →
    ∃ g, g ∈ ae_threads e ∧ g_ID g = id ∧ 2 ≤ remaining g;
}.

Lemma sum_list_with_insert {A} (f : A → nat) l i x y :
  l !! i = Some x → sum_list_with f (<[i := y]> l) + f x = sum_list_with f l + f y.
Proof.
  revert i. induction l as [|z l IH]; intros [|i] Hi; [done..| |].
  - injection Hi as ->. change (<[0:=y]> (x :: l)) with (y :: l). cbn [sum_list_with]. lia.
  - specialize (IH i Hi). change (<[S i:=y]> (z :: l)) with (z :: <[i:=y]> l). cbn [sum_list_with]. lia.
Qed.

Lemma sum_list_with_app1 {A} (f : A → nat) l x : sum_list_with f (l ++ [x]) = sum_list_with f l + f x.
Proof. induction l as [|y l IH]; cbn; lia. Qed.

(** What one action of a thread changes. *)
Lemma thread_next_inv slot max tokens active g tokens' active' g' :
  thread_next slot max tokens active g = Some (tokens', active', g') → thread_ok g →
  tokens' + holds g' = tokens + holds g ∧ remaining g' < remaining g ∧ g_ID g' = g_ID g
  ∧ thread_ok g' ∧ active' ⊆ active ∧ (g_ID g ∈ active' → 2 ≤ remaining g → 2 ≤ remaining g').
Proof.
  unfold thread_next, thread_ok, holds, remaining, select_err, goto, send, result_of.
  destruct g as [k id name fn hc cerr terr p sent]; cbn. destruct p; cbn; intros Hn Hok.
  - destruct slot.
    + destruct tokens, k; simplify_eq/=; split_and!; (done || lia).
    + destruct (match k with KExecute => terr | KBatch => cerr end) as [err|] eqn:E; simplify_eq/=.
      split_and!; try (done || lia). eexists; split; [done|]. destruct k; subst; naive_solver.
  - destruct terr as [err|]; simplify_eq/=; split_and!; try (done || lia). eexists; split; [done|]. naive_solver.
  - simplify_eq/=. split_and!; try (done || lia). eexists; split; [done|]. cbn. split_and!; [done..|].
    left. by destruct fn.
  - case_decide; simplify_eq/=. split_and!; (done || lia).
  - simplify_eq/=. split_and!; try (done || lia || set_solver).
  - simplify_eq/=. split_and!; (done || lia).
  - done.
Qed.

Lemma thread_update e i g g' tokens active :
  pool_ok e → ae_threads e !! i = Some g →
  tokens + holds g' = ae_tokens e + holds g → g_ID g' = g_ID g → thread_ok g' →
  active ⊆ ae_activeTasks e → (g_ID g ∈ active → 2 ≤ remaining g → 2 ≤ remaining g') →
  pool_ok {| ae_maxConcurrency := ae_maxConcurrency e; ae_tokens := tokens; ae_activeTasks := active;
             ae_threads := <[i := g']> (ae_threads e) |}.
Proof.
  intros [Hs Hp Ht Ha] Hi Htok Hid Hok Hsub Hrem. split; cbn.
  - unfold holders in *. cbn. pose proof (sum_list_with_insert holds _ _ _ g' Hi). lia.
  - done.
  - by apply Forall_insert.
  - intros id Hin. destruct (Ha id (Hsub id Hin)) as (h & Hh & Hhid & Hhr).
    apply list_elem_of_lookup in Hh as [j Hj]. destruct (decide (j = i)) as [->|Hne].
    + simplify_eq. exists g'. split_and!; [|done|auto].
      apply list_elem_of_lookup. exists i. apply list_lookup_insert_eq. by eapply lookup_lt_Some.
    + exists h. split_and!; [|done..]. apply list_elem_of_lookup. exists j.
      by rewrite list_lookup_insert_ne.
Qed.

Lemma tstep_ok e e' : pool_ok e → tstep e e' → pool_ok e' ∧ work e' < work e.
Proof.
  intros Hok (slot & i & Hs). unfold thread_step in Hs.
  destruct (ae_threads e !! i) as [g|] eqn:Hi; [|done]. cbn in Hs.
  destruct (thread_next _ _ _ _ _) as [[[tokens active] g']|] eqn:Hn; simplify_eq/=.
  pose proof (proj1 (Forall_lookup _ _) (po_threads _ Hok) i g Hi) as Hg.
  destruct (thread_next_inv _ _ _ _ _ _ _ _ Hn Hg) as (H1 & H2 & H3 & H4 & H5 & H6).
  split; [by eapply thread_update|]. unfold work. cbn.
  pose proof (sum_list_with_insert remaining _ _ _ g' Hi). lia.
Qed.

Lemma spawn_ok e g : pool_ok e → g_pc g = PSelect → g_sent g = [] → pool_ok (spawn e g).
Proof.
  intros [Hs Hp Ht Ha] Hpc Hsent. split; cbn.
  - unfold holders in *. cbn. rewrite sum_list_with_app1. unfold holds at 2. rewrite Hpc. lia.
  - done.
  - apply Forall_app. split; [done|]. constructor; [|done]. unfold thread_ok, remaining. rewrite Hpc. done.
  - intros id [->%elem_of_singleton|Hin]%elem_of_union.
    + exists g. split_and!; [apply elem_of_app; right; left|done|]. unfold remaining. rewrite Hpc. lia.
    + destruct (Ha id Hin) as (h & Hh & ? & ?). exists h. split_and!; [apply elem_of_app; by left|done..].
Qed.

(** A context that gets its first error does not invalidate a result. *)
Lemma thread_ok_mono g g' :
  g_ID g' = g_ID g → g_Name g' = g_Name g → g_Func g' = g_Func g → g_pc g' = g_pc g →
  g_sent g' = g_sent g →
  (∀ x, g_taskErr g = Some x → g_taskErr g' = Some x) →
  (∀ x, g_ctxErr g = Some x → g_ctxErr g' = Some x) → thread_ok g → thread_ok g'.
Proof.
  intros Hid Hn Hf Hp Hs Ht Hc. unfold thread_ok, result_of. rewrite Hid, Hn, Hf, Hp, Hs.
  assert (∀ r, is_Some (ar_Err r) → ar_Err r = g_taskErr g ∨ ar_Err r = g_ctxErr g →
               ar_Err r = g_taskErr g' ∨ ar_Err r = g_ctxErr g').
  { intros r [x Hx] [He|He]; [left|right]; rewrite Hx in He |- *; symmetry; auto. }
  destruct (g_pc g); naive_solver.
Qed.

Lemma ctx_done_ok err g :
  thread_ok g → thread_ok (ctx_done err g) ∧ holds (ctx_done err g) = holds g
  ∧ remaining (ctx_done err g) = remaining g ∧ g_ID (ctx_done err g) = g_ID g.
Proof.
  intros Hg. split; [|done]. eapply thread_ok_mono; [..|exact Hg]; try done; intros x Hx; cbn; rewrite Hx.
  - by destruct (g_kind g).
  - done.
Qed.

Lemma cancel_thread_ok active g :
  thread_ok g → thread_ok (cancel_thread active g) ∧ holds (cancel_thread active g) = holds g
  ∧ remaining (cancel_thread active g) = remaining g.
Proof.
  intros Hg. unfold cancel_thread. case_decide; [|done]. split; [|done].
  eapply thread_ok_mono; [..|exact Hg]; try done. intros x Hx. cbn. by rewrite Hx.
Qed.

Lemma cancel_ok e : pool_ok e → pool_ok (Async_Cancel e).
Proof.
  intros [Hs Hp Ht Ha]. split; cbn; [|done| |by intros id ?%elem_of_empty].
  - rewrite <- Hs. f_equal. unfold holders. cbn. generalize (ae_activeTasks e). intros active.
    clear -Ht. induction Ht as [|g l Hg Hl IH]; [done|]. cbn.
    by rewrite (proj1 (proj2 (cancel_thread_ok active g Hg))), IH.
  - apply Forall_map. eapply Forall_impl; [done|]. intros g Hg. cbn. by apply cancel_thread_ok.
Qed.

Lemma astep_ok e e' : astep e e' → pool_ok e → pool_ok e'.
Proof.
  intros [e0 e1 Hst|e0 id name fn ctx|e0 ids tasks ctx|e0|e0 i g err Hi] Hok.
  - by apply (tstep_ok e0 e1).
  - by apply spawn_ok.
  - unfold Async_ExecuteBatch. revert tasks e0 Hok. induction ids as [|id ids IH]; intros [|t ts] e0 Hok; [done..|].
    cbn. apply IH. by apply spawn_ok.
  - by apply cancel_ok.
  - pose proof (proj1 (Forall_lookup _ _) (po_threads _ Hok) i g Hi) as Hg.
    destruct (ctx_done_ok err g Hg) as (H1 & H2 & H3 & H4).
    eapply thread_update; [done..|by rewrite H2|done|done|done|by rewrite H3].
Qed.

Lemma new_pool_ok n : pool_ok (NewAsyncExecutor n).
Proof.
  unfold NewAsyncExecutor. split; cbn; [lia|case_decide; lia|by constructor|by intros id ?%elem_of_empty].
Qed.

Lemma pool_reachable n e : rtc astep (NewAsyncExecutor n) e → pool_ok e.
Proof.
  intros Hr. pose proof (new_pool_ok n) as Hn. induction Hr as [|x y z Hst _ IH]; [done|].
  apply IH. by eapply astep_ok.
Qed.

(** ** Progress *)

(** A thread that is past the select can always go on: giving a slot back never
    blocks. *)
Lemma past_select e i g :
  pool_ok e → ae_threads e !! i = Some g → g_pc g ≠ PSelect → g_pc g ≠ PDone → ∃ e', tstep e e'.
Proof.
  intros [Hs _ _ _] Hi H1 H2. unfold tstep, thread_step.
  assert (Hh : holds g ≤ holders e).
  { unfold holders. pose proof (sum_list_with_insert holds _ _ _ (goto g PDone) Hi) as H. cbn in H. lia. }
  cut (is_Some (thread_next true (ae_maxConcurrency e) (ae_tokens e) (ae_activeTasks e) g)).
  { intros [[[t a] g'] Hn]. eexists. exists true, i. rewrite Hi. cbn. by rewrite Hn. }
  unfold thread_next, holds in *. destruct (g_pc g) eqn:E; try done.
  - destruct (g_taskErr g); by eexists.
  - rewrite decide_True by lia. by eexists.
Qed.

Lemma pool_progress e : pool_ok e → work e ≠ 0 → ∃ e', tstep e e'.
Proof.
  intros Hok Hw.
  destruct (decide (Exists (λ g, g_pc g ≠ PSelect ∧ g_pc g ≠ PDone) (ae_threads e))) as [Hx|Hn].
  - apply Exists_exists in Hx as (g & Hin & H1 & H2).
    apply list_elem_of_lookup in Hin as [i Hi]. by eapply past_select.
  - assert (Hh : holders e = 0).
    { unfold holders. clear -Hn. induction (ae_threads e) as [|g l IH]; [done|]. cbn.
      rewrite IH by (intros ?; apply Hn; by apply Exists_cons_tl). assert (¬ (g_pc g ≠ PSelect ∧ g_pc g ≠ PDone))
        by (intros ?; apply Hn; by constructor). unfold holds. destruct (g_pc g); naive_solver. }
    destruct Hok as [Hs Hp _ _].
    assert (∃ i g, ae_threads e !! i = Some g ∧ g_pc g = PSelect) as (i & g & Hi & Hg).
    { clear -Hw Hn. unfold work in Hw. induction (ae_threads e) as [|g l IH]; [done|]. cbn in Hw.
      destruct (decide (g_pc g = PSelect)) as [E|E]; [by exists 0, g|].
      assert (g_pc g = PDone) as Hd.
      { destruct (decide (g_pc g = PDone)); [done|]. exfalso. apply Hn. by constructor. }
      destruct IH as (i & h & Hi & Hh).
      - unfold remaining in Hw at 1. rewrite Hd in Hw. done.
      - intros ?. apply Hn. by apply Exists_cons_tl.
      - by exists (S i), h. }
    destruct (ae_tokens e) as [|t] eqn:Et; [lia|].
    unfold tstep, thread_step. eexists. exists true, i. rewrite Hi. cbn. unfold thread_next. rewrite Hg, Et. done.
Qed.

(** ** The pipeline *)

(** A buffered Go channel.  Sending on a closed channel and closing it again
    panic; a send in a select with a default case drops the value when the
    buffer is full. *)
Record chan {A : Type} := { ch_buf : list A; ch_cap : nat; ch_closed : bool }.
Arguments chan : clear implicits.

Definition make_chan {A} (n : nat) : chan A := {| ch_buf := []; ch_cap := n; ch_closed := false |}.
Definition try_send {A} (c : chan A) (x : A) : go (chan A) :=
  if ch_closed c then Panic else
  Ret (if decide (length (ch_buf c) < ch_cap c)
       then {| ch_buf := ch_buf c ++ [x]; ch_cap := ch_cap c; ch_closed := false |} else c).
Definition close_chan {A} (c : chan A) : go (chan A) :=
  if ch_closed c then Panic else Ret {| ch_buf := ch_buf c; ch_cap := ch_cap c; ch_closed := true |}.
Definition receive {A} (c : chan A) : chan A :=
  {| ch_buf := tail (ch_buf c); ch_cap := ch_cap c; ch_closed := ch_closed c |}.

(** [ap_cancelled] says that the context of [Start] has been cancelled. *)
(* internal/harness/graph/pregel/async.go:240-252 AsyncPipeline *)
Record AsyncPipeline := {
  ap_executor : AsyncExecutor;
  ap_events : chan value;
  ap_errors : chan error;
  ap_cancelled : bool;
  ap_running : bool;
}.

(* internal/harness/graph/pregel/async.go:255-263 NewAsyncPipeline *)
Definition NewAsyncPipeline (maxConcurrency : Z) : AsyncPipeline :=
  {| ap_executor := NewAsyncExecutor maxConcurrency; ap_events := make_chan 100;
     ap_errors := make_chan 10; ap_cancelled := false; ap_running := false |}.

(* internal/harness/graph/pregel/async.go:266-282 AsyncPipeline.Start *)
Definition Pipeline_Start (p : AsyncPipeline) : AsyncPipeline :=
  if ap_running p then p else
  {| ap_executor := ap_executor p; ap_events := make_chan 100; ap_errors := make_chan 10;
     ap_cancelled := false; ap_running := true |}.

(* internal/harness/graph/pregel/async.go:285-301 AsyncPipeline.Stop *)
Definition Pipeline_Stop (p : AsyncPipeline) : go AsyncPipeline :=
  if ap_running p then
    (events <-! close_chan (ap_events p); errors <-! close_chan (ap_errors p);
     Ret {| ap_executor := Async_Cancel (ap_executor p); ap_events := events; ap_errors := errors;
            ap_cancelled := true; ap_running := false |})%go
  else Ret p.

(* internal/harness/graph/pregel/async.go:322-333 AsyncPipeline.EmitEvent *)
Definition EmitEvent (p : AsyncPipeline) (event : value) : go AsyncPipeline :=
  if ap_running p then
    (events <-! try_send (ap_events p) event;
     Ret {| ap_executor := ap_executor p; ap_events := events; ap_errors := ap_errors p;
            ap_cancelled := ap_cancelled p; ap_running := true |})%go
  else Ret p.

(* internal/harness/graph/pregel/async.go:336-347 AsyncPipeline.EmitError *)
Definition EmitError (p : AsyncPipeline) (err : error) : go AsyncPipeline :=
  if ap_running p then
    (errors <-! try_send (ap_errors p) err;
     Ret {| ap_executor := ap_executor p; ap_events := ap_events p; ap_errors := errors;
            ap_cancelled := ap_cancelled p; ap_running := true |})%go
  else Ret p.

(** The calls of a client, and a reader of the events. *)
Inductive pipe_op := OpStart | OpStop | OpEvent (v : value) | OpError (err : error) | OpRead.

Definition pipe_step (p : AsyncPipeline) (op : pipe_op) : go AsyncPipeline :=
  match op with
  | OpStart => Ret (Pipeline_Start p)
  | OpStop => Pipeline_Stop p
  | OpEvent v => EmitEvent p v
  | OpError err => EmitError p err
  | OpRead => Ret {| ap_executor := ap_executor p; ap_events := receive (ap_events p);
                     ap_errors := ap_errors p; ap_cancelled := ap_cancelled p;
                     ap_running := ap_running p |}
  end.

Fixpoint pipe_run (p : AsyncPipeline) (ops : list pipe_op) : go AsyncPipeline :=
  match ops with
  | [] => Ret p
  | op :: ops => (p <-! pipe_step p op; pipe_run p ops)%go
  end.

Definition chan_ok {A} (c : chan A) : Prop := length (ch_buf c) ≤ ch_cap c.
Definition pipe_ok (p : AsyncPipeline) : Prop :=
  chan_ok (ap_events p) ∧ chan_ok (ap_errors p) ∧ ch_cap (ap_events p) = 100 ∧ ch_cap (ap_errors p) = 10
  ∧ (ap_running p = true → ch_closed (ap_events p) = false ∧ ch_closed (ap_errors p) = false).

Lemma try_send_ok {A} (c : chan A) x :
  ch_closed c = false → chan_ok c →
  ∃ c', try_send c x = Ret c' ∧ chan_ok c' ∧ ch_cap c' = ch_cap c ∧ ch_closed c' = false.
Proof.
  intros Hc Hok. unfold try_send. rewrite Hc. eexists; split; [done|].
  case_decide; split_and!; try done. unfold chan_ok. cbn. rewrite length_app. cbn. lia.
Qed.

Lemma pipe_step_ok p op : pipe_ok p → ∃ p', pipe_step p op = Ret p' ∧ pipe_ok p'.
Proof.
  intros Hp. pose proof Hp as (He & Hr & Hce & Hcr & Ho). destruct op as [| |v|err|]; cbn.
  - eexists; split; [done|]. unfold Pipeline_Start. destruct (ap_running p); [done|].
    split_and!; (done || unfold chan_ok; cbn; lia).
  - unfold Pipeline_Stop. destruct (ap_running p) eqn:E; [|by exists p].
    destruct (Ho eq_refl) as [H1 H2]. unfold close_chan. rewrite H1, H2. cbn.
    eexists; split; [done|]. by unfold pipe_ok.
  - unfold EmitEvent. destruct (ap_running p) eqn:E; [|by exists p].
    destruct (Ho eq_refl) as [H1 H2]. destruct (try_send_ok (ap_events p) v H1 He) as (c & -> & ? & ? & ?).
    cbn. eexists; split; [done|]. unfold pipe_ok. cbn. split_and!; [done..|congruence|congruence|done].
  - unfold EmitError. destruct (ap_running p) eqn:E; [|by exists p].
    destruct (Ho eq_refl) as [H1 H2]. destruct (try_send_ok (ap_errors p) err H2 Hr) as (c & -> & ? & ? & ?).
    cbn. eexists; split; [done|]. unfold pipe_ok. cbn. split_and!; [done..|congruence|congruence|done].
  - eexists; split; [done|]. split_and!; cbn; try done. unfold chan_ok in *. cbn.
    destruct (ch_buf (ap_events p)); cbn in *; lia.
Qed.

Lemma pipe_run_ok ops p : pipe_ok p → ∃ p', pipe_run p ops = Ret p' ∧ pipe_ok p'.
Proof.
  revert p. induction ops as [|op ops IH]; intros p Hp; [by exists p|]. cbn [pipe_run].
  destruct (pipe_step_ok p op Hp) as (p1 & -> & Hp1). cbn. by apply IH.
Qed.
