(* ===== verification/Interrupt.v ===== *)
(** * Interrupts (interrupt/interrupt.go)

    A node asks for input with [Interrupt].  The interrupt context holds the
    values to resume with, how many have been consumed, and a value that
    answers any interrupt (the null resume).  Every operation holds the mutex of
    the context, except that [Interrupt] takes it several times; a node calls it
    from one goroutine. *)

From S2P Require Import Prelude GoValue Errors.

(* internal/harness/graph/interrupt/interrupt.go:96-101 interruptContext *)
Record interruptContext := {
  resumeValues : list value;
  ic_index : Z;
  nullResume : value;
}.

(* internal/harness/graph/interrupt/interrupt.go:27-32 WithInterruptContext *)
Definition WithInterruptContext : interruptContext :=
  {| resumeValues := []; ic_index := 0; nullResume := VNil |}.

(* internal/harness/graph/interrupt/interrupt.go:114-126 interruptContext.consumeNextResumeValue *)
Definition consumeNextResumeValue (ic : interruptContext) : option value * interruptContext :=
  if decide (ic_index ic < Z.of_nat (length (resumeValues ic)))%Z then
    (* the index starts at 0 and only grows *)
    match resumeValues ic !! Z.to_nat (ic_index ic) with
    | Some v => (Some v, {| resumeValues := resumeValues ic; ic_index := ic_index ic + 1;
                            nullResume := nullResume ic |})
    | None => (None, ic)
    end
  else (None, ic).

(* internal/harness/graph/interrupt/interrupt.go:129-138 interruptContext.getResumeValues *)
Definition getResumeValues (ic : interruptContext) : list value := resumeValues ic.

(* internal/harness/graph/interrupt/interrupt.go:141-148 interruptContext.getInterruptIndex *)
Definition getInterruptIndex (ic : interruptContext) : Z := ic_index ic.

(* internal/harness/graph/interrupt/interrupt.go:151-158 interruptContext.getNullResume *)
Definition getNullResume (ic : interruptContext) : value := nullResume ic.

(* internal/harness/graph/interrupt/interrupt.go:161-168 interruptContext.appendResumeValue *)
Definition appendResumeValue (ic : interruptContext) (v : value) : interruptContext :=
  {| resumeValues := resumeValues ic ++ [v]; ic_index := ic_index ic; nullResume := nullResume ic |}.

(* internal/harness/graph/interrupt/interrupt.go:171-178 interruptContext.setNullResume *)
Definition setNullResume (ic : interruptContext) (v : value) : interruptContext :=
  {| resumeValues := resumeValues ic; ic_index := ic_index ic; nullResume := v |}.

(* internal/harness/graph/interrupt/interrupt.go:181-188 interruptContext.setResumeValues *)
Definition setResumeValues (ic : interruptContext) (values : list value) : interruptContext :=
  {| resumeValues := values; ic_index := ic_index ic; nullResume := nullResume ic |}.

(* internal/harness/graph/interrupt/interrupt.go:191-200 interruptContext.reset *)
Definition reset (ic : interruptContext) : interruptContext :=
  {| resumeValues := []; ic_index := 0; nullResume := VNil |}.

(** The context of a request, or the global one when it has none. *)
Record contexts := { request_ic : option interruptContext; globalContext : interruptContext }.
Definition the_context (c : contexts) : interruptContext := default (globalContext c) (request_ic c).
Definition set_context (c : contexts) (ic : interruptContext) : contexts :=
  match request_ic c with
  | Some _ => {| request_ic := Some ic; globalContext := globalContext c |}
  | None => {| request_ic := None; globalContext := ic |}
  end.

(* internal/harness/graph/interrupt/interrupt.go:203-212 GetResumeValues *)
Definition GetResumeValues (c : contexts) : list value := getResumeValues (the_context c).

(* internal/harness/graph/interrupt/interrupt.go:215-221 GetInterruptIndex *)
Definition GetInterruptIndex (c : contexts) : Z := getInterruptIndex (the_context c).

(* internal/harness/graph/interrupt/interrupt.go:224-233 AppendResumeValue *)
Definition AppendResumeValue (c : contexts) (v : value) : contexts :=
  set_context c (appendResumeValue (the_context c) v).

(* internal/harness/graph/interrupt/interrupt.go:237-247 GetNullResume *)
Definition GetNullResume (c : contexts) (consume : bool) : value * contexts :=
  (getNullResume (the_context c),
   if consume then set_context c (setNullResume (the_context c) VNil) else c).

(* internal/harness/graph/interrupt/interrupt.go:253-260 Reset *)
Definition Reset (c : contexts) : contexts := set_context c (reset (the_context c)).

(* internal/harness/graph/interrupt/interrupt.go:296-302 SetResumeValues *)
Definition SetResumeValues (c : contexts) (values : list value) : contexts :=
  set_context c (setResumeValues (the_context c) values).

(** [*types.Interrupt], as the engine reads it. *)
Definition new_interrupt (v : value) (id : string) : value :=
  VPtr (VStruct [("Value", Some "Value", v); ("ID", Some "ID", VStr id)]).

(** The identifier is the digest of the value and a counter; [gen] gives it. *)
(* internal/harness/graph/interrupt/interrupt.go:63-93 Interrupt *)
Definition Interrupt (gen : value → string) (ic : interruptContext) (v : value)
    : (error + value) * interruptContext :=
  match consumeNextResumeValue ic with
  | (Some r, ic) => (inr r, ic)
  | (None, ic) =>
      match getNullResume ic with
      | VNil => (inl (GraphInterrupt [new_interrupt v (gen v)]), ic)
      | r => (inr r, appendResumeValue (setNullResume ic VNil) r)
      end
  end.

(* internal/harness/graph/interrupt/interrupt.go:273-275 IsInterrupt *)
Definition IsInterrupt (err : error) : bool := IsGraphInterrupt (Some err).

(* internal/harness/graph/interrupt/interrupt.go:280-293 GetInterruptValue *)
Definition GetInterruptValue (err : error) : option value :=
  match err with
  | GraphInterrupt (i :: _) =>
      match i with
      | VPtr (VStruct [(("Value", _), v); (("ID", _), VStr _)]) => Some v
      | _ => Some i
      end
  | _ => None
  end.

(** ** What a node that asks [n] questions gets *)

(** A node that calls [Interrupt] in sequence, and returns at the first one that
    is not answered. *)
Fixpoint ask_all (gen : value → string) (ic : interruptContext) (questions : list value)
    : (error + list value) * interruptContext :=
  match questions with
  | [] => (inr [], ic)
  | q :: qs =>
      match Interrupt gen ic q with
      | (inl err, ic) => (inl err, ic)
      | (inr a, ic) =>
          match ask_all gen ic qs with
          | (inl err, ic) => (inl err, ic)
          | (inr l, ic) => (inr (a :: l), ic)
          end
      end
  end.

Lemma consume_next ic i v :
  ic_index ic = Z.of_nat i → resumeValues ic !! i = Some v →
  consumeNextResumeValue ic
  = (Some v, {| resumeValues := resumeValues ic; ic_index := Z.of_nat (S i); nullResume := nullResume ic |}).
Proof.
  intros Hi Hv. pose proof (lookup_lt_Some _ _ _ Hv). unfold consumeNextResumeValue.
  rewrite Hi, decide_True, Nat2Z.id, Hv by lia. do 3 f_equal. lia.
Qed.

Lemma consume_none ic i :
  ic_index ic = Z.of_nat i → length (resumeValues ic) ≤ i → consumeNextResumeValue ic = (None, ic).
Proof. intros Hi Hl. unfold consumeNextResumeValue. rewrite Hi, decide_False by lia. done. Qed.

(** The questions are answered by the values not yet consumed, in order. *)
Lemma ask_all_answered gen ic i questions :
  ic_index ic = Z.of_nat i → i + length questions ≤ length (resumeValues ic) →
  ask_all gen ic questions
  = (inr (take (length questions) (drop i (resumeValues ic))),
     {| resumeValues := resumeValues ic; ic_index := Z.of_nat (i + length questions);
        nullResume := nullResume ic |}).
Proof.
  revert ic i. induction questions as [|q qs IH]; intros ic i Hi Hl; cbn [ask_all length].
  - rewrite Nat.add_0_r, <- Hi. by destruct ic.
  - cbn in Hl. destruct (lookup_lt_is_Some_2 (resumeValues ic) i) as [v Hv]; [lia|].
    unfold Interrupt. rewrite (consume_next _ _ _ Hi Hv).
    rewrite (IH _ (S i)) by (cbn; lia || done). cbn.
    rewrite (drop_S _ _ _ Hv). cbn. do 3 f_equal. lia.
Qed.

Lemma ask_all_app gen ic qs1 qs2 answers ic1 :
  ask_all gen ic qs1 = (inr answers, ic1) →
  ask_all gen ic (qs1 ++ qs2)
  = match ask_all gen ic1 qs2 with
    | (inl err, ic2) => (inl err, ic2)
    | (inr l, ic2) => (inr (answers ++ l), ic2)
    end.
Proof.
  revert ic answers. induction qs1 as [|q qs1 IH]; intros ic answers Ha; cbn in *.
  - simplify_eq. by destruct (ask_all gen ic1 qs2) as [[]].
  - destruct (Interrupt gen ic q) as [[err|a] ic']; [done|].
    destruct (ask_all gen ic' qs1) as [[err|l] ic''] eqn:E; simplify_eq.
    rewrite (IH _ _ E). by destruct (ask_all gen ic1 qs2) as [[]].
Qed.
