(* ===== verification/SubGraph.v ===== *)
(** * Loop and parallel nodes of a graph (internal/harness/graph/graph/loop.go, parallel.go)

    A loop runs a sub-graph until a condition holds; a parallel node runs it on every
    item of its input.  Both save their state when the sub-graph is interrupted. *)

From S2P Require Import Prelude GoValue Errors Interrupt.
From stdpp Require Import pretty.

(** ** The loop node (graph/loop.go)

    A node that runs a sub-graph until a condition holds.  When the sub-graph
    interrupts, the node saves its iteration and current input in the value of an
    interrupt of its own, and continues from them when it is run again.

    [invoke] is the sub-graph: it takes the thread id of the iteration and the
    input.  The state it works on is the contexts of interrupts, which the node
    shares with it, and a world [S] of its own.  The text form of JSON is the
    record [JsonText]. *)

(** A [json.RawMessage] is its text; [None] is the nil slice. *)
(* internal/harness/graph/graph/loop.go:101-105 loopInterruptState *)
Record loopInterruptState := {
  Iteration : Z;
  CurrentInput : option string;
  UserFillUpValue : option string;
}.

Record JsonText := {
  marshal : value → option string;
  unmarshal : string → option value;
  unmarshal_loop : string → option loopInterruptState;
}.

(** The state as a Go value: a raw message is encoded as the value it is the
    text of, and left out when it is empty. *)
Definition raw_field (J : JsonText) (name key : string) (raw : option string)
    : string * option string * value :=
  match raw with
  | Some t => (name, Some key, VOther "json.RawMessage" None (unmarshal J t))
  | None => (name, None, VNil)
  end.
Definition loop_value (J : JsonText) (st : loopInterruptState) : value :=
  VStruct [("Iteration", Some "iteration", VInt (Iteration st));
           raw_field J "CurrentInput" "current_input" (CurrentInput st);
           raw_field J "UserFillUpValue" "user_fill_up_value" (UserFillUpValue st)].

(* internal/harness/graph/graph/loop.go:49-52 loopOptions *)
Record loopOptions := { maxIterations : Z; checkpointIDPrefix : string }.
Definition LoopOption : Type := loopOptions → loopOptions.

(* internal/harness/graph/graph/loop.go:55-61 WithLoopMaxIterations *)
Definition WithLoopMaxIterations (n : Z) : LoopOption := λ o,
  if decide (0 ≤ n)%Z then {| maxIterations := n; checkpointIDPrefix := checkpointIDPrefix o |} else o.

(* internal/harness/graph/graph/loop.go:65-71 WithLoopCheckpointIDPrefix *)
Definition WithLoopCheckpointIDPrefix (prefix : string) : LoopOption := λ o,
  if decide (prefix ≠ "") then {| maxIterations := maxIterations o; checkpointIDPrefix := prefix |} else o.

(* internal/harness/graph/graph/loop.go:73-82 getLoopOptions *)
Definition getLoopOptions (opts : list LoopOption) : loopOptions :=
  foldl (λ o opt, opt o) {| maxIterations := 1024; checkpointIDPrefix := "" |} opts.

Definition ErrLoopMaxIterationsExceeded : string := "graph: loop max iterations exceeded".
Definition ErrLoopResumeStateInvalid : string := "graph: loop resume state invalid".

(** [json.Unmarshal] into the state, accepted when the iteration is positive. *)
Definition decode_loop (J : JsonText) (t : string) : option loopInterruptState :=
  st ← unmarshal_loop J t; if decide (0 < Iteration st)%Z then Some st else None.

(** The value under [SubGraphStateCtxKey], then the resume values. *)
(* internal/harness/graph/graph/loop.go:248-279 loadLoopSnapshot *)
Definition loadLoopSnapshot (J : JsonText) (sub_state : option value) (c : contexts)
    : option loopInterruptState :=
  match match sub_state with Some (VBytes t) => decode_loop J t | _ => None end with
  | Some st => Some st
  | None =>
      head (omap (λ v, match v with VBytes t | VStr t => decode_loop J t | _ => None end)
              (GetResumeValues c))
  end.

Section loop.
Context {S : Type} (J : JsonText) (gen : value → string).
Context (key : string) (invoke : string → value → contexts * S → (error + value) * (contexts * S)).
Context (shouldQuit : Z → value → value → contexts * S → (error + bool) * (contexts * S)).
Context (options : loopOptions).

Definition subCheckpointID (iteration : Z) : string :=
  checkpointIDPrefix options +:+ ":loop:" +:+ key +:+ ":iter:" +:+ pretty iteration.

(** The interrupt of the sub-graph becomes one of the node, with the loop's
    state; if a value to resume with is pending, [Interrupt] gives no error. *)
(* internal/harness/graph/graph/loop.go:192-223 runLoop(part) *)
Definition loop_interrupt (iteration : Z) (current : value) (invokeErr : error) (w : contexts * S)
    : (error + value) * (contexts * S) :=
  match marshal J current with
  | None => (inl (Wrapf "graph: loop marshal state: " (Errorf "json")), w)
  | Some currentJSON =>
      let fillUp := match GetInterruptValue invokeErr with
                    | None | Some VNil => None
                    | Some v => marshal J v
                    end in
      let st := {| Iteration := iteration; CurrentInput := Some currentJSON;
                   UserFillUpValue := fillUp |} in
      let '(r, ic) := Interrupt gen (the_context w.1) (loop_value J st) in
      (match r with inl err => inl err | inr _ => inr VNil end, (set_context w.1 ic, w.2))
  end.

(** One iteration: a result, or the next input. *)
(* internal/harness/graph/graph/loop.go:180-242 runLoop(part) *)
Definition loop_body (iteration : Z) (current : value) (w : contexts * S)
    : ((error + value) + value) * (contexts * S) :=
  match invoke (subCheckpointID iteration) current w with
  | (inl invokeErr, w) =>
      if IsInterrupt invokeErr
      then let '(r, w) := loop_interrupt iteration current invokeErr w in (inl r, w)
      else (inl (inl (Wrapf ("graph: loop iteration " +:+ pretty iteration +:+ ": ") invokeErr)), w)
  | (inr next, w) =>
      match shouldQuit iteration current next w with
      | (inl qErr, w) =>
          (inl (inl (Wrapf ("graph: loop condition iteration " +:+ pretty iteration +:+ ": ") qErr)), w)
      | (inr true, w) => (inl (inr next), w)
      | (inr false, w) =>
          if decide (maxIterations options ≤ iteration)%Z
          then (inl (inl (Errorf (ErrLoopMaxIterationsExceeded +:+ ": " +:+ pretty (maxIterations options)))), w)
          else (inr next, w)
      end
  end.

Fixpoint loop_from (fuel : nat) (iteration : Z) (current : value) (w : contexts * S)
    : option ((error + value) * (contexts * S)) :=
  match fuel with
  | 0 => None
  | Datatypes.S fuel =>
      match loop_body iteration current w with
      | (inl r, w) => Some (r, w)
      | (inr next, w) => loop_from fuel (int_add iteration 1) next w
      end
  end.

(** Where a run starts. *)
(* internal/harness/graph/graph/loop.go:154-176 runLoop(part) *)
Definition loop_start (snap : option loopInterruptState) (input : value) : error + (Z * value) :=
  let start := match snap with
               | None => inr (1%Z, input)
               | Some snap =>
                   match CurrentInput snap with
                   | None => inr (Iteration snap, input)
                   | Some t =>
                       match unmarshal J t with
                       | None => inl (Wrapf (ErrLoopResumeStateInvalid +:+ ": decode current input: ") (Errorf "json"))
                       | Some decoded => inr (Iteration snap, decoded)
                       end
                   end
               end in
  match start with
  | inl err => inl err
  | inr (iteration, VNil) => inr (iteration, VMap ∅)
  | inr p => inr p
  end.

Definition loop_fuel (start : Z) : nat := Z.to_nat (maxIterations options - start) + 1.

(* internal/harness/graph/graph/loop.go:143-243 runLoop *)
Definition runLoop (sub_state : option value) (input : value) (w : contexts * S)
    : option ((error + value) * (contexts * S)) :=
  match loop_start (loadLoopSnapshot J sub_state w.1) input with
  | inl err => Some (inl err, w)
  | inr (iteration, current) => loop_from (loop_fuel iteration) iteration current w
  end.
End loop.

(** The node function; the checks of its arguments are done once. *)
(* internal/harness/graph/graph/loop.go:116-140 NewLoopNodeFunc *)
Definition NewLoopNodeFunc {S : Type} (J : JsonText) (gen : value → string) (key : string)
    (sub : option (string → value → contexts * S → (error + value) * (contexts * S)))
    (shouldQuit : option (Z → value → value → contexts * S → (error + bool) * (contexts * S)))
    (opts : list LoopOption)
    : error + (option value → value → contexts * S → option ((error + value) * (contexts * S))) :=
  if decide (key = "") then inl (Errorf "graph: loop key is empty") else
  match sub, shouldQuit with
  | None, _ => inl (Errorf "graph: loop sub-graph is nil")
  | _, None => inl (Errorf "graph: loop shouldQuit is nil")
  | Some invoke, Some quit =>
      let o := getLoopOptions opts in
      let o := if decide (checkpointIDPrefix o = "")
               then {| maxIterations := maxIterations o; checkpointIDPrefix := key |} else o in
      inr (runLoop J gen key invoke quit o)
  end.

(** ** The parallel node (graph/parallel.go)

    A node that runs a sub-graph once per item.  An item is one atomic action on
    the shared world; the order of the actions is the parameter [order], since
    with a concurrency above one the goroutines of all items but the first may
    finish in any order. *)

(* internal/harness/graph/graph/parallel.go:36-38 parallelOptions *)
Record parallelOptions := { maxConcurrency : Z }.
Definition ParallelOption : Type := parallelOptions → parallelOptions.

(* internal/harness/graph/graph/parallel.go:42-48 WithParallelMaxConcurrency *)
Definition WithParallelMaxConcurrency (n : Z) : ParallelOption := λ o,
  if decide (0 ≤ n)%Z then {| maxConcurrency := n |} else o.

(* internal/harness/graph/graph/parallel.go:50-56 getParallelOptions *)
Definition getParallelOptions (opts : list ParallelOption) : parallelOptions :=
  foldl (λ o opt, opt o) {| maxConcurrency := 0 |} opts.

(* internal/harness/graph/graph/parallel.go:65-71 parallelInterruptState *)
Record parallelInterruptState := {
  OriginalInputsJSON : string;
  CompletedResults : gmap Z value;
  InterruptedIndices : list Z;
  TotalCount : Z;
  ItemCheckpoints : gmap string string;
}.

(* internal/harness/graph/graph/parallel.go:74-78 parallelItemResult *)
Record parallelItemResult := { pr_index : Z; pr_outcome : error + value }.

(** The text form of JSON, as far as the node uses it. *)
Record ParallelJson := {
  marshal_items : list value → option string;
  unmarshal_parallel : string → option parallelInterruptState;
}.

(** The state as a Go value. *)
Definition parallel_value (st : parallelInterruptState) : value :=
  VStruct [("OriginalInputsJSON", Some "original_inputs_json", VBytes (OriginalInputsJSON st));
           ("CompletedResults", Some "completed_results",
            VOther "map[int]any" None (Some (VMap (kmap (M2 := gmap string) pretty (CompletedResults st)))));
           ("InterruptedIndices", Some "interrupted_indices", VList (map VInt (InterruptedIndices st)));
           ("TotalCount", Some "total_count", VInt (TotalCount st));
           ("ItemCheckpoints", if decide (ItemCheckpoints st = ∅) then None else Some "item_checkpoints",
            VMap (VBytes <$> ItemCheckpoints st))].

(* internal/harness/graph/graph/parallel.go:300-318 loadParallelSnapshot *)
Definition loadParallelSnapshot (J : ParallelJson) (c : contexts) : option parallelInterruptState :=
  head (omap (λ v, match v with
                   | VBytes t | VStr t =>
                       st ← unmarshal_parallel J t; if decide (0 < TotalCount st)%Z then Some st else None
                   | _ => None
                   end) (GetResumeValues c)).

(** [outputs[i] = v] for an index in range. *)
Definition set_output (outputs : list value) (i : Z) (v : value) : list value :=
  if decide (0 ≤ i < Z.of_nat (length outputs))%Z then <[Z.to_nat i := v]> outputs else outputs.

(* internal/harness/graph/graph/parallel.go:326-337 newItemCheckpointStore *)
Definition newItemCheckpointStore (data : gmap string string) : gmap string string := data.
(* internal/harness/graph/graph/parallel.go:339-349 itemCheckpointStore.get *)
Definition store_get (s : gmap string string) (id : string) : option string := s !! id.
(* internal/harness/graph/graph/parallel.go:351-357 itemCheckpointStore.set *)
Definition store_set (s : gmap string string) (id payload : string) : gmap string string := <[id := payload]> s.
(* internal/harness/graph/graph/parallel.go:359-369 itemCheckpointStore.snapshot *)
Definition store_snapshot (s : gmap string string) : gmap string string := s.

Section parallel.
Context {S : Type} (J : ParallelJson) (gen : value → string).
Context (key : string) (options : parallelOptions).
Context (invoke : string → value → contexts * S → go (error + value) * (contexts * S)).
Context (order : list Z → list Z).

(* internal/harness/graph/graph/parallel.go:238-262 fanOutItems(part) *)
Definition runOne (items : list value) (idx : Z) (w : contexts * S)
    : parallelItemResult * (contexts * S) :=
  match (if decide (0 ≤ idx)%Z then items !! Z.to_nat idx else None) with
  | None =>
      ({| pr_index := idx;
          pr_outcome := inl (Errorf ("parallel item index " +:+ pretty idx +:+ " out of bounds (len(items)="
                                     +:+ pretty (Z.of_nat (length items)) +:+ ")")) |}, w)
  | Some item =>
      let '(r, w) := invoke ("parallel:" +:+ key +:+ ":item:" +:+ pretty idx) item w in
      ({| pr_index := idx;
          pr_outcome := match r with
                        | Ret r => r
                        | Panic => inl (Errorf ("parallel item " +:+ pretty idx +:+ " panic: "))
                        end |}, w)
  end.

Fixpoint run_items (items : list value) (indices : list Z) (w : contexts * S)
    : list parallelItemResult * (contexts * S) :=
  match indices with
  | [] => ([], w)
  | idx :: indices =>
      let '(r, w) := runOne items idx w in
      let '(rs, w) := run_items items indices w in (r :: rs, w)
  end.

(** The results in the order they are sent; the first item runs before the
    goroutines of the others are started. *)
(* internal/harness/graph/graph/parallel.go:223-297 fanOutItems *)
Definition fanOutItems (items : list value) (indices : list Z) (w : contexts * S)
    : list parallelItemResult * (contexts * S) :=
  if decide (maxConcurrency options ≤ 1)%Z then run_items items indices w
  else match indices with
       | [] => ([], w)
       | idx :: rest => run_items items (idx :: order rest) w
       end.

Record collected := {
  co_outputs : list value;
  co_completed : gmap Z value;
  co_interrupt : bool;
  co_error : option error;
}.

(* internal/harness/graph/graph/parallel.go:173-188 runParallel(part) *)
Definition collect_one (c : collected) (r : parallelItemResult) : collected :=
  match pr_outcome r with
  | inr v => {| co_outputs := set_output (co_outputs c) (pr_index r) v;
                co_completed := <[pr_index r := v]> (co_completed c);
                co_interrupt := co_interrupt c; co_error := co_error c |}
  | inl err =>
      if IsInterrupt err
      then {| co_outputs := co_outputs c; co_completed := co_completed c; co_interrupt := true;
              co_error := co_error c |}
      else {| co_outputs := co_outputs c; co_completed := co_completed c; co_interrupt := co_interrupt c;
              co_error := match co_error c with
                          | Some e => Some e
                          | None => Some (Wrapf ("graph: parallel item failed: item " +:+ pretty (pr_index r) +:+ ": ") err)
                          end |}
  end.

(* internal/harness/graph/graph/parallel.go:199-204 runParallel(part) *)
Definition pending_indices (total : Z) (completed : gmap Z value) : list Z :=
  filter (λ i, completed !! i = None) (map Z.of_nat (seq 0 (Z.to_nat total))).

(** Where a run starts: the total, the outputs so far, the indices to process and
    the checkpoints of the items.  The completed results are replayed in some
    order of the map; their indices are distinct, so the order does not matter. *)
(* internal/harness/graph/graph/parallel.go:136-160 runParallel(part) *)
Definition parallel_start (items : list value) (c : contexts)
    : Z * list value * list Z * gmap string string :=
  match loadParallelSnapshot J c with
  | None =>
      (Z.of_nat (length items), replicate (length items) VNil,
       map Z.of_nat (seq 0 (length items)), newItemCheckpointStore ∅)
  | Some prev =>
      (TotalCount prev,
       foldl (λ o kv, set_output o kv.1 kv.2) (replicate (Z.to_nat (TotalCount prev)) VNil)
         (map_to_list (CompletedResults prev)),
       InterruptedIndices prev, newItemCheckpointStore (ItemCheckpoints prev))
  end.

(** The state saved when an item was interrupted. *)
(* internal/harness/graph/graph/parallel.go:194-217 runParallel(part) *)
Definition parallel_interrupt (items : list value) (total : Z) (completed : gmap Z value)
    (bridge : gmap string string) (w : contexts * S) : (error + value) * (contexts * S) :=
  match marshal_items J items with
  | None => (inl (Wrapf "graph: parallel marshal inputs: " (Errorf "json")), w)
  | Some inputsJSON =>
      let st := {| OriginalInputsJSON := inputsJSON; CompletedResults := completed;
                   InterruptedIndices := pending_indices total completed;
                   TotalCount := total; ItemCheckpoints := store_snapshot bridge |} in
      let '(r, ic) := Interrupt gen (the_context w.1) (parallel_value st) in
      (match r with inl err => inl err | inr _ => inr VNil end, (set_context w.1 ic, w.2))
  end.

(* internal/harness/graph/graph/parallel.go:129-220 runParallel *)
Definition runParallel (items : list value) (w : contexts * S) : (error + value) * (contexts * S) :=
  let '(total, outputs, indices, bridge) := parallel_start items w.1 in
  match indices with
  | [] => (inr (VList outputs), w)
  | _ =>
      let '(results, w) := fanOutItems items indices w in
      let c := foldl collect_one {| co_outputs := outputs; co_completed := ∅; co_interrupt := false;
                                    co_error := None |} results in
      match co_error c with
      | Some err => (inl err, w)
      | None =>
          if co_interrupt c then parallel_interrupt items total (co_completed c) bridge w
          else (inr (VList (co_outputs c)), w)
      end
  end.

(** The items of the node's input. *)
(* internal/harness/graph/graph/parallel.go:101-124 NewParallelNodeFunc(part) *)
Definition parallel_items (state : value) : error + list value :=
  match state with
  | VList items => inr items
  | VMap m =>
      let from_input := match m !! "__input__" with Some (VList l) => Some l | _ => None end in
      let items := match from_input with
                   | Some l => Some l
                   | None => match m !! "items" with Some (VList l) => Some l | _ => None end
                   end in
      match items with
      | Some l => inr l
      | None => inl (Errorf "graph: parallel node cannot extract []interface{} from map[string]interface {}")
      end
  | _ => inl (Errorf "graph: parallel node expects []interface{} input")
  end.

End parallel.

(** The node function; the checks of its arguments are done once. *)
(* internal/harness/graph/graph/parallel.go:88-126 NewParallelNodeFunc *)
Definition NewParallelNodeFunc {S : Type} (J : ParallelJson) (gen : value → string)
    (order : list Z → list Z) (key : string)
    (sub : option (string → value → contexts * S → go (error + value) * (contexts * S)))
    (opts : list ParallelOption)
    : error + (value → contexts * S → (error + value) * (contexts * S)) :=
  if decide (key = "") then inl (Errorf "graph: parallel key is empty") else
  match sub with
  | None => inl (Errorf "graph: parallel sub-graph is nil")
  | Some invoke =>
      inr (λ state w, match parallel_items state with
                      | inl err => (inl err, w)
                      | inr items => runParallel J gen key (getParallelOptions opts) invoke order items w
                      end)
  end.
