(* ===== verification/Tokenizer.v ===== *)
(** * Token counts and conversations that fit a budget
    (tokenizer/tokenizer.go, tokenizer/message_fit.go)

    The byte-pair encoder is a third-party package: [Encoder] is what the code
    calls of it, and [EncoderLaws] the documented behaviour the theorems rely on.
    There is none when its table could not be loaded. *)

From S2P Require Import Prelude GoValue.
From Stdlib Require Import SpecFloat.

Record Encoder := {
  encode_text : string → list Z;
  decode_text : list Z → string;
}.

Fixpoint is_ascii (s : string) : bool :=
  match s with "" => true | String a s => (Ascii.N_of_ascii a <? 128)%N && is_ascii s end.

(** Decoding concatenates the bytes of the tokens.  For an ASCII text, decoding its
    encoding gives the text back, every token has bytes, and the text of the first
    [n] tokens is one of at most [n] tokens, as [TrimContentToTokenLimit] documents.
    Nothing is assumed of other texts: a token may end inside a rune, and then the
    bytes cut there are no longer what the encoder reads. *)
Class EncoderLaws (enc : Encoder) : Prop := {
  decode_app l1 l2 : decode_text enc (l1 ++ l2) = decode_text enc l1 +:+ decode_text enc l2;
  decode_encode_text s : is_ascii s = true → decode_text enc (encode_text enc s) = s;
  encode_empty : encode_text enc "" = [];
  decode_token s z : is_ascii s = true → z ∈ encode_text enc s → decode_text enc [z] ≠ "";
  encode_prefix s n : is_ascii s = true →
    length (encode_text enc (decode_text enc (take n (encode_text enc s)))) ≤ n;
}.

(** The laws speak of this text; without an encoder there is nothing to assume. *)
Definition covered (enc : option Encoder) (s : string) : Prop :=
  ∀ e, enc = Some e → EncoderLaws e ∧ is_ascii s = true.

Lemma is_ascii_app s t : is_ascii (s +:+ t) = is_ascii s && is_ascii t.
Proof. induction s as [|a s IH]; [done|]. rewrite string_app_cons. cbn. by rewrite IH, andb_assoc. Qed.
Lemma covered_app enc s t : covered enc (s +:+ t) ↔ covered enc s ∧ covered enc t.
Proof.
  unfold covered. setoid_rewrite is_ascii_app. setoid_rewrite andb_true_iff. naive_solver.
Qed.
Lemma covered_left enc s t : covered enc (s +:+ t) → covered enc s.
Proof. by intros [? _]%covered_app. Qed.
Lemma covered_right enc s t : covered enc (s +:+ t) → covered enc t.
Proof. by intros [_ ?]%covered_app. Qed.

(* internal/tokenizer/tokenizer.go:606-615 NumTokensFromString *)
Definition NumTokensFromString (enc : option Encoder) (s : string) : Z :=
  if decide (s = "") then 0 else
  match enc with None => 0 | Some enc => Z.of_nat (length (encode_text enc s)) end.

(** Is the string valid UTF-8: nothing is replaced in it. *)
Definition utf8_valid (s : string) : bool := bool_decide (utf8_fix s = s).

(** The loop that shortens the first [limit] bytes until they are valid. *)
Fixpoint byte_trim (s : string) (limit : nat) : string :=
  match limit with
  | 0 => ""
  | S limit' => if utf8_valid (String.substring 0 limit s) then String.substring 0 limit s
                else byte_trim s limit'
  end.

(* internal/tokenizer/tokenizer.go:621-645 TrimContentToTokenLimit *)
Definition TrimContentToTokenLimit (enc : option Encoder) (s : string) (limit : Z) : string :=
  let limit := Z.max 0 limit in
  match enc with
  | None =>
      if decide (limit ≤ 0)%Z then ""
      else if decide (Z.of_nat (String.length s) ≤ limit)%Z then s
      else byte_trim s (Z.to_nat limit)
  | Some enc =>
      let tokens := encode_text enc s in
      if decide (Z.of_nat (length tokens) ≤ limit)%Z then s
      else decode_text enc (take (Z.to_nat limit) tokens)
  end.

(** ** Messages *)

(* internal/tokenizer/message_fit.go:17-23 Message *)
Record Message := { Role : string; Content : string }.
Definition with_content (m : Message) (c : string) : Message := {| Role := Role m; Content := c |}.

Section fit.
Context (enc : option Encoder).
Notation num := (NumTokensFromString enc).
Notation trim := (TrimContentToTokenLimit enc).

(* internal/tokenizer/message_fit.go:169-175 countTokens *)
Definition countTokens (msgs : list Message) : Z :=
  foldl (λ total m, (total + num (Content m))%Z) 0%Z msgs.

(** [int(float64(budget) * float64(tokens) / float64(total))]. *)
Definition f64_div : float64 → float64 → float64 := SFdiv 53 1024.
Definition share (budget tokens total : Z) : Z :=
  int_of_f64 (f64_div (f64_mul (f64_of_int budget) (f64_of_int tokens)) (f64_of_int total)).

(** The loop of [trimSystems] over the messages from some index on. *)
Fixpoint trim_each (budget total remaining : Z) (sys : list Message) : list Message :=
  match sys with
  | [] => []
  | m :: rest =>
      let limit := match rest with
                   | [] => remaining
                   | _ => Z.min (share budget (num (Content m)) total) remaining
                   end in
      let m' := with_content m (trim (Content m) limit) in
      m' :: trim_each budget total (remaining - num (Content m')) rest
  end.

(* internal/tokenizer/message_fit.go:137-167 trimSystems *)
Definition trimSystems (sys : list Message) (budget : Z) : list Message :=
  if decide (budget ≤ 0)%Z then map (λ m, with_content m "") sys else
  let total := countTokens sys in
  if decide (total ≤ 0)%Z then sys else trim_each budget total budget sys.

(** The constant 0.8. *)
Definition f64_0_8 : float64 := S754_finite false 7205759403792794 (-53).
Definition f64_gt (a b : float64) : bool := SFltb b a.

(** The messages of the second step, with their indices: the system messages,
    then the last of the others. *)
Definition indexed (msgs : list Message) : list (nat * Message) := imap pair msgs.
Definition keep_system (msgs : list Message) : list (nat * Message) :=
  let systems := filter (λ im, Role im.2 = "system") (indexed msgs) in
  match last (filter (λ im, Role im.2 ≠ "system") (indexed msgs)) with
  | Some l => systems ++ [l]
  | None => systems
  end.
Definition has_other (msgs : list Message) : bool := existsb (λ m, bool_decide (Role m ≠ "system")) msgs.

(** The third step: kept messages over the budget are trimmed. *)
(* internal/tokenizer/message_fit.go:91-130 Fit(part) *)
Definition fit_trim (other : bool) (budget : Z) (kept : list Message) : list Message * option Z :=
  match kept with
  | [m] => ([with_content m (trim (Content m) budget)], None)
  | _ =>
      if negb other then (trimSystems kept budget, None) else
      match last kept with
      | None => (kept, None)
      | Some last =>
          let sys := take (length kept - 1) kept in
          let ll := countTokens sys in
          let ll2 := num (Content last) in
          let total := (ll + ll2)%Z in
          if decide (total ≤ 0)%Z then (kept, Some 0%Z)
          else if f64_gt (f64_div (f64_of_int ll) (f64_of_int total)) f64_0_8 then
            let preserved := Z.min ll2 budget in
            (trimSystems sys (Z.max 0 (budget - preserved)) ++ [with_content last (trim (Content last) preserved)], None)
          else
            let preserved := Z.min ll budget in
            (trimSystems sys preserved ++ [with_content last (trim (Content last) (Z.max 0 (budget - preserved)))], None)
      end
  end.

(* internal/tokenizer/message_fit.go:51-131 Fit *)
Definition Fit (msgs : list Message) (budget : Z) : list Message * list Z * Z :=
  let budget := if decide (budget ≤ 0)%Z then 8192%Z else budget in
  match msgs with
  | [] => ([], [], 0%Z)
  | _ =>
      if decide (countTokens msgs ≤ budget)%Z
      then (msgs, map Z.of_nat (seq 0 (length msgs)), countTokens msgs)
      else
        let pairs := keep_system msgs in
        let kept := pairs.*2 in
        let keptIdx := map Z.of_nat pairs.*1 in
        match kept with
        | [] => ([], [], 0%Z)
        | _ =>
            if decide (countTokens kept ≤ budget)%Z then (kept, keptIdx, countTokens kept)
            else match fit_trim (has_other msgs) budget kept with
                 | (kept, Some count) => (kept, keptIdx, count)
                 | (kept, None) => (kept, keptIdx, countTokens kept)
                 end
        end
  end.
End fit.
