(* ===== verification/TitleLevels.v ===== *)
(** * Heading levels and the token ceiling of the title chunkers
    (internal/ingestion/component/chunker)

    Which lines of a document are headings, and of which level; how text that is
    longer than the ceiling is split at sentences and at tokens. *)

From S2P Require Import Prelude GoValue Tokenizer.

(** ** Heading levels of the lines of a document (ingestion/component/chunker/title.go)

    The regular expressions are arguments: [level_match] compiles and applies a
    pattern of the configuration, [Patterns] are the fixed ones. *)

(** ** Runes *)

(** The encodings of the runes of a string; a byte that is not part of one
    stands for itself, as in Go's [for range]. *)
Fixpoint runes (s : string) : list string :=
  match s with
  | EmptyString => []
  | String a s1 =>
      let one := String a "" :: runes s1 in
      if rune1 a then one else
      match s1 with
      | EmptyString => one
      | String b s2 =>
          if rune2 a b then String a (String b "") :: runes s2 else
          match s2 with
          | EmptyString => one
          | String c s3 =>
              if rune3 a b c then String a (String b (String c "")) :: runes s3 else
              match s3 with
              | EmptyString => one
              | String d s4 =>
                  if rune4 a b c d then String a (String b (String c (String d ""))) :: runes s4 else one
              end
          end
      end
  end.
Definition RuneCountInString (s : string) : Z := Z.of_nat (length (runes s)).
Definition concat_strings (l : list string) : string := foldr String.append "" l.

(** ** Lines *)

(** A raw JSON message: nothing when it is empty, else the value its text
    denotes.  The messages come from the decoder, which only keeps valid JSON. *)
Definition RawMessage : Type := option value.

(* internal/ingestion/component/chunker/title.go:637-646 lineRecord *)
Record lineRecord := {
  lr_text : string;
  docType : string;
  imgID : option string;
  layout : string;
  ckType : string;
  pdfPositions : RawMessage;
  positions : RawMessage;
  parentMeta : gmap string value;
}.

(* internal/ingestion/component/chunker/title.go:649-649 lineRecord.isText *)
Definition isText (r : lineRecord) : bool := bool_decide (docType r = "text").

(* internal/ingestion/component/chunker/title.go:609-609 bodyLevel(part) *)
Definition bodyLevel : Z := 2 ^ 31 - 1.

(* internal/ingestion/component/chunker/title.go:613-632 lineRecordsFromText *)
Definition lineRecordsFromText (text : string) : list lineRecord :=
  if decide (text = "") then [] else
  omap (λ ln, if decide (trim_space ln = "") then None
              else Some {| lr_text := ln; docType := "text"; imgID := None; layout := ""; ckType := "";
                           pdfPositions := None; positions := None; parentMeta := ∅ |})
       (split_on (Ascii.ascii_of_N 10) text).

(** ** Detection *)

Record Patterns := {
  notBullet : string → bool;
  notTitleException : string → bool;
  notTitlePunct : string → bool;
  layoutHeadingRe : string → bool;
  bulletLayoutRe : string → bool;
  numericOnly : string → bool;
  bulletPatterns : list (list (string → bool));
}.

Section levels.
Context (level_match : string → string → bool) (P : Patterns).

(** The family of patterns with the most hits; the first one wins ties. *)
(* internal/ingestion/component/chunker/title.go:139-183 selectLevelGroup *)
Definition selectLevelGroup (lines : list string) (rawLevels : list (list string)) : list string :=
  let hit group line :=
    let text := trim_space line in
    negb (bool_decide (text = "")) && negb (notBullet P text)
    && existsb (λ pattern, negb (bool_decide (pattern = "")) && level_match pattern text) group in
  let hits := map (λ group, length (filter (λ line, hit group line = true) lines)) rawLevels in
  let '(best, _) := foldl (λ '(best, n) '(i, h), if decide (n < h)%nat then (Some i, h) else (best, n))
                      (None, 0%nat) (imap pair hits) in
  match best with
  | None => []
  | Some i => filter (λ p, p ≠ "") (default [] (rawLevels !! i))
  end.

(** The index of the first match, from 1; 0 when there is none. *)
Fixpoint first_match {A} (f : A → bool) (l : list A) (i : Z) : Z :=
  match l with [] => 0%Z | x :: l => if f x then i else first_match f l (i + 1)%Z end.

(* internal/ingestion/component/chunker/title.go:187-204 matchRegexLevel *)
Definition matchRegexLevel (text : string) (group : list string) : Z :=
  let stripped := trim_space text in
  if decide (stripped = "") then 0%Z else
  if notBullet P stripped then 0%Z else
  first_match (λ pattern, negb (bool_decide (pattern = "")) && level_match pattern stripped) group 1%Z.

Definition at_sign : Ascii.ascii := Ascii.ascii_of_N 64.
(* internal/ingestion/component/chunker/title.go:256-261 beforeAt *)
Definition beforeAt (s : string) : string := trim_space (default "" (head (split_on at_sign s))).

Definition space : Ascii.ascii := Ascii.ascii_of_N 32.
(** [strings.Fields], counted: maximal runs of runes that are not white space. *)
Definition is_space (r : string) : bool := bool_decide (trim_space r = "").
Definition count_fields (s : string) : nat :=
  (foldl (λ '(n, inside) r, if is_space r then (n, false) else (if inside : bool then n else S n, true))
     (0%nat, false) (runes s)).1.

(* internal/ingestion/component/chunker/title.go:243-251 notTitle *)
Definition notTitle (s : string) : bool :=
  if notTitleException P s then false
  else if decide (12 < count_fields s)%nat then true
  else if negb (contains_byte space s) && bool_decide (32 ≤ RuneCountInString s)%Z then true
  else notTitlePunct P s.

(* internal/ingestion/component/chunker/title.go:268-273 matchLayoutLevel *)
Definition matchLayoutLevel (text layout : string) (fallbackLevel : Z) : Z :=
  if layoutHeadingRe P layout && negb (notTitle (beforeAt text)) then fallbackLevel else bodyLevel.

Definition drop_last_if (r : string) (rs : list string) : list string :=
  match last rs with Some x => if decide (x = r) then take (length rs - 1) rs else rs | None => rs end.
(** The runes after the last one of [set], if there is one. *)
Fixpoint after_last (set : list string) (rs : list string) : option (list string) :=
  match rs with
  | [] => None
  | r :: rs => match after_last set rs with
               | Some t => Some t
               | None => if decide (r ∈ set) then Some rs else None
               end
  end.

(* internal/ingestion/component/chunker/title.go:292-314 isColonTitle *)
Definition isColonTitle (s : string) : bool :=
  let rs := runes s in
  if bool_decide (last rs = Some ":") || bool_decide (last rs = Some "：") then
    match after_last ["。"; "？"; "！"; "!"; "?"; ";"; "；"; "."] (drop_last_if "：" (drop_last_if ":" rs)) with
    | None => false
    | Some between => bool_decide (32 ≤ RuneCountInString (trim_space (concat_strings between)))%Z
    end
  else false.

(* internal/ingestion/component/chunker/title.go:324-352 resolveTitleLevels(part) *)
Definition frequency_level (group : list string) (rec : lineRecord) : Z :=
  let fallbackLevel := (Z.of_nat (length group) + 1)%Z in
  if negb (isText rec) then bodyLevel else
  let text := beforeAt (lr_text rec) in
  if bool_decide (RuneCountInString text ≤ 1)%Z || numericOnly P text then bodyLevel else
  match matchRegexLevel (lr_text rec) group with
  | 0%Z => if decide (ckType rec = "heading") then fallbackLevel
         else if isColonTitle text then fallbackLevel
         else matchLayoutLevel (lr_text rec) (layout rec) fallbackLevel
  | lvl => lvl
  end.

(* internal/ingestion/component/chunker/title.go:394-401 allBodyLevel *)
Definition allBodyLevel (levels : list Z) : bool := forallb (λ l, negb (bool_decide (l < bodyLevel)%Z)) levels.

(* internal/ingestion/component/chunker/title.go:445-469 bulletsCategory *)
Definition bulletsCategory (records : list lineRecord) : option nat :=
  let hit group rec :=
    isText rec && existsb (λ pat, pat (trim_space (lr_text rec)) && negb (notBullet P (trim_space (lr_text rec)))) group in
  let hits := map (λ group, length (filter (λ rec, hit group rec = true) records)) (bulletPatterns P) in
  (foldl (λ '(best, n) '(i, h), if decide (n < h)%nat then (Some i, h) else (best, n))
     (None, 0%nat) (imap pair hits)).1.

(* internal/ingestion/component/chunker/title.go:364-385 resolveTitleLevels(part) *)
Definition bullet_level (group : list (string → bool)) (rec : lineRecord) (lvl : Z) : Z :=
  if negb (bool_decide (lvl = bodyLevel)) || negb (isText rec) then lvl else
  let trimmed := trim_space (lr_text rec) in
  match first_match (λ pat : string → bool, pat trimmed && negb (notBullet P trimmed)) group 1%Z with
  | 0%Z => if bulletLayoutRe P (layout rec) && negb (notTitle (beforeAt (lr_text rec)))
         then (Z.of_nat (length group) + 1)%Z else lvl
  | j => j
  end.

(* internal/ingestion/component/chunker/title.go:316-389 resolveTitleLevels *)
Definition resolveTitleLevels (records : list lineRecord) (levels : list (list string)) : list Z :=
  let group := selectLevelGroup (map lr_text records) levels in
  let out := map (frequency_level group) records in
  if bool_decide (group = []) || allBodyLevel out then
    match bulletsCategory records with
    | Some bull => zip_with (bullet_level (default [] (bulletPatterns P !! bull))) records out
    | None => out
    end
  else out.

(** ** The outline of a PDF *)

(* internal/ingestion/component/chunker/title.go:474-477 outlineEntry *)
Record outlineEntry := { oe_title : string; oe_level : Z }.

(* internal/ingestion/component/chunker/title.go:484-516 outlineSimilarity *)
Definition outlineSimilarity (left right : string) : float64 :=
  let lr := runes (utf8_fix left) in
  let rr := runes (utf8_fix right) in
  let leftPairs : gset string := list_to_set (zip_with String.append lr (tail lr)) in
  let n := Z.max 0 (Z.min (Z.of_nat (length lr)) (Z.of_nat (length rr) - 1)) in
  let rightPairs : gset string := list_to_set (take (Z.to_nat n) (zip_with String.append rr (tail rr))) in
  let denom := Z.max (Z.of_nat (size leftPairs)) (Z.of_nat (size rightPairs)) in
  if decide (denom = 0)%Z then f64_of_int 0
  else f64_div (f64_of_int (Z.of_nat (size (leftPairs ∩ rightPairs)))) (f64_of_int denom).

(** The constant 0.03. *)
Definition f64_0_03 : float64 := SpecFloat.S754_finite false 8646911284551352 (-58).

(* internal/ingestion/component/chunker/title.go:525-558 resolveOutlineLevels *)
Definition resolveOutlineLevels (records : list lineRecord) (outline : list outlineEntry)
    : option (list Z * Z) :=
  if bool_decide (outline = []) || bool_decide (records = []) then None else
  if negb (f64_gt (f64_div (f64_of_int (Z.of_nat (length outline))) (f64_of_int (Z.of_nat (length records)))) f64_0_03)
  then None else
  let maxLevel := foldl (λ m o, if decide (m < oe_level o)%Z then oe_level o else m) 0%Z outline in
  let level_of rec :=
    if negb (isText rec) then bodyLevel else
    match head (filter (λ o, f64_gt (outlineSimilarity (oe_title o) (lr_text rec)) f64_0_8 = true) outline) with
    | None => bodyLevel
    | Some o => if decide (oe_level o + 1 = 0)%Z then bodyLevel else (oe_level o + 1)%Z
    end in
  Some (map level_of records, Z.max 1 maxLevel).

(* internal/ingestion/component/chunker/title.go:684-687 LevelContext *)
Record LevelContext := { lc_levels : list Z; mostLevel : Z }.

Definition count_of (lvl : Z) (levels : list Z) : nat :=
  length (filter (λ l, l = lvl ∧ (l < bodyLevel)%Z) levels).

(* internal/ingestion/component/chunker/title.go:692-717 newLevelContext *)
Definition newLevelContext (records : list lineRecord) (outline : list outlineEntry)
    (levels : list (list string)) : LevelContext :=
  match resolveOutlineLevels records outline with
  | Some (levels, most) => {| lc_levels := levels; mostLevel := most |}
  | None =>
      let levels := resolveTitleLevels records levels in
      let '(most, _) := foldl (λ '(most, best) lvl,
                           if decide (best < count_of lvl levels)%nat then (lvl, count_of lvl levels) else (most, best))
                         (0%Z, 0%nat) levels in
      {| lc_levels := levels; mostLevel := most |}
  end.
End levels.

(** ** The token ceiling of the title chunkers (ingestion/component/chunker/title_cap.go)

    A chunk is a map.  How a matrix of positions is sliced is an argument. *)

Definition has_prefix (s p : string) : bool := String.prefix p s.
Definition drop_bytes (n : nat) (s : string) : string := String.substring n (String.length s - n) s.

(* internal/ingestion/component/chunker/title_cap.go:48-57 titleTokenCount *)
Definition titleTokenCount (enc : option Encoder) (text : string) : Z :=
  if decide (text = "") then 0%Z else
  match NumTokensFromString enc text with
  | 0%Z => RuneCountInString text
  | n => n
  end.

(** The matches of the sentence boundary, by runes: one of the marks, or a full
    stop and a space. *)
Definition sentence_marks : list string := ["。"; "!"; "?"; "？"; "；"; "！"; String (Ascii.ascii_of_N 10) ""].
Fixpoint sentences (rs : list string) (current : string) : list string :=
  match rs with
  | [] => if decide (current = "") then [] else [current]
  | r :: rest =>
      if decide (r ∈ sentence_marks) then (current +:+ r) :: sentences rest ""
      else match rest with
           | r2 :: rest2 =>
               if decide (r = "." ∧ r2 = " ") then (current +:+ r +:+ r2) :: sentences rest2 ""
               else sentences rest (current +:+ r)
           | [] => sentences rest (current +:+ r)
           end
  end.
(* internal/ingestion/component/chunker/title_cap.go:64-83 titleSentenceSplit *)
Definition titleSentenceSplit (text : string) : list string := sentences (runes text) "".

(* internal/ingestion/component/chunker/title_cap.go:87-99 runePrefix *)
Definition runePrefix (s : string) (n : Z) : string :=
  if decide (n ≤ 0)%Z then "" else concat_strings (take (Z.to_nat n) (runes s)).

(** The loop of [hardSplitByTokens]. *)
Fixpoint hard_split (enc : option Encoder) (cap : Z) (fuel : nat) (rest : string) : option (list string) :=
  match fuel with
  | O => None
  | S fuel =>
      if decide (RuneCountInString rest ≤ 0)%Z then Some [] else
      if decide (titleTokenCount enc rest ≤ cap)%Z then Some [rest] else
      let cut head := option_map (cons head) (hard_split enc cap fuel (drop_bytes (String.length head) rest)) in
      let head := TrimContentToTokenLimit enc rest cap in
      if bool_decide (head = "") || bool_decide (head = rest) || negb (has_prefix rest head) then
        let head := runePrefix rest cap in
        if bool_decide (head = "") || bool_decide (head = rest) then Some [rest] else cut head
      else cut head
  end.

(* internal/ingestion/component/chunker/title_cap.go:106-137 hardSplitByTokens *)
Definition hardSplitByTokens (enc : option Encoder) (text : string) (cap : Z) : option (list string) :=
  if decide (cap ≤ 0)%Z then Some (if decide (text = "") then [] else [text])
  else hard_split enc cap (String.length text + 1) text.

(** Sentences are collected as long as they fit together. *)
(* internal/ingestion/component/chunker/title_cap.go:177-193 splitTitleChunkByCap(part) *)
Fixpoint collect_sentences (enc : option Encoder) (cap : Z) (current : string) (ss : list string) : list string :=
  match ss with
  | [] => if decide (current = "") then [] else [current]
  | s :: ss =>
      if decide (current = "") then collect_sentences enc cap s ss
      else if decide (cap < titleTokenCount enc (current +:+ s))%Z
      then current :: collect_sentences enc cap s ss
      else collect_sentences enc cap (current +:+ s) ss
  end.

(* internal/ingestion/component/chunker/title_cap.go:194-201 splitTitleChunkByCap(part) *)
Definition cap_groups (enc : option Encoder) (cap : Z) (groups : list string) : option (list string) :=
  pieces ← mapM (λ g, if decide (titleTokenCount enc g ≤ cap)%Z then Some [g] else hardSplitByTokens enc g cap) groups;
  Some (concat pieces).

Definition chunk_text (chunk : gmap string value) : string :=
  match chunk !! "text" with Some (VStr s) => s | _ => "" end.

(* internal/ingestion/component/chunker/title_cap.go:269-277 toStringOrDefault *)
Definition toStringOrDefault (v : option value) (def : string) : string :=
  match v with Some (VStr s) => s | _ => def end.

Section cap.
Context (enc : option Encoder) (sliceAnyPositions : value → float64 → float64 → option value).

(** The positions of a part of the text between two ratios. *)
Definition slice_key (key : string) (startRatio endRatio : float64) (chunk sub : gmap string value) : gmap string value :=
  match chunk !! key with
  | None => sub
  | Some pos => match sliceAnyPositions pos startRatio endRatio with
                | Some sliced => <[key := sliced]> sub
                | None => sub
                end
  end.

(* internal/ingestion/component/chunker/title_cap.go:230-251 splitTitleChunkByCap(part) *)
Fixpoint sub_chunks (chunk : gmap string value) (total cum : Z) (groups : list string) : list (gmap string value) :=
  match groups with
  | [] => []
  | g :: groups =>
      let pcRunes := RuneCountInString g in
      let startRatio := f64_div (f64_of_int cum) (f64_of_int total) in
      let endRatio := f64_div (f64_of_int (cum + pcRunes)) (f64_of_int total) in
      let sub := <["text" := VStr g]> chunk in
      slice_key "positions" startRatio endRatio chunk (slice_key "_pdf_positions" startRatio endRatio chunk sub)
      :: sub_chunks chunk total (cum + pcRunes) groups
  end.

(* internal/ingestion/component/chunker/positions_slice.go:175-181 totalRunes *)
Definition totalRunes (strs : list string) : Z := foldl (λ n s, (n + RuneCountInString s)%Z) 0%Z strs.

(* internal/ingestion/component/chunker/title_cap.go:171-252 splitTitleChunkByCap *)
Definition splitTitleChunkByCap (chunk : gmap string value) (cap : Z) : option (list (gmap string value)) :=
  match titleSentenceSplit (chunk_text chunk) with
  | [] => Some [chunk]
  | ss =>
      finalGroups ← cap_groups enc cap (collect_sentences enc cap "" ss);
      match finalGroups with
      | [] => Some [chunk]
      | _ =>
          let has key := bool_decide (is_Some (chunk !! key)) in
          let total := totalRunes finalGroups in
          if (negb (has "_pdf_positions") && negb (has "positions")) || bool_decide (total = 0%Z)
          then Some (map (λ g, <["text" := VStr g]> chunk) finalGroups)
          else Some (sub_chunks chunk total 0 finalGroups)
      end
  end.

(** What becomes of one chunk. *)
(* internal/ingestion/component/chunker/title_cap.go:150-161 enforceTitleTokenCap(part) *)
Definition cap_chunk (cap : Z) (chunk : gmap string value) : option (list (gmap string value)) :=
  if decide (toStringOrDefault (chunk !! "doc_type_kwd") "text" ≠ "text") then Some [chunk]
  else if bool_decide (chunk_text chunk = "") || bool_decide (titleTokenCount enc (chunk_text chunk) ≤ cap)%Z
  then Some [chunk]
  else splitTitleChunkByCap chunk cap.

(* internal/ingestion/component/chunker/title_cap.go:145-163 enforceTitleTokenCap *)
Definition enforceTitleTokenCap (chunks : list (gmap string value)) (cap : Z) : option (list (gmap string value)) :=
  if decide (cap ≤ 0)%Z then Some chunks else
  out ← mapM (cap_chunk cap) chunks;
  Some (concat out).
End cap.
