(* ===== verification/TitleGroups.v ===== *)
(** * Grouping the lines of a document into chunks
    (ingestion/component/chunker/group.go, hierarchy.go)

    The tree of headings is built by reference: a node is created, linked from
    its parent and then filled through the stack.  [store] is the memory of the
    nodes, a pointer is an index of it. *)

From S2P Require Import Prelude GoValue Tokenizer TitleLevels.

(* internal/ingestion/component/chunker/title.go:78-80 titleChunkerParam *)
Record titleChunkerParam := {
  tp_Levels : list (list string);
  tp_Hierarchy : option Z;
  IncludeHeadingContent : bool;
  RootChunkAsHeading : bool;
  ChunkTokenCap : Z;
}.

(** ** Target levels and sections *)

(** One step of the insertion sort: the element moves left past larger ones. *)
Fixpoint insert_asc (x : Z) (l : list Z) : list Z :=
  match l with [] => [x] | y :: l' => if decide (y ≤ x)%Z then y :: insert_asc x l' else x :: l end.
Definition distinct_tiers (levels : list Z) : list Z :=
  foldl (λ tiers l, if decide (0 < l < bodyLevel ∧ l ∉ tiers)%Z then tiers ++ [l] else tiers) [] levels.

(* internal/ingestion/component/chunker/group.go:67-92 resolveTargetLevel *)
Definition resolveTargetLevel (levels : list Z) (hierarchy : Z) : Z :=
  match distinct_tiers levels with
  | [] => 0%Z
  | tiers =>
      let sorted := foldl (λ l x, insert_asc x l) [] tiers in
      let hierarchy := Z.min (Z.max 1 hierarchy) (Z.of_nat (length tiers)) in
      default 0%Z (sorted !! Z.to_nat (hierarchy - 1))
  end.

(** The section of each line; [first] is whether it is the first one. *)
Fixpoint section_ids (targetLevel sid : Z) (first : bool) (levels : list Z) : list Z :=
  match levels with
  | [] => []
  | lvl :: levels =>
      let sid := if negb first && bool_decide (0 < targetLevel)%Z && bool_decide (lvl ≤ targetLevel)%Z
                 then (sid + 1)%Z else sid in
      sid :: section_ids targetLevel sid false levels
  end.
(* internal/ingestion/component/chunker/group.go:97-107 buildSectionIDs *)
Definition buildSectionIDs (levels : list Z) (targetLevel : Z) : list Z :=
  section_ids targetLevel 0 true levels.

(* internal/ingestion/component/chunker/group.go:482-487 resolveGroupTargetLevel *)
Definition resolveGroupTargetLevel (levels : list Z) (p : titleChunkerParam) (mostLevel : Z) : Z :=
  match tp_Hierarchy p with
  | Some h => if decide (0 < h)%Z then resolveTargetLevel levels h else mostLevel
  | None => mostLevel
  end.

(** ** Groups of adjacent lines *)

Definition minGroupTokens : Z := 32.
Definition maxGroupTokens : Z := 1024.

Record grouping := {
  gr_groups : list (list lineRecord);
  gr_current : list lineRecord;
  gr_tokens : Z;
  gr_lastSID : Z;
}.

Definition flush_group (groups : list (list lineRecord)) (current : list lineRecord) : list (list lineRecord) :=
  match current with [] => groups | _ => groups ++ [current] end.

(* internal/ingestion/component/chunker/group.go:228-259 groupRecords(part) *)
Definition group_step (enc : option Encoder) (g : grouping) (rs : lineRecord * Z) : grouping :=
  let '(rec, secID) := rs in
  if negb (isText rec) then
    {| gr_groups := flush_group (gr_groups g) (gr_current g) ++ [[rec]]; gr_current := []; gr_tokens := 0;
       gr_lastSID := -2 |}
  else
    let text := trim_space (lr_text rec) in
    if decide (text = "") then g else
    let tokenCount := NumTokensFromString enc text in
    let shouldMerge :=
      match gr_current g with
      | [] => false
      | first :: _ =>
          isText first && (bool_decide (gr_tokens g < minGroupTokens)%Z
            || (bool_decide (gr_tokens g < maxGroupTokens)%Z && bool_decide (secID = gr_lastSID g)))
      end in
    if shouldMerge then
      {| gr_groups := gr_groups g; gr_current := gr_current g ++ [rec];
         gr_tokens := gr_tokens g + tokenCount; gr_lastSID := secID |}
    else
      {| gr_groups := flush_group (gr_groups g) (gr_current g); gr_current := [rec];
         gr_tokens := tokenCount; gr_lastSID := secID |}.

(* internal/ingestion/component/chunker/group.go:219-264 groupRecords *)
Definition groupRecords (enc : option Encoder) (records : list lineRecord) (secIDs : list Z)
    : list (list lineRecord) :=
  let g := foldl (group_step enc) {| gr_groups := []; gr_current := []; gr_tokens := 0; gr_lastSID := -2 |}
             (zip records secIDs) in
  flush_group (gr_groups g) (gr_current g).

(** ** The tree of headings *)

(* internal/ingestion/component/chunker/hierarchy.go:57-62 chunkNode *)
Record chunkNode := {
  level : Z;
  titleIndexes : list Z;
  bodyIndexes : list Z;
  children : list nat;
}.

(* internal/ingestion/component/chunker/hierarchy.go:64-66 chunkNode.addBodyIndex *)
Definition addBodyIndex (idx : Z) (n : chunkNode) : chunkNode :=
  {| level := level n; titleIndexes := titleIndexes n; bodyIndexes := bodyIndexes n ++ [idx];
     children := children n |}.
(* internal/ingestion/component/chunker/hierarchy.go:68-70 chunkNode.addChild *)
Definition addChild (c : nat) (n : chunkNode) : chunkNode :=
  {| level := level n; titleIndexes := titleIndexes n; bodyIndexes := bodyIndexes n;
     children := children n ++ [c] |}.

(** Pop while the stack has more than the root and its top is not below [lvl];
    the top of the stack comes first. *)
Fixpoint pop_to (store : list chunkNode) (lvl : Z) (stack : list nat) : list nat :=
  match stack with
  | top :: ((_ :: _) as rest) =>
      match store !! top with
      | Some n => if decide (lvl ≤ level n)%Z then pop_to store lvl rest else stack
      | None => stack
      end
  | _ => stack
  end.

(* internal/ingestion/component/chunker/hierarchy.go:78-91 buildTree(part) *)
Definition tree_step (depth : Z) (st : list chunkNode * list nat) (line : Z * Z) : list chunkNode * list nat :=
  let '(store, stack) := st in
  let '(lvl, idx) := line in
  if decide (depth < lvl)%Z then
    match stack with
    | top :: _ => (alter (addBodyIndex idx) top store, stack)
    | [] => st
    end
  else
    let stack := pop_to store lvl stack in
    let node := length store in
    let store := match stack with top :: _ => alter (addChild node) top store | [] => store end in
    (store ++ [{| level := lvl; titleIndexes := [idx]; bodyIndexes := []; children := [] |}], node :: stack).

(** The nodes; the root is the first one. *)
(* internal/ingestion/component/chunker/hierarchy.go:75-93 buildTree *)
Definition buildTree (lines : list (Z * Z)) (depth : Z) : list chunkNode :=
  (foldl (tree_step depth)
     ([{| level := 0; titleIndexes := []; bodyIndexes := []; children := [] |}], [0%nat]) lines).1.

(** What a node adds to the titles of the path, and the paths it emits itself. *)
Definition path_titles (includeHeading : bool) (depth : Z) (titles : list Z) (n : chunkNode) : list Z :=
  if decide (1 ≤ level n ≤ depth)%Z then
    titles ++ titleIndexes n ++ (if includeHeading then [] else bodyIndexes n)
  else titles.
Definition own_paths (includeHeading : bool) (depth : Z) (titles : list Z) (n : chunkNode) : list (list Z) :=
  let pathTitles := path_titles includeHeading depth titles n in
  (if decide (level n = 0 ∧ bodyIndexes n ≠ [])%Z then [titles ++ bodyIndexes n] else []) ++
  (if decide (1 ≤ level n ≤ depth)%Z then
     if includeHeading && bool_decide (bodyIndexes n ≠ []) then [pathTitles ++ bodyIndexes n]
     else if decide (children n = []) then [pathTitles] else []
   else []).

(* internal/ingestion/component/chunker/hierarchy.go:104-140 chunkNode.getPaths *)
Fixpoint getPaths (fuel : nat) (store : list chunkNode) (id : nat) (titles : list Z) (depth : Z)
    (includeHeading : bool) : option (list (list Z)) :=
  match fuel with
  | O => None
  | S fuel =>
      n ← store !! id;
      below ← mapM (λ c, getPaths fuel store c (path_titles includeHeading depth titles n) depth includeHeading)
                (children n);
      Some (own_paths includeHeading depth titles n ++ concat below)
  end.

(** ** Groups of a document by its headings *)

(* internal/ingestion/component/chunker/hierarchy.go:188-225 invokeHierarchy(part) *)
Definition flush_run (p : titleChunkerParam) (run : list (lineRecord * Z)) : option (list (list lineRecord)) :=
  match run with
  | [] => Some []
  | _ =>
      let h := default 1%Z (tp_Hierarchy p) in
      match resolveTargetLevel run.*2 h with
      | 0%Z => Some [run.*1]
      | targetLevel =>
          let store := buildTree (zip run.*2 (map Z.of_nat (seq 0 (length run)))) targetLevel in
          paths ← getPaths (length store) store 0 [] targetLevel (IncludeHeadingContent p);
          mapM (λ path, mapM (λ idx, run.*1 !! Z.to_nat idx) path) (filter (λ path, path ≠ []) paths)
      end
  end.

(* internal/ingestion/component/chunker/hierarchy.go:227-236 invokeHierarchy(part) *)
Fixpoint hierarchy_groups (p : titleChunkerParam) (run : list (lineRecord * Z)) (lines : list (lineRecord * Z))
    : option (list (list lineRecord)) :=
  match lines with
  | [] => flush_run p run
  | (rec, lvl) :: lines =>
      if isText rec then hierarchy_groups p (run ++ [(rec, lvl)]) lines
      else
        flushed ← flush_run p run;
        rest ← hierarchy_groups p [] lines;
        Some (flushed ++ [[rec]] ++ rest)
  end.

(** ** From a document to its groups *)

Section document.
Context (level_match : string → string → bool) (Pt : Patterns).

(* internal/ingestion/component/chunker/group.go:140-175 chunkFromRecords(part) *)
Definition group_document (enc : option Encoder) (p : titleChunkerParam) (outline : list outlineEntry)
    (records : list lineRecord) : list (list lineRecord) :=
  let ctx := newLevelContext level_match Pt records outline (tp_Levels p) in
  let levels := lc_levels ctx in
  let targetLevel := resolveGroupTargetLevel levels p (mostLevel ctx) in
  groupRecords enc records (buildSectionIDs levels targetLevel).

(* internal/ingestion/component/chunker/hierarchy.go:143-236 invokeHierarchy(part) *)
Definition hierarchy_document (p : titleChunkerParam) (outline : list outlineEntry)
    (records : list lineRecord) : option (list (list lineRecord)) :=
  let ctx := newLevelContext level_match Pt records outline (tp_Levels p) in
  hierarchy_groups p [] (zip records (lc_levels ctx)).
End document.
