(* ===== verification/ChunkDoc.v ===== *)
(** * Chunk documents and their positions
    (ingestion/component/schema/chunk_types.go, chunker/positions_slice.go) *)

From S2P Require Import Prelude GoValue Tokenizer TitleLevels.
From Stdlib Require Import SpecFloat.

(* internal/ingestion/component/schema/chunk_types.go:101-129 ChunkDoc *)
Record ChunkDoc := {
  cd_Text : string;
  cd_ContentWithWeight : string;
  cd_DocType : string;
  cd_CKType : string;
  cd_TKNums : option Z;
  cd_Mom : string;
  cd_ImgID : string;
  cd_Layout : string;
  cd_LayoutType : string;
  cd_LayoutNo : string;
  cd_Image : string;
  cd_ContextAbove : string;
  cd_ContextBelow : string;
  cd_Questions : string;
  cd_Keywords : string;
  cd_Summary : string;
  cd_ChunkOrderInt : option Z;
  cd_TitleTks : string;
  cd_TitleSmTks : string;
  cd_ContentLtks : string;
  cd_ContentSmLtks : string;
  cd_TagKwd : list string;
  cd_PageNumber : option Z;
  cd_TopInt : list Z;
  cd_PDFPositions : RawMessage;
  cd_Positions : RawMessage;
  cd_Extra : gmap string value;
}.

(** The zero value. *)
Definition empty_doc : ChunkDoc := {|
  cd_Text := ""; cd_ContentWithWeight := ""; cd_DocType := ""; cd_CKType := ""; cd_TKNums := None;
  cd_Mom := ""; cd_ImgID := ""; cd_Layout := ""; cd_LayoutType := ""; cd_LayoutNo := ""; cd_Image := "";
  cd_ContextAbove := ""; cd_ContextBelow := ""; cd_Questions := ""; cd_Keywords := ""; cd_Summary := "";
  cd_ChunkOrderInt := None; cd_TitleTks := ""; cd_TitleSmTks := ""; cd_ContentLtks := "";
  cd_ContentSmLtks := ""; cd_TagKwd := []; cd_PageNumber := None; cd_TopInt := [];
  cd_PDFPositions := None; cd_Positions := None; cd_Extra := ∅ |}.

(** Assignments to the fields the chunkers write. *)
Definition doc_update (d : ChunkDoc) (text ckType : string) (tk : option Z) (mom above below : string)
    (pdf pos : RawMessage) : ChunkDoc := {|
  cd_Text := text; cd_ContentWithWeight := cd_ContentWithWeight d; cd_DocType := cd_DocType d;
  cd_CKType := ckType; cd_TKNums := tk; cd_Mom := mom; cd_ImgID := cd_ImgID d; cd_Layout := cd_Layout d;
  cd_LayoutType := cd_LayoutType d; cd_LayoutNo := cd_LayoutNo d; cd_Image := cd_Image d;
  cd_ContextAbove := above; cd_ContextBelow := below; cd_Questions := cd_Questions d;
  cd_Keywords := cd_Keywords d; cd_Summary := cd_Summary d; cd_ChunkOrderInt := cd_ChunkOrderInt d;
  cd_TitleTks := cd_TitleTks d; cd_TitleSmTks := cd_TitleSmTks d; cd_ContentLtks := cd_ContentLtks d;
  cd_ContentSmLtks := cd_ContentSmLtks d; cd_TagKwd := cd_TagKwd d; cd_PageNumber := cd_PageNumber d;
  cd_TopInt := cd_TopInt d; cd_PDFPositions := pdf; cd_Positions := pos; cd_Extra := cd_Extra d |}.
Definition set_text (d : ChunkDoc) (t : string) : ChunkDoc :=
  doc_update d t (cd_CKType d) (cd_TKNums d) (cd_Mom d) (cd_ContextAbove d) (cd_ContextBelow d) (cd_PDFPositions d) (cd_Positions d).
Definition set_tk (d : ChunkDoc) (n : Z) : ChunkDoc :=
  doc_update d (cd_Text d) (cd_CKType d) (Some n) (cd_Mom d) (cd_ContextAbove d) (cd_ContextBelow d) (cd_PDFPositions d) (cd_Positions d).
Definition set_positions (d : ChunkDoc) (pdf pos : RawMessage) : ChunkDoc :=
  doc_update d (cd_Text d) (cd_CKType d) (cd_TKNums d) (cd_Mom d) (cd_ContextAbove d) (cd_ContextBelow d) pdf pos.
Definition set_context (d : ChunkDoc) (above below : string) : ChunkDoc :=
  doc_update d (cd_Text d) (cd_CKType d) (cd_TKNums d) (cd_Mom d) above below (cd_PDFPositions d) (cd_Positions d).
Definition set_mom (d : ChunkDoc) (mom : string) : ChunkDoc :=
  doc_update d (cd_Text d) (cd_CKType d) (cd_TKNums d) mom (cd_ContextAbove d) (cd_ContextBelow d) (cd_PDFPositions d) (cd_Positions d).
(** A piece of [d]: the text and count of the piece, marked as text. *)
Definition set_piece (d : ChunkDoc) (t : string) (n : option Z) : ChunkDoc :=
  doc_update d t "text" n (cd_Mom d) (cd_ContextAbove d) (cd_ContextBelow d) (cd_PDFPositions d) (cd_Positions d).

(* internal/ingestion/component/chunker/token.go:1547-1552 intValue *)
Definition intValue (v : option Z) : Z := match v with None => 0 | Some n => n end.

(** ** JSON arrays *)

(** Unmarshalling into a slice: [null] gives a nil slice. *)
Definition raw_array (v : value) : option (list value) :=
  match v with VNil => Some [] | VList l => Some l | _ => None end.

(* internal/ingestion/component/chunker/token.go:1405-1425 extendRawJSONArray *)
Definition extendRawJSONArray (a b : RawMessage) : RawMessage :=
  match a, b with
  | None, _ => b
  | _, None => a
  | Some va, Some vb =>
      match raw_array va, raw_array vb with
      | None, _ => b
      | _, None => a
      | Some la, Some lb =>
          match va, lb with
          | VNil, [] => Some VNil
          | _, _ => Some (VList (la ++ lb))
          end
      end
  end.

(** ** Positions *)

Definition f64_sub : float64 → float64 → float64 := SFsub 53 1024.
Definition f64_lt (a b : float64) : bool := SFltb a b.
Definition f64_le (a b : float64) : bool := SFleb a b.

(** The order of numbers. *)
Lemma SFcompare_swap a b : SFcompare b a = option_map CompOpp (SFcompare a b).
Proof.
  destruct a as [[]|[]| |[] m1 e1], b as [[]|[]| |[] m2 e2]; try done; cbn;
    rewrite (Z.compare_antisym e1 e2); destruct (e1 ?= e2)%Z; cbn; try done;
    change (Pos.compare_cont Eq m2 m1) with (m2 ?= m1)%positive; change (Pos.compare_cont Eq m1 m2) with (m1 ?= m2)%positive;
    rewrite (Pos.compare_antisym m1 m2); by destruct (m1 ?= m2)%positive.
Qed.
Lemma f64_lt_asym a b : f64_lt a b = true → f64_lt b a = false.
Proof. unfold f64_lt, SFltb. rewrite (SFcompare_swap a b). by destruct (SFcompare a b) as [[]|]. Qed.
Lemma f64_le_trans a b c : f64_le a b = true → f64_le b c = true → f64_le a c = true.
Proof.
  unfold f64_le, SFleb.
  destruct a as [[]|[]| |[] m1 e1], b as [[]|[]| |[] m2 e2], c as [[]|[]| |[] m3 e3]; try done; cbn;
    change (Pos.compare_cont Eq ?x ?y) with (x ?= y)%positive;
    destruct (Z.compare_spec e1 e2), (Z.compare_spec e2 e3), (Z.compare_spec e1 e3); try lia; try done;
    destruct (Pos.compare_spec m1 m2), (Pos.compare_spec m2 m3), (Pos.compare_spec m1 m3); cbn; try done; lia.
Qed.
Definition is_nan (f : float64) : bool := match f with S754_nan => true | _ => false end.
Lemma f64_not_lt a b : is_nan a = false → is_nan b = false → f64_lt a b = false → f64_le b a = true.
Proof.
  unfold f64_lt, f64_le, SFltb, SFleb. intros Ha Hb. rewrite (SFcompare_swap a b).
  assert (is_Some (SFcompare a b)) as [o ->] by (by destruct a as [[]|[]| |[] m1 e1], b as [[]|[]| |[] m2 e2]). by destruct o.
Qed.

(* internal/ingestion/component/chunker/positions_slice.go:25-46 toFloat *)
Definition toFloat (v : value) : option float64 :=
  match v with VFloat f => Some f | VInt z => Some (f64_of_int z) | _ => None end.

(** The height of a row; rows that are short, not numeric or not of positive
    height have none. *)
(* internal/ingestion/component/chunker/positions_slice.go:83-95 slicePositionsByTextRatio(part) *)
Definition row_height (row : list value) : option float64 :=
  match row with
  | _ :: _ :: _ :: top :: bottom :: _ =>
      top ← toFloat top; bottom ← toFloat bottom;
      if f64_le bottom top then None else Some (f64_sub bottom top)
  | _ => None
  end.

(** The part of a row between two offsets, the row starting at [cum]. *)
(* internal/ingestion/component/chunker/positions_slice.go:103-134 slicePositionsByTextRatio(part) *)
Definition slice_row (targetStart targetEnd cum h : float64) (row : list value) : option (list value) :=
  if f64_le h (f64_of_int 0) then None else
  let segEnd := f64_add cum h in
  let interStart := if f64_lt cum targetStart then targetStart else cum in
  let interEnd := if f64_lt targetEnd segEnd then targetEnd else segEnd in
  if f64_le interEnd interStart then None else
  let localStart := f64_div (f64_sub interStart cum) h in
  let localEnd := f64_div (f64_sub interEnd cum) h in
  match row with
  | page :: x0 :: x1 :: top :: bottom :: rest =>
      let oldTop := default (f64_of_int 0) (toFloat top) in
      let oldBottom := default (f64_of_int 0) (toFloat bottom) in
      let oldH := f64_sub oldBottom oldTop in
      Some (page :: x0 :: x1 :: VFloat (f64_add oldTop (f64_mul localStart oldH))
              :: VFloat (f64_add oldTop (f64_mul localEnd oldH)) :: rest)
  | _ => None
  end.

(** A row that is skipped for its height does not advance the offset. *)
Fixpoint slice_rows (targetStart targetEnd cum : float64) (rows : list (list value * float64)) : list (list value) :=
  match rows with
  | [] => []
  | (row, h) :: rows =>
      let cum' := if f64_le h (f64_of_int 0) then cum else f64_add cum h in
      match slice_row targetStart targetEnd cum h row with
      | Some row' => row' :: slice_rows targetStart targetEnd cum' rows
      | None => slice_rows targetStart targetEnd cum' rows
      end
  end.

(* internal/ingestion/component/chunker/positions_slice.go:60-143 slicePositionsByTextRatio *)
Definition slicePositionsByTextRatio (raw : RawMessage) (startRatio endRatio : float64) : RawMessage :=
  v ← raw;
  let startRatio := if f64_lt startRatio (f64_of_int 0) then f64_of_int 0 else startRatio in
  let endRatio := if f64_lt (f64_of_int 1) endRatio then f64_of_int 1 else endRatio in
  if f64_le endRatio startRatio then None else
  rows ← raw_array v;
  matrix ← mapM raw_array rows;
  match matrix with
  | [] => None
  | _ =>
      heights ← mapM row_height matrix;
      let total := foldl f64_add (f64_of_int 0) heights in
      if f64_le total (f64_of_int 0) then None else
      match slice_rows (f64_mul startRatio total) (f64_mul endRatio total) (f64_of_int 0) (zip matrix heights) with
      | [] => None
      | out => json_rt (VList (map VList out))
      end
  end.
