(* ===== verification/TokenSplit.v ===== *)
(** * Splitting text: delimiters, tags, sentences and the hard cap
    (parser/chunk/delim.go, chunker/common.go, group.go, token.go)

    A compiled delimiter pattern is the list of its literals in the order of the
    alternation, by runes.  A copy made by [cloneChunkDoc] is the value itself. *)

From S2P Require Import Prelude GoValue Tokenizer TitleLevels ChunkDoc.

Definition take_bytes (n : nat) (s : string) : string := String.substring 0 n s.
Definition newline : string := String (Ascii.ascii_of_N 10) "".

(** ** Delimiters *)

Definition backtick : string := "`".
Definition has_suffix (s p : string) : bool :=
  bool_decide (String.length p ≤ String.length s)%nat && bool_decide (drop_bytes (String.length s - String.length p) s = p).
(** An entry in backticks. *)
Definition wrapped (d : string) : bool :=
  has_prefix d backtick && has_suffix d backtick && bool_decide (2 ≤ String.length d)%nat.

(** What an entry of the list contributes. *)
Definition delim_entry (keepBare : bool) (d : string) : option string :=
  if decide (d = "") then None else
  if wrapped d then
    let inner := String.substring 1 (String.length d - 2) d in
    if decide (inner = "") then None else Some inner
  else if keepBare then Some d else None.

Definition keep_first (out : list string) (d : string) : list string :=
  if decide (d ∈ out) then out else out ++ [d].
(** A stable sort by decreasing number of runes. *)
Fixpoint insert_longer (d : string) (l : list string) : list string :=
  match l with
  | [] => [d]
  | x :: l => if decide (RuneCountInString x < RuneCountInString d)%Z then d :: x :: l else x :: insert_longer d l
  end.
Definition sort_longest (l : list string) : list string := foldl (λ acc d, insert_longer d acc) [] l.

Definition Pattern : Type := list (list string).

(* internal/parser/chunk/delim.go:84-123 CompileDelimiterPatternList *)
Definition CompileDelimiterPatternList (delims : list string) (keepBare : bool) : option Pattern :=
  match foldl keep_first [] (omap (delim_entry keepBare) delims) with
  | [] => None
  | out => Some (map runes (sort_longest out))
  end.
(* internal/parser/chunk/delim.go:137-144 HasCustomDelimiterList *)
Definition HasCustomDelimiterList (delims : list string) : bool := existsb wrapped delims.
(* internal/ingestion/component/chunker/common.go:93-95 compileDelimPattern *)
Definition compileDelimPattern (delims : list string) : option Pattern := CompileDelimiterPatternList delims true.
(* internal/ingestion/component/chunker/token.go:1506-1508 compileChildrenPattern *)
Definition compileChildrenPattern (delims : list string) : option Pattern := CompileDelimiterPatternList delims true.

(** The literal that matches here: the first of the alternation. *)
Definition match_here (pats : Pattern) (rs : list string) : option nat :=
  head (omap (λ p, if decide (take (length p) rs = p) then Some (length p) else None) pats).

Definition flush (current : string) : list string := if decide (current = "") then [] else [current].

(** Walk over the runes; [skip] of them belong to a delimiter. *)
Fixpoint split_drop (pats : Pattern) (skip : nat) (current : string) (rs : list string) : list string :=
  match rs with
  | [] => flush current
  | r :: rest =>
      match skip with
      | S k => split_drop pats k current rest
      | O => match match_here pats rs with
             | Some (S k) => flush current ++ split_drop pats k "" rest
             | _ => split_drop pats 0 (current +:+ r) rest
             end
      end
  end.

(* internal/ingestion/component/chunker/common.go:104-127 splitDroppingDelim *)
Definition splitDroppingDelim (text : string) (pattern : option Pattern) : list string :=
  match pattern with
  | None => [text]
  | Some pats => if decide (text = "") then [text] else split_drop pats 0 "" (runes text)
  end.

(** [pattern.MatchString]. *)
Fixpoint matches (pats : Pattern) (rs : list string) : bool :=
  match rs with
  | [] => false
  | _ :: rest => match match_here pats rs with Some _ => true | None => matches pats rest end
  end.

(** ** Position tags *)

Definition is_tag_byte (a : Ascii.ascii) : bool :=
  let n := Ascii.N_of_ascii a in
  bool_decide (n = 9 ∨ n = 45 ∨ n = 46 ∨ 48 ≤ n ≤ 57)%N.
Fixpoint tag_bytes (s : string) : nat :=
  match s with
  | String a s' => if is_tag_byte a then S (tag_bytes s') else 0
  | EmptyString => 0
  end.
(** The length of a tag at the start: two at signs, one or more bytes of the
    class, two hash signs. *)
Definition tag_length (s : string) : option nat :=
  if has_prefix s "@@" then
    let n := tag_bytes (drop_bytes 2 s) in
    if bool_decide (0 < n)%nat && has_prefix (drop_bytes (2 + n) s) "##" then Some (n + 4)%nat else None
  else None.
Fixpoint remove_tags (skip : nat) (s : string) : string :=
  match s with
  | EmptyString => ""
  | String a s' =>
      match skip with
      | S k => remove_tags k s'
      | O => match tag_length s with
             | Some n => remove_tags (n - 1) s'
             | None => String a (remove_tags 0 s')
             end
      end
  end.
(* internal/ingestion/component/chunker/group.go:354-356 removeTag *)
Definition removeTag (text : string) : string := remove_tags 0 text.

(** ** Sentences *)

Definition sentence_runes : list string := [newline; "!"; "?"; ";"; "。"; "；"; "！"; "？"].
Fixpoint sentences_from (rs : list string) (current : string) : list string :=
  match rs with
  | [] => flush current
  | r :: rest =>
      if decide (r ∈ sentence_runes) then (current +:+ r) :: sentences_from rest ""
      else sentences_from rest (current +:+ r)
  end.
(* internal/ingestion/component/chunker/token.go:1249-1268 splitSentencesLossless *)
Definition splitSentencesLossless (text : string) : list string := sentences_from (runes text) "".

(** ** The hard cap *)

Section cap.
Context (enc : option Encoder) (target : Z).
(* internal/ingestion/component/chunker/common.go:167-167 tokenizeStr *)
Definition tokenizeStr (s : string) : Z := NumTokensFromString enc s.

(** The search for a tag around the cut, from [searchFrom] on. *)
Fixpoint adjust_cut (text : string) (cut : nat) (fuel searchFrom : nat) : option nat :=
  match fuel with
  | O => None
  | S fuel =>
      match String.index 0 "@@" (drop_bytes searchFrom text) with
      | None => Some cut
      | Some s =>
          let s := (s + searchFrom)%nat in
          match String.index 0 "##" (drop_bytes (s + 2) text) with
          | None => Some cut
          | Some eRel =>
              let e := (s + 2 + eRel + 2)%nat in
              if bool_decide (s < cut)%nat && bool_decide (cut < e)%nat then
                if bool_decide (e ≤ String.length text)%nat && bool_decide (tokenizeStr (take_bytes e text) ≤ target)%Z
                then Some e
                else if decide (0 < s)%nat then Some s else Some e
              else adjust_cut text cut fuel e
          end
      end
  end.
(* internal/ingestion/component/chunker/token.go:1319-1347 adjustCutPastTag *)
Definition adjustCutPastTag (text : string) (cut : nat) : option nat := adjust_cut text cut (String.length text + 1) 0.

(** [strings.TrimRight(s, "\uFFFD")]: a byte that is not part of a rune decodes
    to U+FFFD and is trimmed too. *)
Definition is_fffd (r : string) : bool :=
  bool_decide (r = String (Ascii.ascii_of_N 239) (String (Ascii.ascii_of_N 191) (String (Ascii.ascii_of_N 189) ""))) ||
  match r with String a EmptyString => negb (rune1 a) | _ => false end.
Fixpoint drop_fffd (rs : list string) : list string :=
  match rs with r :: rest => if is_fffd r then drop_fffd rest else rs | [] => [] end.
Definition trim_fffd (s : string) : string := concat_strings (reverse (drop_fffd (reverse (runes s)))).

(** The loop of [hardSplitPiece]. *)
Fixpoint hard_pieces (fuel : nat) (rest : string) : option (list string) :=
  match fuel with
  | O => None
  | S fuel =>
      if decide (tokenizeStr rest ≤ target)%Z then Some (flush rest) else
      let h := TrimContentToTokenLimit enc rest target in
      if bool_decide (h = "") || bool_decide (h = rest) then Some (flush rest) else
      let h := if has_prefix rest h then h else trim_fffd h in
      if decide (h = "") then Some (flush rest) else
      cut ← adjustCutPastTag rest (String.length h);
      if bool_decide (cut = 0)%nat || bool_decide (String.length rest ≤ cut)%nat then Some (flush rest) else
      out ← hard_pieces fuel (drop_bytes cut rest);
      Some (take_bytes cut rest :: out)
  end.
(* internal/ingestion/component/chunker/token.go:1276-1312 hardSplitPiece *)
Definition hardSplitPiece (text : string) : option (list string) := hard_pieces (String.length text + 1) text.

(** A piece within the cap is kept. *)
Definition cap_piece (t : string) : option (list string) :=
  if decide (target < tokenizeStr t)%Z then hardSplitPiece t else Some [t].

(** The sentences become pieces; white space waits for the next one. *)
(* internal/ingestion/component/chunker/token.go:1127-1142 splitOversizedText(part) *)
Fixpoint sentence_pieces (parts : list string) (wsPending : string) : option (list string * string) :=
  match parts with
  | [] => Some ([], wsPending)
  | part :: parts =>
      if decide (trim_space part = "") then sentence_pieces parts (wsPending +:+ part) else
      ps ← cap_piece (wsPending +:+ part);
      '(rest, ws) ← sentence_pieces parts "";
      Some (ps ++ rest, ws)
  end.
(** White space at the end goes to the last piece. *)
(* internal/ingestion/component/chunker/token.go:1143-1163 splitOversizedText(part) *)
Definition attach_trailing (pieces : list string) (ws : string) : option (list string) :=
  if decide (ws = "") then Some pieces else
  match last pieces with
  | Some l => ps ← cap_piece (l +:+ ws); Some (take (length pieces - 1) pieces ++ ps)
  | None => cap_piece ws
  end.
(** The line break the text began with goes to the first one. *)
(* internal/ingestion/component/chunker/token.go:1164-1177 splitOversizedText(part) *)
Definition attach_lead (lead : bool) (pieces : list string) : option (list string) :=
  match pieces with
  | p :: rest => if lead then ps ← cap_piece (newline +:+ p); Some (ps ++ rest) else Some pieces
  | [] => Some []
  end.

(* internal/ingestion/component/chunker/token.go:1114-1177 splitOversizedText(part) *)
Definition oversized_pieces (text : string) : option (list string) :=
  let lead := has_prefix text newline in
  let text := if lead then drop_bytes 1 text else text in
  '(pieces, ws) ← sentence_pieces (splitSentencesLossless text) "";
  pieces ← attach_trailing pieces ws;
  attach_lead lead pieces.

Definition or_else (a b : RawMessage) : RawMessage := match a with None => b | _ => a end.
(** The pieces with their share of the positions. *)
(* internal/ingestion/component/chunker/token.go:1221-1242 splitOversizedText(part) *)
Fixpoint slice_pieces (ck : ChunkDoc) (runCount cum : Z) (pieces : list (string * Z)) : list ChunkDoc :=
  match pieces with
  | [] => []
  | (p, n) :: pieces =>
      let startRatio := f64_div (f64_of_int cum) (f64_of_int runCount) in
      let endRatio := f64_div (f64_of_int (cum + n)) (f64_of_int runCount) in
      let slice raw := or_else (slicePositionsByTextRatio raw startRatio endRatio) raw in
      set_positions (set_piece ck p (Some (tokenizeStr p))) (slice (cd_PDFPositions ck)) (slice (cd_Positions ck))
      :: slice_pieces ck runCount (cum + n) pieces
  end.

(** The visible runes of each piece; the line break at the start has none. *)
(* internal/ingestion/component/chunker/token.go:1193-1210 splitOversizedText(part) *)
Definition piece_runes (lead : bool) (pieces : list string) : list Z :=
  imap (λ i p, let n := RuneCountInString (removeTag p) in
               if bool_decide (i = 0%nat) && lead then Z.max 0 (n - RuneCountInString newline) else n) pieces.

(* internal/ingestion/component/chunker/token.go:1113-1243 splitOversizedText *)
Definition splitOversizedText (ck : ChunkDoc) : option (list ChunkDoc) :=
  pieces ← oversized_pieces (cd_Text ck);
  let copies := map (λ p, set_piece ck p (Some (tokenizeStr p))) pieces in
  match cd_PDFPositions ck, cd_Positions ck with
  | None, None => Some copies
  | _, _ =>
      let counts := piece_runes (has_prefix (cd_Text ck) newline) pieces in
      let runCount := foldl Z.add 0%Z counts in
      if decide (runCount = 0)%Z then Some copies
      else Some (slice_pieces ck runCount 0 (zip pieces counts))
  end.

(** The count a unit is taken to have. *)
Definition unit_tokens (ck : ChunkDoc) : Z :=
  if decide (intValue (cd_TKNums ck) ≤ 0)%Z then tokenizeStr (cd_Text ck) else intValue (cd_TKNums ck).

(* internal/ingestion/component/chunker/token.go:1086-1103 expandOversizedUnits(part) *)
Definition expand_unit (ck : ChunkDoc) : option (list ChunkDoc) :=
  if decide (cd_CKType ck ≠ "text") then Some [ck] else
  let tk := unit_tokens ck in
  if decide (tk ≤ target)%Z
  then Some [match cd_TKNums ck with None => set_tk ck tk | Some _ => ck end]
  else splitOversizedText ck.
(* internal/ingestion/component/chunker/token.go:1081-1105 expandOversizedUnits *)
Definition expandOversizedUnits (units : list ChunkDoc) : option (list ChunkDoc) :=
  if decide (target ≤ 0)%Z then Some units else
  out ← mapM expand_unit units;
  Some (concat out).
End cap.

Example remove_tag_ex : removeTag "a@@1	2.5##b@@x##@@@-3##c" = "ab@@x##@c".
Proof. reflexivity. Qed.
Example split_ex : splitDroppingDelim "one; two;;three" (compileDelimPattern [";"; "`;;`"]) = ["one"; " two"; "three"].
Proof. reflexivity. Qed.
Example hard_ex : hardSplitPiece None 3 "abc" = Some ["abc"].
Proof. reflexivity. Qed.
