(* ===== verification/TokenMerge.v ===== *)
(** * Merging and payloads of the token chunker (internal/ingestion/component/chunker/token.go)

    Units of text are merged into chunks with overlap; items of a payload are chunked
    by workers, with media context and children. *)

From S2P Require Import Prelude GoValue Tokenizer TitleLevels ChunkDoc TokenSplit.

(** ** The token chunker: merging units, overlap, context and the two payloads
    (ingestion/component/chunker/token.go)

    The chunks a payload gives are the list handed to [chunkOutputs]; the list is
    empty for [emptyOutputs]. *)

(** [string(runes)]: what is not a rune becomes U+FFFD. *)
Definition rune_string (rs : list string) : string := concat_strings (map utf8_fix rs).
Definition f64_100 : float64 := f64_of_int 100.

Section merge.
Context (enc : option Encoder).
Notation num := (tokenizeStr enc).

(** ** Overlap *)

Definition clamp_percent (pct : float64) : float64 :=
  if f64_lt pct (f64_of_int 0) then f64_of_int 0 else if f64_lt f64_100 pct then f64_100 else pct.

(* internal/ingestion/component/chunker/token.go:381-392 overlapCut *)
Definition overlapCut (prevText : string) (pct : float64) : Z :=
  let n := RuneCountInString (removeTag prevText) in
  let cut := int_of_f64 (f64_div (f64_mul (f64_of_int n) (f64_sub f64_100 pct)) f64_100) in
  let cut := if decide (cut < 0)%Z then 0%Z else cut in
  if decide (n ≤ cut)%Z then n else cut.

(* internal/ingestion/component/chunker/token.go:397-409 computeOverlapPrefix *)
Definition computeOverlapPrefix (prevText : string) (pct : float64) : string * Z :=
  let visible := removeTag prevText in
  if decide (visible = "") then ("", 0%Z) else
  let cut := overlapCut prevText pct in
  if decide (RuneCountInString visible ≤ cut)%Z then ("", 0%Z) else
  let overlap := rune_string (drop (Z.to_nat cut) (runes visible)) in
  (overlap, num overlap).

(** The longest proper suffix of the runes that fits in front of the text. *)
Fixpoint fit_suffix (current : string) (target : Z) (rs : list string) (c : Z) : string * Z :=
  match rs with
  | [] => ("", c)
  | _ :: rest =>
      if decide (num (rune_string rest +:+ current) ≤ target)%Z then (rune_string rest, (c + 1)%Z)
      else fit_suffix current target rest (c + 1)
  end.
(* internal/ingestion/component/chunker/token.go:1353-1367 overlapFitPrefix *)
Definition overlapFitPrefix (overlap current : string) (target : Z) : string * Z :=
  if decide (num (overlap +:+ current) ≤ target)%Z then (overlap, 0%Z)
  else fit_suffix current target (runes overlap) 0.

(* internal/ingestion/component/chunker/token.go:898-902 mergeItem *)
Record mergeItem := { mi_Text : string; mi_PDFPositions : RawMessage; mi_Positions : RawMessage }.

Definition visible_runes (it : mergeItem) : Z := RuneCountInString (removeTag (mi_Text it)).
Fixpoint tail_positions (total overlapStart sep offset : Z) (items : list mergeItem) (acc : RawMessage * RawMessage)
    : RawMessage * RawMessage :=
  match items with
  | [] => acc
  | it :: items =>
      let e := (offset + visible_runes it)%Z in
      let acc := if bool_decide (offset < total)%Z && bool_decide (overlapStart < e)%Z
                 then (extendRawJSONArray acc.1 (mi_PDFPositions it), extendRawJSONArray acc.2 (mi_Positions it))
                 else acc in
      tail_positions total overlapStart sep (e + sep) items acc
  end.
(* internal/ingestion/component/chunker/token.go:911-939 overlapTailPositions *)
Definition overlapTailPositions (prevItems : list mergeItem) (overlapStart : Z) (joinSep : string) : RawMessage * RawMessage :=
  match prevItems with
  | [] => (None, None)
  | _ =>
      let sep := RuneCountInString joinSep in
      let total := (foldl (λ n it, n + (visible_runes it + sep)) 0 prevItems - sep)%Z in
      tail_positions total overlapStart sep 0 prevItems (None, None)
  end.

(** ** Merging *)

(** Text after text, with the separator when neither is empty. *)
Definition join_text (joinSep prev t : string) : string :=
  if bool_decide (prev ≠ "") && bool_decide (t ≠ "") then prev +:+ joinSep +:+ t else prev +:+ t.
Definition item_of (ck : ChunkDoc) : mergeItem :=
  {| mi_Text := cd_Text ck; mi_PDFPositions := cd_PDFPositions ck; mi_Positions := cd_Positions ck |}.

(** The chunks so far, each with the items it was built from, and the index of
    the chunk that may still grow. *)
Definition MergeState : Type := list (ChunkDoc * list mergeItem) * option nat.
Definition push (st : MergeState) (ck : ChunkDoc) (items : list mergeItem) : MergeState :=
  (st.1 ++ [(ck, items)], Some (length st.1)).

Context (target : Z) (pct : float64) (joinSep : string).

Definition merge_threshold : float64 := f64_div (f64_mul (f64_of_int target) (f64_sub f64_100 pct)) f64_100.
(* internal/ingestion/component/chunker/token.go:986-1002 mergeUnits(part) *)
Definition starts_new (prev ck : ChunkDoc) : bool :=
  f64_lt merge_threshold (f64_of_int (intValue (cd_TKNums prev)))
  || bool_decide (target < int_add (intValue (cd_TKNums prev)) (unit_tokens enc ck))%Z
  || bool_decide (target < num (join_text joinSep (cd_Text prev) (cd_Text ck)))%Z.

(** A new chunk, with the tail of the one before when there is overlap. *)
(* internal/ingestion/component/chunker/token.go:1003-1029 mergeUnits(part) *)
Definition start_chunk (st : MergeState) (prev : ChunkDoc) (items : list mergeItem) (ck : ChunkDoc) : MergeState :=
  if f64_lt (f64_of_int 0) pct && bool_decide (cd_Text prev ≠ "") then
    let overlap := (computeOverlapPrefix (cd_Text prev) pct).1 in
    let '(overlap, trimRunes) := overlapFitPrefix overlap (cd_Text ck) target in
    let '(pdfTail, posTail) := overlapTailPositions items (overlapCut (cd_Text prev) pct + trimRunes) joinSep in
    let text := overlap +:+ cd_Text ck in
    let cp := set_tk (set_positions (set_text ck text) (extendRawJSONArray pdfTail (cd_PDFPositions ck))
                        (extendRawJSONArray posTail (cd_Positions ck))) (num text) in
    push st cp [item_of cp]
  else push st (set_tk ck (unit_tokens enc ck)) [item_of ck].

(* internal/ingestion/component/chunker/token.go:1030-1039 mergeUnits(part) *)
Definition grow_chunk (prev ck : ChunkDoc) : ChunkDoc :=
  set_positions
    (set_tk (set_text prev (join_text joinSep (cd_Text prev) (cd_Text ck)))
       (int_add (intValue (cd_TKNums prev)) (unit_tokens enc ck)))
    (extendRawJSONArray (cd_PDFPositions prev) (cd_PDFPositions ck))
    (extendRawJSONArray (cd_Positions prev) (cd_Positions ck)).

(* internal/ingestion/component/chunker/token.go:962-1040 mergeUnits(part) *)
Definition merge_step (st : MergeState) (ck : ChunkDoc) : MergeState :=
  let '(merged, prevIdx) := st in
  if decide (cd_CKType ck ≠ "text") then (merged ++ [(ck, [])], None) else
  match prevIdx ≫= λ i, pair i <$> merged !! i with
  | None => push st (set_tk ck (unit_tokens enc ck)) [item_of ck]
  | Some (i, (prev, items)) =>
      if starts_new prev ck then start_chunk st prev items ck
      else (<[i := (grow_chunk prev ck, items ++ [item_of ck])]> merged, prevIdx)
  end.
Definition merge_all (units : list ChunkDoc) : list ChunkDoc := (foldl merge_step ([], None) units).1.*1.
End merge.

(* internal/ingestion/component/chunker/token.go:941-1042 mergeUnits *)
Definition mergeUnits (enc : option Encoder) (units : list ChunkDoc) (target : Z) (overlapPct : float64) (joinSep : string)
    : option (list ChunkDoc) :=
  units ← expandOversizedUnits enc target units;
  Some (merge_all enc target (clamp_percent overlapPct) joinSep units).

(* internal/ingestion/component/chunker/token.go:1048-1068 mergeByTokenSizeFromJSON *)
Definition mergeByTokenSizeFromJSON (enc : option Encoder) (perItem : list (list ChunkDoc)) (chunkTokens : Z) (pct : float64)
    : option (list (list ChunkDoc)) :=
  mapM (λ cs, match cs with [] => Some [] | _ => mergeUnits enc cs chunkTokens (clamp_percent pct) newline end) perItem.

(** ** The token chunker: items, context of media, and the two payloads
    (ingestion/component/chunker/token.go, common.go) *)

(** ** Items *)

(* internal/ingestion/component/chunker/common.go:135-143 itemText *)
Definition itemText (it : ChunkDoc) : option string :=
  if decide (cd_Text it ≠ "") then Some (cd_Text it)
  else if decide (cd_ContentWithWeight it ≠ "") then Some (cd_ContentWithWeight it)
  else None.
(* internal/ingestion/component/chunker/common.go:157-162 itemTextOrFallback *)
Definition itemTextOrFallback (it : ChunkDoc) : string := default "" (itemText it).

(** [strings.ToLower], as far as it gives ASCII: the letters, and the two runes
    beyond ASCII whose lower case is an ASCII letter. *)
Definition lower_rune (r : string) : string :=
  match r with
  | String a EmptyString =>
      let n := Ascii.N_of_ascii a in
      if decide (65 ≤ n ≤ 90)%N then String (Ascii.ascii_of_N (n + 32)) "" else r
  | _ => if decide (r = String.string_of_list_ascii (bytes [196; 176])%N) then "i"
         else if decide (r = String.string_of_list_ascii (bytes [226; 132; 170])%N) then "k" else r
  end.
Definition to_lower (s : string) : string := concat_strings (map lower_rune (runes s)).
(* internal/ingestion/component/chunker/common.go:146-154 itemDocType *)
Definition itemDocType (it : ChunkDoc) : string :=
  let t := to_lower (trim_space (cd_DocType it)) in
  if decide (t = "table") then "table" else if decide (t = "image") then "image" else "text".

Section payload.
Context (enc : option Encoder).
Notation num := (tokenizeStr enc).

(* internal/ingestion/component/chunker/token.go:704-725 buildChunkDoc *)
Definition buildChunkDoc (it : ChunkDoc) (ckType text ctxAbove ctxBelow : string) : ChunkDoc := {|
  cd_Text := text; cd_ContentWithWeight := ""; cd_DocType := ckType; cd_CKType := ckType;
  cd_TKNums := Some (num text); cd_Mom := cd_Mom it; cd_ImgID := cd_ImgID it; cd_Layout := cd_Layout it;
  cd_LayoutType := ""; cd_LayoutNo := ""; cd_Image := cd_Image it; cd_ContextAbove := ctxAbove;
  cd_ContextBelow := ctxBelow; cd_Questions := ""; cd_Keywords := ""; cd_Summary := "";
  cd_ChunkOrderInt := None; cd_TitleTks := ""; cd_TitleSmTks := ""; cd_ContentLtks := "";
  cd_ContentSmLtks := ""; cd_TagKwd := []; cd_PageNumber := cd_PageNumber it; cd_TopInt := [];
  cd_PDFPositions := cd_PDFPositions it; cd_Positions := cd_Positions it; cd_Extra := ∅ |}.

(** The pieces of an item with their share of its positions. *)
(* internal/ingestion/component/chunker/token.go:664-682 chunkFromItem(part) *)
Fixpoint slice_parts (it : ChunkDoc) (runCount cum : Z) (kept : list string) : list ChunkDoc :=
  match kept with
  | [] => []
  | p :: kept =>
      let n := RuneCountInString (removeTag p) in
      let startRatio := f64_div (f64_of_int cum) (f64_of_int runCount) in
      let endRatio := f64_div (f64_of_int (cum + n)) (f64_of_int runCount) in
      let slice raw := or_else (slicePositionsByTextRatio raw startRatio endRatio) raw in
      set_positions (buildChunkDoc it "text" p "" "") (slice (cd_PDFPositions it)) (slice (cd_Positions it))
      :: slice_parts it runCount (cum + n) kept
  end.

(* internal/ingestion/component/chunker/token.go:616-683 chunkFromItem *)
Definition chunkFromItem (delimPattern : option Pattern) (it : ChunkDoc) : list ChunkDoc :=
  let ckType := itemDocType it in
  let txt := itemTextOrFallback it in
  let whole := [buildChunkDoc it "text" txt "" ""] in
  if decide (ckType ≠ "text") then [buildChunkDoc it ckType txt "" ""] else
  match delimPattern with
  | None => whole
  | Some pats =>
      if negb (matches pats (runes txt)) then whole else
      let kept := filter (λ p, trim_space p ≠ "") (splitDroppingDelim txt delimPattern) in
      match kept with
      | [] => whole
      | _ =>
          let copies := map (λ p, buildChunkDoc it "text" p "" "") kept in
          match cd_PDFPositions it, cd_Positions it with
          | None, None => copies
          | _, _ =>
              let runCount := foldl (λ n p, (n + RuneCountInString (removeTag p))%Z) 0%Z kept in
              if decide (runCount = 0)%Z then copies else slice_parts it runCount 0 kept
          end
      end
  end.

(** ** Lanes *)

(* internal/ingestion/component/chunker/token.go:727-727 lane *)
Record lane := { l_start : nat; l_end : nat }.

(** The loop of [partition], for the lanes from [i] on. *)
Fixpoint lanes_from (n size rem cursor i k : nat) : list lane :=
  match k with
  | O => []
  | S k =>
      let e := Nat.min n (cursor + size + (if decide (i < rem) then 1 else 0)) in
      (if decide (cursor < e) then [{| l_start := cursor; l_end := e |}] else [])
      ++ lanes_from n size rem e (S i) k
  end.
(** Dividing by no parts panics. *)
(* internal/ingestion/component/chunker/token.go:729-754 partition *)
Definition partition (n parts : nat) : go (list lane) :=
  let parts := Nat.min n (Nat.max 1 parts) in
  if decide (parts = 0) then Panic else Ret (lanes_from n (n / parts) (n mod parts) 0 0 parts).
Definition lane_indices (l : lane) : list nat := seq (l_start l) (l_end l - l_start l).

(** ** Context of tables and images *)

(** The first rune index from which the tail is no longer short of [tokens]. *)
Fixpoint take_end (text : string) (rs : list string) (tokens : Z) (i : nat) : string :=
  match i with
  | O => text
  | S i' =>
      let cand := rune_string (drop i rs) in
      if decide (tokens ≤ num cand)%Z then cand else take_end text rs tokens i'
  end.
(* internal/ingestion/component/chunker/token.go:830-841 takeFromEnd *)
Definition takeFromEnd (text : string) (tokens : Z) : string :=
  take_end text (runes text) tokens (length (runes text)).
Fixpoint take_start (text : string) (rs : list string) (tokens : Z) (i k : nat) : string :=
  match k with
  | O => text
  | S k =>
      let cand := rune_string (take i rs) in
      if decide (tokens ≤ num cand)%Z then cand else take_start text rs tokens (S i) k
  end.
(* internal/ingestion/component/chunker/token.go:845-858 takeFromStart *)
Definition takeFromStart (text : string) (tokens : Z) : string :=
  take_start text (runes text) tokens 1 (length (runes text)).

(** The texts around a chunk, nearest first, until the tokens are used up. *)
Fixpoint gather (cut : string → Z → string) (chunks : list ChunkDoc) (remain : Z) : list string :=
  match chunks with
  | [] => []
  | c :: chunks =>
      if decide (remain ≤ 0)%Z then [] else
      if decide (cd_CKType c ≠ "text") then gather cut chunks remain else
      let tk := intValue (cd_TKNums c) in
      if decide (remain ≤ tk)%Z then [cut (cd_Text c) remain]
      else cd_Text c :: gather cut chunks (remain - tk)
  end.
(* internal/ingestion/component/chunker/token.go:787-825 collectContext *)
Definition collectContext (chunks : list ChunkDoc) (i : nat) (ctxTokens : Z) (above : bool) : string :=
  if above then concat_strings (reverse (gather takeFromEnd (reverse (take i chunks)) ctxTokens))
  else concat_strings (gather takeFromStart (drop (S i) chunks) ctxTokens).

(** One item's chunks. *)
Definition attach_item (tableCtx imageCtx : Z) (chunks : list ChunkDoc) : list ChunkDoc :=
  imap (λ i ck,
    if bool_decide (cd_CKType ck ≠ "table") && bool_decide (cd_CKType ck ≠ "image") then ck else
    let ctx := if decide (cd_CKType ck = "table") then tableCtx else imageCtx in
    if decide (ctx ≤ 0)%Z then ck
    else set_context ck (collectContext chunks i ctx true) (collectContext chunks i ctx false)) chunks.
(* internal/ingestion/component/chunker/token.go:756-782 attachMediaContext *)
Definition attachMediaContext (perItem : list (list ChunkDoc)) (tableCtx imageCtx : Z) : list (list ChunkDoc) :=
  if bool_decide (tableCtx ≤ 0)%Z && bool_decide (imageCtx ≤ 0)%Z then perItem
  else map (attach_item tableCtx imageCtx) perItem.

(** ** Children *)

(* internal/ingestion/component/chunker/token.go:1435-1458 splitByChildren *)
Definition splitByChildren (chunks : list ChunkDoc) (pattern : option Pattern) : list ChunkDoc :=
  match pattern with
  | None => chunks
  | Some _ => concat (map (λ ck,
      if decide (cd_DocType ck ≠ "text") then [ck] else
      let mom := if has_prefix (cd_Text ck) newline then drop_bytes 1 (cd_Text ck) else cd_Text ck in
      map (λ p, set_mom (set_text ck p) mom)
        (filter (λ p, trim_space p ≠ "") (splitDroppingDelim (cd_Text ck) pattern))) chunks)
  end.
(* internal/ingestion/component/chunker/token.go:1478-1496 applyChildrenDelimText *)
Definition applyChildrenDelimText (docs : list ChunkDoc) (pattern : option Pattern) : list ChunkDoc :=
  match pattern with
  | None => docs
  | Some _ => concat (map (λ d,
      let t := cd_Text d in
      if decide (trim_space t = "") then [] else
      let mom := if has_prefix t newline then drop_bytes 1 t else t in
      map (λ child, set_mom (set_text empty_doc child) mom)
        (filter (λ p, trim_space p ≠ "") (splitDroppingDelim t pattern))) docs)
  end.

(** ** Parameters and payloads *)

(* internal/ingestion/component/schema/chunker.go:174-207 TokenChunkerParam *)
Record TokenChunkerParam := {
  tp_DelimiterMode : string;
  tp_ChunkTokenSize : Z;
  tp_Delimiters : list string;
  tp_OverlappedPercent : float64;
  tp_ChildrenDelimiters : list string;
  tp_TableContextSize : Z;
  tp_ImageContextSize : Z;
}.
(* internal/ingestion/component/schema/chunker.go:210-220 Defaults *)
Definition Defaults : TokenChunkerParam := {|
  tp_DelimiterMode := "delimiter"; tp_ChunkTokenSize := 512; tp_Delimiters := [newline];
  tp_OverlappedPercent := f64_of_int 0; tp_ChildrenDelimiters := [];
  tp_TableContextSize := 0; tp_ImageContextSize := 0 |}.

Context (c : TokenChunkerParam).

(** [ChunkDoc{Text: s, DocType: "text", CKType: "text"}]. *)
Definition segment_doc (s : string) : ChunkDoc := {|
  cd_Text := s; cd_ContentWithWeight := ""; cd_DocType := "text"; cd_CKType := "text"; cd_TKNums := None;
  cd_Mom := ""; cd_ImgID := ""; cd_Layout := ""; cd_LayoutType := ""; cd_LayoutNo := ""; cd_Image := "";
  cd_ContextAbove := ""; cd_ContextBelow := ""; cd_Questions := ""; cd_Keywords := ""; cd_Summary := "";
  cd_ChunkOrderInt := None; cd_TitleTks := ""; cd_TitleSmTks := ""; cd_ContentLtks := "";
  cd_ContentSmLtks := ""; cd_TagKwd := []; cd_PageNumber := None; cd_TopInt := [];
  cd_PDFPositions := None; cd_Positions := None; cd_Extra := ∅ |}.
(* internal/ingestion/component/chunker/token.go:340-363 TokenChunkerComponent.chunkPerSegment *)
Definition chunkPerSegment (text : string) (delimPattern childrenPattern : option Pattern) : list ChunkDoc :=
  let cleaned := filter (λ p, p ≠ "") (map trim_space (splitDroppingDelim text delimPattern)) in
  match cleaned with
  | [] => []
  | _ => applyChildrenDelimText
           (map segment_doc cleaned) childrenPattern
  end.

Definition CR : Ascii.ascii := Ascii.ascii_of_N 13.
Definition LF : Ascii.ascii := Ascii.ascii_of_N 10.
Fixpoint normalize_newlines (s : string) : string :=
  match s with
  | EmptyString => ""
  | String a s' =>
      if decide (a = CR) then
        match s' with
        | String b s'' => if decide (b = LF) then String LF (normalize_newlines s'') else String LF (normalize_newlines s')
        | EmptyString => String LF ""
        end
      else String a (normalize_newlines s')
  end.

(** A unit of the text path: a line break and the text. *)
Definition text_unit (s : string) : ChunkDoc := set_piece empty_doc (newline +:+ s) (Some (num (newline +:+ s))).
Definition sentence_pattern : Pattern := map (λ r, [r]) sentence_runes.
(** A section over the size is split at its sentence marks, which are dropped. *)
(* internal/ingestion/component/chunker/token.go:471-505 mergeByTokenSize(part) *)
Definition section_units (text : string) : list ChunkDoc :=
  let sec := trim_space text in
  if decide (sec = "") then [] else
  if decide (num (newline +:+ sec) ≤ tp_ChunkTokenSize c)%Z then [text_unit sec] else
  match split_drop sentence_pattern 0 "" (runes sec) with
  | [] => [text_unit sec]
  | parts => map text_unit parts
  end.

(* internal/ingestion/component/chunker/token.go:421-528 TokenChunkerComponent.mergeByTokenSize *)
Definition mergeByTokenSize (text : string) (delimPattern childrenPattern : option Pattern) : option (list ChunkDoc) :=
  let text := normalize_newlines text in
  let useDelimSplit := bool_decide (is_Some delimPattern) && negb (HasCustomDelimiterList (tp_Delimiters c)) in
  let units := if useDelimSplit
               then map text_unit (filter (λ s, s ≠ "") (splitDroppingDelim text delimPattern))
               else section_units text in
  match units with
  | [] => Some []
  | _ =>
      merged ← mergeUnits enc units (tp_ChunkTokenSize c) (clamp_percent (tp_OverlappedPercent c)) "";
      let docs := filter (λ d, cd_Text d ≠ "") (map (λ ch, set_text ch (removeTag (trim_space (cd_Text ch)))) merged) in
      Some (applyChildrenDelimText docs childrenPattern)
  end.

(* internal/ingestion/component/chunker/token.go:313-335 TokenChunkerComponent.invokeTextPayload *)
Definition invokeTextPayload (text : string) (delimPattern childrenPattern : option Pattern) : option (list ChunkDoc) :=
  if decide (text = "") then Some [] else
  match delimPattern with
  | None => mergeByTokenSize text None childrenPattern
  | Some _ =>
      if HasCustomDelimiterList (tp_Delimiters c) then Some (chunkPerSegment text delimPattern childrenPattern)
      else mergeByTokenSize text delimPattern childrenPattern
  end.

(** The fan-out: item [i] is written when its turn comes in [order]; [ctx_at i]
    is the error the context has then. *)
(* internal/ingestion/component/chunker/token.go:536-561 invokeJSONPayload(part) *)
Definition fan_out (delimPattern : option Pattern) (ctx_at : nat → option string) (items : list ChunkDoc) (order : list nat)
    : list (list ChunkDoc) :=
  foldl (λ perItem i,
    match items !! i with
    | Some it => <[i := match ctx_at i with Some _ => [] | None => chunkFromItem delimPattern it end]> perItem
    | None => perItem
    end) (replicate (length items) []) order.

(* internal/ingestion/component/chunker/token.go:532-609 TokenChunkerComponent.invokeJSONPayload *)
Definition invokeJSONPayload (crop : list ChunkDoc → list ChunkDoc) (ctx_at : nat → option string) (ctx_end : option string)
    (order : list nat) (items : list ChunkDoc) (delimPattern childrenPattern : option Pattern)
    : option (string + list ChunkDoc) :=
  match items with
  | [] => Some (inr [])
  | _ =>
      let perItem := fan_out delimPattern ctx_at items order in
      match ctx_end with
      | Some err => Some (inl ("TokenChunker: " +:+ err))
      | None =>
          let attached := attachMediaContext perItem (tp_TableContextSize c) (tp_ImageContextSize c) in
          attached ← (if HasCustomDelimiterList (tp_Delimiters c) then Some attached
                      else mergeByTokenSizeFromJSON enc [concat attached] (tp_ChunkTokenSize c) (tp_OverlappedPercent c));
          let flat := splitByChildren (concat attached) childrenPattern in
          Some (inr (filter (λ d, cd_Text d ≠ "") (map (λ m, set_text m (removeTag (cd_Text m))) (crop flat))))
      end
  end.
End payload.
