(* ===== verification/TitleChunks.v ===== *)
(** * The chunks of the title chunkers, from records to the output
    (ingestion/component/chunker/group.go, hierarchy.go, manual.go)

    A matrix of positions in a chunk is the list of its rows.  How the previews
    of a PDF are cropped is an argument. *)

From S2P Require Import Prelude GoValue Tokenizer TitleLevels TitleGroups ChunkDoc.
From S2P Require Import TokenSplit TokenMerge.
From Stdlib Require Import SpecFloat.

#[export] Instance float64_eq_dec : EqDecision float64.
Proof. intros a b. unfold Decision. repeat decide equality. Defined.

(** ** Positions *)

Definition Row : Type := list float64.
(** Unmarshalling a matrix of numbers: [null] leaves a number zero. *)
Definition float_cell (v : value) : option float64 :=
  match v with VFloat f => Some f | VNil => Some (f64_of_int 0) | _ => None end.
Definition float_matrix (v : value) : option (list Row) :=
  rows ← raw_array v; mapM (λ r, cells ← raw_array r; mapM float_cell cells) rows.
Definition matrix_value (m : list Row) : value := VList (map (λ r, VList (map VFloat r)) m).

Definition cell (r : Row) (i : nat) : float64 := default S754_nan (r !! i).
Definition f64_eq (a b : float64) : bool := SFeqb a b.
(* internal/ingestion/component/chunker/group.go:363-371 pdfPosRowLess *)
Definition pdfPosRowLess (a b : Row) : bool :=
  if negb (f64_eq (cell a 0) (cell b 0)) then f64_lt (cell a 0) (cell b 0)
  else if negb (f64_eq (cell a 3) (cell b 3)) then f64_lt (cell a 3) (cell b 3)
  else f64_lt (cell a 1) (cell b 1).

(** The rows of the sources, without those whose first five columns were seen. *)
Definition add_row (out : list Row) (row : Row) : list Row :=
  if decide (length row < 5 ∨ take 5 row ∈ map (take 5) out) then out else out ++ [row].
Definition matrix_rows (sources : list RawMessage) : list Row :=
  foldl add_row [] (concat (omap (λ src, v ← src; float_matrix v) sources)).
(** [sort.Slice] is not stable: the order of rows that compare equal is a choice. *)
Class RowSort := {
  sort_rows : list Row → list Row;
  sort_rows_perm l : sort_rows l ≡ₚ l;
}.
(* internal/ingestion/component/chunker/group.go:379-409 mergePositionMatrix *)
Definition mergePositionMatrix `{RowSort} (sources : list RawMessage) : option (list Row) :=
  match matrix_rows sources with [] => None | out => Some (sort_rows out) end.

(* internal/ingestion/component/chunker/positions_slice.go:149-172 sliceAnyPositions *)
Definition sliceAnyPositions (pos : value) (startRatio endRatio : float64) : option value :=
  b ← json_rt pos;
  match b with
  | VNil => None
  | _ =>
      sliced ← slicePositionsByTextRatio (Some b) startRatio endRatio;
      Some (match float_matrix sliced with Some m => matrix_value m | None => sliced end)
  end.

(** ** Records *)

Definition meta_entry (key v : string) (m : gmap string value) : gmap string value :=
  if decide (v ≠ "") then <[key := VStr v]> m else m.
(** The record of an item with text. *)
(* internal/ingestion/component/chunker/group.go:432-475 recordsFromStructured(part) *)
Definition record_of (it : ChunkDoc) : option lineRecord :=
  let text := itemTextOrFallback it in
  if decide (text = "") then None else
  let meta := meta_entry "title_sm_tks" (cd_TitleSmTks it)
    (meta_entry "title_tks" (cd_TitleTks it)
    (meta_entry "content_with_weight" (cd_ContentWithWeight it)
    (meta_entry "content_sm_ltks" (cd_ContentSmLtks it)
    (meta_entry "content_ltks" (cd_ContentLtks it) ∅)))) in
  Some {| lr_text := text; docType := if decide (cd_DocType it = "") then "text" else cd_DocType it;
          imgID := if decide (cd_ImgID it ≠ "") then Some (cd_ImgID it) else None;
          layout := cd_Layout it; ckType := cd_CKType it; pdfPositions := cd_PDFPositions it;
          positions := cd_Positions it; parentMeta := cd_Extra it ∪ meta |}.
(* internal/ingestion/component/chunker/group.go:430-477 recordsFromStructured *)
Definition recordsFromStructured (items : list ChunkDoc) : list lineRecord := omap record_of items.

(* internal/ingestion/component/chunker/manual.go:183-202 firstPositionRow *)
Definition firstPositionRow (r : lineRecord) : option Row :=
  raw ← (match pdfPositions r with Some v => Some v | None => positions r end);
  m ← float_matrix raw;
  row ← head m;
  if decide (length row < 5) then None else Some row.
(* internal/ingestion/component/chunker/manual.go:125-132 hasPdfPositions *)
Definition hasPdfPositions (records : list lineRecord) : bool :=
  existsb (λ r, bool_decide (is_Some (pdfPositions r)) || bool_decide (is_Some (positions r))) records.

Definition record_less (a b : lineRecord) : bool :=
  pdfPosRowLess (default [] (firstPositionRow a)) (default [] (firstPositionRow b)).
(** The runs of records with coordinates are sorted, the others stay where they
    are; [run] is the run so far. *)
Fixpoint sort_runs (run records : list lineRecord) : list lineRecord :=
  match records with
  | [] => stable_sort record_less run
  | r :: records =>
      match firstPositionRow r with
      | Some _ => sort_runs (run ++ [r]) records
      | None => stable_sort record_less run ++ r :: sort_runs [] records
      end
  end.
(* internal/ingestion/component/chunker/manual.go:149-175 sortRecordsByPosition *)
Definition sortRecordsByPosition (records : list lineRecord) : list lineRecord := sort_runs [] records.

(** ** Chunks *)

(* internal/ingestion/component/chunker/group.go:269-276 joinGroupText *)
Definition joinGroupText (g : list lineRecord) : string := concat_strings (map (λ r, lr_text r +:+ newline) g).

Definition set_matrix (key : string) (m : option (list Row)) (chunk : gmap string value) : gmap string value :=
  match m with Some m => <[key := matrix_value m]> chunk | None => chunk end.
(** The chunk of a group. *)
(* internal/ingestion/component/chunker/group.go:301-335 buildChunksFromRecordGroups(part) *)
Definition group_chunk `{RowSort} (plain : bool) (first : lineRecord) (g : list lineRecord) : gmap string value :=
  let chunk := {["text" := VStr (removeTag (joinGroupText g))]} in
  let chunk := if plain then chunk else
    let chunk := if decide (docType first ≠ "") then <["doc_type_kwd" := VStr (docType first)]> chunk else chunk in
    match imgID first with Some id => <["img_id" := VStr id]> chunk | None => chunk end in
  let sources f := filter (λ src, is_Some src) (map f g) in
  set_matrix "positions" (mergePositionMatrix (sources positions))
    (set_matrix "_pdf_positions" (mergePositionMatrix (sources pdfPositions)) chunk).

(** The text of the first chunk heads the others. *)
(* internal/ingestion/component/chunker/group.go:337-343 buildChunksFromRecordGroups(part) *)
Definition root_as_heading (chunks : list (gmap string value)) : list (gmap string value) :=
  match chunks with
  | root :: ((_ :: _) as rest) => map (λ c, <["text" := VStr (chunk_text root +:+ newline +:+ chunk_text c)]> c) rest
  | _ => chunks
  end.

(* internal/ingestion/component/chunker/group.go:298-345 buildChunksFromRecordGroups *)
Definition buildChunksFromRecordGroups `{RowSort} (groups : list (list lineRecord)) (p : titleChunkerParam) (plain : bool)
    : list (gmap string value) :=
  let chunks := omap (λ g, match g with [] => None | first :: _ => Some (group_chunk plain first g) end) groups in
  if RootChunkAsHeading p then root_as_heading chunks else chunks.

Section invoke.
Context `{RowSort} (level_match : string → string → bool) (Pt : Patterns) (enc : option Encoder)
  (crop : list (gmap string value) → list (gmap string value)).

(** The ceiling, then the previews. *)
Definition finish_chunks (chunks : list (gmap string value)) (tokenCap : Z) : option (list (gmap string value)) :=
  capped ← (if decide (0 < tokenCap)%Z then enforceTitleTokenCap enc sliceAnyPositions chunks tokenCap else Some chunks);
  Some (crop capped).

(* internal/ingestion/component/chunker/group.go:140-214 chunkFromRecords *)
Definition chunkFromRecords (p : titleChunkerParam) (outline : list outlineEntry) (plain : bool)
    (records : list lineRecord) (tokenCap : Z) : option (list (gmap string value)) :=
  finish_chunks (buildChunksFromRecordGroups (group_document level_match Pt enc p outline records) p plain) tokenCap.

(* internal/ingestion/component/chunker/group.go:113-124 invokeGroup *)
Definition invokeGroup (p : titleChunkerParam) (outline : list outlineEntry) (plain : bool) (records : list lineRecord)
    : option (list (gmap string value)) :=
  match records with [] => Some [] | _ => chunkFromRecords p outline plain records (ChunkTokenCap p) end.

(* internal/ingestion/component/chunker/hierarchy.go:143-279 invokeHierarchy *)
Definition invokeHierarchy (p : titleChunkerParam) (outline : list outlineEntry) (plain : bool) (records : list lineRecord)
    : option (list (gmap string value)) :=
  match records with
  | [] => Some []
  | _ =>
      groups ← hierarchy_document level_match Pt p outline records;
      finish_chunks (buildChunksFromRecordGroups groups p plain) (ChunkTokenCap p)
  end.

(* internal/ingestion/component/chunker/manual.go:108-121 ManualChunkerComponent.invoke *)
Definition invokeManual (p : titleChunkerParam) (outline : list outlineEntry) (plain : bool) (records : list lineRecord)
    : option (list (gmap string value)) :=
  match records with
  | [] => Some []
  | _ =>
      let records := if hasPdfPositions records then sortRecordsByPosition records else records in
      chunkFromRecords p outline plain records 0
  end.
End invoke.
