(* ===== verification/Reranker.v ===== *)
(** * Scoring of search results (service/nlp/reranker.go, common/number.go)

    The query builder, its term weights, the model that reranks and the cleaning
    of spaces by regular expressions are arguments.  A slice that is returned
    twice is one slice: what is added to the combined scores of
    [HybridSimilarity] may also be added to the token scores. *)

From S2P Require Import Prelude GoValue Tokenizer TitleLevels ChunkDoc TokenSplit.
From stdpp Require Import pretty.
From Stdlib Require Import SpecFloat.

Local Open Scope go_scope.

Notation Chunk := (gmap string value).
Definition f64_0 : float64 := f64_of_int 0.
Definition f64_1 : float64 := f64_of_int 1.
(** A decimal literal: a quotient of integers, rounded once. *)
Definition f64_lit (num den : Z) : float64 := f64_div (f64_of_int num) (f64_of_int den).
Definition f64_sqrt : float64 → float64 := SFsqrt 53 1024.
Definition f64_eqb (a b : float64) : bool := SFeqb a b.
(** [math.Max]. *)
Definition f64_max (x y : float64) : float64 :=
  match x, y with
  | S754_infinity false, _ | _, S754_infinity false => S754_infinity false
  | S754_nan, _ | _, S754_nan => S754_nan
  | S754_zero s, S754_zero _ => if s then y else x
  | _, _ => if f64_lt y x then x else y
  end.

(** ** Sums *)

(** One round of the pairwise sum: an odd element is carried to the end. *)
Fixpoint pair_sums (xs : list float64) : list float64 :=
  match xs with
  | x :: y :: rest => f64_add x y :: pair_sums rest
  | _ => xs
  end.
Fixpoint pairwise (fuel : nat) (xs : list float64) : option float64 :=
  match xs, fuel with
  | [x], _ => Some x
  | _, O => None
  | _, S fuel => pairwise fuel (pair_sums xs)
  end.
(* internal/common/number.go:111-144 PairwiseSum *)
Definition PairwiseSum (xs : list float64) : option float64 :=
  if decide (length xs < 16)%nat then Some (foldl f64_add f64_0 xs) else pairwise (length xs) xs.

(** ** Fields of a chunk *)

(** [strings.Fields]: the maximal runs of runes that are not white space. *)
Fixpoint fields_from (rs : list string) (current : string) : list string :=
  match rs with
  | [] => flush current
  | r :: rest => if is_space r then flush current ++ fields_from rest "" else fields_from rest (current +:+ r)
  end.
Definition fields (s : string) : list string := fields_from (runes s) "".

Definition string_field (chunk : Chunk) (key : string) : list string :=
  match chunk !! key with Some (VStr s) => fields s | _ => [] end.
(* internal/service/nlp/reranker.go:534-550 extractContentTokens *)
Definition extractContentTokens (chunk : Chunk) (cfield : string) : list string :=
  foldl keep_first [] (string_field chunk cfield).
(* internal/service/nlp/reranker.go:553-566 extractTitleTokens *)
Definition extractTitleTokens (chunk : Chunk) : list string := string_field chunk "title_tks".
(* internal/service/nlp/reranker.go:569-581 extractQuestionTokens *)
Definition extractQuestionTokens (chunk : Chunk) : list string := string_field chunk "question_tks".

Definition as_string (v : value) : option string := match v with VStr s => Some s | _ => None end.
(* internal/service/nlp/reranker.go:584-606 extractImportantKeywords *)
Definition extractImportantKeywords (chunk : Chunk) : list string :=
  match chunk !! "important_kwd" with
  | Some (VStr s) => [s]
  | Some (VOther "[]string" _ (Some (VList l))) => omap as_string l
  | Some (VList l) => omap as_string l
  | _ => []
  end.

(** An assertion that an element is a number panics. *)
Definition as_float (v : value) : go float64 := match v with VFloat f => Ret f | _ => Panic end.
Fixpoint as_floats (l : list value) : go (list float64) :=
  match l with [] => Ret [] | v :: l => x <-! as_float v; xs <-! as_floats l; Ret (x :: xs) end.
(* internal/service/nlp/reranker.go:513-531 extractVector *)
Definition extractVector (chunk : Chunk) (column : string) (zeroVector : list float64) : go (list float64) :=
  match chunk !! column with
  | Some (VOther "[]float64" _ (Some (VList l))) => as_floats l
  | Some (VList l) => as_floats l
  | _ => Ret zeroVector
  end.

Fixpoint chunk_vectors (column : string) (zeroVector : list float64) (chunks : list Chunk) : go (list (list float64)) :=
  match chunks with
  | [] => Ret []
  | c :: chunks => v <-! extractVector c column zeroVector; vs <-! chunk_vectors column zeroVector chunks; Ret (v :: vs)
  end.

(* internal/service/nlp/reranker.go:1019-1034 toFloat64 *)
Definition toFloat64 (v : value) : option float64 :=
  match v with
  | VFloat f | VOther "float32" _ (Some (VFloat f)) => Some f
  | VInt z | VOther "int64" _ (Some (VInt z)) | VOther "int32" _ (Some (VInt z)) => Some (f64_of_int z)
  | _ => None
  end.

(** ** Similarity of tokens and vectors *)

Record QueryBuilder := {
  qb_Question : string → list string;
  qb_Weights : option (list string → list (string * float64));
}.

(** A weight is added to a term of the dictionary; terms are kept in the order
    they come in. *)
Definition add_weight (dk : gmap string float64 * list string) (t : string) (w : float64) : gmap string float64 * list string :=
  let '(d, keys) := dk in
  match d !! t with
  | Some x => (<[t := f64_add x w]> d, keys)
  | None => (<[t := f64_add f64_0 w]> d, keys ++ [t])
  end.
Fixpoint weigh (wts : list (string * float64)) (dk : gmap string float64 * list string) : gmap string float64 * list string :=
  match wts with
  | [] => dk
  | (t, c) :: rest =>
      let dk := add_weight dk t (f64_mul c (f64_lit 4 10)) in
      let dk := match rest with
                | (t', c') :: _ => add_weight dk (t +:+ t') (f64_mul (f64_max c c') (f64_lit 6 10))
                | [] => dk
                end in
      weigh rest dk
  end.
(* internal/service/nlp/reranker.go:421-447 tokensToDict *)
Definition tokensToDict (tks : list string) (qb : option QueryBuilder) : gmap string float64 * list string :=
  match qb with
  | Some qb => match qb_Weights qb with Some w => weigh (w tks) (∅, []) | None => (∅, []) end
  | None => (∅, [])
  end.

(* internal/service/nlp/reranker.go:453-489 tokenDictSimilarity *)
Definition tokenDictSimilarity (qtwt dtwt : gmap string float64) (qKeyOrder : list string) : float64 :=
  if decide (qtwt = ∅ ∨ dtwt = ∅) then f64_0 else
  let keys := match qKeyOrder with [] => sort_strings (map_to_list qtwt).*1 | _ => qKeyOrder end in
  let weight t := default f64_0 (qtwt !! t) in
  let s := foldl (λ s t, if decide (is_Some (dtwt !! t)) then f64_add s (weight t) else s) (f64_lit 1 1000000000) keys in
  let q := foldl (λ q t, f64_add q (weight t)) (f64_lit 1 1000000000) keys in
  f64_div s q.

(* internal/service/nlp/reranker.go:404-417 TokenSimilarity *)
Definition TokenSimilarity (atks : list string) (btkss : list (list string)) (qb : option QueryBuilder) : list float64 :=
  let '(atksDict, order) := tokensToDict atks qb in
  map (λ btks, tokenDictSimilarity atksDict (tokensToDict btks qb).1 order) btkss.

(* internal/service/nlp/reranker.go:611-633 cosineSimilarity *)
Definition cosineSimilarity (a b : list float64) : option float64 :=
  if decide (length a ≠ length b) then Some f64_0 else
  dot ← PairwiseSum (zip_with f64_mul a b);
  normA ← PairwiseSum (map (λ x, f64_mul x x) a);
  normB ← PairwiseSum (map (λ x, f64_mul x x) b);
  if f64_eqb normA f64_0 || f64_eqb normB f64_0 then Some f64_0
  else Some (f64_div dot (f64_mul (f64_sqrt normA) (f64_sqrt normB))).

Definition blend (tkWeight vtWeight : float64) (t v : float64) : float64 :=
  f64_add (f64_mul tkWeight t) (f64_mul vtWeight v).

(** The scores; [hs_shared] is whether the combined scores are the slice of the
    token scores. *)
Record Hybrid := { hs_sim : list float64; hs_tsim : list float64; hs_vsim : list float64; hs_shared : bool }.
(* internal/service/nlp/reranker.go:364-401 HybridSimilarity *)
Definition HybridSimilarity (avec : list float64) (bvecs : list (list float64)) (atks : list string)
    (btkss : list (list string)) (tkWeight vtWeight : float64) (qb : option QueryBuilder) : option Hybrid :=
  vsim ← mapM (cosineSimilarity avec) bvecs;
  let tsim := TokenSimilarity atks btkss qb in
  if forallb (λ s, f64_eqb s f64_0) vsim
  then Some {| hs_sim := tsim; hs_tsim := tsim; hs_vsim := vsim; hs_shared := true |}
  else Some {| hs_sim := zip_with (blend tkWeight vtWeight) tsim vsim; hs_tsim := tsim; hs_vsim := vsim; hs_shared := false |}.

(** ** Scores of a model *)

(* internal/service/nlp/reranker.go:217-259 NormalizeRerankScores *)
Definition NormalizeRerankScores (scores : list float64) : list float64 :=
  match scores with
  | [] => scores
  | s0 :: rest =>
      let minScore := foldl (λ m s, if f64_lt s m then s else m) s0 rest in
      let maxScore := foldl (λ m s, if f64_lt m s then s else m) s0 rest in
      if f64_le f64_0 minScore && f64_le maxScore f64_1 then scores else
      let span := f64_sub maxScore minScore in
      if f64_lt span (f64_lit 1 1000) then
        map (λ s, if f64_lt s f64_0 then f64_0 else if f64_lt f64_1 s then f64_1 else s) scores
      else
        let invSpan := f64_div f64_1 span in
        map (λ s, f64_mul (f64_sub s minScore) invSpan) scores
  end.

(** ** Features of the rank *)

Definition PAGERANK_FLD : string := "pagerank_fea".
Definition TAG_FLD : string := "tag_feas".

Section features.
Context (parse_json : string → option (gmap string value)).

Definition float_fields (m : gmap string value) : gmap string float64 := omap toFloat64 m.
(* internal/service/nlp/reranker.go:1038-1055 parseTagFeasRerank *)
Definition parseTagFeasRerank (s : string) : gmap string float64 :=
  if decide (s = "" ∨ s = "{}") then ∅ else
  match parse_json s with Some m => float_fields m | None => ∅ end.
(* internal/service/nlp/reranker.go:1061-1089 extractTagFeasMap *)
Definition extractTagFeasMap (v : option value) : gmap string float64 :=
  match v with
  | None | Some VNil => ∅
  | Some (VStr s) => parseTagFeasRerank s
  | Some (VMap m) => float_fields m
  | Some (VOther "map[string]float64" _ (Some (VMap m))) => float_fields m
  | Some (VMapInt m) => f64_of_int <$> m
  | Some v => match json_rt v with Some (VMap m) => float_fields m | _ => ∅ end
  end.

Definition pagerank (chunk : option Chunk) : float64 :=
  default f64_0 (c ← chunk; v ← c !! PAGERANK_FLD; toFloat64 v).

Definition sorted_keys {V} (m : gmap string V) : list string := sort_strings (map_to_list m).*1.
(** The norm of the query's weights. *)
Definition query_norm (rankFeature : gmap string float64) : option float64 :=
  s ← PairwiseSum (omap (λ t, if decide (t = PAGERANK_FLD) then None
                              else (λ s, f64_mul s s) <$> rankFeature !! t) (sorted_keys rankFeature));
  Some (f64_sqrt s).
(* internal/service/nlp/reranker.go:709-747 applyRankFeatureScores(part) *)
Definition tag_score (rankFeature : gmap string float64) (qDenor : float64) (chunk : option Chunk) : float64 :=
  let tags := extractTagFeasMap (c ← chunk; c !! TAG_FLD) in
  let keys := sorted_keys tags in
  let sc t := default f64_0 (tags !! t) in
  let nor := foldl f64_add f64_0 (omap (λ t, (λ w, f64_mul w (sc t)) <$> rankFeature !! t) keys) in
  let denor := foldl f64_add f64_0 (map (λ t, f64_mul (sc t) (sc t)) keys) in
  if decide (tags = ∅) then f64_0
  else if f64_eqb denor f64_0 then f64_0
  else f64_div (f64_div nor (f64_sqrt denor)) qDenor.

(** What is added to the score of each chunk. *)
Definition rank_boosts (rankFeature : gmap string float64) (chunks : list (option Chunk)) : option (list float64) :=
  if decide (rankFeature = ∅) then Some (map pagerank chunks) else
  qDenor ← query_norm rankFeature;
  if f64_eqb qDenor f64_0 then Some (map pagerank chunks)
  else Some (map (λ c, f64_add (f64_mul (tag_score rankFeature qDenor c) (f64_of_int 10)) (pagerank c)) chunks).

(** The loop over the scores reads the boost at each index. *)
Definition apply_boosts (sim boosts : list float64) : go (list float64) :=
  if decide (length sim ≤ length boosts)%nat then Ret (zip_with f64_add sim boosts) else Panic.
(* internal/service/nlp/reranker.go:657-756 applyRankFeatureScores *)
Definition applyRankFeatureScores (chunks : list Chunk) (sim : list float64) (rankFeature : gmap string float64)
    : option (go (list float64)) :=
  if decide (chunks = [] ∨ sim = []) then Some (Ret sim) else
  boosts ← rank_boosts rankFeature (map Some chunks);
  Some (apply_boosts sim boosts).
(* internal/service/nlp/reranker.go:760-869 applyRankFeatureScoresForIDs *)
Definition applyRankFeatureScoresForIDs (ids : list string) (field : gmap string Chunk) (sim : list float64)
    (rankFeature : gmap string float64) : option (go (list float64)) :=
  if decide (ids = [] ∨ sim = []) then Some (Ret sim) else
  boosts ← rank_boosts rankFeature (map (λ id, field !! id) ids);
  Some (apply_boosts sim boosts).

(** ** Reranking *)

Definition Scores : Type := list float64 * list float64 * list float64.
Definition no_scores : Scores := ([], [], []).

(** The tokens of a chunk, by weight. *)
Definition weighted_tokens (cfield : string) (chunk : Chunk) : list string :=
  extractContentTokens chunk cfield ++ mjoin (replicate 2 (extractTitleTokens chunk))
  ++ mjoin (replicate 5 (extractImportantKeywords chunk)) ++ mjoin (replicate 6 (extractQuestionTokens chunk)).

(* internal/service/nlp/reranker.go:508-510 getVectorColumnName *)
Definition getVectorColumnName (dim : nat) : string := "q_" +:+ pretty dim +:+ "_vec".
(* internal/service/nlp/reranker.go:263-335 RerankStandard *)
Definition RerankStandard (chunks : list Chunk) (keywords : list string) (questionVector : list float64) (query : string)
    (tkWeight vtWeight : float64) (cfield : string) (qb : option QueryBuilder) (rankFeature : gmap string float64)
    : option (go Scores) :=
  match chunks with
  | [] => Some (Ret no_scores)
  | _ =>
      let keywords := match qb, keywords with Some qb, [] => qb_Question qb query | _, _ => keywords end in
      let dim := length questionVector in
      match chunk_vectors (getVectorColumnName dim) (replicate dim f64_0) chunks with
      | Panic => Some Panic
      | Ret insEmbd =>
          h ← HybridSimilarity questionVector insEmbd keywords (map (weighted_tokens cfield) chunks) tkWeight vtWeight qb;
          r ← applyRankFeatureScores chunks (hs_sim h) rankFeature;
          Some (sim <-! r; Ret (sim, if hs_shared h then sim else hs_tsim h, hs_vsim h))
      end
  end.

(** The chunk of an identifier, or the one at its index. *)
Definition chunk_at (chunks : list Chunk) (field : gmap string Chunk) (i : nat) (id : string) : option Chunk :=
  match field !! id with Some c => Some c | None => chunks !! i end.

(** A keyword that is a string becomes a list, in the chunk itself. *)
(* internal/service/nlp/reranker.go:927-941 RerankWithKNN(part) *)
Definition wrap_keywords (field : gmap string Chunk) (ids : list string) : gmap string Chunk :=
  foldl (λ field id, alter (λ c, match c !! "important_kwd" with
                                 | Some (VStr s) => <["important_kwd" := VOther "[]string" None (Some (VList [VStr s]))]> c
                                 | _ => c
                                 end) id field) field ids.

(* internal/service/nlp/reranker.go:910-1016 RerankWithKNN *)
Definition RerankWithKNN (chunks : list Chunk) (ids : list string) (field : gmap string Chunk) (knnScores : gmap string float64)
    (query : string) (tkWeight vtWeight : float64) (cfield : string) (qb : option QueryBuilder)
    (rankFeature : gmap string float64) : option (go Scores) :=
  match ids with
  | [] => Some (Ret no_scores)
  | _ =>
      let keywords := match qb with Some qb => qb_Question qb query | None => [] end in
      let insTw := imap (λ i id, match chunk_at chunks field i id with Some c => weighted_tokens cfield c | None => [] end) ids in
      let tsim := TokenSimilarity keywords insTw qb in
      let vsim := map (λ id, default f64_0 (knnScores !! id)) ids in
      r ← applyRankFeatureScoresForIDs ids field (zip_with (blend tkWeight vtWeight) tsim vsim) rankFeature;
      Some (sim <-! r; Ret (sim, tsim, vsim))
  end.

(** The scores of the model go to the index it gives. *)
Definition place_scores (n : nat) (results : list (Z * float64)) : list float64 :=
  foldl (λ ms '(i, s), if decide (0 ≤ i < Z.of_nat n)%Z then <[Z.to_nat i := s]> ms else ms) (replicate n f64_0) results.
Context (model_rerank : string → list string → option (list (Z * float64))) (remove_spaces : string → string).
Definition space_byte : Ascii.ascii := Ascii.ascii_of_N 32.
(* internal/service/nlp/reranker.go:91-197 RerankByModel *)
Definition RerankByModel (chunks : list Chunk) (ids : list string) (field : gmap string Chunk) (query : string)
    (tkWeight vtWeight : float64) (cfield : string) (qb : option QueryBuilder) (rankFeature : gmap string float64)
    : option (go Scores) :=
  match chunks with
  | [] => Some (Ret no_scores)
  | _ =>
      let keywords := match qb with Some qb => qb_Question qb query | None => [] end in
      let found := omap id (imap (chunk_at chunks field) ids) in
      let insTw := map (λ c, extractContentTokens c cfield ++ extractTitleTokens c ++ extractImportantKeywords c
                               ++ extractQuestionTokens c) found in
      let docs := map (λ tks, remove_spaces (join_with space_byte tks)) insTw in
      let tsim := TokenSimilarity keywords insTw qb in
      let results := default [] (model_rerank query docs) in
      let modelSim := NormalizeRerankScores (place_scores (length insTw) results) in
      r ← applyRankFeatureScoresForIDs ids field (zip_with (blend tkWeight vtWeight) tsim modelSim) rankFeature;
      Some (sim <-! r; Ret (sim, tsim, modelSim))
  end.
End features.
