(* ===== verification/Retrieval.v ===== *)
(** * Retrieval: scoring, ranking, pages and aggregation (service/nlp/retrieval.go)

    The search engine, the table of documents and the reranking model are
    arguments ([RetrievalEnv]).  The tenants, knowledge bases and filters of a
    request only go to the engine. *)

From S2P Require Import Prelude GoValue Tokenizer TitleLevels ChunkDoc TokenSplit Reranker.
From Stdlib Require Import SpecFloat.

Local Open Scope go_scope.

(* internal/service/nlp/retrieval.go:49-67 RetrievalRequest *)
Record RetrievalRequest := {
  rq_Question : string;
  rq_Page : Z;
  rq_PageSize : Z;
  rq_RerankCandidatesCount : option Z;
  rq_KNNTopK : option Z;
  rq_KNNNumCandidates : option Z;
  rq_SimilarityThreshold : option float64;
  rq_VectorSimilarityWeight : option float64;
  rq_RankFeature : option (gmap string float64);
  rq_RerankModel : bool;
  rq_Aggs : option bool;
  rq_Highlight : option bool;
}.
(* internal/service/nlp/retrieval.go:496-512 RetrievalSearchRequest *)
Record RetrievalSearchRequest := {
  sq_Question : string;
  sq_Page : Z;
  sq_PageSize : Z;
  sq_KNNTopK : Z;
  sq_KNNNumCandidates : Z;
  sq_RankFeature : gmap string float64;
  sq_VectorSimilarityWeight : option float64;
}.
(* internal/service/nlp/retrieval.go:542-553 RetrievalSearchResult *)
Record RetrievalSearchResult := {
  sr_Chunks : list Chunk;
  sr_Total : Z;
  sr_QueryVector : list float64;
  sr_Highlight : option (gmap string string);
  sr_Field : gmap string Chunk;
  sr_IDs : list string;
}.
(* internal/service/nlp/retrieval.go:70-74 RetrievalResult *)
Record RetrievalResult := { rr_Chunks : list Chunk; rr_DocAggs : list Chunk; rr_Total : Z }.

Inductive RetrievalError :=
| CandidatesTooFew (count page pageSize : Z)
| PageWithModel (pageSize : Z)
| SearchFailed (e : string)
| PruneFailed (e : string).

Inductive EngineKind := Infinity | OceanBase | Elasticsearch.

Record RetrievalEnv := {
  re_search : RetrievalSearchRequest → string + RetrievalSearchResult;
  re_documents : option (gset string → string + list string);
  re_engine : EngineKind;
  re_knn : RetrievalSearchResult → option (gmap string float64);
  re_qb : option QueryBuilder;
  re_model : string → list string → option (list (Z * float64));
  re_json : string → option (gmap string value);
  re_spaces : string → string;
}.

Definition field_string (c : Chunk) (key : string) : option string := c !! key ≫= as_string.

(** ** Stale chunks *)

Definition doc_ids (field : gmap string Chunk) : gset string :=
  list_to_set (omap (λ kc, match field_string kc.2 "doc_id" with
                           | Some d => if decide (d = "") then None else Some d
                           | None => None end) (map_to_list field)).
(** Is the chunk's document still there? *)
Definition fresh (existing : gset string) (c : Chunk) : bool :=
  match field_string c "doc_id" with
  | Some d => bool_decide (d = "") || bool_decide (d ∈ existing)
  | None => true
  end.
(* internal/service/nlp/retrieval.go:967-1063 RetrievalService.PruneDeletedChunks *)
Definition PruneDeletedChunks (env : RetrievalEnv) (r : RetrievalSearchResult) : string + RetrievalSearchResult :=
  match re_documents env with
  | None => inl "documentDAO is not initialized"
  | Some getByIDs =>
      let unique := doc_ids (sr_Field r) in
      if decide (unique = ∅) then inr r else
      match getByIDs unique with
      | inl err => inl ("GetByIDs failed: " +:+ err)
      | inr docs =>
          let existing : gset string := list_to_set docs in
          if decide (size existing = size unique) then inr r else
          let ids := filter (λ id, from_option (fresh existing) false (sr_Field r !! id) = true) (sr_IDs r) in
          inr {| sr_Chunks := omap (λ id, sr_Field r !! id) ids; sr_Total := Z.of_nat (length ids);
                 sr_QueryVector := sr_QueryVector r;
                 sr_Highlight := Some (filter (λ kv, kv.1 ∈ ids) (default ∅ (sr_Highlight r)));
                 sr_Field := filter (λ kv, kv.1 ∈ ids) (sr_Field r); sr_IDs := ids |}
      end
  end.

(** ** Scores *)

(* internal/service/nlp/retrieval.go:435-449 RetrievalService.scoreSearchResult(part) *)
Definition infinity_scores (r : RetrievalSearchResult) : list float64 :=
  map (λ id, default f64_0 (c ← sr_Field r !! id;
    head (omap (λ key, v ← c !! key; match v with VFloat f => Some f | _ => None end) ["_score"; "SCORE"; "SIMILARITY"]))) (sr_IDs r).

(** The scores, and the fields the reranking leaves. *)
(* internal/service/nlp/retrieval.go:411-493 RetrievalService.scoreSearchResult *)
Definition scoreSearchResult (env : RetrievalEnv) (question : string) (vtWeight : float64) (rankFeature : gmap string float64)
    (rerankModel : bool) (r : RetrievalSearchResult) : option (go (gmap string Chunk * Scores)) :=
  let tkWeight := f64_sub f64_1 vtWeight in
  let standard :=
    s ← RerankStandard (re_json env) (sr_Chunks r) [] (sr_QueryVector r) question tkWeight vtWeight "content_ltks" (re_qb env) rankFeature;
    Some (s <-! s; Ret (sr_Field r, s)) in
  if rerankModel && bool_decide (0 < sr_Total r)%Z then
    s ← RerankByModel (re_json env) (re_model env) (re_spaces env) (sr_Chunks r) (sr_IDs r) (sr_Field r) question tkWeight vtWeight
          "content_ltks" (re_qb env) rankFeature;
    Some (s <-! s; Ret (sr_Field r, s))
  else match re_engine env with
  | Infinity => let sim := infinity_scores r in Some (Ret (sr_Field r, (sim, sim, sim)))
  | OceanBase => standard
  | Elasticsearch =>
      match re_knn env r with
      | None => standard
      | Some knnScores =>
          let field := match sr_IDs r with [] => sr_Field r | ids => wrap_keywords (sr_Field r) ids end in
          s ← RerankWithKNN (re_json env) (sr_Chunks r) (sr_IDs r) field knnScores question tkWeight vtWeight
                "content_ltks" (re_qb env) rankFeature;
          Some (s <-! s; Ret (field, s))
      end
  end.

(** ** Chunks of the answer *)

Definition copy_field (key : string) (src dst : Chunk) : Chunk :=
  match src !! key with Some v => <[key := v]> dst | None => dst end.
Definition copy_or (from_ to : string) (def : value) (src dst : Chunk) : Chunk := <[to := default def (src !! from_)]> dst.
Definition empty_strings : value := VOther "[]string" None (Some (VList [])).
Definition float_slice (l : list float64) : value := VOther "[]float64" None (Some (VList (map VFloat l))).

Definition positions_field (c : Chunk) : value :=
  match c !! "position_int" with Some VNil | None => VList [] | Some v => v end.
Definition doc_type_field (c : Chunk) : value :=
  match c !! "doc_type_kwd" with
  | Some (VStr s) => if decide (s = "") then VNil else VStr s
  | Some (VList (v :: l)) => VList (v :: l)
  | _ => VNil
  end.
(* internal/service/nlp/retrieval.go:328-338 RetrievalService.Retrieval(part) *)
Definition add_highlight (env : RetrievalEnv) (highlight : option bool) (r : RetrievalSearchResult) (chunkID : string) (c out : Chunk) : Chunk :=
  match highlight, sr_Highlight r with
  | Some true, Some hl =>
      match hl !! chunkID with
      | Some text => <["highlight" := VStr (re_spaces env text)]> out
      | None => match field_string c "content_with_weight" with
                | Some text => <["highlight" := VStr (re_spaces env text)]> out
                | None => out
                end
      end
  | _, _ => out
  end.
(* internal/service/nlp/retrieval.go:225-340 RetrievalService.Retrieval(part) *)
Definition result_chunk (env : RetrievalEnv) (highlight : option bool) (r : RetrievalSearchResult) (chunkID : string) (c : Chunk)
    (sim tsim vsim : float64) : Chunk :=
  let out := {["chunk_id" := VStr chunkID]} in
  let out := foldl (λ out key, copy_field key c out) out
    ["content_ltks"; "content_with_weight"; "doc_id"; "docnm_kwd"; "kb_id"; "important_kwd"; "tag_kwd"] in
  let out := copy_or "img_id" "image_id" (VStr "") c out in
  let out := <["positions" := positions_field c]> out in
  let out := <["doc_type_kwd" := doc_type_field c]> out in
  let out := <["similarity" := VFloat sim]> (<["term_similarity" := VFloat tsim]> (<["vector_similarity" := VFloat vsim]> out)) in
  let out := copy_or "important_kwd" "important_kwd" empty_strings c out in
  let out := copy_or "mom_id" "mom_id" (VStr "") c out in
  let out := copy_or "row_id()" "row_id" VNil c out in
  let out := copy_or "tag_kwd" "tag_kwd" empty_strings c out in
  let dim := length (sr_QueryVector r) in
  let out := copy_or (getVectorColumnName dim) "vector" (float_slice (replicate dim f64_0)) c out in
  add_highlight env highlight r chunkID c out.

(** ** Ranking *)

Definition higher (a b : nat * float64) : bool := f64_lt b.2 a.2.
(** The indices by falling score, those below the threshold left out. *)
(* internal/service/nlp/retrieval.go:164-191 RetrievalService.Retrieval(part) *)
Definition valid_indices (sim : list float64) (threshold : float64) : list nat :=
  (filter (λ ix, f64_le threshold ix.2 = true) (stable_sort higher (imap pair sim))).*1.
Definition page_of {A} (page pageSize : Z) (l : list A) : list A :=
  take (Z.to_nat pageSize) (drop (Z.to_nat ((page - 1) * pageSize)) l).

(** The chunk at an index; reading the other scores may be out of range. *)
Definition chunk_result (env : RetrievalEnv) (highlight : option bool) (r : RetrievalSearchResult) (s : Scores) (i : nat)
    : go (option Chunk) :=
  let '(sim, tsim, vsim) := s in
  match sr_IDs r !! i ≫= (λ id, pair id <$> sr_Field r !! id) with
  | None => Ret None
  | Some (id, c) =>
      match sim !! i, tsim !! i, vsim !! i with
      | Some x, Some t, Some v => Ret (Some (result_chunk env highlight r id c x t v))
      | _, _, _ => Panic
      end
  end.
Fixpoint page_chunks (env : RetrievalEnv) (highlight : option bool) (r : RetrievalSearchResult) (s : Scores) (idx : list nat)
    : go (list Chunk) :=
  match idx with
  | [] => Ret []
  | i :: idx =>
      c <-! chunk_result env highlight r s i;
      cs <-! page_chunks env highlight r s idx;
      Ret (match c with Some c => c :: cs | None => cs end)
  end.

(** ** Documents of the valid chunks *)

(** The order of the aggregation: by falling count, otherwise unspecified. *)
Class AggOrder := {
  agg_order : gmap string (string * Z) → list (string * (string * Z));
  agg_perm m : agg_order m ≡ₚ map_to_list m;
  agg_sorted m : StronglySorted (λ a b, b.2.2 ≤ a.2.2)%Z (agg_order m);
}.
Definition count_doc (m : gmap string (string * Z)) (c : Chunk) : gmap string (string * Z) :=
  let docName := default "" (field_string c "docnm_kwd") in
  let docID := default "" (field_string c "doc_id") in
  match m !! docName with
  | Some (d, n) => <[docName := (d, (n + 1)%Z)]> m
  | None => <[docName := (docID, 1%Z)]> m
  end.
Definition valid_chunks (r : RetrievalSearchResult) (validIdx : list nat) : list Chunk :=
  omap (λ i, sr_IDs r !! i ≫= λ id, sr_Field r !! id) validIdx.
(* internal/service/nlp/retrieval.go:342-402 RetrievalService.Retrieval(part) *)
Definition doc_aggs `{AggOrder} (r : RetrievalSearchResult) (validIdx : list nat) : list Chunk :=
  map (λ e, {["doc_name" := VStr e.1; "doc_id" := VStr e.2.1; "count" := VInt e.2.2]})
    (agg_order (foldl count_doc ∅ (valid_chunks r validIdx))).

(** ** Retrieval *)

Definition empty_result : RetrievalResult := {| rr_Chunks := []; rr_DocAggs := []; rr_Total := 0 |}.
Definition default_rank_feature : gmap string float64 := {["pagerank_fea" := f64_of_int 10]}.
Definition with_field (r : RetrievalSearchResult) (field : gmap string Chunk) : RetrievalSearchResult :=
  {| sr_Chunks := sr_Chunks r; sr_Total := sr_Total r; sr_QueryVector := sr_QueryVector r; sr_Highlight := sr_Highlight r;
     sr_Field := field; sr_IDs := sr_IDs r |}.

(** From the scores to the answer. *)
(* internal/service/nlp/retrieval.go:159-408 RetrievalService.Retrieval(part) *)
Definition rank_and_page `{AggOrder} (env : RetrievalEnv) (req : RetrievalRequest) (page pageSize : Z) (vtWeight threshold : float64)
    (r : RetrievalSearchResult) (s : Scores) : go RetrievalResult :=
  let '(sim, _, _) := s in
  if decide (sim = []) then Ret empty_result else
  let postThreshold := if f64_le vtWeight f64_0 then f64_0 else threshold in
  let validIdx := valid_indices sim postThreshold in
  if decide (validIdx = []) then Ret empty_result else
  chunks <-! page_chunks env (rq_Highlight req) r s (page_of page pageSize validIdx);
  Ret {| rr_Chunks := chunks; rr_DocAggs := if default true (rq_Aggs req) then doc_aggs r validIdx else [];
         rr_Total := Z.of_nat (length validIdx) |}.

Definition candidates (req : RetrievalRequest) : Z := default 64%Z (rq_RerankCandidatesCount req).
Definition vector_weight (req : RetrievalRequest) : float64 := default (f64_lit 3 10) (rq_VectorSimilarityWeight req).
Definition rank_feature (req : RetrievalRequest) : gmap string float64 := default default_rank_feature (rq_RankFeature req).
(** The engine is always asked for the first page of candidates. *)
(* internal/service/nlp/retrieval.go:130-143 RetrievalService.Retrieval(part) *)
Definition search_request (req : RetrievalRequest) : RetrievalSearchRequest := {|
  sq_Question := rq_Question req; sq_Page := 1; sq_PageSize := candidates req;
  sq_KNNTopK := default 1024%Z (rq_KNNTopK req); sq_KNNNumCandidates := default 2048%Z (rq_KNNNumCandidates req);
  sq_RankFeature := rank_feature req; sq_VectorSimilarityWeight := Some (vector_weight req) |}.

(* internal/service/nlp/retrieval.go:85-409 RetrievalService.Retrieval *)
Definition Retrieval `{AggOrder} (env : RetrievalEnv) (req : RetrievalRequest) : option (go (RetrievalError + RetrievalResult)) :=
  if decide (rq_Question req = "") then Some (Ret (inr empty_result)) else
  let threshold := default (f64_lit 2 10) (rq_SimilarityThreshold req) in
  let vtWeight := vector_weight req in
  let page := if decide (rq_Page req ≤ 0)%Z then 1%Z else rq_Page req in
  let pageSize := if decide (rq_PageSize req ≤ 0)%Z then 1%Z else rq_PageSize req in
  let count := candidates req in
  if decide (count ≤ 0 ∨ Z.quot count pageSize < page)%Z then Some (Ret (inl (CandidatesTooFew count page pageSize))) else
  if decide (rq_RerankModel req = true ∧ page ≠ 1%Z) then Some (Ret (inl (PageWithModel pageSize))) else
  match re_search env (search_request req) with
  | inl err => Some (Ret (inl (SearchFailed err)))
  | inr r =>
      match PruneDeletedChunks env r with
      | inl err => Some (Ret (inl (PruneFailed err)))
      | inr r =>
          if decide (sr_Total r = 0)%Z then Some (Ret (inr empty_result)) else
          scored ← scoreSearchResult env (rq_Question req) vtWeight (rank_feature req) (rq_RerankModel req) r;
          Some (fs <-! scored;
                res <-! rank_and_page env req page pageSize vtWeight threshold (with_field r fs.1) fs.2;
                Ret (inr res))
      end
  end.
