(* ===== verification/IngestionTask.v ===== *)
(** * Ingestion tasks and workers (internal/service/ingestion_task_service.go,
    internal/ingestion/service/ingestion_service.go)

    The table of tasks with the operations of the service, and what a worker does
    with a message, as programs over atomic queries that may fail. *)

From S2P Require Import Prelude.

(** ** Ingestion tasks: the service, its table and the worker
    (service/ingestion_task_service.go, dao/ingestion.go,
    ingestion/service/ingestion_service.go)

    An operation is a program ([prog]) over atomic queries: one SQL statement,
    one Redis command, one call of the message broker, one access to the
    in-process set of claims.  Between two queries of a program every other
    program may run.  A query of the database, of Redis or of the broker may fail
    with [DBErr], and then has no effect. *)

(** ** Data *)

(** The statuses (common/constants.go). *)
Definition CREATED : string := "CREATED".
Definition SCHEDULED : string := "SCHEDULED".
Definition RUNNING : string := "RUNNING".
Definition COMPLETED : string := "COMPLETED".
Definition FAILED : string := "FAILED".
Definition STOPPED : string := "STOPPED".
Definition STOPPING : string := "STOPPING".

(** The columns the service looks at. *)
(* internal/entity/ingestion_task.go:19-32 IngestionTask *)
Record IngestionTask := {
  it_ID : string;
  it_UserID : string;
  it_DocumentID : string;
  it_DatasetID : string;
  it_Status : string;
}.

Definition with_status (t : IngestionTask) (status : string) : IngestionTask :=
  {| it_ID := it_ID t; it_UserID := it_UserID t; it_DocumentID := it_DocumentID t;
     it_DatasetID := it_DatasetID t; it_Status := status |}.

(* internal/service/ingestion_task_service.go:22-43 InvalidTaskTransitionError(part) *)
Inductive task_error :=
  | InvalidTaskTransitionError (taskID from to : string)
  | TaskStatusConflictError (taskID expectedFrom attemptedTo actualCurrent : string)
  | ErrTaskNotFound
  | DBErr
  | Msg (text : string)
  | RollbackFailed (taskID : string) (err rollbackErr : task_error)
  | Join (errs : list task_error).

(** The shared state: the table (its unique index is on the document), the
    cancel flags in Redis, the messages published and acknowledged, and the
    tasks each ingestor has claimed. *)
Record world := {
  w_tasks : gmap string IngestionTask;
  w_flags : gset string;
  w_queue : list string;
  w_acked : list string;
  w_claims : gset (string * string);
}.

Definition set_tasks (w : world) t : world :=
  {| w_tasks := t; w_flags := w_flags w; w_queue := w_queue w; w_acked := w_acked w;
     w_claims := w_claims w |}.
Definition set_flags (w : world) f : world :=
  {| w_tasks := w_tasks w; w_flags := f; w_queue := w_queue w; w_acked := w_acked w;
     w_claims := w_claims w |}.
Definition set_queue (w : world) q a : world :=
  {| w_tasks := w_tasks w; w_flags := w_flags w; w_queue := q; w_acked := a;
     w_claims := w_claims w |}.
Definition set_claims (w : world) c : world :=
  {| w_tasks := w_tasks w; w_flags := w_flags w; w_queue := w_queue w; w_acked := w_acked w;
     w_claims := c |}.

(** How the document pipeline ends; it is not modelled. *)
Inductive pipeline_result := PipelineOk | PipelineCanceled | PipelineDeadline | PipelineError | PipelinePanic.

(** ** Queries and programs *)

Inductive query : Type → Type :=
  | QGet (id : string) : query (option IngestionTask)
  | QGetByDoc (doc : string) : query (option IngestionTask)
  | QCas (id from to : string) : query bool
  | QInsert (t : IngestionTask) : query bool
  | QDeleteIf (id : string) (statuses : list string) : query bool
  | QDeleteDocs (docs keep : list string) : query nat  (* all rows of the documents but those in a status of [keep] *)
  | QListByStatus (status : string) : query (list IngestionTask)
  | QUpdate : query unit  (* writes to other tables *)
  | QPublish (id : string) : query unit
  | QSetFlag (id : string) : query unit
  | QClearFlag (id : string) : query unit
  | QFlag (id : string) : query bool
  | QClaim (me id : string) : query bool
  | QRelease (me id : string) : query unit
  | QPipeline (me id : string) : query pipeline_result
  | QAck (id : string) : query unit
  | QNack (id : string) : query unit
  | QChoice : query bool. (* whether a context is done; a lookup elsewhere *)

Inductive prog (A : Type) : Type :=
  | Done (a : A)
  | Ask {R : Type} (q : query R) (k : task_error + R → prog A).
Arguments Done {_} _.
Arguments Ask {_ _} _ _.

Fixpoint prog_bind {A B} (p : prog A) (f : A → prog B) : prog B :=
  match p with
  | Done a => f a
  | Ask q k => Ask q (λ r, prog_bind (k r) f)
  end.
#[export] Instance prog_ret : MRet prog := λ A a, Done a.
#[export] Instance prog_mbind : MBind prog := λ A B f p, prog_bind p f.

Definition ask {R} (q : query R) : prog (task_error + R) := Ask q Done.

(** Go's [if err != nil { return ..., err }]. *)
Definition try {A B} (p : prog (task_error + A)) (f : A → prog (task_error + B)) : prog (task_error + B) :=
  r ← p; match r with inl err => Done (inl err) | inr a => f a end.
Notation "x <-? p ; q" := (try p (λ x, q))
  (at level 20, p at level 100, q at level 200, right associativity).

(** The effect of a query, with the choice of the environment where there is one. *)
Definition by_document (doc : string) (tasks : gmap string IngestionTask) : option IngestionTask :=
  snd <$> head (filter (λ kt, it_DocumentID kt.2 = doc) (map_to_list tasks)).

Definition exec {R} (q : query R) (w : world) (choice : nat) : R * world :=
  match q in query R return R * world with
  | QGet id => (w_tasks w !! id, w)
  | QGetByDoc doc => (by_document doc (w_tasks w), w)
  | QCas id from to =>
      match w_tasks w !! id with
      | Some t => if decide (it_Status t = from)
                  then (true, set_tasks w (<[id := with_status t to]> (w_tasks w))) else (false, w)
      | None => (false, w)
      end
  | QInsert t =>
      match w_tasks w !! it_ID t, by_document (it_DocumentID t) (w_tasks w) with
      | None, None => (true, set_tasks w (<[it_ID t := t]> (w_tasks w)))
      | _, _ => (false, w)
      end
  | QDeleteIf id statuses =>
      match w_tasks w !! id with
      | Some t => if decide (it_Status t ∈ statuses)
                  then (true, set_tasks w (delete id (w_tasks w))) else (false, w)
      | None => (false, w)
      end
  | QDeleteDocs docs keep =>
      let gone (kt : string * IngestionTask) := it_DocumentID kt.2 ∈ docs ∧ it_Status kt.2 ∉ keep in
      (size (filter gone (w_tasks w)), set_tasks w (filter (λ kt, ¬ gone kt) (w_tasks w)))
  | QListByStatus status => (filter (λ t, it_Status t = status) (map_to_list (w_tasks w)).*2, w)
  | QUpdate => ((), w)
  | QPublish id => ((), set_queue w (w_queue w ++ [id]) (w_acked w))
  | QSetFlag id => ((), set_flags w ({[id]} ∪ w_flags w))
  | QClearFlag id => ((), set_flags w (w_flags w ∖ {[id]}))
  | QFlag id => (bool_decide (id ∈ w_flags w), w)
  | QClaim me id => if decide ((me, id) ∈ w_claims w) then (false, w)
                    else (true, set_claims w ({[(me, id)]} ∪ w_claims w))
  | QRelease me id => ((), set_claims w (w_claims w ∖ {[(me, id)]}))
  | QPipeline _ _ => (match choice with 0 => PipelineOk | 1 => PipelineCanceled | 2 => PipelineDeadline
                      | 3 => PipelineError | _ => PipelinePanic end, w)
  | QAck id => ((), set_queue w (w_queue w) (id :: w_acked w))
  | QNack id => ((), set_queue w (w_queue w ++ [id]) (w_acked w))
  | QChoice => (bool_decide (choice ≠ 0), w)
  end.

Definition may_fail {R} (q : query R) : bool :=
  match q with QClaim _ _ | QRelease _ _ | QPipeline _ _ => false | _ => true end.

(** ** The table (dao/ingestion.go) *)

(* internal/dao/ingestion.go:36-60 IngestionTaskDAO.Create *)
Definition Create (task : IngestionTask) : prog (task_error + IngestionTask) :=
  existing <-? ask (QGetByDoc (it_DocumentID task));
  match existing with
  | Some _ => Done (inl (Msg "document id already exists"))
  | None =>
      inserted <-? ask (QInsert task);
      if inserted : bool then Done (inr task)
      else existing <-? ask (QGetByDoc (it_DocumentID task));
           match existing with
           | Some _ => Done (inl (Msg "document id already exists"))
           | None => Done (inl DBErr)
           end
  end.

Definition removable : list string := [CREATED; SCHEDULED; STOPPED; COMPLETED; FAILED].

(* internal/dao/ingestion.go:83-148 IngestionTaskDAO.Delete *)
Definition DAO_Delete (taskID : string) (userID : option string) : prog (task_error + unit) :=
  task <-? ask (QGet taskID);
  match task with
  | None => Done (inl (Msg "task not found"))
  | Some t =>
      if match userID with Some u => bool_decide (it_UserID t ≠ u) | None => false end
      then Done (inl (Msg "task does not belong to the user"))
      else if decide (it_Status t ∈ removable) then
        deleted <-? ask (QDeleteIf taskID removable);
        Done (if deleted : bool then inr () else inl (Msg "status changed, cannot be removed"))
      else Done (inl (Msg "task is executing, cannot be removed"))
  end.

(* internal/dao/ingestion.go:250-258 IngestionTaskDAO.DeleteIfTerminal *)
Definition DeleteIfTerminal (documentID : string) : prog (task_error + nat) :=
  ask (QDeleteDocs [documentID] [RUNNING; STOPPING]).

(* internal/dao/task.go:66-72 TaskDAO.DeleteIngestionTasksByDocIDs *)
Definition DeleteIngestionTasksByDocIDs (docIDs : list string) : prog (task_error + nat) :=
  if decide (docIDs = []) then Done (inr 0) else ask (QDeleteDocs docIDs []).

(** ** The service *)

(* internal/service/ingestion_task_service.go:315-324 IngestionTaskService.GetTask *)
Definition GetTask (taskID : string) : prog (task_error + IngestionTask) :=
  r <-? ask (QGet taskID); Done (match r with Some t => inr t | None => inl ErrTaskNotFound end).

(** [None] is a valid transition. *)
(* internal/service/ingestion_task_service.go:326-350 validateTransition *)
Definition validateTransition (from to : string) : option (string * string) :=
  let valid :=
    if decide (from = CREATED) then bool_decide (to ∈ [SCHEDULED; RUNNING; STOPPED])
    else if decide (from = SCHEDULED) then bool_decide (to ∈ [RUNNING; STOPPED])
    else if decide (from = RUNNING) then bool_decide (to ∈ [STOPPING; COMPLETED; FAILED])
    else if decide (from = STOPPING) then bool_decide (to = STOPPED)
    else if decide (from ∈ [FAILED; STOPPED]) then bool_decide (to = CREATED)
    else false in
  if valid then None else Some (from, to).

(* internal/service/ingestion_task_service.go:352-363 IngestionTaskService.newTaskStatusConflictError *)
Definition newTaskStatusConflictError (taskID expectedFrom attemptedTo : string) : prog task_error :=
  current ← GetTask taskID;
  Done match current with
       | inl err => err
       | inr t => TaskStatusConflictError taskID expectedFrom attemptedTo (it_Status t)
       end.

(* internal/service/ingestion_task_service.go:365-386 IngestionTaskService.transition *)
Definition transition (taskID to : string) : prog (task_error + IngestionTask) :=
  task <-? GetTask taskID;
  match validateTransition (it_Status task) to with
  | Some (f, t) => Done (inl (InvalidTaskTransitionError taskID f t))
  | None =>
      updated <-? ask (QCas taskID (it_Status task) to);
      if updated : bool then Done (inr (with_status task to))
      else err ← newTaskStatusConflictError taskID (it_Status task) to; Done (inl err)
  end.

Definition clearCancelFlag (taskID : string) : prog unit := _ ← ask (QClearFlag taskID); Done ().

(* internal/service/ingestion_task_service.go:201-245 IngestionTaskService.StartRunning *)
Definition StartRunning (taskID : string) : prog (task_error + IngestionTask) :=
  task <-? GetTask taskID;
  if decide (it_Status task ∈ [CREATED; SCHEDULED]) then
    task <-? transition taskID RUNNING;
    _ ← ask QUpdate; Done (inr task)
  else if decide (it_Status task = STOPPING) then
    task <-? transition taskID STOPPED;
    _ ← clearCancelFlag taskID; Done (inr task)
  else if decide (it_Status task ∈ [RUNNING; COMPLETED; STOPPED; FAILED]) then Done (inr task)
  else Done (inl (Msg "unsupported status")).

(* internal/service/ingestion_task_service.go:247-270 IngestionTaskService.RequestStop *)
Definition RequestStop (taskID : string) : prog (task_error + IngestionTask) :=
  task <-? GetTask taskID;
  if decide (it_Status task ∈ [CREATED; SCHEDULED]) then transition taskID STOPPED
  else if decide (it_Status task = RUNNING) then
    task <-? transition taskID STOPPING;
    _ ← ask (QSetFlag taskID); Done (inr task)
  else Done (inr task).

Definition terminal (status : string) : Prop := status ∈ [COMPLETED; STOPPED; FAILED].
#[export] Instance terminal_dec s : Decision (terminal s).
Proof. unfold terminal. apply _. Defined.

(** [MarkCompleted], [MarkFailed] and [MarkStopped]: the same but for the target. *)
Definition mark (taskID to : string) : prog (task_error + unit) :=
  task <-? GetTask taskID;
  if decide (terminal (it_Status task)) then Done (inr ())
  else _ <-? transition taskID to; Done (inr ()).
(* internal/service/ingestion_task_service.go:272-282 IngestionTaskService.MarkCompleted *)
Definition MarkCompleted (taskID : string) := mark taskID COMPLETED.
(* internal/service/ingestion_task_service.go:284-294 IngestionTaskService.MarkFailed *)
Definition MarkFailed (taskID : string) := mark taskID FAILED.
(* internal/service/ingestion_task_service.go:299-309 IngestionTaskService.MarkStopped *)
Definition MarkStopped (taskID : string) := mark taskID STOPPED.

(* internal/service/ingestion_task_service.go:311-313 IngestionTaskService.Remove *)
Definition Remove (taskID : string) (userID : option string) := DAO_Delete taskID userID.

Definition enqueueTask (taskID : string) : prog (task_error + unit) := ask (QPublish taskID).

(* internal/service/ingestion_task_service.go:436-445 IngestionTaskService.rollbackRetriedTask *)
Definition rollbackRetriedTask (taskID status : string) : prog (task_error + unit) :=
  updated <-? ask (QCas taskID CREATED status);
  if updated : bool then Done (inr ())
  else err ← newTaskStatusConflictError taskID CREATED status; Done (inl err).

(* internal/service/ingestion_task_service.go:447-450 IngestionTaskService.rollbackCreatedTask *)
Definition rollbackCreatedTask (taskID : string) : prog (task_error + unit) := DAO_Delete taskID None.

(* internal/service/ingestion_task_service.go:455-474 IngestionTaskService.markScheduledAfterPublish *)
Definition markScheduledAfterPublish (taskID : string) : prog (task_error + IngestionTask) :=
  updated <-? ask (QCas taskID CREATED SCHEDULED);
  if updated : bool then GetTask taskID else
  task <-? GetTask taskID;
  if decide (it_Status task ∈ [SCHEDULED; RUNNING; STOPPING; COMPLETED; FAILED; STOPPED])
  then Done (inr task)
  else err ← newTaskStatusConflictError taskID CREATED SCHEDULED; Done (inl err).

(** Publish; when that fails, undo and report both errors if undoing fails too. *)
Definition enqueue_or_undo (taskID : string) (undo : prog (task_error + unit))
    : prog (task_error + IngestionTask) :=
  published ← enqueueTask taskID;
  match published with
  | inl err =>
      undone ← undo;
      Done (inl match undone with inl rollbackErr => RollbackFailed taskID err rollbackErr | inr _ => err end)
  | inr _ => markScheduledAfterPublish taskID
  end.

(* internal/service/ingestion_task_service.go:388-434 IngestionTaskService.CreateAndEnqueue *)
Definition CreateAndEnqueue (task : IngestionTask) : prog (task_error + IngestionTask) :=
  existing <-? ask (QGetByDoc (it_DocumentID task));
  match existing with
  | Some existing =>
      if decide (it_Status existing = CREATED) then
        _ <-? enqueueTask (it_ID existing);
        markScheduledAfterPublish (it_ID existing)
      else if decide (it_Status existing ∈ [FAILED; STOPPED]) then
        existing' <-? transition (it_ID existing) CREATED;
        _ ← clearCancelFlag (it_ID existing');
        enqueue_or_undo (it_ID existing') (rollbackRetriedTask (it_ID existing') (it_Status existing))
      else Done (inl (Msg "document id already exists"))
  | None =>
      created <-? Create (with_status task CREATED);
      enqueue_or_undo (it_ID created) (rollbackCreatedTask (it_ID created))
  end.

Fixpoint schedule_all (tasks : list IngestionTask) (errs : list task_error) : prog (list task_error) :=
  match tasks with
  | [] => Done errs
  | t :: tasks =>
      r ← (_ <-? enqueueTask (it_ID t); markScheduledAfterPublish (it_ID t));
      schedule_all tasks (match r with inl err => errs ++ [err] | inr _ => errs end)
  end.

(* internal/service/ingestion_task_service.go:480-496 IngestionTaskService.ScheduleCreatedTasks *)
Definition ScheduleCreatedTasks : prog (task_error + unit) :=
  tasks <-? ask (QListByStatus CREATED);
  errs ← schedule_all tasks [];
  Done (match errs with [] => inr () | _ => inl (Join errs) end).

(** ** Documents (service/document)

    What the requests on documents do with the tasks; rows of other tables, the
    storage and the chunk store are [QChoice] (a lookup) and [QUpdate].  The lock
    of a document inside one process is left out: it only forbids interleavings. *)

(* internal/service/document/document_parse.go:95-109 DocumentService.AssertIngestionTasksTerminal *)
Fixpoint AssertIngestionTasksTerminal (docIDs : list string) : prog (task_error + unit) :=
  match docIDs with
  | [] => Done (inr ())
  | docID :: docIDs =>
      task <-? ask (QGetByDoc docID);
      if match task with Some t => bool_decide (it_Status t ∈ [RUNNING; STOPPING]) | None => false end
      then Done (inl (Msg "stop it and wait for a terminal state before re-parsing"))
      else AssertIngestionTasksTerminal docIDs
  end.

(* internal/service/document/document_parse.go:111-165 DocumentService.clearDocumentParseResults *)
Definition clearDocumentParseResults (docID : string) : prog (task_error + unit) :=
  task <-? ask (QGetByDoc docID);
  if match task with Some t => bool_decide (it_Status t ∈ [RUNNING; STOPPING]) | None => false end
  then Done (inl (Msg "stop it and wait for a terminal state before re-parsing")) else
  deleted <-? DeleteIfTerminal docID;
  if match task with Some _ => bool_decide (deleted = 0) | None => false end
  then Done (inl (Msg "ingestion task started running; stop it before re-parsing")) else
  _ <-? ask QUpdate;
  exists_ <-? ask QChoice;
  if exists_ : bool then ask QUpdate else Done (inr ()).

(** The task it creates is that of [CreateForDocuments] for one document. *)
(* internal/service/document/document_parse.go:62-89 DocumentService.StartParseDocuments *)
Definition StartParseDocuments (task : IngestionTask) (rerunWithDelete : bool) : prog (task_error + unit) :=
  _ <-? ask QChoice;
  _ <-? (if rerunWithDelete then clearDocumentParseResults (it_DocumentID task) else Done (inr ()));
  found <-? ask QChoice;
  if found : bool then _ <-? CreateAndEnqueue task; Done (inr ()) else Done (inl (Msg "no such document")).

Definition TaskStatusRunning : string := "1".
Definition TaskStatusCancel : string := "2".

(* internal/service/document/document_parse.go:398-423 DocumentService.CancelDocParse *)
Definition CancelDocParse (docID docRun : string) : prog (task_error + unit) :=
  task <-? ask (QGetByDoc docID);
  let inFlight := match task with Some t => bool_decide (it_Status t ∈ [CREATED; SCHEDULED; RUNNING; STOPPING]) | None => false end in
  if bool_decide (docRun ≠ TaskStatusRunning ∧ docRun ≠ TaskStatusCancel) && negb inFlight
  then Done (inl (Msg "parse task is not in running status")) else
  _ <-? match task with Some t => _ <-? RequestStop (it_ID t); Done (inr ()) | None => Done (inr ()) end;
  ask QUpdate.

(** The turn of one document, by the status asked for. *)
(* internal/service/document/document_ingest.go:82-156 DocumentService.Ingest(part) *)
Definition ingest_document (run : string) (del : bool) (task : IngestionTask) (docRun : string) : prog (task_error + unit) :=
  let docID := it_DocumentID task in
  if decide (run = TaskStatusRunning) then StartParseDocuments task del
  else if decide (run = TaskStatusCancel) then _ <-? CancelDocParse docID docRun; ask QUpdate
  else
    _ <-? ask QUpdate;
    if del then
      deleted ← DeleteIngestionTasksByDocIDs [docID];
      canceled ← match deleted with inl _ => ask QChoice | inr _ => Done (inr false) end;
      match canceled with
      | inr false => exists_ <-? ask QChoice; if exists_ : bool then ask QUpdate else Done (inr ())
      | _ => Done (inl (Msg "delete ingestion tasks"))
      end
    else Done (inr ()).
Fixpoint ingest_documents (run : string) (del : bool) (docs : list (IngestionTask * string)) : prog (task_error + unit) :=
  match docs with
  | [] => Done (inr ())
  | (task, docRun) :: docs => _ <-? ingest_document run del task docRun; ingest_documents run del docs
  end.
(** The documents are given as the tasks they may get, with their run status. *)
(* internal/service/document/document_ingest.go:35-161 DocumentService.Ingest *)
Definition Ingest (docs : list (IngestionTask * string)) (run : string) (del : bool) : prog (task_error + unit) :=
  valid <-? ask QChoice;
  if negb valid then Done (inl (Msg "document not found")) else
  _ <-? (if bool_decide (run = TaskStatusRunning) && del
         then AssertIngestionTasksTerminal (map (λ d, it_DocumentID d.1) docs) else Done (inr ()));
  ingest_documents run del docs.

(* internal/service/document/document_crud.go:287-319 DocumentService.deleteDocumentFull *)
Definition deleteDocumentFull (docID : string) : prog (task_error + unit) :=
  _ <-? ask QChoice;
  task <-? ask (QGetByDoc docID);
  _ <-? match task with Some t => Remove (it_ID t) (Some (it_UserID t)) | None => Done (inr ()) end;
  _ ← ask QUpdate;
  _ <-? ask QUpdate;
  ask QUpdate.

(** ** The ingestion worker (ingestion/service/ingestion_service.go)

    What an ingestor does with one message of an ingestion task: activation,
    claim, the pipeline, and the settlement of the message.  Progress markers,
    run counters and pipeline logs go to other tables ([QUpdate]).  The
    heartbeat only renews the lease of the message and is left out. *)

(** [redis2.Get()] is nil, or the flag is deleted: [QClearFlag] may fail. *)
(* internal/ingestion/service/ingestion_service.go:719-737 Ingestor.markStopped *)
Definition markStopped (taskID : string) : prog bool :=
  r ← RequestStop taskID;
  match r with
  | inl _ => Done false
  | inr _ =>
      r ← MarkStopped taskID;
      match r with
      | inl _ => Done false
      | inr _ => _ ← ask (QClearFlag taskID); Done true
      end
  end.

(* internal/ingestion/service/ingestion_service.go:744-752 Ingestor.markFailed *)
Definition markFailed (taskID : string) : prog bool :=
  r ← MarkFailed taskID; Done (match r with inl _ => false | inr _ => true end).

(* internal/ingestion/service/ingestion_service.go:891-895 isTerminalTransitionError *)
Definition isTerminalTransitionError (err : task_error) : bool :=
  match err with
  | InvalidTaskTransitionError _ _ _ | TaskStatusConflictError _ _ _ _ => true
  | _ => false
  end.

(* internal/ingestion/service/ingestion_service.go:903-919 Ingestor.settleToTerminal *)
Definition settleToTerminal (taskID : string) : prog (task_error + unit) :=
  task <-? GetTask taskID;
  if decide (it_Status task = STOPPING) then
    stopped ← markStopped taskID;
    Done (if stopped : bool then inr () else inl (Msg "settle to STOPPED failed"))
  else if decide (terminal (it_Status task)) then Done (inr ())
  else Done (inl (Msg "unexpected status after transition failure")).

(* internal/ingestion/service/ingestion_service.go:877-885 Ingestor.completeOrSettle *)
Definition completeOrSettle (taskID : string) : prog (task_error + unit) :=
  r ← MarkCompleted taskID;
  match r with
  | inl err => if isTerminalTransitionError err then settleToTerminal taskID else Done (inl err)
  | inr _ => Done (inr ())
  end.

(** [backoff.Retry] calls its operation until it succeeds, at most [tries] times,
    and gives up earlier when the context is done. *)
Fixpoint retry_settle (tries : nat) (taskID : string) : prog (task_error + unit) :=
  match tries with
  | O => Done (inl (Msg "no attempt"))
  | S tries' =>
      r ← completeOrSettle taskID;
      match r with
      | inr _ => Done (inr ())
      | inl err =>
          if decide (tries' = 0) then Done (inl err) else
          stop ← ask QChoice;
          match stop with inr false => retry_settle tries' taskID | _ => Done (inl err) end
      end
  end.
(* internal/ingestion/service/ingestion_service.go:866-871 Ingestor.completeTask *)
Definition completeTask (taskID : string) : prog (task_error + unit) := retry_settle 3 taskID.

(** [if ok { recordTerminalPipelineLog(...) }; return ok]. *)
Definition logged (p : prog bool) : prog (option bool) :=
  ok ← p; if ok : bool then _ ← ask QUpdate; Done (Some true) else Done (Some false).
Definition cancelled_run (taskID : string) : prog (option bool) :=
  _ ← ask QUpdate; logged (markStopped taskID).

(** [None] is a panic of the pipeline.  The context is looked at once; the run
    counter is raised; a checkpoint is looked for; old progress is cleared. *)
(* internal/ingestion/service/ingestion_service.go:757-858 Ingestor.runTask *)
Definition runTask (me taskID : string) : prog (option bool) :=
  cancelled ← ask QChoice;
  match cancelled with
  | inr true => cancelled_run taskID
  | _ =>
      counted ← ask QUpdate;
      match counted with
      | inl _ => logged (markFailed taskID)
      | inr _ =>
          checkpoint ← ask QChoice;
          match checkpoint with
          | inl _ => logged (markFailed taskID)
          | inr resume =>
              cleared ← (if resume : bool then Done (inr ()) else ask QUpdate);
              match cleared with
              | inl _ => logged (markFailed taskID)
              | inr _ =>
                  _ ← ask (QClearFlag taskID);
                  result ← ask (QPipeline me taskID);
                  match result with
                  | inr PipelinePanic => Done None
                  | inr PipelineCanceled => cancelled_run taskID
                  | inr PipelineDeadline => _ ← ask QUpdate; logged (markFailed taskID)
                  | inl _ | inr PipelineError => logged (markFailed taskID)
                  | inr PipelineOk =>
                      r ← completeTask taskID;
                      Done (Some match r with inl _ => false | inr _ => true end)
                  end
              end
          end
      end
  end.

(* internal/ingestion/service/ingestion_service.go:958-967 Ingestor.safeGetTerminal *)
Definition safeGetTerminal (taskID : string) : prog (option bool) :=
  r ← GetTask taskID;
  Done match r with inl _ => None | inr t => Some (bool_decide (terminal (it_Status t))) end.

(* internal/ingestion/service/ingestion_service.go:972-985 Ingestor.ackOrNack *)
Definition ackOrNack (taskID : string) (is_terminal : bool) : prog unit :=
  _ ← ask (if is_terminal then QAck taskID else QNack taskID); Done ().

(* internal/ingestion/service/ingestion_service.go:928-952 Ingestor.settleMessage *)
Definition settleMessage (taskID : string) (body : prog (option bool)) : prog bool :=
  r ← body;
  t ← (match r with
       | None => _ ← markFailed taskID; Done false
       | Some b => Done b
       end);
  db ← safeGetTerminal taskID;
  let t := default t db in
  _ ← ackOrNack taskID t; Done t.

(** The poll of the cancel flag only makes the context of [runTask] done. *)
(* internal/ingestion/service/ingestion_service.go:674-709 Ingestor.executeTask *)
Definition executeTask (me taskID : string) : prog unit :=
  _ ← ask (QFlag taskID);
  _ ← settleMessage taskID (runTask me taskID);
  _ ← ask (QRelease me taskID); Done ().

(** The branch of ingestion tasks.  The task is handed to a worker through a
    channel, unless the ingestor shuts down first. *)
(* internal/ingestion/service/ingestion_service.go:437-526 Ingestor.processMessage(part) *)
Definition processMessage (me taskID : string) : prog unit :=
  r ← StartRunning taskID;
  match r with
  | inl ErrTaskNotFound => _ ← ask (QAck taskID); Done ()
  | inl _ => _ ← ask (QNack taskID); Done ()
  | inr task =>
      if decide (terminal (it_Status task)) then _ ← ask (QAck taskID); Done ()
      else if decide (it_Status task = RUNNING) then
        claimed ← ask (QClaim me (it_ID task));
        match claimed with
        | inr true =>
            shutdown ← ask QChoice;
            match shutdown with
            | inr true => _ ← markStopped (it_ID task); _ ← ask (QRelease me (it_ID task)); Done ()
            | _ => executeTask me (it_ID task)
            end
        | _ => Done ()
        end
      else _ ← ask (QAck taskID); Done ()
  end.
