(* ===== verification/IngestionSystem.v ===== *)
(** * Interleavings of ingestion operations

    Any number of service operations and workers run concurrently.  [sstep] is
    one query of one of them, or the start of a new one.  The ghost part of a
    thread is the list of the states the world has been in since it started and
    the claims it holds.  [ok] is a specification of programs that does not
    depend on the other threads, [permits] says which operations may delete tasks in
    every status; [sys_ok] is the invariant it gives. *)

From S2P Require Import Prelude IngestionTask.

(** ** The system *)

(** The calls of the API, of the startup recovery and of the message consumers. *)
Definition discard {A} (p : prog A) : prog unit := _ ← p; Done ().
Inductive opcode :=
  | OpCreate (t : IngestionTask)
  | OpSchedule
  | OpStop (id : string)
  | OpRemove (id : string) (user : option string)
  | OpMessage (me id : string)
  | OpIngest (docs : list (IngestionTask * string)) (run : string) (del : bool)
  | OpDeleteDocument (doc : string).
Definition op_prog (o : opcode) : prog unit :=
  match o with
  | OpCreate t => discard (CreateAndEnqueue t)
  | OpSchedule => discard ScheduleCreatedTasks
  | OpStop id => discard (RequestStop id)
  | OpRemove id user => discard (Remove id user)
  | OpMessage me id => processMessage me id
  | OpIngest docs run del => discard (Ingest docs run del)
  | OpDeleteDocument doc => discard (deleteDocumentFull doc)
  end.

Record thread := {
  th_op : opcode;
  th_prog : prog unit;
  th_hist : list world;
  th_held : gset (string * string);
}.

(** The claims of a thread after a query. *)
Definition held_after {R} (q : query R) (r : task_error + R) (held : gset (string * string))
    : gset (string * string) :=
  match q in query R return task_error + R → gset (string * string) with
  | QClaim me id => λ r, match r with inr true => {[(me, id)]} ∪ held | _ => held end
  | QRelease me id => λ _, held ∖ {[(me, id)]}
  | _ => λ _, held
  end r.

Definition observe (w : world) (th : thread) : thread :=
  {| th_op := th_op th; th_prog := th_prog th; th_hist := w :: th_hist th; th_held := th_held th |}.

Definition resume (th : thread) (p : prog unit) (held : gset (string * string)) : thread :=
  {| th_op := th_op th; th_prog := p; th_hist := th_hist th; th_held := held |}.

Inductive sstep : world * list thread → world * list thread → Prop :=
  | sstep_ask w w' ts i th R (q : query R) k c r :
      ts !! i = Some th → th_prog th = Ask q k → exec q w c = (r, w') →
      sstep (w, ts) (w', observe w' <$>
        <[i := resume th (k (inr r)) (held_after q (inr r) (th_held th))]> ts)
  | sstep_fail w ts i th R (q : query R) k :
      ts !! i = Some th → th_prog th = Ask q k → may_fail q = true →
      sstep (w, ts) (w, observe w <$> <[i := resume th (k (inl DBErr)) (th_held th)]> ts)
  | sstep_start w ts o :
      sstep (w, ts) (w, ts ++ [{| th_op := o; th_prog := op_prog o; th_hist := [w]; th_held := ∅ |}]).

(** A scheduler: one step, chosen by its argument. *)
Inductive act := Go (i choice : nat) | Fail_ (i : nat) | Start (o : opcode).
Definition sys_step (c : world * list thread) (a : act) : option (world * list thread) :=
  match a with
  | Go i choice =>
      th ← c.2 !! i;
      match th_prog th with
      | Done _ => None
      | Ask q k =>
          let r := exec q c.1 choice in
          Some (r.2, observe r.2 <$>
            <[i := resume th (k (inr r.1)) (held_after q (inr r.1) (th_held th))]> c.2)
      end
  | Fail_ i =>
      th ← c.2 !! i;
      match th_prog th with
      | Done _ => None
      | Ask q k => if may_fail q
                   then Some (c.1, observe c.1 <$> <[i := resume th (k (inl DBErr)) (th_held th)]> c.2) else None
      end
  | Start o => Some (c.1, c.2 ++ [{| th_op := o; th_prog := op_prog o; th_hist := [c.1]; th_held := ∅ |}])
  end.
Fixpoint sys_run (c : world * list thread) (acts : list act) : option (world * list thread) :=
  match acts with [] => Some c | a :: acts => c ← sys_step c a; sys_run c acts end.

Lemma sys_step_sstep c a c' : sys_step c a = Some c' → sstep c c'.
Proof.
  destruct c as [w ts]. destruct a as [i choice|i|o]; cbn; intros Hs.
  - apply bind_Some in Hs as (th & Hi & Hs). destruct (th_prog th) as [|R q k] eqn:Hp; [done|].
    simplify_eq. destruct (exec q w choice) as [r w'] eqn:He. by eapply sstep_ask.
  - apply bind_Some in Hs as (th & Hi & Hs). destruct (th_prog th) as [|R q k] eqn:Hp; [done|].
    destruct (may_fail q) eqn:Hm; simplify_eq. by eapply sstep_fail.
  - simplify_eq. constructor.
Qed.

Lemma sys_run_rtc acts c c' : sys_run c acts = Some c' → rtc sstep c c'.
Proof.
  revert c. induction acts as [|a acts IH]; intros c Hr; cbn in Hr; [by simplify_eq|].
  apply bind_Some in Hr as (c1 & H1 & H2). eapply rtc_l; [by eapply sys_step_sstep|by apply IH].
Qed.

Definition empty_world : world :=
  {| w_tasks := ∅; w_flags := ∅; w_queue := []; w_acked := []; w_claims := ∅ |}.

(** ** A specification of programs *)

(** The life cycle: the edges of a task, with the roll-back of a retry that could not
    be published (from CREATED back to FAILED or STOPPED). *)
Definition life_cycle : list (string * string) :=
  [(CREATED, SCHEDULED); (CREATED, RUNNING); (CREATED, STOPPED); (CREATED, FAILED);
   (SCHEDULED, RUNNING); (SCHEDULED, STOPPED); (RUNNING, STOPPING); (RUNNING, COMPLETED); (RUNNING, FAILED);
   (STOPPING, STOPPED); (FAILED, CREATED); (STOPPED, CREATED)].
Definition allowed (from to : string) : Prop := (from, to) ∈ life_cycle.

Lemma valid_allowed from to : validateTransition from to = None → allowed from to.
Proof.
  unfold validateTransition. intros Hv. repeat case_decide; subst; try discriminate Hv;
    match type of Hv with (if ?b then _ else _) = _ => destruct b eqn:E; [|discriminate] end;
    apply bool_decide_eq_true in E; unfold allowed, life_cycle; set_solver.
Qed.

Lemma rollback_allowed status : status ∈ [FAILED; STOPPED] → allowed CREATED status.
Proof. unfold allowed, life_cycle. set_solver. Qed.

(** A task that needs no worker any more: finished, or gone. *)
Definition settled (w : world) (id : string) : Prop :=
  match w_tasks w !! id with Some t => terminal (it_Status t) | None => True end.

(** [S id]: the task has been settled since the program started. *)
Implicit Type S : string → Prop.
Implicit Type H : gset (string * string).

Section specification.
(** The lists of documents whose tasks the program may delete in every status. *)
Variable D : list string → Prop.

Definition guard {R} S H (q : query R) : Prop :=
  match q with
  | QCas _ from to => allowed from to
  | QInsert t => it_Status t = CREATED
  | QDeleteIf _ statuses => RUNNING ∉ statuses ∧ STOPPING ∉ statuses
  | QDeleteDocs docs keep => (RUNNING ∈ keep ∧ STOPPING ∈ keep) ∨ D docs
  | QAck id => S id
  | QRelease me id | QPipeline me id => (me, id) ∈ H
  | _ => True
  end.

(** What the answer to a query tells. *)
Definition learns {R} (q : query R) (r : R) S : Prop :=
  match q in query R return R → Prop with
  | QGet id => λ r, match r with None => S id | Some t => terminal (it_Status t) → S id end
  | QCas id _ to => λ r, if r then terminal to → S id else True
  | _ => λ _, True
  end r.
Definition answer {R} (q : query R) (r : task_error + R) S : Prop :=
  match r with inl err => err = DBErr | inr a => learns q a S end.

Fixpoint ok {A} (Q : A → (string → Prop) → gset (string * string) → Prop) S H (p : prog A) : Prop :=
  match p with
  | Done a => Q a S H
  | Ask q k =>
      guard S H q ∧
      ∀ r S', (∀ id, S id → S' id) → answer q r S' → ok Q S' (held_after q r H) (k r)
  end.

Lemma ok_bind {A B} (p : prog A) (f : A → prog B) Q Q' S H :
  ok Q S H p →
  (∀ a S' H', (∀ id, S id → S' id) → Q a S' H' → ok Q' S' H' (f a)) → ok Q' S H (p ≫= f).
Proof.
  revert S H. induction p as [a|R q k IH]; intros S H Hp Hf; cbn in *.
  - by apply Hf.
  - destruct Hp as [Hg Hk]. split; [done|]. intros r S' HS Hl. apply (IH r); [by apply Hk|].
    intros a S'' H' HS' HQ. apply Hf; [|done]. auto.
Qed.

Lemma ok_mono {A} (p : prog A) (Q Q' : A → (string → Prop) → gset (string * string) → Prop) S H :
  (∀ a S H, Q a S H → Q' a S H) → ok Q S H p → ok Q' S H p.
Proof.
  intros HQ. revert S H. induction p as [a|R q k IH]; intros S H Hp; cbn in *; [by apply HQ|].
  destruct Hp as [Hg Hk]. split; [done|]. intros r S' HS Hl. apply IH. by apply Hk.
Qed.

Lemma ok_ask {R} (q : query R) S H :
  guard S H q → ok (λ r S' H', answer q r S' ∧ H' = held_after q r H) S H (ask q).
Proof. intros Hg. split; [done|]. intros r S' _ Hl. by split. Qed.

Lemma ok_try {A B} (p : prog (task_error + A)) (f : A → prog (task_error + B)) Q Q' S H :
  ok Q S H p →
  (∀ err S' H', (∀ id, S id → S' id) → Q (inl err) S' H' → Q' (inl err) S' H') →
  (∀ a S' H', (∀ id, S id → S' id) → Q (inr a) S' H' → ok Q' S' H' (f a)) →
  ok Q' S H (try p f).
Proof. intros Hp He Hf. unfold try. eapply ok_bind; [exact Hp|]. intros [err|a] S' H' HS HQ; cbn; auto. Qed.

(** The answer to a query that changes no claim. *)
Lemma ok_query {R} (q : query R) S H :
  guard S H q → (∀ r, held_after q r H = H) → ok (λ r S' H', answer q r S' ∧ H' = H) S H (ask q).
Proof. intros Hg Hh. eapply ok_mono; [|by apply ok_ask]. intros r S' H' [? ->]. by rewrite Hh. Qed.

(** ** The operations meet it *)

(** Common postconditions: no claim changes, and what the result says. *)
Definition lost (id : string) S (err : task_error) : Prop := err = ErrTaskNotFound → S id.
Definition gives {A} H (P : A → (string → Prop) → Prop) (id : string)
    : task_error + A → (string → Prop) → gset (string * string) → Prop :=
  λ r S' H', H' = H ∧ match r with inl err => lost id S' err | inr a => P a S' end.
Definition keeps {A} H : A → (string → Prop) → gset (string * string) → Prop := λ _ _ H', H' = H.

(** Queries without a result that matters. *)
Ltac ok_q := eapply ok_bind; [by apply ok_query|]; intros ? ? ? ? [_ ->].

Lemma ok_GetTask id S H :
  ok (gives H (λ t S', terminal (it_Status t) → S' id) id) S H (GetTask id).
Proof.
  eapply ok_try; [by apply (ok_query (QGet id))|..].
  - intros err S' H' _ [Hl ->]. split; [done|]. cbn in Hl. by intros ->.
  - intros [t|] S' H' _ [Hl ->]; cbn in *; split; try done. by intros _.
Qed.

Lemma ok_conflict id a b S H :
  ok (λ err S' H', lost id S' err ∧ H' = H) S H (newTaskStatusConflictError id a b).
Proof.
  eapply ok_bind; [apply ok_GetTask|]. intros [err|t] S' H' _ [-> Hl]; cbn; split; try done.
Qed.

(** [x <-? GetTask id], when errors are passed on. *)
Lemma ok_task {A} id (f : IngestionTask → prog (task_error + A)) P S H :
  (∀ t S', (∀ i, S i → S' i) → (terminal (it_Status t) → S' id) → ok (gives H P id) S' H (f t)) →
  ok (gives H P id) S H (try (GetTask id) f).
Proof.
  intros Hf. eapply ok_try; [apply ok_GetTask|..].
  - by intros err S' H' _ [-> ?].
  - intros t S' H' HS [-> ?]. by apply Hf.
Qed.

(** [x <-? ask q] for a query that changes no claim. *)
Lemma ok_answer {A R} (q : query R) id (f : R → prog (task_error + A)) P S H :
  guard S H q → (∀ r, held_after q r H = H) →
  (∀ r S', (∀ i, S i → S' i) → learns q r S' → ok (gives H P id) S' H (f r)) →
  ok (gives H P id) S H (try (ask q) f).
Proof.
  intros Hg Hh Hf. eapply ok_try; [by apply ok_query|..].
  - intros err S' H' _ [Hl ->]. split; [done|]. cbn in Hl. by intros ->.
  - intros r S' H' HS [Hl ->]. by apply Hf.
Qed.

Lemma ok_transition id to S H :
  ok (gives H (λ t S', it_Status t = to ∧ (terminal to → S' id)) id) S H (transition id to).
Proof.
  apply ok_task. intros t S' _ _. destruct (validateTransition _ _) as [[f t']|] eqn:Ev; [by split|].
  apply ok_answer; [by apply valid_allowed|done|]. intros [] S'' _ Hl; cbn in Hl; [by split|].
  eapply ok_bind; [apply ok_conflict|]. intros err S3 H3 _ [? ->]. by split.
Qed.

(** [x <-? transition id to], when errors are passed on. *)
Lemma ok_move {A} id to (f : IngestionTask → prog (task_error + A)) P S H :
  (∀ t S', (∀ i, S i → S' i) → it_Status t = to → (terminal to → S' id) → ok (gives H P id) S' H (f t)) →
  ok (gives H P id) S H (try (transition id to) f).
Proof.
  intros Hf. eapply ok_try; [apply ok_transition|..].
  - by intros err S' H' _ [-> ?].
  - intros t S' H' HS [-> [??]]. by apply Hf.
Qed.

Lemma gives_impl {A} H (P P' : A → (string → Prop) → Prop) id (p : prog (task_error + A)) S :
  (∀ a S', P a S' → P' a S') → ok (gives H P id) S H p → ok (gives H P' id) S H p.
Proof. intros HP. apply ok_mono. intros [err|a] S' H' [-> Hr]; split; auto. Qed.

(** The status [StartRunning] returns is running, or the task is settled. *)
Lemma ok_StartRunning id S H :
  ok (gives H (λ t S', it_Status t = RUNNING ∨ terminal (it_Status t) ∧ S' id) id) S H (StartRunning id).
Proof.
  apply ok_task. intros t S' _ Ht. case_decide; [|case_decide; [|case_decide as Hin; [|by split]]].
  - apply ok_move. intros t' S'' _ Hst _. ok_q. split; [done|]. by left.
  - apply ok_move. intros t' S'' _ Hst Hs. unfold clearCancelFlag. eapply ok_bind.
    + eapply ok_bind; [by apply ok_query|]. intros r S3 H3 HS [_ ->].
      instantiate (1 := λ _ S3 H3, H3 = H ∧ S3 id). split; [done|]. apply HS, Hs. unfold terminal. set_solver.
    + intros [] S3 H3 _ [-> ?]. split; [done|]. right. rewrite Hst. split; [unfold terminal; set_solver|done].
  - split; [done|]. apply elem_of_cons in Hin as [->|Hin]; [by left|]. right. split; [done|]. by apply Ht.
Qed.

Lemma ok_RequestStop id S H : ok (gives H (λ _ _, True) id) S H (RequestStop id).
Proof.
  apply ok_task. intros t S' _ _. case_decide; [|case_decide; [|by split]].
  - eapply gives_impl; [done|apply ok_transition].
  - apply ok_move. intros. ok_q. by split.
Qed.

Lemma ok_mark id to S H :
  terminal to → ok (gives H (λ _ S', S' id) id) S H (mark id to).
Proof.
  intros Hto. apply ok_task. intros t S' _ Ht. case_decide; [split; auto|].
  apply ok_move. intros t' S'' _ _ Hs. split; auto.
Qed.

Lemma ok_markStopped id S H : ok (λ r S' H', H' = H ∧ (r = true → S' id)) S H (markStopped id).
Proof.
  eapply ok_bind; [apply ok_RequestStop|]. intros [err|t] S' H' _ [-> _]; [by split|].
  eapply ok_bind; [apply ok_mark; unfold terminal; set_solver|].
  intros [err|[]] S'' H'' _ [-> Hs]; [by split|].
  eapply ok_bind; [by apply ok_query|]. intros r S3 H3 HS [_ ->]. split; [done|]. auto.
Qed.

Lemma ok_markFailed id S H : ok (λ r S' H', H' = H ∧ (r = true → S' id)) S H (markFailed id).
Proof.
  eapply ok_bind; [apply ok_mark; unfold terminal; set_solver|].
  intros [err|[]] S' H' _ [-> Hs]; split; (done || auto).
Qed.

Lemma ok_settleToTerminal id S H : ok (gives H (λ _ S', S' id) id) S H (settleToTerminal id).
Proof.
  apply ok_task. intros t S' _ Ht. case_decide; [|case_decide; split; (done || auto)].
  eapply ok_bind; [apply ok_markStopped|]. intros [] S'' H' _ [-> ?]; split; (done || auto).
Qed.

Lemma ok_completeOrSettle id S H : ok (gives H (λ _ S', S' id) id) S H (completeOrSettle id).
Proof.
  eapply ok_bind; [apply ok_mark; unfold terminal; set_solver|].
  intros [err|[]] S' H' _ [-> ?]; [|by split].
  destruct (isTerminalTransitionError err); [apply ok_settleToTerminal|by split].
Qed.

Lemma ok_retry_settle tries id S H : ok (gives H (λ _ S', S' id) id) S H (retry_settle tries id).
Proof.
  revert S. induction tries as [|tries IH]; intros S; cbn [retry_settle]; [split; by intros|].
  eapply ok_bind; [apply ok_completeOrSettle|]. intros [err|[]] S' H' _ [-> ?]; [|by split].
  case_decide; [by split|]. eapply ok_bind; [by apply ok_query|].
  intros [e|[]] S'' H'' HS [_ ->]; [split; [done|]; by intros ?%H0%HS..|]. apply IH.
Qed.

(** A run reports success only for a settled task. *)
Definition reports (id : string) H : option bool → (string → Prop) → gset (string * string) → Prop :=
  λ r S' H', H' = H ∧ (r = Some true → S' id).

Lemma ok_logged (id : string) p S H :
  ok (λ r S' H', H' = H ∧ (r = true → S' id)) S H p → ok (reports id H) S H (logged p).
Proof.
  intros Hp. eapply ok_bind; [exact Hp|]. intros [] S' H' _ [-> Hs]; [|by split].
  ok_q. split; auto.
Qed.

Lemma ok_cancelled id S H : ok (reports id H) S H (cancelled_run id).
Proof. unfold cancelled_run. ok_q. apply ok_logged, ok_markStopped. Qed.

Lemma ok_failed id S H : ok (reports id H) S H (logged (markFailed id)).
Proof. apply ok_logged, ok_markFailed. Qed.

Lemma ok_runTask me id S H : (me, id) ∈ H → ok (reports id H) S H (runTask me id).
Proof.
  intros Hin. unfold runTask. eapply ok_bind; [by apply ok_query|].
  intros [e|[]] S1 H1 _ [_ ->]; [|apply ok_cancelled|]; (eapply ok_bind; [by apply ok_query|];
    intros [e1|[]] S2 H2 _ [_ ->]; [apply ok_failed|]; eapply ok_bind; [by apply ok_query|];
    intros [e2|resume] S3 H3 _ [_ ->]; [apply ok_failed|];
    eapply (ok_bind _ _ (keeps H)); [destruct resume; [done|]; eapply ok_mono; [|by apply ok_query]; by intros ??? [_ ->]|];
    intros [e3|[]] S4 H4 _ ->; [apply ok_failed|]; ok_q;
    eapply ok_bind; [by apply ok_query|]; intros [e4|[]] S5 H5 _ [_ ->];
    [apply ok_failed| |apply ok_cancelled|ok_q; apply ok_failed|apply ok_failed|by split];
    eapply ok_bind; [apply ok_retry_settle|]; intros [e5|[]] S6 H6 _ [-> ?]; by split).
Qed.

Lemma ok_settleMessage id body S H :
  ok (reports id H) S H body → ok (keeps H) S H (settleMessage id body).
Proof.
  intros Hb. unfold settleMessage. eapply ok_bind; [exact Hb|]. intros r S1 H1 _ [-> Hr].
  eapply (ok_bind _ _ (λ b S' H', H' = H ∧ (b = true → S' id))).
  { destruct r as [b|]; [split; [done|]; by intros ->; apply Hr|].
    eapply ok_bind; [apply ok_markFailed|]. intros ? ? ? _ [-> _]. by split. }
  intros t S2 H2 HS2 [-> Ht]. unfold safeGetTerminal.
  eapply (ok_bind _ _ (λ db S' H', H' = H ∧ (default t db = true → S' id))).
  - eapply ok_bind; [apply ok_GetTask|]. intros [err|task] S3 H3 HS3 [-> Hl]; cbn; split; try done; auto.
    intros Hd%bool_decide_eq_true. auto.
  - intros db S3 H3 _ [-> Hd]. unfold ackOrNack. destruct (default t db).
    + eapply ok_bind; [eapply ok_bind; [apply ok_query; [by apply Hd|done]|]; intros ? ? ? _ [_ ->]|].
      * by instantiate (1 := keeps H).
      * by intros ? ? ? _ ->.
    + eapply ok_bind; [eapply ok_bind; [by apply ok_query|]; intros ? ? ? _ [_ ->]|].
      * by instantiate (1 := keeps H).
      * by intros ? ? ? _ ->.
Qed.

(** A worker ends without the claim it started with. *)
Definition releases (me id : string) H : unit → (string → Prop) → gset (string * string) → Prop :=
  λ _ _ H', H' = H ∖ {[(me, id)]}.

Lemma ok_release me id S H : (me, id) ∈ H → ok (releases me id H) S H (_ ← ask (QRelease me id); Done ()).
Proof. intros Hin. eapply ok_bind; [by apply ok_ask|]. by intros [e|[]] S' H' _ [_ ->]. Qed.

Lemma ok_executeTask me id S H : (me, id) ∈ H → ok (releases me id H) S H (executeTask me id).
Proof.
  intros Hin. unfold executeTask. ok_q. eapply ok_bind; [by apply ok_settleMessage, ok_runTask|].
  intros ? ? ? _ ->. by apply ok_release.
Qed.

(** An operation ends without claims. *)
Definition clean : unit → (string → Prop) → gset (string * string) → Prop := keeps ∅.

Lemma ok_processMessage me id S : ok clean S ∅ (processMessage me id).
Proof.
  unfold processMessage. eapply ok_bind; [apply ok_StartRunning|].
  intros [err|t] S1 H1 _ [-> Hr].
  - destruct err; try (by ok_q). eapply ok_bind; [apply ok_query; [by apply Hr|done]|].
    by intros ? ? ? _ [_ ->].
  - case_decide as Ht.
    { eapply ok_bind; [apply ok_query; [|done]|by intros ? ? ? _ [_ ->]].
      destruct Hr as [Hr|[_ ?]]; [|done]. rewrite Hr in Ht. unfold terminal in Ht. set_solver. }
    destruct Hr as [Hr|[? _]]; [|done]. rewrite decide_True by done.
    eapply ok_bind; [by apply ok_ask|]. intros [e|[]] S2 H2 _ [_ ->]; cbn [held_after]; [done| |done].
    eapply ok_bind; [by apply ok_query|].
    assert (Hin : (me, it_ID t) ∈ ({[(me, it_ID t)]} ∪ ∅ : gset (string * string))) by set_solver.
    assert (Hc : ({[(me, it_ID t)]} ∪ ∅) ∖ {[(me, it_ID t)]} = (∅ : gset (string * string))) by set_solver.
    intros [e|[]] S3 H3 _ [_ ->].
    + eapply ok_mono; [|by apply ok_executeTask]. intros ? ? ? ->. exact Hc.
    + eapply ok_bind; [apply ok_markStopped|]. intros ? ? ? _ [-> _].
      eapply ok_mono; [|by apply ok_release]. intros ? ? ? ->. exact Hc.
    + eapply ok_mono; [|by apply ok_executeTask]. intros ? ? ? ->. exact Hc.
Qed.

Lemma ok_Delete id user S H : ok (keeps H) S H (DAO_Delete id user).
Proof.
  eapply ok_try; [by apply (ok_query (QGet id))|by intros ? ? ? _ [_ ->]|].
  intros [t|] S' H' _ [_ ->]; [|done]. case_match; [done|]. case_decide; [|done].
  eapply ok_try; [apply (ok_query (QDeleteIf id removable)); [|done]|by intros ? ? ? _ [_ ->]|by intros ? ? ? _ [_ ->]].
  unfold removable, CREATED, SCHEDULED, STOPPED, COMPLETED, FAILED. cbn. set_solver.
Qed.

Lemma ok_Create t S H : it_Status t = CREATED → ok (keeps H) S H (Create t).
Proof.
  intros Ht. eapply ok_try; [by apply (ok_query (QGetByDoc _))|by intros ? ? ? _ [_ ->]|].
  intros [x|] S' H' _ [_ ->]; [done|].
  eapply ok_try; [by apply (ok_query (QInsert t))|by intros ? ? ? _ [_ ->]|].
  intros [] S'' H'' _ [_ ->]; [done|].
  eapply ok_try; [by apply (ok_query (QGetByDoc _))|by intros ? ? ? _ [_ ->]|].
  by intros [x|] ? ? _ [_ ->].
Qed.

Lemma ok_conflict_keeps {A} id a b S H :
  ok (keeps H) S H (err ← newTaskStatusConflictError id a b; Done (inl err : task_error + A)).
Proof. eapply ok_bind; [apply ok_conflict|]. by intros ? ? ? _ [_ ->]. Qed.

Lemma ok_markScheduled id S H : ok (keeps H) S H (markScheduledAfterPublish id).
Proof.
  eapply ok_try; [apply (ok_query (QCas id CREATED SCHEDULED)); [by apply valid_allowed|done]|by intros ? ? ? _ [_ ->]|].
  intros [] S' H' _ [_ ->].
  - eapply ok_mono; [|apply ok_GetTask]. by intros ? ? ? [-> _].
  - eapply ok_try; [apply ok_GetTask|by intros ? ? ? _ [-> _]|]. intros t S'' H'' _ [-> _].
    case_decide; [done|apply ok_conflict_keeps].
Qed.

Lemma ok_rollback id status S H :
  status ∈ [FAILED; STOPPED] → ok (keeps H) S H (rollbackRetriedTask id status).
Proof.
  intros Hs. eapply ok_try; [apply (ok_query (QCas id CREATED status)); [by apply rollback_allowed|done]|by intros ? ? ? _ [_ ->]|].
  intros [] S' H' _ [_ ->]; [done|apply ok_conflict_keeps].
Qed.

Lemma ok_enqueue_or_undo id undo S H :
  (∀ S', ok (keeps H) S' H undo) → ok (keeps H) S H (enqueue_or_undo id undo).
Proof.
  intros Hu. eapply ok_bind; [by apply (ok_query (QPublish id))|].
  intros [err|[]] S' H' _ [_ ->]; [|apply ok_markScheduled].
  eapply ok_bind; [apply Hu|]. by intros ? ? ? _ ->.
Qed.

Lemma ok_CreateAndEnqueue t S H : ok (keeps H) S H (CreateAndEnqueue t).
Proof.
  eapply ok_try; [by apply (ok_query (QGetByDoc _))|by intros ? ? ? _ [_ ->]|].
  intros [x|] S' H' _ [_ ->].
  - case_decide; [|case_decide; [|done]].
    + eapply ok_try; [by apply (ok_query (QPublish _))|by intros ? ? ? _ [_ ->]|].
      intros [] S2 H2 _ [_ ->]. apply ok_markScheduled.
    + eapply ok_try; [apply ok_transition|by intros ? ? ? _ [-> _]|]. intros x' S2 H2 _ [-> _].
      eapply (ok_bind _ _ (keeps H)); [unfold clearCancelFlag; by ok_q|]. intros [] S3 H3 _ ->.
      apply ok_enqueue_or_undo. intros S4. by apply ok_rollback.
  - eapply ok_try; [by apply ok_Create|by intros ? ? ? _ ->|]. intros x S2 H2 _ ->.
    apply ok_enqueue_or_undo. intros S3. apply ok_Delete.
Qed.

Lemma ok_schedule_all tasks errs S H : ok (keeps H) S H (schedule_all tasks errs).
Proof.
  revert S errs. induction tasks as [|t tasks IH]; intros S errs; cbn [schedule_all]; [done|].
  eapply (ok_bind _ _ (keeps H)); [|intros ? ? ? _ ->; apply IH].
  eapply ok_try; [by apply (ok_query (QPublish _))|by intros ? ? ? _ [_ ->]|].
  intros [] S2 H2 _ [_ ->]. apply ok_markScheduled.
Qed.

Lemma ok_discard {A} (p : prog A) S : ok (keeps ∅) S ∅ p → ok clean S ∅ (discard p).
Proof. intros Hp. eapply ok_bind; [exact Hp|]. by intros ? ? ? _ ->. Qed.

(** The requests on documents. *)
Ltac ok_if := cbv zeta; match goal with |- ok _ _ _ (if ?b then _ else _) => destruct b; [done|] end.
Lemma ok_terminal_check docs S H : ok (keeps H) S H (AssertIngestionTasksTerminal docs).
Proof.
  revert S. induction docs as [|d docs IH]; intros S; cbn [AssertIngestionTasksTerminal]; [done|].
  eapply ok_try; [by apply (ok_query (QGetByDoc _))|by intros ? ? ? _ [_ ->]|].
  intros t S' H' _ [_ ->]. ok_if; apply IH.
Qed.
Lemma ok_step {A R} (q : query R) (f : R → prog (task_error + A)) S H :
  guard S H q → (∀ r, held_after q r H = H) → (∀ r S', ok (keeps H) S' H (f r)) → ok (keeps H) S H (try (ask q) f).
Proof. intros Hg Hh Hf. eapply ok_try; [by apply ok_query|by intros ? ? ? _ [_ ->]|]. intros r S' H' _ [_ ->]. apply Hf. Qed.
Lemma ok_last {R} (q : query R) S H : guard S H q → (∀ r, held_after q r H = H) → ok (keeps H) S H (ask q).
Proof. intros Hg Hh. eapply ok_mono; [|by apply ok_query]. by intros ? ? ? [_ ->]. Qed.
Lemma ok_chain {A B} (p : prog (task_error + A)) (f : A → prog (task_error + B)) S H :
  ok (keeps H) S H p → (∀ a S', ok (keeps H) S' H (f a)) → ok (keeps H) S H (try p f).
Proof. intros Hp Hf. eapply ok_try; [exact Hp|by intros ? ? ? _ ->|]. intros a S' H' _ ->. apply Hf. Qed.

Lemma ok_clearDocument doc S H : ok (keeps H) S H (clearDocumentParseResults doc).
Proof.
  apply ok_step; [done..|]. intros t S1. ok_if.
  apply ok_step; [left; cbn; set_solver|done|]. intros n S2. ok_if.
  apply ok_step; [done..|]. intros [] S3. apply ok_step; [done..|]. intros [] S4; [by apply ok_last|done].
Qed.
Lemma ok_StartParse t rerun S H : ok (keeps H) S H (StartParseDocuments t rerun).
Proof.
  apply ok_step; [done..|]. intros _ S1. apply ok_chain; [destruct rerun; [apply ok_clearDocument|done]|].
  intros _ S2. apply ok_step; [done..|]. intros [] S3; [|done]. apply ok_chain; [apply ok_CreateAndEnqueue|done].
Qed.
Lemma ok_CancelDocParse doc run S H : ok (keeps H) S H (CancelDocParse doc run).
Proof.
  apply ok_step; [done..|]. intros t S1. ok_if.
  apply ok_chain; [|intros _ S2; by apply ok_last]. destruct t as [t|]; [|done].
  apply ok_chain; [|done]. eapply ok_mono; [|apply ok_RequestStop]. by intros ? ? ? [-> _].
Qed.
Lemma ok_Ingest docs run del S H :
  (∀ d, d ∈ docs → run ∉ [TaskStatusRunning; TaskStatusCancel] → del = true → D [it_DocumentID d.1]) →
  ok (keeps H) S H (Ingest docs run del).
Proof.
  intros HD. apply ok_step; [done..|]. intros [] S1; [|done].
  apply ok_chain; [destruct (bool_decide _ && del); [apply ok_terminal_check|done]|]. intros _ S2. revert S2 HD.
  induction docs as [|[t docRun] docs IH]; intros S2 HD; cbn [ingest_documents]; [done|].
  apply ok_chain; [|intros _ S3; apply IH; intros; apply HD; [by right|done..]].
  unfold ingest_document. case_decide as Hrun; [apply ok_StartParse|]. case_decide as Hcancel.
  { apply ok_chain; [apply ok_CancelDocParse|]. intros _ S3. by apply ok_last. }
  apply ok_step; [done..|]. intros _ S3. destruct del; [|done].
  unfold DeleteIngestionTasksByDocIDs. rewrite decide_False by done.
  eapply (ok_bind _ _ (keeps H)).
  { apply ok_last; [|done]. right. apply (HD (t, docRun)); [by left|set_solver|done]. }
  intros r S4 H4 _ ->. eapply (ok_bind _ _ (keeps H)); [destruct r; [by apply ok_last|done]|].
  intros r' S5 H5 _ ->. destruct r' as [err|[]]; [done|done|].
  apply ok_step; [done..|]. intros [] S6; [by apply ok_last|done].
Qed.
Lemma ok_deleteDocument doc S H : ok (keeps H) S H (deleteDocumentFull doc).
Proof.
  apply ok_step; [done..|]. intros _ S1. apply ok_step; [done..|]. intros t S2.
  apply ok_chain; [destruct t; [apply ok_Delete|done]|]. intros _ S3.
  eapply (ok_bind _ _ (keeps H)); [by apply ok_last|]. intros _ S4 H4 _ ->.
  apply ok_step; [done..|]. intros _ S5. by apply ok_last.
Qed.
End specification.

(** Only a request that asks to delete the results, and neither to run nor to cancel, may
    delete tasks in every status, those of one of its documents at a time. *)
Definition permits (o : opcode) (docs : list string) : Prop :=
  match o with
  | OpIngest ds run del =>
      run ∉ [TaskStatusRunning; TaskStatusCancel] ∧ del = true ∧ ∃ d, d ∈ ds ∧ docs = [it_DocumentID d.1]
  | _ => False
  end.

Lemma ok_operation o S : ok (permits o) clean S ∅ (op_prog o).
Proof.
  destruct o as [t| |id|id user|me id|docs run del|doc]; try apply ok_discard; try apply ok_processMessage.
  - apply ok_CreateAndEnqueue.
  - eapply ok_try; [by apply (ok_query _ (QListByStatus _))|by intros ? ? ? _ [_ ->]|].
    intros tasks S' H' _ [_ ->]. eapply ok_bind; [apply ok_schedule_all|]. by intros ? ? ? _ ->.
  - eapply ok_mono; [|apply ok_RequestStop]. by intros ? ? ? [-> _].
  - apply ok_Delete.
  - apply ok_Ingest. intros d Hd Hrun Hdel. split_and!; [done|done|]. by exists d.
  - apply ok_deleteDocument.
Qed.

(** ** Queries against the world *)

(** How a step may change the table; the tasks of the documents [hard] may vanish in every status. *)
Definition life (hard : list string) (w w' : world) : Prop := ∀ id,
  match w_tasks w !! id, w_tasks w' !! id with
  | None, Some t' => it_Status t' = CREATED
  | Some t, Some t' => t' = t ∨ (t' = with_status t (it_Status t') ∧ allowed (it_Status t) (it_Status t'))
  | Some t, None => (it_Status t ≠ RUNNING ∧ it_Status t ≠ STOPPING) ∨ it_DocumentID t ∈ hard
  | None, None => True
  end.

Lemma life_refl hard w w' : w_tasks w' = w_tasks w → life hard w w'.
Proof. intros Hw id. rewrite Hw. destruct (w_tasks w !! id); [by left|done]. Qed.

Lemma life_upd hard w id o tasks' :
  (∀ i, i ≠ id → tasks' !! i = w_tasks w !! i) → tasks' !! id = o →
  match w_tasks w !! id, o with
  | None, Some t' => it_Status t' = CREATED
  | Some t, Some t' => t' = t ∨ (t' = with_status t (it_Status t') ∧ allowed (it_Status t) (it_Status t'))
  | Some t, None => (it_Status t ≠ RUNNING ∧ it_Status t ≠ STOPPING) ∨ it_DocumentID t ∈ hard
  | None, None => True
  end → life hard w (set_tasks w tasks').
Proof.
  intros Hne Hid Hm i. cbn. destruct (decide (i = id)) as [->|Hi].
  - by rewrite Hid.
  - rewrite Hne by done. destruct (w_tasks w !! i); [by left|done].
Qed.

(** The documents whose tasks a query deletes in every status. *)
Definition hard_docs {R} (q : query R) : list string :=
  match q with
  | QDeleteDocs docs keep => if decide (RUNNING ∈ keep ∧ STOPPING ∈ keep) then [] else docs
  | _ => []
  end.

Lemma exec_life {R} (D : list string → Prop) (q : query R) S H w c r w' :
  guard D S H q → exec q w c = (r, w') → life (hard_docs q) w w'.
Proof.
  intros Hg He. destruct q; cbn in Hg, He; try (simplify_eq; by apply life_refl).
  - destruct (w_tasks w !! id) as [t|] eqn:Et; [|simplify_eq; by apply life_refl].
    case_decide as Hs; simplify_eq; [|by apply life_refl].
    eapply (life_upd _ _ id); [by intros; rewrite lookup_insert_ne|apply lookup_insert_eq|].
    rewrite Et. right. by split.
  - destruct (w_tasks w !! it_ID t) as [x|] eqn:Et; [simplify_eq; by apply life_refl|].
    destruct (by_document _ _); simplify_eq; [by apply life_refl|].
    eapply (life_upd _ _ (it_ID t)); [by intros; rewrite lookup_insert_ne|apply lookup_insert_eq|].
    by rewrite Et.
  - destruct (w_tasks w !! id) as [t|] eqn:Et; [|simplify_eq; by apply life_refl].
    case_decide as Hs; simplify_eq; [|by apply life_refl].
    eapply (life_upd _ _ id); [by intros; rewrite lookup_delete_ne|apply lookup_delete_eq|].
    rewrite Et. left. split; intros Hr; rewrite Hr in Hs; naive_solver.
  - simplify_eq. intros id. cbn. destruct (w_tasks w !! id) as [t|] eqn:Et.
    + destruct (filter _ _ !! id) as [t'|] eqn:Ef.
      * apply map_lookup_filter_Some in Ef as [Ef _]. left. congruence.
      * apply map_lookup_filter_None in Ef as [Ef|Ef]; [congruence|]. specialize (Ef t Et). cbn in Ef.
        destruct (decide (it_DocumentID t ∈ docs)) as [Hd|]; [|tauto].
        destruct (decide (it_Status t ∈ keep)) as [|Hk]; [tauto|]. case_decide as Hkeep; [|by right].
        left. destruct Hkeep as [H1 H2]. split; congruence.
    + rewrite map_lookup_filter, Et. done.
  - case_decide; simplify_eq; by apply life_refl.
Qed.

Lemma exec_learns {R} (q : query R) S w c r w' :
  exec q w c = (r, w') → (∀ id, settled w id → S id) → (∀ id, settled w' id → S id) → learns q r S.
Proof.
  intros He Hw Hw'. destruct q; cbn in *; try done.
  - simplify_eq. specialize (Hw id). revert Hw. unfold settled. destruct (w_tasks w' !! id); auto.
  - destruct (w_tasks w !! id) as [t|] eqn:Et; [|by simplify_eq]. case_decide; simplify_eq; [|done].
    intros Ht. apply Hw'. unfold settled. cbn. by rewrite lookup_insert_eq.
Qed.

Lemma exec_claims {R} (D : list string → Prop) (q : query R) S H w c r w' :
  guard D S H q → exec q w c = (r, w') → H ⊆ w_claims w →
  held_after q (inr r) H ⊆ w_claims w'
  ∧ (∀ K, K ⊆ w_claims w → K ## H → K ⊆ w_claims w' ∧ K ## held_after q (inr r) H)
  ∧ (∀ x, x ∈ w_claims w' → x ∈ held_after q (inr r) H ∨ x ∈ w_claims w ∧ x ∉ H).
Proof.
  intros Hg He HH.
  assert (Hsame : held_after q (inr r) H = H → w_claims w' = w_claims w →
    held_after q (inr r) H ⊆ w_claims w'
    ∧ (∀ K, K ⊆ w_claims w → K ## H → K ⊆ w_claims w' ∧ K ## held_after q (inr r) H)
    ∧ (∀ x, x ∈ w_claims w' → x ∈ held_after q (inr r) H ∨ x ∈ w_claims w ∧ x ∉ H)).
  { intros -> ->. split_and!; [done|by intros|]. intros x Hx. destruct (decide (x ∈ H)); auto. }
  destruct q; try (apply Hsame; [done|]; cbn in He; repeat case_match; by simplify_eq).
  - cbn in He. case_decide as Hd; simplify_eq; [by apply Hsame|]. clear Hsame. cbn.
    split_and!; [set_solver|intros K HK Hdis; set_solver|].
    intros x Hx. destruct (decide (x ∈ H)); set_solver.
  - cbn in He, Hg. simplify_eq. clear Hsame. cbn. split_and!; [set_solver|set_solver|].
    intros x [Hx Hne]%elem_of_difference. destruct (decide (x ∈ H)); set_solver.
Qed.

(** ** The invariant of the system *)

Definition seen (th : thread) (id : string) : Prop := ∃ w, w ∈ th_hist th ∧ settled w id.

Record thread_ok (w : world) (th : thread) : Prop := {
  to_now : w ∈ th_hist th;
  to_prog : ok (permits (th_op th)) clean (seen th) (th_held th) (th_prog th);
  to_held : th_held th ⊆ w_claims w;
}.

Record sys_ok (w : world) (ts : list thread) : Prop := {
  so_threads : ∀ i th, ts !! i = Some th → thread_ok w th;
  so_disjoint : ∀ i j a b, i ≠ j → ts !! i = Some a → ts !! j = Some b → th_held a ## th_held b;
  so_claims : ∀ x, x ∈ w_claims w → ∃ i th, ts !! i = Some th ∧ x ∈ th_held th;
}.

Lemma ok_more {A} (D : list string → Prop) (Q : A → (string → Prop) → gset (string * string) → Prop) S S' H (p : prog A) :
  (∀ a S S' H, (∀ id, S id → S' id) → Q a S H → Q a S' H) →
  (∀ id, S id → S' id) → ok D Q S H p → ok D Q S' H p.
Proof.
  intros HQ HS. destruct p as [a|R q k]; cbn; [by apply HQ|]. intros [Hg Hk]. split.
  - destruct q; cbn in *; auto.
  - intros r S2 HS2 Ha. apply Hk; [|done]. auto.
Qed.

Lemma seen_observe w th id : seen th id ∨ settled w id → seen (observe w th) id.
Proof.
  intros [(w0 & Hin & Hs)|Hs]; [exists w0|exists w]; (split; [|done]); cbn; [by right|left].
Qed.

Lemma clean_more (a : unit) S S' H : (∀ id, S id → S' id) → clean a S H → clean a S' H.
Proof. by intros _. Qed.

(** After an action of thread [i] the other threads only see a new world. *)
Lemma sys_update w w' ts i th p' H' :
  sys_ok w ts → ts !! i = Some th →
  ok (permits (th_op th)) clean (seen (observe w' th)) H' p' →
  H' ⊆ w_claims w' →
  (∀ K, K ⊆ w_claims w → K ## th_held th → K ⊆ w_claims w' ∧ K ## H') →
  (∀ x, x ∈ w_claims w' → x ∈ H' ∨ x ∈ w_claims w ∧ x ∉ th_held th) →
  sys_ok w' (observe w' <$> <[i := resume th p' H']> ts).
Proof.
  intros [Ht Hd Hc] Hi Hp HH HK Hx.
  assert (Hlt : i < length ts) by (by eapply lookup_lt_Some).
  assert (Hlook : ∀ j a, (observe w' <$> <[i := resume th p' H']> ts) !! j = Some a →
    (j = i ∧ a = observe w' (resume th p' H')) ∨ (j ≠ i ∧ ∃ b, ts !! j = Some b ∧ a = observe w' b)).
  { intros j a Ha. rewrite list_lookup_fmap in Ha. destruct (decide (j = i)) as [->|Hne].
    - rewrite list_lookup_insert_eq in Ha by done. left. by simplify_eq/=.
    - rewrite list_lookup_insert_ne in Ha by done. right. split; [done|].
      destruct (ts !! j) as [b|]; simplify_eq/=. eauto. }
  split.
  - intros j a [[-> ->]|(Hne & b & Hb & ->)]%Hlook.
    + split; cbn; [left| |done]. exact Hp.
    + destruct (Ht j b Hb) as [H1 H2 H3]. split; cbn; [left| |].
      * eapply ok_more; [apply clean_more| |exact H2]. intros id Hs. apply seen_observe. by left.
      * apply HK; [done|]. by eapply Hd.
  - intros j k a b Hjk [[-> ->]|(Hj & a' & Ha & ->)]%Hlook [[-> ->]|(Hk & b' & Hb & ->)]%Hlook; cbn.
    + done.
    + symmetry. apply HK; [by apply (Ht k b')|]. by eapply Hd.
    + apply HK; [by apply (Ht j a')|]. by eapply Hd.
    + exact (Hd j k a' b' Hjk Ha Hb).
  - intros x [Hin|[Hin Hnot]]%Hx.
    + exists i, (observe w' (resume th p' H')). split; [|done].
      rewrite list_lookup_fmap, list_lookup_insert_eq by done. done.
    + destruct (Hc x Hin) as (j & a & Ha & Hxa). exists j, (observe w' a). split; [|done].
      assert (j ≠ i) by (intros ->; by simplify_eq). by rewrite list_lookup_fmap, list_lookup_insert_ne, Ha by done.
Qed.

(** A thread about to delete the tasks of the documents, in every status, for a request
    that asks for it. *)
Definition deleting (docs : list string) (th : thread) : Prop :=
  permits (th_op th) docs ∧ ∃ keep k, th_prog th = Ask (QDeleteDocs docs keep) k.
Definition deleted_by (ts : list thread) (hard : list string) : Prop :=
  hard = [] ∨ ∃ i th, ts !! i = Some th ∧ deleting hard th.

Lemma hard_docs_by {R} th (q : query R) k S H : th_prog th = Ask q k → guard (permits (th_op th)) S H q →
  hard_docs q = [] ∨ deleting (hard_docs q) th.
Proof.
  intros Hp Hg. destruct q; try (by left). cbn in *. case_decide; [by left|]. right. destruct Hg as [?|Hg]; [done|].
  split; [done|]. eauto.
Qed.

Lemma sstep_ok w ts w' ts' : sstep (w, ts) (w', ts') → sys_ok w ts →
  sys_ok w' ts' ∧ ∃ hard, life hard w w' ∧ deleted_by ts hard.
Proof.
  intros Hst Hok. remember (w, ts) as c1 eqn:E1. remember (w', ts') as c2 eqn:E2.
  destruct Hst as [w0 w1 ts0 i th R q k c r Hi Hp He|w0 ts0 i th R q k Hi Hp Hf|w0 ts0 o]; simplify_eq.
  - destruct (so_threads _ _ Hok i th Hi) as [Hnow Hprog Hheld]. rewrite Hp in Hprog. destruct Hprog as [Hg Hk].
    split; [|exists (hard_docs q); split; [by eapply exec_life|];
      destruct (hard_docs_by th q k _ _ Hp Hg); [by left|right; by exists i, th]].
    destruct (exec_claims _ q _ _ _ _ _ _ Hg He Hheld) as (H1 & H2 & H3).
    eapply sys_update; [done..| |done|done|done]. apply Hk.
    + intros id Hs. apply seen_observe. by left.
    + cbn. eapply exec_learns; [done|intros id Hs; apply seen_observe|intros id Hs; apply seen_observe; by right].
      left. by exists w.
  - destruct (so_threads _ _ Hok i th Hi) as [Hnow Hprog Hheld]. rewrite Hp in Hprog. destruct Hprog as [Hg Hk].
    split; [|exists []; split; [by apply life_refl|by left]]. eapply sys_update; [done..| |done|by intros|].
    + specialize (Hk (inl DBErr) (seen (observe w th))).
      assert (held_after q (inl DBErr) (th_held th) = th_held th) as Hh by (destruct q; done).
      rewrite Hh in Hk. apply Hk; [intros id Hs; apply seen_observe; by left|done].
    + intros x Hx. destruct (decide (x ∈ th_held th)); auto.
  - split; [|exists []; split; [by apply life_refl|by left]]. destruct Hok as [Ht Hd Hc]. split.
    + intros i th [Hi|[_ Hi]]%lookup_app_Some; [by eapply Ht|]. apply list_lookup_singleton_Some in Hi as [_ <-].
      split; cbn; [by left|apply ok_operation|set_solver].
    + intros i j a b Hij [Hi|[Hli Hi]]%lookup_app_Some [Hj|[Hlj Hj]]%lookup_app_Some; [by eapply Hd| | |];
        try (apply list_lookup_singleton_Some in Hi as [Hi' <-]); try (apply list_lookup_singleton_Some in Hj as [Hj' <-]);
        cbn; [set_solver..|lia].
    + intros x Hx. destruct (Hc x Hx) as (i & th & Hi & Hin). exists i, th. split; [|done]. by apply lookup_app_l_Some.
Qed.

Lemma system_ok c : rtc sstep (empty_world, []) c → sys_ok c.1 c.2.
Proof.
  intros Hr. assert (Hi : sys_ok (empty_world, [] : list thread).1 (empty_world, [] : list thread).2).
  { split; cbn; [done|done|]. intros x Hx. set_solver. }
  induction Hr as [c|[w ts] [w1 ts1] c Hst _ IH]; [done|]. apply IH. by destruct (sstep_ok _ _ _ _ Hst Hi).
Qed.
