(* ===== verification/EngineProps.v ===== *)
(** * Properties of the engine: termination, supersteps, scheduling, writes, inputs *)

From S2P Require Import Prelude GoValue Errors StateMap ValueChannels Channels.
From S2P Require Import Registry Config Checkpoint MemorySaver Retry StateGraph GraphCompile.
From S2P Require Import Scheduling Writes Execution Engine EngineLemmas.

Open Scope go_scope.
Local Open Scope Z_scope.

(** ** Termination *)

(** C1: a synchronous run always comes to an end.  Whatever the graph (cycles
    included), the nodes, the checkpointer, the input and the iteration order
    of maps, the recursion limit bounds the run: the loop leaves after at most
    [limit + 1] iterations, with a result, an error or a panic of a node's
    surroundings, never by exhausting the fuel of the model. *)
Theorem run_terminates {W} {MO : MapOrder} {CK} {BC : BaseCheckpointer CK}
    (env : Env W) (e : Engine W CK) input w :
  is_Some (RunSync env e input w).
Proof.
  unfold RunSync, Run. destruct (init env e input w) as [err|st] eqn:E; [eauto|].
  destruct (run_loop_total env e (run_fuel e) st) as [[st' [err|v|]] ->]; [|eauto..].
  assert (rs_step st = 0) as ->; [|unfold run_fuel; lia]. revert E. unfold init.
  destruct (applyInput _ _) as [[r1 [err|]] i1]; [done|].
  destruct (load env e) as [err|[cpData|]]; [done| |].
  - destruct (restore _ _ _ _); [done|]. by intros [= <-].
  - destruct (applyInput _ _) as [[r2 [err|]] i2]; [done|]. by intros [= <-].
Qed.

(** One superstep that does not leave the loop. *)
Definition estep {W} {MO : MapOrder} {CK} {BC : BaseCheckpointer CK} (env : Env W)
    (e : Engine W CK) (st st' : RunState) : Prop := superstep env e st = (st', None).

(** The step counter counts supersteps and the recursion limit is never
    exceeded: a run that started at step 0 and took [n] supersteps is at step
    [n], and [n] is at most the limit. *)
Theorem superstep_bound {W} {MO : MapOrder} {CK} {BC : BaseCheckpointer CK}
    (env : Env W) (e : Engine W CK) n st st' :
  nsteps (estep env e) n st st' → rs_step st = 0 →
  rs_step st' = Z.of_nat n ∧ Z.of_nat n ≤ Z.max 0 (en_recursionLimit e).
Proof.
  intros Hn H0.
  assert (H : ∀ m s, nsteps (estep env e) m s st' →
    rs_step st' = rs_step s + Z.of_nat m
    ∧ (m ≠ 0%nat → rs_step st' ≤ en_recursionLimit e)).
  { induction m as [|m IH]; intros s Hs; inversion Hs as [|m' x y z Hxy Hyz]; subst; [split; [lia|done]|].
    apply superstep_counter in Hxy as [Hl Hstep]. destruct (IH _ Hyz) as [H1 H2].
    split; [lia|]. intros _. destruct m as [|m]; [lia|]. by apply H2. }
  destruct (H n st Hn) as [H1 H2]. rewrite H0 in H1. destruct n as [|n]; lia.
Qed.

(** The diamond takes a superstep from the state in which [a] is completed. *)
Lemma superstep_bound_witness :
  ∃ st', nsteps (estep demo_env (demo_engine diamond)) 1
           (with_counters demo_state 0 7) st' ∧ rs_step st' = Z.of_nat 1.
Proof.
  destruct (superstep demo_env (demo_engine diamond) (with_counters demo_state 0 7)) as [st' o] eqn:E.
  assert (o = None) as -> by (apply (f_equal snd) in E; vm_compute in E; by symmetry).
  exists st'. assert (Hn : nsteps (estep demo_env (demo_engine diamond)) 1
           (with_counters demo_state 0 7) st') by (econstructor; [exact E|constructor]).
  split; [exact Hn|]. exact (proj1 (superstep_bound _ _ _ _ _ Hn eq_refl)).
Defined.

(** ** The writes of a superstep *)



(** Several nodes that write the same last-value channel in one superstep
    do not conflict: the value of the node with the greatest name is kept, the
    channel is updated, and the version grows. *)
Theorem last_writer_wins {MO : MapOrder} registry versions ch c vs v :
  registry !! ch = Some (Plain (ChLastValue c)) → Forall (λ x, is_nil x = false) vs →
  last vs = Some v → IsMissing v = false →
  ∃ c', channel_after registry versions ch vs = (Plain (ChLastValue c'), true)
        ∧ lv_value c' = v ∧ Version (lv_base c') = default 0 (incr versions ch !! ch).
Proof.
  intros Hr Hnil Hl Hm. unfold channel_after, channel_or_new, Registry_Get. rewrite Hr.
  assert (Hf : filter (λ x, is_nil x = false) vs = vs).
  { clear -Hnil. induction Hnil as [|x vs Hx _ IH]; [done|].
    rewrite filter_cons_True by done. by rewrite IH. }
  assert (Hn : narrow (Plain (ChLastValue c)) vs = [v]).
  { unfold narrow. rewrite Hf. cbn [is_BinaryOperatorAggregate is_ReducerChannel Plain reducers orb].
    rewrite Hl. case_decide as Hlen; [done|].
    destruct vs as [|x [|y vs]]; [done|by simplify_eq/=|]. cbn in Hlen. lia. }
  cbn [default]. unfold id. rewrite Hn. cbn. unfold LastValue_IsAvailable. cbn. rewrite Hm. cbn.
  eexists. split; [done|]. done.
Qed.

Lemma last_writer_wins_witness :
  ∃ c', channel_after {["x" := last_value (VInt 1)]} ∅ "x" [VInt 2; VInt 3]
        = (Plain (ChLastValue c'), true) ∧ lv_value c' = VInt 3
        ∧ Version (lv_base c') = default 0 (incr ∅ "x" !! "x").
Proof.
  apply (last_writer_wins _ _ _ {| lv_base := new_base VNil; lv_value := VInt 1 |}); try reflexivity.
  repeat constructor.
Defined.

(** Channel versions are logical clocks: across a superstep the version of
    every channel either stays or advances by one. *)
Theorem superstep_versions {W} {MO : MapOrder} {CK} {BC : BaseCheckpointer CK}
    (env : Env W) (e : Engine W CK) st st' ch :
  estep env e st st' →
  let v := default 0 (ev_channelVersions (rs_vars st) !! ch) in
  let v' := default 0 (ev_channelVersions (rs_vars st') !! ch) in
  v' = v ∨ v' = int_add v 1.
Proof.
  unfold estep, superstep. destruct (ctx_poll env _) as [[err|] w]; [done|].
  case_decide; [done|]. destruct (prepareNextTasks _ _ _ _ _ _ _ _) as [[err|[tasks trig]] w2]; [done|].
  destruct tasks as [|t ts]; [by destruct (finish_run _ _ _)|].
  destruct (shouldInterrupt _ _); [|by destruct (exit_before _ _ _)].
  destruct (executeTasksAsync _ _ _ _ _) as [[[results r] w3]|]; [|done].
  intros (regw & upd & reg' & Ha)%finish_step_writes.
  pose proof (applyWrites_channel _ _ _ _ _ _ _ _ ch Ha) as (_ & -> & _).
  cbn [rs_vars with_world with_registry draw with_counters]. case_decide; [by left|]. destruct (channel_after _ _ _ _).2; [right|by left].
  unfold incr. by rewrite lookup_insert_eq.
Qed.

Lemma superstep_versions_witness :
  ∃ st', estep demo_env (demo_engine diamond) demo_state st'
    ∧ (default 0 (ev_channelVersions (rs_vars st') !! "x") = 0
       ∨ default 0 (ev_channelVersions (rs_vars st') !! "x") = int_add 0 1).
Proof.
  destruct (superstep demo_env (demo_engine diamond) demo_state) as [st' o] eqn:E.
  assert (o = None) as -> by (apply (f_equal snd) in E; vm_compute in E; by symmetry).
  exists st'. split; [exact E|]. exact (superstep_versions _ _ _ _ "x" E).
Defined.

(** ** Scheduling *)

(** C3: in the all-predecessors mode a superstep schedules exactly the nodes
    that are ready: not completed, with every source of a regular edge into
    them completed (or the start); each of them once. *)
Theorem dag_schedules_ready {W} {MO : MapOrder} ids (g : stateGraph W) completed forExecution :
  well_named g →
  ∃ names, map t_Name (prepareNextTasksDAG ids g completed forExecution).1 = names
    ∧ NoDup names ∧ ∀ n, n ∈ names ↔ ready g completed n.
Proof. apply dag_names. Qed.

Lemma diamond_named : well_named diamond.
Proof.
  unfold well_named, diamond, edge, or_graph. vm_compute g_nodes.
  apply map_Forall_to_list. vm_compute. repeat constructor.
Qed.

Lemma dag_schedules_ready_witness :
  ∃ names, map t_Name (prepareNextTasksDAG (λ _, "") diamond {["a" := true]} true).1 = names
    ∧ NoDup names ∧ ∀ n, n ∈ names ↔ ready diamond {["a" := true]} n.
Proof. apply dag_schedules_ready. exact diamond_named. Defined.

(** Every task of a superstep reports exactly one result, under its own
    name and at its own position, whatever the order in which the concurrent
    tasks take effect. *)
Theorem results_match_tasks {W} {MO : MapOrder} {CK} (env : Env W) (e : Engine W CK)
    tasks registry w results registry' w' :
  sched env (length tasks) ≡ₚ seq 0 (length tasks) →
  executeTasksAsync env e tasks registry w = Ret (results, registry', w') →
  map r_Name results = map t_Name tasks.
Proof. apply executeTasksAsync_names. Qed.

Lemma results_match_tasks_witness :
  ∃ results r w,
    executeTasksAsync demo_env (demo_engine diamond)
      (prepareNextTasksDAG (λ _, "") diamond {["a" := true]} true).1 ∅ () = Ret (results, r, w)
    ∧ map r_Name results = map t_Name (prepareNextTasksDAG (λ _, "") diamond {["a" := true]} true).1.
Proof.
  destruct (executeTasksAsync demo_env (demo_engine diamond)
      (prepareNextTasksDAG (λ _, "") diamond {["a" := true]} true).1 ∅ ()) as [[[res r] w]|] eqn:E;
    [|exfalso; vm_compute in E; discriminate].
  exists res, r, w. split; [reflexivity|].
  exact (results_match_tasks _ _ _ _ _ _ _ _ (reflexivity _) E).
Defined.

(** ** Routing *)

(** Where the next nodes come from.  A node scheduled after [node] in the
    any-predecessor mode is the target of a conditional edge of [node] (and the
    regular edges are then ignored), or, only when [node] has no conditional
    edge, of a regular edge; or it is the node the state's [_next] names; or a
    branch of [node] returned it. *)
Theorem routing_sound {W} {MO : MapOrder} sprint (g : stateGraph W) node state w nexts w' n b :
  getNextNodes sprint g node state w = (nexts, w') → nexts !! n = Some b →
  (∃ ce k, ce ∈ g_conditionalEdges g ∧ ce_From ce = node ∧ ce_Mapping ce !! k = Some n)
  ∨ ((∀ ce, ce ∈ g_conditionalEdges g → ce_From ce ≠ node)
     ∧ ∃ ed, ed ∈ g_edges g ∧ e_From ed = node ∧ e_To ed = n)
  ∨ resume_target g state = Some n
  ∨ ∃ br v, br ∈ g_branches g ∧ br_From br = node ∧ n ∈ br_Then br v ∧ n ≠ End_.
Proof.
  unfold getNextNodes.
  destruct (cond_loop _ _ _ _ _ _ _) as [[has r1] w1] eqn:Ec.
  apply cond_loop_sound in Ec as (_ & Hhas & _ & Hr1). setoid_rewrite lookup_empty in Hr1.
  destruct (rt_done r1); [intros [= <- <-] Hn; left; apply Hr1 in Hn; naive_solver|].
  set (r2 := if negb has && bool_decide (rt_next r1 = ∅)
             then edge_loop (g_edges g) node (rt_next r1) else r1).
  assert (Hr2 : ∀ n b, rt_next r2 !! n = Some b →
    (∃ ce k, ce ∈ g_conditionalEdges g ∧ ce_From ce = node ∧ ce_Mapping ce !! k = Some n)
    ∨ ((∀ ce, ce ∈ g_conditionalEdges g → ce_From ce ≠ node)
       ∧ ∃ ed, ed ∈ g_edges g ∧ e_From ed = node ∧ e_To ed = n)).
  { intros m c. subst r2. destruct (negb has && _) eqn:Eh; [|intros Hm%Hr1; naive_solver].
    apply andb_true_iff in Eh as [Eh%negb_true_iff _].
    intros [Hm|(_ & ed & Hed)]%edge_loop_sound; [apply Hr1 in Hm; naive_solver|].
    right. split; [|by exists ed]. intros ce Hin Hf. by rewrite (Hhas ce Hin Hf) in Eh. }
  destruct (rt_done r2); [intros [= <- <-] Hn; apply Hr2 in Hn; tauto|].
  intros Hb Hn. destruct (branch_loop_sound _ _ _ _ _ _ _ _ _ Hb Hn) as [Hn'|(_ & br & v & ?)];
    [clear Hn; rename Hn' into Hn|right; right; right; eauto].
  case_bool_decide; [|apply Hr2 in Hn; tauto].
  destruct (resume_target g state) as [t|] eqn:Et; [|apply Hr2 in Hn; tauto].
  apply add_next_lookup in Hn as [[-> _]|Hn]; [tauto|]. apply Hr2 in Hn. tauto.
Qed.

Lemma routing_sound_witness :
  (∀ ce, ce ∈ g_conditionalEdges diamond → ce_From ce ≠ "a")
  ∧ ∃ ed, ed ∈ g_edges diamond ∧ e_From ed = "a" ∧ e_To ed = "b".
Proof.
  assert (Hn : (getNextNodes (sprint demo_env) diamond "a" VNil ()).1 !! "b" = Some true)
    by (vm_compute; reflexivity).
  destruct (routing_sound _ diamond "a" VNil () _ _ "b" true (surjective_pairing _) Hn)
    as [(ce & k & Hin & _)|[H|[H|(br & v & Hin & _)]]].
  - exfalso. vm_compute in Hin. by apply elem_of_nil in Hin.
  - exact H.
  - exfalso. vm_compute in H. discriminate.
  - exfalso. vm_compute in Hin. by apply elem_of_nil in Hin.
Defined.

(** A node without conditional edges and branches, and with no edge to the
    end, schedules exactly the targets of its regular edges. *)
Theorem routing_edges {W} {MO : MapOrder} sprint (g : stateGraph W) node state w ed0 :
  (∀ ce, ce ∈ g_conditionalEdges g → ce_From ce ≠ node) →
  (∀ br, br ∈ g_branches g → br_From br ≠ node) →
  ed0 ∈ g_edges g → e_From ed0 = node →
  (∀ ed, ed ∈ g_edges g → e_From ed = node → e_To ed ≠ End_) →
  (getNextNodes sprint g node state w).2 = w
  ∧ ∀ n, (getNextNodes sprint g node state w).1 !! n = Some true ↔
         ∃ ed, ed ∈ g_edges g ∧ e_From ed = node ∧ e_To ed = n.
Proof.
  intros Hc Hb Hin Hf He. unfold getNextNodes.
  assert (Hcl : cond_loop sprint (g_conditionalEdges g) node state false ∅ w
    = ((false, {| rt_done := false; rt_next := ∅ |}), w)).
  { clear -Hc. induction (g_conditionalEdges g) as [|ce ces IH]; [done|]. cbn [cond_loop].
    rewrite decide_True by (apply Hc; left). apply IH. intros ce' ?. apply Hc. by right. }
  rewrite Hcl. cbn [rt_done rt_next negb andb]. rewrite bool_decide_eq_true_2 by done.
  destruct (edge_loop_complete (g_edges g) node ∅ He) as [Hd Hn]. rewrite Hd.
  assert (Hne : rt_next (edge_loop (g_edges g) node ∅) ≠ ∅).
  { intros Hem. specialize (Hn (e_To ed0)). rewrite Hem, lookup_empty in Hn.
    by discriminate (proj2 Hn (or_intror (ex_intro _ ed0 (conj Hin (conj Hf eq_refl))))). }
  rewrite bool_decide_eq_false_2 by done.
  assert (Hbl : ∀ nx, branch_loop (g_branches g) node state nx w = (nx, w)).
  { clear -Hb. induction (g_branches g) as [|br brs IH]; intros nx; [done|]. cbn [branch_loop].
    rewrite decide_False by (apply Hb; left). apply IH. intros br' ?. apply Hb. by right. }
  rewrite Hbl. split; [done|]. intros n. cbn [fst]. rewrite Hn, lookup_empty. naive_solver.
Qed.

Lemma routing_edges_witness :
  (getNextNodes (sprint demo_env) diamond "a" VNil ()).2 = ()
  ∧ ∀ n, (getNextNodes (sprint demo_env) diamond "a" VNil ()).1 !! n = Some true ↔
       ∃ ed, ed ∈ g_edges diamond ∧ e_From ed = "a" ∧ e_To ed = n.
Proof.
  apply (routing_edges _ _ _ _ _ {| e_From := "a"; e_To := "b" |}).
  - intros ce Hin. vm_compute in Hin. by apply elem_of_nil in Hin.
  - intros br Hin. vm_compute in Hin. by apply elem_of_nil in Hin.
  - apply list_elem_of_In. vm_compute. tauto.
  - reflexivity.
  - assert (Forall (λ ed, e_From ed = "a" → e_To ed ≠ End_) (g_edges diamond)) as H
      by (apply (bool_decide_unpack _); vm_compute; exact I).
    intros ed Hin. rewrite Forall_forall in H. by apply H.
Defined.

(** ** Checkpoints of a run *)



(** C4: a run interrupted by a task can be resumed: what [exit_interrupted]
    saves, a later run of the same thread loads, and it restores the set of
    completed tasks and the last completed node.  The names must survive the
    encoding: no NUL byte, valid UTF-8, and the set is not just the empty name. *)
Theorem interrupt_resume {W} {MO : MapOrder} {CK} `{BC : !BaseCheckpointer CK}
    `{CL : !CheckpointerLaws CK} (env : Env W) (e : Engine W CK) st results st' x ck registry w :
  rs_checkpointer st = Some ck → requested_id e = None →
  rs_completed st ≠ ∅ → rs_completed st ≠ {["" := true]} → name_set_ok (rs_completed st) →
  utf8_fix (serializeStringSet (rs_completed st)) = serializeStringSet (rs_completed st) →
  utf8_fix (rs_last st) = rs_last st →
  exit_interrupted env e st results = (st', x) →
  ∃ ck' cpData re, rs_checkpointer st' = Some ck'
    ∧ load env (Engine_WithCheckpointer (Some ck') e) = inr (Some cpData)
    ∧ restore env registry cpData w = inr re
    ∧ re_completed re = Some (rs_completed st) ∧ re_last re = rs_last st.
Proof.
  intros Hck Hreq Hne Hne1 Hok Hu Hul Hx.
  destruct (interrupted_load env e _ _ _ _ _ Hck Hreq Hx) as (ck' & Hck' & Hload).
  exists ck'. set (cpData := deepCopyMap (interrupt_payload env st results)) in *. exists cpData.
  destruct (restore_total env registry cpData w) as (re & Hre & Hc & Hl). exists re.
  split; [done|]. split; [done|].
  split; [done|]. rewrite Hc, Hl. unfold cpData.
  destruct (interrupt_payload_keys env st results) as [H1 H2].
  rewrite !lookup_deepCopyMap, H1, H2. cbn. rewrite Hu, Hul. split; [|done].
  by apply serialize_roundtrip.
Qed.

Lemma interrupt_resume_witness :
  ∃ ck' cpData re,
    rs_checkpointer (exit_interrupted demo_env (demo_engine diamond) demo_state []).1 = Some ck'
    ∧ load demo_env (Engine_WithCheckpointer (Some ck') (demo_engine diamond)) = inr (Some cpData)
    ∧ restore demo_env ∅ cpData () = inr re
    ∧ re_completed re = Some {["a" := true]} ∧ re_last re = "a".
Proof.
  apply (interrupt_resume demo_env (demo_engine diamond) demo_state [] _
    (exit_interrupted demo_env (demo_engine diamond) demo_state []).2 NewMemorySaver);
    [reflexivity|reflexivity|discriminate|discriminate| |reflexivity|reflexivity|apply surjective_pairing].
  apply map_Forall_singleton. split; reflexivity.
Defined.

(** When a task of a superstep asks for an interrupt, the run ends, the
    other tasks that succeeded are marked as completed, and none of their
    writes reaches the channels or the saved checkpoint. *)
Theorem interrupt_drops_writes {W} {MO : MapOrder} {CK} {BC : BaseCheckpointer CK}
    (env : Env W) (e : Engine W CK) st triggers results r :
  existsb is_interrupt results = true → r ∈ results → r_Err r = None →
  let '(st', x) := finish_step env e st triggers results in
  is_Some x ∧ rs_registry st' = rs_registry st ∧ rs_completed st' !! r_Name r = Some true
  ∧ ∀ ch v, ch ∉ reserved_keys → CreateCheckpoint (rs_registry st) !! ch = Some v →
      interrupt_payload env (complete st results) results !! ch = Some v.
Proof.
  intros Hi Hin Hr. unfold finish_step. rewrite Hi.
  pose proof (complete_spec st results) as (Hreg & _).
  pose proof (complete_completed st results (r_Name r)) as Hc.
  rewrite (completed_by_intro _ _ Hin Hr) in Hc.
  pose proof (exit_interrupted_same env e (complete st results) results) as (H1 & H2).
  destruct (exit_interrupted env e (complete st results) results) as [st' x]. cbn in H1, H2.
  split; [eauto|]. rewrite H1, H2, Hreg. split; [done|]. split; [done|].
  intros ch v Hres Hv. by apply interrupt_payload_frame; rewrite ?Hreg.
Qed.

Lemma interrupt_drops_writes_witness :
  let results := [ok_result "b" (VMap {["x" := VInt 2]});
                  {| r_Name := "c"; r_Output := VNil; r_Err := Some (GraphInterrupt []) |}] in
  rs_registry (finish_step demo_env (demo_engine diamond) demo_state ∅ results).1
  = {["x" := last_value (VInt 1)]}.
Proof.
  intros results.
  pose proof (interrupt_drops_writes demo_env (demo_engine diamond) demo_state ∅ results
    (ok_result "b" (VMap {["x" := VInt 2]})) eq_refl ltac:(left) eq_refl) as H.
  destruct (finish_step _ _ _ _ _) as [st' x]. exact (proj1 (proj2 H)).
Defined.

Section input.
Context `{MO : MapOrder}.

Lemma range_singleton {V} k (v : V) : range {[k := v]} = [(k, v)].
Proof. apply Permutation_singleton_r. by rewrite range_perm, map_to_list_singleton. Qed.

(** A single registered key is written to its channel. *)
Lemma applyInput_one k ch x ch' u :
  ch_Update ch [x] = (ch', (u, None)) →
  applyInput {[k := ch]} (VMap {[k := x]}) = ({[k := ch']}, None, VMap {[k := x]}).
Proof.
  intros Hu. unfold applyInput. cbn [toMap]. rewrite range_singleton. cbn [foldl].
  unfold fold_input_key, Registry_Get. cbn [fst snd]. rewrite lookup_singleton_eq.
  rewrite copy_loop_empty, map_fmap_singleton. unfold UpdateChannels. rewrite range_singleton.
  rewrite decide_False by (by rewrite map_size_singleton). cbn [update_loop].
  rewrite lookup_singleton_eq, Hu. by rewrite insert_singleton_eq.
Qed.

Lemma initial_registry_one {W CK} (e : Engine W CK) k ch :
  g_channels (en_graph e) = {[k := ch]} → initial_registry e = {[k := ch_Copy ch]}.
Proof. intros Hg. unfold initial_registry. by rewrite Hg, range_singleton. Qed.

Lemma BinOp_Update_one c x :
  IsMissing (bo_value c) = false → isOverwrite x = None →
  ch_Update (Plain (ChBinaryOperatorAggregate c)) [x]
  = (Plain (ChBinaryOperatorAggregate (with_bo_value c (bo_operator c (bo_value c) x))), (true, None)).
Proof.
  intros Hm Ho. cbn [ch_Update Channel_ops].
  unfold Channel_Update. cbn [reducers Plain basic reducer_Update basic_Update].
  unfold BinOp_Update. rewrite Hm, binop_loop_fold by (by constructor). done.
Qed.
End input.

(** On a fresh run the input is written twice: an aggregating channel with
    operator [op] and value [v] starts the run with [op (op v x) x] for the
    input [x], instead of [op v x]. *)
Theorem fresh_input_twice {W} {MO : MapOrder} {CK} {BC : BaseCheckpointer CK}
    (env : Env W) (e : Engine W CK) w k c x :
  en_checkpointer e = None → g_channels (en_graph e) = {[k := Plain (ChBinaryOperatorAggregate c)]} →
  isOverwrite x = None → IsMissing (bo_value c) = false →
  IsMissing (bo_operator c (bo_value c) x) = false →
  ∃ st c', init env e (VMap {[k := x]}) w = inr st
    ∧ rs_registry st = {[k := Plain (ChBinaryOperatorAggregate c')]}
    ∧ bo_value c' = bo_operator c (bo_operator c (bo_value c) x) x.
Proof.
  intros Hck Hg Ho Hm Hm'. unfold init. rewrite (initial_registry_one _ _ _ Hg).
  set (c0 := BinOp_Copy c).
  change (ch_Copy (Plain (ChBinaryOperatorAggregate c))) with (Plain (ChBinaryOperatorAggregate c0)).
  rewrite (applyInput_one _ _ _ _ _ (BinOp_Update_one c0 x Hm Ho)).
  unfold load. rewrite Hck.
  rewrite (applyInput_one _ _ _ _ _ (BinOp_Update_one (with_bo_value c0 _) x Hm' Ho)).
  eexists _, _. split; [done|]. split; [done|]. done.
Qed.

(** An int counter given the input 5 starts the run at 10. *)
Definition counter_graph : stateGraph unit :=
  AddChannel (NewStateGraph (SchemaMap true)) "n"
    (Plain (ChBinaryOperatorAggregate (NewBinaryOperatorAggregate (VInt 0) IntAdd))).

Lemma fresh_input_twice_witness :
  ∃ st c', init demo_env (NewEngine (CK := MemorySaver) counter_graph []) (VMap {["n" := VInt 5]}) () = inr st
    ∧ rs_registry st = {["n" := Plain (ChBinaryOperatorAggregate c')]} ∧ bo_value c' = VInt 10.
Proof.
  apply (fresh_input_twice demo_env (NewEngine (CK := MemorySaver) counter_graph []) () "n"
    {| bo_base := Base_SetKey (new_base (VInt 0)) "n"; bo_value := VInt 0; bo_operator := IntAdd |}
    (VInt 5)); reflexivity.
Defined.

(** A barrier that waits for two names never opens when both arrive in the
    same superstep: the engine keeps only the last value written to a channel
    that is neither an aggregate nor a reducer. *)
Theorem barrier_same_step {MO : MapOrder} versions k a b typ :
  a ≠ b →
  ∃ c', channel_after {[k := Plain (ChNamedBarrierValue (NewNamedBarrierValue typ [a; b]))]}
          versions k [VStr a; VStr b] = (Plain (ChNamedBarrierValue c'), false)
    ∧ nb_seen c' = {[b := true]} ∧ NamedBarrier_IsAvailable c' = false.
Proof.
  intros Hne.
  assert (Hb : name_set [a; b] !! b = Some true).
  { unfold name_set. rewrite foldl_insert_true_lookup, decide_True; [done|set_solver]. }
  assert (Hav : namesMatchSeen (name_set [a; b]) {[b := true]} = false).
  { apply not_true_iff_false. rewrite namesMatchSeen_spec, dom_singleton_L, name_set_dom.
    - set_solver.
    - by apply map_Forall_singleton.
    - rewrite dom_singleton_L, name_set_dom. set_solver. }
  unfold channel_after, channel_or_new, Registry_Get. rewrite lookup_singleton_eq.
  exists (with_seen (NewNamedBarrierValue typ [a; b]) {[b := true]}).
  unfold NewNamedBarrierValue. split; [|by split].
  revert Hb Hav. generalize (name_set [a; b]) as names. intros names Hb Hav.
  cbn [default]. unfold id. change (narrow _ [VStr a; VStr b]) with [VStr b].
  cbn -[insert]. unfold keep, NamedBarrier_Update. cbn -[insert]. rewrite Hb. cbn -[insert].
  unfold has. rewrite lookup_empty. cbn -[insert].
  unfold Channel_IsAvailable. cbn -[insert]. unfold NamedBarrier_IsAvailable. cbn -[insert].
  change (<[b := true]> (∅ : gmap string bool)) with ({[b := true]} : gmap string bool).
  rewrite Hav. done.
Qed.

Lemma barrier_same_step_witness :
  ∃ c', channel_after {["join" := Plain (ChNamedBarrierValue (NewNamedBarrierValue VNil ["b"; "c"]))]}
          ∅ "join" [VStr "b"; VStr "c"] = (Plain (ChNamedBarrierValue c'), false)
    ∧ nb_seen c' = {["c" := true]} ∧ NamedBarrier_IsAvailable c' = false.
Proof. apply barrier_same_step. discriminate. Defined.

(** An ephemeral value is consumed by its first reader.  In particular the
    values event after the writes of a superstep reads every channel, so an
    ephemeral value written in one superstep is gone before the tasks of the
    next one read their inputs. *)
Theorem ephemeral_consumed {MO : MapOrder} (r : gmap string Channel) k c :
  r !! k = Some (Plain (ChEphemeralValue c)) →
  ∃ c', (GetValues r).1 !! k = Some (Plain (ChEphemeralValue c')) ∧ ev_value c' = VMissing.
Proof.
  intros Hk. unfold GetValues.
  assert (H : ∀ l (r0 : gmap string Channel) acc, NoDup l.*1 →
    (values_loop r0 acc l).1 !! k =
      match list_to_map (M := gmap string Channel) l !! k with
      | Some ch => Some (ch_Get ch).1 | None => r0 !! k end).
  { induction l as [|[n ch] l IH]; intros r0 acc Hnd; [done|].
    apply NoDup_cons in Hnd as [Hni Hnd]. cbn [values_loop list_to_map foldr uncurry fst snd].
    destruct (ch_Get ch) as [ch' [v err]] eqn:Eg.
    assert (Hr : ∀ acc', (values_loop (<[n := ch']> r0) acc' l).1 !! k =
      match <[n := ch]> (list_to_map l : gmap string Channel) !! k with
      | Some ch => Some (ch_Get ch).1 | None => r0 !! k end).
    { intros acc'. rewrite IH by done. destruct (decide (n = k)) as [->|Hne].
      - rewrite (not_elem_of_list_to_map_1 l k) by done. by rewrite !lookup_insert_eq, Eg.
      - by rewrite !lookup_insert_ne by done. }
    destruct err as [e'|]; [|apply Hr]. by rewrite (law_get_err _ _ _ _ Eg). }
  rewrite H by apply range_NoDup. rewrite list_to_map_range, Hk. cbn. unfold keep. cbn.
  eexists. split; [done|]. unfold EphemeralValue_Get.
  destruct (IsMissing (ev_value c)) eqn:Em; [by apply IsMissing_true in Em|done].
Qed.

Lemma ephemeral_consumed_witness :
  ∃ c', (GetValues {["e" := Plain (ChEphemeralValue {| ev_base := new_base VNil;
           ev_value := VInt 1; ev_guard := true |})]}).1 !! "e" = Some (Plain (ChEphemeralValue c'))
    ∧ ev_value c' = VMissing.
Proof.
  apply (ephemeral_consumed _ "e" {| ev_base := new_base VNil; ev_value := VInt 1; ev_guard := true |}).
  reflexivity.
Defined.
