(* ===== verification/CheckpointProps.v ===== *)
(** * Properties of checkpoints, of the checkpoint manager and of the savers

    First what a checkpoint keeps when it is stored as JSON: [ToMap], a JSON round
    trip (as a saver does it) and [FromMap]. *)

From S2P Require Import Prelude GoValue Errors StateMap Channels Config Checkpoint.
From S2P Require Import CheckpointManager MemorySaver.

Local Open Scope Z_scope.

(** Text the encoder does not change, and integers float64 represents. *)
Definition utf8 (s : string) : Prop := utf8_fix s = s.
Definition small (z : Z) : Prop := Z.abs z < 2 ^ 53.

Lemma json_object_map {V} (g : V → option value) (f : V → value) (m : gmap string V) :
  utf8_keys m → (∀ k x, m !! k = Some x → g x = Some (f x)) →
  json_object (g <$> m) = Some (VMap (f <$> m)).
Proof.
  intros Hu Hg. rewrite <- json_object_total by done. f_equal. apply map_fmap_ext. naive_solver.
Qed.

Lemma json_int_small z : small z → json_int z = Some (VFloat (f64_of_int z)).
Proof. intros Hz. unfold json_int, json_float. by rewrite f64_of_int_finite. Qed.

Definition small_versions (m : gmap string Z) : Prop :=
  utf8_keys m ∧ map_Forall (λ _ z, small z) m.

Definition as_floats (m : gmap string Z) : gmap string value := (λ z, VFloat (f64_of_int z)) <$> m.

Lemma json_versions m : small_versions m → json_object (json_int <$> m) = Some (VMap (as_floats m)).
Proof.
  intros [Hu Hs]. apply json_object_map; [done|]. intros k x Hx. by apply json_int_small, (Hs k).
Qed.

(** ** The decoders *)

Lemma decode_versions_floats `{MapOrder} m :
  map_Forall (λ _ z, small z) m → decode_versions (as_floats m) = m.
Proof.
  intros Hs. unfold decode_versions.
  transitivity (omap (λ v, match v with VFloat f => Some (int_of_f64 f) | _ => None end) (as_floats m)).
  - rewrite <- decode_loop. generalize (range (as_floats m)) as l. intros l.
    generalize (∅ : gmap string Z) as acc. induction l as [|[k v] l IH]; intros acc; [done|].
    cbn [foldl fst snd]. rewrite IH. by destruct v.
  - apply map_eq. intros k. unfold as_floats. rewrite lookup_omap, lookup_fmap.
    destruct (m !! k) as [z|] eqn:Hk; [|done]. cbn. f_equal. apply f64_of_int_exact, (Hs k z Hk).
Qed.

Lemma decode_seen_floats `{MapOrder} (m : gmap string (gmap string Z)) :
  map_Forall (λ _ mi, small_versions mi) m →
  decode_seen_versions ((λ mi, VMap (as_floats mi)) <$> m) = m.
Proof.
  intros Hs. unfold decode_seen_versions.
  transitivity (omap (λ v, match v with VMap vm => Some (decode_versions vm) | _ => None end)
    ((λ mi, VMap (as_floats mi)) <$> m)).
  - rewrite <- decode_loop. generalize (range ((λ mi, VMap (as_floats mi)) <$> m)) as l. intros l.
    generalize (∅ : gmap string (gmap string Z)) as acc.
    induction l as [|[k v] l IH]; intros acc; [done|]. cbn [foldl fst snd]. rewrite IH. by destruct v.
  - apply map_eq. intros k. rewrite lookup_omap, lookup_fmap.
    destruct (m !! k) as [mi|] eqn:Hk; [|done]. cbn. f_equal.
    apply decode_versions_floats, (Hs k mi Hk).
Qed.

(** ** Pending writes *)

(** A pending write whose text and value JSON keeps; its time and task are not stored. *)
Definition storable_write (pw : PendingWrite) : Prop :=
  utf8 (pw_Channel pw) ∧ utf8 (pw_Node pw) ∧ json_rt (pw_Value pw) = Some (pw_Value pw)
  ∧ pw_Timestamp pw = zero_time ∧ pw_TaskID pw = "".

Lemma json_pw_map pw : storable_write pw → json_object (json_rt <$> pw_map pw) = Some (VMap (pw_map pw)).
Proof.
  intros (Hc & Hn & Hv & _ & _). rewrite <- (map_fmap_id (pw_map pw)) at 2.
  apply json_object_map.
  - unfold utf8_keys, pw_map. repeat (apply map_Forall_insert_2; [reflexivity|]).
    apply map_Forall_empty.
  - intros k x Hx. assert (map_Forall (λ _ x, json_rt x = Some x) (pw_map pw)) as Hf.
    { unfold pw_map. apply map_Forall_insert_2; [cbn; by rewrite Hc|].
      apply map_Forall_insert_2; [done|]. apply map_Forall_insert_2; [done|].
      apply map_Forall_singleton. cbn. by rewrite Hn. }
    by apply (Hf k).
Qed.

Lemma decode_pw_map pw : storable_write pw → decode_pending (VMap (pw_map pw)) = Some pw.
Proof.
  intros (_ & _ & _ & Ht & Hi). destruct pw as [ch v ow n t i]. cbn in Ht, Hi. subst. reflexivity.
Qed.

Lemma deepCopy_pending pws :
  Forall storable_write pws →
  deepCopy (VMapList (map pw_map pws)) = VList (map (λ pw, VMap (pw_map pw)) pws).
Proof.
  intros Hs. cbn [deepCopy json_rt].
  assert (mapM id (map (λ m : gmap string value, json_object (json_rt <$> m)) (map pw_map pws))
    = Some (map (λ pw, VMap (pw_map pw)) pws)) as ->; [|done].
  induction Hs as [|pw pws Hpw _ IH]; [done|]. cbn [map mapM]. rewrite (json_pw_map pw Hpw).
  cbn. by rewrite IH.
Qed.

Lemma decode_pending_list pws :
  Forall storable_write pws → omap decode_pending (map (λ pw, VMap (pw_map pw)) pws) = pws.
Proof.
  induction 1 as [|pw pws Hpw _ IH]; [done|]. cbn [map omap list_omap].
  by rewrite (decode_pw_map pw Hpw), IH.
Qed.

(** ** Metadata *)

Record storable_metadata (parse_time : string → option gotime) (md : CheckpointMetadata) : Prop := {
  sm_text : utf8 (md_ID md) ∧ utf8 (md_ParentID md) ∧ utf8 (md_ThreadID md) ∧ utf8 (md_Source md);
  sm_step : small (md_Step md);
  sm_time : utf8 (rfc3339 (md_CreatedAt md)) ∧ rfc3339 (md_CreatedAt md) ≠ ""
            ∧ parse_time (rfc3339 (md_CreatedAt md)) = Some (md_CreatedAt md);
  sm_custom : map_Forall (λ k v, reserved_md k = false ∧ plain v) (md_Metadata md);
}.

Lemma metadata_map_reserved `{MapOrder} parse_time md k :
  storable_metadata parse_time md → reserved_md k = true →
  metadata_map md !! k =
    ({[ "id" := VStr (md_ID md); "parent_id" := VStr (md_ParentID md);
       "thread_id" := VStr (md_ThreadID md); "step" := VInt (md_Step md);
       "created_at" := VStr (rfc3339 (md_CreatedAt md)); "source" := VStr (md_Source md) ]}
     : gmap string value) !! k.
Proof.
  intros [_ _ _ Hc] Hk. unfold metadata_map. rewrite copy_loop_spec, map_fmap_id.
  apply lookup_union_r. destruct (md_Metadata md !! k) eqn:E; [|done].
  apply Hc in E as [E _]. congruence.
Qed.

Lemma metadata_map_custom `{MapOrder} md k :
  reserved_md k = false → metadata_map md !! k = md_Metadata md !! k.
Proof.
  intros Hk. unfold metadata_map. rewrite copy_loop_spec, map_fmap_id.
  apply lookup_union_l. apply bool_decide_eq_false in Hk.
  rewrite !lookup_insert_ne, lookup_singleton_ne by set_solver. done.
Qed.

Lemma reserved_loop `{MapOrder} (m : gmap string value) k :
  foldl (λ r kv, if reserved_md kv.1 then r else <[kv.1 := kv.2]> r) (∅ : gmap string value)
    (range m) !! k
  = if reserved_md k then None else m !! k.
Proof.
  assert (Hl : ∀ l (acc : gmap string value), NoDup l.*1 →
    foldl (λ r kv, if reserved_md kv.1 then r else <[kv.1 := kv.2]> r) acc l !! k =
    if reserved_md k then acc !! k
    else match list_to_map (M := gmap string value) l !! k with
         | Some v => Some v | None => acc !! k end).
  { intros l. induction l as [|[n v] l IH]; intros acc Hnd; cbn [foldl].
    { by destruct (reserved_md k). }
    apply NoDup_cons in Hnd as [Hni Hnd]. rewrite IH by done.
    cbn [list_to_map foldr uncurry fst snd]. destruct (decide (k = n)) as [->|Hne].
    - rewrite (not_elem_of_list_to_map_1 l n), lookup_insert_eq by done.
      destruct (reserved_md n); [done|by rewrite lookup_insert_eq].
    - rewrite (lookup_insert_ne _ n k v) by done.
      destruct (reserved_md n); [done|]. by rewrite (lookup_insert_ne acc). }
  rewrite Hl by apply range_NoDup. rewrite list_to_map_range, lookup_empty.
  destruct (reserved_md k); [done|]. by destruct (m !! k).
Qed.

Lemma decode_metadata_copy `{MapOrder} parse_time md :
  storable_metadata parse_time md →
  decode_metadata parse_time (deepCopy <$> metadata_map md) = md.
Proof.
  intros Hs. pose proof Hs as [(H1 & H2 & H3 & H4) H5 (H6 & H7 & H8) H9].
  assert (Hg : ∀ k s, reserved_md k = true → utf8 s →
    metadata_map md !! k = Some (VStr s) → getString (deepCopy <$> metadata_map md) k = s).
  { intros k s _ Hu Hk. unfold getString. rewrite lookup_fmap, Hk. cbn. by rewrite Hu. }
  unfold decode_metadata.
  rewrite (Hg "id" (md_ID md)), (Hg "parent_id" (md_ParentID md)), (Hg "thread_id" (md_ThreadID md)),
    (Hg "source" (md_Source md)), (Hg "created_at" (rfc3339 (md_CreatedAt md)))
    by (done || (rewrite (metadata_map_reserved parse_time) by done; reflexivity)).
  rewrite decide_False by done. rewrite H8.
  assert (getInt (deepCopy <$> metadata_map md) "step" 0 = md_Step md) as ->.
  { unfold getInt. rewrite lookup_fmap, (metadata_map_reserved parse_time) by done.
    rewrite !lookup_insert_ne, lookup_insert_eq by done. cbn. rewrite json_int_small by done.
    by apply f64_of_int_exact. }
  destruct md as [i p t s c src custom]; cbn in *. f_equal.
  apply map_eq. intros k. rewrite reserved_loop. destruct (reserved_md k) eqn:Ek.
  - destruct (custom !! k) eqn:E; [|done]. apply H9 in E as [E _]. congruence.
  - rewrite lookup_fmap, metadata_map_custom by done. cbn.
    destruct (custom !! k) as [v|] eqn:E; [|done]. cbn. f_equal. apply deepCopy_id.
    by apply H9 in E as [_ ?].
Qed.


(** ** Storage format *)

(** A checkpoint that the storage format can represent. *)
Record storable (parse_time : string → option gotime) (c : Checkpoint) : Prop := {
  so_text : utf8 (cp_ID c) ∧ utf8 (cp_ParentID c);
  so_version : small (cp_Version c);
  so_versions : small_versions (cp_ChannelVersions c);
  so_seen : utf8_keys (cp_VersionsSeen c)
            ∧ map_Forall (λ _ mi, small_versions mi) (cp_VersionsSeen c);
  so_state : map_Forall (λ _ v, plain v) (cp_State c);
  so_pending : Forall storable_write (cp_PendingWrites c);
  so_metadata : storable_metadata parse_time (cp_Metadata c);
}.

(** A checkpoint survives storage: converted with [ToMap], copied through
    JSON as the savers do, and converted back with [FromMap], it is the same
    checkpoint, provided its integers are below 2^53 in magnitude, its text is
    UTF-8, its values are JSON trees, custom metadata uses no reserved key, and
    the times of pending writes, which are not stored, are unset. *)
Theorem checkpoint_roundtrip {MO : MapOrder} parse_time c :
  storable parse_time c → FromMap parse_time (deepCopyMap (ToMap c)) = c.
Proof.
  intros [[Hi Hp] Hv [Hcu Hcs] [Hsu Hss] Hst Hpw Hmd].
  rewrite deepCopyMap_fmap. unfold FromMap, getString, getInt. rewrite !lookup_fmap.
  assert (Hl : ToMap c !! "id" = Some (VStr (cp_ID c)) ∧ ToMap c !! "version" = Some (VInt (cp_Version c))
    ∧ ToMap c !! "parent_id" = Some (VStr (cp_ParentID c))
    ∧ ToMap c !! "channel_versions" = Some (VMapInt (cp_ChannelVersions c))
    ∧ ToMap c !! "versions_seen" = Some (VMapMapInt (cp_VersionsSeen c))
    ∧ ToMap c !! "state" = Some (VMap (deepCopy <$> cp_State c))
    ∧ ToMap c !! "pending_writes" = Some (VMapList (map pw_map (cp_PendingWrites c)))
    ∧ ToMap c !! "metadata" = Some (VMap (metadata_map (cp_Metadata c)))).
  { unfold ToMap. rewrite copy_loop_id, !copy_loop_empty.
    assert ((λ m : gmap string Z, copy_loop id m ∅) <$> cp_VersionsSeen c = cp_VersionsSeen c) as ->.
    { rewrite <- (map_fmap_id (cp_VersionsSeen c)) at 2. apply map_fmap_ext.
      intros k x _. apply copy_loop_id. }
    split_and!; reflexivity. }
  destruct Hl as (-> & -> & -> & -> & -> & -> & -> & ->). cbn [fmap option_fmap option_map].
  cbn [deepCopy json_rt]. rewrite Hi, Hp, (json_int_small _ Hv), json_versions by done.
  rewrite (json_object_map _ (λ mi, VMap (as_floats mi))) by
    (done || (intros k mi Hmi; apply json_versions, (Hss k mi Hmi))).
  change (match json_object _ with Some result => result | None => VNil end) with VNil || idtac.
  pose proof (deepCopy_pending _ Hpw) as Hd. cbn [deepCopy json_rt] in Hd. rewrite Hd.
  rewrite decode_pending_list, decode_versions_floats, decode_seen_floats, decode_metadata_copy by done.
  rewrite f64_of_int_exact by done.
  rewrite copy_loop_empty, <- !map_fmap_compose.
  assert ((deepCopy ∘ deepCopy ∘ deepCopy) <$> cp_State c = cp_State c) as Hcp.
  { rewrite <- (map_fmap_id (cp_State c)) at 2. apply map_fmap_ext. intros k v Hk.
    unfold compose. by rewrite !deepCopy_idem, deepCopy_id by (by eapply Hst). }
  unfold compose in *. rewrite Hcp. by destruct c.
Qed.

Definition demo_time : gotime := GoTime 0 "1970-01-01T00:00:00Z".
Definition demo_checkpoint : Checkpoint :=
  {| cp_ID := "c1"; cp_Version := 0; cp_ParentID := ""; cp_ChannelVersions := {["x" := 1]};
     cp_VersionsSeen := {["node" := {["x" := 1]}]}; cp_State := {["x" := VStr "hello"]};
     cp_PendingWrites := [{| pw_Channel := "x"; pw_Value := VStr "hello"; pw_Overwrite := false;
                             pw_Node := "node"; pw_Timestamp := zero_time; pw_TaskID := "" |}];
     cp_Metadata := {| md_ID := "c1"; md_ParentID := ""; md_ThreadID := "t1"; md_Step := 3;
                       md_CreatedAt := demo_time; md_Source := SourceNode; md_Metadata := ∅ |} |}.

Lemma demo_storable : storable (λ _, Some demo_time) demo_checkpoint.
Proof.
  split.
  - split; reflexivity.
  - reflexivity.
  - split; [by apply map_Forall_singleton|]. apply map_Forall_singleton. reflexivity.
  - split; [by apply map_Forall_singleton|]. apply map_Forall_singleton.
    split; [by apply map_Forall_singleton|]. apply map_Forall_singleton. reflexivity.
  - apply map_Forall_singleton. by constructor.
  - apply Forall_singleton. split_and!; reflexivity.
  - split; [split_and!; reflexivity|reflexivity|split_and!; (reflexivity || discriminate)|].
    apply map_Forall_empty.
Qed.

Lemma checkpoint_roundtrip_witness :
  FromMap (H := order_fwd) (λ _, Some demo_time) (deepCopyMap (H := order_fwd) (ToMap (H := order_fwd) demo_checkpoint))
  = demo_checkpoint.
Proof. apply checkpoint_roundtrip. exact demo_storable. Defined.

(** ** deepCopy *)

(** [deepCopy] is a projection onto JSON trees: its result is always such
    a tree, and copying a tree, in particular copying again, changes nothing. *)
Theorem deepCopy_projection v :
  plain (deepCopy v) ∧ deepCopy (deepCopy v) = deepCopy v ∧ (plain v → deepCopy v = v).
Proof. split; [apply deepCopy_plain|]. split; [apply deepCopy_idem|apply deepCopy_id]. Qed.

(** ** The manager *)

(** C39: [PutWrites] is a compare-and-swap on the identifier of the latest
    checkpoint of the thread.  It succeeds exactly when the caller names the
    thread and that identifier; then the history grows by one checkpoint whose
    parent is the old one, whose version is the next one, whose state is the
    old state (as JSON sees it) with the last value written to each channel,
    and the other threads are not affected. *)
Theorem putWrites_cas {MO : MapOrder} fresh cm config writes :
  ((∃ cm', PutWrites fresh cm config writes = inr cm') ↔
   ThreadID config ≠ "" ∧ GetOrEmpty config "checkpoint_id" ≠ ""
   ∧ Some (GetOrEmpty config "checkpoint_id") = cp_ID <$> last (history cm (ThreadID config)))
  ∧ ∀ cm', PutWrites fresh cm config writes = inr cm' →
    ∃ current new,
      last (history cm (ThreadID config)) = Some current
      ∧ history cm' (ThreadID config) = history cm (ThreadID config) ++ [new]
      ∧ cp_ID new = fresh.1 ∧ cp_ParentID new = cp_ID current
      ∧ cp_Version new = int_add (cp_Version current) 1
      ∧ (∀ ch, cp_State new !! ch = match last_write writes ch with
               | Some v => Some v | None => deepCopy <$> cp_State current !! ch end)
      ∧ (∀ t, t ≠ ThreadID config → history cm' t = history cm t).
Proof.
  split.
  - unfold PutWrites. destruct (last (history cm (ThreadID config))) as [current|]; cbn.
    + repeat case_decide; split; try (intros [? Hx]; discriminate Hx);
        try (intros (? & ? & [= ?]); congruence); [|eauto].
      intros _. split_and!; [done..|]. congruence.
    + repeat case_decide; split; try (intros [? Hx]; discriminate Hx);
        intros (? & ? & Hx); done.
  - intros cm' (current & Hl & Ht & Hne & Hc & ->)%PutWrites_inr.
    exists current, (put_result fresh current writes).
    destruct (put_result_lineage fresh current writes) as [Hv Hp].
    split_and!; try done.
    + apply history_set.
    + apply put_result_ID.
    + intros ch. unfold put_result. rewrite put_writes_state. destruct (last_write writes ch); [done|].
      cbn. by rewrite copy_loop_empty, lookup_fmap.
    + intros t Hne'. by apply history_set_ne.
Qed.

Definition saved (c : Checkpoint) : CheckpointManager :=
  match Save (NewCheckpointManager 0) c with inr cm => cm | inl _ => NewCheckpointManager 0 end.

Lemma putWrites_cas_witness :
  ∃ cm', PutWrites (H := order_fwd) ("c2", demo_time) (saved demo_checkpoint)
           (checkpoint_config "t1" "c1") [] = inr cm'
    ∧ ∃ new, history cm' "t1" = history (saved demo_checkpoint) "t1" ++ [new] ∧ cp_ID new = "c2".
Proof.
  destruct (PutWrites (H := order_fwd) ("c2", demo_time) (saved demo_checkpoint)
           (checkpoint_config "t1" "c1") []) as [err|cm'] eqn:E;
    [exfalso; vm_compute in E; discriminate|].
  exists cm'. split; [reflexivity|].
  destruct (proj2 (putWrites_cas _ _ _ _) _ E) as (current & new & _ & Hh & Hi & _).
  exists new. exact (conj Hh Hi).
Defined.

(** Of two writers that loaded the same checkpoint only the first one
    commits: the second is refused with a version conflict that names the new
    version, and the manager is left as the first writer made it. *)
Theorem second_writer_conflicts {MO : MapOrder} fresh1 fresh2 cm config writes1 writes2 cm1 :
  PutWrites fresh1 cm config writes1 = inr cm1 → fresh1.1 ≠ GetOrEmpty config "checkpoint_id" →
  ∃ current, last (history cm (ThreadID config)) = Some current
    ∧ PutWrites fresh2 cm1 config writes2
      = inl (VersionConflictError (int_add (cp_Version current) 1)
               (int_add (int_add (cp_Version current) 1) 1) fresh1.1 (ThreadID config)).
Proof.
  intros (current & Hl & Ht & Hne & Hc & ->)%PutWrites_inr Hfresh. exists current. split; [done|].
  destruct (put_result_lineage fresh1 current writes1) as [Hv _].
  unfold PutWrites. rewrite decide_False by done. rewrite history_set, last_snoc, Hc.
  rewrite decide_False by done. rewrite put_result_ID, Hv.
  rewrite decide_True by (by rewrite <- Hc). done.
Qed.

Lemma second_writer_conflicts_witness :
  ∃ cm1, PutWrites (H := order_fwd) ("c2", demo_time) (saved demo_checkpoint)
           (checkpoint_config "t1" "c1") [] = inr cm1
    ∧ PutWrites (H := order_fwd) ("c3", demo_time) cm1 (checkpoint_config "t1" "c1") []
      = inl (VersionConflictError 1 2 "c2" "t1").
Proof.
  destruct (PutWrites (H := order_fwd) ("c2", demo_time) (saved demo_checkpoint)
           (checkpoint_config "t1" "c1") []) as [err|cm1] eqn:E;
    [exfalso; vm_compute in E; discriminate|].
  exists cm1. split; [reflexivity|].
  destruct (second_writer_conflicts _ ("c3", demo_time) _ _ _ [] _ E ltac:(discriminate))
    as (current & Hl & Hc).
  vm_compute in Hl. injection Hl as <-. exact Hc.
Defined.

(** C40: along every interleaving of saves, writes and clears by any callers,
    the history of each thread is a chain: a declared parent is the
    predecessor, and a positive version is the predecessor's plus one. *)
Theorem history_is_chain {MO : MapOrder} n cm t :
  rtc mstep (NewCheckpointManager n) cm → chain (history cm t).
Proof. intros H. apply (msteps_ok _ _ H (NewCheckpointManager_ok n)). Qed.

Lemma history_is_chain_witness :
  rtc (mstep (H := order_fwd)) (NewCheckpointManager 0) (saved demo_checkpoint)
  ∧ chain (history (saved demo_checkpoint) "t1").
Proof.
  assert (Hs : rtc (mstep (H := order_fwd)) (NewCheckpointManager 0) (saved demo_checkpoint)).
  { eapply rtc_once, (mstep_save _ demo_checkpoint); [vm_compute; split; discriminate|reflexivity]. }
  exact (conj Hs (history_is_chain _ _ _ Hs)).
Defined.

(** A successful [Save] leaves at most [maxVersions] checkpoints in its
    thread, and the saved one is the last of them. *)
Theorem save_bounds_history cm c cm' :
  Save cm c = inr cm' → 0 < cm_maxVersions cm →
  Z.of_nat (length (history cm' (md_ThreadID (cp_Metadata c)))) ≤ cm_maxVersions cm
  ∧ last (history cm' (md_ThreadID (cp_Metadata c))) = Some c.
Proof.
  intros Hs Hm. set (t := md_ThreadID (cp_Metadata c)).
  assert (cm' = set_history cm t (keep_last (cm_maxVersions cm) (history cm t ++ [c]))) as ->.
  { unfold Save in Hs. fold t in Hs. destruct (last (history cm t)); [destruct (save_conflict _ _)|];
      by simplify_eq. }
  rewrite history_set. split; [apply keep_last_length; lia|].
  destruct (keep_last_snoc (cm_maxVersions cm) (history cm t) c Hm) as [k ->]. apply last_snoc.
Qed.

Lemma save_bounds_history_witness :
  Z.of_nat (length (history (saved demo_checkpoint) "t1")) ≤ 100
  ∧ last (history (saved demo_checkpoint) "t1") = Some demo_checkpoint.
Proof. exact (save_bounds_history (NewCheckpointManager 0) demo_checkpoint _ eq_refl eq_refl). Defined.

(** The identifier of a loaded checkpoint cannot be used to write: [Load]
    returns a clone with a fresh identifier, and [PutWrites] with that
    identifier is refused as a conflict although nobody else wrote. *)
Theorem load_then_put_conflicts {MO : MapOrder} fresh fresh' cm t c writes :
  Load fresh cm t = Some c → t ≠ "" → cp_ID c ≠ "" →
  (∀ current, last (history cm t) = Some current → cp_ID current ≠ cp_ID c) →
  ∃ err, PutWrites fresh' cm (checkpoint_config t (cp_ID c)) writes = inl err
    ∧ match err with VersionConflictError _ _ _ _ => True | _ => False end.
Proof.
  unfold Load. destruct (last (history cm t)) as [current|] eqn:E; [|done]. cbn.
  intros [= <-] Ht Hne Hfresh. specialize (Hfresh current eq_refl).
  eexists. unfold PutWrites. cbn [ThreadID checkpoint_config Config_Set WithThreadID].
  rewrite decide_False by done. rewrite E. unfold checkpoint_config. rewrite GetOrEmpty_Set.
  rewrite decide_False by done. rewrite decide_True by auto. by split.
Qed.

Lemma load_then_put_conflicts_witness :
  ∃ c err, Load (H := order_fwd) (λ _, ("clone", demo_time)) (saved demo_checkpoint) "t1" = Some c
    ∧ PutWrites (H := order_fwd) ("c2", demo_time) (saved demo_checkpoint)
        (checkpoint_config "t1" (cp_ID c)) [] = inl err.
Proof.
  destruct (Load (H := order_fwd) (λ _, ("clone", demo_time)) (saved demo_checkpoint) "t1") as [c|] eqn:E;
    [|exfalso; vm_compute in E; discriminate].
  assert (Hid : cp_ID c = "clone") by (vm_compute in E; injection E as <-; reflexivity).
  destruct (load_then_put_conflicts _ ("c2", demo_time) _ _ _ [] E) as (err & He & _).
  - discriminate.
  - rewrite Hid. discriminate.
  - rewrite Hid. intros current Hl. vm_compute in Hl. injection Hl as <-. discriminate.
  - exists c, err. exact (conj eq_refl He).
Defined.

(** ** Savers *)

(** C29: [MemorySaver] implements the checkpointer's contract: with a thread in
    the configuration putting never fails, what is then read back for the
    thread is the checkpoint put, as JSON sees it, and the other threads are
    not affected. *)
Theorem memory_saver_correct {MO : MapOrder} fresh s config cp t :
  cfg_string config ConfigKeyThreadID = Some t →
  ∃ s', Memory_Put fresh s config cp = inr s'
    ∧ Memory_Get s' {[ConfigKeyThreadID := VStr t]} = inr (Some (deepCopyMap cp))
    ∧ (∀ t', t' ≠ t → Memory_Get s' {[ConfigKeyThreadID := VStr t']}
                     = Memory_Get s {[ConfigKeyThreadID := VStr t']}).
Proof.
  intros Ht. destruct (ckpt_put_total (S := MemorySaver) fresh s config cp) as [s' Hs]; [by rewrite Ht|].
  exists s'. split; [done|]. split.
  - change (ckpt_Get s' {[ConfigKeyThreadID := VStr t]} = inr (Some (deepCopyMap cp))).
    apply (ckpt_get_put fresh s config cp); [exact Hs|by rewrite Ht|done].
  - intros t' Hne. change (ckpt_Get s' {[ConfigKeyThreadID := VStr t']}
      = ckpt_Get s {[ConfigKeyThreadID := VStr t']}).
    apply (ckpt_get_put_ne fresh s config cp); [exact Hs|].
    rewrite Ht. unfold cfg_string. rewrite lookup_singleton_eq. congruence.
Qed.

Definition t1_config : gmap string value := {[ConfigKeyThreadID := VStr "t1"]}.

Lemma memory_saver_correct_witness :
  ∃ s', Memory_Put (H := order_fwd) ("id", demo_time) NewMemorySaver t1_config {["n" := VInt 5]}
        = inr s'
    ∧ Memory_Get (H := order_fwd) s' t1_config
      = inr (Some (deepCopyMap (H := order_fwd) {["n" := VInt 5]})).
Proof.
  destruct (memory_saver_correct (MO := order_fwd) ("id", demo_time) NewMemorySaver
    t1_config {["n" := VInt 5]} "t1" eq_refl) as (s' & H1 & H2 & _).
  exists s'. exact (conj H1 H2).
Defined.
