(* ===== verification/GraphProps.v ===== *)
(** * Properties of channels, of the registry, of state maps, and of validation and compilation *)

From S2P Require Import Prelude GoValue Errors StateMap ValueChannels Channels.
From S2P Require Import Registry Config MemorySaver Retry StateGraph GraphCompile Scheduling Writes.
From S2P Require Import Execution Engine EngineLemmas.

Local Open Scope Z_scope.

(** What an aggregating channel computes: plain values are folded into
    the current value from the left (the first one starts an empty channel);
    one overwrite among them replaces everything, before and after it. *)
Theorem binop_update_spec c first rest :
  (Forall (λ v, isOverwrite v = None) (first :: rest) →
   ∃ c', BinOp_Update c (first :: rest) = (c', (true, None)) ∧
     bo_value c' = if IsMissing (bo_value c) then foldl (bo_operator c) first rest
                   else foldl (bo_operator c) (bo_value c) (first :: rest))
  ∧ (∀ pre ow w post, first :: rest = pre ++ ow :: post → IsMissing (bo_value c) = false →
     Forall (λ v, isOverwrite v = None) pre → isOverwrite ow = Some w →
     Forall (λ v, isOverwrite v = None) post →
     ∃ c', BinOp_Update c (first :: rest) = (c', (true, None)) ∧ bo_value c' = w).
Proof.
  split.
  - intros Hv. unfold BinOp_Update. destruct (IsMissing (bo_value c)).
    + apply Forall_cons in Hv as [_ Hv]. rewrite binop_loop_fold by done. by eexists.
    + rewrite binop_loop_fold by done. by eexists.
  - intros pre ow w post Heq Hm Hpre How Hpost. unfold BinOp_Update. rewrite Hm, Heq.
    rewrite (binop_loop_overwrite _ _ _ _ w) by done. by eexists.
Qed.

(** A named barrier refines a set: from creation and along any sequence of
    updates, consumptions and finishes it remembers exactly the awaited names
    delivered since it last opened, and it is available exactly when all of
    them have been delivered. *)
Theorem barrier_refines_set {MO : MapOrder} typ waitFor ops :
  let c := foldl barrier_step (NewNamedBarrierValue typ waitFor) ops in
  let R := foldl (barrier_spec_step (list_to_set waitFor)) ∅ ops in
  dom (nb_seen c) = R ∧ (NamedBarrier_IsAvailable c = true ↔ R = list_to_set waitFor).
Proof.
  intros c R. destruct (barrier_run_ok ops _ (new_barrier_ok typ waitFor)) as (Hok & Hn & Hd).
  fold c in Hok, Hn, Hd. cbn [nb_names nb_seen NewNamedBarrierValue] in Hn, Hd.
  rewrite name_set_dom, dom_empty_L in Hd. fold R in Hd. split; [done|].
  unfold NamedBarrier_IsAvailable. rewrite namesMatchSeen_spec by apply Hok.
  by rewrite Hn, Hd, name_set_dom.
Qed.

(** Restoring a registry from its own checkpoint never fails and gives a
    registry with the same checkpoint, for every implementation of the channel
    interface that satisfies its laws (all channels of the package do). *)
Theorem registry_roundtrip {MO : MapOrder} {C} `{CO : !ChannelOps C} `{CL : !ChannelLaws C}
    (r : gmap string C) :
  (RestoreFromCheckpoint r (CreateCheckpoint r)).2 = None ∧
  CreateCheckpoint (RestoreFromCheckpoint r (CreateCheckpoint r)).1 = CreateCheckpoint r.
Proof. apply registry_restore. Qed.

(** An aggregate, a last value, and a barrier with one name delivered. *)
Definition demo_registry : gmap string Channel :=
  {["count" := Plain (ChBinaryOperatorAggregate
      {| bo_base := new_base (VInt 0); bo_value := VInt 5; bo_operator := IntAdd |});
    "join" := Plain (ChNamedBarrierValue
      (NamedBarrier_Update (NewNamedBarrierValue (VStr "") ["a"; "b"]) [VStr "a"]).1);
    "last" := Plain (ChLastValue (LastValue_Update (NewLastValue VNil) [VStr "x"]).1)]}.

#[local] Existing Instance order_fwd.

Lemma registry_roundtrip_witness :
  (RestoreFromCheckpoint (MO := order_fwd) demo_registry
     (CreateCheckpoint (MO := order_fwd) demo_registry)).2 = None
  ∧ size (CreateCheckpoint (MO := order_fwd) demo_registry) = 3%nat.
Proof.
  split; [|vm_compute; reflexivity].
  exact (proj1 (registry_roundtrip (MO := order_fwd) demo_registry)).
Defined.

(** An int counter does not survive a resume from a JSON checkpoint: it
    comes back as a float, and from then on every int added to it is silently
    dropped. *)
Theorem int_counter_frozen_after_resume c n m :
  Z.abs n < 2 ^ 53 → bo_operator c = IntAdd → bo_value c = VInt n →
  let c1 := BinOp_FromCheckpoint c (deepCopy (BinOp_Checkpoint c)) in
  let r := BinOp_Update c1 [VInt m] in
  bo_value c1 = VFloat (f64_of_int n) ∧ bo_value r.1 = VFloat (f64_of_int n) ∧ r.2 = (true, None).
Proof.
  intros Hn Ho Hv. unfold BinOp_Checkpoint. rewrite Hv. cbn [deepCopy json_rt].
  unfold json_int, json_float. rewrite f64_of_int_finite by done.
  unfold BinOp_FromCheckpoint, BinOp_Update. cbn. rewrite Ho. done.
Qed.

Lemma int_counter_frozen_after_resume_witness :
  let c := {| bo_base := new_base (VInt 0); bo_value := VInt 5; bo_operator := IntAdd |} in
  bo_value (BinOp_Update (BinOp_FromCheckpoint c (deepCopy (BinOp_Checkpoint c))) [VInt 1]).1
  = VFloat (f64_of_int 5).
Proof.
  intros c. apply (int_counter_frozen_after_resume c 5 1); reflexivity.
Defined.

(** Field mapping writes what it is told: a nested assignment succeeds
    exactly when every proper prefix of the path is absent or a map (otherwise
    it panics); then reading the path gives the value back, and the other top
    level keys are not affected. *)
Theorem nested_field_set_get {MO : MapOrder} m path val :
  path ≠ "" →
  ((∃ m', setNestedField m path val = Ret m') ↔ walkable m (split_on dot path) = true)
  ∧ ∀ m', setNestedField m path val = Ret m' →
      (val ≠ VNil → getNestedField m' path = val)
      ∧ ∀ k, Some k ≠ head (split_on dot path) → m' !! k = m !! k.
Proof.
  intros Hp. unfold setNestedField, getNestedField. rewrite !decide_False by done.
  split; [apply set_parts_total|]. intros m' Hs. split.
  - rewrite decide_False by done. by apply (set_parts_get m).
  - intros k Hk. destruct (split_on dot path) as [|p rest] eqn:E.
    { by apply split_on_not_nil in E. }
    eapply set_parts_frame; [exact Hs|]. cbn in Hk. congruence.
Qed.

Lemma nested_field_set_get_witness :
  ∃ m', setNestedField (H := order_fwd) {["a" := VMap {["b" := VInt 1]}]} "a.c" (VInt 2) = Ret m'
    ∧ getNestedField m' "a.c" = VInt 2.
Proof.
  destruct (nested_field_set_get (MO := order_fwd) {["a" := VMap {["b" := VInt 1]}]} "a.c" (VInt 2)
    ltac:(discriminate)) as [H1 H2].
  destruct (proj2 H1 eq_refl) as [m' Hm]. exists m'. split; [exact Hm|].
  apply (H2 m' Hm). discriminate.
Defined.

(** ** Validation and compilation *)

Close Scope Z_scope.

(** The breadth-first search terminates, and it returns exactly the nodes
    that a path of regular and conditional edges leads to from the entry point
    (edges to the end, and conditional targets that are not nodes, lead
    nowhere). *)
Theorem computeReachable_spec {W} {MO : MapOrder} (g : stateGraph W) :
  ∃ R, computeReachable g = Some R ∧
    ∀ x, x ∈ R ↔ g_entryPoint g ≠ "" ∧ rtc (leads_to g) (g_entryPoint g) x.
Proof. apply computeReachable_some. Qed.

(** Compilation accepts a graph exactly when it has an entry and a finish
    point, every node is reachable from the entry, and the state schema is
    valid; the channels of the schema are then always configured. *)
Theorem compile_iff_valid {W} {MO : MapOrder} {CK} (g : stateGraph W)
    (opts : list (CompileOption (CK := CK))) :
  (∃ cg, Compile g opts = inr cg) ↔
  g_entryPoint g ≠ "" ∧ g_finishPoints g ≠ []
  ∧ (∀ n, is_Some (g_nodes g !! n) → rtc (leads_to g) (g_entryPoint g) n)
  ∧ ∃ infos, validateStateSchema (g_stateSchema g) = inr infos.
Proof.
  rewrite <- Validate_None. unfold Compile, configureChannelsFromSchema. split.
  - intros [cg Hc]. by destruct (Validate g).
  - intros Hv. rewrite Hv. apply Validate_None in Hv as (_ & _ & _ & infos & ->).
    destruct (foldl _ _ _) as [chs reds]. eauto.
Qed.

(** A successful compilation overwrites the trigger mode of the graph: a
    mode set on the builder before has no effect, only the compile option
    counts (and the default is any-predecessor). *)
Theorem compile_trigger_mode {W} {MO : MapOrder} {CK} (g : stateGraph W) mode
    (cg cg' : compiledGraph W CK) :
  Compile (SetNodeTriggerMode mode g) [] = inr cg → Compile g [] = inr cg' →
  g_NodeTriggerMode (cg_graph cg) = NodeTriggerAnyPredecessor
  ∧ g_NodeTriggerMode (cg_graph cg') = NodeTriggerAnyPredecessor.
Proof.
  unfold Compile. destruct (Validate _); [done|]. destruct (configureChannelsFromSchema _); [done|].
  intros [= <-]. destruct (Validate g); [done|]. destruct (configureChannelsFromSchema g); [done|].
  by intros [= <-].
Qed.

Lemma compile_trigger_mode_witness :
  ∃ cg cg' : compiledGraph unit MemorySaver,
    Compile (SetNodeTriggerMode NodeTriggerAllPredecessor diamond) [] = inr cg
    ∧ Compile diamond [] = inr cg'
    ∧ g_NodeTriggerMode (cg_graph cg) = NodeTriggerAnyPredecessor.
Proof.
  destruct (Compile (CK := MemorySaver) (SetNodeTriggerMode NodeTriggerAllPredecessor diamond) [])
    as [err|cg] eqn:E1; [exfalso; vm_compute in E1; discriminate|].
  destruct (Compile (CK := MemorySaver) diamond []) as [err|cg'] eqn:E2;
    [exfalso; vm_compute in E2; discriminate|].
  exists cg, cg'. split; [reflexivity|]. split; [reflexivity|].
  exact (proj1 (compile_trigger_mode _ _ _ _ E1 E2)).
Defined.

(** In the all-predecessors mode conditional edges do not guard their
    targets: a node that only conditional edges lead to is ready, and is
    scheduled, as soon as the entry node is completed, whatever the condition
    says. *)
Theorem dag_ignores_conditions {W} {MO : MapOrder} sprint ids (g : stateGraph W) registry completed
    lastNode state w n :
  g_NodeTriggerMode g = NodeTriggerAllPredecessor → well_named g →
  completed ≠ ∅ → is_Some (g_nodes g !! n) → completed !! n ≠ Some true →
  (∀ ed, ed ∈ g_edges g → e_To ed ≠ n) →
  ∃ tasks triggers,
    prepareNextTasks sprint ids g registry completed lastNode state w = (inr (tasks, triggers), w)
    ∧ n ∈ map t_Name tasks.
Proof.
  intros Hm Hw Hc Hn Hnc Hed. unfold prepareNextTasks, prepareNextTasksWithMode.
  rewrite decide_False by (by intros ?%map_size_empty_iff). rewrite decide_True by done.
  destruct (dag_names ids g completed true Hw) as (l & Hl & _ & Hr).
  destruct (prepareNextTasksDAG ids g completed true) as [tasks triggers].
  exists tasks, triggers. split; [done|]. cbn in Hl. rewrite Hl. apply Hr.
  split; [done|]. split; [done|]. intros ed Hin Hto. by destruct (Hed ed Hin).
Qed.

(** start -> a -> end, and a conditional edge from a to yes or no. *)
Definition switch_graph : stateGraph unit :=
  let g := SetNodeTriggerMode NodeTriggerAllPredecessor
    (edge "a" End_ (edge Start "a"
      (AddNode (AddNode (AddNode (NewStateGraph (SchemaMap true)) "no" None) "yes" None) "a" None))) in
  or_graph (AddConditionalEdges g "a" (λ _ w, ((VStr "y", None), w)) {["y" := "yes"; "n" := "no"]}) g.

Lemma dag_ignores_conditions_witness :
  ∃ tasks triggers,
    prepareNextTasks (sprint demo_env) (λ _, "") switch_graph ∅ {["a" := true]} "a" VNil ()
    = (inr (tasks, triggers), ())
    ∧ "no" ∈ map t_Name tasks.
Proof.
  apply dag_ignores_conditions; [reflexivity| |discriminate|vm_compute; eauto|discriminate|].
  - unfold well_named. apply map_Forall_to_list. vm_compute. repeat constructor.
  - assert (Forall (λ ed, e_To ed ≠ "no") (g_edges switch_graph)) as H
      by (apply (bool_decide_unpack _); vm_compute; exact I).
    intros ed Hin. rewrite Forall_forall in H. by apply H.
Defined.
