(* ===== verification/RuntimeProps.v ===== *)
(** * Properties of the retry executors, the store, the node cache, the worker pool, the pipeline
    and the priority queue *)

From S2P Require Import Prelude GoValue Errors Retry StateGraph Store Cache PriorityQueue.
From S2P Require Import AsyncExecutor.
From stdpp Require Import list_numbers.

Local Open Scope Z_scope.

(** The executor makes at most [MaxAttempts] calls of the node function,
    whatever the function returns; the calls are counted in the world. *)
Theorem retry_attempts_bound {W} (fn : W → outcome * W) wait rnd name (calls : W → Z) policy w :
  (∀ w, calls (fn w).2 = calls w + 1) → (∀ d w, calls (wait d w).2 = calls w) →
  calls w ≤ calls (Execute fn wait rnd name (Some policy) w).2
          ≤ calls w + Z.max 0 (MaxAttempts policy).
Proof.
  intros Hf Hw. unfold Execute. change (default DefaultRetryPolicy (Some policy)) with policy.
  pose proof (execute_loop_calls fn wait rnd name calls Hf Hw policy
    (Z.to_nat (MaxAttempts policy)) 1 None VNil w). lia.
Qed.

(** A function that always fails, and counts its calls. *)
Definition failing (err : error) : Z → outcome * Z := λ n, (Returns VNil (Some err), n + 1).
Definition no_wait : Z → Z → option error * Z := λ _ n, (None, n).
Definition no_rnd : Z → float64 := λ _, f64_of_int 0.

Lemma retry_attempts_bound_witness :
  0 ≤ (Execute (failing (Errorf "x")) no_wait no_rnd "n" (Some DefaultRetryPolicy) 0).2 ≤ 0 + Z.max 0 3.
Proof.
  apply (retry_attempts_bound (failing (Errorf "x")) no_wait no_rnd "n" (λ n, n) DefaultRetryPolicy 0);
    reflexivity.
Defined.

(** The outcome of a run of a scripted function: the [i]-th call, from 0,
    behaves as the script says. *)
Definition scripted (script : Z → outcome) : Z → outcome * Z := λ i, (script i, i + 1).

(** A failure that the policy retries. *)
Definition retries (p : RetryPolicy) (o : outcome) : Prop :=
  ∃ out err, o = Returns out (Some err) ∧ IsGraphInterrupt (Some err) = false
             ∧ retryable p err = true.

(** Retries are transparent: when the first [k] calls fail with errors
    the policy retries and the next call succeeds within [MaxAttempts], the
    result is that success, after exactly [k + 1] calls. *)
Theorem retry_first_success script rnd name p k out :
  Z.of_nat k < MaxAttempts p →
  (∀ i, 0 ≤ i < Z.of_nat k → retries p (script i)) → script (Z.of_nat k) = Returns out None →
  Execute (scripted script) no_wait rnd name (Some p) 0 = ((out, None), Z.of_nat k + 1).
Proof.
  intros Hk Hfail Hok. unfold Execute. change (default DefaultRetryPolicy (Some p)) with p.
  assert (H : ∀ n j le lo, Z.of_nat j + Z.of_nat n = MaxAttempts p → (j ≤ k)%nat →
    execute_loop (scripted script) no_wait rnd name p n (Z.of_nat j + 1) le lo (Z.of_nat j)
    = ((out, None), Z.of_nat k + 1)).
  { induction n as [|n IH]; intros j le lo Hn Hj; [lia|]. cbn [execute_loop scripted].
    destruct (decide (j = k)) as [->|Hne]; [by rewrite Hok|].
    destruct (Hfail (Z.of_nat j) ltac:(lia)) as (o & err & -> & Hi & Hr).
    rewrite Hi, Hr. cbn [negb]. rewrite decide_False by lia. cbn [no_wait].
    specialize (IH (S j) (Some err) o). rewrite Nat2Z.inj_succ in IH.
    unfold Z.succ in IH. apply IH; lia. }
  specialize (H (Z.to_nat (MaxAttempts p)) 0%nat None VNil). apply H; lia.
Qed.

Lemma retry_first_success_witness :
  Execute (scripted (λ i, if decide (i < 2) then Returns VNil (Some (Errorf "x"))
                          else Returns (VInt 7) None)) no_wait no_rnd "n" (Some DefaultRetryPolicy) 0
  = ((VInt 7, None), Z.of_nat 2 + 1).
Proof.
  apply retry_first_success; [reflexivity| |reflexivity].
  intros i Hi. exists VNil, (Errorf "x"). rewrite decide_True by lia. auto.
Defined.

(** The multi-policy executor terminates: for every list of policies and
    every function the outer loop ends (the model's fuel suffices). *)
Theorem multi_terminates {W} (fn : W → outcome * W) wait rnd name policies w :
  is_Some (Multi_Execute fn wait rnd name policies w).
Proof.
  unfold Multi_Execute. destruct policies as [|p ps].
  - destruct (fn w) as [[]]; eauto.
  - apply multi_loop_total; [lia|]. unfold multi_fuel. lia.
Qed.

(** One iteration of the outer loop on a function that fails. *)
Lemma multi_loop_failing rnd name p err fuel attempt w :
  findMatchingPolicy [p] err = Some p →
  multi_loop (failing err) no_wait rnd name [p] (S fuel) attempt w =
  if decide (MaxAttempts p ≤ attempt + 1)
  then Some (Ret (VNil, Some (RetryExhaustedError name (attempt + 1) (Some err) VNil)), w + 1)
  else match Execute (failing err) no_wait rnd name
               (Some (with_attempts p (MaxAttempts p - (attempt + 1) + 1))) (w + 1) with
       | ((result, None), w') => Some (Ret (result, None), w')
       | ((_, Some _), w') =>
           multi_loop (failing err) no_wait rnd name [p] fuel
             (attempt + 1 + (MaxAttempts p - (attempt + 1))) w'
       end.
Proof. intros Hf. cbn [multi_loop failing]. by rewrite Hf. Qed.

(** The multi-policy executor calls a function that keeps failing
    [MaxAttempts + 2] times, not at most [MaxAttempts] times as the policy
    says: one call, a full round of RetryExecutor, and one more call. *)
Theorem multi_exceeds_attempts rnd name p err :
  1 < MaxAttempts p → retryable p err = true → IsGraphInterrupt (Some err) = false →
  ∃ r, Multi_Execute (failing err) no_wait rnd name [p] 0 = Some (Ret r, MaxAttempts p + 2).
Proof.
  intros Hm Hr Hi. unfold Multi_Execute, multi_fuel.
  assert (Hfind : findMatchingPolicy [p] err = Some p).
  { unfold findMatchingPolicy. cbn. by rewrite Hr. }
  set (q := with_attempts p (MaxAttempts p - (0 + 1) + 1)).
  assert (Hexec : ∀ n a le lo w, (0 < n)%nat → a + Z.of_nat n = MaxAttempts q + 1 →
    ∃ e, execute_loop (failing err) no_wait rnd name q n a le lo w = ((VNil, Some e), w + Z.of_nat n)).
  { induction n as [|n IH]; intros a le lo w Hpos Ha; [lia|]. cbn [execute_loop failing].
    rewrite Hi. change (retryable q err) with (retryable p err). rewrite Hr. cbn [negb].
    case_decide as Hd.
    - assert (n = 0%nat) as -> by lia. eauto.
    - cbn [no_wait]. destruct (IH (a + 1) (Some err) VNil (w + 1)) as [e He]; [lia|lia|].
      exists e. rewrite He. f_equal. lia. }
  assert (Hmax : max_attempts [p] = MaxAttempts p) by (cbn; lia). rewrite Hmax.
  replace (Z.to_nat (MaxAttempts p)) with (S (S (Z.to_nat (MaxAttempts p - 2)))) by lia.
  rewrite (multi_loop_failing _ _ _ _ _ _ _ Hfind), decide_False by lia.
  unfold Execute. fold q. change (default DefaultRetryPolicy (Some q)) with q.
  destruct (Hexec (Z.to_nat (MaxAttempts q)) 1 None VNil (0 + 1)) as [e He]; [cbn; lia|cbn; lia|].
  rewrite He, (multi_loop_failing _ _ _ _ _ _ _ Hfind), decide_True by lia.
  assert (Hq : MaxAttempts q = MaxAttempts p) by (cbn; lia).
  replace (0 + 1 + Z.of_nat (Z.to_nat (MaxAttempts q)) + 1) with (MaxAttempts p + 2) by lia.
  by eexists.
Qed.

Lemma multi_exceeds_attempts_witness :
  ∃ r, Multi_Execute (failing (Errorf "x")) no_wait no_rnd "n" [DefaultRetryPolicy] 0
       = Some (Ret r, MaxAttempts DefaultRetryPolicy + 2).
Proof. apply multi_exceeds_attempts; reflexivity. Defined.

(** [contains], which the retry predicates use and which is documented as
    a case-insensitive substring test, holds only when the strings are equal or
    the longer one starts with the shorter one, up to ASCII case.  An error
    whose keyword is not at its beginning is not recognised. *)
Theorem contains_is_prefix s substr :
  contains s substr = true ↔
  s = substr ∨ ((String.length substr < String.length s)%nat
                ∧ str_prefix (String.length substr) (toLower s) = toLower substr).
Proof. apply contains_spec. Qed.

(** Bounds of the backoff: never more than [MaxInterval] without jitter,
    never negative with jitter, and always a 64-bit duration. *)
Theorem backoff_bounds r p attempt :
  in_int64 (MaxInterval p) →
  in_int64 (CalculateBackoff r p attempt)
  ∧ (Jitter p = false → CalculateBackoff r p attempt ≤ MaxInterval p)
  ∧ (Jitter p = true → 0 ≤ CalculateBackoff r p attempt).
Proof.
  intros Hmax. unfold CalculateBackoff.
  assert (Hr : ∀ f, in_int64 (int_of_f64 f)).
  { intros f. unfold int_of_f64. destruct (f64_trunc f); [case_decide; [done|]|];
      unfold in_int64, int64_min, int64_max; lia. }
  specialize (Hr (f64_mul (f64_of_int (InitialInterval p)) (powFloat (BackoffFactor p) (attempt - 1)))).
  destruct (Jitter p).
  - match goal with |- context [wrap64 ?z] => pose proof (wrap64_range z) as Hw end.
    split; [|split; [done|lia]].
    revert Hw. unfold in_int64, int64_min, int64_max. lia.
  - split; [|split; [lia|done]]. revert Hr Hmax. unfold in_int64. lia.
Qed.

Lemma backoff_bounds_witness :
  in_int64 (CalculateBackoff (f64_of_int 0) DefaultRetryPolicy 3).
Proof. apply backoff_bounds. vm_compute. split; discriminate. Defined.

(** ** The store *)

(** A batch of puts is read back: of the operations on one entry the last
    one wins, entries no operation names keep their value, and an entry is
    visible exactly when its expiry, which a put never changes, has not passed. *)
Theorem store_batch_last_wins {MO : MapOrder} now s ops s' ns key :
  BatchPut s ops = inr s' →
  Store_Get now s' ns key = inr
    (if checkTTL now s (fullKey (nsKey ns) key) then
       match last_put ops (nsKey ns) key with
       | Some v => Some v
       | None => ns_data s (nsKey ns) !! key
       end
     else None).
Proof.
  unfold BatchPut. destruct (s_closed s) eqn:Hc; [done|]. intros [= <-].
  rewrite Store_Get_live.
  - unfold live_value, checkTTL. rewrite batch_ttl, batch_lookup. by destruct (s_ttl s !! _).
  - assert (Hcl : ∀ ops s, s_closed (foldl (λ s op, store_value s (nsKey (po_Namespace op)) (po_Key op)
      (po_Value op)) s ops) = s_closed s).
    { clear. induction ops as [|op ops IH]; intros s; [done|]. cbn [foldl]. by rewrite IH. }
    by rewrite Hcl.
Qed.

Definition demo_puts : list PutOperation :=
  [{| po_Namespace := ["users"; "ann"]; po_Key := "city"; po_Value := {["v" := VStr "Rome"]} |};
   {| po_Namespace := ["users"; "bob"]; po_Key := "city"; po_Value := {["v" := VStr "Oslo"]} |};
   {| po_Namespace := ["users"; "ann"]; po_Key := "city"; po_Value := {["v" := VStr "Bonn"]} |}].
Definition demo_store : InMemoryStore :=
  match BatchPut (H := order_fwd) NewInMemoryStore demo_puts with inr s => s | inl _ => NewInMemoryStore end.

Lemma store_batch_last_wins_witness :
  Store_Get (H := order_fwd) 7 demo_store ["users"; "ann"] "city" = inr (Some {["v" := VStr "Bonn"]}).
Proof.
  rewrite (store_batch_last_wins (MO := order_fwd) 7 NewInMemoryStore demo_puts demo_store) by reflexivity.
  vm_compute. reflexivity.
Defined.

(** A tick of the clean-up goroutine is invisible to readers: whatever is
    read at or after the tick is what would have been read without it, as long
    as every full key that has an expiry contains exactly one colon. *)
Theorem cleanup_transparent {MO : MapOrder} now now' s ns key :
  map_Forall (λ fk _, one_colon fk) (s_ttl s) → now ≤ now' →
  Store_Get now' (cleanupExpired now s) ns key = Store_Get now' s ns key.
Proof.
  intros Hc Hn.
  assert (Hcl : s_closed (cleanupExpired now s) = s_closed s).
  { unfold cleanupExpired. generalize (range (s_ttl s)). intros l. clear. revert s.
    induction l as [|fe l IH]; intros s; [done|]. cbn [foldl]. rewrite IH. by case_decide. }
  destruct (s_closed s) eqn:E; [by unfold Store_Get; rewrite Hcl, E|].
  rewrite !Store_Get_live by done. f_equal. apply cleanup_loop_live; [apply range_NoDup| |done].
  intros fk e Hin%elem_of_range. split; [done|]. by apply (Hc fk e).
Qed.

Definition demo_expiring : InMemoryStore := with_ttl demo_store {["users|ann:city" := 5]}.

Lemma cleanup_transparent_witness :
  Store_Get (H := order_fwd) 9 (cleanupExpired (H := order_fwd) 8 demo_expiring) ["users"; "ann"] "city"
    = inr None
  ∧ s_ttl (cleanupExpired (H := order_fwd) 8 demo_expiring) = ∅.
Proof.
  split; [|vm_compute; reflexivity].
  rewrite (cleanup_transparent (MO := order_fwd) 8 9); [vm_compute; reflexivity| |lia].
  apply (bool_decide_unpack _). vm_compute. exact I.
Defined.

(** With two colons the tick drops the expiry and keeps the value, which
    becomes readable again. *)
Example cleanup_resurrects :
  let s := {| s_data := {["docs" := {["a:b" := {["v" := VStr "old"]}]}]};
              s_ttl := {["docs:a:b" := 5]}; s_closed := false |} in
  Store_Get (H := order_fwd) 9 s ["docs"] "a:b" = inr None
  ∧ Store_Get (H := order_fwd) 9 (cleanupExpired (H := order_fwd) 8 s) ["docs"] "a:b"
      = inr (Some {["v" := VStr "old"]}).
Proof. split; vm_compute; reflexivity. Qed.

(** ** The cache *)

(** A cache never holds more entries than its maximum (one, if the maximum
    is not positive), whatever the eviction policy, after any sequence of
    operations that stores nothing under the empty key. *)
Theorem cache_bounded {MO : MapOrder} maxSize eviction ops :
  Forall named_op ops →
  Z.of_nat (size (mc_data (foldl cache_step (NewMemoryCache maxSize eviction) ops))) ≤ Z.max 1 maxSize.
Proof.
  intros Hn. destruct (cache_run_ok ops (NewMemoryCache maxSize eviction) Hn) as [[Hs _] Hm].
  - split; cbn; [rewrite map_size_empty; lia|apply lookup_empty].
  - by rewrite Hm in Hs.
Qed.

Definition demo_cache_ops : list cache_op :=
  [OpSet 1 "a" (VInt 1) 0; OpSet 2 "b" (VInt 2) 0; OpGet 3 "a"; OpSet 4 "c" (VInt 3) 0].

Lemma cache_bounded_witness :
  Z.of_nat (size (mc_data (foldl (cache_step (H := order_fwd)) (NewMemoryCache 2 EvictLRU) demo_cache_ops))) ≤ 2
  ∧ dom (mc_data (foldl (cache_step (H := order_fwd)) (NewMemoryCache 2 EvictLRU) demo_cache_ops)) = {["a"; "c"]}.
Proof.
  split; [|vm_compute; reflexivity].
  apply (cache_bounded (MO := order_fwd) 2 EvictLRU demo_cache_ops).
  apply (bool_decide_unpack _). vm_compute. exact I.
Defined.

(** Under the empty key the bound fails: an entry stored there is never evicted. *)
Example empty_key_unbounded :
  size (mc_data (foldl (cache_step (H := order_fwd)) (NewMemoryCache 1 EvictLFU)
    [OpSet 1 "" (VInt 1) 0; OpSet 2 "b" (VInt 2) 0])) = 2%nat.
Proof. vm_compute. reflexivity. Qed.

(** A cached call that missed and succeeded is not run again: until its
    entry expires a call with the same key returns the stored result and
    leaves the world alone, whatever function it is given.  A call that failed
    leaves the cache as it was. *)
Theorem cached_execute_once {MO : MapOrder} marshal digest typ {W} policy now1 now2 now3 now4 c
    nodeName input (fn fn' : value → W → outcome * W) w c1 out w1 w2 :
  let key := cache_key marshal digest typ policy nodeName input in
  (Cache_Get now1 c key).2 = None →
  Cached_Execute marshal digest typ policy now1 now2 c nodeName input fn w = (c1, out, w1) →
  match out with
  | Returns v None =>
      (fn input w).1 = Returns v None ∧
      (cache_ttl policy ≤ 0 ∨ now3 ≤ now2 + cache_ttl policy →
       ∃ c2, Cached_Execute marshal digest typ policy now3 now4 c1 nodeName input fn' w2
             = (c2, Returns v None, w2))
  | _ => c1 = c
  end.
Proof.
  intros key Hm%Cache_Get_miss. unfold Cached_Execute. fold key. rewrite Hm.
  destruct (fn input w) as [[v [err|]|r] w'] eqn:Ef; intros [= <- <- <-]; [done| |done].
  split; [done|]. intros Ht. pose proof (Cache_Get_Set now2 c key v (cache_ttl policy) now3 Ht) as Hg.
  destruct (Cache_Get now3 _ key) as [c2 o]. cbn in Hg. subst o. by exists c2.
Qed.

Lemma cached_execute_once_witness :
  let fn := λ (_ : value) (w : nat), (Returns (VInt 42) None, S w) in
  let run := Cached_Execute (H := order_fwd) (λ _, Some "data") (λ d, d) (λ _, "int") None in
  let first := run 1 2 (NewMemoryCache 10 EvictLRU) "node" (VInt 1) fn 0%nat in
  ∃ c2, run 3 4 first.1.1 "node" (VInt 1) fn first.2 = (c2, Returns (VInt 42) None, 1%nat).
Proof.
  intros fn run first.
  refine (proj2 (cached_execute_once (MO := order_fwd) (λ _, Some "data") (λ d, d) (λ _, "int") None 1 2 3 4
    (NewMemoryCache 10 EvictLRU) "node" (VInt 1) fn fn 0%nat first.1.1 (Returns (VInt 42) None) first.2
    first.2 eq_refl _) _).
  - vm_compute. reflexivity.
  - left. vm_compute. discriminate.
Defined.

(** ** The worker pool *)

Close Scope Z_scope.

Definition running (e : AsyncExecutor) : nat :=
  length (filter (λ g, g_pc g = PRun) (ae_threads e)).

Lemma running_holders e : running e ≤ holders e.
Proof.
  unfold running, holders. induction (ae_threads e) as [|g l IH]; [done|].
  rewrite filter_cons. cbn [sum_list_with]. case_decide as Hg; [|lia].
  cbn [length]. unfold holds at 1. rewrite Hg. lia.
Qed.

(** C6: the pool limits concurrency: along every interleaving of calls,
    cancellations and actions of the goroutines no slot is lost or duplicated,
    so never more than [maxConcurrency] functions run at the same time. *)
Theorem pool_bounded n e :
  rtc astep (NewAsyncExecutor n) e →
  ae_tokens e + holders e = ae_maxConcurrency e ∧ running e ≤ ae_maxConcurrency e.
Proof.
  intros Hr%pool_reachable. destruct Hr as [Hs _ _ _]. pose proof (running_holders e). lia.
Qed.

(** Two tasks on a pool of one slot. *)
Definition demo_pool : AsyncExecutor :=
  Async_Execute (Async_Execute (NewAsyncExecutor 1) "t1" "a" (VInt 1, None) None)
    "t2" "b" (VInt 2, None) None.

Lemma demo_pool_reachable : rtc astep (NewAsyncExecutor 1) demo_pool.
Proof. eapply rtc_l; [apply astep_execute|]. eapply rtc_l; [apply astep_execute|]. apply rtc_refl. Qed.

(** The actions of a schedule: the branch of a select, and the thread. *)
Fixpoint run_schedule (e : AsyncExecutor) (s : list (bool * nat)) : option AsyncExecutor :=
  match s with [] => Some e | (slot, i) :: s => thread_step slot e i ≫= λ e, run_schedule e s end.

Lemma run_schedule_nsteps s e e' : run_schedule e s = Some e' → nsteps tstep (length s) e e'.
Proof.
  revert e. induction s as [|[slot i] s IH]; intros e He; cbn in He; [by simplify_eq; constructor|].
  apply bind_Some in He as (e1 & H1 & H2). econstructor; [by exists slot, i|by apply IH].
Qed.

Lemma nsteps_astep m e e' : nsteps tstep m e e' → rtc astep e e'.
Proof. induction 1 as [|m x y z Hxy _ IH]; [apply rtc_refl|]. eapply rtc_l; [by constructor|done]. Qed.

(** The first task runs, the second one waits. *)
Definition demo_busy : AsyncExecutor := default demo_pool (run_schedule demo_pool [(true, 0); (true, 0)]).

Lemma pool_bounded_witness : running demo_busy = 1 ∧ running demo_busy ≤ 1 ∧ ae_tokens demo_busy = 0.
Proof.
  split; [reflexivity|]. split; [|reflexivity].
  refine (proj2 (pool_bounded 1 demo_busy _)).
  transitivity demo_pool; [apply demo_pool_reachable|].
  apply (nsteps_astep 2). apply (run_schedule_nsteps [(true, 0); (true, 0)]). reflexivity.
Defined.

Lemma nsteps_work m e e' : pool_ok e → nsteps tstep m e e' → m + work e' ≤ work e ∧ pool_ok e'.
Proof.
  intros Hok Hn. induction Hn as [|m x y z Hxy _ IH]; [done|].
  destruct (tstep_ok _ _ Hok Hxy) as [Hy Hw]. destruct (IH Hy). lia || (split; [lia|done]).
Qed.

(** C7: the pool delivers: whatever the schedule, the goroutines of a
    reachable pool take only finitely many actions, they never deadlock, and
    when none can act any more every task has finished and sent exactly one
    result (its function's, or the error of its context), all slots are back
    and no task is registered as active. *)
Theorem pool_delivers n e m e' :
  rtc astep (NewAsyncExecutor n) e → nsteps tstep m e e' →
  m ≤ work e
  ∧ ((∀ e'', ¬ tstep e' e'') →
     ae_tokens e' = ae_maxConcurrency e' ∧ ae_activeTasks e' = ∅
     ∧ ∀ g, g ∈ ae_threads e' → g_pc g = PDone ∧ ∃ r, g_sent g = [r] ∧ result_of g r).
Proof.
  intros Hr%pool_reachable Hn. destruct (nsteps_work _ _ _ Hr Hn) as [Hm Hok]. split; [lia|].
  intros Hstuck. assert (Hw : work e' = 0).
  { destruct (decide (work e' = 0)) as [|Hne]; [done|]. by destruct (pool_progress e' Hok Hne) as [? ?%Hstuck]. }
  destruct Hok as [Hs _ Ht Ha].
  assert (Hd : ∀ g, g ∈ ae_threads e' → remaining g = 0).
  { intros g Hin. unfold work in Hw. revert Hin Hw. clear. induction (ae_threads e') as [|h l IH];
      [by intros ?%elem_of_nil|]. cbn. intros [->|Hin]%elem_of_cons Hw; [lia|]. apply IH; [done|lia]. }
  assert (Hh : holders e' = 0).
  { unfold holders. revert Hd. clear. induction (ae_threads e') as [|h l IH]; [done|]. cbn. intros Hd.
    rewrite IH by (intros g Hg; apply Hd; by right). specialize (Hd h ltac:(left)).
    unfold holds, remaining in *. by destruct (g_pc h). }
  split_and!.
  - lia.
  - apply elem_of_equiv_empty_L. intros id Hin. destruct (Ha id Hin) as (g & Hg & _ & Hrem).
    rewrite (Hd g Hg) in Hrem. lia.
  - intros g Hg. specialize (Hd g Hg). rewrite Forall_forall in Ht. specialize (Ht g Hg).
    unfold thread_ok, remaining in *. by destruct (g_pc g).
Qed.

(** One thread after the other. *)
Definition demo_schedule : list (bool * nat) := replicate 6 (true, 0) ++ replicate 6 (true, 1).
Definition demo_final : AsyncExecutor := default demo_pool (run_schedule demo_pool demo_schedule).

Lemma pool_delivers_witness :
  12 ≤ work demo_pool ∧ ae_activeTasks demo_final = ∅ ∧ ae_tokens demo_final = 1.
Proof.
  destruct (pool_delivers 1 demo_pool 12 demo_final demo_pool_reachable) as [Hw Hend].
  - apply (run_schedule_nsteps demo_schedule). vm_compute. reflexivity.
  - split; [exact Hw|]. destruct Hend as (Ht & Ha & _).
    + intros e'' (slot & i & Hs). destruct i as [|[|i]], slot; vm_compute in Hs; discriminate.
    + split; [exact Ha|]. rewrite Ht. reflexivity.
Defined.

(** ** The pipeline *)

(** A pipeline never sends on a closed channel and never closes one twice,
    whatever the sequence of starts, stops and emissions, and its buffers never
    exceed their capacity: an event that does not fit is dropped. *)
Theorem pipeline_safe n ops :
  ∃ p, pipe_run (NewAsyncPipeline n) ops = Ret p
    ∧ length (ch_buf (ap_events p)) ≤ 100 ∧ length (ch_buf (ap_errors p)) ≤ 10.
Proof.
  destruct (pipe_run_ok ops (NewAsyncPipeline n)) as (p & Hp & H1 & H2 & H3 & H4 & _).
  - unfold pipe_ok, chan_ok. cbn. split_and!; (done || lia).
  - exists p. unfold chan_ok in *. split_and!; [done|lia|lia].
Qed.

(** ** The priority queue *)

(** The priority queue sorts: pushing any tasks and popping until the
    queue is empty never panics, and gives the same tasks in the order of
    decreasing priority.  The loops end. *)
Theorem queue_sorts {R} (ts : list (BackgroundTask R)) :
  ∃ l out, push_all NewPriorityQueue ts = Some (Ret l) ∧ drain (length l) l = Some (Ret out)
    ∧ out ≡ₚ ts ∧ StronglySorted (λ a b, bt_Priority b ≤ bt_Priority a)%Z out.
Proof.
  destruct (push_all_spec ts NewPriorityQueue) as (l & Hl & Hp & Hh).
  { intros i Hi. cbn in Hi. lia. }
  destruct (drain_spec (length l) l Hh) as (out & Ho & Hpo & Hs); [lia|].
  exists l, out. split_and!; [done..| |done]. by rewrite Hpo, Hp, app_nil_r.
Qed.
