(* ===== verification/IngestionProps.v ===== *)
(** * Properties of the ingestion service and its workers *)

From S2P Require Import Prelude IngestionTask IngestionSystem.

(** Closed decidable facts about statuses. *)
Ltac decided :=
  match goal with
  | |- ¬ ?P => exact (bool_decide_eq_false_1 P eq_refl)
  | |- ?P => exact (bool_decide_unpack P I)
  end.

(** ** One operation alone *)

(** A program on its own: no query fails, no context is done, there is no
    checkpoint; [pipe] is how the pipeline ends. *)
Fixpoint run {A} (pipe : nat) (p : prog A) (w : world) : A * world :=
  match p with
  | Done a => (a, w)
  | Ask q k => let r := exec q w (match q with QPipeline _ _ => pipe | _ => 0 end) in
               run pipe (k (inr r.1)) r.2
  end.

Lemma run_bind {A B} pipe (p : prog A) (f : A → prog B) w :
  run pipe (p ≫= f) w = run pipe (f (run pipe p w).1) (run pipe p w).2.
Proof. revert w. induction p as [a|R q k IH]; intros w; [done|]. cbn. apply IH. Qed.

Lemma run_try {A B} pipe (p : prog (task_error + A)) (f : A → prog (task_error + B)) w a w' :
  run pipe p w = (inr a, w') → run pipe (try p f) w = run pipe (f a) w'.
Proof. intros Hp. unfold try. rewrite run_bind, Hp. done. Qed.

Section alone.
Context (pipe : nat) (w : world) (id : string) (t : IngestionTask).
Hypothesis Hid : w_tasks w !! id = Some t.

Definition moved (to : string) : world := set_tasks w (<[id := with_status t to]> (w_tasks w)).

Lemma run_GetTask : run pipe (GetTask id) w = (inr t, w).
Proof. unfold GetTask. rewrite (run_try _ _ _ _ (Some t) w); [done|]. cbn. by rewrite Hid. Qed.

Lemma run_transition to :
  run pipe (transition id to) w =
    match validateTransition (it_Status t) to with
    | None => (inr (with_status t to), moved to)
    | Some (from, to') => (inl (InvalidTaskTransitionError id from to'), w)
    end.
Proof.
  unfold transition. rewrite (run_try _ _ _ _ t w) by apply run_GetTask.
  destruct (validateTransition _ _) as [[f t']|]; [done|].
  rewrite (run_try _ _ _ _ true (moved to)); [done|].
  cbn. rewrite Hid, decide_True by done. done.
Qed.

Lemma run_mark to :
  run pipe (mark id to) w =
    if decide (terminal (it_Status t)) then (inr (), w)
    else match validateTransition (it_Status t) to with
         | None => (inr (), moved to)
         | Some (from, to') => (inl (InvalidTaskTransitionError id from to'), w)
         end.
Proof.
  unfold mark. rewrite (run_try _ _ _ _ t w) by apply run_GetTask. case_decide; [done|].
  unfold try at 1. rewrite run_bind, run_transition. by destruct (validateTransition _ _) as [[f t']|].
Qed.

Lemma run_StartRunning :
  it_Status t ∈ [CREATED; SCHEDULED] →
  run pipe (StartRunning id) w = (inr (with_status t RUNNING), moved RUNNING).
Proof.
  intros Hst. unfold StartRunning. rewrite (run_try _ _ _ _ t w), decide_True by (done || by apply run_GetTask).
  rewrite (run_try _ _ _ _ (with_status t RUNNING) (moved RUNNING)); [done|].
  rewrite run_transition. apply elem_of_cons in Hst as [->|[->|[]%elem_of_nil]%elem_of_cons]; done.
Qed.
End alone.

(** How a message of a fresh task ends. *)
Definition outcome_status (pipe : nat) : string :=
  match pipe with 0 => COMPLETED | 1 => STOPPED | _ => FAILED end.

Section worker.
Context (pipe : nat) (w : world) (id : string) (t : IngestionTask).
Hypothesis Hid : w_tasks w !! id = Some t.
Hypothesis Hrun : it_Status t = RUNNING.

Lemma running_not_terminal : ¬ terminal (it_Status t).
Proof. rewrite Hrun. decided. Qed.

Lemma run_mark_running to :
  validateTransition RUNNING to = None → run pipe (mark id to) w = (inr (), moved w id t to).
Proof. intros Hv. rewrite (run_mark _ _ _ _ Hid), decide_False, Hrun, Hv by apply running_not_terminal. done. Qed.

Lemma run_markFailed : run pipe (markFailed id) w = (true, moved w id t FAILED).
Proof. unfold markFailed, MarkFailed. rewrite run_bind, run_mark_running by done. done. Qed.

Lemma run_completeTask : run pipe (completeTask id) w = (inr (), moved w id t COMPLETED).
Proof.
  unfold completeTask. cbn [retry_settle]. rewrite run_bind. unfold completeOrSettle, MarkCompleted.
  rewrite run_bind, run_mark_running by done. done.
Qed.

Lemma run_markStopped :
  run pipe (markStopped id) w =
    (true, set_flags (moved w id t STOPPED) (({[id]} ∪ w_flags w) ∖ {[id]})).
Proof.
  unfold markStopped. rewrite run_bind.
  assert (run pipe (RequestStop id) w
    = (inr (with_status t STOPPING), set_flags (moved w id t STOPPING) ({[id]} ∪ w_flags w))) as ->.
  { unfold RequestStop. rewrite (run_try _ _ _ _ t w) by (by apply run_GetTask).
    rewrite Hrun. rewrite decide_False by (decided). rewrite decide_True by done.
    rewrite (run_try _ _ _ _ (with_status t STOPPING) (moved w id t STOPPING)); [done|].
    rewrite (run_transition _ _ _ _ Hid), Hrun. done. }
  cbn [fst snd]. rewrite run_bind. unfold MarkStopped.
  rewrite (run_mark _ _ _ (with_status t STOPPING)) by (cbn; by rewrite lookup_insert_eq).
  rewrite decide_False by (decided). cbn [fst snd].
  unfold moved, set_flags, set_tasks. cbn. by rewrite insert_insert_eq.
Qed.
End worker.

Lemma run_safeGetTerminal pipe w id t :
  w_tasks w !! id = Some t → terminal (it_Status t) → run pipe (safeGetTerminal id) w = (Some true, w).
Proof.
  intros Hid Ht. unfold safeGetTerminal. rewrite run_bind, (run_GetTask _ _ _ _ Hid). cbn.
  by rewrite bool_decide_eq_true_2.
Qed.

(** The run of the pipeline itself, with its terminal status. *)
Lemma run_runTask pipe me w id t :
  w_tasks w !! id = Some t → it_Status t = RUNNING →
  ∃ r w', run pipe (runTask me id) w = (r, w')
    ∧ r = (if decide (4 ≤ pipe) then None else Some true)
    ∧ w_tasks w' = (if decide (4 ≤ pipe) then w_tasks w else <[id := with_status t (outcome_status pipe)]> (w_tasks w))
    ∧ id ∉ w_flags w' ∧ w_claims w' = w_claims w ∧ w_acked w' = w_acked w.
Proof.
  intros Hid Hrun. set (w1 := set_flags w (w_flags w ∖ {[id]})).
  assert (Hid1 : w_tasks w1 !! id = Some t) by done.
  assert (Hlog : ∀ p b w2, run pipe p w1 = (true, w2) → b = true →
    run pipe (logged p) w1 = (Some b, w2)) by (intros p b w2 Hp ->; unfold logged; by rewrite run_bind, Hp).
  change (run pipe (runTask me id) w) with
    (run pipe (match (exec (QPipeline me id) w1 pipe).1 with
       | PipelinePanic => Done None
       | PipelineCanceled => cancelled_run id
       | PipelineDeadline => _ ← ask QUpdate; logged (markFailed id)
       | PipelineError => logged (markFailed id)
       | PipelineOk => r ← completeTask id; Done (Some match r with inl _ => false | inr _ => true end)
       end) w1).
  destruct pipe as [|[|[|[|pipe]]]]; cbn [exec fst].
  - rewrite run_bind, (run_completeTask _ _ _ _ Hid1 Hrun). do 2 eexists. split; [done|]. cbn. set_solver.
  - unfold cancelled_run. change (run 1 (ask QUpdate ≫= λ _, logged (markStopped id)) w1)
      with (run 1 (logged (markStopped id)) w1).
    rewrite (Hlog _ true _ (run_markStopped _ _ _ _ Hid1 Hrun) eq_refl). do 2 eexists. split; [done|]. cbn. set_solver.
  - change (run 2 (ask QUpdate ≫= λ _, logged (markFailed id)) w1) with (run 2 (logged (markFailed id)) w1).
    rewrite (Hlog _ true _ (run_markFailed _ _ _ _ Hid1 Hrun) eq_refl). do 2 eexists. split; [done|]. cbn. set_solver.
  - rewrite (Hlog _ true _ (run_markFailed _ _ _ _ Hid1 Hrun) eq_refl). do 2 eexists. split; [done|]. cbn. set_solver.
  - do 2 eexists. split; [done|]. cbn. set_solver.
Qed.

(** A worker that runs undisturbed, however the pipeline ends. *)
Lemma undisturbed_outcome pipe me w id t :
  w_tasks w !! id = Some t → it_ID t = id → it_Status t ∈ [CREATED; SCHEDULED] → (me, id) ∉ w_claims w →
  let w' := (run pipe (processMessage me id) w).2 in
  w_tasks w' = <[id := with_status t (outcome_status pipe)]> (w_tasks w)
  ∧ w_acked w' = id :: w_acked w ∧ id ∉ w_flags w' ∧ w_claims w' = w_claims w.
Proof.
  intros Hid Ht Hst Hfree. cbn zeta. unfold processMessage. rewrite run_bind.
  rewrite (run_StartRunning _ _ _ _ Hid Hst).
  cbn [fst snd]. rewrite decide_False, decide_True by (done || decided). cbn [with_status it_ID]. rewrite Ht.
  set (w1 := moved w id t RUNNING). rewrite run_bind.
  assert (run pipe (ask (QClaim me id)) w1 = (inr true, set_claims w1 ({[(me, id)]} ∪ w_claims w1))) as ->.
  { cbn. by rewrite decide_False by done. }
  set (w2 := set_claims w1 ({[(me, id)]} ∪ w_claims w1)). cbn [fst snd].
  change (run pipe (shutdown ← ask QChoice; match shutdown with
    | inr true => _ ← markStopped id; _ ← ask (QRelease me id); Done () | _ => executeTask me id end) w2)
    with (run pipe (settleMessage id (runTask me id) ≫= λ _, _ ← ask (QRelease me id); Done ()) w2).
  rewrite run_bind.
  destruct (run_runTask pipe me w2 id (with_status t RUNNING)) as (r & w3 & Hrun & -> & Htasks & Hflag & Hcl & Hack);
    [cbn; apply lookup_insert_eq|done|].
  assert (Hterm : terminal (outcome_status pipe)) by (destruct pipe as [|[|pipe]]; decided).
  assert (∃ w4, run pipe (settleMessage id (runTask me id)) w2 = (true, set_queue w4 (w_queue w4) (id :: w_acked w4))
    ∧ w_tasks w4 = <[id := with_status t (outcome_status pipe)]> (w_tasks w)
    ∧ id ∉ w_flags w4 ∧ w_claims w4 = w_claims w2 ∧ w_acked w4 = w_acked w) as (w4 & -> & H1 & H2 & H3 & H4).
  { unfold settleMessage. rewrite run_bind, Hrun. cbn [fst snd].
    assert (Hset : ∀ b w4, w_tasks w4 = <[id := with_status t (outcome_status pipe)]> (w_tasks w) →
      run pipe (db ← safeGetTerminal id; (_ ← ackOrNack id (default b db); Done (default b db))) w4
      = (true, set_queue w4 (w_queue w4) (id :: w_acked w4))).
    { intros b w4 Hw4. rewrite run_bind.
      rewrite (run_safeGetTerminal _ _ _ (with_status t (outcome_status pipe))); [done| |done].
      rewrite Hw4. apply lookup_insert_eq. }
    case_decide.
    - assert (HF : run pipe (_ ← markFailed id; Done false) w3
        = (false, moved w3 id (with_status t RUNNING) FAILED)).
      { rewrite run_bind, (run_markFailed _ _ _ (with_status t RUNNING)); [done| |done].
        rewrite Htasks. apply lookup_insert_eq. }
      rewrite run_bind, HF. cbn [fst snd].
      assert (HT : w_tasks (moved w3 id (with_status t RUNNING) FAILED)
        = <[id := with_status t (outcome_status pipe)]> (w_tasks w)).
      { cbn. rewrite Htasks. cbn. rewrite insert_insert_eq. destruct pipe as [|[|pipe]]; [lia..|done]. }
      exists (moved w3 id (with_status t RUNNING) FAILED). by rewrite Hset.
    - assert (HT : w_tasks w3 = <[id := with_status t (outcome_status pipe)]> (w_tasks w)).
      { rewrite Htasks. cbn. by rewrite insert_insert_eq. }
      rewrite run_bind. cbn [fst snd run]. exists w3. by rewrite Hset. }
  cbn. rewrite H1, H3, H4. split_and!; [done..|]. cbn. set_solver.
Qed.

Definition demo_task : IngestionTask :=
  {| it_ID := "t1"; it_UserID := "u"; it_DocumentID := "d1"; it_DatasetID := "k"; it_Status := SCHEDULED |}.
Definition demo_world : world := set_tasks empty_world {["t1" := demo_task]}.



(** When the pipeline panics the task is marked FAILED, and the status read back then makes
    the code acknowledge the message, which its comments say is Nacked for redelivery. *)
Lemma panic_acknowledged pipe me w id t :
  4 ≤ pipe → w_tasks w !! id = Some t → it_ID t = id → it_Status t ∈ [CREATED; SCHEDULED] → (me, id) ∉ w_claims w →
  let w' := (run pipe (processMessage me id) w).2 in
  w_tasks w' !! id = Some (with_status t FAILED) ∧ w_acked w' = id :: w_acked w.
Proof.
  intros Hp Hid Ht Hst Hcl. destruct (undisturbed_outcome pipe me w id t Hid Ht Hst Hcl) as (E1 & E2 & _).
  cbn zeta. rewrite E1, E2. split; [|done]. rewrite lookup_insert_eq. destruct pipe as [|[|pipe]]; [lia..|done].
Qed.

(** ** All interleavings *)


(** One call that creates a task, until the row is inserted and published; the
    worker's activation is next. *)
Definition demo_new : IngestionTask := with_status demo_task CREATED.
Definition demo_acts : list act :=
  [Start (OpCreate demo_new); Go 0 0; Go 0 0; Go 0 0; Go 0 0; Start (OpMessage "ing" "t1"); Go 1 0; Go 1 0].
Definition demo_system : world * list thread := default (empty_world, []) (sys_run (empty_world, []) demo_acts).
Definition demo_system' : world * list thread := default demo_system (sys_step demo_system (Go 1 0)).

(** Runs of the scheduler are runs of the system; only their length is computed. *)
Lemma sys_run_default c acts : rtc sstep c (default c (sys_run c acts)).
Proof. destruct (sys_run c acts) as [c'|] eqn:E; [by eapply sys_run_rtc|apply rtc_refl]. Qed.
Definition steps (o : option (world * list thread)) : bool := if o then true else false.
Lemma sys_step_default c d a : steps (sys_step c a) = true → sstep c (default d (sys_step c a)).
Proof. destruct (sys_step c a) as [c'|] eqn:E; [intros _; by eapply sys_step_sstep|done]. Qed.

Lemma demo_system_reachable : rtc sstep (empty_world, []) demo_system.
Proof. apply sys_run_default. Qed.
Lemma demo_system_steps : sstep demo_system demo_system'.
Proof. apply sys_step_default. vm_compute. reflexivity. Qed.

(** Without a request to delete results a task never vanishes while it runs. *)
Lemma no_request ts hard :
  forallb (λ th, match th_op th with OpIngest _ _ _ => false | _ => true end) ts = true → deleted_by ts hard → hard = [].
Proof.
  intros Hall [?|(i & th & Hi & Hp & _)]; [done|]. rewrite forallb_forall in Hall.
  specialize (Hall th (proj1 (list_elem_of_In _ _) (list_elem_of_lookup_2 _ _ _ Hi))). by destruct (th_op th).
Qed.


(** The comments of the table and of the cancel branch say that a running task is not
    deleted; a request to delete the results removes the row while the worker runs. *)
Definition demo_deleted : world * list thread :=
  default demo_system' (sys_run demo_system' [Start (OpIngest [(demo_new, "1")] "0" true); Go 2 1; Go 2 0; Go 2 0]).
Example running_task_deleted :
  it_Status <$> w_tasks demo_system'.1 !! "t1" = Some RUNNING ∧ w_tasks demo_deleted.1 !! "t1" = None.
Proof. vm_compute. done. Qed.

(** A completed task is final: along every interleaving its row never
    changes again, until the task is removed (and only then can its document
    be parsed by a new task). *)
Theorem completed_is_final c c' id t :
  rtc sstep (empty_world, []) c → rtc sstep c c' → w_tasks c.1 !! id = Some t → it_Status t = COMPLETED →
  w_tasks c'.1 !! id = Some t ∨ ∃ c1, rtc sstep c c1 ∧ rtc sstep c1 c' ∧ w_tasks c1.1 !! id = None.
Proof.
  intros Hr Hrun. induction Hrun as [c|c c1 c' Hst Hrun IH]; intros Hid Ht; [by left|].
  assert (Hr1 : rtc sstep (empty_world, []) c1) by (by eapply rtc_r).
  assert (Hlife : ∃ hard, life hard c.1 c1.1).
  { destruct c, c1. destruct (proj2 (sstep_ok _ _ _ _ Hst (system_ok _ Hr))) as (hard & Hl & _). by exists hard. }
  destruct Hlife as [hard Hlife]. specialize (Hlife id). rewrite Hid in Hlife. destruct (w_tasks c1.1 !! id) as [t1|] eqn:E.
  - assert (t1 = t) as ->.
    { destruct Hlife as [?|[_ Ha]]; [done|]. exfalso. rewrite Ht in Ha. unfold allowed, life_cycle in Ha. set_solver. }
    destruct (IH Hr1 eq_refl Ht) as [?|(c2 & ? & ? & ?)]; [by left|right].
    exists c2. split_and!; [by eapply rtc_l|done..].
  - right. exists c1. split_and!; [by eapply rtc_once|done..].
Qed.

(** The whole life of a task whose pipeline succeeds, then a stop request. *)
Fixpoint finish (fuel i : nat) (c : world * list thread) : world * list thread :=
  match fuel with
  | 0 => c
  | S fuel => match sys_step c (Go i 0) with Some c' => finish fuel i c' | None => c end
  end.
Lemma finish_rtc fuel i c : rtc sstep c (finish fuel i c).
Proof.
  revert c. induction fuel as [|fuel IH]; intros c; cbn [finish]; [apply rtc_refl|].
  destruct (sys_step c (Go i 0)) as [c'|] eqn:E; [|apply rtc_refl]. eapply rtc_l; [by eapply sys_step_sstep|apply IH].
Qed.

Definition demo_done : world * list thread := finish 40 0 (finish 40 1 demo_system').
Definition demo_late : world * list thread :=
  finish 40 2 (default demo_done (sys_step demo_done (Start (OpStop "t1")))).

Lemma demo_system'_reachable : rtc sstep (empty_world, []) demo_system'.
Proof. eapply rtc_r; [apply demo_system_reachable|apply demo_system_steps]. Qed.
Lemma demo_done_reachable : rtc sstep (empty_world, []) demo_done.
Proof. etrans; [apply demo_system'_reachable|]. etrans; apply finish_rtc. Qed.
Lemma demo_late_reachable : rtc sstep demo_done demo_late.
Proof.
  eapply rtc_l; [|apply finish_rtc]. apply (sys_step_sstep _ (Start (OpStop "t1"))). reflexivity.
Qed.

Lemma completed_is_final_witness :
  it_Status <$> w_tasks demo_done.1 !! "t1" = Some COMPLETED
  ∧ w_tasks demo_late.1 !! "t1" = Some (with_status demo_new COMPLETED).
Proof.
  split; [vm_compute; reflexivity|].
  destruct (completed_is_final demo_done demo_late "t1" (with_status demo_new COMPLETED)) as [H|_].
  - apply demo_done_reachable.
  - apply demo_late_reachable.
  - vm_compute. reflexivity.
  - reflexivity.
  - exact H.
  - vm_compute. reflexivity.
Defined.

(** C9: no message is lost: along every interleaving, when a worker is about to
    acknowledge the message of a task, the task has been finished (completed,
    stopped or failed) or absent from the table at some moment since the worker
    received the message. *)
Theorem ack_settled c i th id k :
  rtc sstep (empty_world, []) c → c.2 !! i = Some th → th_prog th = Ask (QAck id) k →
  ∃ w, w ∈ th_hist th ∧ settled w id.
Proof.
  intros Hr Hi Hp. destruct (so_threads _ _ (system_ok _ Hr) i th Hi) as [_ Hok _].
  rewrite Hp in Hok. exact (proj1 Hok).
Qed.

(** C10: a document is parsed by one worker of an ingestor at a time: along every
    interleaving two workers with the same ingestor never run the pipeline of the
    same task together; and when every operation has returned, every claim has
    been given back. *)
Theorem pipeline_exclusive c :
  rtc sstep (empty_world, []) c →
  (∀ i j a b me id ka kb, c.2 !! i = Some a → c.2 !! j = Some b →
     th_prog a = Ask (QPipeline me id) ka → th_prog b = Ask (QPipeline me id) kb → i = j)
  ∧ ((∀ i th, c.2 !! i = Some th → th_prog th = Done ()) → w_claims c.1 = ∅).
Proof.
  intros Hr. pose proof (system_ok _ Hr) as [Ht Hd Hc]. split.
  - intros i j a b me id ka kb Ha Hb Hpa Hpb. destruct (decide (i = j)) as [|Hne]; [done|exfalso].
    pose proof (to_prog _ _ (Ht i a Ha)) as Hoa. pose proof (to_prog _ _ (Ht j b Hb)) as Hob.
    rewrite Hpa in Hoa. rewrite Hpb in Hob.
    exact (Hd i j a b Hne Ha Hb (me, id) (proj1 Hoa) (proj1 Hob)).
  - intros Hall. apply set_eq. intros x. split; [|set_solver]. intros (i & th & Hi & Hx)%Hc.
    pose proof (to_prog _ _ (Ht i th Hi)) as Hok. rewrite (Hall i th Hi) in Hok. cbn in Hok.
    unfold clean, keeps in Hok. rewrite Hok in Hx. set_solver.
Qed.

(** The worker of the demo before its acknowledgement, and inside the pipeline
    while a second message of the task is delivered. *)
Definition demo_acking : world * list thread := finish 14 1 demo_system'.
Definition demo_parsing : world * list thread :=
  finish 40 2 (default demo_done (sys_step (finish 9 1 demo_system') (Start (OpMessage "ing" "t1")))).
Definition idle : thread := {| th_op := OpSchedule; th_prog := Done (); th_hist := []; th_held := ∅ |}.

Lemma all_returned ts :
  forallb (λ th, match th_prog th with Done _ => true | _ => false end) ts = true →
  ∀ i th, ts !! i = Some th → th_prog th = Done ().
Proof.
  intros Hall i th Hi. rewrite forallb_forall in Hall.
  specialize (Hall th (proj1 (list_elem_of_In _ _) (list_elem_of_lookup_2 _ _ _ Hi))). by destruct (th_prog th) as [[]|].
Qed.

Lemma ack_settled_witness :
  ∃ w, w ∈ th_hist (default idle (demo_acking.2 !! 1)) ∧ settled w "t1".
Proof.
  eapply (ack_settled demo_acking 1 (default idle (demo_acking.2 !! 1)) "t1").
  - etrans; [apply demo_system'_reachable|apply finish_rtc].
  - vm_compute. reflexivity.
  - vm_compute. reflexivity.
Defined.

Lemma demo_parsing_reachable : rtc sstep (empty_world, []) demo_parsing.
Proof.
  etrans; [apply demo_system'_reachable|]. etrans; [apply (finish_rtc 9 1)|].
  eapply rtc_l; [|apply finish_rtc]. by apply sys_step_default.
Qed.

(** A worker inside the pipeline. *)
Definition parsing (me id : string) (th : thread) : bool :=
  match th_prog th with
  | Ask (QPipeline me' id') _ => bool_decide (me' = me ∧ id' = id)
  | _ => false
  end.
Lemma parsing_prog me id th : parsing me id th = true → ∃ k, th_prog th = Ask (QPipeline me id) k.
Proof.
  unfold parsing. destruct (th_prog th) as [|R q k]; [done|]. destruct q; try done.
  intros [-> ->]%bool_decide_eq_true. by exists k.
Qed.

Lemma pipeline_exclusive_witness :
  (∀ j b kb, demo_parsing.2 !! j = Some b → th_prog b = Ask (QPipeline "ing" "t1") kb → j = 1)
  ∧ w_claims demo_parsing.1 = {[("ing", "t1")]} ∧ w_claims demo_done.1 = ∅.
Proof.
  split_and!; [|vm_compute; reflexivity|].
  - intros j b kb Hj Hb. destruct (demo_parsing.2 !! 1) as [th|] eqn:E1.
    + assert (Hp : option_map (parsing "ing" "t1") (demo_parsing.2 !! 1) = Some true) by (vm_compute; reflexivity).
      rewrite E1 in Hp. injection Hp as Hp. destruct (parsing_prog _ _ _ Hp) as [k Hk].
      exact (proj1 (pipeline_exclusive demo_parsing demo_parsing_reachable) j 1 b th "ing" "t1" kb k Hj E1 Hb Hk).
    + assert (option_map (parsing "ing" "t1") (demo_parsing.2 !! 1) = Some true) as Hp by (vm_compute; reflexivity).
      by rewrite E1 in Hp.
  - apply (proj2 (pipeline_exclusive demo_done demo_done_reachable)).
    apply all_returned. vm_compute. reflexivity.
Defined.
