(* ===== verification/SubGraphProps.v ===== *)
(** * Properties of interrupts, loops and parallel nodes *)

From S2P Require Import Prelude GoValue Errors StateMap Registry Config Checkpoint MemorySaver.
From S2P Require Import StateGraph Scheduling Writes Execution Engine EngineLemmas Interrupt SubGraph.
From S2P Require Import EngineLemmas.
From stdpp Require Import pretty.

(** ** Loops *)

(** No value to resume with is pending. *)
Definition unanswered (ic : interruptContext) : Prop :=
  (Z.of_nat (length (resumeValues ic)) ≤ ic_index ic)%Z ∧ nullResume ic = VNil.

Lemma Interrupt_unanswered gen ic v :
  unanswered ic → Interrupt gen ic v = (inl (GraphInterrupt [new_interrupt v (gen v)]), ic).
Proof.
  intros [Hi Hn]. unfold Interrupt, consumeNextResumeValue. rewrite decide_False by lia.
  unfold getNullResume. by rewrite Hn.
Qed.

(** A toy text form of JSON for strings and loop states, and a sub-graph that
    asks a question while its counter is positive and then appends a letter. *)
Definition one : Ascii.ascii := Ascii.ascii_of_N 49.
Definition raw_text (f : string * option string * value) : option string :=
  match f.2 with VOther _ _ (Some (VStr s)) => Some (String one s) | _ => None end.
Definition toy_json : JsonText :=
  {| marshal := λ v, match v with
       | VStr s => Some (String one s)
       | VStruct [(_, VInt it); cur; fill] => Some (bits (encode (it, raw_text cur, raw_text fill)))
       | _ => None end;
     unmarshal := λ t, match t with String _ s => Some (VStr s) | _ => None end;
     unmarshal_loop := λ t,
       '(it, cur, fill) ← decode (A := Z * option string * option string) (unbits t);
       Some {| Iteration := it; CurrentInput := cur; UserFillUpValue := fill |} |}.

Definition append_x (_ : Z) (v : value) : error + value :=
  match v with VStr s => inr (VStr (s +:+ "x")) | _ => inl (Errorf "not a string") end.
Definition toy_invoke (_ : string) (v : value) (w : contexts * nat) : (error + value) * (contexts * nat) :=
  match w.2 with
  | 0 => (append_x 0 v, w)
  | Datatypes.S n =>
      ((λ r : (error + value) * interruptContext, match r.1 with inl e => inl e | inr _ => append_x 0 v end)
         (Interrupt (λ _, "id") WithInterruptContext (VStr "more?")),
       ({| request_ic := Some WithInterruptContext; globalContext := globalContext w.1 |}, n))
  end.
Definition toy_quit (it : Z) (_ _ : value) : error + bool := inr (bool_decide (it = 3%Z)).
Definition no_contexts : contexts := {| request_ic := None; globalContext := WithInterruptContext |}.
Definition toy_options : loopOptions := {| maxIterations := 5; checkpointIDPrefix := "n" |}.

(** A sub-graph with a counter of its calls. *)
Definition counted {S} (invoke : string → value → contexts * S → (error + value) * (contexts * S))
    : string → value → contexts * (S * nat) → (error + value) * (contexts * (S * nat)) :=
  λ id v w, let '(r, w') := invoke id v (w.1, w.2.1) in (r, (w'.1, (w'.2, Datatypes.S w.2.2))).
Definition quit_with {S} (q : Z → value → value → contexts * S → (error + bool) * (contexts * S))
    : Z → value → value → contexts * (S * nat) → (error + bool) * (contexts * (S * nat)) :=
  λ it a b w, let '(r, w') := q it a b (w.1, w.2.1) in (r, (w'.1, (w'.2, w.2.2))).

Lemma loop_from_bounded {S} J gen key options
    (invoke : string → value → contexts * S → (error + value) * (contexts * S)) q n it cur w :
  in_int64 (maxIterations options) → n = Z.to_nat (maxIterations options - it) → (0 < it)%Z →
  ∃ r w', loop_from J gen key (counted invoke) (quit_with q) options (n + 1) it cur w = Some (r, w')
    ∧ w'.2.2 ≤ w.2.2 + n + 1.
Proof.
  intros Hlim. revert it cur w. induction n as [|n IH]; intros it cur w Hn Hit; rewrite Nat.add_1_r;
    (change (loop_from J gen key (counted invoke) (quit_with q) options (Datatypes.S ?k) it cur w) with
      (match loop_body J gen key (counted invoke) (quit_with q) options it cur w with
       | (inl r, w) => Some (r, w)
       | (inr next, w) => loop_from J gen key (counted invoke) (quit_with q) options k (int_add it 1) next w
       end));
    unfold loop_body, counted, quit_with;
    destruct (invoke _ cur (w.1, w.2.1)) as [[err|next] w1];
    [destruct (IsInterrupt err); [unfold loop_interrupt; destruct (marshal J cur); [destruct (Interrupt _ _ _)|]|]
    |cbn [fst snd]; destruct (q it cur next _) as [[qerr|[]] w2]
    |destruct (IsInterrupt err); [unfold loop_interrupt; destruct (marshal J cur); [destruct (Interrupt _ _ _)|]|]
    |cbn [fst snd]; destruct (q it cur next _) as [[qerr|[]] w2]];
    try (do 2 eexists; split; [done|]; cbn; lia).
  - rewrite decide_True by lia. do 2 eexists. split; [done|]. cbn. lia.
  - rewrite decide_False by lia.
    assert (int_add it 1 = it + 1)%Z as ->.
    { apply wrap64_id. unfold in_int64, int64_min, int64_max in *. lia. }
    rewrite <- (Nat.add_1_r n).
    destruct (IH (it + 1)%Z next (w2.1, (w2.2, Datatypes.S w.2.2))) as (r & w' & Hr & Hle); [lia..|].
    exists r, w'. split; [exact Hr|]. cbn in Hle. lia.
Qed.

Lemma decode_positive J t st : decode_loop J t = Some st → (0 < Iteration st)%Z.
Proof.
  unfold decode_loop. intros (st' & _ & H)%bind_Some. case_decide; by simplify_eq.
Qed.
Lemma snapshot_positive J sub c st : loadLoopSnapshot J sub c = Some st → (0 < Iteration st)%Z.
Proof.
  unfold loadLoopSnapshot. destruct (match sub with Some (VBytes t) => _ | _ => _ end) as [st'|] eqn:E.
  - intros [= <-]. destruct sub as [[]|]; simplify_eq. by eapply decode_positive.
  - intros Hh. apply head_Some_elem_of, list_elem_of_omap in Hh as (v & _ & Hv).
    destruct v; simplify_eq; by eapply decode_positive.
Qed.

(** C37: a loop ends: for every sub-graph, condition, pending values and state to resume
    from, and whatever fails or interrupts, a run of the node returns after at most
    [maxIterations] calls of the sub-graph (one, when the limit is zero). *)
Theorem loop_bounded {S} J gen key options
    (invoke : string → value → contexts * S → (error + value) * (contexts * S)) q sub_state input w :
  in_int64 (maxIterations options) →
  ∃ r w', runLoop J gen key (counted invoke) (quit_with q) options sub_state input w = Some (r, w')
    ∧ (Z.of_nat w'.2.2 ≤ Z.of_nat w.2.2 + Z.max 1 (maxIterations options))%Z.
Proof.
  intros Hlim. unfold runLoop, loop_start.
  destruct (loadLoopSnapshot J sub_state w.1) as [st|] eqn:El.
  - pose proof (snapshot_positive _ _ _ _ El) as Hpos.
    destruct (match CurrentInput st with Some _ => _ | None => _ end) as [err|[it cur]] eqn:E.
    + do 2 eexists. split; [done|]. lia.
    + assert (it = Iteration st) as ->.
      { destruct (CurrentInput st) as [t|]; [destruct (unmarshal J t)|]; by simplify_eq. }
      destruct (loop_from_bounded J gen key options invoke q _ (Iteration st)
        (match cur with VNil => VMap ∅ | c => c end) w Hlim eq_refl Hpos) as (r & w' & Hr & Hle).
      exists r, w'. split; [|lia]. rewrite <- Hr. by destruct cur.
  - destruct (loop_from_bounded J gen key options invoke q _ 1%Z
      (match input with VNil => VMap ∅ | c => c end) w Hlim eq_refl ltac:(lia)) as (r & w' & Hr & Hle).
    exists r, w'. split; [|lia]. rewrite <- Hr. by destruct input.
Qed.

Lemma loop_bounded_witness :
  ∃ r w', runLoop toy_json (λ _, "id") "n" (counted toy_invoke) (quit_with (λ _ _ _ w, (inr false, w)))
    toy_options None (VStr "a") (no_contexts, (0, 0)) = Some (r, w') ∧ (Z.of_nat w'.2.2 ≤ 5)%Z.
Proof.
  apply (loop_bounded toy_json (λ _, "id") "n" toy_options toy_invoke).
  unfold in_int64, int64_min, int64_max. cbn. lia.
Defined.

(** ** Loops under the engine *)

Definition chr (n : N) : Ascii.ascii := Ascii.ascii_of_N n.
Definition brace : Ascii.ascii := chr 123.
Definition letter_e : Ascii.ascii := chr 101.

Lemma base64_brace b : ∃ t, base64 (String brace b) = String letter_e t.
Proof. destruct b as [|x [|y b]]; by eexists. Qed.

Lemma interrupt_payload_sub {W} {MO : MapOrder} {CK} (env : Env W) (st : RunState (CK := CK)) results v id b :
  first_interrupt results = Some [new_interrupt v id] → v ≠ VNil → json_marshal env v = Some b →
  interrupt_payload env st results !! "__sub_state__" = Some (VBytes b).
Proof.
  intros Hf Hv Hm. unfold interrupt_payload. rewrite Hf. cbn. unfold add_json at 1. rewrite Hm.
  destruct v; try done; apply lookup_insert_eq.
Qed.

(** Under the engine a loop does not resume: the state of a loop whose
    sub-graph interrupted is saved as bytes, a checkpointer that stores JSON
    gives them back as base64 text, and the node takes that text for its state
    and cannot read it, so it starts again at its first iteration.  The
    hypotheses on JSON are that the text of a struct starts with a brace and
    that no text starts with the letter e. *)
Theorem loop_state_lost {W} {MO : MapOrder} {CK} `{BC : !BaseCheckpointer CK} `{CL : !CheckpointerLaws CK}
    (env : Env W) (e : Engine W CK) st results st' x ck v id b J c :
  rs_checkpointer st = Some ck → requested_id e = None →
  first_interrupt results = Some [new_interrupt v id] → v ≠ VNil →
  json_marshal env v = Some (String brace b) → (∀ t, unmarshal_loop J (String letter_e t) = None) →
  exit_interrupted env e st results = (st', x) →
  ∃ ck' cpData t, rs_checkpointer st' = Some ck'
    ∧ load env (Engine_WithCheckpointer (Some ck') e) = inr (Some cpData)
    ∧ cpData !! "__sub_state__" = Some (VStr t)
    ∧ loadLoopSnapshot J (Some (VBytes t)) c = loadLoopSnapshot J None c.
Proof.
  intros Hck Hreq Hf Hv Hm Hj Hx. destruct (interrupted_load env e _ _ _ _ _ Hck Hreq Hx) as (ck' & Hck' & Hload).
  exists ck', (deepCopyMap (interrupt_payload env st results)), (base64 (String brace b)). split_and!; [done..| |].
  - rewrite lookup_deepCopyMap, (interrupt_payload_sub _ _ _ _ _ _ Hf Hv Hm). done.
  - destruct (base64_brace b) as [t ->]. unfold loadLoopSnapshot, decode_loop. by rewrite Hj.
Qed.

(** Texts that are an opening and a closing brace. *)
Definition brace_env : Env unit :=
  {| sprint := sprint demo_env; type_name := type_name demo_env; ctx_poll := ctx_poll demo_env;
     wait := wait demo_env; rnd := rnd demo_env; uuid := uuid demo_env; clock := clock demo_env;
     parse_time := parse_time demo_env; json_marshal := λ _, Some (String brace "}");
     json_unmarshal := json_unmarshal demo_env; set_sub_state := set_sub_state demo_env;
     sched := sched demo_env |}.
Definition brace_json : JsonText :=
  {| marshal := λ _, Some (String brace "}"); unmarshal := λ _, None;
     unmarshal_loop := λ t, match t with
       | String a _ => if decide (a = brace)
                       then Some {| Iteration := 4; CurrentInput := None; UserFillUpValue := None |} else None
       | _ => None end |}.
Definition loop_results : list TaskResult :=
  [{| r_Name := "loop"; r_Output := VNil;
      r_Err := Some (GraphInterrupt [new_interrupt (VStr "state") "id"]) |}].

Lemma loop_state_lost_witness :
  ∃ ck' cpData t, rs_checkpointer (exit_interrupted brace_env (demo_engine diamond) demo_state loop_results).1 = Some ck'
    ∧ load brace_env (Engine_WithCheckpointer (Some ck') (demo_engine diamond)) = inr (Some cpData)
    ∧ cpData !! "__sub_state__" = Some (VStr t)
    ∧ loadLoopSnapshot brace_json (Some (VBytes t)) no_contexts = None
    ∧ is_Some (loadLoopSnapshot brace_json (Some (VBytes (String brace "}"))) no_contexts).
Proof.
  destruct (loop_state_lost brace_env (demo_engine diamond) demo_state loop_results
    (exit_interrupted brace_env (demo_engine diamond) demo_state loop_results).1
    (exit_interrupted brace_env (demo_engine diamond) demo_state loop_results).2
    NewMemorySaver (VStr "state") "id" "}" brace_json no_contexts)
    as (ck' & cpData & t & H1 & H2 & H3 & H4);
    [reflexivity..|discriminate|reflexivity|reflexivity|apply surjective_pairing|].
  exists ck', cpData, t. split_and!; [done..| |by eexists]. by rewrite H4.
Defined.

(** ** Questions *)

(** The answers to a node's questions: a node that asks [n] questions and
    is run with [k] values to resume with gets the values in order; it ends
    when [n <= k] and is interrupted at question [k] otherwise. *)
Theorem questions_answered gen values questions :
  let ic := {| resumeValues := values; ic_index := 0; nullResume := VNil |} in
  (ask_all gen ic questions).1 =
    match questions !! length values with
    | None => inr (take (length questions) values)
    | Some q => inl (GraphInterrupt [new_interrupt q (gen q)])
    end.
Proof.
  cbn zeta. set (ic := {| resumeValues := values; ic_index := 0; nullResume := VNil |}).
  destruct (questions !! length values) as [q|] eqn:Eq.
  - rewrite <- (take_drop_middle _ _ _ Eq).
    pose proof (lookup_lt_Some _ _ _ Eq) as Hlt.
    assert (Hlen : length (take (length values) questions) = length values) by (rewrite length_take; lia).
    rewrite (ask_all_app gen ic _ (q :: drop (S (length values)) questions)
      (take (length values) values) {| resumeValues := values; ic_index := Z.of_nat (length values); nullResume := VNil |}).
    + cbn [ask_all]. rewrite Interrupt_unanswered; [done|]. split; [cbn; lia|done].
    + rewrite (ask_all_answered gen ic 0) by (cbn; lia || done). cbn. by rewrite Hlen.
  - apply lookup_ge_None in Eq.
    rewrite (ask_all_answered gen ic 0) by (cbn; lia || done). done.
Qed.

(** A null resume is consumed without advancing the index, so it answers two
    questions. *)
Lemma null_resume_twice gen q1 q2 v :
  v ≠ VNil →
  (ask_all gen {| resumeValues := []; ic_index := 0; nullResume := v |} [q1; q2]).1 = inr [v; v].
Proof. intros Hv. by destruct v. Qed.
