(* ===== verification/ParallelProps.v ===== *)
(** * Properties of the parallel node *)

From S2P Require Import Prelude GoValue Errors Interrupt SubGraph SubGraphProps.
From stdpp Require Import pretty.

Definition all_indices (n : nat) : list Z := map Z.of_nat (seq 0 n).

Section outcomes.
(** The outcome of each item. *)
Context (out : Z → error + value).

Definition item_result (i : Z) : parallelItemResult := {| pr_index := i; pr_outcome := out i |}.

(** What the node returns for an item that failed. *)
Definition failure (i : Z) : option error :=
  match out i with
  | inl err => if IsInterrupt err then None
               else Some (Wrapf ("graph: parallel item failed: item " +:+ pretty i +:+ ": ") err)
  | inr _ => None
  end.

(** An item that is not an error: a value or an interrupt. *)
Definition fine (i : Z) : Prop :=
  match out i with inr _ => True | inl err => IsInterrupt err = true end.
Definition interrupted (i : Z) : bool := match out i with inr _ => false | inl _ => true end.

Lemma set_output_lookup o i v j :
  (0 ≤ i)%Z →
  set_output o i v !! j
  = if decide (i = Z.of_nat j ∧ j < length o) then Some v else o !! j.
Proof.
  intros Hi. unfold set_output. case_decide as H1; case_decide as H2.
  - destruct H2 as [-> H2]. rewrite Nat2Z.id. by apply list_lookup_insert_eq.
  - rewrite list_lookup_insert_ne; [done|]. intros <-. apply H2. lia.
  - lia.
  - done.
Qed.
Lemma set_output_length o i v : length (set_output o i v) = length o.
Proof. unfold set_output. case_decide; [apply length_insert|done]. Qed.

(** What a collected list of results holds. *)
Record collects (js : list Z) (c c' : collected) : Prop := {
  cs_length : length (co_outputs c') = length (co_outputs c);
  cs_outputs j : j < length (co_outputs c) →
    co_outputs c' !! j = match out (Z.of_nat j) with
                         | inr v => if decide (Z.of_nat j ∈ js) then Some v else co_outputs c !! j
                         | inl _ => co_outputs c !! j end;
  cs_completed i : co_completed c' !! i = match out i with
                         | inr v => if decide (i ∈ js) then Some v else co_completed c !! i
                         | inl _ => co_completed c !! i end;
  cs_interrupt : co_interrupt c' = co_interrupt c || existsb interrupted js;
  cs_error : co_error c' = co_error c;
}.

Lemma collect_spec js c :
  Forall (λ i, (0 ≤ i)%Z ∧ fine i) js → collects js c (foldl collect_one c (map item_result js)).
Proof.
  revert c. induction js as [|i js IH]; intros c Hall; cbn [foldl map].
  - split; [done|..].
    + intros j _. by destruct (out (Z.of_nat j)).
    + intros i. by destruct (out i).
    + cbn. by rewrite orb_false_r.
    + done.
  - apply Forall_cons in Hall as [[Hi Hf] Hall]. destruct (IH (collect_one c (item_result i)) Hall) as [H1 H2 H3 H4 H5].
    unfold collect_one in *. cbn [pr_outcome pr_index item_result] in *. unfold fine in Hf.
    destruct (out i) as [err|v] eqn:Eo.
    + rewrite Hf in *. cbn [co_outputs co_completed co_interrupt co_error] in *.
      assert (Hin : ∀ j, i = j → out j = inl err) by (by intros j <-).
      split; [done|..|done].
      * intros j Hj. rewrite H2 by done. destruct (out (Z.of_nat j)) as [e|v] eqn:E; [done|].
        assert (i ≠ Z.of_nat j) by (intros Heq; rewrite (Hin _ Heq) in E; done).
        do 2 case_decide; set_solver.
      * intros j. rewrite H3. destruct (out j) as [e|v] eqn:E; [done|].
        assert (i ≠ j) by (intros Heq; rewrite (Hin _ Heq) in E; done).
        do 2 case_decide; set_solver.
      * assert (Hii : interrupted i = true) by (unfold interrupted; by rewrite Eo).
        rewrite H4. cbn [existsb]. rewrite Hii. by destruct (co_interrupt c).
    + cbn [co_outputs co_completed co_interrupt co_error] in *. rewrite set_output_length in *.
      split; [done|..|done].
      * intros j Hj. rewrite H2 by done. rewrite set_output_lookup by done.
        destruct (out (Z.of_nat j)) as [e|v'] eqn:E.
        { rewrite decide_False; [done|]. intros [-> _]. by rewrite E in Eo. }
        destruct (decide (i = Z.of_nat j)) as [->|Hne].
        -- rewrite E in Eo. simplify_eq. rewrite (decide_True (P := _ ∧ _)) by done.
           rewrite (decide_True (P := _ ∈ _ :: _)) by set_solver. by case_decide.
        -- rewrite (decide_False (P := _ ∧ _)) by naive_solver. do 2 case_decide; set_solver.
      * intros j. rewrite H3. destruct (decide (i = j)) as [->|Hne].
        -- rewrite Eo, lookup_insert_eq, (decide_True (P := _ ∈ _ :: _)) by set_solver. by case_decide.
        -- rewrite lookup_insert_ne by done. destruct (out j); [done|]. do 2 case_decide; set_solver.
      * assert (Hii : interrupted i = false) by (unfold interrupted; by rewrite Eo).
        rewrite H4. cbn [existsb]. by rewrite Hii.
Qed.

Lemma collects_perm js js' c c' : js ≡ₚ js' → collects js c c' → collects js' c c'.
Proof.
  intros Hp [H1 H2 H3 H4 H5]. assert (Hin : ∀ i, i ∈ js ↔ i ∈ js') by (intros i; by rewrite Hp).
  split; [done|..|done].
  - intros j Hj. rewrite H2 by done. destruct (out (Z.of_nat j)); [done|]. by rewrite (decide_ext _ _ _ _ (Hin _)).
  - intros i. rewrite H3. destruct (out i); [done|]. by rewrite (decide_ext _ _ _ _ (Hin _)).
  - rewrite H4. f_equal. apply eq_true_iff_eq. rewrite !existsb_exists.
    split; intros (i & Hi & ?); exists i; (split; [|done]); apply list_elem_of_In, Hin, list_elem_of_In; done.
Qed.

(** The first error that arrives is kept. *)
Lemma collect_error js c :
  co_error (foldl collect_one c (map item_result js))
  = match co_error c with Some e => Some e | None => head (omap failure js) end.
Proof.
  revert c. induction js as [|i js IH]; intros c; cbn [foldl map omap list_omap]; [by destruct (co_error c)|].
  rewrite IH. unfold collect_one, failure. cbn [pr_outcome pr_index item_result].
  destruct (out i) as [err|v]; [destruct (IsInterrupt err)|]; cbn [co_error]; by destruct (co_error c).
Qed.

Lemma no_failure js : head (omap failure js) = None → Forall fine js.
Proof.
  induction js as [|i js IH]; [constructor|]. cbn [omap list_omap]. unfold failure, fine.
  destruct (out i) as [err|v] eqn:E; [destruct (IsInterrupt err) eqn:Ei; [|done]|]; (constructor; [by rewrite E|by apply IH]).
Qed.
End outcomes.

(** ** The runs of the items *)

Definition answer_in (rs : list parallelItemResult) (i : Z) : error + value :=
  match filter (λ r, pr_index r = i) rs with r :: _ => pr_outcome r | [] => inr VNil end.

Lemma answers_of rs : NoDup (map pr_index rs) → rs = map (item_result (answer_in rs)) (map pr_index rs).
Proof.
  induction rs as [|r rs IH]; [done|]. cbn [map]. intros [Hn Hd]%NoDup_cons.
  assert (Hr : item_result (answer_in (r :: rs)) (pr_index r) = r).
  { unfold item_result, answer_in. rewrite filter_cons, decide_True by done. by destruct r. }
  rewrite Hr. f_equal. rewrite (IH Hd) at 1. apply map_ext_in. intros i Hi. unfold item_result, answer_in.
  rewrite filter_cons, decide_False; [done|]. intros <-. by apply Hn, list_elem_of_In.
Qed.

Section parallel.
Context {S : Type} (J : ParallelJson) (gen : value → string) (key : string) (options : parallelOptions).
Context (invoke : string → value → contexts * S → go (error + value) * (contexts * S)).
Context (order : list Z → list Z) (Horder : ∀ l, order l ≡ₚ l).
Context (items : list value).

Lemma run_items_indices indices w : map pr_index (run_items key invoke items indices w).1 = indices.
Proof.
  revert w. induction indices as [|i indices IH]; intros w; [done|]. cbn [run_items].
  assert (Hi : pr_index (runOne key invoke items i w).1 = i).
  { unfold runOne. destruct (if decide _ then _ else _); [|done]. by destruct (invoke _ _ _). }
  destruct (runOne key invoke items i w) as [r w1]. specialize (IH w1).
  destruct (run_items key invoke items indices w1) as [rs w2]. cbn in *. by rewrite Hi, IH.
Qed.

(** The items run one after another, each once, in some order. *)
Lemma fanOut_arrival indices w : NoDup indices →
  ∃ out arrival w1, arrival ≡ₚ indices ∧ run_items key invoke items arrival w = (map (item_result out) arrival, w1)
    ∧ fanOutItems key options invoke order items indices w = (map (item_result out) arrival, w1).
Proof.
  intros Hn. assert (Ha : ∀ arrival, arrival ≡ₚ indices → ∃ out w1,
    run_items key invoke items arrival w = (map (item_result out) arrival, w1)).
  { intros arrival Hp. pose proof (run_items_indices arrival w) as Hi.
    destruct (run_items key invoke items arrival w) as [rs w1]. cbn in Hi. exists (answer_in rs), w1. f_equal.
    rewrite <- Hi. apply answers_of. rewrite Hi. by rewrite Hp. }
  unfold fanOutItems. case_decide.
  - destruct (Ha indices) as (out & w1 & E); [done|]. by exists out, indices, w1.
  - destruct indices as [|i rest].
    + destruct (Ha []) as (out & w1 & E); [done|]. exists out, [], w1. split_and!; [done|done|]. cbn in *. by simplify_eq.
    + destruct (Ha (i :: order rest)) as (out & w1 & E); [by rewrite Horder|]. exists out, (i :: order rest), w1.
      split_and!; [by rewrite Horder|done|done].
Qed.

(** A run, from its start. *)
Lemma runParallel_spec w total outputs indices bridge :
  parallel_start J items w.1 = (total, outputs, indices, bridge) → NoDup indices → Forall (λ i, 0 ≤ i)%Z indices →
  ∃ out arrival w1, arrival ≡ₚ indices ∧ run_items key invoke items arrival w = (map (item_result out) arrival, w1) ∧
    match head (omap (failure out) arrival) with
    | Some err => runParallel J gen key options invoke order items w = (inl err, w1)
    | None =>
        ∃ c, collects out indices {| co_outputs := outputs; co_completed := ∅; co_interrupt := false; co_error := None |} c ∧
          runParallel J gen key options invoke order items w
          = if existsb (interrupted out) indices
            then parallel_interrupt J gen items total (co_completed c) bridge w1
            else (inr (VList (co_outputs c)), w1)
    end.
Proof.
  intros Hstart Hn Hpos. destruct (fanOut_arrival indices w Hn) as (out & arrival & w1 & Hp & Hrun & Hf).
  exists out, arrival, w1. split_and!; [done|done|]. unfold runParallel. rewrite Hstart.
  set (c0 := {| co_outputs := outputs; co_completed := ∅; co_interrupt := false; co_error := None |}).
  pose proof (collect_error out arrival c0) as He. cbn [co_error c0] in He.
  destruct (head (omap (failure out) arrival)) as [err|] eqn:Eh.
  - destruct indices as [|i rest]; [apply Permutation_nil_r in Hp; by subst|]. by rewrite Hf, He.
  - assert (Hc : Forall (λ i, (0 ≤ i)%Z ∧ fine out i) arrival).
    { apply Forall_and. split; [by rewrite Hp|by apply no_failure]. }
    pose proof (collects_perm _ _ _ _ _ Hp (collect_spec out arrival c0 Hc)) as Hcs.
    eexists. split; [exact Hcs|]. destruct indices as [|i rest].
    + apply Permutation_nil_r in Hp as ->. cbn in Hrun. by simplify_eq.
    + rewrite Hf, He, (cs_interrupt _ _ _ _ Hcs). done.
Qed.
End parallel.

Lemma parallel_interrupt_saves {S} J gen items total completed bridge (w : contexts * S) text :
  unanswered (the_context w.1) → marshal_items J items = Some text →
  let st := {| OriginalInputsJSON := text; CompletedResults := completed;
               InterruptedIndices := pending_indices total completed; TotalCount := total;
               ItemCheckpoints := bridge |} in
  (parallel_interrupt J gen items total completed bridge w).1
  = inl (GraphInterrupt [new_interrupt (parallel_value st) (gen (parallel_value st))]).
Proof.
  intros Hu Hm. unfold parallel_interrupt. rewrite Hm. rewrite (Interrupt_unanswered _ _ _ Hu). done.
Qed.

Lemma elem_of_all_indices n i : i ∈ all_indices n ↔ (0 ≤ i < Z.of_nat n)%Z.
Proof.
  unfold all_indices. rewrite list_elem_of_fmap. setoid_rewrite elem_of_seq. split.
  - intros (k & -> & Hk). lia.
  - intros Hi. exists (Z.to_nat i). lia.
Qed.
Lemma all_indices_lookup n j : j < n → all_indices n !! j = Some (Z.of_nat j).
Proof. intros Hj. unfold all_indices. rewrite list_lookup_fmap, lookup_seq_lt by done. done. Qed.
Lemma all_outputs (f : Z → value) n o :
  length o = n → (∀ j, j < n → o !! j = Some (f (Z.of_nat j))) → o = map f (all_indices n).
Proof.
  intros Hl Ho. apply list_eq. intros j. rewrite list_lookup_fmap.
  destruct (decide (j < n)) as [Hj|Hj].
  - by rewrite Ho, all_indices_lookup.
  - rewrite !lookup_ge_None_2; [done|unfold all_indices; rewrite length_map, length_seq; lia|lia].
Qed.

Lemma no_interrupt (out : Z → error + value) l :
  existsb (interrupted out) l = false ↔ filter (λ i, interrupted out i = true) l = [].
Proof.
  induction l as [|i l IH]; [done|]. rewrite filter_cons. cbn. destruct (interrupted out i) eqn:E; cbn.
  - by rewrite decide_True.
  - by rewrite decide_False.
Qed.

Lemma list_filter_in {A} (P Q : A → Prop) `{∀ x, Decision (P x), ∀ x, Decision (Q x)} (l : list A) :
  (∀ x, x ∈ l → P x ↔ Q x) → filter P l = filter Q l.
Proof.
  induction l as [|x l IH]; intros Hpq; [done|]. rewrite !filter_cons, IH by set_solver.
  rewrite (decide_ext (P x) (Q x)) by (apply Hpq; set_solver). done.
Qed.

Lemma all_indices_NoDup n : NoDup (all_indices n).
Proof. apply NoDup_fmap; [by intros ?? ?%Nat2Z.inj|apply NoDup_seq]. Qed.

(** The values that the items gave. *)
Definition results (out : Z → error + value) (n : nat) : gmap Z value :=
  list_to_map (omap (λ i, match out i with inr v => Some (i, v) | inl _ => None end) (all_indices n)).
Definition value_of (out : Z → error + value) (i : Z) : value := match out i with inr v => v | inl _ => VNil end.

Lemma results_lookup out n i :
  results out n !! i = match out i with inr v => if decide (i ∈ all_indices n) then Some v else None | inl _ => None end.
Proof.
  unfold results. pose proof (all_indices_NoDup n) as Hn. revert Hn. generalize (all_indices n). intros l.
  induction l as [|j l IH]; intros Hn; cbn [omap list_omap].
  { cbn [list_to_map foldr]. destruct (out i); [done|]. by rewrite decide_False by apply not_elem_of_nil. }
  apply NoDup_cons in Hn as [Hj Hn]. specialize (IH Hn). destruct (decide (i = j)) as [->|Hne].
  - destruct (out j) as [err|v] eqn:E; [done|]. cbn [list_to_map foldr fst snd].
    rewrite lookup_insert_eq. by rewrite decide_True by set_solver.
  - assert (Hd : ∀ v : value, (if decide (i ∈ j :: l) then Some v else None) = if decide (i ∈ l) then Some v else None).
    { intros v. do 2 case_decide; set_solver. }
    destruct (out j); [|cbn [list_to_map foldr fst snd]; rewrite lookup_insert_ne by done];
      rewrite IH; destruct (out i); done || by rewrite Hd.
Qed.

Lemma pending_results out n : pending_indices (Z.of_nat n) (results out n) = filter (λ i, interrupted out i = true) (all_indices n).
Proof.
  unfold pending_indices. rewrite Nat2Z.id. fold (all_indices n). apply list_filter_in. intros i Hi.
  rewrite results_lookup. unfold interrupted. destruct (out i); [done|]. by rewrite decide_True.
Qed.

(** The state saved when an item was interrupted. *)
Definition paused (out : Z → error + value) (text : string) (n : nat) : parallelInterruptState :=
  {| OriginalInputsJSON := text; CompletedResults := results out n;
     InterruptedIndices := filter (λ i, interrupted out i = true) (all_indices n);
     TotalCount := Z.of_nat n; ItemCheckpoints := ∅ |}.

(** C38: a fresh run of a parallel node, for every sub-graph, every concurrency and every
    order of the goroutines: each item is run once, and the outcome depends only on
    the outcomes of the items.  When items failed, it is the failure that arrived
    first; when none failed and none interrupted, it is the list of all outputs in
    the order of the items; and otherwise the node interrupts, and when no value to
    resume with is pending and the inputs have a JSON text, with a state that has
    exactly the values of the items that gave one, and whose pending indices are
    exactly the items that interrupted. *)
Theorem parallel_outcome {S} J gen key options invoke order (items : list value) (w : contexts * S) :
  (∀ l, order l ≡ₚ l) → loadParallelSnapshot J w.1 = None →
  let all := all_indices (length items) in
  ∃ out arrival w1, arrival ≡ₚ all ∧ run_items key invoke items arrival w = (map (item_result out) arrival, w1) ∧
    let node := runParallel J gen key options invoke order items w in
    match head (omap (failure out) arrival), filter (λ i, interrupted out i = true) all with
    | Some err, _ => node = (inl err, w1)
    | None, [] => node = (inr (VList (map (value_of out) all)), w1)
    | None, _ =>
        node = parallel_interrupt J gen items (Z.of_nat (length items)) (results out (length items)) ∅ w1
        ∧ ∀ text, unanswered (the_context w1.1) → marshal_items J items = Some text →
            let st := paused out text (length items) in
            node.1 = inl (GraphInterrupt [new_interrupt (parallel_value st) (gen (parallel_value st))])
    end.
Proof.
  intros Hord Hnone all.
  destruct (runParallel_spec J gen key options invoke order Hord items w (Z.of_nat (length items))
    (replicate (length items) VNil) all ∅) as (out & arrival & w1 & Hp & Hrun & Hnode).
  { unfold parallel_start. by rewrite Hnone. }
  { apply all_indices_NoDup. }
  { apply Forall_forall. intros i Hi%elem_of_all_indices. lia. }
  exists out, arrival, w1. split_and!; [done|done|]. cbn zeta. destruct (head _) as [err|] eqn:Eh; [done|].
  assert (Hfine : Forall (fine out) all) by (rewrite <- Hp; by apply no_failure).
  destruct Hnode as (c & [Hl Ho Hc _ _] & ->). cbn [co_outputs co_completed] in *. rewrite length_replicate in Ho.
  destruct (filter _ all) as [|i l] eqn:Ef.
  - rewrite (proj2 (no_interrupt out all) Ef). do 3 f_equal.
    apply all_outputs; [by rewrite Hl, length_replicate|]. intros j Hj. rewrite Ho by done.
    assert (Hi : Z.of_nat j ∈ all) by (apply elem_of_all_indices; lia). unfold value_of.
    destruct (out (Z.of_nat j)) as [err|v] eqn:E; [exfalso|by rewrite decide_True].
    assert (Hin : Z.of_nat j ∈ filter (λ i, interrupted out i = true) all).
    { apply list_elem_of_filter. split; [unfold interrupted; by rewrite E|done]. }
    rewrite Ef in Hin. set_solver.
  - destruct (existsb (interrupted out) all) eqn:Eint; [|apply no_interrupt in Eint; congruence].
    assert (Hcs : co_completed c = results out (length items)).
    { apply map_eq. intros j. rewrite Hc, results_lookup, lookup_empty. done. }
    rewrite Hcs. split; [done|]. intros text Hun Hm.
    rewrite (parallel_interrupt_saves _ _ _ _ _ _ _ text) by done. by rewrite pending_results.
Qed.

(** Three items, of which the second asks a question first; the concurrency is
    two and the goroutines finish in the reverse order. *)
Definition demo_items : list value := [VStr "a"; VStr "b"; VStr "c"].
Definition demo_f (i : Z) : value := VInt (10 * i).
Definition demo_out (i : Z) : error + value :=
  if decide (i = 1%Z) then inl (GraphInterrupt [new_interrupt (VStr "b?") "q"]) else inr (demo_f i).
Definition item_of (id : string) : Z :=
  if decide (id = "parallel:p:item:0") then 0 else if decide (id = "parallel:p:item:1") then 1 else 2.
Definition demo_invoke (out : Z → error + value) (id : string) (_ : value) (w : contexts * nat)
    : go (error + value) * (contexts * nat) := (Ret (out (item_of id)), (w.1, S w.2)).
Definition demo_pjson : ParallelJson :=
  {| marshal_items := λ _, Some "[]"; unmarshal_parallel := λ _, Some (paused demo_out "[]" 3) |}.
Definition resuming : contexts :=
  {| request_ic := Some {| resumeValues := [VStr "{}"]; ic_index := 1; nullResume := VNil |};
     globalContext := WithInterruptContext |}.
Definition two : parallelOptions := {| maxConcurrency := 2 |}.

Definition demo_node : (error + value) * (contexts * nat) :=
  runParallel demo_pjson (λ _, "id") "p" two (demo_invoke demo_out) (@reverse Z) demo_items (no_contexts, 0).

Lemma parallel_outcome_witness :
  (∃ out arrival w1, arrival ≡ₚ [0%Z; 1%Z; 2%Z] ∧
     run_items "p" (demo_invoke demo_out) demo_items arrival (no_contexts, 0) = (map (item_result out) arrival, w1) ∧
     ∀ err, head (omap (failure out) arrival) = Some err → demo_node = (inl err, w1))
  ∧ demo_node.1 = inl (GraphInterrupt [new_interrupt (parallel_value (paused demo_out "[]" 3)) "id"])
  ∧ InterruptedIndices (paused demo_out "[]" 3) = [1%Z]
  ∧ CompletedResults (paused demo_out "[]" 3) = {[0%Z := VInt 0; 2%Z := VInt 20]}.
Proof.
  split; [|split_and!; vm_compute; reflexivity].
  destruct (parallel_outcome demo_pjson (λ _, "id") "p" two (demo_invoke demo_out) (@reverse Z) demo_items (no_contexts, 0))
    as (out & arrival & w1 & Hp & Hrun & Hnode); [intros l; apply reverse_Permutation|reflexivity|].
  exists out, arrival, w1. split; [exact Hp|]. split; [exact Hrun|]. intros err Herr. cbn zeta in Hnode. rewrite Herr in Hnode. exact Hnode.
Defined.

(** A second interrupt loses results: when a resumed run is interrupted
    again, its state holds the results of that run only, so the items that
    earlier runs had completed are pending again and will be run again. *)
Theorem parallel_forgets {S} J gen key options invoke order (items : list value) (w : contexts * S) prev text :
  (∀ l, order l ≡ₚ l) → loadParallelSnapshot J w.1 = Some prev →
  NoDup (InterruptedIndices prev) → Forall (λ i, 0 ≤ i)%Z (InterruptedIndices prev) → marshal_items J items = Some text →
  ∃ out arrival w1, arrival ≡ₚ InterruptedIndices prev ∧
    run_items key invoke items arrival w = (map (item_result out) arrival, w1) ∧
    (head (omap (failure out) arrival) = None → existsb (interrupted out) (InterruptedIndices prev) = true →
     unanswered (the_context w1.1) →
     ∃ st, (runParallel J gen key options invoke order items w).1
           = inl (GraphInterrupt [new_interrupt (parallel_value st) (gen (parallel_value st))])
       ∧ ∀ i, (0 ≤ i < TotalCount prev)%Z → i ∉ InterruptedIndices prev →
           i ∈ InterruptedIndices st ∧ CompletedResults st !! i = None).
Proof.
  intros Hord Hsnap Hn Hpos Hm.
  destruct (runParallel_spec J gen key options invoke order Hord items w _ _ _ _
    ltac:(unfold parallel_start; rewrite Hsnap; reflexivity) Hn Hpos) as (out & arrival & w1 & Hp & Hrun & Hnode).
  exists out, arrival, w1. split_and!; [done|done|]. intros Hh Hint Hun. rewrite Hh in Hnode.
  destruct Hnode as (c & [_ _ Hc _ _] & ->).
  rewrite Hint, (parallel_interrupt_saves _ _ _ _ _ _ _ text) by done. eexists. split; [done|]. cbn.
  intros i Hi Hnot. assert (Hnone : co_completed c !! i = None).
  { rewrite Hc. destruct (out i); [apply lookup_empty|]. rewrite decide_False by done. apply lookup_empty. }
  split; [|done]. apply list_elem_of_filter. split; [done|]. apply elem_of_all_indices. lia.
Qed.

Example forgotten_results :
  match (runParallel demo_pjson (λ _, "id") "p" two (demo_invoke demo_out) (@reverse Z) demo_items (resuming, 0)).1 with
  | inl (GraphInterrupt _) => CompletedResults (paused demo_out "[]" 3) !! 0%Z = Some (VInt 0)
  | _ => False
  end.
Proof. vm_compute. reflexivity. Qed.
