(* ===== verification/TitleProps.v ===== *)
(** * Properties of token counts, of message fitting, of heading levels and of the token
    ceiling *)

From S2P Require Import Prelude GoValue Tokenizer TitleLevels TitleGroups.

(** ** Properties of token counts, of message fitting and of heading levels *)

Definition prefix_of (p s : string) : Prop := ∃ r, s = p +:+ r.

Lemma prefix_of_refl s : prefix_of s s.
Proof. exists "". by rewrite string_app_nil. Qed.
Lemma prefix_of_empty s : prefix_of "" s.
Proof. by exists s. Qed.
#[export] Hint Resolve prefix_of_refl prefix_of_empty : graph.

Lemma substring_prefix n s : prefix_of (String.substring 0 n s) s.
Proof.
  revert s. induction n as [|n IH]; intros s; [destruct s; apply prefix_of_empty|].
  destruct s as [|a s]; [apply prefix_of_empty|]. destruct (IH s) as [r Hr].
  exists r. cbn. by rewrite string_app_cons, <- Hr.
Qed.

Lemma byte_trim_prefix s n : prefix_of (byte_trim s n) s.
Proof.
  induction n as [|n IH]; [apply prefix_of_empty|]. cbn [byte_trim].
  destruct (utf8_valid _); [apply substring_prefix|done].
Qed.

Section tokens.
Context (enc : option Encoder).
Notation num := (NumTokensFromString enc).
Notation trim := (TrimContentToTokenLimit enc).

Lemma num_nonneg s : (0 ≤ num s)%Z.
Proof. unfold NumTokensFromString. case_decide; [lia|]. destruct enc; lia. Qed.

Lemma trim_num s limit : covered enc s → (num (trim s limit) ≤ Z.max 0 limit)%Z.
Proof.
  intros Hcov. unfold TrimContentToTokenLimit, NumTokensFromString. destruct enc as [e|] eqn:Ee; [|case_decide; lia].
  destruct (Hcov _ eq_refl) as [L Ha]. case_decide as Hfit; case_decide; try lia.
  pose proof (encode_prefix s (Z.to_nat (Z.max 0 limit)) Ha). lia.
Qed.

Lemma trim_prefix s limit : covered enc s → prefix_of (trim s limit) s.
Proof.
  intros Hcov. unfold TrimContentToTokenLimit. destruct enc as [e|] eqn:Ee.
  - destruct (Hcov _ eq_refl) as [L Ha]. case_decide; [apply prefix_of_refl|].
    exists (decode_text e (drop (Z.to_nat (Z.max 0 limit)) (encode_text e s))).
    by rewrite <- decode_app, take_drop, decode_encode_text.
  - case_decide; [apply prefix_of_empty|]. case_decide; [apply prefix_of_refl|apply byte_trim_prefix].
Qed.

Lemma count_from l acc : foldl (λ total m, (total + num (Content m))%Z) acc l = (acc + countTokens enc l)%Z.
Proof.
  unfold countTokens. revert acc. induction l as [|m l IH]; intros acc; cbn; [lia|].
  rewrite IH, (IH (0 + num (Content m))%Z). lia.
Qed.
Lemma countTokens_cons m l : countTokens enc (m :: l) = (num (Content m) + countTokens enc l)%Z.
Proof. unfold countTokens at 1. cbn. by rewrite count_from. Qed.
Lemma countTokens_app l1 l2 : countTokens enc (l1 ++ l2) = (countTokens enc l1 + countTokens enc l2)%Z.
Proof. induction l1 as [|m l1 IH]; [done|]. cbn [app]. rewrite !countTokens_cons, IH. lia. Qed.
Lemma countTokens_nonneg l : (0 ≤ countTokens enc l)%Z.
Proof. induction l as [|m l IH]; [done|]. rewrite countTokens_cons. pose proof (num_nonneg (Content m)). lia. Qed.
Lemma countTokens_emptied l : countTokens enc (map (λ m, with_content m "") l) = 0%Z.
Proof. induction l as [|m l IH]; [done|]. cbn [map]. rewrite countTokens_cons, IH. done. Qed.

(** A trimmed message: the same role, a prefix of the content. *)
Definition trimmed (m m' : Message) : Prop := Role m' = Role m ∧ prefix_of (Content m') (Content m).
Lemma trimmed_refl m : trimmed m m.
Proof. split; [done|apply prefix_of_refl]. Qed.
Lemma trimmed_trim m limit : covered enc (Content m) → trimmed m (with_content m (trim (Content m) limit)).
Proof. intros. split; [done|by apply trim_prefix]. Qed.
Definition all_covered (l : list Message) : Prop := Forall (λ m, covered enc (Content m)) l.
Lemma trimmed_all l : Forall2 trimmed l l.
Proof. induction l; constructor; [apply trimmed_refl|done]. Qed.

Lemma trim_each_spec b t rem l :
  (0 ≤ rem)%Z → all_covered l →
  (countTokens enc (trim_each enc b t rem l) ≤ rem)%Z ∧ Forall2 trimmed l (trim_each enc b t rem l).
Proof.
  intros Hrem Hall. revert rem Hrem. induction Hall as [|m l Hm Hall IH]; intros rem Hrem; [done|]. cbn [trim_each].
  set (limit := match l with [] => rem | _ => _ end).
  assert (Hl : (limit ≤ rem)%Z) by (subst limit; destruct l; lia).
  pose proof (trim_num (Content m) limit Hm) as Ht.
  destruct (IH (rem - num (trim (Content m) limit))%Z) as [H1 H2]; [lia|].
  split; [rewrite countTokens_cons; cbn [Content with_content]; lia|]. constructor; [by apply trimmed_trim|done].
Qed.

Lemma trimSystems_spec l b :
  (0 ≤ b)%Z → all_covered l → (countTokens enc (trimSystems enc l b) ≤ b)%Z ∧ Forall2 trimmed l (trimSystems enc l b).
Proof.
  intros Hb Hall. unfold trimSystems. case_decide as H0; [|case_decide as H1].
  - rewrite countTokens_emptied. split; [lia|]. clear. induction l; cbn; constructor; [|done].
    split; [done|apply prefix_of_empty].
  - split; [lia|apply trimmed_all].
  - by apply trim_each_spec.
Qed.

Lemma fit_trim_spec other b kept :
  (0 < b)%Z → kept ≠ [] → all_covered kept →
  let '(kept', count) := fit_trim enc other b kept in
  Forall2 trimmed kept kept' ∧ (countTokens enc kept' ≤ b)%Z
  ∧ match count with Some n => n = countTokens enc kept' | None => True end.
Proof.
  intros Hb Hne Hall. unfold fit_trim. destruct kept as [|m [|m2 kept]]; [done| |].
  - apply Forall_cons in Hall as [Hm _]. split; [constructor; [by apply trimmed_trim|done]|]. split; [|done].
    rewrite countTokens_cons. pose proof (trim_num (Content m) b Hm). cbn. lia.
  - set (l := m :: m2 :: kept) in *. destruct other; cbn [negb].
    2: { destruct (trimSystems_spec l b) as [H1 H2]; [lia|done|]. done. }
    destruct (last l) as [x|] eqn:El; [|by apply last_None in El].
    apply last_snoc_inv in El as [l' El]. rewrite El in Hall |- *. apply Forall_app in Hall as [Hl' Hcx].
    apply Forall_cons in Hcx as [Hcx _].
    assert (take (length (l' ++ [x]) - 1) (l' ++ [x]) = l') as ->.
    { rewrite length_app. cbn. by rewrite Nat.add_sub, take_app_length. }
    pose proof (countTokens_nonneg l') as Hn1. pose proof (num_nonneg (Content x)) as Hn2.
    assert (Hx : ∀ lim, Forall2 trimmed [x] [with_content x (trim (Content x) lim)]).
    { intros lim. constructor; [by apply trimmed_trim|done]. }
    case_decide as Hz; [|destruct (f64_gt _ _)].
    + split; [apply trimmed_all|]. rewrite countTokens_app, countTokens_cons. change (countTokens enc []) with 0%Z. split; lia.
    + set (p := Z.min (num (Content x)) b). destruct (trimSystems_spec l' (Z.max 0 (b - p))) as [H1 H2]; [lia|done|].
      split; [by apply Forall2_app|]. rewrite countTokens_app, countTokens_cons. cbn [Content with_content].
      change (countTokens enc []) with 0%Z. pose proof (trim_num (Content x) p Hcx). split; [lia|done].
    + set (p := Z.min (countTokens enc l') b). destruct (trimSystems_spec l' p) as [H1 H2]; [lia|done|].
      split; [by apply Forall2_app|]. rewrite countTokens_app, countTokens_cons. cbn [Content with_content].
      change (countTokens enc []) with 0%Z. pose proof (trim_num (Content x) (Z.max 0 (b - p)) Hcx). split; [lia|done].
Qed.

End tokens.

(** What is kept: messages of the conversation at their indices, trimmed. *)
Definition kept_from (msgs : list Message) (i : Z) (m' : Message) : Prop :=
  ∃ m, msgs !! Z.to_nat i = Some m ∧ trimmed m m'.

Lemma indexed_lookup msgs i m : (i, m) ∈ indexed msgs ↔ msgs !! i = Some m.
Proof.
  unfold indexed. rewrite list_elem_of_lookup. setoid_rewrite list_lookup_imap. split.
  - intros (k & Hk). destruct (msgs !! k) eqn:E; by simplify_eq/=.
  - intros Hi. exists i. by rewrite Hi.
Qed.

Lemma keep_system_elem msgs i m : (i, m) ∈ keep_system msgs → msgs !! i = Some m.
Proof.
  unfold keep_system. intros Hin. apply indexed_lookup.
  destruct (last _) as [x|] eqn:El; [|by apply list_elem_of_filter in Hin as [_ Hin]].
  apply elem_of_app in Hin as [Hin|Hin]; [by apply list_elem_of_filter in Hin as [_ Hin]|].
  apply list_elem_of_singleton in Hin as <-. apply last_Some_elem_of in El. by apply list_elem_of_filter in El as [_ El].
Qed.

Lemma kept_pairs (msgs : list Message) (pairs : list (nat * Message)) kept' :
  (∀ i m, (i, m) ∈ pairs → msgs !! i = Some m) → Forall2 trimmed pairs.*2 kept' →
  Forall2 (kept_from msgs) (map Z.of_nat pairs.*1) kept'.
Proof.
  intros Hp. revert kept'. induction pairs as [|[i m] pairs IH]; intros kept' Hk; cbn in *.
  - by inversion Hk.
  - inversion Hk as [|? m' ? l Hm Hl]; subst. constructor.
    + exists m. rewrite Nat2Z.id. split; [apply Hp; set_solver|done].
    + apply IH; [intros j y Hj; apply Hp; set_solver|done].
Qed.

Lemma keep_system_systems msgs m : m ∈ msgs → Role m = "system" → m ∈ (keep_system msgs).*2.
Proof.
  intros (i & Hi)%list_elem_of_lookup Hr. assert (Hin : (i, m) ∈ keep_system msgs).
  { unfold keep_system. assert ((i, m) ∈ filter (λ im : nat * Message, Role im.2 = "system") (indexed msgs)).
    { apply list_elem_of_filter. split; [done|by apply indexed_lookup]. }
    destruct (last _); [apply elem_of_app; by left|done]. }
  apply list_elem_of_fmap. by exists (i, m).
Qed.

(** Fitting a conversation: whatever the budget, and for messages whose contents the
    laws of the encoder cover (ASCII, or no encoder), the tokens of the messages kept are within the budget (8192 when
    none is given), the count returned is theirs, every message kept is the one
    at its index with the same role and a prefix of its content, and when
    messages were dropped no system message is. *)
Theorem fit_within_budget enc msgs budget :
  all_covered enc msgs →
  let '(kept, keptIdx, count) := Fit enc msgs budget in
  (count ≤ if decide (budget ≤ 0)%Z then 8192 else budget)%Z ∧ count = countTokens enc kept
  ∧ Forall2 (kept_from msgs) keptIdx kept
  ∧ ∀ m, m ∈ msgs → Role m = "system" → ∃ m', m' ∈ kept ∧ trimmed m m'.
Proof.
  intros Hcov. unfold Fit. set (b := if decide (budget ≤ 0)%Z then 8192%Z else budget).
  assert (Hb : (0 < b)%Z) by (subst b; case_decide; lia).
  destruct msgs as [|m0 ms]; [split_and!; [lia|done|done|set_solver]|]. set (msgs := m0 :: ms).
  case_decide as Hall.
  { split_and!; [done|done| |intros m Hm _; exists m; split; [done|apply trimmed_refl]].
    apply Forall2_same_length_lookup. split; [by rewrite length_map, length_seq|].
    intros i z m Hz Hm. rewrite list_lookup_fmap in Hz. apply fmap_Some in Hz as (k & Hk & ->).
    apply lookup_seq in Hk as [-> _]. exists m. rewrite Nat2Z.id. split; [done|apply trimmed_refl]. }
  assert (Hpairs : ∀ i m, (i, m) ∈ keep_system msgs → msgs !! i = Some m) by apply keep_system_elem.
  pose proof (keep_system_systems msgs) as Hsys.
  destruct (keep_system msgs).*2 as [|k ks] eqn:Ek.
  { split_and!; [lia|done|done|]. intros m Hm Hr. specialize (Hsys m Hm Hr). set_solver. }
  rewrite <- Ek in *.
  case_decide as Hfit.
  - split_and!; [done|done|apply kept_pairs; [done|apply trimmed_all]|].
    intros m Hm Hr. exists m. split; [by apply Hsys|apply trimmed_refl].
  - assert (Hall' : all_covered enc (keep_system msgs).*2).
    { apply Forall_forall. intros m ([i m'] & -> & Hin)%list_elem_of_fmap. apply Hpairs in Hin.
      unfold all_covered in Hcov. rewrite Forall_forall in Hcov. by eapply Hcov, list_elem_of_lookup_2. }
    pose proof (fit_trim_spec enc (has_other msgs) b (keep_system msgs).*2 Hb ltac:(by rewrite Ek) Hall') as Hs.
    destruct (fit_trim enc (has_other msgs) b (keep_system msgs).*2) as [kept' [n|]]; destruct Hs as (H1 & H2 & H3);
      try subst n; (split_and!; [done|done|by apply kept_pairs|]); intros m Hm Hr; specialize (Hsys m Hm Hr);
      apply list_elem_of_lookup in Hsys as [i Hi]; destruct (Forall2_lookup_l _ _ _ _ _ H1 Hi) as (m' & Hm' & Ht);
      exists m'; (split; [by eapply list_elem_of_lookup_2|done]).
Qed.

(** An encoder with one token per byte. *)
Fixpoint byte_tokens (s : string) : list Z :=
  match s with "" => [] | String a s => Z.of_N (Ascii.N_of_ascii a) :: byte_tokens s end.
Fixpoint token_bytes (l : list Z) : string :=
  match l with [] => "" | z :: l => String (Ascii.ascii_of_N (Z.to_N z)) (token_bytes l) end.
Definition byte_encoder : Encoder := {| encode_text := byte_tokens; decode_text := token_bytes |}.

Lemma token_bytes_app l1 l2 : token_bytes (l1 ++ l2) = token_bytes l1 +:+ token_bytes l2.
Proof. induction l1 as [|z l1 IH]; [done|]. cbn [app token_bytes]. by rewrite IH. Qed.
Lemma length_byte_tokens l : length (byte_tokens (token_bytes l)) = length l.
Proof. induction l as [|z l IH]; [done|]. cbn. by rewrite IH. Qed.

#[export] Instance byte_encoder_laws : EncoderLaws byte_encoder.
Proof.
  split.
  - apply token_bytes_app.
  - intros s _. cbn. induction s as [|a s IH]; [done|]. cbn. rewrite N2Z.id, Ascii.ascii_N_embedding. by f_equal.
  - done.
  - done.
  - intros s n _. cbn. rewrite length_byte_tokens, length_take. lia.
Qed.

Lemma byte_encoder_covers s : is_ascii s = true → covered (Some byte_encoder) s.
Proof. intros Ha e [= <-]. split; [apply byte_encoder_laws|done]. Qed.

Definition demo_chat : list Message :=
  [{| Role := "system"; Content := "be kind" |}; {| Role := "user"; Content := "hi" |};
   {| Role := "user"; Content := "tell me" |}].

Lemma fit_within_budget_witness :
  let '(kept, keptIdx, count) := Fit (Some byte_encoder) demo_chat 10 in
  (count ≤ 10)%Z ∧ keptIdx = [0; 2]%Z ∧ map Content kept = ["be kind"; "tel"].
Proof.
  pose proof (fit_within_budget (Some byte_encoder) demo_chat 10) as H.
  assert (HE : Fit (Some byte_encoder) demo_chat 10 =
    ([{| Role := "system"; Content := "be kind" |}; {| Role := "user"; Content := "tel" |}], [0; 2]%Z, 10%Z))
    by (vm_compute; reflexivity).
  rewrite HE in *. destruct H as [H _]; [repeat (constructor; [apply byte_encoder_covers; reflexivity|]); constructor|].
  split_and!; [exact H|reflexivity|reflexivity].
Defined.

(** When a system message comes after the last of the others, the messages kept
    are not in their original order. *)
Example fit_reorders :
  (Fit (Some byte_encoder) [{| Role := "user"; Content := "aaaa" |}; {| Role := "system"; Content := "bb" |}] 5).1.2
  = [1; 0]%Z.
Proof. vm_compute. reflexivity. Qed.

(** ** Levels *)

Lemma first_match_range {A} (f : A → bool) l i :
  first_match f l i = 0%Z ∨ (i ≤ first_match f l i)%Z.
Proof.
  revert i. induction l as [|x l IH]; intros i; cbn; [by left|]. destruct (f x); [right; lia|].
  destruct (IH (i + 1)%Z); [by left|right; lia].
Qed.

Section levels.
Context (level_match : string → string → bool) (P : Patterns).

Lemma frequency_level_pos group rec : (1 ≤ frequency_level level_match P group rec)%Z.
Proof.
  unfold frequency_level, matchLayoutLevel, bodyLevel.
  destruct (isText rec); cbn [negb]; [|lia]. destruct (_ || _); [lia|].
  pose proof (first_match_range (λ pattern, negb (bool_decide (pattern = ""))
    && level_match pattern (trim_space (lr_text rec))) group 1) as Hf.
  assert (Hm : matchRegexLevel level_match P (lr_text rec) group = 0%Z
    ∨ (1 ≤ matchRegexLevel level_match P (lr_text rec) group)%Z).
  { unfold matchRegexLevel. case_decide; [by left|]. destruct (notBullet _ _); [by left|exact Hf]. }
  destruct (matchRegexLevel _ _ _ _) as [|lvl|lvl]; [|lia|lia].
  case_decide; [lia|]. destruct (isColonTitle _); [lia|]. destruct (_ && _); lia.
Qed.

Lemma bullet_level_pos group rec lvl : (1 ≤ lvl → 1 ≤ bullet_level P group rec lvl)%Z.
Proof.
  intros Hl. unfold bullet_level. destruct (_ || _); [done|].
  destruct (first_match_range (λ pat : string → bool, pat (trim_space (lr_text rec))
    && negb (notBullet P (trim_space (lr_text rec)))) group 1) as [->|Hf].
  - destruct (_ && _); lia.
  - destruct (first_match _ _ _); lia.
Qed.

Lemma resolveTitleLevels_ok records levels :
  length (resolveTitleLevels level_match P records levels) = length records
  ∧ Forall (λ l, 1 ≤ l)%Z (resolveTitleLevels level_match P records levels).
Proof.
  unfold resolveTitleLevels. set (group := selectLevelGroup _ _ _ _).
  assert (H1 : length (map (frequency_level level_match P group) records) = length records) by apply length_map.
  assert (H2 : Forall (λ l, 1 ≤ l)%Z (map (frequency_level level_match P group) records)).
  { apply Forall_fmap, Forall_true. intros rec. apply frequency_level_pos. }
  destruct (_ || _); [|done]. destruct (bulletsCategory P records) as [bull|]; [|done].
  set (bp := default [] _). split; [rewrite length_zip_with; lia|].
  revert H2. generalize (map (frequency_level level_match P group) records). clear H1.
  induction records as [|rec records IH]; intros [|l ls] Hl; cbn; try done.
  apply Forall_cons in Hl as [Hl Hls]. constructor; [by apply bullet_level_pos|by apply IH].
Qed.

Lemma levels_ok records outline levels :
  Forall (λ o, 0 ≤ oe_level o)%Z outline →
  let ctx := newLevelContext level_match P records outline levels in
  length (lc_levels ctx) = length records ∧ Forall (λ l, 1 ≤ l)%Z (lc_levels ctx).
Proof.
  intros Ho. cbn zeta. unfold newLevelContext, resolveOutlineLevels.
  destruct (_ || _); [|destruct (negb _)].
  1,2: destruct (foldl _ _ _); apply resolveTitleLevels_ok.
  cbn. split; [apply length_map|]. apply Forall_fmap, Forall_true. intros rec.
  unfold compose. destruct (isText rec); cbn [negb]; [|unfold bodyLevel; lia].
  destruct (head _) as [o|] eqn:Eh; [|unfold bodyLevel; lia].
  apply head_Some_elem_of, list_elem_of_filter in Eh as [_ Hin]. rewrite Forall_forall in Ho. specialize (Ho _ Hin).
  case_decide; [unfold bodyLevel|]; lia.
Qed.

(** Levels are well formed: for every configuration, set of patterns and
    outline with levels from 0, each line of a document gets exactly one level
    and it is at least 1, by the outline or by the frequency of patterns; lines
    that are not text are on the level of the body. *)
Theorem levels_well_formed records outline levels :
  Forall (λ o, 0 ≤ oe_level o)%Z outline →
  let ctx := newLevelContext level_match P records outline levels in
  length (lc_levels ctx) = length records ∧ Forall (λ l, 1 ≤ l)%Z (lc_levels ctx)
  ∧ ∀ i r, records !! i = Some r → isText r = false → lc_levels ctx !! i = Some bodyLevel.
Proof.
  intros Ho. destruct (levels_ok records outline levels Ho) as [H1 H2]. split_and!; [done..|].
  intros i r Hi Hr. unfold newLevelContext, resolveOutlineLevels, resolveTitleLevels.
  set (group := selectLevelGroup _ _ _ _).
  assert (Hb : map (frequency_level level_match P group) records !! i = Some bodyLevel).
  { rewrite list_lookup_fmap, Hi. cbn. unfold frequency_level. by rewrite Hr. }
  destruct (_ || _); [|destruct (negb _)].
  1,2: destruct (foldl _ _ _); cbn; (destruct (_ || _); [|done]); destruct (bulletsCategory P records) as [bull|]; [|done];
    rewrite lookup_zip_with, Hi, Hb; cbn; unfold bullet_level; rewrite Hr; by rewrite orb_true_r.
  cbn. rewrite list_lookup_fmap, Hi. cbn. by rewrite Hr.
Qed.
End levels.

(** ** Groups of adjacent lines *)

Definition substantial (r : lineRecord) : Prop := isText r = false ∨ trim_space (lr_text r) ≠ "".
#[export] Instance substantial_dec r : Decision (substantial r).
Proof. unfold substantial. apply _. Defined.

Definition tokens_of (enc : option Encoder) (g : list lineRecord) : Z :=
  foldr (λ r n, (NumTokensFromString enc (trim_space (lr_text r)) + n)%Z) 0%Z g.
Lemma tokens_of_app enc g1 g2 : tokens_of enc (g1 ++ g2) = (tokens_of enc g1 + tokens_of enc g2)%Z.
Proof. induction g1 as [|r g1 IH]; [done|]. cbn [app tokens_of foldr] in *. unfold tokens_of in *. lia. Qed.

(** A group of text whose tokens, but for its last line, are below the maximum;
    or one line that is not text. *)
Definition group_ok (enc : option Encoder) (g : list lineRecord) : Prop :=
  (∃ r, g = [r] ∧ isText r = false) ∨
  (∃ g' r, g = g' ++ [r] ∧ Forall (λ r, isText r = true) g ∧ (g' ≠ [] → (tokens_of enc g' < maxGroupTokens)%Z)).

Record group_inv (enc : option Encoder) (done_ : list lineRecord) (g : grouping) : Prop := {
  gi_all : concat (gr_groups g) ++ gr_current g = filter substantial done_;
  gi_tokens : gr_tokens g = tokens_of enc (gr_current g);
  gi_groups : Forall (group_ok enc) (gr_groups g);
  gi_current : gr_current g = [] ∨ group_ok enc (gr_current g) ∧ Forall (λ r, isText r = true) (gr_current g);
}.

Lemma flush_concat groups current : concat (flush_group groups current) = concat groups ++ current.
Proof. destruct current; cbn; [by rewrite app_nil_r|]. rewrite concat_app. cbn. by rewrite app_nil_r. Qed.
Lemma flush_ok enc groups current :
  Forall (group_ok enc) groups → current = [] ∨ group_ok enc current → Forall (group_ok enc) (flush_group groups current).
Proof.
  intros Hg [->|Hc]; [done|]. destruct current as [|r c]; [done|]. apply Forall_app. split; [done|]. by constructor.
Qed.

Lemma group_step_inv enc ds g rec sid :
  group_inv enc ds g → group_inv enc (ds ++ [rec]) (group_step enc g (rec, sid)).
Proof.
  intros [Ha Ht Hg Hc]. assert (Hcur : gr_current g = [] ∨ group_ok enc (gr_current g)) by naive_solver.
  unfold group_step. destruct (isText rec) eqn:Et; cbn [negb].
  - case_decide as Htrim.
    { split; [|done..]. rewrite filter_app, filter_cons, filter_nil, decide_False, app_nil_r; [done|].
      unfold substantial. intros [?|?]; congruence. }
    assert (Hf : filter substantial (ds ++ [rec]) = filter substantial ds ++ [rec]).
    { rewrite filter_app, filter_cons, filter_nil, decide_True; [done|]. by right. }
    destruct (match gr_current g with [] => false | _ => _ end) eqn:Em.
    + split; cbn [gr_groups gr_current gr_tokens gr_lastSID].
      * by rewrite Hf, <- Ha, app_assoc.
      * rewrite tokens_of_app, Ht. cbn. lia.
      * done.
      * right. destruct Hc as [Hc|[_ Hall]]; [by rewrite Hc in Em|].
        assert (Hall' : Forall (λ r, isText r = true) (gr_current g ++ [rec])) by (apply Forall_app; by split; [|constructor]).
        split; [|done]. right. exists (gr_current g), rec. split_and!; [done|done|]. intros _. rewrite <- Ht.
        destruct (gr_current g); [done|]. apply andb_true_iff in Em as [_ Em].
        apply orb_true_iff in Em as [Em%bool_decide_eq_true|[Em%bool_decide_eq_true _]%andb_true_iff];
          unfold minGroupTokens, maxGroupTokens in *; lia.
    + split; cbn [gr_groups gr_current gr_tokens gr_lastSID].
      * by rewrite Hf, flush_concat, <- Ha.
      * cbn. lia.
      * by apply flush_ok.
      * right. split; [|by constructor]. right. exists [], rec. split_and!; [done|by constructor|done].
  - split; cbn [gr_groups gr_current gr_tokens gr_lastSID].
    + rewrite concat_app, flush_concat, Ha. cbn. rewrite app_nil_r, filter_app, filter_cons, filter_nil, decide_True; [done|].
      by left.
    + done.
    + apply Forall_app. split; [by apply flush_ok|]. constructor; [|done]. left. by exists rec.
    + by left.
Qed.

Lemma groupRecords_partition enc records secIDs :
  length secIDs = length records →
  concat (groupRecords enc records secIDs) = filter substantial records
  ∧ Forall (group_ok enc) (groupRecords enc records secIDs).
Proof.
  intros Hlen. unfold groupRecords.
  assert (H : ∀ l ds g, group_inv enc ds g → group_inv enc (ds ++ l.*1) (foldl (group_step enc) g l)).
  { induction l as [|[rec sid] l IH]; intros ds g Hg; cbn; [by rewrite app_nil_r|].
    rewrite (cons_middle rec), app_assoc. apply IH. by apply group_step_inv. }
  specialize (H (zip records secIDs) [] {| gr_groups := []; gr_current := []; gr_tokens := 0; gr_lastSID := -2 |}).
  destruct H as [Ha _ Hg Hc]; [split; [done..|by left]|].
  rewrite fst_zip in Ha by lia. cbn in Ha. split; [by rewrite flush_concat|]. apply flush_ok; [done|]. naive_solver.
Qed.

Lemma length_section_ids t sid first levels : length (section_ids t sid first levels) = length levels.
Proof. revert sid first. induction levels as [|l levels IH]; intros sid first; cbn; [done|]. by rewrite IH. Qed.

Lemma context_length lm P records outline levels :
  length (lc_levels (newLevelContext lm P records outline levels)) = length records.
Proof.
  unfold newLevelContext, resolveOutlineLevels. destruct (_ || _); [|destruct (negb _)].
  1,2: destruct (foldl _ _ _); apply resolveTitleLevels_ok.
  apply length_map.
Qed.

Lemma groupRecords_document lm P enc p outline records :
  let groups := group_document lm P enc p outline records in
  concat groups = filter substantial records ∧ Forall (group_ok enc) groups.
Proof.
  apply groupRecords_partition. unfold buildSectionIDs. by rewrite length_section_ids, context_length.
Qed.

(** The group chunker loses no line: its groups, one after the other, are
    the lines of the document that are not blank text, in order; each group is
    one line that is not text, or lines of text that without the last one have
    less than 1024 tokens.  For every encoder, configuration, set of patterns,
    outline and document. *)
Theorem groups_partition lm P enc p outline records :
  let groups := group_document lm P enc p outline records in
  concat groups = filter substantial records ∧ Forall (group_ok enc) groups.
Proof. apply groupRecords_document. Qed.

(** A document: two headings found by a pattern, and three lines of text. *)
Definition text_line (s : string) : lineRecord :=
  {| lr_text := s; docType := "text"; imgID := None; layout := ""; ckType := ""; pdfPositions := None;
     positions := None; parentMeta := ∅ |}.
Definition no_patterns : Patterns :=
  {| notBullet := λ _, false; notTitleException := λ _, false; notTitlePunct := λ _, true;
     layoutHeadingRe := λ _, false; bulletLayoutRe := λ _, false; numericOnly := λ _, false; bulletPatterns := [] |}.
Definition starts_with (p s : string) : bool := bool_decide (String.substring 0 (String.length p) s = p).
Definition demo_doc : list lineRecord :=
  map text_line ["preface"; "# one"; "first body"; "## two"; "second body"; "# three"; "last body"].
Definition demo_param : titleChunkerParam :=
  {| tp_Levels := [["# "; "## "]]; tp_Hierarchy := Some 2%Z; IncludeHeadingContent := true;
     RootChunkAsHeading := false; ChunkTokenCap := 0 |}.

Lemma levels_well_formed_witness :
  lc_levels (newLevelContext starts_with no_patterns demo_doc [] [["# "; "## "]])
  = [bodyLevel; 1; bodyLevel; 2; bodyLevel; 1; bodyLevel]%Z
  ∧ Forall (λ l, 1 ≤ l)%Z (lc_levels (newLevelContext starts_with no_patterns demo_doc [] [["# "; "## "]])).
Proof.
  split; [vm_compute; reflexivity|]. apply (levels_well_formed starts_with no_patterns). constructor.
Defined.

(** ** Properties of the token ceiling *)

(** ** Strings and runes *)

Lemma concat_strings_app l1 l2 : concat_strings (l1 ++ l2) = concat_strings l1 +:+ concat_strings l2.
Proof. induction l1 as [|s l1 IH]; [done|]. cbn [app concat_strings foldr]. unfold concat_strings in *. by rewrite IH, string_app_assoc. Qed.
Lemma concat_strings_cons s l : concat_strings (s :: l) = s +:+ concat_strings l.
Proof. reflexivity. Qed.

(** How the first rune of a string is split off. *)
Lemma runes_cons a s :
  ∃ p s', String a s = p +:+ s' ∧ p ≠ "" ∧ runes (String a s) = p :: runes s'
    ∧ (p = String a "" ∨ ∀ t, runes (p +:+ t) = p :: runes t).
Proof.
  cbn [runes]. destruct (rune1 a) eqn:E1.
  { exists (String a ""), s. split_and!; [done..|]. right. intros t. rewrite string_app_cons. cbn [runes]. by rewrite E1. }
  assert (Hone : ∃ p s', String a s = p +:+ s' ∧ p ≠ "" ∧ String a "" :: runes s = p :: runes s'
    ∧ (p = String a "" ∨ ∀ t, runes (p +:+ t) = p :: runes t)).
  { exists (String a ""), s. split_and!; try done. by left. }
  destruct s as [|b s2]; [exact Hone|]. destruct (rune2 a b) eqn:E2.
  { exists (String a (String b "")), s2. split_and!; [done..|]. right. intros t. rewrite !string_app_cons. cbn [runes].
    by rewrite E1, E2. }
  destruct s2 as [|c s3]; [exact Hone|]. destruct (rune3 a b c) eqn:E3.
  { exists (String a (String b (String c ""))), s3. split_and!; [done..|]. right. intros t. rewrite !string_app_cons.
    cbn [runes]. by rewrite E1, E2, E3. }
  destruct s3 as [|d s4]; [exact Hone|]. destruct (rune4 a b c d) eqn:E4; [|exact Hone].
  exists (String a (String b (String c (String d "")))), s4. split_and!; [done..|]. right. intros t.
  rewrite !string_app_cons. cbn [runes]. by rewrite E1, E2, E3, E4.
Qed.

(** Induction by runes. *)
Lemma runes_ind (P : string → Prop) :
  P "" → (∀ p s, p ≠ "" → runes (p +:+ s) = p :: runes s → P s → P (p +:+ s)) → ∀ s, P s.
Proof.
  intros H0 Hs s. remember (String.length s) as n eqn:Hn. revert s Hn.
  induction n as [n IH] using lt_wf_ind. intros [|a s] ->; [done|].
  destruct (runes_cons a s) as (p & s' & Hp & Hne & Hr & _). rewrite Hp in *. apply Hs; [done|done|].
  apply (IH (String.length s')); [|done]. rewrite string_length_app. destruct p; [done|]. cbn. lia.
Qed.

Lemma runes_concat s : concat_strings (runes s) = s.
Proof. induction s as [|p s Hp Hr IH] using runes_ind; [done|]. by rewrite Hr, concat_strings_cons, IH. Qed.
Lemma runes_length s : length (runes s) ≤ String.length s.
Proof.
  induction s as [|p s Hp Hr IH] using runes_ind; [done|]. rewrite Hr, string_length_app. cbn.
  destruct p; [done|]. cbn. lia.
Qed.
Lemma runes_nil s : runes s = [] → s = "".
Proof. intros Hr. rewrite <- (runes_concat s), Hr. done. Qed.

(** A byte that is not part of a rune stays so when the text after it is cut. *)
Lemma runes_cut a c r :
  runes (String a (c +:+ r)) = String a "" :: runes (c +:+ r) → runes (String a c) = String a "" :: runes c.
Proof.
  cbn [runes]. destruct (rune1 a) eqn:E1; [done|].
  destruct c as [|b c]; [done|]. rewrite string_app_cons. destruct (rune2 a b) eqn:E2; [done|].
  destruct c as [|b2 c]; [done|]. rewrite string_app_cons. destruct (rune3 a b b2) eqn:E3; [done|].
  destruct c as [|b3 c]; [done|]. rewrite string_app_cons. by destruct (rune4 a b b2 b3) eqn:E4.
Qed.

Lemma runes_take s n : runes (concat_strings (take n (runes s))) = take n (runes s).
Proof.
  revert n. induction s as [|p s Hp Hr IH] using runes_ind; intros n; [by destruct n|].
  rewrite Hr. destruct n as [|n]; [done|]. cbn [take]. rewrite concat_strings_cons.
  destruct p as [|a p]; [done|].
  assert (Hs : s = concat_strings (take n (runes s)) +:+ concat_strings (drop n (runes s))).
  { by rewrite <- concat_strings_app, take_drop, runes_concat. }
  set (c := concat_strings (take n (runes s))) in *. rewrite <- (IH n). fold c.
  destruct (runes_cons a (p +:+ s)) as (q & s' & Hq & Hqn & Hqr & Hqt).
  rewrite <- string_app_cons in Hq, Hqr. rewrite Hr in Hqr. injection Hqr as <- Hs'.
  destruct Hqt as [Hqt|Hqt]; [|by apply Hqt]. injection Hqt as ->.
  rewrite !string_app_cons in *. change ("" +:+ ?x) with x in *.
  apply (runes_cut a c (concat_strings (drop n (runes s)))). by rewrite <- Hs.
Qed.

Lemma runePrefix_count s n : (0 < n)%Z → (RuneCountInString (runePrefix s n) ≤ n)%Z.
Proof.
  intros Hn. unfold runePrefix, RuneCountInString. rewrite decide_False by lia. rewrite runes_take, length_take. lia.
Qed.
Lemma runePrefix_prefix s n : prefix_of (runePrefix s n) s.
Proof.
  unfold runePrefix. case_decide; [apply prefix_of_empty|]. exists (concat_strings (drop (Z.to_nat n) (runes s))).
  by rewrite <- concat_strings_app, take_drop, runes_concat.
Qed.
Lemma runePrefix_nonempty s n : (0 < n)%Z → s ≠ "" → runePrefix s n ≠ "".
Proof.
  intros Hn Hs. unfold runePrefix. rewrite decide_False by lia. destruct (Z.to_nat n) as [|k] eqn:Ek; [lia|].
  destruct s as [|a s]; [done|]. destruct (runes_cons a s) as (p & s' & _ & Hp & -> & _).
  cbn [take]. rewrite concat_strings_cons. destruct p; [done|]. by rewrite string_app_cons.
Qed.

(** ** Prefixes *)

Lemma has_prefix_spec s p : has_prefix s p = true ↔ prefix_of p s.
Proof.
  unfold has_prefix. split.
  - revert s. induction p as [|a p IH]; intros s Hp; [apply prefix_of_empty|]. destruct s as [|b s]; [done|]. cbn in Hp.
    destruct (Ascii.ascii_dec a b) as [->|]; [|done]. destruct (IH s Hp) as [r ->]. exists r. by rewrite string_app_cons.
  - intros [r ->]. induction p as [|a p IH]; [by destruct r|]. rewrite string_app_cons. cbn.
    by destruct (Ascii.ascii_dec a a).
Qed.
Lemma substring_all s n : String.length s ≤ n → String.substring 0 n s = s.
Proof. revert n. induction s as [|a s IH]; intros [|n] Hn; cbn in *; [done..|lia|]. rewrite IH by lia. done. Qed.
Lemma drop_bytes_app p r : drop_bytes (String.length p) (p +:+ r) = r.
Proof.
  unfold drop_bytes. rewrite string_length_app, Nat.add_comm, Nat.add_sub.
  induction p as [|a p IH]; [change ("" +:+ r) with r; cbn [String.length]; by apply substring_all|].
  rewrite string_app_cons. cbn. exact IH.
Qed.
Lemma byte_trim_length s n : String.length (byte_trim s n) ≤ n.
Proof.
  induction n as [|n IH]; [done|]. cbn [byte_trim]. destruct (utf8_valid _); [|lia].
  clear IH. generalize (S n) as m. clear n. intros m. revert s. induction m as [|m IH]; intros [|a s]; cbn; [lia..|]. specialize (IH s). lia.
Qed.

(** ** Splitting *)

Section cap.
Context (enc : option Encoder) (cap : Z) (Hcap : (0 < cap)%Z).
Notation count := (titleTokenCount enc).

Lemma decode_nonempty e s l : EncoderLaws e → is_ascii s = true → l ≠ [] → (∀ z, z ∈ l → z ∈ encode_text e s) → decode_text e l ≠ "".
Proof.
  intros L Ha Hl Hin. destruct l as [|z l]; [done|]. change (z :: l) with ([z] ++ l). rewrite decode_app.
  pose proof (decode_token s z Ha) as Hz. destruct (decode_text e [z]); [destruct Hz; [apply Hin; set_solver|done]|].
  by rewrite string_app_cons.
Qed.

(** The head that is cut off a text over the ceiling; it fits where the laws of the
    encoder speak of the text. *)
Definition good_head (rest head : string) : Prop :=
  head ≠ "" ∧ prefix_of head rest ∧ (covered enc rest → count head ≤ cap)%Z.

Lemma count_some e s : enc = Some e → covered enc s → s ≠ "" → count s = Z.of_nat (length (encode_text e s)).
Proof.
  intros He Hcov Hs. destruct (Hcov e He) as [L Ha]. unfold titleTokenCount. rewrite decide_False by done.
  unfold NumTokensFromString. rewrite decide_False, He by done.
  destruct (encode_text e s) as [|z l] eqn:Ez; [|done]. exfalso. apply Hs.
  rewrite <- (decode_encode_text s Ha), Ez, <- encode_empty. by apply decode_encode_text.
Qed.
Lemma count_none s : enc = None → count s = RuneCountInString s.
Proof.
  intros He. unfold titleTokenCount. case_decide as Hs; [by subst s|].
  unfold NumTokensFromString. by rewrite decide_False, He.
Qed.

(** An encoder shortens a text over the ceiling to a part of it that fits. *)
Lemma trim_some e rest :
  enc = Some e → covered enc rest → (cap < Z.of_nat (length (encode_text e rest)))%Z →
  let head := TrimContentToTokenLimit enc rest cap in
  head ≠ "" ∧ head ≠ rest ∧ prefix_of head rest ∧ (Z.of_nat (length (encode_text e head)) ≤ cap)%Z.
Proof.
  intros He Hcov Hc. pose proof (trim_prefix enc rest cap Hcov) as Hp. cbn zeta. destruct (Hcov e He) as [L Ha].
  set (head := TrimContentToTokenLimit enc rest cap) in *.
  assert (Hh : head = decode_text e (take (Z.to_nat cap) (encode_text e rest))).
  { unfold head, TrimContentToTokenLimit. rewrite He, decide_False by lia. do 2 f_equal. lia. }
  split_and!; [| |done|].
  - rewrite Hh. apply (decode_nonempty e rest); [done|done| |intros z (i & Hz & _)%elem_of_take; by eapply list_elem_of_lookup_2].
    destruct (encode_text e rest); cbn in Hc; [lia|]. destruct (Z.to_nat cap) eqn:En; [lia|done].
  - assert (Hd : decode_text e (drop (Z.to_nat cap) (encode_text e rest)) ≠ "").
    { apply (decode_nonempty e rest); [done|done| |intros z (i & Hz)%list_elem_of_lookup; rewrite lookup_drop in Hz; by eapply list_elem_of_lookup_2].
      intros Hnil. apply (f_equal length) in Hnil. rewrite length_drop in Hnil. cbn in Hnil. lia. }
    intros Heq. rewrite <- (decode_encode_text rest Ha), <- (take_drop (Z.to_nat cap) (encode_text e rest)),
      decode_app, <- Hh in Heq. apply (f_equal String.length) in Heq. rewrite string_length_app in Heq.
    destruct (decode_text e (drop _ _)); [done|]. cbn in Heq. lia.
  - rewrite Hh. pose proof (encode_prefix rest (Z.to_nat cap) Ha). lia.
Qed.

Lemma prefix_covered head rest : prefix_of head rest → covered enc rest → covered enc head.
Proof. intros [r ->]. apply covered_left. Qed.

Lemma trim_head rest :
  (cap < count rest)%Z →
  let head := TrimContentToTokenLimit enc rest cap in
  if bool_decide (head = "") || bool_decide (head = rest) || negb (has_prefix rest head)
  then good_head rest (runePrefix rest cap) ∧ (covered enc rest → runePrefix rest cap ≠ rest)
  else good_head rest head.
Proof.
  intros Hc. assert (Hne : rest ≠ "") by (intros ->; change (count "") with 0%Z in Hc; lia). cbn zeta.
  assert ((∃ e, enc = Some e) ∨ enc = None) as [[e He]|He] by (destruct enc; eauto).
  - set (head := TrimContentToTokenLimit enc rest cap).
    assert (Hcov : covered enc rest → head ≠ "" ∧ head ≠ rest ∧ has_prefix rest head = true ∧ (count head ≤ cap)%Z).
    { intros Hcov. rewrite (count_some e) in Hc by done. destruct (trim_some e rest He Hcov Hc) as (H0 & H1 & H2 & H3).
      fold head in H0, H1, H2, H3. split_and!; [done|done|by apply has_prefix_spec|].
      rewrite (count_some e); [done|done|by apply (prefix_covered head rest)|done]. }
    case_bool_decide as H1; [|case_bool_decide as H2; [|destruct (has_prefix rest head) eqn:H3]]; cbn.
    3: (split_and!; [done|by apply has_prefix_spec|apply Hcov]).
    all: split; [split_and!; [by apply runePrefix_nonempty|apply runePrefix_prefix|]|];
      intros (? & ? & ? & ?)%Hcov; congruence.
  - assert (Hno : covered enc rest) by (intros e; by rewrite He).
    pose proof (trim_prefix enc rest cap Hno) as Hp.
    set (head := TrimContentToTokenLimit enc rest cap) in *.
    rewrite (proj2 (has_prefix_spec rest head) Hp), orb_false_r.
    rewrite count_none in Hc by done.
    case_bool_decide as H1; [|case_bool_decide as H2]; cbn.
    1,2: (assert (Hr : (RuneCountInString (runePrefix rest cap) ≤ cap)%Z) by (by apply runePrefix_count);
      split; [split_and!; [by apply runePrefix_nonempty|apply runePrefix_prefix|by rewrite count_none]|];
      intros _ Heq; rewrite Heq in Hr; lia).
    split_and!; [done|done|]. intros _. rewrite count_none by done. unfold head, TrimContentToTokenLimit. rewrite He.
    pose proof (runes_length rest). unfold RuneCountInString in *. rewrite !decide_False by lia.
    pose proof (runes_length (byte_trim rest (Z.to_nat (Z.max 0 cap)))).
    pose proof (byte_trim_length rest (Z.to_nat (Z.max 0 cap))). lia.
Qed.

(** Pieces of a text: nothing is lost, and they fit where the laws speak of the text. *)
Definition fits (out : list string) (text : string) : Prop :=
  concat_strings out = text ∧ (covered enc text → Forall (λ s, count s ≤ cap)%Z out).

Lemma fits_whole text : (covered enc text → count text ≤ cap)%Z → fits [text] text.
Proof. intros Hc. split; [cbn; by rewrite string_app_nil|]. intros Hcov. constructor; [by apply Hc|done]. Qed.

Lemma hard_split_fits fuel rest :
  String.length rest < fuel → ∃ out, hard_split enc cap fuel rest = Some out ∧ fits out rest.
Proof.
  revert rest. induction fuel as [|fuel IH]; intros rest Hf; [lia|]. cbn [hard_split].
  case_decide as Hr; [exists []; split; [done|]; split; [|done]|].
  { unfold RuneCountInString in Hr. rewrite (runes_nil rest); [done|]. apply nil_length_inv. lia. }
  case_decide as Hc; [exists [rest]; split; [done|by apply fits_whole]|].
  assert (Hcut : ∀ head, good_head rest head → ∃ out,
    option_map (cons head) (hard_split enc cap fuel (drop_bytes (String.length head) rest)) = Some out ∧ fits out rest).
  { intros head (Hh & [r ->] & Hle). rewrite drop_bytes_app. rewrite string_length_app in Hf.
    destruct (IH r) as (out & -> & Hcat & Hall); [destruct head; [done|cbn in Hf; lia]|].
    exists (head :: out). split; [done|]. split; [by rewrite concat_strings_cons, Hcat|].
    intros Hcov. constructor; [by apply Hle|]. apply Hall. by eapply covered_right. }
  pose proof (trim_head rest ltac:(lia)) as Ht. cbn zeta in Ht. destruct (_ || _ || _); [|by apply Hcut].
  destruct Ht as [Ht Hne]. rewrite (bool_decide_eq_false_2 (runePrefix rest cap = "")) by apply Ht.
  case_bool_decide as Hsame; [|by apply Hcut].
  exists [rest]. split; [done|]. apply fits_whole. intros Hcov. by destruct (Hne Hcov).
Qed.

Lemma hardSplit_fits text : ∃ out, hardSplitByTokens enc text cap = Some out ∧ fits out text.
Proof. unfold hardSplitByTokens. rewrite decide_False by lia. apply hard_split_fits. lia. Qed.

Lemma sentences_concat rs current : concat_strings (sentences rs current) = current +:+ concat_strings rs.
Proof.
  remember (length rs) as n eqn:Hn. revert rs current Hn. induction n as [n IH] using lt_wf_ind.
  intros [|r rest] current ->; cbn [sentences].
  - case_decide as Hc; [by subst current|]. cbn. by rewrite string_app_nil.
  - rewrite (concat_strings_cons r). case_decide.
    { rewrite concat_strings_cons, (IH (length rest)) by (cbn; lia || done). by rewrite string_app_assoc. }
    destruct rest as [|r2 rest2].
    { rewrite (IH 0) by (cbn; lia || done). by rewrite string_app_assoc. }
    case_decide as Hd.
    + rewrite concat_strings_cons, (IH (length rest2)) by (cbn; lia || done).
      rewrite (concat_strings_cons r2), !string_app_assoc. done.
    + rewrite (IH (length (r2 :: rest2))) by (cbn; lia || done). by rewrite string_app_assoc.
Qed.

Lemma split_concat text : concat_strings (titleSentenceSplit text) = text.
Proof. unfold titleSentenceSplit. rewrite sentences_concat. apply runes_concat. Qed.

Lemma collect_concat ss current :
  concat_strings (collect_sentences enc cap current ss) = current +:+ concat_strings ss.
Proof.
  revert current. induction ss as [|s ss IH]; intros current; cbn [collect_sentences].
  - case_decide as Hc; [by subst current|]. cbn. by rewrite string_app_nil.
  - rewrite (concat_strings_cons s). case_decide as Hc; [subst current; by rewrite IH|].
    case_decide; [by rewrite concat_strings_cons, IH|]. by rewrite IH, string_app_assoc.
Qed.

Lemma cap_groups_fits groups : ∃ out, cap_groups enc cap groups = Some out ∧ fits out (concat_strings groups).
Proof.
  unfold cap_groups. induction groups as [|g groups (out & Hout & Hcat & Hall)]; [exists []; by split|].
  assert (Hg : ∃ ps, (if decide (count g ≤ cap)%Z then Some [g] else hardSplitByTokens enc g cap) = Some ps ∧ fits ps g).
  { case_decide; [|apply hardSplit_fits]. exists [g]. split; [done|by apply fits_whole]. }
  destruct Hg as (ps & Hps & Hpc & Hpa). cbn [mapM]. rewrite Hps. cbn.
  apply bind_Some in Hout as (pieces & Hp & [= <-]). rewrite Hp. cbn. eexists. split; [done|]. cbn [concat].
  split; [by rewrite concat_strings_app, Hpc, Hcat|]. intros Hcov.
  apply (covered_app enc g (concat_strings groups)) in Hcov as [H1 H2]. apply Forall_app. auto.
Qed.
End cap.

Definition is_text_chunk (c : gmap string value) : Prop := toStringOrDefault (c !! "doc_type_kwd") "text" = "text".
#[export] Instance is_text_chunk_dec c : Decision (is_text_chunk c).
Proof. unfold is_text_chunk. apply _. Defined.

Section chunks.
Context (enc : option Encoder) (slice : value → float64 → float64 → option value).

Lemma slice_key_ne key a b chunk sub k : k ≠ key → slice_key slice key a b chunk sub !! k = sub !! k.
Proof.
  intros Hk. unfold slice_key. destruct (chunk !! key); [|done]. destruct (slice _ _ _); [by rewrite lookup_insert_ne|done].
Qed.

(** The sub-chunks of a chunk: its other fields but for positions, and the pieces as text. *)
Definition pieces_of (chunk : gmap string value) (groups : list string) (out : list (gmap string value)) : Prop :=
  Forall2 (λ g sub, sub !! "text" = Some (VStr g) ∧ sub !! "doc_type_kwd" = chunk !! "doc_type_kwd") groups out.

Lemma copies_pieces chunk groups : pieces_of chunk groups (map (λ g, <["text" := VStr g]> chunk) groups).
Proof.
  induction groups as [|g groups IH]; cbn; constructor; [|done]. by rewrite lookup_insert_eq, lookup_insert_ne.
Qed.
Lemma sub_chunks_pieces chunk total cum groups : pieces_of chunk groups (sub_chunks slice chunk total cum groups).
Proof.
  revert cum. induction groups as [|g groups IH]; intros cum; cbn; constructor; [|apply IH].
  rewrite !slice_key_ne by done. by rewrite lookup_insert_eq, lookup_insert_ne.
Qed.

Lemma pieces_texts chunk groups out : pieces_of chunk groups out → map chunk_text out = groups.
Proof.
  intros Hp. induction Hp as [|g sub groups out [Ht _] Hp IH]; cbn; [done|]. unfold chunk_text at 1. by rewrite Ht, IH.
Qed.
Lemma pieces_kind chunk groups out : pieces_of chunk groups out → is_text_chunk chunk → Forall is_text_chunk out.
Proof.
  intros Hp Hk. induction Hp as [|g sub groups out [_ Hd] Hp IH]; constructor; [|done]. unfold is_text_chunk. by rewrite Hd.
Qed.

Context (cap : Z) (Hcap : (0 < cap)%Z).

(** What may replace a chunk: the same text in order, in pieces that fit. *)
Definition replaces (chunk : gmap string value) (out : list (gmap string value)) : Prop :=
  concat_strings (map chunk_text out) = chunk_text chunk ∧ Forall is_text_chunk out
  ∧ (covered enc (chunk_text chunk) → Forall (λ c, titleTokenCount enc (chunk_text c) ≤ cap)%Z out).

Lemma split_replaces chunk :
  is_text_chunk chunk → ∃ out, splitTitleChunkByCap enc slice chunk cap = Some out ∧ replaces chunk out.
Proof.
  intros Hk. unfold splitTitleChunkByCap. pose proof (split_concat (chunk_text chunk)) as Hs.
  assert (Hself : chunk_text chunk = "" → replaces chunk [chunk]).
  { intros E. split_and!; [cbn; by rewrite string_app_nil|by constructor|]. intros _. constructor; [|done]. rewrite E. change (titleTokenCount enc "") with 0%Z. lia. }
  destruct (titleSentenceSplit (chunk_text chunk)) as [|s ss]; [exists [chunk]; auto|].
  destruct (cap_groups_fits enc cap Hcap (collect_sentences enc cap "" (s :: ss))) as (groups & -> & Hcat & Hfit).
  rewrite collect_concat in Hcat, Hfit. change ("" +:+ ?x) with x in Hcat, Hfit. rewrite Hs in Hcat, Hfit.
  cbn [mbind option_bind]. destruct groups as [|g groups]; [exists [chunk]; auto|].
  assert (Hp : ∀ out, pieces_of chunk (g :: groups) out → replaces chunk out).
  { intros out Ho. split_and!; [by rewrite (pieces_texts _ _ _ Ho)|by eapply pieces_kind|].
    intros Hcov. apply (Forall_fmap chunk_text (λ s, titleTokenCount enc s ≤ cap)%Z).
    rewrite <- (pieces_texts _ _ _ Ho) in Hfit. by apply Hfit. }
  destruct (_ || _); eexists; (split; [done|]); apply Hp; [apply copies_pieces|apply sub_chunks_pieces].
Qed.
End chunks.

Lemma enforce_cap enc slice chunks cap :
  (0 < cap)%Z →
  ∃ out, enforceTitleTokenCap enc slice chunks cap = Some out
    ∧ concat_strings (map chunk_text out) = concat_strings (map chunk_text chunks)
    ∧ filter (λ c, ¬ is_text_chunk c) out = filter (λ c, ¬ is_text_chunk c) chunks
    ∧ (Forall (λ c, covered enc (chunk_text c)) chunks →
       Forall (λ c, is_text_chunk c → (titleTokenCount enc (chunk_text c) ≤ cap)%Z) out).
Proof.
  intros Hcap. unfold enforceTitleTokenCap. rewrite decide_False by lia.
  induction chunks as [|chunk chunks (out & Hout & Hcat & Hf & Hfit)]; [exists []; by split_and!|].
  apply bind_Some in Hout as (outs & Hm & [= <-]). cbn [mapM].
  assert (Hone : ∃ o, cap_chunk enc slice cap chunk = Some o
    ∧ concat_strings (map chunk_text o) = chunk_text chunk
    ∧ filter (λ c, ¬ is_text_chunk c) o = filter (λ c, ¬ is_text_chunk c) [chunk]
    ∧ (covered enc (chunk_text chunk) →
       Forall (λ c, is_text_chunk c → (titleTokenCount enc (chunk_text c) ≤ cap)%Z) o)).
  { unfold cap_chunk. case_decide as Hk; [|destruct (_ || _) eqn:E].
    - exists [chunk]. split_and!; [done|cbn; by rewrite string_app_nil|done|]. intros _. constructor; [|done]. by intros ?.
    - exists [chunk]. split_and!; [done|cbn; by rewrite string_app_nil|done|]. intros _. constructor; [|done]. intros _.
      apply orb_true_iff in E as [E%bool_decide_eq_true|E%bool_decide_eq_true]; [rewrite E; change (titleTokenCount enc "") with 0%Z; lia|done].
    - destruct (split_replaces enc slice cap Hcap chunk Hk) as (o & -> & H1 & H2 & H3).
      exists o. split_and!; [done|done| |intros Hcov; eapply Forall_impl; [by apply H3|]; by intros].
      rewrite filter_cons, filter_nil, decide_False by (by intros []). clear -H2.
      induction H2 as [|c o Hc H2 IH]; [done|]. rewrite filter_cons, decide_False by (by intros []). done. }
  destruct Hone as (o & -> & H1 & H2 & H3). cbn [mbind option_bind mret option_ret]. rewrite Hm.
  cbn [mbind option_bind]. eexists. split; [done|]. cbn [concat map].
  rewrite map_app, concat_strings_app, H1, Hcat, concat_strings_cons. split_and!; [done| |].
  - change (chunk :: chunks) with ([chunk] ++ chunks). by rewrite !filter_app, H2, Hf.
  - intros [Hc Hcs]%Forall_cons. apply Forall_app. auto.
Qed.

(** C32: the token ceiling: whatever the encoder (even without one, and whatever it does
    with a text it cannot cut), the chunks and the slicing of positions, the split
    ends, the text of the chunks, read in order, is unchanged, and chunks that are
    not text are kept as they are; and when there is no encoder, or the texts are
    ASCII and the encoder keeps its laws on those, every text chunk is within the
    ceiling. *)
Theorem title_cap enc slice chunks cap :
  (0 < cap)%Z →
  ∃ out, enforceTitleTokenCap enc slice chunks cap = Some out
    ∧ concat_strings (map chunk_text out) = concat_strings (map chunk_text chunks)
    ∧ filter (λ c, ¬ is_text_chunk c) out = filter (λ c, ¬ is_text_chunk c) chunks
    ∧ (Forall (λ c, covered enc (chunk_text c)) chunks →
       Forall (λ c, is_text_chunk c → (titleTokenCount enc (chunk_text c) ≤ cap)%Z) out).
Proof. apply enforce_cap. Qed.

Lemma title_cap_witness :
  ∃ out, enforceTitleTokenCap (Some byte_encoder) (λ _ _ _, None)
      [{["text" := VStr "One. Two is long! Three"]}; {["text" := VStr "<table>"; "doc_type_kwd" := VStr "table"]}] 6 = Some out
    ∧ map chunk_text out = ["One. "; "Two is"; " long!"; " Three"; "<table>"]
    ∧ Forall (λ c, is_text_chunk c → (titleTokenCount (Some byte_encoder) (chunk_text c) ≤ 6)%Z) out.
Proof.
  destruct (title_cap (Some byte_encoder) (λ _ _ _, None)
    [{["text" := VStr "One. Two is long! Three"]}; {["text" := VStr "<table>"; "doc_type_kwd" := VStr "table"]}] 6)
    as (out & Ho & _ & _ & Hf); [lia|].
  exists out. split_and!; [exact Ho| |apply Hf; repeat (constructor; [apply byte_encoder_covers; reflexivity|]); constructor].
  apply (f_equal (option_map (map chunk_text))) in Ho. cbn [option_map] in Ho.
  assert (E : option_map (map chunk_text) (enforceTitleTokenCap (Some byte_encoder) (λ _ _ _, None)
      [{["text" := VStr "One. Two is long! Three"]}; {["text" := VStr "<table>"; "doc_type_kwd" := VStr "table"]}] 6)
    = Some ["One. "; "Two is"; " long!"; " Three"; "<table>"]) by (vm_compute; reflexivity).
  rewrite E in Ho. by injection Ho.
Defined.
