(* ===== verification/HierarchyProps.v ===== *)
(** * Properties of the hierarchy chunker: the tree of headings and its paths *)

From S2P Require Import Prelude GoValue Tokenizer TitleLevels TitleGroups TitleProps.

(** The lines of a node: its title, then its body. *)
Definition own (n : chunkNode) : list Z := titleIndexes n ++ bodyIndexes n.
Definition lines_below (k : nat) : list Z := map Z.of_nat (seq 0 k).

(** The tree after [k] lines: the lines of the nodes, in the order the nodes were
    created, are the lines read; the top of the stack is the last node; links go
    to later nodes and reach all of them. *)
Record tree_ok (depth : Z) (k : nat) (store : list chunkNode) : Prop := {
  to_lines : concat (map own store) = lines_below k;
  to_root : ∃ r, store !! 0 = Some r ∧ level r = 0%Z ∧ titleIndexes r = [];
  to_levels id n : store !! id = Some n → id ≠ 0 → (1 ≤ level n ≤ depth)%Z;
  to_links id n c : store !! id = Some n → c ∈ children n → id < c < length store;
  to_linked c : 0 < c < length store → ∃ id n, store !! id = Some n ∧ c ∈ children n;
}.
Definition stack_ok (store : list chunkNode) (stack : list nat) : Prop :=
  head stack = Some (length store - 1) ∧ Forall (λ id, id < length store) stack.

Lemma lines_below_S k : lines_below (S k) = lines_below k ++ [Z.of_nat k].
Proof. unfold lines_below. by rewrite seq_S, map_app. Qed.

Lemma pop_to_ok store lvl stack :
  stack ≠ [] → Forall (λ id, id < length store) stack →
  ∃ top rest, pop_to store lvl stack = top :: rest ∧ Forall (λ id, id < length store) (top :: rest).
Proof.
  intros Hne Hall. induction stack as [|top [|x rest] IH]; [done|by eexists _, _|].
  cbn [pop_to]. apply Forall_cons in Hall as [Ht Hall]. destruct (store !! top); [case_decide|].
  - by apply IH.
  - eexists _, _. split; [done|]. by constructor.
  - eexists _, _. split; [done|]. by constructor.
Qed.

Lemma alter_last {A} (f : A → A) l x : alter f (length l) (l ++ [x]) = l ++ [f x].
Proof. induction l as [|y l IH]; cbn; [done|]. by f_equal. Qed.

(** A body line goes to the last node. *)
Lemma tree_body depth k store idx :
  tree_ok depth k store → idx = Z.of_nat k →
  tree_ok depth (S k) (alter (addBodyIndex idx) (length store - 1) store).
Proof.
  intros [Hl Hr Hlv Hli Hlk] ->. destruct store as [|x store'] using rev_ind; [destruct Hr as (? & [=] & _)|].
  clear IHstore'. rewrite length_app. cbn [length]. rewrite Nat.add_sub, alter_last.
  assert (Hlook : ∀ id n, (store' ++ [addBodyIndex (Z.of_nat k) x]) !! id = Some n →
    ∃ n0, (store' ++ [x]) !! id = Some n0 ∧ level n = level n0 ∧ titleIndexes n = titleIndexes n0 ∧ children n = children n0).
  { intros id n Hn. apply lookup_snoc_Some in Hn as [[? Hn]|[-> <-]].
    - exists n. rewrite lookup_app_l by done. done.
    - exists x. rewrite list_lookup_middle by done. done. }
  split.
  - rewrite lines_below_S, <- Hl, !map_app, !concat_app. cbn. unfold own. cbn. rewrite !app_nil_r.
    by rewrite !app_assoc.
  - destruct Hr as (r & Hr & H0 & H1). destruct store' as [|y store'].
    + cbn in *. simplify_eq. by eexists.
    + cbn in *. simplify_eq. by eexists.
  - intros id n Hn Hid. destruct (Hlook id n Hn) as (n0 & H0 & -> & _). by eapply Hlv.
  - intros id n c Hn Hc. destruct (Hlook id n Hn) as (n0 & H0 & _ & _ & Hch). rewrite Hch in Hc.
    specialize (Hli id n0 c H0 Hc). by rewrite length_app in *.
  - intros c Hc. rewrite length_app in *. destruct (Hlk c Hc) as (id & n & Hn & Hin).
    destruct (decide (id = length store')) as [->|Hne].
    + rewrite list_lookup_middle in Hn by done. simplify_eq. exists (length store'), (addBodyIndex (Z.of_nat k) n).
      by rewrite list_lookup_middle.
    + exists id, n. split; [|done]. apply lookup_snoc_Some in Hn as [[? Hn]|[? ?]]; [|done]. by rewrite lookup_app_l.
Qed.

(** A heading becomes a new last node, linked from [top]. *)
Lemma tree_heading depth k store top lvl :
  tree_ok depth k store → top < length store → (1 ≤ lvl ≤ depth)%Z →
  tree_ok depth (S k) (alter (addChild (length store)) top store
    ++ [{| level := lvl; titleIndexes := [Z.of_nat k]; bodyIndexes := []; children := [] |}]).
Proof.
  intros [Hl Hr Hlv Hli Hlk] Htop Hlvl. set (node := {| level := lvl; titleIndexes := _; bodyIndexes := _; children := _ |}).
  set (store1 := alter (addChild (length store)) top store).
  assert (Hlen : length store1 = length store) by apply length_alter.
  assert (Hlook : ∀ id n, store1 !! id = Some n → ∃ n0, store !! id = Some n0 ∧ level n = level n0
    ∧ titleIndexes n = titleIndexes n0 ∧ bodyIndexes n = bodyIndexes n0
    ∧ children n = children n0 ++ (if decide (id = top) then [length store] else [])).
  { intros id n Hn. unfold store1 in Hn. destruct (decide (id = top)) as [->|Hne].
    - rewrite list_lookup_alter_eq in Hn. destruct (store !! top) as [n0|]; simplify_eq/=. by exists n0.
    - rewrite list_lookup_alter_ne in Hn by done. exists n. by rewrite app_nil_r. }
  split.
  - rewrite lines_below_S, <- Hl, map_app, concat_app. cbn. f_equal. unfold store1. generalize (length store) as c. clear.
    intros c. revert top. induction store as [|x store IH]; intros [|top]; cbn; [done..|]. by rewrite IH.
  - destruct Hr as (r & Hr & H0 & H1).
    destruct (lookup_lt_is_Some_2 store1 0) as [r1 Hr1]; [rewrite Hlen; by eapply lookup_lt_Some|].
    destruct (Hlook 0 r1 Hr1) as (r0 & Hr0 & ? & ? & _). simplify_eq. exists r1.
    rewrite lookup_app_l by (by eapply lookup_lt_Some). split; [done|]. split; congruence.
  - intros id n Hn Hid. apply lookup_snoc_Some in Hn as [[_ Hn]|[-> <-]]; [|done].
    destruct (Hlook id n Hn) as (n0 & H0 & -> & _). by eapply Hlv.
  - intros id n c Hn Hc. rewrite length_app, Hlen. cbn.
    apply lookup_snoc_Some in Hn as [[_ Hn]|[-> <-]]; [|cbn in Hc; set_solver].
    destruct (Hlook id n Hn) as (n0 & H0 & _ & _ & _ & Hch). rewrite Hch in Hc.
    apply elem_of_app in Hc as [Hc|Hc]; [specialize (Hli id n0 c H0 Hc); lia|].
    destruct (decide (id = top)) as [->|]; [|set_solver]. apply list_elem_of_singleton in Hc as ->. lia.
  - intros c Hc. rewrite length_app, Hlen in Hc. cbn in Hc.
    destruct (decide (c = length store)) as [->|Hne].
    + destruct (lookup_lt_is_Some_2 store1 top) as [n Hn]; [lia|]. exists top, n.
      rewrite lookup_app_l by lia. split; [done|]. destruct (Hlook top n Hn) as (n0 & _ & _ & _ & _ & ->).
      rewrite decide_True by done. set_solver.
    + destruct (Hlk c) as (id & n & Hn & Hin); [lia|].
      destruct (lookup_lt_is_Some_2 store1 id) as [n1 Hn1]; [rewrite Hlen; by eapply lookup_lt_Some|].
      exists id, n1. rewrite lookup_app_l by (by eapply lookup_lt_Some). split; [done|].
      destruct (Hlook id n1 Hn1) as (n0 & Hn0 & _ & _ & _ & ->). simplify_eq. set_solver.
Qed.

Lemma tree_step_ok depth k store stack lvl :
  tree_ok depth k store → stack_ok store stack → (1 ≤ lvl)%Z →
  let st := tree_step depth (store, stack) (lvl, Z.of_nat k) in
  tree_ok depth (S k) st.1 ∧ stack_ok st.1 st.2.
Proof.
  intros Ht [Hh Hall] Hlvl. assert (Hne : stack ≠ []) by (by intros ->). unfold tree_step. case_decide as Hd.
  - destruct stack as [|top rest]; [done|]. cbn in Hh. injection Hh as ->. cbn [fst snd]. split.
    + by apply tree_body.
    + split; cbn; [by rewrite length_alter|]. eapply Forall_impl; [exact Hall|]. intros id. by rewrite length_alter.
  - destruct (pop_to_ok store lvl stack Hne Hall) as (top & rest & -> & Hpop). cbn [fst snd].
    pose proof (proj1 (Forall_cons _ _ _) Hpop) as [Htop _]. split; [apply tree_heading; [done|done|lia]|].
    split; cbn; rewrite length_app, length_alter; cbn; [f_equal; lia|].
    constructor; [lia|]. eapply Forall_impl; [exact Hpop|]. cbn. lia.
Qed.

Lemma buildTree_ok levels depth :
  Forall (λ l, 1 ≤ l)%Z levels →
  tree_ok depth (length levels) (buildTree (zip levels (lines_below (length levels))) depth).
Proof.
  intros Hall. unfold buildTree.
  assert (H : ∀ ls k st, Forall (λ l, 1 ≤ l)%Z ls → tree_ok depth k st.1 → stack_ok st.1 st.2 →
    tree_ok depth (k + length ls) (foldl (tree_step depth) st (zip ls (map Z.of_nat (seq k (length ls))))).1).
  { induction ls as [|l ls IH]; intros k [store stack] Hls Ht Hs; cbn [length seq map zip_with foldl]; [by rewrite Nat.add_0_r|].
    apply Forall_cons in Hls as [Hl Hls]. destruct (tree_step_ok depth k store stack l Ht Hs Hl) as [H1 H2].
    rewrite <- Nat.add_succ_comm. by apply (IH (S k)). }
  apply (H levels 0); [done|..]; cbn.
  - split; [done|by eexists|..].
    + intros [|id] n Hn Hid; [done|]. by rewrite lookup_cons_ne_0 in Hn.
    + intros [|id] n c Hn Hc; [cbn in Hn; simplify_eq; set_solver|]. by rewrite lookup_cons_ne_0 in Hn.
    + intros c Hc. cbn in Hc. lia.
  - split; [done|]. constructor; [cbn; lia|done].
Qed.

(** ** Paths *)

Lemma lines_below_sorted k : StronglySorted Z.lt (lines_below k).
Proof.
  unfold lines_below. apply (StronglySorted_fmap Z.of_nat lt); [lia|].
  generalize 0 as i. induction k as [|k IH]; intros i; cbn; constructor; [done|].
  apply Forall_forall. intros j Hj%elem_of_seq. lia.
Qed.
Lemma elem_of_lines_below k x : x ∈ lines_below k ↔ ∃ j, x = Z.of_nat j ∧ j < k.
Proof. unfold lines_below. rewrite list_elem_of_fmap. setoid_rewrite elem_of_seq. split; intros (j & -> & Hj); exists j; lia. Qed.

Lemma elem_of_concat {A} (x : A) ls : x ∈ concat ls ↔ ∃ l, x ∈ l ∧ l ∈ ls.
Proof.
  rewrite list_elem_of_In, in_concat. setoid_rewrite <- list_elem_of_In. split; intros (l & ? & ?); by exists l.
Qed.

Section paths.
Context (depth : Z) (k : nat) (store : list chunkNode) (Ht : tree_ok depth k store) (inc : bool).

Lemma own_order i j n m x y :
  store !! i = Some n → store !! j = Some m → i < j → x ∈ own n → y ∈ own m → (x < y)%Z.
Proof.
  intros Hi Hj Hij Hx Hy. pose proof (lines_below_sorted k) as Hs. rewrite <- (to_lines _ _ _ Ht) in Hs.
  rewrite <- (take_drop j store), map_app, concat_app in Hs. eapply StronglySorted_app_1_elem_of; [exact Hs|..].
  - apply elem_of_concat. exists (own n). split; [done|]. apply list_elem_of_fmap. exists n. split; [done|].
    apply list_elem_of_lookup. exists i. rewrite lookup_take_lt by done. done.
  - rewrite (drop_S _ _ _ Hj). cbn. set_solver.
Qed.
Lemma own_sorted i n : store !! i = Some n → StronglySorted Z.lt (own n).
Proof.
  intros Hi. pose proof (lines_below_sorted k) as Hs. rewrite <- (to_lines _ _ _ Ht) in Hs.
  rewrite <- (take_drop i store), map_app, concat_app, (drop_S _ _ _ Hi) in Hs. apply StronglySorted_app_1_r in Hs.
  cbn in Hs. by apply StronglySorted_app_1_l in Hs.
Qed.

Definition child (a b : nat) : Prop := ∃ n, store !! a = Some n ∧ b ∈ children n.
Lemma all_reachable d : d < length store → rtc child 0 d.
Proof.
  induction d as [d IH] using lt_wf_ind. intros Hd. destruct (decide (d = 0)) as [->|Hne]; [apply rtc_refl|].
  destruct (to_linked _ _ _ Ht d) as (id & n & Hn & Hc); [lia|].
  pose proof (to_links _ _ _ Ht _ _ _ Hn Hc). eapply rtc_r; [apply (IH id); lia|]. by exists n.
Qed.

Lemma getPaths_total fuel id titles :
  id < length store → length store - id ≤ fuel → is_Some (getPaths fuel store id titles depth inc).
Proof.
  revert id titles. induction fuel as [|fuel IH]; intros id titles Hid Hf; [lia|]. cbn [getPaths].
  destruct (lookup_lt_is_Some_2 store id Hid) as [n Hn]. rewrite Hn. cbn.
  match goal with |- context [mapM ?f ?l] => assert (is_Some (mapM f l)) as [below Hb] end.
  { apply mapM_is_Some, Forall_forall. intros c Hc. pose proof (to_links _ _ _ Ht _ _ _ Hn Hc). apply IH; lia. }
  rewrite Hb. cbn. eauto.
Qed.

(** A line of a node is on a path of its own, or on the titles of its children. *)
Lemma own_covered id titles n x :
  store !! id = Some n → x ∈ own n →
  (∃ p, p ∈ own_paths inc depth titles n ∧ x ∈ p) ∨ (x ∈ path_titles inc depth titles n ∧ children n ≠ []).
Proof.
  intros Hn Hx. unfold own_paths. destruct (decide (id = 0)) as [->|Hid].
  - destruct (to_root _ _ _ Ht) as (r & Hr & Hl & Hti). simplify_eq. unfold own in Hx. rewrite Hti in Hx.
    left. exists (titles ++ bodyIndexes n). cbn in Hx. rewrite (decide_True (P := (level n = 0 ∧ _)%Z)).
    + split; [set_solver|]. apply elem_of_app. by right.
    + split; [done|]. intros E. rewrite E in Hx. set_solver.
  - pose proof (to_levels _ _ _ Ht _ _ Hn Hid) as Hlv. unfold path_titles.
    rewrite !(decide_True (P := (1 ≤ level n ≤ depth)%Z)) by lia.
    unfold own in Hx. destruct inc; cbn [andb].
    + case_bool_decide as Hb.
      * left. eexists. split; [apply elem_of_app; right; apply list_elem_of_singleton; reflexivity|]. set_solver.
      * assert (Hb' : bodyIndexes n = []) by (destruct (bodyIndexes n); [done|by destruct Hb]).
        rewrite Hb', app_nil_r in Hx. destruct (decide (children n = [])) as [Hc|Hc].
        -- left. eexists. split; [apply elem_of_app; right; apply list_elem_of_singleton; reflexivity|]. set_solver.
        -- right. split; [set_solver|done].
    + destruct (decide (children n = [])) as [Hc|Hc].
      * left. eexists. split; [apply elem_of_app; right; apply list_elem_of_singleton; reflexivity|]. set_solver.
      * right. split; [set_solver|done].
Qed.

(** The paths of a node: each begins with the titles given; a heading has one at
    least; each line below the node is on one. *)
Lemma getPaths_cover fuel id titles paths :
  getPaths fuel store id titles depth inc = Some paths →
  (∀ p, p ∈ paths → prefix titles p) ∧ (id ≠ 0 → paths ≠ [])
  ∧ ∀ d n x, rtc child id d → store !! d = Some n → x ∈ own n → ∃ p, p ∈ paths ∧ x ∈ p.
Proof.
  revert id titles paths. induction fuel as [|fuel IH]; intros id titles paths Hp; [done|]. cbn [getPaths] in Hp.
  apply bind_Some in Hp as (n & Hn & Hp). apply bind_Some in Hp as (below & Hb & [= <-]).
  apply mapM_Some in Hb. set (pt := path_titles inc depth titles n) in *.
  assert (Hpt : prefix titles pt).
  { unfold pt, path_titles. case_decide; [|done]. by apply prefix_app_r. }
  assert (Hbelow : ∀ p, p ∈ concat below → ∃ c ps, c ∈ children n ∧ ps ∈ below ∧ p ∈ ps
    ∧ getPaths fuel store c pt depth inc = Some ps).
  { intros p (ps & Hps & Hin)%elem_of_concat. apply list_elem_of_lookup in Hin as [i Hi].
    destruct (Forall2_lookup_r _ _ _ _ _ Hb Hi) as (c & Hc & Hg). exists c, ps.
    split_and!; [by eapply list_elem_of_lookup_2|by eapply list_elem_of_lookup_2|done|done]. }
  assert (Hchild : ∀ c, c ∈ children n → ∃ ps, ps ∈ below ∧ getPaths fuel store c pt depth inc = Some ps).
  { intros c Hc. apply list_elem_of_lookup in Hc as [i Hi].
    destruct (Forall2_lookup_l _ _ _ _ _ Hb Hi) as (ps & Hps & Hg). exists ps.
    split; [by eapply list_elem_of_lookup_2|done]. }
  split_and!.
  - intros p [Hp|Hp]%elem_of_app.
    + unfold own_paths in Hp. apply elem_of_app in Hp as [Hp|Hp].
      * case_decide; [|set_solver]. apply list_elem_of_singleton in Hp as ->. by apply prefix_app_r.
      * case_decide; [|set_solver]. destruct (inc && _); [|case_decide; [|set_solver]];
          apply list_elem_of_singleton in Hp as ->; [by apply prefix_app_r|done].
    + destruct (Hbelow p Hp) as (c & ps & _ & _ & Hin & Hg). destruct (IH _ _ _ Hg) as [H1 _].
      etrans; [exact Hpt|by apply H1].
  - intros Hid. pose proof (to_levels _ _ _ Ht _ _ Hn Hid) as Hlv.
    destruct (children n) as [|c cs] eqn:Ec.
    + unfold own_paths. rewrite (decide_True (P := (1 ≤ level n ≤ depth)%Z)) by lia.
      rewrite Ec. destruct (if decide (_ ∧ _) then _ else _); [|done]. by destruct (inc && _).
    + destruct (Hchild c) as (ps & Hps & Hg); [set_solver|]. destruct (IH _ _ _ Hg) as (_ & H2 & _).
      pose proof (to_links _ _ _ Ht _ _ c Hn ltac:(rewrite Ec; set_solver)).
      destruct ps as [|p ps]; [by destruct H2; [lia|]|]. intros Hnil. apply app_nil in Hnil as [_ Hnil].
      assert (p ∈ concat below) by (apply elem_of_concat; exists (p :: ps); split; [set_solver|done]).
      rewrite Hnil in *. set_solver.
  - intros d m x Hd Hm Hx. apply rtc_inv in Hd as [->|(c & (n' & Hn' & Hc) & Hd)].
    + simplify_eq. destruct (own_covered d titles n x Hn Hx) as [(p & Hp & Hxp)|[Hxp Hch]].
      * exists p. split; [|done]. apply elem_of_app. by left.
      * destruct (children n) as [|c cs] eqn:Ec; [done|].
        destruct (Hchild c) as (ps & Hps & Hg); [set_solver|]. destruct (IH _ _ _ Hg) as (H1 & H2 & _).
        pose proof (to_links _ _ _ Ht _ _ c Hn ltac:(rewrite Ec; set_solver)).
        destruct ps as [|p ps]; [by destruct H2; [lia|]|]. exists p. split.
        -- apply elem_of_app. right. apply elem_of_concat. exists (p :: ps). split; [set_solver|done].
        -- destruct (H1 p) as [r ->]; [set_solver|]. apply elem_of_app. by left.
    + simplify_eq. destruct (Hchild c Hc) as (ps & Hps & Hg). destruct (IH _ _ _ Hg) as (_ & _ & H3).
      destruct (H3 d m x Hd Hm Hx) as (p & Hp & Hxp). exists p. split; [|done]. apply elem_of_app. right.
      apply elem_of_concat. by exists ps.
Qed.

(** Paths are in the order of the document. *)
Definition before (titles : list Z) (id : nat) : Prop :=
  StronglySorted Z.lt titles ∧
  ∀ x d n y, x ∈ titles → id ≤ d → store !! d = Some n → y ∈ own n → (x < y)%Z.

Lemma before_app titles id n l :
  before titles id → store !! id = Some n → StronglySorted Z.lt l → (∀ x, x ∈ l → x ∈ own n) →
  StronglySorted Z.lt (titles ++ l) ∧ before (titles ++ l) (S id).
Proof.
  intros [Hs Hb] Hn Hl Hin. assert (Hst : StronglySorted Z.lt (titles ++ l)).
  { apply StronglySorted_app_2; [|done..]. intros x y Hx Hy. apply (Hb x id n); auto. }
  split; [done|]. split; [done|]. intros x d m y [Hx|Hx]%elem_of_app Hd Hm Hy.
  - apply (Hb x d m); auto. lia.
  - eapply (own_order id d); eauto.
Qed.

Lemma before_weaken titles id id' : before titles id → id ≤ id' → before titles id'.
Proof. intros [Hs Hb] Hle. split; [done|]. intros x d n y Hx Hd. apply Hb; [done|lia]. Qed.

Lemma titles_body id n l :
  store !! id = Some n → l = titleIndexes n ∨ l = bodyIndexes n ∨ l = own n →
  StronglySorted Z.lt l ∧ ∀ x, x ∈ l → x ∈ own n.
Proof.
  intros Hn Hl. pose proof (own_sorted id n Hn) as Hs. unfold own in *.
  destruct Hl as [-> |[-> | ->]].
  - split; [by eapply StronglySorted_app_1_l|set_solver].
  - split; [by eapply StronglySorted_app_1_r|set_solver].
  - done.
Qed.

Lemma getPaths_sorted fuel id titles paths :
  getPaths fuel store id titles depth inc = Some paths → before titles id →
  Forall (StronglySorted Z.lt) paths.
Proof.
  revert id titles paths. induction fuel as [|fuel IH]; intros id titles paths Hp Hb; [done|]. cbn [getPaths] in Hp.
  apply bind_Some in Hp as (n & Hn & Hp). apply bind_Some in Hp as (below & Hbl & [= <-]). apply mapM_Some in Hbl.
  assert (Hadd : ∀ l, l = titleIndexes n ∨ l = bodyIndexes n ∨ l = own n →
    StronglySorted Z.lt (titles ++ l) ∧ before (titles ++ l) (S id)).
  { intros l Hl. destruct (titles_body id n l Hn Hl). by eapply before_app. }
  assert (Hpt : before (path_titles inc depth titles n) (S id)).
  { unfold path_titles. case_decide; [|eapply before_weaken; [done|lia]].
    destruct inc; [rewrite app_nil_r|]; apply Hadd; unfold own; auto. }
  apply Forall_app. split.
  - unfold own_paths. apply Forall_app. split.
    + case_decide; constructor; [|done]. apply Hadd. auto.
    + unfold path_titles in *. case_decide; [|done]. destruct inc; cbn [andb] in *.
      * case_bool_decide; [|case_decide; [|done]]; constructor; try done.
        -- rewrite app_nil_r, <- app_assoc. apply Hadd. unfold own. auto.
        -- apply Hpt.
      * case_decide; [|done]. constructor; [apply Hpt|done].
  - apply Forall_forall. intros p (ps & Hps & Hin)%elem_of_concat. apply list_elem_of_lookup in Hin as [i Hi].
    destruct (Forall2_lookup_r _ _ _ _ _ Hbl Hi) as (c & Hc & Hg). apply list_elem_of_lookup_2 in Hc.
    pose proof (to_links _ _ _ Ht _ _ _ Hn Hc). specialize (IH _ _ _ Hg). rewrite Forall_forall in IH.
    apply IH; [|done]. eapply before_weaken; [exact Hpt|lia].
Qed.

(** Paths hold lines of the document. *)
Lemma getPaths_lines fuel id titles paths :
  getPaths fuel store id titles depth inc = Some paths → (∀ x, x ∈ titles → x ∈ lines_below k) →
  ∀ p x, p ∈ paths → x ∈ p → x ∈ lines_below k.
Proof.
  assert (Hown : ∀ id n x, store !! id = Some n → x ∈ own n → x ∈ lines_below k).
  { intros i n x Hn Hx. rewrite <- (to_lines _ _ _ Ht). apply elem_of_concat. exists (own n). split; [done|].
    apply list_elem_of_fmap. exists n. split; [done|]. by eapply list_elem_of_lookup_2. }
  revert id titles paths. induction fuel as [|fuel IH]; intros id titles paths Hp Ht0; [done|]. cbn [getPaths] in Hp.
  apply bind_Some in Hp as (n & Hn & Hp). apply bind_Some in Hp as (below & Hbl & [= <-]). apply mapM_Some in Hbl.
  assert (Hti : ∀ x, x ∈ titleIndexes n → x ∈ lines_below k).
  { intros x Hx. apply (Hown id n); [done|]. apply elem_of_app. by left. }
  assert (Hbo : ∀ x, x ∈ bodyIndexes n → x ∈ lines_below k).
  { intros x Hx. apply (Hown id n); [done|]. apply elem_of_app. by right. }
  assert (Hpt : ∀ x, x ∈ path_titles inc depth titles n → x ∈ lines_below k).
  { intros x. unfold path_titles. case_decide; [|auto]. rewrite !elem_of_app.
    intros [?|[?|Hx]]; [auto..|]. destruct inc; [by apply not_elem_of_nil in Hx|auto]. }
  intros p x [Hp|Hp]%elem_of_app Hx.
  - unfold own_paths in Hp. apply elem_of_app in Hp as [Hp|Hp]; (case_decide; [|by apply not_elem_of_nil in Hp]).
    + apply list_elem_of_singleton in Hp as ->. apply elem_of_app in Hx as [?|?]; auto.
    + destruct (inc && _); [|case_decide; [|by apply not_elem_of_nil in Hp]];
        apply list_elem_of_singleton in Hp as ->; [apply elem_of_app in Hx as [?|?]|]; auto.
  - apply elem_of_concat in Hp as (ps & Hps & Hin). apply list_elem_of_lookup in Hin as [i Hi].
    destruct (Forall2_lookup_r _ _ _ _ _ Hbl Hi) as (c & Hc & Hg). by eapply (IH _ _ _ Hg).
Qed.
End paths.

(** The paths of the tree of headings: for every sequence of levels from 1
    and every depth, in both modes, the paths are computed, every line is on one
    of them, and each path is a strictly increasing sequence of lines of the
    document. *)
Lemma hierarchy_paths levels depth inc :
  Forall (λ l, 1 ≤ l)%Z levels →
  let store := buildTree (zip levels (lines_below (length levels))) depth in
  ∃ paths, getPaths (length store) store 0 [] depth inc = Some paths
    ∧ (∀ j, j < length levels → ∃ p, p ∈ paths ∧ Z.of_nat j ∈ p)
    ∧ Forall (λ p, StronglySorted Z.lt p ∧ ∀ x, x ∈ p → x ∈ lines_below (length levels)) paths.
Proof.
  intros Hall store. pose proof (buildTree_ok levels depth Hall) as Ht. fold store in Ht.
  destruct (to_root _ _ _ Ht) as (r & Hr & _). pose proof (lookup_lt_Some _ _ _ Hr) as Hlen.
  destruct (getPaths_total _ _ _ Ht inc (length store) 0 [] Hlen ltac:(lia)) as [paths Hp]. exists paths. split; [done|].
  destruct (getPaths_cover _ _ _ Ht _ _ _ _ _ Hp) as (_ & _ & Hcov). split.
  - intros j Hj. assert (Hin : Z.of_nat j ∈ concat (map own store)).
    { rewrite (to_lines _ _ _ Ht). apply elem_of_lines_below. by exists j. }
    apply elem_of_concat in Hin as (l & Hx & Hl). apply list_elem_of_fmap in Hl as (n & -> & Hn).
    apply list_elem_of_lookup in Hn as [d Hd].
    apply (Hcov d n); [|done|done]. by eapply all_reachable, lookup_lt_Some.
  - apply Forall_forall. intros p Hin. split.
    + pose proof (getPaths_sorted _ _ _ Ht _ _ _ _ _ Hp) as Hs. rewrite Forall_forall in Hs. apply Hs; [|done].
      split; [constructor|]. set_solver.
    + intros x Hx. eapply (getPaths_lines _ _ _ Ht _ _ _ _ _ Hp); [set_solver|done|done].
Qed.

(** ** Documents *)

Lemma sorted_sublist {A} (l : list A) idxs g (m : nat) :
  StronglySorted Z.lt idxs → Forall (λ i, Z.of_nat m ≤ i)%Z idxs →
  Forall2 (λ i r, l !! Z.to_nat i = Some r) idxs g → sublist g (drop m l).
Proof.
  intros Hs. revert m g. induction Hs as [|i idxs Hs IH Hlt]; intros m g Hm Hg; inversion Hg as [|? r ? g' Hr Hg']; subst.
  - apply sublist_nil_l.
  - apply Forall_cons in Hm as [Hi Hm].
    assert (drop m l = take (Z.to_nat i - m) (drop m l) ++ drop (Z.to_nat i) l) as ->.
    { replace (drop (Z.to_nat i) l) with (drop (Z.to_nat i - m) (drop m l)) by (rewrite drop_drop; f_equal; lia).
      by rewrite take_drop. }
    rewrite (drop_S _ _ _ Hr). apply sublist_inserts_l, sublist_skip, IH; [|done].
    eapply Forall_impl; [exact Hlt|]. cbn. lia.
Qed.

Definition keeps_lines (lines : list lineRecord) (groups : list (list lineRecord)) : Prop :=
  (∀ r, r ∈ lines → ∃ g, g ∈ groups ∧ r ∈ g) ∧ Forall (λ g, sublist g lines) groups.

Lemma flush_run_keeps p run :
  Forall (λ rl, 1 ≤ rl.2)%Z run → ∃ groups, flush_run p run = Some groups ∧ keeps_lines run.*1 groups.
Proof.
  intros Hall. unfold flush_run. destruct run as [|x run']; [exists []; split; [done|]; split; [set_solver|done]|].
  set (run := x :: run') in *. clearbody run. clear x run'. set (h := default 1%Z (tp_Hierarchy p)).
  assert (Hone : keeps_lines run.*1 [run.*1]).
  { split; [intros r Hr; exists run.*1; split; [set_solver|done]|by constructor]. }
  assert (Hlen : length run.*2 = length run) by apply length_map.
  assert (Htree : ∀ depth, ∃ groups,
    (paths ← getPaths (length (buildTree (zip run.*2 (map Z.of_nat (seq 0 (length run)))) depth))
               (buildTree (zip run.*2 (map Z.of_nat (seq 0 (length run)))) depth) 0 [] depth (IncludeHeadingContent p);
     mapM (λ path, mapM (λ idx, run.*1 !! Z.to_nat idx) path) (filter (λ path, path ≠ []) paths)) = Some groups
    ∧ keeps_lines run.*1 groups).
  { intros depth. destruct (hierarchy_paths run.*2 depth (IncludeHeadingContent p)) as (paths & Hp & Hcov & Hs).
    { apply Forall_fmap. eapply Forall_impl; [exact Hall|done]. }
    unfold lines_below in Hp. rewrite Hlen in Hp, Hcov, Hs. rewrite Hp. cbn.
    rewrite Forall_forall in Hs.
    assert (Hin : ∀ path x, path ∈ paths → x ∈ path → is_Some (run.*1 !! Z.to_nat x)).
    { intros path y Hpath Hy. apply (Hs path Hpath), elem_of_lines_below in Hy as (j & -> & Hj). rewrite Nat2Z.id.
      apply lookup_lt_is_Some. by rewrite length_fmap. }
    match goal with |- context [mapM ?f ?l] => assert (is_Some (mapM f l)) as [groups Hg] end.
    { apply mapM_is_Some, Forall_forall. intros path [_ Hpath]%list_elem_of_filter.
      apply mapM_is_Some, Forall_forall. intros y Hy. by eapply Hin. }
    exists groups. split; [done|]. apply mapM_Some in Hg. split.
    - intros r Hr. apply list_elem_of_lookup in Hr as [j Hj]. pose proof (lookup_lt_Some _ _ _ Hj) as Hlt.
      rewrite length_fmap in Hlt. destruct (Hcov j Hlt) as (path & Hpath & Hx).
      assert (Hf : path ∈ filter (λ path, path ≠ []) paths).
      { apply list_elem_of_filter. split; [|done]. intros ->. set_solver. }
      apply list_elem_of_lookup in Hf as [i Hi]. destruct (Forall2_lookup_l _ _ _ _ _ Hg Hi) as (g & Hgi & Hm).
      apply mapM_Some in Hm. apply list_elem_of_lookup in Hx as [q Hq].
      destruct (Forall2_lookup_l _ _ _ _ _ Hm Hq) as (r' & Hr' & Hl). rewrite Nat2Z.id in Hl. simplify_eq.
      exists g. split; by eapply list_elem_of_lookup_2.
    - apply Forall_forall. intros g Hgin. apply list_elem_of_lookup in Hgin as [i Hi].
      destruct (Forall2_lookup_r _ _ _ _ _ Hg Hi) as (path & Hpath & Hm). apply mapM_Some in Hm.
      apply list_elem_of_lookup_2, list_elem_of_filter in Hpath as [_ Hpath]. destruct (Hs path Hpath) as [Hsort Hlines].
      change run.*1 with (drop 0 run.*1). eapply sorted_sublist; [exact Hsort| |exact Hm]. apply Forall_forall. intros y Hy.
      apply Hlines, elem_of_lines_below in Hy as (j & -> & _). lia. }
  destruct (resolveTargetLevel run.*2 h) as [|lvl|lvl]; [by eexists|apply Htree..].
Qed.

Lemma keeps_app l1 l2 g1 g2 : keeps_lines l1 g1 → keeps_lines l2 g2 → keeps_lines (l1 ++ l2) (g1 ++ g2).
Proof.
  intros [H1 S1] [H2 S2]. split.
  - intros r [Hr|Hr]%elem_of_app; [destruct (H1 r Hr) as (g & ? & ?)|destruct (H2 r Hr) as (g & ? & ?)]; exists g; set_solver.
  - apply Forall_app. split; (eapply Forall_impl; [eassumption|]); intros g Hg.
    + by apply sublist_inserts_r.
    + by apply sublist_inserts_l.
Qed.

Lemma hierarchy_groups_keeps p lines :
  Forall (λ rl, 1 ≤ rl.2)%Z lines →
  ∃ groups, hierarchy_groups p [] lines = Some groups ∧ keeps_lines lines.*1 groups.
Proof.
  intros Hall. change lines with ([] ++ lines) at 2. assert (Hrun : Forall (λ rl : lineRecord * Z, 1 ≤ rl.2)%Z []) by done.
  revert Hrun. generalize (@nil (lineRecord * Z)) as run. induction lines as [|[rec lvl] lines IH]; intros run Hrun; cbn.
  - rewrite app_nil_r. by apply flush_run_keeps.
  - apply Forall_cons in Hall as [Hl Hall]. destruct (isText rec).
    + destruct (IH Hall (run ++ [(rec, lvl)])) as (groups & Hg & Hk).
      { apply Forall_app. split; [done|by constructor]. }
      exists groups. rewrite <- app_assoc in Hk. done.
    + destruct (flush_run_keeps p run Hrun) as (g1 & H1 & K1). destruct (IH Hall []) as (g2 & H2 & K2); [done|].
      rewrite H1, H2. cbn. eexists. split; [done|]. rewrite fmap_app. cbn. apply keeps_app; [done|].
      apply (keeps_app [rec] lines.*1 [[rec]] g2); [|done].
      split; [intros r Hr; exists [rec]; set_solver|by constructor].
Qed.

(** C30: the hierarchy chunker loses no line: for every configuration, set of
    patterns, document and outline with levels from 0, the groups are computed,
    every line of the document, text or not, is in one, and each group is a
    subsequence of the document. *)
Theorem hierarchy_keeps_lines lm P p outline records :
  Forall (λ o, 0 ≤ oe_level o)%Z outline →
  ∃ groups, hierarchy_document lm P p outline records = Some groups ∧ keeps_lines records groups.
Proof.
  intros Ho. destruct (levels_ok lm P records outline (tp_Levels p) Ho) as [Hlen Hall].
  unfold hierarchy_document. revert Hlen Hall. generalize (lc_levels (newLevelContext lm P records outline (tp_Levels p))) as levels.
  intros levels Hlen Hall.
  destruct (hierarchy_groups_keeps p (zip records levels)) as (groups & Hg & Hk).
  - clear -Hall. revert records. induction Hall as [|l levels Hl Hall IH]; intros [|r records]; cbn; constructor; [done|apply IH].
  - exists groups. rewrite fst_zip in Hk by lia. done.
Qed.

(** The paths of a small document. *)
Example demo_paths :
  getPaths 4 (buildTree (zip [9; 1; 9; 2; 9; 1; 9]%Z (lines_below 7)) 2) 0 [] 2 true
  = Some [[0]; [1; 2]; [1; 3; 4]; [5; 6]]%Z.
Proof. reflexivity. Qed.

Lemma hierarchy_keeps_lines_witness :
  ∃ groups, hierarchy_document starts_with no_patterns demo_param [] demo_doc = Some groups
    ∧ map (map lr_text) groups = [["preface"]; ["# one"; "first body"]; ["# one"; "## two"; "second body"]; ["# three"; "last body"]]
    ∧ keeps_lines demo_doc groups.
Proof.
  destruct (hierarchy_keeps_lines starts_with no_patterns demo_param [] demo_doc) as (groups & Hg & Hk); [constructor|].
  exists groups. split_and!; [exact Hg| |exact Hk]. vm_compute in Hg. injection Hg as <-. reflexivity.
Defined.
