(* ===== verification/TokenSplitProps.v ===== *)
(** * Properties of the splits of the token chunker: nothing is lost, everything fits *)

From S2P Require Import Prelude GoValue Tokenizer TitleLevels ChunkDoc TokenSplit.
From S2P Require Import TitleProps.

(** ** Cutting strings *)

Lemma substring_length n m s : String.length (String.substring n m s) ≤ String.length s - n.
Proof.
  revert n m. induction s as [|a s IH]; intros [|n] [|m]; cbn; try lia.
  - pose proof (IH 0 m). lia.
  - apply IH.
  - apply IH.
Qed.
Lemma take_drop_bytes n s : take_bytes n s +:+ drop_bytes n s = s.
Proof.
  unfold take_bytes, drop_bytes. revert n. induction s as [|a s IH]; intros [|n]; [done..| |].
  - change (String.substring 0 0 (String a s)) with "". change ("" +:+ ?x) with x. by apply substring_all, Nat.eq_le_incl.
  - cbn [String.substring String.length]. rewrite string_app_cons. f_equal. apply (IH n).
Qed.
Lemma drop_bytes_length n s : String.length (drop_bytes n s) ≤ String.length s - n.
Proof. apply substring_length. Qed.
Lemma take_bytes_length n s : String.length (take_bytes n s) ≤ n.
Proof. unfold take_bytes. revert n. induction s as [|a s IH]; intros [|n]; cbn; [lia..|]. specialize (IH n). lia. Qed.

Lemma take_bytes_app p r : take_bytes (String.length p) (p +:+ r) = p.
Proof.
  unfold take_bytes. induction p as [|a p IH]; [by destruct r|]. rewrite string_app_cons. cbn. by f_equal.
Qed.

(** What [strings.Index] finds. *)
Lemma index_length p s n : String.index 0 p s = Some n → n + String.length p ≤ String.length s ∨ p = "".
Proof.
  intros Hi%String.index_correct1. pose proof (substring_length n (String.length p) s) as Hl. rewrite Hi in Hl.
  destruct p; [by right|]. cbn in *. left. lia.
Qed.
Lemma index_split p s n :
  String.index 0 p s = Some n → s = take_bytes n s +:+ (p +:+ drop_bytes (n + String.length p) s).
Proof.
  intros Hi%String.index_correct1. rewrite <- (take_drop_bytes n s) at 1. f_equal.
  assert (Hd : ∀ s n m, String.substring n m s = take_bytes m (drop_bytes n s)).
  { clear. unfold take_bytes, drop_bytes. intros s. induction s as [|a s IH]; intros [|n] m; [by destruct m..| |].
    - by rewrite (substring_all (String a s) (String.length (String a s) - 0)) by (cbn; lia).
    - apply (IH n m). }
  rewrite Hd in Hi. rewrite <- (take_drop_bytes (String.length p) (drop_bytes n s)) at 1. rewrite Hi. f_equal.
  assert (Hdd : ∀ s n m, drop_bytes m (drop_bytes n s) = drop_bytes (n + m) s).
  { clear. intros s. unfold drop_bytes. induction s as [|a s IH]; intros [|n] m; [by destruct m..| |].
    - by rewrite (substring_all (String a s) (String.length (String a s) - 0)) by (cbn; lia).
    - apply (IH n m). }
  apply Hdd.
Qed.

(** ** Texts without tags *)

Definition tag_free (s : string) : Prop := ∀ a b, s ≠ a +:+ ("@@" +:+ b).
Lemma tag_free_index s : tag_free s → String.index 0 "@@" s = None.
Proof. intros Hf. destruct (String.index 0 "@@" s) as [n|] eqn:E; [|done]. exfalso. by eapply Hf, index_split. Qed.
Lemma tag_free_app_l s t : tag_free (s +:+ t) → tag_free s.
Proof. intros Hf a b ->. apply (Hf a (b +:+ t)). by rewrite !string_app_assoc. Qed.
Lemma tag_free_app_r s t : tag_free (s +:+ t) → tag_free t.
Proof. intros Hf a b ->. apply (Hf (s +:+ a) b). by rewrite !string_app_assoc. Qed.
Lemma index_tag_free s : String.index 0 "@@" s = None → tag_free s.
Proof.
  intros Hi a b ->. apply (String.index_correct3 0 (String.length a)) in Hi; [|done|lia]. apply Hi.
  clear. induction a as [|c a IH]; [cbn; by destruct b|]. rewrite string_app_cons. cbn. exact IH.
Qed.

Lemma adjust_cut_total enc target text cut fuel from :
  String.length text - from < fuel → is_Some (adjust_cut enc target text cut fuel from).
Proof.
  revert from. induction fuel as [|fuel IH]; intros from Hf; [lia|]. cbn [adjust_cut].
  destruct (String.index 0 "@@" _) as [s|] eqn:Es; [|by eexists].
  destruct (String.index 0 "##" _) as [e|] eqn:Ee; [|by eexists].
  destruct (_ && _); [repeat case_match; by eexists|]. apply IH.
  apply index_length in Es as [Es|]; [|done]. pose proof (drop_bytes_length from text). cbn in Es. lia.
Qed.
Lemma adjustCut_total enc target text cut : is_Some (adjustCutPastTag enc target text cut).
Proof. apply adjust_cut_total. lia. Qed.
Lemma adjustCut_tag_free enc target text cut : tag_free text → adjustCutPastTag enc target text cut = Some cut.
Proof.
  intros Hf. unfold adjustCutPastTag. rewrite Nat.add_1_r. cbn [adjust_cut].
  unfold drop_bytes. rewrite Nat.sub_0_r, substring_all by done. by rewrite tag_free_index.
Qed.

Lemma flush_text_concat s : concat_strings (flush s) = s.
Proof. unfold flush. case_decide as Hs; [by subst s|]. cbn. apply string_app_nil. Qed.

(** ** The hard cap *)

Section cap.
Context (enc : option Encoder) (target : Z).
Notation num := (tokenizeStr enc).

(** Room for a token. *)
Definition lawful : Prop := (0 < target)%Z.
(** A text without tags that the laws of the encoder speak of. *)
Definition plain_text (s : string) : Prop := tag_free s ∧ covered enc s.
Lemma plain_app_l s t : plain_text (s +:+ t) → plain_text s.
Proof. intros [H1 H2]. split; [by eapply tag_free_app_l|by eapply covered_left]. Qed.
Lemma plain_app_r s t : plain_text (s +:+ t) → plain_text t.
Proof. intros [H1 H2]. split; [by eapply tag_free_app_r|by eapply covered_right]. Qed.
Definition under_cap (s : string) : Prop := (num s ≤ target)%Z.
(** The pieces of a text: together the text; within the cap where there are no tags
    and the laws of the encoder speak of it. *)
Definition splits (out : list string) (text : string) : Prop :=
  concat_strings out = text ∧ (lawful → plain_text text → Forall under_cap out).

Lemma flush_text_under_cap s : lawful → under_cap s → Forall under_cap (flush s).
Proof. intros _ Hs. unfold flush. case_decide; by repeat constructor. Qed.

Lemma num_some e s : enc = Some e → s ≠ "" → num s = Z.of_nat (length (encode_text e s)).
Proof. intros -> Hs. unfold tokenizeStr, NumTokensFromString. by rewrite decide_False. Qed.
Lemma num_empty : num "" = 0%Z.
Proof. done. Qed.

(** A text over the cap is cut to a part of it that fits. *)
Lemma trim_over text :
  lawful → covered enc text → (target < num text)%Z →
  let h := TrimContentToTokenLimit enc text target in
  h ≠ "" ∧ h ≠ text ∧ prefix_of h text ∧ under_cap h.
Proof.
  intros Ht Hcov Hc. unfold lawful in Ht. assert (text ≠ "") by (intros ->; rewrite num_empty in Hc; lia).
  assert ((∃ e, enc = Some e) ∨ enc = None) as [[e He]|He] by (destruct enc; eauto).
  - rewrite (num_some e) in Hc by done. destruct (trim_some enc target Ht e text He Hcov Hc) as (H1 & H2 & H3 & H4).
    split_and!; [done..|]. unfold under_cap. by rewrite (num_some e).
  - exfalso. unfold tokenizeStr, NumTokensFromString in Hc. rewrite He, decide_False in Hc by done. lia.
Qed.

Lemma hard_pieces_splits fuel rest :
  String.length rest < fuel → ∃ out, hard_pieces enc target fuel rest = Some out ∧ splits out rest.
Proof.
  revert rest. induction fuel as [|fuel IH]; intros rest Hf; [lia|]. cbn [hard_pieces].
  assert (Hflush : (lawful → plain_text rest → under_cap rest) → ∃ out, Some (flush rest) = Some out ∧ splits out rest).
  { intros Hc. exists (flush rest). split; [done|]. split; [apply flush_text_concat|]. auto using flush_text_under_cap. }
  case_decide as Hfit; [by apply Hflush|].
  assert (Htrim : lawful → plain_text rest → _) by (intros Hl [_ Hcov]; exact (trim_over rest Hl Hcov ltac:(lia))). cbn zeta in Htrim.
  set (h0 := TrimContentToTokenLimit enc rest target) in *.
  destruct (_ || _) eqn:E0.
  { apply Hflush. intros Hl Hp. destruct (Htrim Hl Hp) as (? & ? & _). exfalso.
    apply orb_true_iff in E0 as [E0|E0]; by apply bool_decide_eq_true in E0. }
  clear E0. set (h := if has_prefix rest h0 then h0 else trim_fffd h0).
  assert (Hh : lawful → plain_text rest → h = h0 ∧ h0 ≠ "" ∧ h0 ≠ rest ∧ prefix_of h0 rest ∧ under_cap h0).
  { intros Hl Hp. destruct (Htrim Hl Hp) as (H1 & H2 & H3 & H4). unfold h. by rewrite (proj2 (has_prefix_spec rest h0) H3). }
  destruct (decide (h = "")) as [E1|E1]; [apply Hflush; intros Hl Hp; destruct (Hh Hl Hp) as (He & ? & _); by rewrite <- He in *|].
  destruct (adjustCut_total enc target rest (String.length h)) as [cut Hcut]. rewrite Hcut. cbn [mbind option_bind].
  assert (Hg : lawful → plain_text rest → cut = String.length h0 ∧ take_bytes cut rest = h0 ∧ 0 < cut < String.length rest).
  { intros Hl Hfree. destruct (Hh Hl Hfree) as (Hh0 & H1 & H2 & [r Hr] & _). rewrite adjustCut_tag_free in Hcut by apply Hfree.
    injection Hcut as <-. rewrite Hh0. split; [done|]. rewrite Hr, string_length_app. split.
    - apply take_bytes_app.
    - destruct h0; [done|]. destruct r; [rewrite string_app_nil in Hr; done|]. cbn. lia. }
  destruct (_ || _) eqn:E2.
  { apply Hflush. intros Hl Hfree. destruct (Hg Hl Hfree) as (_ & _ & ?). exfalso.
    apply orb_true_iff in E2 as [E2|E2]; apply bool_decide_eq_true in E2; lia. }
  apply orb_false_iff in E2 as [E2%bool_decide_eq_false E3%bool_decide_eq_false].
  pose proof (drop_bytes_length cut rest). destruct (IH (drop_bytes cut rest)) as (out & -> & Hcat & Hall); [lia|].
  eexists. split; [done|]. split; [by rewrite concat_strings_cons, Hcat, take_drop_bytes|].
  intros Hl Hfree. constructor.
  - destruct (Hg Hl Hfree) as (_ & -> & _). by destruct (Hh Hl Hfree) as (_ & _ & _ & _ & ?).
  - apply Hall; [done|]. eapply plain_app_r. by rewrite take_drop_bytes.
Qed.

Lemma hardSplitPiece_splits text : ∃ out, hardSplitPiece enc target text = Some out ∧ splits out text.
Proof. apply hard_pieces_splits. lia. Qed.
Lemma cap_piece_splits text : ∃ out, cap_piece enc target text = Some out ∧ splits out text.
Proof.
  unfold cap_piece. case_decide; [apply hardSplitPiece_splits|]. exists [text]. split; [done|].
  split; [cbn; apply string_app_nil|]. intros _ _. constructor; [unfold under_cap; lia|done].
Qed.

(** ** Sentences *)

Lemma sentences_from_concat rs current : concat_strings (sentences_from rs current) = current +:+ concat_strings rs.
Proof.
  revert current. induction rs as [|r rs IH]; intros current; cbn [sentences_from].
  - rewrite flush_text_concat. cbn. by rewrite string_app_nil.
  - rewrite (concat_strings_cons r). case_decide; [rewrite concat_strings_cons|]; rewrite IH; by rewrite string_app_assoc.
Qed.
Lemma splitSentences_concat text : concat_strings (splitSentencesLossless text) = text.
Proof. unfold splitSentencesLossless. rewrite sentences_from_concat. apply runes_concat. Qed.

Lemma sentence_pieces_splits parts ws :
  ∃ ps ws', sentence_pieces enc target parts ws = Some (ps, ws')
    ∧ concat_strings ps +:+ ws' = ws +:+ concat_strings parts
    ∧ (lawful → plain_text (ws +:+ concat_strings parts) → Forall under_cap ps).
Proof.
  revert ws. induction parts as [|part parts IH]; intros ws; cbn [sentence_pieces].
  { exists [], ws. split_and!; [done|cbn; by rewrite string_app_nil|by constructor]. }
  rewrite concat_strings_cons, <- string_app_assoc. case_decide as Hw; [apply IH|].
  destruct (cap_piece_splits (ws +:+ part)) as (out & -> & Hc & Hf).
  destruct (IH "") as (ps & ws' & -> & Hc2 & Hf2). cbn. exists (out ++ ps), ws'. split; [done|].
  rewrite concat_strings_app, Hc, !string_app_assoc, Hc2. split; [done|]. intros Hl Ht. apply Forall_app. split.
  - apply Hf; [done|]. eapply plain_app_l. by rewrite string_app_assoc.
  - apply Hf2; [done|]. change ("" +:+ ?x) with x. do 2 eapply plain_app_r; done.
Qed.

Lemma attach_trailing_splits ps ws :
  (lawful → plain_text (concat_strings ps +:+ ws) → Forall under_cap ps) →
  ∃ out, attach_trailing enc target ps ws = Some out ∧ splits out (concat_strings ps +:+ ws).
Proof.
  intros Hps. unfold attach_trailing. case_decide as Hw.
  { exists ps. subst ws. split; [done|]. split; [by rewrite string_app_nil|done]. }
  destruct (last ps) as [l|] eqn:El.
  - apply last_Some in El as [ps' ->]. destruct (cap_piece_splits (l +:+ ws)) as (out & -> & Hc & Hf). cbn.
    rewrite length_app, Nat.add_sub, take_app_length. eexists. split; [done|]. split.
    + rewrite !concat_strings_app, Hc. cbn. by rewrite string_app_nil, string_app_assoc.
    + intros Hl Ht. apply Forall_app. split; [by pose proof (Hps Hl Ht) as [? _]%Forall_app|].
      apply Hf; [done|]. rewrite concat_strings_app in Ht. cbn in Ht. rewrite string_app_nil, string_app_assoc in Ht.
      by eapply plain_app_r.
  - apply last_None in El as ->. destruct (cap_piece_splits ws) as (out & -> & Hc). by exists out.
Qed.

Lemma attach_lead_splits (lead : bool) ps text :
  splits ps text → text ≠ "" ∨ lead = false →
  ∃ out, attach_lead enc target lead ps = Some out ∧ splits out ((if lead then newline else "") +:+ text).
Proof.
  intros [Hc Hf] Hne. destruct ps as [|p ps]; cbn [attach_lead].
  { exists []. split; [done|]. cbn in Hc. subst text. destruct Hne as [?| ->]; [done|]. by split. }
  destruct lead; [|by exists (p :: ps)].
  destruct (cap_piece_splits (newline +:+ p)) as (out & -> & Hc2 & Hf2). cbn. eexists. split; [done|]. split.
  - rewrite concat_strings_app, Hc2, string_app_assoc, <- concat_strings_cons. by rewrite Hc.
  - rewrite <- Hc, concat_strings_cons, <- string_app_assoc. intros Hl Ht. apply Forall_app. split.
    + apply Hf2; [done|]. by eapply plain_app_l.
    + rewrite string_app_assoc, <- concat_strings_cons, Hc in Ht. apply plain_app_r in Ht.
      by pose proof (Hf Hl Ht) as [_ ?]%Forall_cons.
Qed.

(** Only a text that is a lone line break is lost. *)
Lemma oversized_splits text :
  ∃ out, oversized_pieces enc target text = Some out ∧ (text ≠ newline → splits out text).
Proof.
  unfold oversized_pieces. set (lead := has_prefix text newline).
  set (body := if lead then drop_bytes 1 text else text).
  assert (Htext : text = (if lead then newline else "") +:+ body).
  { unfold body, lead. destruct (has_prefix text newline) eqn:E; [|done].
    apply has_prefix_spec in E as [r ->]. pose proof (drop_bytes_app newline r) as Hd. change (String.length newline) with 1 in Hd. by rewrite Hd. }
  destruct (sentence_pieces_splits (splitSentencesLossless body) "") as (ps & ws & -> & Hc & Hf).
  rewrite splitSentences_concat in Hc, Hf. change ("" +:+ body) with body in *. cbn [mbind option_bind].
  destruct (attach_trailing_splits ps ws) as (out & -> & Hs); [by rewrite Hc|]. rewrite Hc in Hs. cbn.
  destruct (decide (body = "" ∧ lead = true)) as [[Hb Hlead]|Hb].
  - rewrite Hlead, Hb in *. destruct out as [|p out].
    + exists []. split; [done|]. intros Hn. by rewrite Htext in Hn.
    + cbn. destruct (cap_piece_splits (newline +:+ p)) as (o & -> & _). cbn. eexists. split; [done|].
      intros Hn. by rewrite Htext in Hn.
  - destruct (attach_lead_splits lead out body) as (o & -> & Ho); [done|destruct lead; [left; naive_solver|by right]|].
    exists o. split; [done|]. intros _. by rewrite Htext.
Qed.

Lemma oversized_newline : oversized_pieces enc target newline = Some [].
Proof. reflexivity. Qed.

(** ** Units *)

Definition is_text (d : ChunkDoc) : Prop := cd_CKType d = "text".
(** The count a unit carries is not below that of its text. *)
Definition counted (d : ChunkDoc) : Prop := (num (cd_Text d) ≤ unit_tokens enc d)%Z.
Definition doc_under_cap (d : ChunkDoc) : Prop := is_text d → under_cap (cd_Text d).

Lemma slice_pieces_texts ck total cum ps :
  map cd_Text (slice_pieces enc ck total cum ps) = ps.*1 ∧ Forall is_text (slice_pieces enc ck total cum ps).
Proof.
  revert cum. induction ps as [|[p n] ps IH]; intros cum; [by split; constructor|].
  destruct (IH (cum + n)%Z) as [H1 H2]. cbn. split; [by f_equal|by constructor].
Qed.
Lemma copies_texts ck ps :
  map cd_Text (map (λ p, set_piece ck p (Some (num p))) ps) = ps ∧ Forall is_text (map (λ p, set_piece ck p (Some (num p))) ps).
Proof. induction ps as [|p ps [H1 H2]]; [by split; constructor|]. cbn. split; [by f_equal|by constructor]. Qed.

Lemma splitOversized_texts ck ps :
  oversized_pieces enc target (cd_Text ck) = Some ps →
  ∃ out, splitOversizedText enc target ck = Some out ∧ map cd_Text out = ps ∧ Forall is_text out.
Proof.
  intros Hp. unfold splitOversizedText. rewrite Hp. cbn [mbind option_bind].
  set (counts := piece_runes (has_prefix (cd_Text ck) newline) ps).
  assert (Hz : (zip ps counts).*1 = ps) by (apply fst_zip; unfold counts, piece_runes; by rewrite length_imap).
  pose proof (copies_texts ck ps) as [Hc1 Hc2].
  pose proof (slice_pieces_texts ck (foldl Z.add 0%Z counts) 0 (zip ps counts)) as [Hs1 Hs2]. rewrite Hz in Hs1.
  destruct (cd_PDFPositions ck), (cd_Positions ck); try case_decide; by eexists.
Qed.

(** What a unit may become: itself if it is not text; else text, with nothing
    lost but a lone line break, within the cap. *)
Definition expanded (u : ChunkDoc) (out : list ChunkDoc) : Prop :=
  if decide (is_text u) then
    Forall is_text out ∧ (concat_strings (map cd_Text out) = cd_Text u ∨ cd_Text u = newline ∧ out = [])
    ∧ (lawful → counted u → plain_text (cd_Text u) → Forall doc_under_cap out)
  else out = [u].

Lemma expand_unit_expanded u : ∃ out, expand_unit enc target u = Some out ∧ expanded u out.
Proof.
  unfold expand_unit, expanded, is_text. destruct (decide (cd_CKType u = "text")) as [Ht|Ht].
  2: { rewrite decide_True by done. by exists [u]. }
  rewrite decide_False by (by intros []). case_decide as Hle.
  - set (u' := match cd_TKNums u with Some _ => u | None => _ end).
    assert (Hu : cd_Text u' = cd_Text u ∧ cd_CKType u' = cd_CKType u) by (unfold u'; by destruct (cd_TKNums u)).
    destruct Hu as [Hu1 Hu2]. exists [u']. split; [done|]. split_and!.
    + constructor; [by rewrite Hu2|done].
    + left. cbn. by rewrite string_app_nil.
    + intros _ Hc _. constructor; [|done]. intros _. rewrite Hu1. unfold under_cap, counted in *. lia.
  - destruct (oversized_splits (cd_Text u)) as (ps & Hp & Hs).
    destruct (splitOversized_texts u ps Hp) as (out & -> & Hm & Ha). exists out. split; [done|].
    destruct (decide (cd_Text u = newline)) as [E|E].
    { rewrite E, oversized_newline in Hp. injection Hp as <-. destruct out; [|done]. split_and!; [done|by right|by constructor]. }
    rewrite Hm. split_and!; [done|left; by apply Hs|]. intros Hl _ Hf. pose proof (proj2 (Hs E) Hl Hf) as Hall.
    rewrite <- Hm in Hall. clear -Hall. induction out; [done|]. apply Forall_cons in Hall as [??]. constructor; [by intros _|auto].
Qed.

Lemma expand_expanded units :
  (0 < target)%Z →
  ∃ outs, expandOversizedUnits enc target units = Some (concat outs) ∧ Forall2 expanded units outs.
Proof.
  intros Ht. unfold expandOversizedUnits. rewrite decide_False by lia.
  assert (Hm : ∃ outs, mapM (expand_unit enc target) units = Some outs ∧ Forall2 expanded units outs).
  { induction units as [|u units (outs & Hm & Ho)]; [by exists []|].
    destruct (expand_unit_expanded u) as (o & Hu & He). cbn [mapM]. rewrite Hu. cbn. rewrite Hm. cbn.
    exists (o :: outs). split; [done|by constructor]. }
  destruct Hm as (outs & -> & Ho). by exists outs.
Qed.

Lemma expanded_under_cap units outs :
  lawful → Forall2 expanded units outs →
  Forall (λ u, is_text u → counted u ∧ plain_text (cd_Text u)) units → Forall doc_under_cap (concat outs).
Proof.
  intros Hl Ho Hu. induction Ho as [|u out units outs He Ho IH]; [done|].
  apply Forall_cons in Hu as [Hu1 Hu2]. cbn. apply Forall_app. split; [|by apply IH].
  unfold expanded in He. case_decide as Hk.
  - destruct (Hu1 Hk) as [H1 H2]. destruct He as (_ & _ & He). by apply He.
  - subst out. constructor; [by intros ?|done].
Qed.
End cap.
