(* ===== verification/TokenMergeProps.v ===== *)
(** * Properties of the merge and of the payloads of the token chunker *)

From S2P Require Import Prelude GoValue Tokenizer TitleLevels ChunkDoc TokenSplit.
From S2P Require Import TokenMerge TitleProps TokenSplitProps.

(** ** Runes of repaired text *)

(** A rune is kept by the repair and starts every text it is put in front of, or
    it is a stray byte and is replaced. *)
Lemma rune_repair s :
  Forall (λ r, (utf8_fix r = r ∧ ∀ t, runes (r +:+ t) = r :: runes t) ∨ utf8_fix r = rune_error "") (runes s).
Proof.
  induction s as [|p s Hp Hr IH] using runes_ind; [constructor|]. rewrite Hr. constructor; [|done].
  clear IH. destruct p as [|a p]; [done|].
  destruct (runes_cons a (p +:+ s)) as (q & s' & Hq & Hqn & Hqr & Hqt).
  rewrite <- string_app_cons in Hq, Hqr. rewrite Hr in Hqr. injection Hqr as <- Hs'.
  destruct Hqt as [Hqt|Hqt].
  - injection Hqt as ->. cbn [utf8_fix]. destruct (rune1 a) eqn:E1; [left|by right]. split; [done|].
    intros t. rewrite string_app_cons. cbn [runes]. by rewrite E1.
  - pose proof (Hqt "") as H0. rewrite string_app_nil in H0. revert H0. cbn [runes utf8_fix].
    destruct (rune1 a) eqn:E1; [destruct p; [by left|done]|].
    destruct p as [|b p]; [by right|]. destruct (rune2 a b) eqn:E2; [destruct p; [by left|done]|].
    destruct p as [|c p]; [done|]. destruct (rune3 a b c) eqn:E3; [destruct p; [by left|done]|].
    destruct p as [|d p]; [done|]. destruct (rune4 a b c d) eqn:E4; [destruct p; [by left|done]|done].
Qed.

(** A rune of some text: repaired, it is a rune of every text it starts. *)
Definition rune_like (r : string) : Prop := ∀ t, runes (utf8_fix r +:+ t) = utf8_fix r :: runes t.
Lemma runes_like s : Forall rune_like (runes s).
Proof. eapply Forall_impl; [apply rune_repair|]. by intros r [[Hr Ht]|Hr] t; rewrite Hr. Qed.

Lemma runes_rune_string l : Forall rune_like l → runes (rune_string l) = map utf8_fix l.
Proof.
  unfold rune_string. induction 1 as [|r l Hr Hl IH]; [done|]. cbn [map]. rewrite concat_strings_cons, (Hr _). by rewrite IH.
Qed.
Lemma rune_string_fix l : rune_string (map utf8_fix l) = rune_string l.
Proof.
  unfold rune_string. rewrite map_map. f_equal. apply map_ext. intros s. apply utf8_fix_idem.
Qed.

(** ** Overlap *)

Section merge.
Context (enc : option Encoder) (target : Z) (pct : float64) (joinSep : string).
Notation num := (tokenizeStr enc).
Notation under_cap := (under_cap enc target).
Notation doc_under_cap := (doc_under_cap enc target).
Notation step := (merge_step enc target pct joinSep).

Lemma fit_suffix_spec current rs c :
  (under_cap current → under_cap ((fit_suffix enc current target rs c).1 +:+ current))
  ∧ ∃ k, (fit_suffix enc current target rs c).1 = rune_string (drop k rs).
Proof.
  revert c. induction rs as [|r rs IH]; intros c; cbn [fit_suffix].
  { split; [done|]. by exists 0. }
  case_decide as Hf; [split; [done|by exists 1]|].
  destruct (IH (c + 1)%Z) as [H1 (k & H2)]. split; [done|]. by exists (S k).
Qed.

(** The tail of a text, by visible runes. *)
Definition tail_of (prev overlap : string) : Prop := ∃ k, overlap = rune_string (drop k (runes (removeTag prev))).

Lemma overlap_spec prev current :
  let o := (overlapFitPrefix enc (computeOverlapPrefix enc prev pct).1 current target).1 in
  (under_cap current → under_cap (o +:+ current)) ∧ tail_of prev o.
Proof.
  cbn zeta. set (o0 := (computeOverlapPrefix enc prev pct).1).
  assert (H0 : tail_of prev o0).
  { unfold o0, computeOverlapPrefix, tail_of. repeat case_decide; cbn;
      [exists (length (runes (removeTag prev)))..|eauto]; by rewrite drop_ge. }
  unfold overlapFitPrefix. case_decide as Hf; [by split|].
  destruct (fit_suffix_spec current (runes o0) 0) as [H1 (k & Hk)]. split; [done|].
  destruct H0 as [j Hj]. rewrite Hk. exists (j + k). rewrite Hj, runes_rune_string.
  - rewrite <- (fmap_drop utf8_fix), drop_drop. apply rune_string_fix.
  - apply Forall_drop, runes_like.
Qed.

(** ** Groups *)

(** The chunks of groups of consecutive units.  A chunk that is not text is its
    unit.  A text chunk is the text of its units, after the tail of the text
    chunk before it when there is overlap; it was begun because its first unit
    did not go into that chunk. *)
Inductive merged_from : list (list ChunkDoc) → list ChunkDoc → Prop :=
| merged_nil : merged_from [] []
| merged_other gs cs u : merged_from gs cs → ¬ is_text u → merged_from (gs ++ [[u]]) (cs ++ [u])
| merged_text gs cs u us c overlap :
    merged_from gs cs → Forall is_text (u :: us) → is_text c →
    cd_Text c = foldl (join_text joinSep) (overlap +:+ cd_Text u) (map cd_Text us) →
    overlap = "" ∨ (f64_lt (f64_of_int 0) pct = true ∧ ∃ p, last cs = Some p ∧ is_text p ∧ tail_of (cd_Text p) overlap) →
    (∀ p, last cs = Some p → is_text p → starts_new enc target pct joinSep p u = true) →
    merged_from (gs ++ [u :: us]) (cs ++ [c]).

(** The chunk that may still grow is the last one, and is text. *)
Definition open_chunk (st : MergeState) : Prop :=
  match st.2 with
  | None => ∀ p, last st.1.*1 = Some p → ¬ is_text p
  | Some i => ∃ l p items, st.1 = l ++ [(p, items)] ∧ i = length l ∧ is_text p
  end.

Definition merge_inv (us : list ChunkDoc) (st : MergeState) : Prop :=
  open_chunk st ∧ (∃ gs, concat gs = us ∧ merged_from gs st.1.*1)
  ∧ (Forall doc_under_cap us → Forall doc_under_cap st.1.*1).

Lemma push_inv us st ck c items overlap :
  merge_inv us st → is_text ck → is_text c → cd_Text c = overlap +:+ cd_Text ck →
  overlap = "" ∨ (f64_lt (f64_of_int 0) pct = true ∧ ∃ p, last st.1.*1 = Some p ∧ is_text p ∧ tail_of (cd_Text p) overlap) →
  (∀ p, last st.1.*1 = Some p → is_text p → starts_new enc target pct joinSep p ck = true) →
  (under_cap (cd_Text ck) → under_cap (cd_Text c)) →
  merge_inv (us ++ [ck]) (push st c items).
Proof.
  intros (Ho & (gs & Hg & Hm) & Hc) Hck Hcc Ht Hov Hnew Hcap. unfold push. split_and!; cbn [fst snd].
  - by exists st.1, c, items.
  - exists (gs ++ [[ck]]). split; [by rewrite concat_app, Hg|]. rewrite fmap_app. cbn.
    apply (merged_text gs st.1.*1 ck [] c overlap); auto.
  - intros [H1 H2]%Forall_app. rewrite fmap_app. apply Forall_app. split; [auto|]. constructor; [|done].
    intros _. apply Hcap. by apply Forall_cons in H2 as [H2 _]; apply H2.
Qed.

Lemma start_chunk_inv us st prev items ck :
  merge_inv us st → is_text ck → last st.1.*1 = Some prev → is_text prev →
  starts_new enc target pct joinSep prev ck = true →
  merge_inv (us ++ [ck]) (start_chunk enc target pct joinSep st prev items ck).
Proof.
  intros Hi Hck Hlast Hp Hnew. unfold start_chunk.
  assert (Hn : ∀ p, last st.1.*1 = Some p → is_text p → starts_new enc target pct joinSep p ck = true)
    by (intros p Hp' _; rewrite Hlast in Hp'; by injection Hp' as <-).
  destruct (f64_lt (f64_of_int 0) pct) eqn:Hpct; cbn [andb]; [case_bool_decide as Hne|].
  2,3: apply (push_inv us st ck _ _ ""); by auto.
  destruct (overlap_spec (cd_Text prev) (cd_Text ck)) as [H1 H2].
  destruct (overlapFitPrefix _ _ _ _) as [o n]. cbn [fst] in *.
  destruct (overlapTailPositions _ _ _) as [pdf pos].
  apply (push_inv us st ck _ _ o); try done. right. split; [done|]. by exists prev.
Qed.

Lemma grow_chunk_inv us l prev items ck items' :
  merge_inv us (l ++ [(prev, items)], Some (length l)) → is_text ck → is_text prev →
  starts_new enc target pct joinSep prev ck = false →
  merge_inv (us ++ [ck]) (l ++ [(grow_chunk enc joinSep prev ck, items')], Some (length l)).
Proof.
  intros (_ & (gs & Hg & Hm) & Hc) Hck Hp Hnew. cbn [fst snd] in Hm, Hc. rewrite fmap_app in Hm, Hc. cbn in Hm, Hc.
  split_and!; cbn [fst snd].
  - by exists l, (grow_chunk enc joinSep prev ck), items'.
  - rewrite fmap_app. cbn. inversion Hm as [E|gs' cs u Hm' Hu Egs E|gs' cs u us' c overlap Hm' Hus Hcc Ht Hov Hn Egs E].
    + by destruct l.
    + by apply app_inj_tail in E as [_ ->].
    + apply app_inj_tail in E as [-> ->]. exists (gs' ++ [(u :: us') ++ [ck]]). split.
      { rewrite <- Hg, <- Egs, !concat_app. cbn. by rewrite !app_nil_r, <- !app_assoc. }
      apply (merged_text gs' l.*1 u (us' ++ [ck]) _ overlap); try done.
      * apply Forall_cons in Hus as [??]. constructor; [done|]. apply Forall_app. by repeat constructor.
      * rewrite map_app, foldl_app. cbn. by rewrite <- Ht.
  - intros [H1 H2]%Forall_app. rewrite fmap_app. specialize (Hc H1). apply Forall_app in Hc as [Hc _].
    apply Forall_app. split; [done|]. constructor; [|done]. intros _. unfold starts_new in Hnew.
    apply orb_false_iff in Hnew as [_ Hnew%bool_decide_eq_false]. unfold TokenSplitProps.under_cap. cbn. lia.
Qed.

Lemma merge_step_inv us st ck : merge_inv us st → merge_inv (us ++ [ck]) (step st ck).
Proof.
  intros Hi. pose proof Hi as (Ho & (gs & Hg & Hm) & Hc). destruct st as [merged prevIdx]. unfold merge_step.
  case_decide as Hk.
  { split_and!; cbn [fst snd].
    - intros p. cbn [fst]. rewrite fmap_app. change ([(ck, [])].*1) with [ck]. rewrite last_snoc. by intros [= <-].
    - exists (gs ++ [[ck]]). split; [by rewrite concat_app, Hg|]. rewrite fmap_app. by apply (merged_other gs merged.*1 ck).
    - intros [H1 H2]%Forall_app. rewrite fmap_app. apply Forall_app. split; [auto|done]. }
  destruct prevIdx as [i|]; cbn [mbind option_bind].
  - destruct Ho as (l & p & items & Hl & -> & Hp). cbn [fst] in Hl. subst merged.
    rewrite lookup_app_r, Nat.sub_diag by done. cbn [lookup list_lookup fmap option_fmap option_map].
    destruct (starts_new enc target pct joinSep p ck) eqn:Hnew.
    + apply start_chunk_inv; [done..| |done|done]. cbn [fst]. rewrite fmap_app. change ([(p, items)].*1) with [p]. apply last_snoc.
    + rewrite insert_app_r_alt, Nat.sub_diag by done. cbn. by eapply grow_chunk_inv.
  - apply (push_inv us (merged, None) ck _ _ ""); auto. intros p Hp Hpt. by destruct (Ho p Hp).
Qed.

Lemma merge_all_inv us st units : merge_inv us st → merge_inv (us ++ units) (foldl step st units).
Proof.
  revert us st. induction units as [|u units IH]; intros us st Hi; [by rewrite app_nil_r|].
  cbn [foldl]. change (u :: units) with ([u] ++ units). rewrite app_assoc. by apply IH, merge_step_inv.
Qed.

Lemma merge_all_spec units :
  (∃ gs, concat gs = units ∧ merged_from gs (merge_all enc target pct joinSep units))
  ∧ (Forall doc_under_cap units → Forall doc_under_cap (merge_all enc target pct joinSep units)).
Proof.
  destruct (merge_all_inv [] ([], None) units) as (_ & H1 & H2); [|done].
  split_and!; [done|exists []; by split; [|constructor]|done].
Qed.
End merge.

(** What becomes of the units before they are merged: nothing is lost. *)
Definition pieces_of_unit (u : ChunkDoc) (ps : list ChunkDoc) : Prop :=
  if decide (is_text u) then Forall is_text ps ∧ concat_strings (map cd_Text ps) = cd_Text u else ps = [u].

Lemma pieces_concat units pieces :
  Forall2 pieces_of_unit units pieces →
  concat_strings (map cd_Text (concat pieces)) = concat_strings (map cd_Text units).
Proof.
  induction 1 as [|u ps units pieces Hu _ IH]; [done|]. cbn [concat map]. rewrite map_app, concat_strings_app, concat_strings_cons, IH.
  f_equal. unfold pieces_of_unit in Hu. case_decide; [by destruct Hu|]. subst ps. cbn. apply string_app_nil.
Qed.

Lemma joined_empty acc ts : foldl (join_text "") acc ts = acc +:+ concat_strings ts.
Proof.
  revert acc. induction ts as [|t ts IH]; intros acc; cbn [foldl]; [cbn; by rewrite string_app_nil|].
  rewrite IH, concat_strings_cons, <- string_app_assoc. f_equal. unfold join_text. destruct (_ && _); [|done].
  by change ("" +:+ t) with t.
Qed.

Lemma merged_from_concat enc target pct gs cs :
  f64_lt (f64_of_int 0) pct = false → merged_from enc target pct "" gs cs →
  concat_strings (map cd_Text cs) = concat_strings (map cd_Text (concat gs)).
Proof.
  intros Hp. induction 1 as [|gs cs u Hm IH Hu|gs cs u us c overlap Hm IH Hus Hc Ht Hov Hn]; [done|..];
    rewrite concat_app, !map_app, !concat_strings_app, IH; f_equal; cbn [concat map]; rewrite app_nil_r.
  destruct Hov as [-> |[Hf _]]; [|congruence]. rewrite joined_empty in Ht. change ("" +:+ cd_Text u) with (cd_Text u) in Ht.
  cbn [map]. rewrite !concat_strings_cons, Ht. cbn. by rewrite string_app_nil.
Qed.

(** C36: the hard cap of the token chunker: units whose counts are not below
    those of their texts, whose texts have no position tags and, when there is an
    encoder, are ASCII, merge into chunks of which every text chunk is within the
    chunk size, whatever the overlap and the separator. *)
Theorem merge_under_cap enc units target pct sep :
  (0 < target)%Z →
  Forall (λ u, is_text u → counted enc u ∧ tag_free (cd_Text u) ∧ covered enc (cd_Text u)) units →
  ∃ out, mergeUnits enc units target pct sep = Some out
    ∧ Forall (λ c, is_text c → (tokenizeStr enc (cd_Text c) ≤ target)%Z) out.
Proof.
  intros Ht Hu. unfold mergeUnits. destruct (expand_expanded enc target units Ht) as (outs & -> & Ho). cbn.
  eexists. split; [done|]. apply merge_all_spec. by eapply expanded_under_cap.
Qed.

Definition demo_unit (kind text : string) : ChunkDoc :=
  doc_update empty_doc text kind (Some (Z.of_nat (String.length text))) "" "" "" None None.
Definition demo_units : list ChunkDoc :=
  [demo_unit "text" "One. Two is long! Three"; demo_unit "text" "four"; demo_unit "table" "<a very long table>"; demo_unit "text" "five"].

Lemma merge_under_cap_witness :
  ∃ out, mergeUnits (Some byte_encoder) demo_units 12 (f64_of_int 20) newline = Some out
    ∧ map cd_Text out = ["One. Two is "; "is long!"; "g! Three"; "eefour"; "<a very long table>"; "five"]
    ∧ Forall (λ c, is_text c → (tokenizeStr (Some byte_encoder) (cd_Text c) ≤ 12)%Z) out.
Proof.
  destruct (merge_under_cap (Some byte_encoder) demo_units 12 (f64_of_int 20) newline) as (out & Ho & Hf); [lia| |].
  { unfold demo_units. repeat (apply Forall_cons; split; [intros _; split;
      [apply Z.leb_le; reflexivity|split; [apply index_tag_free|apply byte_encoder_covers]; reflexivity]|]). apply Forall_nil_2. }
  exists out. split_and!; [exact Ho| |exact Hf].
  assert (Hm : option_map (map cd_Text) (mergeUnits (Some byte_encoder) demo_units 12 (f64_of_int 20) newline)
    = Some ["One. Two is "; "is long!"; "g! Three"; "eefour"; "<a very long table>"; "five"]) by (vm_compute; reflexivity).
  rewrite Ho in Hm. by injection Hm.
Defined.

(** C35: the merge loses nothing: whatever the encoder, units that are not a lone
    line break are split into consecutive pieces that make up their texts, and
    the chunks are groups of consecutive pieces, joined by the separator, each
    begun only when the chunk before has no room, and preceded by a tail of that
    chunk only if there is overlap; other units are kept as they are.  Without
    overlap and separator the text of the chunks is the text of the units. *)
Theorem merge_keeps_text enc units target pct sep :
  (0 < target)%Z → Forall (λ u, is_text u → cd_Text u ≠ newline) units →
  ∃ pieces groups out, mergeUnits enc units target pct sep = Some out
    ∧ Forall2 pieces_of_unit units pieces
    ∧ concat groups = concat pieces
    ∧ merged_from enc target (clamp_percent pct) sep groups out
    ∧ (sep = "" → f64_lt (f64_of_int 0) (clamp_percent pct) = false →
       concat_strings (map cd_Text out) = concat_strings (map cd_Text units)).
Proof.
  intros Ht Hu. unfold mergeUnits. destruct (expand_expanded enc target units Ht) as (outs & -> & Ho). cbn.
  destruct (merge_all_spec enc target (clamp_percent pct) sep (concat outs)) as [(gs & Hg & Hm) _].
  assert (Hp : Forall2 pieces_of_unit units outs).
  { clear -Ho Hu. induction Ho as [|u ps units outs He Ho IH]; [done|]. apply Forall_cons in Hu as [Hu1 Hu2].
    constructor; [|by apply IH]. unfold expanded in He. unfold pieces_of_unit. case_decide as Hk; [|done].
    destruct He as (H1 & [H2|[H2 _]] & _); [done|]. by destruct (Hu1 Hk). }
  exists outs, gs. eexists. split_and!; [done..|]. intros -> Hpct.
  rewrite (merged_from_concat _ _ _ _ _ Hpct Hm), Hg. by apply pieces_concat.
Qed.

Lemma merge_keeps_text_witness :
  ∃ out, mergeUnits (Some byte_encoder) demo_units 12 (f64_of_int 0) "" = Some out
    ∧ concat_strings (map cd_Text out) = "One. Two is long! Threefour<a very long table>five".
Proof.
  destruct (merge_keeps_text (Some byte_encoder) demo_units 12 (f64_of_int 0) "") as (ps & gs & out & Ho & _ & _ & _ & Hc);
    [lia|repeat constructor; by intros _|].
  exists out. split; [exact Ho|]. by apply Hc.
Defined.

(** A tag at the start of a text is kept whole, even over the chunk size. *)
Example leading_tag_over_cap :
  hardSplitPiece (Some byte_encoder) 3 "@@1-2##abcd" = Some ["@@1-2##"; "abc"; "d"].
Proof. reflexivity. Qed.
(** A token may end inside a rune: the pieces are not valid text. *)
Example hard_split_breaks_runes :
  option_map (map utf8_valid) (hardSplitPiece (Some byte_encoder) 4 "。。") = Some [false; false].
Proof. reflexivity. Qed.

(** ** Lanes *)

Lemma lanes_from_spec n size rem cursor i k :
  (cursor + size * k + (rem - i) = n) → rem ≤ i + k → 0 < size →
  length (lanes_from n size rem cursor i k) = k
  ∧ concat (map lane_indices (lanes_from n size rem cursor i k)) = seq cursor (n - cursor)
  ∧ Forall (λ l, size ≤ l_end l - l_start l ≤ size + 1) (lanes_from n size rem cursor i k).
Proof.
  intros Hn Hr Hs. revert cursor i Hn Hr. induction k as [|k IH]; intros cursor i Hn Hr; cbn [lanes_from].
  { split_and!; [done| |constructor]. by replace (n - cursor) with 0 by lia. }
  set (d := if decide (i < rem) then 1 else 0).
  assert (Hd : d + (rem - S i) = rem - i ∧ d ≤ 1) by (unfold d; case_decide; lia).
  replace (Nat.min n (cursor + size + d)) with (cursor + size + d) by lia.
  rewrite decide_True by lia. destruct (IH (cursor + size + d) (S i)) as (H1 & H2 & H3); [lia|lia|].
  split_and!; cbn [app length map concat].
  - by rewrite H1.
  - rewrite H2. unfold lane_indices. cbn [l_start l_end].
    replace (n - cursor) with ((cursor + size + d - cursor) + (n - (cursor + size + d))) by lia.
    rewrite seq_app. do 2 f_equal. lia.
  - constructor; [cbn; lia|done].
Qed.

(** The lanes are consecutive, cover the items and differ by one at most. *)
Lemma partition_spec n parts :
  0 < n → 0 < parts →
  ∃ lanes, partition n parts = Ret lanes ∧ length lanes = Nat.min n parts
    ∧ concat (map lane_indices lanes) = seq 0 n
    ∧ Forall (λ l, n / Nat.min n parts ≤ l_end l - l_start l ≤ n / Nat.min n parts + 1) lanes.
Proof.
  intros Hn Hp. unfold partition. replace (Nat.max 1 parts) with parts by lia. set (p := Nat.min n parts).
  assert (Hp0 : 0 < p ≤ n) by lia. rewrite decide_False by lia. eexists. split; [done|].
  pose proof (Nat.div_mod n p ltac:(lia)) as Hdm. pose proof (Nat.mod_upper_bound n p ltac:(lia)).
  assert (0 < n / p) by (apply Nat.div_str_pos; lia).
  destruct (lanes_from_spec n (n / p) (n mod p) 0 0 p) as (H1 & H2 & H3); [lia..|].
  by rewrite Nat.sub_0_r in H2.
Qed.

(** Writes to distinct slots, in any order. *)
Lemma fan_out_lookup enc pat (ctx_at : nat → option string) items order acc i :
  length acc = length items →
  foldl (λ perItem i, match items !! i with
    | Some it => <[i := match ctx_at i with Some _ => [] | None => chunkFromItem enc pat it end]> perItem
    | None => perItem end) acc order !! i
  = if decide (i ∈ order ∧ i < length items)
    then (λ it, match ctx_at i with Some _ => [] | None => chunkFromItem enc pat it end) <$> items !! i
    else acc !! i.
Proof.
  revert acc. induction order as [|j order IH]; intros acc Hl; cbn [foldl].
  { by rewrite decide_False by (intros [?%elem_of_nil _]; done). }
  rewrite IH by (destruct (items !! j); [by rewrite length_insert|done]).
  destruct (decide (i ∈ order ∧ i < length items)) as [[H1 H2]|Hn].
  { rewrite decide_True; [done|]. split; [by right|done]. }
  destruct (items !! j) as [it|] eqn:Ej.
  - destruct (decide (i = j)) as [-> |Hij].
    + apply lookup_lt_Some in Ej as Hlt. rewrite decide_True by (split; [left|done]).
      rewrite list_lookup_insert_eq by lia. by rewrite Ej.
    + rewrite list_lookup_insert_ne by done. rewrite decide_False; [done|].
      intros [[?|?]%elem_of_cons ?]; [done|]. by apply Hn.
  - rewrite decide_False; [done|]. intros [[-> |?]%elem_of_cons ?]; [|by apply Hn].
    apply lookup_ge_None in Ej. lia.
Qed.

Lemma fan_out_map enc pat ctx_at items order :
  (∀ i, ctx_at i = None) → order ≡ₚ seq 0 (length items) →
  fan_out enc pat ctx_at items order = map (chunkFromItem enc pat) items.
Proof.
  intros Hc Ho. apply list_eq. intros i. unfold fan_out. rewrite fan_out_lookup by apply length_replicate.
  rewrite Hc. change (map (chunkFromItem enc pat) items !! i) with ((chunkFromItem enc pat <$> items) !! i).
  rewrite list_lookup_fmap. case_decide as Hd; [done|].
  destruct (items !! i) as [it|] eqn:Ei.
  - exfalso. apply Hd. apply lookup_lt_Some in Ei as Hlt. split; [|done]. rewrite Ho. apply elem_of_seq. lia.
  - cbn. apply lookup_ge_None. rewrite length_replicate. by apply lookup_ge_None in Ei.
Qed.

(** ** Context *)

Lemma buildChunkDoc_context enc it k t : set_context (buildChunkDoc enc it k t "" "") "" "" = buildChunkDoc enc it k t "" "".
Proof. reflexivity. Qed.

Lemma chunkFromItem_shape enc pat it :
  (∃ k t, chunkFromItem enc pat it = [buildChunkDoc enc it k t "" ""]) ∨ Forall is_text (chunkFromItem enc pat it).
Proof.
  unfold chunkFromItem. case_decide; [left; eauto|]. destruct pat as [pats|]; [|left; eauto].
  destruct (negb _); [left; eauto|]. destruct (filter _ _) as [|p ps] eqn:Ef; [left; eauto|]. rewrite <- Ef. clear. right.
  assert (Hc : ∀ ps, Forall is_text (map (λ p, buildChunkDoc enc it "text" p "" "") ps)).
  { induction ps; by constructor. }
  assert (Hs : ∀ ps n cum, Forall is_text (slice_parts enc it n cum ps)).
  { induction ps as [|q qs IH]; intros n cum; constructor; [done|apply IH]. }
  repeat case_match; auto.
Qed.

Lemma attach_item_id enc t i pat it : attach_item enc t i (chunkFromItem enc pat it) = chunkFromItem enc pat it.
Proof.
  destruct (chunkFromItem_shape enc pat it) as [(k & x & ->)|Ht].
  - unfold attach_item. cbn [imap]. destruct (_ && _); [done|]. case_decide; [done|].
    cbn [compose]. unfold collectContext. cbn. by rewrite buildChunkDoc_context.
  - unfold attach_item. revert Ht. set (cs := chunkFromItem enc pat it).
    assert (Hg : ∀ f (l : list ChunkDoc), (∀ j (c : ChunkDoc), is_text c → f j c = c) → Forall is_text l → imap f l = l).
    { intros f l. revert f. induction l as [|c l IH]; intros f Hf Hl; [done|]. apply Forall_cons in Hl as [Hc Hl].
      cbn. rewrite Hf by done. f_equal. apply IH; [intros j; apply (Hf (S j))|done]. }
    intros Hl. apply Hg; [|done]. intros j c Hc. by rewrite Hc.
Qed.

Lemma attach_chunks_id enc pat items tableCtx imageCtx :
  attachMediaContext enc (map (chunkFromItem enc pat) items) tableCtx imageCtx = map (chunkFromItem enc pat) items.
Proof.
  unfold attachMediaContext. destruct (_ && _); [done|]. rewrite map_map. apply map_ext. intros it. apply attach_item_id.
Qed.

(** No context is ever attached: a table or an image is the only chunk of
    its item and the context is searched within the item, so whatever the sizes
    of the configuration the chunks of the items stay as they are. *)
Theorem media_context_never_attached enc pat items tableCtx imageCtx :
  attachMediaContext enc (map (chunkFromItem enc pat) items) tableCtx imageCtx = map (chunkFromItem enc pat) items.
Proof. apply attach_chunks_id. Qed.

(** ** Texts without at signs *)

Definition no_at (s : string) : Prop := contains_byte at_sign s = false.
Lemma no_at_app s t : no_at (s +:+ t) ↔ no_at s ∧ no_at t.
Proof.
  unfold no_at. induction s as [|a s IH]; [naive_solver|]. rewrite string_app_cons. cbn [contains_byte].
  rewrite !orb_false_iff, IH. naive_solver.
Qed.

(** A property of every byte of a text is one of its parts. *)
Section bytewise.
Context (Q : string → Prop).
Hypothesis Q_nil : Q "".
Hypothesis Q_app : ∀ s t, Q (s +:+ t) ↔ Q s ∧ Q t.

Lemma bytewise_concat l : Q (concat_strings l) ↔ Forall Q l.
Proof.
  induction l as [|s l IH]; [by split; [constructor|]|]. rewrite concat_strings_cons, Q_app, Forall_cons. by rewrite IH.
Qed.
Lemma bytewise_runes s : Q s → Forall Q (runes s).
Proof. intros Hs. apply bytewise_concat. by rewrite runes_concat. Qed.
Lemma bytewise_split pats skip current rs : Q current → Forall Q rs → Forall Q (split_drop pats skip current rs).
Proof.
  assert (Hfl : ∀ s, Q s → Forall Q (flush s)) by (intros s Hs; unfold flush; case_decide; by repeat constructor).
  revert skip current. induction rs as [|r rs IH]; intros skip current Hc Hr; cbn [split_drop]; [by apply Hfl|].
  apply Forall_cons in Hr as [Hr1 Hr2]. destruct skip; [|by apply IH].
  repeat case_match; try (apply IH; [by apply Q_app|done]).
  apply Forall_app. split; [by apply Hfl|by apply IH].
Qed.
End bytewise.

Lemma no_at_concat l : no_at (concat_strings l) ↔ Forall no_at l.
Proof. by apply bytewise_concat; [|apply no_at_app]. Qed.
Lemma no_at_runes s : no_at s → Forall no_at (runes s).
Proof. by apply bytewise_runes; [|apply no_at_app]. Qed.
Lemma no_at_tag_free s : no_at s → tag_free s.
Proof. intros Hs a b ->. by apply no_at_app in Hs as [_ Hs]. Qed.
Lemma no_at_removeTag s : no_at s → removeTag s = s.
Proof.
  unfold removeTag, no_at. induction s as [|a s IH]; [done|]. cbn [contains_byte]. intros [Ha Hs]%orb_false_iff.
  cbn [remove_tags]. unfold tag_length. replace (has_prefix (String a s) "@@") with false; [by rewrite IH|].
  apply bool_decide_eq_false in Ha. unfold has_prefix. cbn. case_match; [|done]. by subst a.
Qed.
Lemma no_at_fix s : no_at s → Forall (λ r, no_at (utf8_fix r)) (runes s).
Proof.
  intros Hs. pose proof (no_at_runes s Hs) as Hr. pose proof (rune_repair s) as Hf.
  apply Forall_forall. intros r Hin. rewrite Forall_forall in Hr, Hf.
  destruct (Hf r Hin) as [[-> _] | ->]; [by apply Hr|done].
Qed.
Lemma no_at_tail prev overlap : no_at prev → tail_of prev overlap → no_at overlap.
Proof.
  intros Hp [k ->]. rewrite no_at_removeTag by done. unfold rune_string. apply no_at_concat.
  apply Forall_map, Forall_drop. by apply no_at_fix.
Qed.

(** A text without at signs that the encoder can count and cut. *)
Definition cuttable (enc : option Encoder) (s : string) : Prop :=
  no_at s ∧ ∀ e, enc = Some e → is_ascii s = true.
Lemma cuttable_app enc s t : cuttable enc (s +:+ t) ↔ cuttable enc s ∧ cuttable enc t.
Proof. unfold cuttable. rewrite no_at_app. setoid_rewrite is_ascii_app. setoid_rewrite andb_true_iff. naive_solver. Qed.

(** ** Chunks of an item *)

(** A chunk whose count is that of its text, which can be cut. *)
Definition clean_unit (enc : option Encoder) (d : ChunkDoc) : Prop :=
  cd_TKNums d = Some (tokenizeStr enc (cd_Text d)) ∧ cuttable enc (cd_Text d).

Lemma clean_counted enc d :
  (∀ e, enc = Some e → EncoderLaws e) → clean_unit enc d → counted enc d ∧ plain_text enc (cd_Text d).
Proof.
  intros Hl [Ht [Hn Ha]]. split; [|split; [by apply no_at_tag_free|by split; eauto]]. unfold counted, unit_tokens. rewrite Ht. cbn. case_decide; lia.
Qed.

Lemma chunkFromItem_clean enc pat it : cuttable enc (itemTextOrFallback it) → Forall (clean_unit enc) (chunkFromItem enc pat it).
Proof.
  intros Hn. unfold chunkFromItem. set (txt := itemTextOrFallback it) in *.
  assert (Hone : ∀ k, Forall (clean_unit enc) [buildChunkDoc enc it k txt "" ""]) by (intros k; constructor; [by split|constructor]).
  case_decide; [done|]. destruct pat as [pats|]; [|done]. destruct (negb _); [done|].
  assert (Hp : Forall (cuttable enc) (filter (λ p, trim_space p ≠ "") (splitDroppingDelim txt (Some pats)))).
  { assert (Hd : Forall (cuttable enc) (splitDroppingDelim txt (Some pats))).
    { unfold splitDroppingDelim. case_decide; [constructor; [done|constructor]|]. assert (cuttable enc "") by (by split).
      apply bytewise_split; [done|apply cuttable_app|done|by apply bytewise_runes; [|apply cuttable_app|]]. }
    rewrite Forall_forall in Hd. apply Forall_forall. intros p [_ Hp]%list_elem_of_filter. by apply Hd. }
  destruct (filter _ _) as [|p ps]; [done|]. revert Hp. generalize (p :: ps) as l. clear. intros l Hp.
  assert (Hc : Forall (clean_unit enc) (map (λ p, buildChunkDoc enc it "text" p "" "") l)) by (induction Hp; constructor; [by split|done]).
  assert (Hs : ∀ n cum, Forall (clean_unit enc) (slice_parts enc it n cum l)).
  { induction Hp as [|q qs Hq Hqs IH]; intros n cum; constructor; [by split|]. apply IH. by apply Forall_cons in Hc as [_ ?]. }
  repeat case_match; auto.
Qed.

(** Pieces and merged chunks have no at signs either. *)
Lemma expanded_no_at enc target units outs :
  Forall2 (expanded enc target) units outs → Forall (λ u, no_at (cd_Text u)) units →
  Forall (λ u, no_at (cd_Text u)) (concat outs).
Proof.
  intros Ho Hu. induction Ho as [|u out units outs He Ho IH]; [done|]. apply Forall_cons in Hu as [Hu1 Hu2].
  cbn. apply Forall_app. split; [|by apply IH]. unfold expanded in He. case_decide.
  - destruct He as (_ & [He|[_ ->]] & _); [|done]. rewrite <- He, no_at_concat in Hu1. by apply (proj1 (List.Forall_map cd_Text no_at out)) in Hu1.
  - subst out. by constructor.
Qed.

Lemma no_at_join acc ts :
  no_at acc → Forall no_at ts → no_at (foldl (join_text newline) acc ts).
Proof.
  intros Ha Ht. revert acc Ha. induction Ht as [|t ts Ht _ IH]; intros acc Ha; [done|]. cbn. apply IH.
  unfold join_text. destruct (_ && _); rewrite !no_at_app; done.
Qed.

Lemma merged_no_at enc target pct gs cs :
  merged_from enc target pct newline gs cs → Forall (λ u, no_at (cd_Text u)) (concat gs) → Forall (λ c, no_at (cd_Text c)) cs.
Proof.
  induction 1 as [|gs cs u Hm IH Hu|gs cs u us c overlap Hm IH Hus Hc Ht Hov Hn]; [done|..];
    rewrite concat_app, Forall_app; cbn [concat]; rewrite app_nil_r; intros [H1 H2]; apply Forall_app;
    (split; [by apply IH|]); [done|].
  constructor; [|done]. rewrite Ht. apply Forall_cons in H2 as [H2 H3]. apply no_at_join; [|by apply Forall_map].
  apply no_at_app. split; [|done]. destruct Hov as [-> |(_ & p & Hl & _ & Htail)]; [done|].
  apply last_Some in Hl as [cs' ->]. specialize (IH H1). apply Forall_app in IH as [_ IH]. apply Forall_cons in IH as [IH _].
  exact (no_at_tail _ _ IH Htail).
Qed.

Lemma mergeUnits_clean enc units target pct :
  (∀ e, enc = Some e → EncoderLaws e) → (0 < target)%Z → Forall (clean_unit enc) units →
  ∃ out, mergeUnits enc units target pct newline = Some out
    ∧ Forall (λ c, no_at (cd_Text c) ∧ doc_under_cap enc target c) out.
Proof.
  intros Hl Ht Hu. unfold mergeUnits. destruct (expand_expanded enc target units Ht) as (outs & -> & Ho). cbn.
  destruct (merge_all_spec enc target (clamp_percent pct) newline (concat outs)) as [(gs & Hg & Hm) Hc].
  eexists. split; [done|]. apply Forall_and. split.
  - eapply merged_no_at; [done|]. rewrite Hg. eapply expanded_no_at; [done|]. eapply Forall_impl; [exact Hu|]. by intros u [_ [? _]].
  - apply Hc. eapply expanded_under_cap; [done|done|]. eapply Forall_impl; [exact Hu|]. intros u Hcl _. by apply clean_counted.
Qed.

(** ** The JSON payload *)

(** What is asked of the cropping of previews: it changes neither the texts nor
    the kinds of the chunks. *)
Definition crop_keeps (crop : list ChunkDoc → list ChunkDoc) : Prop :=
  ∀ l, map (λ d, (cd_Text d, cd_CKType d)) (crop l) = map (λ d, (cd_Text d, cd_CKType d)) l.

Lemma crop_forall crop l (P : string → string → Prop) :
  crop_keeps crop → Forall (λ d, P (cd_Text d) (cd_CKType d)) l → Forall (λ d, P (cd_Text d) (cd_CKType d)) (crop l).
Proof.
  intros Hc Hl. specialize (Hc l). revert Hc Hl. generalize (crop l) as l'. induction l as [|d l IH]; intros [|d' l'] Hc Hl; try done.
  cbn in Hc. injection Hc as H1 H2 H3. apply Forall_cons in Hl as [Hd Hl]. constructor; [by rewrite H1, H2|by apply IH].
Qed.

(** C24: the lanes of the fan-out over a payload with an item are as many as there
    are workers, four or one per item, and differ in length by one at most; and in
    whatever order the workers of the lanes write, when none of them is cancelled,
    the payload gives what a sequential run gives. *)
Theorem json_order_irrelevant enc c crop ctx_at order items pat children :
  items ≠ [] → (∀ i, ctx_at i = None) →
  ∃ lanes, partition (length items) (Nat.min 4 (length items)) = Ret lanes
    ∧ length lanes = Nat.min 4 (length items)
    ∧ Forall (λ l, length items / length lanes ≤ l_end l - l_start l ≤ length items / length lanes + 1) lanes
    ∧ (order ≡ₚ concat (map lane_indices lanes) →
       fan_out enc pat ctx_at items order = map (chunkFromItem enc pat) items
       ∧ invokeJSONPayload enc c crop ctx_at None order items pat children
         = invokeJSONPayload enc c crop ctx_at None (seq 0 (length items)) items pat children).
Proof.
  intros Hne Hctx. assert (0 < length items) by (destruct items; [done|cbn; lia]).
  destruct (partition_spec (length items) (Nat.min 4 (length items))) as (lanes & Hp & Hlen & Hcat & Hsz); [lia..|].
  replace (Nat.min (length items) (Nat.min 4 (length items))) with (Nat.min 4 (length items)) in * by lia.
  exists lanes. rewrite Hlen, Hcat. split_and!; [done..|]. intros Ho.
  rewrite (fan_out_map enc pat ctx_at items order) by done. split; [done|].
  unfold invokeJSONPayload. by rewrite (fan_out_map enc pat ctx_at items order), (fan_out_map enc pat ctx_at items (seq 0 (length items))).
Qed.


Definition token_items : list ChunkDoc :=
  [set_text empty_doc "first part. second part"; set_text empty_doc "more"; set_text empty_doc "a rather long line of text"].
Definition token_param : TokenChunkerParam := {|
  tp_DelimiterMode := "delimiter"; tp_ChunkTokenSize := 12; tp_Delimiters := [". "]; tp_OverlappedPercent := f64_of_int 0;
  tp_ChildrenDelimiters := []; tp_TableContextSize := 5; tp_ImageContextSize := 5 |}.
Definition demo_run (order : list nat) : option (string + list ChunkDoc) :=
  invokeJSONPayload (Some byte_encoder) token_param id (λ _, None) None order token_items (compileDelimPattern [". "]) None.

Lemma json_order_irrelevant_witness : demo_run [2; 0; 1] = demo_run [0; 1; 2].
Proof.
  destruct (json_order_irrelevant (Some byte_encoder) token_param id (λ _, None) [2; 0; 1] token_items (compileDelimPattern [". "]) None)
    as (lanes & Hp & _ & _ & Hr); [done|done|].
  apply Hr. injection Hp as <-. apply (Permutation_cons_append [0; 1] 2).
Defined.

Example json_demo :
  match demo_run [0; 1; 2] with Some (inr out) => map cd_Text out | _ => [] end
  = ["first part"; "second part"; "more"; "a rather lon"; "g line of te"; "xt"].
Proof. vm_compute. reflexivity. Qed.
