(* ===== verification/TitleChunksProps.v ===== *)
(** * Properties of the title chunkers, from records to chunks *)

From S2P Require Import Prelude GoValue Tokenizer TitleLevels TitleGroups ChunkDoc.
From S2P Require Import TokenSplit TokenMerge TitleChunks TitleProps.
From S2P Require Import TokenSplitProps TokenMergeProps.
From Stdlib Require Import SpecFloat.

(** ** The order of rows *)

Lemma f64_eq_sym a b : f64_eq a b = f64_eq b a.
Proof. unfold f64_eq, SFeqb. rewrite (SFcompare_swap a b). by destruct (SFcompare a b) as [[]|]. Qed.
Lemma rowLess_asym a b : pdfPosRowLess a b = true → pdfPosRowLess b a = false.
Proof.
  unfold pdfPosRowLess. rewrite (f64_eq_sym (cell b 0)), (f64_eq_sym (cell b 3)).
  destruct (negb _); [apply f64_lt_asym|]. destruct (negb _); apply f64_lt_asym.
Qed.

(** ** The manual chunker *)

Definition positioned (r : lineRecord) : Prop := is_Some (firstPositionRow r).
Notation ordered := (in_order record_less).
Lemma record_less_asym a b : record_less a b = true → record_less b a = false.
Proof. apply rowLess_asym. Qed.

(** What the sort does to a run followed by records. *)
Definition resorted (before after : list lineRecord) : Prop :=
  after ≡ₚ before
  ∧ (∀ i r, before !! i = Some r → ¬ positioned r → after !! i = Some r)
  ∧ (∀ i a b, after !! i = Some a → after !! S i = Some b → positioned a → positioned b → ordered a b).

Lemma sort_runs_resorted run records :
  Forall positioned run → resorted (run ++ records) (sort_runs run records).
Proof.
  revert run. induction records as [|r records IH]; intros run Hrun; cbn [sort_runs].
  { rewrite app_nil_r. split_and!; [apply stable_sort_perm| |].
    - intros i r Hr Hn. destruct Hn. rewrite Forall_forall in Hrun. by apply Hrun, list_elem_of_lookup_2 with i.
    - intros i a b Ha Hb _ _. eapply sorted_lookup; [by apply stable_sort_sorted, record_less_asym|done|done]. }
  destruct (firstPositionRow r) as [row|] eqn:Er.
  { specialize (IH (run ++ [r])). rewrite <- app_assoc in IH. apply IH. apply Forall_app. split; [done|].
    constructor; [|done]. by exists row. }
  destruct (IH [] (Forall_nil_2 _)) as (Hp & Hk & Hs). cbn [app] in *. set (s := stable_sort record_less run).
  assert (Hlen : length s = length run) by (apply Permutation_length, stable_sort_perm). split_and!.
  - apply Permutation_app; [apply stable_sort_perm|by constructor].
  - intros i x Hx Hn. destruct (decide (i < length run)) as [Hi|Hi].
    { rewrite lookup_app_l in Hx by done. destruct Hn. rewrite Forall_forall in Hrun. by apply Hrun, list_elem_of_lookup_2 with i. }
    rewrite lookup_app_r in Hx by lia. rewrite lookup_app_r by lia. rewrite Hlen. destruct (i - length run) as [|j]; [done|]. by apply Hk.
  - intros i a b Ha Hb Pa Pb. assert (Hbar : ¬ positioned r) by (intros [? ?]; congruence).
    destruct (decide (S i < length s)) as [Hi|Hi].
    { rewrite lookup_app_l in Ha, Hb by lia. eapply sorted_lookup; [by apply stable_sort_sorted, record_less_asym|done|done]. }
    destruct (decide (i < length s)) as [Hi2|Hi2].
    { rewrite lookup_app_r in Hb by lia. replace (S i - length s) with 0 in Hb by lia. injection Hb as <-. done. }
    rewrite lookup_app_r in Ha, Hb by lia. replace (S i - length s) with (S (i - length s)) in Hb by lia.
    destruct (i - length s) as [|j]; [injection Ha as <-; done|]. by apply (Hs j).
Qed.

(** The resort of the manual chunker: the records are the same, those
    without coordinates stay at their place, and neighbours with coordinates are
    in the order of page, top and left. *)
Theorem manual_resort records : resorted records (sortRecordsByPosition records).
Proof. apply (sort_runs_resorted [] records). constructor. Qed.

Definition placed (s : string) (page top : Z) : lineRecord :=
  {| lr_text := s; docType := "text"; imgID := None; layout := ""; ckType := "";
     pdfPositions := Some (VList [VList (map (λ z, VFloat (f64_of_int z)) [page; 0; 10; top; top + 5])%Z]);
     positions := None; parentMeta := ∅ |}.
Example manual_demo :
  map lr_text (sortRecordsByPosition [placed "b" 1 20; placed "a" 1 3; text_line "note"; placed "d" 2 1; placed "c" 1 9])
  = ["a"; "b"; "note"; "c"; "d"].
Proof. reflexivity. Qed.

(** ** Matrices of positions *)

Lemma add_row_spec out row :
  NoDup (map (take 5) out) →
  NoDup (map (take 5) (add_row out row)) ∧ (∀ r, r ∈ add_row out row → r ∈ out ∨ r = row ∧ 5 ≤ length row)
  ∧ (5 ≤ length row → take 5 row ∈ map (take 5) (add_row out row))
  ∧ (∀ k, k ∈ map (take 5) out → k ∈ map (take 5) (add_row out row)).
Proof.
  intros Hn. unfold add_row. case_decide as Hd.
  - split_and!; [done|by left| |done]. intros Hl. destruct Hd; [lia|done].
  - apply Decidable.not_or in Hd as [H1 H2]. split_and!.
    + rewrite map_app. apply NoDup_app. split_and!; [done| |apply NoDup_singleton].
      intros k Hk Hin%list_elem_of_singleton. by subst k.
    + intros r [Hr|Hr%list_elem_of_singleton]%elem_of_app; [by left|]. right. split; [done|lia].
    + intros _. rewrite map_app. apply elem_of_app. right. by apply list_elem_of_singleton.
    + intros k Hk. rewrite map_app. apply elem_of_app. by left.
Qed.

Lemma add_rows_spec rows out :
  NoDup (map (take 5) out) →
  let out' := foldl add_row out rows in
  NoDup (map (take 5) out') ∧ (∀ r, r ∈ out' → r ∈ out ∨ r ∈ rows ∧ 5 ≤ length r)
  ∧ (∀ r, r ∈ rows → 5 ≤ length r → take 5 r ∈ map (take 5) out')
  ∧ (∀ k, k ∈ map (take 5) out → k ∈ map (take 5) out').
Proof.
  revert out. induction rows as [|row rows IH]; intros out Hn; cbn [foldl].
  { split_and!; [done|by left|by intros r ?%elem_of_nil|done]. }
  destruct (add_row_spec out row Hn) as (H1 & H2 & H3 & H4). destruct (IH _ H1) as (G1 & G2 & G3 & G4). split_and!; [done|..].
  - intros r Hr. destruct (G2 r Hr) as [Hr'|[Hr' Hl]]; [|right; split; [by right|done]].
    destruct (H2 r Hr') as [?|[-> ?]]; [by left|]. right. split; [left|done].
  - intros r [-> |Hr]%elem_of_cons Hl; [by apply G4, H3|by apply G3].
  - intros k Hk. by apply G4, H4.
Qed.

(** The merged matrix has every row of the sources with five columns, once. *)
Lemma merge_matrix_spec `{RowSort} sources :
  let rows := concat (omap (λ src, v ← src; float_matrix v) sources) in
  let out := default [] (mergePositionMatrix sources) in
  NoDup (map (take 5) out) ∧ (∀ r, r ∈ out → r ∈ rows ∧ 5 ≤ length r)
  ∧ (∀ r, r ∈ rows → 5 ≤ length r → take 5 r ∈ map (take 5) out).
Proof.
  cbn zeta. set (rows := concat _).
  destruct (add_rows_spec rows []) as (H1 & H2 & H3 & _); [constructor|]. fold (matrix_rows sources) in *.
  assert (Hp : default [] (mergePositionMatrix sources) ≡ₚ matrix_rows sources).
  { unfold mergePositionMatrix. destruct (matrix_rows sources); [done|]. apply sort_rows_perm. }
  change (foldl add_row [] rows) with (matrix_rows sources) in *.
  assert (Hm : map (take 5) (default [] (mergePositionMatrix sources)) ≡ₚ map (take 5) (matrix_rows sources)) by (by apply Permutation_map).
  split_and!.
  - by rewrite Hm.
  - intros r Hr. rewrite Hp in Hr. destruct (H2 r Hr) as [?%elem_of_nil|?]; done.
  - intros r Hr Hl. rewrite Hm. by apply H3.
Qed.

(** ** From the lines to the chunks *)

Section chunks.
Context `{RowSort}.

Lemma group_chunk_text plain first g : chunk_text (group_chunk plain first g) = removeTag (joinGroupText g).
Proof.
  unfold group_chunk, chunk_text, set_matrix.
  assert (Hm : ∀ key (m : option (list Row)) (c : gmap string value), key ≠ "text" →
    match m with Some m => <[key := matrix_value m]> c | None => c end !! "text" = c !! "text").
  { intros key [m|] c Hk; [by rewrite lookup_insert_ne|done]. }
  rewrite !Hm by done. destruct plain; [by rewrite lookup_singleton_eq|].
  case_decide; destruct (imgID first); rewrite ?lookup_insert_ne by done; by rewrite lookup_singleton_eq.
Qed.

Lemma build_texts p plain groups :
  RootChunkAsHeading p = false → Forall (λ g, g ≠ []) groups →
  map chunk_text (buildChunksFromRecordGroups groups p plain) = map (λ g, removeTag (joinGroupText g)) groups.
Proof.
  intros Hr Hg. unfold buildChunksFromRecordGroups. rewrite Hr. induction Hg as [|g groups Hne _ IH]; [done|].
  destruct g as [|r g]; [done|]. cbn [omap list_omap map]. by rewrite group_chunk_text, IH.
Qed.

Lemma no_at_group g : Forall (λ r, no_at (lr_text r)) g → no_at (joinGroupText g).
Proof.
  intros Hg. apply no_at_concat, List.Forall_map. eapply Forall_impl; [exact Hg|]. intros r Hr. by apply no_at_app.
Qed.
(** The text of groups of lines without at signs is the text of the lines. *)
Lemma joined_lines groups :
  Forall (λ r, no_at (lr_text r)) (concat groups) →
  concat_strings (map (λ g, removeTag (joinGroupText g)) groups) = concat_strings (map (λ r, lr_text r +:+ newline) (concat groups)).
Proof.
  induction groups as [|g groups IH]; [done|]. cbn [concat map]. rewrite map_app, concat_strings_app, concat_strings_cons.
  intros [Hg Hrest]%Forall_app. rewrite IH by done. f_equal. by apply no_at_removeTag, no_at_group.
Qed.

(** The encoder covers the text of lines it covers. *)
Lemma covered_lines enc groups :
  Forall (λ g, g ≠ []) groups → Forall (λ r, no_at (lr_text r)) (concat groups) →
  Forall (λ r, covered enc (lr_text r)) (concat groups) →
  Forall (covered enc) (map (λ g, removeTag (joinGroupText g)) groups).
Proof.
  induction 1 as [|g groups Hne _ IH]; [constructor|]. cbn [concat map].
  intros [Hg Hgs]%Forall_app [Hc Hcs]%Forall_app. constructor; [|auto]. rewrite no_at_removeTag by (by apply no_at_group).
  intros e He. split; [destruct Hc as [|r g Hr _]; [done|]; by destruct (Hr e He)|].
  apply (bytewise_concat (λ s, is_ascii s = true)); [done|intros s t; by rewrite is_ascii_app, andb_true_iff|].
  apply List.Forall_map. eapply Forall_impl; [exact Hc|]. intros r Hr. rewrite is_ascii_app. by destruct (Hr e He) as [_ ->].
Qed.
End chunks.

(** What is asked of the cropping of previews: it changes neither the texts nor
    the kinds of the chunks. *)
Definition title_crop_keeps (crop : list (gmap string value) → list (gmap string value)) : Prop :=
  ∀ l, map (λ c, (chunk_text c, c !! "doc_type_kwd")) (crop l) = map (λ c, (chunk_text c, c !! "doc_type_kwd")) l.

Lemma title_crop_texts crop l : title_crop_keeps crop → map chunk_text (crop l) = map chunk_text l.
Proof. intros Hc. specialize (Hc l). apply (f_equal (map fst)) in Hc. by rewrite !map_map in Hc. Qed.
Lemma title_crop_forall crop l (P : string → option value → Prop) :
  title_crop_keeps crop → Forall (λ c, P (chunk_text c) (c !! "doc_type_kwd")) l →
  Forall (λ c, P (chunk_text c) (c !! "doc_type_kwd")) (crop l).
Proof.
  intros Hc Hl. specialize (Hc l). revert Hc Hl. generalize (crop l) as l'. induction l as [|d l IH]; intros [|d' l'] Hc Hl; try done.
  cbn [map] in Hc. injection Hc as H1 H2 H3. apply Forall_cons in Hl as [Hd Hl]. constructor; [by rewrite H1, H2|by apply IH].
Qed.

(** C31: the group chunker, from the records to the chunks: for every encoder,
    configuration without a root heading, set of patterns, outline and document
    without at signs, the text of the chunks, read in order, is that of the lines
    that are not blank, each with a line break; and when there is no encoder, or
    the lines are ASCII and the encoder keeps its laws on those, every text chunk
    is within the ceiling. *)
Theorem group_chunker_correct `{RowSort} lm Pt enc crop p outline plain records :
  (0 < ChunkTokenCap p)%Z → RootChunkAsHeading p = false → title_crop_keeps crop →
  Forall (λ r, no_at (lr_text r)) records →
  ∃ out, invokeGroup lm Pt enc crop p outline plain records = Some out
    ∧ concat_strings (map chunk_text out) = concat_strings (map (λ r, lr_text r +:+ newline) (filter substantial records))
    ∧ (Forall (λ r, covered enc (lr_text r)) records →
       Forall (λ c, is_text_chunk c → (titleTokenCount enc (chunk_text c) ≤ ChunkTokenCap p)%Z) out).
Proof.
  intros Hcap Hroot Hcrop Hat. unfold invokeGroup. destruct records as [|r records]; [exists []; by split_and!|].
  set (rs := r :: records) in *. unfold chunkFromRecords, finish_chunks. rewrite decide_True by done.
  pose proof (groupRecords_document lm Pt enc p outline rs) as [Hpart Hok]. set (groups := group_document lm Pt enc p outline rs) in *.
  set (chunks := buildChunksFromRecordGroups groups p plain).
  destruct (enforce_cap enc sliceAnyPositions chunks (ChunkTokenCap p) Hcap) as (out & -> & Htext & _ & Hfit).
  assert (Hne : Forall (λ g, g ≠ []) groups).
  { eapply Forall_impl; [exact Hok|]. intros g [(x & -> & _)|(g' & x & -> & _)]; [done|]. by destruct g'. }
  assert (Hsub : ∀ (P : lineRecord → Prop), Forall P rs → Forall P (concat groups)).
  { intros P HP. rewrite Hpart. rewrite Forall_forall in HP. apply Forall_forall. intros x [_ Hx]%list_elem_of_filter. by apply HP. }
  pose proof (build_texts p plain groups Hroot Hne) as Hb. fold chunks in Hb.
  cbn. eexists. split; [done|]. split.
  - rewrite title_crop_texts, Htext, Hb, joined_lines by auto. by rewrite Hpart.
  - intros Hcov. apply (title_crop_forall crop _ (λ t k, toStringOrDefault k "text" = "text" → (titleTokenCount enc t ≤ ChunkTokenCap p)%Z) Hcrop).
    apply Hfit. apply (List.Forall_map chunk_text (covered enc)). rewrite Hb. apply covered_lines; auto.
Qed.

#[export] Program Instance demo_row_sort : RowSort := {| sort_rows := stable_sort pdfPosRowLess |}.
Next Obligation. intros l. apply stable_sort_perm. Qed.

Definition demo_title_param : titleChunkerParam := {|
  tp_Levels := [["# "; "## "]]; tp_Hierarchy := Some 2%Z; IncludeHeadingContent := true; RootChunkAsHeading := false; ChunkTokenCap := 20 |}.
Lemma group_chunker_correct_witness :
  ∃ out, invokeGroup starts_with no_patterns (Some byte_encoder) id demo_title_param [] false demo_doc = Some out
    ∧ concat_strings (map chunk_text out) = concat_strings (map (λ r, lr_text r +:+ newline) demo_doc)
    ∧ Forall (λ c, is_text_chunk c → (titleTokenCount (Some byte_encoder) (chunk_text c) ≤ 20)%Z) out.
Proof.
  destruct (group_chunker_correct starts_with no_patterns (Some byte_encoder) id demo_title_param [] false demo_doc)
    as (out & Ho & Ht & Hc); [done|done|done| |].
  { repeat (apply Forall_cons; split; [reflexivity|]). apply Forall_nil_2. }
  exists out. split; [exact Ho|]. split; [exact Ht|]. apply Hc.
  repeat (apply Forall_cons; split; [apply byte_encoder_covers; reflexivity|]). apply Forall_nil_2.
Defined.
