(* ===== verification/RetrievalProps.v ===== *)
(** * Properties of retrieval *)

From S2P Require Import Prelude GoValue Tokenizer TitleLevels ChunkDoc TokenSplit Reranker.
From S2P Require Import Retrieval TitleProps.
From Stdlib Require Import SpecFloat Sorted.

(** ** Ranking *)

Definition falling {A} (a b : A * float64) : Prop := f64_le b.2 a.2 = true.

Lemma StronglySorted_filter {A} (R : A → A → Prop) (P : A → Prop) `{∀ x, Decision (P x)} l :
  StronglySorted R l → StronglySorted R (filter P l).
Proof.
  induction 1 as [|x l Hs IH Hf]; [constructor|]. rewrite filter_cons. case_decide; [|done]. constructor; [done|].
  rewrite Forall_forall in *. intros y [_ Hy]%list_elem_of_filter. by apply Hf.
Qed.

Lemma ranked_sorted (l : list (nat * float64)) :
  Forall (λ x, is_nan x.2 = false) l → StronglySorted falling (stable_sort higher l).
Proof.
  intros Hn. apply Sorted_StronglySorted; [intros a b c H1 H2; unfold falling in *; by eapply f64_le_trans|].
  pose proof (stable_sort_sorted higher (λ a b, f64_lt_asym b.2 a.2) l) as Hs.
  assert (Hn' : Forall (λ x, is_nan x.2 = false) (stable_sort higher l)) by (by rewrite stable_sort_perm).
  induction Hs as [|x l' Hs IH Hh]; [constructor|]. apply Forall_cons in Hn' as [Hx Hn']. constructor; [by apply IH|].
  destruct Hh as [|y l' Hy]; constructor. apply Forall_cons in Hn' as [Hy' _]. by apply f64_not_lt.
Qed.

Lemma zip_lookup_imap {A} (ids : list A) (sim : list float64) :
  length ids = length sim → omap (λ ix : nat * float64, (λ d, (d, ix.2)) <$> ids !! ix.1) (imap pair sim) = zip ids sim.
Proof.
  revert ids. assert (Hg : ∀ (k : nat) (ids' ids : list A) (s : list float64), length ids = length s → length ids' = k →
    omap (λ ix : nat * float64, (λ d, (d, ix.2)) <$> (ids' ++ ids) !! ix.1) (imap (λ i x, (k + i, x)) s) = zip ids s).
  { intros k ids' ids s. revert k ids' ids. induction s as [|x s IH]; intros k ids' [|d ids] Hl Hk; try done.
    cbn [imap omap list_omap fst snd]. rewrite lookup_app_r by lia. replace (k + 0 - length ids') with 0 by lia. cbn. f_equal.
    rewrite <- (IH (S k) (ids' ++ [d]) ids); [|by injection Hl|rewrite length_app; cbn; lia].
    rewrite <- app_assoc. cbn. f_equal. apply imap_ext. intros i y _. cbn. f_equal. lia. }
  intros ids Hl. by apply (Hg 0 [] ids sim).
Qed.

(** The pairs of an identifier and its score, for pairs of an index and a score. *)
Definition named (ids : list string) (l : list (nat * float64)) : list (string * float64) :=
  omap (λ ix : nat * float64, (λ d, (d, ix.2)) <$> ids !! ix.1) l.

Lemma named_cons ids i x d l : ids !! i = Some d → named ids ((i, x) :: l) = (d, x) :: named ids l.
Proof. intros Hd. unfold named. cbn. by rewrite Hd. Qed.
Lemma named_filter ids t l :
  named ids (filter (λ ix, f64_le t ix.2 = true) l) = filter (λ ix, f64_le t ix.2 = true) (named ids l).
Proof.
  induction l as [|[i x] l IH]; [done|]. rewrite filter_cons. unfold named in *. cbn [omap list_omap fst snd].
  destruct (ids !! i) as [d|] eqn:Ed; cbn [fmap option_fmap option_map].
  - rewrite filter_cons. cbn [snd]. case_decide; [|done]. cbn [omap list_omap fst snd]. rewrite Ed. cbn. by rewrite IH.
  - case_decide; [|done]. cbn [omap list_omap fst snd]. rewrite Ed. cbn. done.
Qed.
Lemma named_sorted ids l : StronglySorted falling l → StronglySorted falling (named ids l).
Proof.
  induction 1 as [|[i x] l Hs IH Hf]; [constructor|]. unfold named in *. cbn. destruct (ids !! i); cbn; [|done].
  constructor; [done|]. apply Forall_forall. rewrite Forall_forall in Hf. intros y ([j z] & Hin & Hy)%list_elem_of_omap. cbn in Hy.
  destruct (ids !! j); [|done]. injection Hy as <-. exact (Hf _ Hin).
Qed.

(** The ranking of the candidates. *)
Definition ranking_of (ids : list string) (sim : list float64) (threshold : float64) : list (string * float64) :=
  named ids (filter (λ ix, f64_le threshold ix.2 = true) (stable_sort higher (imap pair sim))).

Definition is_ranking (ids : list string) (sim : list float64) (threshold : float64) (ranking : list (string * float64)) : Prop :=
  ranking ≡ₚ filter (λ dx, f64_le threshold dx.2 = true) (zip ids sim) ∧ StronglySorted falling ranking.

Lemma imap_pair_snd (sim : list float64) (P : float64 → Prop) : Forall P sim → Forall (λ ix : nat * float64, P ix.2) (imap pair sim).
Proof. rewrite !Forall_forall. intros H [i x] (j & y & [= <- <-] & Hy)%elem_of_lookup_imap. cbn. by eapply H, list_elem_of_lookup_2. Qed.

Lemma ranking_spec ids sim t :
  length ids = length sim → Forall (λ x, is_nan x = false) sim → is_ranking ids sim t (ranking_of ids sim t).
Proof.
  intros Hl Hn. split.
  - unfold ranking_of. rewrite named_filter. rewrite <- (zip_lookup_imap ids sim Hl). fold (named ids (imap pair sim)).
    assert (Hp : named ids (stable_sort higher (imap pair sim)) ≡ₚ named ids (imap pair sim)) by (unfold named; by rewrite stable_sort_perm).
    by rewrite Hp.
  - apply named_sorted, StronglySorted_filter, ranked_sorted. by apply (imap_pair_snd sim (λ x, is_nan x = false)).
Qed.

(** ** The chunks of a page *)

Definition chunk_view (c : Chunk) : option (string * float64) :=
  match c !! "chunk_id", c !! "similarity" with Some (VStr d), Some (VFloat x) => Some (d, x) | _, _ => None end.

Lemma copy_field_ne key k src dst : k ≠ key → copy_field key src dst !! k = dst !! k.
Proof. intros Hk. unfold copy_field. destruct (src !! key); [by rewrite lookup_insert_ne|done]. Qed.
Lemma copy_or_ne f to def k src dst : k ≠ to → copy_or f to def src dst !! k = dst !! k.
Proof. intros Hk. unfold copy_or. by rewrite lookup_insert_ne. Qed.
Lemma add_highlight_ne env hl r id c out k : k ≠ "highlight" → add_highlight env hl r id c out !! k = out !! k.
Proof. intros Hk. unfold add_highlight. repeat case_match; try done; by rewrite lookup_insert_ne. Qed.

Lemma result_chunk_view env hl r id c x t v : chunk_view (result_chunk env hl r id c x t v) = Some (id, x).
Proof.
  unfold chunk_view, result_chunk. rewrite !add_highlight_ne, !copy_or_ne by done.
  rewrite lookup_insert_eq, !lookup_insert_ne by done. rewrite !copy_or_ne by done. cbn [foldl].
  rewrite !copy_field_ne by done. by rewrite lookup_singleton_eq.
Qed.

Definition in_range (r : RetrievalSearchResult) (s : Scores) (ix : nat * float64) : Prop :=
  s.1.1 !! ix.1 = Some ix.2 ∧ is_Some (s.1.2 !! ix.1) ∧ is_Some (s.2 !! ix.1)
  ∧ ∃ d, sr_IDs r !! ix.1 = Some d ∧ is_Some (sr_Field r !! d).

Lemma page_chunks_view env hl r s l :
  Forall (in_range r s) l →
  ∃ cs, page_chunks env hl r s l.*1 = Ret cs ∧ map chunk_view cs = map Some (named (sr_IDs r) l).
Proof.
  destruct s as [[sim tsim] vsim]. induction 1 as [|[i x] l (Hx & [t Ht] & [v Hv] & d & Hd & [c Hc]) _ (cs & Hcs & Hview)]; [by exists []|].
  cbn [fst snd] in *. cbn [fmap list_fmap page_chunks chunk_result fst]. rewrite Hd. cbn [mbind option_bind]. rewrite Hc.
  cbn [fmap option_fmap option_map]. rewrite Hx, Ht, Hv. cbn [go_bind]. change (list_fmap _ _ fst l) with (l.*1). rewrite Hcs. cbn [go_bind].
  eexists. split; [done|]. cbn [map]. rewrite result_chunk_view, Hview, (named_cons _ _ _ d) by done. done.
Qed.

Lemma Forall_page {A} (P : A → Prop) p n (l : list A) : Forall P l → Forall P (page_of p n l).
Proof. intros H. unfold page_of. by apply Forall_take, Forall_drop. Qed.
Lemma page_of_fmap {A B} (f : A → B) p n (l : list A) : page_of p n (f <$> l) = f <$> page_of p n l.
Proof. unfold page_of. by rewrite fmap_take, fmap_drop. Qed.
Lemma named_page ids p n l :
  Forall (λ ix : nat * float64, is_Some (ids !! ix.1)) l → named ids (page_of p n l) = page_of p n (named ids l).
Proof.
  intros Hl. assert (Hm : named ids l = (λ ix : nat * float64, (default "" (ids !! ix.1), ix.2)) <$> l).
  { induction Hl as [|[i x] l [d Hd] _ IH]; [done|]. cbn in Hd. rewrite (named_cons _ _ _ d) by done. cbn. by rewrite Hd, IH. }
  rewrite Hm, page_of_fmap. apply (Forall_page _ p n) in Hl. revert Hl. generalize (page_of p n l). clear.
  intros l. induction 1 as [|[i x] l [d Hd] _ IH]; [done|]. cbn in Hd. rewrite (named_cons _ _ _ d) by done. cbn. by rewrite Hd, IH.
Qed.

(** ** Scoring always gives scores *)

Lemma pair_sums_length xs : length (pair_sums xs) = (length xs + 1) / 2.
Proof.
  remember (length xs) as n eqn:Hn. revert xs Hn. induction n as [n IH] using lt_wf_ind. intros [|x [|y xs]] ->; [done..|].
  cbn [pair_sums length]. rewrite (IH (length xs)) by (cbn; done || lia).
  replace (S (S (length xs)) + 1) with (length xs + 1 + 1 * 2) by lia. rewrite Nat.div_add by lia. lia.
Qed.
Lemma pairwise_total fuel xs : 0 < length xs ≤ fuel + 1 → is_Some (pairwise fuel xs).
Proof.
  revert xs. induction fuel as [|fuel IH]; intros [|x [|y xs]] Hl; cbn in Hl; try lia; try (by eexists).
  cbn [pairwise]. apply IH. rewrite pair_sums_length. cbn [length].
  pose proof (Nat.div_mod (S (S (length xs)) + 1) 2 ltac:(lia)). pose proof (Nat.mod_upper_bound (S (S (length xs)) + 1) 2 ltac:(lia)). lia.
Qed.
Lemma PairwiseSum_total xs : is_Some (PairwiseSum xs).
Proof. unfold PairwiseSum. case_decide; [by eexists|]. apply pairwise_total. lia. Qed.

Lemma cosine_total a b : is_Some (cosineSimilarity a b).
Proof.
  unfold cosineSimilarity. case_decide; [by eexists|].
  destruct (PairwiseSum_total (zip_with f64_mul a b)) as [d ->], (PairwiseSum_total (map (λ x, f64_mul x x) a)) as [n1 ->],
    (PairwiseSum_total (map (λ x, f64_mul x x) b)) as [n2 ->]. cbn. destruct (_ || _); by eexists.
Qed.

Lemma TokenSimilarity_length atks btkss qb : length (TokenSimilarity atks btkss qb) = length btkss.
Proof. unfold TokenSimilarity. destruct (tokensToDict atks qb). apply length_map. Qed.

Lemma Hybrid_total avec bvecs atks btkss tw vw qb :
  length bvecs = length btkss →
  ∃ h, HybridSimilarity avec bvecs atks btkss tw vw qb = Some h
    ∧ length (hs_sim h) = length btkss ∧ length (hs_tsim h) = length btkss ∧ length (hs_vsim h) = length btkss.
Proof.
  intros Hl. unfold HybridSimilarity.
  assert (is_Some (mapM (cosineSimilarity avec) bvecs)) as [vs Hvs].
  { apply mapM_is_Some. apply Forall_true. intros b. apply cosine_total. }
  rewrite Hvs. apply length_mapM in Hvs. cbn. pose proof (TokenSimilarity_length atks btkss qb).
  destruct (forallb _ vs); eexists; (split; [done|]); cbn; rewrite ?length_zip_with; lia.
Qed.

Lemma rank_boosts_total json rf chunks :
  ∃ boosts, rank_boosts json rf chunks = Some boosts ∧ length boosts = length chunks.
Proof.
  unfold rank_boosts. case_decide; [eexists; split; [done|]; apply length_map|].
  unfold query_norm. destruct (PairwiseSum_total (omap (λ t, if decide (t = PAGERANK_FLD) then None
    else (λ s, f64_mul s s) <$> rf !! t) (sorted_keys rf))) as [s ->]. cbn.
  destruct (f64_eqb _ _); eexists; (split; [done|]); apply length_map.
Qed.
Lemma apply_boosts_ok sim boosts : length sim = length boosts → ∃ out, apply_boosts sim boosts = Ret out ∧ length out = length sim.
Proof. intros Hl. unfold apply_boosts. rewrite decide_True by lia. eexists. split; [done|]. rewrite length_zip_with. lia. Qed.

Lemma apply_features json chunks sim rf :
  length sim = length chunks → ∃ out, applyRankFeatureScores json chunks sim rf = Some (Ret out) ∧ length out = length sim.
Proof.
  intros Hl. unfold applyRankFeatureScores. case_decide; [by eexists|].
  destruct (rank_boosts_total json rf (map Some chunks)) as (b & -> & Hb). rewrite length_map in Hb. cbn.
  destruct (apply_boosts_ok sim b) as (out & -> & Ho); [lia|]. by eexists.
Qed.
Lemma apply_features_ids json ids field sim rf :
  length sim = length ids → ∃ out, applyRankFeatureScoresForIDs json ids field sim rf = Some (Ret out) ∧ length out = length sim.
Proof.
  intros Hl. unfold applyRankFeatureScoresForIDs. case_decide; [by eexists|].
  destruct (rank_boosts_total json rf (map (λ id, field !! id) ids)) as (b & -> & Hb). rewrite length_map in Hb. cbn.
  destruct (apply_boosts_ok sim b) as (out & -> & Ho); [lia|]. by eexists.
Qed.

Definition has_lengths (n : nat) (s : Scores) : Prop := length s.1.1 = n ∧ length s.1.2 = n ∧ length s.2 = n.
Definition gives (n : nat) (x : option (go Scores)) : Prop := ∃ s, x = Some (Ret s) ∧ has_lengths n s.

Lemma standard_total json chunks kw qv q tw vw cf qb rf :
  Forall (λ c, ∃ v, extractVector c (getVectorColumnName (length qv)) (replicate (length qv) f64_0) = Ret v) chunks →
  gives (length chunks) (RerankStandard json chunks kw qv q tw vw cf qb rf).
Proof.
  intros Hv. unfold RerankStandard. destruct chunks as [|c0 cs]; [by exists no_scores|]. set (chunks := c0 :: cs) in *.
  assert (Hvs : ∃ vs, chunk_vectors (getVectorColumnName (length qv)) (replicate (length qv) f64_0) chunks = Ret vs
    ∧ length vs = length chunks).
  { clear -Hv. induction Hv as [|c l [v Hc] _ (vs & Hvs & Hl)]; [by exists []|]. cbn [chunk_vectors]. rewrite Hc. cbn [go_bind]. rewrite Hvs. cbn [go_bind].
    eexists. split; [done|]. cbn. by rewrite Hl. }
  destruct Hvs as (vs & -> & Hl).
  set (keys := match qb with Some _ => _ | None => kw end).
  destruct (Hybrid_total qv vs keys (map (weighted_tokens cf) chunks) tw vw qb) as (h & Hh & H1 & H2 & H3);
    [by rewrite length_map|]. rewrite Hh. rewrite length_map in *. cbn [mbind option_bind].
  destruct (apply_features json chunks (hs_sim h) rf H1) as (out & -> & Ho). cbn. eexists. split; [done|].
  unfold chunks in *. split_and!; cbn in *; [lia| |lia]. destruct (hs_shared h); lia.
Qed.

Lemma knn_total json chunks ids field knn q tw vw cf qb rf :
  gives (length ids) (RerankWithKNN json chunks ids field knn q tw vw cf qb rf).
Proof.
  unfold RerankWithKNN. destruct ids as [|i0 is_]; [by exists no_scores|]. set (ids := i0 :: is_) in *. cbn zeta.
  set (tsim := TokenSimilarity _ _ _). set (vsim := map _ ids).
  assert (Ht : length tsim = length ids) by (unfold tsim; by rewrite TokenSimilarity_length, length_imap).
  assert (Hv : length vsim = length ids) by apply length_map.
  destruct (apply_features_ids json ids field (zip_with (blend tw vw) tsim vsim) rf) as (out & -> & Ho);
    [rewrite length_zip_with; lia|]. rewrite length_zip_with in Ho. cbn [mbind option_bind go_bind].
  eexists. split; [done|]. split_and!; cbn [fst snd]; lia.
Qed.

Lemma place_scores_length n results : length (place_scores n results) = n.
Proof.
  unfold place_scores. rewrite <- (length_replicate n f64_0) at 2. generalize (replicate n f64_0) as l.
  induction results as [|[i s] results IH]; intros l; cbn [foldl]; [done|]. rewrite IH. case_decide; [apply length_insert|done].
Qed.
Lemma Normalize_length scores : length (NormalizeRerankScores scores) = length scores.
Proof. unfold NormalizeRerankScores. destruct scores; [done|]. repeat case_match; try done; by rewrite length_map. Qed.

Lemma model_total json model spaces chunks ids field q tw vw cf qb rf :
  length chunks = length ids → Forall (λ id, is_Some (field !! id)) ids →
  gives (length ids) (RerankByModel json model spaces chunks ids field q tw vw cf qb rf).
Proof.
  intros Hl Hf. unfold RerankByModel. destruct chunks as [|c0 cs]; [exists no_scores; by split|].
  set (chunks := c0 :: cs) in *. cbn zeta. set (found := omap id _).
  assert (Hfound : length found = length ids).
  { clear Hl. unfold found. generalize chunks as l. induction Hf as [|d ids [c Hc] _ IH]; intros l; [done|].
    cbn [imap omap list_omap]. unfold chunk_at at 1. rewrite Hc. cbn. f_equal.
    rewrite <- (IH (drop 1 l)). f_equal. f_equal. apply imap_ext. intros i x _. unfold compose, chunk_at.
    destruct (field !! x); [done|]. by rewrite lookup_drop. }
  set (insTw := map _ found). assert (Hi : length insTw = length ids) by (unfold insTw; by rewrite length_map).
  set (tsim := TokenSimilarity _ insTw _). assert (Ht : length tsim = length ids) by (unfold tsim; by rewrite TokenSimilarity_length).
  set (msim := NormalizeRerankScores _).
  assert (Hm : length msim = length ids) by (unfold msim; by rewrite Normalize_length, place_scores_length).
  destruct (apply_features_ids json ids field (zip_with (blend tw vw) tsim msim) rf) as (out & -> & Ho);
    [rewrite length_zip_with; lia|]. rewrite length_zip_with in Ho. cbn [mbind option_bind go_bind].
  eexists. split; [done|]. split_and!; cbn [fst snd]; lia.
Qed.

Lemma wrap_keywords_dom field ids d : is_Some (wrap_keywords field ids !! d) ↔ is_Some (field !! d).
Proof.
  unfold wrap_keywords. revert field. induction ids as [|i ids IH]; intros field; [done|]. cbn [foldl]. rewrite IH.
  destruct (decide (i = d)) as [-> |Hne]; [rewrite lookup_alter_eq|by rewrite lookup_alter_ne]. by rewrite fmap_is_Some.
Qed.

(** Results in step: a chunk per identifier, known to the fields, with numbers as vector. *)
Definition aligned (r : RetrievalSearchResult) : Prop :=
  length (sr_Chunks r) = length (sr_IDs r) ∧ Forall (λ id, is_Some (sr_Field r !! id)) (sr_IDs r)
  ∧ Forall (λ c, ∃ v, extractVector c (getVectorColumnName (length (sr_QueryVector r))) (replicate (length (sr_QueryVector r)) f64_0) = Ret v)
      (sr_Chunks r).

Lemma scoring_total env q w rf model r :
  aligned r →
  ∃ field s, scoreSearchResult env q w rf model r = Some (Ret (field, s)) ∧ has_lengths (length (sr_IDs r)) s
    ∧ ∀ d, is_Some (field !! d) ↔ is_Some (sr_Field r !! d).
Proof.
  intros (Hl & Hf & Hv). unfold scoreSearchResult. cbn zeta.
  destruct (standard_total (re_json env) (sr_Chunks r) [] (sr_QueryVector r) q (f64_sub f64_1 w) w "content_ltks" (re_qb env) rf Hv)
    as (s1 & -> & Hs1). rewrite Hl in Hs1.
  destruct (model && _).
  { destruct (model_total (re_json env) (re_model env) (re_spaces env) (sr_Chunks r) (sr_IDs r) (sr_Field r) q (f64_sub f64_1 w) w
      "content_ltks" (re_qb env) rf Hl Hf) as (s & -> & Hs). by exists (sr_Field r), s. }
  destruct (re_engine env); [|by exists (sr_Field r), s1|].
  - eexists _, _. split; [done|]. split; [|done]. unfold infinity_scores. split_and!; apply length_map.
  - destruct (re_knn env r) as [knn|]; [|by exists (sr_Field r), s1].
    set (field := match sr_IDs r with [] => _ | _ => _ end).
    destruct (knn_total (re_json env) (sr_Chunks r) (sr_IDs r) field knn q (f64_sub f64_1 w) w "content_ltks" (re_qb env) rf) as (s & -> & Hs).
    exists field, s. split; [done|]. split; [done|]. intros d. unfold field. destruct (sr_IDs r); [done|]. apply wrap_keywords_dom.
Qed.

(** ** Pages *)

Definition at_page (req : RetrievalRequest) (page : Z) : RetrievalRequest := {|
  rq_Question := rq_Question req; rq_Page := page; rq_PageSize := rq_PageSize req;
  rq_RerankCandidatesCount := rq_RerankCandidatesCount req; rq_KNNTopK := rq_KNNTopK req;
  rq_KNNNumCandidates := rq_KNNNumCandidates req; rq_SimilarityThreshold := rq_SimilarityThreshold req;
  rq_VectorSimilarityWeight := rq_VectorSimilarityWeight req; rq_RankFeature := rq_RankFeature req;
  rq_RerankModel := rq_RerankModel req; rq_Aggs := rq_Aggs req; rq_Highlight := rq_Highlight req |}.
Definition post_threshold (req : RetrievalRequest) : float64 :=
  if f64_le (vector_weight req) f64_0 then f64_0 else default (f64_lit 2 10) (rq_SimilarityThreshold req).
Definition score_of (env : RetrievalEnv) (req : RetrievalRequest) (r : RetrievalSearchResult) : option (go (gmap string Chunk * Scores)) :=
  scoreSearchResult env (rq_Question req) (vector_weight req) (rank_feature req) (rq_RerankModel req) r.

Lemma in_range_all r s : 
  has_lengths (length (sr_IDs r)) s → Forall (λ id, is_Some (sr_Field r !! id)) (sr_IDs r) →
  Forall (in_range r s) (imap pair s.1.1).
Proof.
  intros (H1 & H2 & H3) Hf. apply Forall_forall. intros [i x] (j & y & [= <- <-] & Hy)%elem_of_lookup_imap.
  apply lookup_lt_Some in Hy as Hlt. split_and!; cbn [fst snd]; [done|apply lookup_lt_is_Some; lia|apply lookup_lt_is_Some; lia|].
  destruct (lookup_lt_is_Some_2 (sr_IDs r) i) as [d Hd]; [lia|]. exists d. split; [done|].
  rewrite Forall_forall in Hf. by eapply Hf, list_elem_of_lookup_2.
Qed.

Lemma rank_and_page_spec `{AggOrder} env req page size w t r s :
  has_lengths (length (sr_IDs r)) s → Forall (λ id, is_Some (sr_Field r !! id)) (sr_IDs r) →
  let ranking := ranking_of (sr_IDs r) s.1.1 (if f64_le w f64_0 then f64_0 else t) in
  ∃ res, rank_and_page env req page size w t r s = Ret res
    ∧ map chunk_view (rr_Chunks res) = map Some (page_of page size ranking) ∧ rr_Total res = Z.of_nat (length ranking).
Proof.
  intros Hl Hf. pose proof (in_range_all r s Hl Hf) as Hr. destruct s as [[sim tsim] vsim]. cbn [fst snd] in *.
  set (pt := if f64_le w f64_0 then f64_0 else t).
  set (rank := filter (λ ix, f64_le pt ix.2 = true) (stable_sort higher (imap pair sim))).
  assert (Hrank : Forall (in_range r (sim, tsim, vsim)) rank).
  { rewrite Forall_forall in Hr. apply Forall_forall. intros x [_ Hx]%list_elem_of_filter. apply Hr.
    by rewrite (stable_sort_perm higher (imap pair sim)) in Hx. }
  assert (Hids : Forall (λ ix : nat * float64, is_Some (sr_IDs r !! ix.1)) rank)
    by (eapply Forall_impl; [exact Hrank|]; intros x (_ & _ & _ & d & Hd & _); by exists d).
  assert (Hlen : length (named (sr_IDs r) rank) = length rank).
  { clear -Hids. induction Hids as [|[i x] l [d Hd] _ IH]; [done|]. cbn in Hd. rewrite (named_cons _ _ _ d) by done. cbn. by rewrite IH. }
  cbn zeta. change (ranking_of (sr_IDs r) sim pt) with (named (sr_IDs r) rank). unfold rank_and_page.
  assert (Hempty : rank = [] → ∃ res, Ret empty_result = Ret res ∧ map chunk_view (rr_Chunks res) = map Some (page_of page size (named (sr_IDs r) rank))
    ∧ rr_Total res = Z.of_nat (length (named (sr_IDs r) rank))).
  { intros ->. exists empty_result. split_and!; [done| |done]. unfold page_of. cbn. by rewrite drop_nil, take_nil. }
  case_decide as Hs; [apply Hempty; unfold rank; by rewrite Hs|]. change (valid_indices sim _) with (rank.*1).
  case_decide as Hn; [apply Hempty; by apply fmap_nil_inv in Hn|].
  rewrite page_of_fmap.
  destruct (page_chunks_view env (rq_Highlight req) r (sim, tsim, vsim) (page_of page size rank)) as (cs & -> & Hcs); [by apply Forall_page|].
  cbn [go_bind]. eexists. split; [done|]. cbn [rr_Chunks rr_Total]. rewrite Hcs, named_page by done. split; [done|].
  by rewrite Hlen, length_fmap.
Qed.

(** C33: the pages of a query: when the engine answers with results in step and
    no score is undefined, there is one ranking, all the candidates whose score
    reaches the threshold, by falling score, and every page within the number of
    candidates is the slice of that ranking at its place, with the same total,
    unless the request has a rerank model and the page is not the first: such a
    page, and every page beyond the candidates, is refused with its own error. *)
Theorem retrieval_pages `{AggOrder} env req r0 r :
  rq_Question req ≠ "" → (0 < rq_PageSize req)%Z → (0 < candidates req)%Z →
  re_search env (search_request req) = inr r0 → PruneDeletedChunks env r0 = inr r → sr_Total r ≠ 0%Z → aligned r →
  (∀ field s, score_of env req r = Some (Ret (field, s)) → Forall (λ x, is_nan x = false) s.1.1) →
  ∃ ranking field sim tsim vsim, score_of env req r = Some (Ret (field, (sim, tsim, vsim)))
    ∧ is_ranking (sr_IDs r) sim (post_threshold req) ranking
    ∧ ∀ page, (1 ≤ page)%Z →
      if decide (page * rq_PageSize req ≤ candidates req)%Z then
        if decide (rq_RerankModel req = true ∧ page ≠ 1%Z)
        then Retrieval env (at_page req page) = Some (Ret (inl (PageWithModel (rq_PageSize req)))) else
        ∃ res, Retrieval env (at_page req page) = Some (Ret (inr res))
          ∧ map chunk_view (rr_Chunks res) = map Some (page_of page (rq_PageSize req) ranking)
          ∧ rr_Total res = Z.of_nat (length ranking)
      else Retrieval env (at_page req page) = Some (Ret (inl (CandidatesTooFew (candidates req) page (rq_PageSize req)))).
Proof.
  intros Hq Hsize Hcand Hsearch Hprune Htotal Ha Hnan.
  destruct (scoring_total env (rq_Question req) (vector_weight req) (rank_feature req) (rq_RerankModel req) r Ha)
    as (field & [[sim tsim] vsim] & Hscore & Hl & Hdom). fold (score_of env req r) in Hscore.
  specialize (Hnan _ _ Hscore). destruct Ha as (_ & Hf & _).
  exists (ranking_of (sr_IDs r) sim (post_threshold req)), field, sim, tsim, vsim. split; [done|].
  split; [apply ranking_spec; [symmetry; apply Hl|done]|]. intros page Hpage.
  unfold Retrieval. cbn [at_page rq_Question rq_Page rq_PageSize rq_RerankModel rq_SimilarityThreshold].
  change (candidates (at_page req page)) with (candidates req). change (search_request (at_page req page)) with (search_request req).
  change (vector_weight (at_page req page)) with (vector_weight req). change (rank_feature (at_page req page)) with (rank_feature req).
  rewrite (decide_False (P := rq_Question req = "")), (decide_False (P := (page ≤ 0)%Z)), (decide_False (P := (rq_PageSize req ≤ 0)%Z)) by (done || lia).
  rewrite Z.quot_div_nonneg by lia. destruct (decide (page * rq_PageSize req ≤ candidates req)%Z) as [Hfit|Hfit].
  - rewrite (decide_False (P := (_ ∨ _))) by (intros [?|Hlt]; [lia|]; pose proof (Z.div_le_lower_bound (candidates req) (rq_PageSize req) page); lia).
    destruct (decide (rq_RerankModel req = true ∧ page ≠ 1%Z)); [done|].
    rewrite Hsearch, Hprune, (decide_False (P := sr_Total r = 0%Z)) by done.
    change (scoreSearchResult env (rq_Question req) (vector_weight req) (rank_feature req) (rq_RerankModel req) r) with (score_of env req r).
    rewrite Hscore. cbn [mbind option_bind go_bind fst snd].
    destruct (rank_and_page_spec env (at_page req page) page (rq_PageSize req) (vector_weight req)
      (default (f64_lit 2 10) (rq_SimilarityThreshold req)) (with_field r field) (sim, tsim, vsim)) as (res & -> & Hview & Htot); [done| |].
    { eapply Forall_impl; [exact Hf|]. intros d. apply Hdom. }
    exists res. split; [done|]. by split.
  - rewrite (decide_True (P := (_ ∨ _))); [done|]. right. apply Z.div_lt_upper_bound; lia.
Qed.

(** ** Documents *)

Definition doc_name (c : Chunk) : string := default "" (field_string c "docnm_kwd").
Definition doc_id (c : Chunk) : string := default "" (field_string c "doc_id").
Definition of_doc (n : string) (chunks : list Chunk) : list Chunk := filter (λ c, doc_name c = n) chunks.

Lemma count_docs_lookup chunks m n :
  foldl count_doc m chunks !! n =
  match m !! n, of_doc n chunks with
  | Some (d, k), l => Some (d, (k + Z.of_nat (length l))%Z)
  | None, c :: l => Some (doc_id c, Z.of_nat (length (c :: l)))
  | None, [] => None
  end.
Proof.
  revert m. induction chunks as [|c chunks IH]; intros m; cbn [foldl].
  { cbn. destruct (m !! n) as [[d k]|]; [|done]. do 2 f_equal. lia. }
  rewrite IH. unfold of_doc. rewrite filter_cons. fold (of_doc n chunks). unfold count_doc. fold (doc_name c) (doc_id c).
  destruct (decide (doc_name c = n)) as [Hn|Hn].
  - rewrite Hn. destruct (m !! n) as [[d k]|]; rewrite lookup_insert_eq; cbn [length]; do 2 f_equal; lia.
  - destruct (m !! doc_name c) as [[d k]|]; by rewrite lookup_insert_ne.
Qed.

Definition total_count (l : list (string * (string * Z))) : Z := foldr (λ e n, (e.2.2 + n)%Z) 0%Z l.
#[export] Instance total_count_perm : Proper ((≡ₚ) ==> (=)) total_count.
Proof. intros l1 l2 Hp. unfold total_count. induction Hp; cbn; lia. Qed.

Lemma total_count_cons e l : total_count (e :: l) = (e.2.2 + total_count l)%Z.
Proof. done. Qed.
Lemma total_count_docs chunks m :
  total_count (map_to_list (foldl count_doc m chunks)) = (total_count (map_to_list m) + Z.of_nat (length chunks))%Z.
Proof.
  revert m. induction chunks as [|c chunks IH]; intros m; cbn [foldl length]; [lia|]. rewrite IH.
  assert (Hstep : total_count (map_to_list (count_doc m c)) = (total_count (map_to_list m) + 1)%Z); [|lia].
  unfold count_doc. fold (doc_name c) (doc_id c). destruct (m !! doc_name c) as [[d k]|] eqn:Em.
  - rewrite <- insert_delete_eq, map_to_list_insert by apply lookup_delete_eq.
    rewrite <- (insert_delete_id m (doc_name c) (d, k) Em) at 2. rewrite map_to_list_insert by apply lookup_delete_eq. rewrite !total_count_cons. cbn [snd]. lia.
  - rewrite map_to_list_insert, total_count_cons by done. cbn [snd]. lia.
Qed.

(** The aggregation counts every valid chunk once: the entries have distinct
    names, fall in count, and the entry of a name has the number of valid chunks
    of that name and the document of the first of them; the counts add up to the
    number of valid chunks. *)
Theorem doc_aggregates `{AggOrder} r validIdx :
  let chunks := valid_chunks r validIdx in
  ∃ entries, doc_aggs r validIdx = map (λ e, {["doc_name" := VStr e.1; "doc_id" := VStr e.2.1; "count" := VInt e.2.2]}) entries
    ∧ NoDup entries.*1 ∧ StronglySorted (λ a b, b.2.2 ≤ a.2.2)%Z entries
    ∧ (∀ n d k, (n, (d, k)) ∈ entries ↔ ∃ c rest, of_doc n chunks = c :: rest ∧ d = doc_id c ∧ k = Z.of_nat (length (c :: rest)))
    ∧ total_count entries = Z.of_nat (length chunks).
Proof.
  cbn zeta. set (chunks := valid_chunks r validIdx). exists (agg_order (foldl count_doc ∅ chunks)). split_and!; [done| |apply agg_sorted|..].
  - rewrite agg_perm. apply NoDup_fst_map_to_list.
  - intros n d k. rewrite agg_perm, elem_of_map_to_list, count_docs_lookup, lookup_empty.
    destruct (of_doc n chunks) as [|c rest]; naive_solver.
  - by rewrite agg_perm, total_count_docs, map_to_list_empty.
Qed.

(** ** Examples *)

Definition more_counts (a b : string * (string * Z)) : bool := bool_decide (b.2.2 < a.2.2)%Z.
#[export] Program Instance demo_agg_order : AggOrder := {| agg_order m := stable_sort more_counts (map_to_list m) |}.
Next Obligation. intros m. apply stable_sort_perm. Qed.
Next Obligation.
  intros m. apply Sorted_StronglySorted; [intros a b c; lia|].
  assert (Hs : Sorted (in_order more_counts) (stable_sort more_counts (map_to_list m))).
  { apply stable_sort_sorted. unfold more_counts. intros a b Hab%bool_decide_eq_true. apply bool_decide_eq_false. lia. }
  induction Hs as [|x l Hs IH Hh]; constructor; [done|]. destruct Hh as [|y l Hy]; constructor.
  unfold in_order, more_counts in Hy. apply bool_decide_eq_false in Hy. lia.
Qed.

Definition demo_chunk (id doc : string) : string * Chunk := (id, {["doc_id" := VStr doc; "docnm_kwd" := VStr doc]}).
Definition demo_results : RetrievalSearchResult :=
  let cs := [demo_chunk "a" "x"; demo_chunk "b" "y"; demo_chunk "c" "x"] in
  {| sr_Chunks := cs.*2; sr_Total := 3; sr_QueryVector := []; sr_Highlight := None; sr_Field := list_to_map cs; sr_IDs := cs.*1 |}.
Definition demo_retrieval : RetrievalEnv := {|
  re_search := λ _, inr demo_results; re_documents := Some (λ ids, inr (elements ids)); re_engine := Elasticsearch;
  re_knn := λ _, Some {["a" := f64_of_int 1; "b" := f64_of_int 5; "c" := f64_of_int 3]}; re_qb := None;
  re_model := λ _ _, None; re_json := λ _, None; re_spaces := id |}.
Definition demo_request : RetrievalRequest := {|
  rq_Question := "q"; rq_Page := 1; rq_PageSize := 2; rq_RerankCandidatesCount := Some 4%Z; rq_KNNTopK := None;
  rq_KNNNumCandidates := None; rq_SimilarityThreshold := Some (f64_of_int 2); rq_VectorSimilarityWeight := Some (f64_of_int 1);
  rq_RankFeature := Some ∅; rq_RerankModel := false; rq_Aggs := None; rq_Highlight := None |}.

Lemma retrieval_pages_witness :
  ∃ res, Retrieval demo_retrieval (at_page demo_request 1) = Some (Ret (inr res)) ∧ rr_Total res = 2%Z.
Proof.
  destruct (retrieval_pages demo_retrieval demo_request demo_results demo_results) as (ranking & field & sim & tsim & vsim & Hs & [Hp _] & Hpages);
    [done|done|done|done|vm_compute; reflexivity|done| | |].
  - split_and!; [done| |]; repeat (apply Forall_cons; split; [by eexists|]); apply Forall_nil_2.
  - intros field s Hs. assert (E : match score_of demo_retrieval demo_request demo_results with
      | Some (Ret (_, s)) => forallb (λ x, negb (is_nan x)) s.1.1 | _ => true end = true) by (vm_compute; reflexivity).
    rewrite Hs in E. apply Forall_forall. intros x Hx.
    apply negb_true_iff, (proj1 (forallb_forall (λ x, negb (is_nan x)) s.1.1) E). by apply list_elem_of_In.
  - destruct (Hpages 1%Z) as (res & Hr & _ & Ht); [lia|]. exists res. split; [exact Hr|]. rewrite Ht.
    assert (E : match Retrieval demo_retrieval (at_page demo_request 1) with Some (Ret (inr res)) => rr_Total res | _ => 0%Z end = 2%Z)
      by (vm_compute; reflexivity).
    rewrite Hr in E. by rewrite <- Ht.
Defined.

(** Without a vector similarity the combined scores are the slice of the token
    scores, and the features of the rank are added to both. *)
Example term_scores_polluted :
  match RerankStandard (λ _, None) [{[PAGERANK_FLD := VInt 5]}] [] [] "q" f64_1 f64_0 "content_ltks" None ∅ with
  | Some (Ret (sim, tsim, _)) => (sim, tsim) = ([f64_of_int 5], [f64_of_int 5])
  | _ => False
  end.
Proof. vm_compute. reflexivity. Qed.

(** Without identifiers the scores of a model are empty, whatever the chunks. *)
Lemma model_without_ids json model spaces chunks field q tw vw cf qb rf :
  RerankByModel json model spaces chunks [] field q tw vw cf qb rf = Some (Ret no_scores).
Proof.
  unfold RerankByModel. destruct chunks; [done|]. cbn [imap omap list_omap map]. cbn zeta.
  change (place_scores (length []) _) with (place_scores 0 (default [] (model q []))).
  pose proof (place_scores_length 0 (default [] (model q []))) as Hl. destruct (place_scores 0 _); [|done].
  unfold TokenSimilarity. destruct (tokensToDict _ _). cbn. unfold applyRankFeatureScoresForIDs. rewrite decide_True by (by left). done.
Qed.
