(* ===== verification/AgentValue.v ===== *)
(** * Values of the agent canvas: dynamic values over a heap

    The components of a canvas exchange values of type [any] that share maps and
    backing arrays.  A map is a location of the heap; a slice is a window of an
    array of the heap, with its capacity, so that an [append] within the capacity
    is seen through every window of the array.  The operations are computations
    on the heap that may panic.  A computation that recurses into a value panics
    when it has gone through more cells than the heap has: then the value has a
    cycle, and the program overflows its stack. *)

From S2P Require Import Prelude GoValue Tokenizer TitleLevels ChunkDoc TokenSplit Reranker.
From stdpp Require Import pretty.
From Stdlib Require Import SpecFloat.

Open Scope go_scope.

Notation loc := positive.

(** A window of [s_len] cells of an array from [s_off] on; [s_cap] cells from there may be used. *)
Record slice := Slice { s_arr : loc; s_off : nat; s_len : nat; s_cap : nat }.

Inductive any :=
| ANil
| ABool (b : bool)
| AInt (z : Z)
| AInt32 (z : Z)
| AInt64 (z : Z)
| AFloat (f : float64)
| AFloat32 (f : float64)                  (* its value as a float64 *)
| AStr (s : string)
| AStrs (l : list string)                 (* []string *)
| AList (s : option slice)                (* []any, [None] for nil *)
| AMap (m : option loc)                   (* map[string]any, [None] for nil *)
| AMaps (l : list (option loc))           (* []map[string]any *)
| AOther (type text : string).            (* any other type, and its %v form *)

Record heap := Heap {
  h_maps : gmap loc (gmap string any);
  h_arrs : gmap loc (list any);
}.
Definition empty_heap : heap := Heap ∅ ∅.

(** ** What the code takes from the standard library *)

Class GoLib := {
  float_text : float64 → string;           (* %v of a float64 *)
  float32_text : float64 → string;         (* %v of a float32 *)
  parse_float : string → option float64;   (* strconv.ParseFloat(s, 64) *)
  unmarshal : string → option value;       (* json.Unmarshal into an any *)
  json_other : string → string → option value;  (* a struct, marshalled and unmarshalled into an any *)
  lower_rune : string → string;            (* unicode.ToLower, of a rune that is not ASCII *)
  fold_rune : string → string;             (* of such a rune: one of those that differ from it in case only *)
  grow : nat → nat → nat;                  (* the capacity append allocates: old capacity, cells needed *)
  now_text : string;                       (* time.Now().Format *)
}.
Class GoLibLaws `{GoLib} := {
  grow_enough : ∀ cap need, need ≤ grow cap need;
}.

(** ** Computations on the heap *)

Definition mem (A : Type) : Type := heap → go (A * heap).
Definition mret' {A} (a : A) : mem A := λ h, Ret (a, h).
Definition mbind' {A B} (c : mem A) (k : A → mem B) : mem B := λ h, go_bind (c h) (λ p, k p.1 p.2).
Definition mpanic {A} : mem A := λ _, Panic.
Definition mget : mem heap := λ h, Ret (h, h).
(** A computation that only reads. *)
Definition mread {A} (f : heap → go A) : mem A := λ h, go_bind (f h) (λ a, Ret (a, h)).
Notation "x ⇐ c ; k" := (mbind' c (λ x, k))
  (at level 20, c at level 100, k at level 200, right associativity) : go_scope.
Notation "' p ⇐ c ; k" := (mbind' c (λ x, match x with p => k end))
  (at level 20, p pattern, c at level 100, k at level 200, right associativity) : go_scope.

Section iterate.
Context {A B : Type}.
Variable f : B → A → mem B.
Fixpoint mfold (l : list A) (b : B) : mem B :=
  match l with
  | [] => mret' b
  | x :: l => b ⇐ f b x; mfold l b
  end.
Variable g : A → mem B.
Fixpoint mmap (l : list A) : mem (list B) :=
  match l with
  | [] => mret' []
  | x :: l => y ⇐ g x; ys ⇐ mmap l; mret' (y :: ys)
  end.
End iterate.

(** ** Maps *)

Definition map_at (h : heap) (m : option loc) : gmap string any :=
  match m with Some l => default ∅ (h_maps h !! l) | None => ∅ end.
Definition set_map (l : loc) (m : gmap string any) (h : heap) : heap :=
  Heap (<[l := m]> (h_maps h)) (h_arrs h).
Definition fresh_map (h : heap) : loc := fresh (dom (h_maps h) : gset loc).

(** [make(map[string]any)] with its first entries. *)
Definition new_map (m : gmap string any) : mem loc := λ h,
  Ret (fresh_map h, set_map (fresh_map h) m h).
(** [m[k]], where a missing key gives nil. *)
Definition get_key (h : heap) (m : option loc) (k : string) : any := default ANil (map_at h m !! k).
(** [m[k] = v]; a write to a nil map panics. *)
Definition put_key (m : option loc) (k : string) (v : any) : mem unit := λ h,
  match m with
  | None => Panic
  | Some l => Ret ((), set_map l (<[k := v]> (map_at h m)) h)
  end.

(** ** Slices *)

Definition cells_at (h : heap) (l : loc) : list any := default [] (h_arrs h !! l).
Definition elems (h : heap) (s : option slice) : list any :=
  match s with
  | None => []
  | Some s => take (s_len s) (drop (s_off s) (cells_at h (s_arr s)))
  end.
Definition slice_len (s : option slice) : nat := match s with Some s => s_len s | None => 0 end.
Definition set_arr (l : loc) (cells : list any) (h : heap) : heap :=
  Heap (h_maps h) (<[l := cells]> (h_arrs h)).
Definition fresh_arr (h : heap) : loc := fresh (dom (h_arrs h) : gset loc).

(** A new array with these elements and room for [cap] cells. *)
Definition new_slice_cap (cap : nat) (l : list any) : mem (option slice) := λ h,
  let a := fresh_arr h in
  Ret (Some (Slice a 0 (length l) cap), set_arr a (l ++ replicate (cap - length l) ANil) h).
Definition new_slice (l : list any) : mem (option slice) := new_slice_cap (length l) l.

(** [list_inserts i xs cells] overwrites the cells from [i] on. *)
Definition append `{GoLib} (s : option slice) (xs : list any) : mem (option slice) := λ h,
  match s with
  | Some s =>
      if decide (s_len s + length xs ≤ s_cap s)
      then Ret (Some (Slice (s_arr s) (s_off s) (s_len s + length xs) (s_cap s)),
                set_arr (s_arr s) (list_inserts (s_off s + s_len s) xs (cells_at h (s_arr s))) h)
      else new_slice_cap (grow (s_cap s) (s_len s + length xs)) (elems h (Some s) ++ xs) h
  | None =>
      match xs with
      | [] => Ret (None, h)
      | _ => new_slice_cap (grow 0 (length xs)) xs h
      end
  end.
(** [s[lo:hi]], within the length. *)
Definition subslice (s : slice) (lo hi : nat) : slice :=
  Slice (s_arr s) (s_off s + lo) (hi - lo) (s_cap s - lo).

(** A decoded JSON value as new maps and slices. *)
Fixpoint alloc_value (v : value) : mem any :=
  match v with
  | VBool b => mret' (ABool b)
  | VFloat f => mret' (AFloat f)
  | VStr s => mret' (AStr s)
  | VList l => vs ⇐ mmap alloc_value l; s ⇐ new_slice vs; mret' (AList s)
  | VMap m =>
      let entries := alloc_value <$> m in
      kvs ⇐ mmap (λ kc : string * mem any, v ⇐ kc.2; mret' (kc.1, v)) (map_to_list entries);
      l ⇐ new_map (list_to_map kvs);
      mret' (AMap (Some l))
  | _ => mret' ANil
  end.

(** The number of cells and entries, which bounds the depth of a value without cycles. *)
Definition heap_cells (h : heap) : nat :=
  sum_list (map (λ lm, size lm.2) (map_to_list (h_maps h)))
  + sum_list (map (λ la, length la.2) (map_to_list (h_arrs h))).

(** ** Formatting with %v *)

Fixpoint join_words (sep : string) (l : list string) : string :=
  match l with
  | [] => ""
  | [w] => w
  | w :: ws => w +:+ sep +:+ join_words sep ws
  end.
Fixpoint go_mapM {A B} (f : A → go B) (l : list A) : go (list B) :=
  match l with
  | [] => Ret []
  | x :: l => y <-! f x; ys <-! go_mapM f l; Ret (y :: ys)
  end.

Definition sorted_keys (m : gmap string any) : list string := sort_strings (map_to_list m).*1.

Section sprint.
Context `{GoLib}.

Fixpoint sprint_depth (fuel : nat) (h : heap) (v : any) : go string :=
  match fuel with
  | O => Panic
  | S fuel =>
      let sprint_map (m : option loc) :=
        entries <-! go_mapM (λ k, t <-! sprint_depth fuel h (get_key h m k); Ret (k +:+ ":" +:+ t))
                      (sorted_keys (map_at h m));
        Ret ("map[" +:+ join_words " " entries +:+ "]") in
      match v with
      | ANil => Ret "<nil>"
      | ABool b => Ret (if b then "true" else "false")
      | AInt z | AInt32 z | AInt64 z => Ret (pretty z)
      | AFloat f => Ret (float_text f)
      | AFloat32 f => Ret (float32_text f)
      | AStr s => Ret s
      | AStrs l => Ret ("[" +:+ join_words " " l +:+ "]")
      | AList s =>
          ts <-! go_mapM (sprint_depth fuel h) (elems h s);
          Ret ("[" +:+ join_words " " ts +:+ "]")
      | AMap m => sprint_map m
      | AMaps l => ts <-! go_mapM sprint_map l; Ret ("[" +:+ join_words " " ts +:+ "]")
      | AOther _ t => Ret t
      end
  end.
(** [fmt.Sprintf("%v", v)]. *)
Definition sprint (h : heap) (v : any) : go string := sprint_depth (2 + heap_cells h) h v.
End sprint.

(** ** Type assertions *)

Definition is_nil (v : any) : bool := match v with ANil => true | _ => false end.
Definition as_string (v : any) : option string := match v with AStr s => Some s | _ => None end.
(** [s, _ := v.(string)]. *)
Definition str_of (v : any) : string := default "" (as_string v).
Definition as_map (v : any) : option (option loc) := match v with AMap m => Some m | _ => None end.
Definition as_list (v : any) : option (option slice) := match v with AList s => Some s | _ => None end.

(** ** Numbers *)

Definition f32_add : float64 → float64 → float64 := SFadd 24 128.
Definition wrap32 (z : Z) : Z := ((z + 2 ^ 31) mod 2 ^ 32 - 2 ^ 31)%Z.

(** ** Comparison with ==

    Values of different types differ; comparing two maps or two slices panics. *)
Definition go_eq (a b : any) : go bool :=
  match a, b with
  | ANil, ANil => Ret true
  | ABool x, ABool y => Ret (eqb x y)
  | AInt x, AInt y | AInt32 x, AInt32 y | AInt64 x, AInt64 y => Ret (bool_decide (x = y))
  | AFloat x, AFloat y | AFloat32 x, AFloat32 y => Ret (f64_eqb x y)
  | AStr x, AStr y => Ret (bool_decide (x = y))
  | AStrs _, AStrs _ | AList _, AList _ | AMap _, AMap _ | AMaps _, AMaps _ => Panic
  | AOther t x, AOther t' y => Ret (bool_decide (t = t' ∧ x = y))
  | _, _ => Ret false
  end.

(** ** Strings *)

Definition contains_str (s sub : string) : bool := bool_decide (is_Some (String.index 0 sub s)).

Definition lower_ascii (c : Ascii.ascii) : Ascii.ascii :=
  if byte_in 65 90 c then Ascii.ascii_of_N (Ascii.N_of_ascii c + 32) else c.
Definition map_rune (f : string → string) (r : string) : string :=
  match r with
  | String c "" => if rune1 c then String (lower_ascii c) "" else rune_error ""
  | r => f r
  end.
(** [strings.ToLower], and [strings.EqualFold] of valid strings. *)
Definition to_lower `{GoLib} (s : string) : string := concat_strings (map (map_rune lower_rune) (runes s)).
Definition fold_case `{GoLib} (s : string) : string := concat_strings (map (map_rune fold_rune) (runes s)).
Definition equal_fold `{GoLib} (a b : string) : bool := bool_decide (fold_case a = fold_case b).

(** [fmt.Sscanf(s, "%d", &n)]: white space, a sign, digits; the rest is ignored. *)
Definition newline : Ascii.ascii := Ascii.ascii_of_N 10.
Fixpoint skip_space (fuel : nat) (l : list Ascii.ascii) : option (list Ascii.ascii) :=
  match fuel with
  | O => Some l
  | S fuel =>
      match l with
      | c :: _ => if decide (c = newline) then
                    None
                  else match head (omap (λ p, Prelude.strip_prefix p l) space_runes) with
                       | Some l' =>
                           match l with
                           | c :: d :: l'' =>
                               if decide (c = Ascii.ascii_of_N 13 ∧ d = newline) then skip_space fuel l''
                               else skip_space fuel l'
                           | _ => skip_space fuel l'
                           end
                       | None => Some l
                       end
      | [] => Some l
      end
  end.
Fixpoint digits (l : list Ascii.ascii) : list Z :=
  match l with
  | c :: l => if byte_in 48 57 c then (Z.of_N (Ascii.N_of_ascii c) - 48)%Z :: digits l else []
  | [] => []
  end.
Definition digits_value (ds : list Z) : Z := foldl (λ n d, 10 * n + d)%Z 0%Z ds.
Definition scan_int (s : string) : option Z :=
  l ← skip_space (String.length s) (String.list_ascii_of_string s);
  let '(neg, l) := match l with
                   | c :: l' => if decide (c = Ascii.ascii_of_N 45) then (true, l')
                                else if decide (c = Ascii.ascii_of_N 43) then (false, l') else (false, l)
                   | [] => (false, l)
                   end in
  match digits l with
  | [] => None
  | ds => let n := if neg then (- digits_value ds)%Z else digits_value ds in
          if decide (in_int64 n) then Some n else None
  end.

Example scan_int_ex : map scan_int [" -12x"; "+7"; ""; "x1"; "9223372036854775808"] = [Some (-12); Some 7; None; None; None]%Z.
Proof. vm_compute. reflexivity. Qed.
