(* ===== verification/CanvasState.v ===== *)
(** * The state of a canvas run (internal/agent/runtime/state.go)

    [CanvasState] is the record the components of a run share.  Its maps are
    locations of the heap, as [GetVar] hands them out; the methods return the new
    record, and the mutex makes each of them atomic.  Receivers are not nil. *)

From S2P Require Import Prelude GoValue TitleLevels StateMap Reranker AgentValue.

Open Scope go_scope.

(* internal/agent/runtime/state.go:60-74 CanvasState *)
Record CanvasState := {
  activeHistoryIndex : Z;
  Outputs : gmap string (option loc);
  Sys : option loc;
  Env : option loc;
  Path : list string;
  History : list (option loc);
  Memory : list (option loc);
  Retrieval : option loc;
  Globals : option loc;
  CancelFlag : bool;
  RunID : string;
  SessionID : string;
}.

Definition with_Outputs (s : CanvasState) (o : gmap string (option loc)) : CanvasState :=
  {| activeHistoryIndex := activeHistoryIndex s; Outputs := o; Sys := Sys s; Env := Env s; Path := Path s;
     History := History s; Memory := Memory s; Retrieval := Retrieval s; Globals := Globals s;
     CancelFlag := CancelFlag s; RunID := RunID s; SessionID := SessionID s |}.
Definition with_namespaces (s : CanvasState) (sys env globals : option loc) : CanvasState :=
  {| activeHistoryIndex := activeHistoryIndex s; Outputs := Outputs s; Sys := sys; Env := env; Path := Path s;
     History := History s; Memory := Memory s; Retrieval := Retrieval s; Globals := globals;
     CancelFlag := CancelFlag s; RunID := RunID s; SessionID := SessionID s |}.
Definition with_Sys (s : CanvasState) (sys : option loc) : CanvasState :=
  with_namespaces s sys (Env s) (Globals s).
Definition with_History (s : CanvasState) (history : list (option loc)) (index : Z) : CanvasState :=
  {| activeHistoryIndex := index; Outputs := Outputs s; Sys := Sys s; Env := Env s; Path := Path s;
     History := history; Memory := Memory s; Retrieval := Retrieval s; Globals := Globals s;
     CancelFlag := CancelFlag s; RunID := RunID s; SessionID := SessionID s |}.
Definition with_Memory (s : CanvasState) (memory : list (option loc)) : CanvasState :=
  {| activeHistoryIndex := activeHistoryIndex s; Outputs := Outputs s; Sys := Sys s; Env := Env s; Path := Path s;
     History := History s; Memory := memory; Retrieval := Retrieval s; Globals := Globals s;
     CancelFlag := CancelFlag s; RunID := RunID s; SessionID := SessionID s |}.
Definition with_Retrieval (s : CanvasState) (r : option loc) : CanvasState :=
  {| activeHistoryIndex := activeHistoryIndex s; Outputs := Outputs s; Sys := Sys s; Env := Env s; Path := Path s;
     History := History s; Memory := Memory s; Retrieval := r; Globals := Globals s;
     CancelFlag := CancelFlag s; RunID := RunID s; SessionID := SessionID s |}.
Definition with_Path (s : CanvasState) (path : list string) : CanvasState :=
  {| activeHistoryIndex := activeHistoryIndex s; Outputs := Outputs s; Sys := Sys s; Env := Env s; Path := path;
     History := History s; Memory := Memory s; Retrieval := Retrieval s; Globals := Globals s;
     CancelFlag := CancelFlag s; RunID := RunID s; SessionID := SessionID s |}.

(** The map of a field, made when it is nil. *)
Definition ensure_map (m : option loc) : mem (option loc) :=
  match m with
  | Some l => mret' (Some l)
  | None => l ⇐ new_map ∅; mret' (Some l)
  end.
Definition copy_map (m : option loc) : mem (option loc) :=
  h ⇐ mget; l ⇐ new_map (map_at h m); mret' (Some l).

Section state.
Context `{GoLib} `{MapOrder}.

(* internal/agent/runtime/state.go:101-114 CanvasState.EnsureSysDate *)
Definition EnsureSysDate (s : CanvasState) : mem CanvasState :=
  sys ⇐ ensure_map (Sys s);
  h ⇐ mget;
  present ⇐ match map_at h sys !! "date" with
            | Some v => t ⇐ mread (λ h, sprint h v); mret' (bool_decide (trim_space t ≠ ""))
            | None => mret' false
            end;
  if present : bool then mret' (with_Sys s sys)
  else _ ⇐ put_key sys "date" (AStr now_text); mret' (with_Sys s sys).

(* internal/agent/runtime/state.go:79-96 NewCanvasState *)
Definition NewCanvasState (runID sessionID : string) : mem CanvasState :=
  sys ⇐ new_map ∅;
  env ⇐ new_map ∅;
  retrieval ⇐ new_map ∅;
  globals ⇐ new_map ∅;
  EnsureSysDate {| activeHistoryIndex := -1; Outputs := ∅; Sys := Some sys; Env := Some env; Path := [];
                   History := []; Memory := []; Retrieval := Some retrieval; Globals := Some globals;
                   CancelFlag := false; RunID := runID; SessionID := sessionID |}.

(** ** Variables *)

(** Before and after the first occurrence of a byte. *)
Fixpoint cut (c : Ascii.ascii) (s : string) : option (string * string) :=
  match s with
  | EmptyString => None
  | String a s' =>
      if decide (a = c) then Some ("", s')
      else match cut c s' with Some (x, y) => Some (String a x, y) | None => None end
  end.
Definition at_byte : Ascii.ascii := Ascii.ascii_of_N 64.
(** [strings.TrimPrefix] of a prefix that is there. *)
Definition drop_prefix (p s : string) : string := String.substring (String.length p) (String.length s - String.length p) s.

(* internal/agent/runtime/state.go:934-959 step *)
Fixpoint step (fuel : nat) (cur : any) (key : string) : mem any :=
  match cur with
  | AMap m => h ⇐ mget; mret' (get_key h m key)
  | AStr v =>
      match fuel with
      | O => mpanic
      | S fuel => match unmarshal v with
                  | Some parsed => w ⇐ alloc_value parsed; step fuel w key
                  | None => mret' ANil
                  end
      end
  | AList v =>
      match scan_int key with
      | Some idx => if decide (0 ≤ idx < Z.of_nat (slice_len v))%Z
                    then h ⇐ mget; mret' (default ANil (elems h v !! Z.to_nat idx))
                    else mret' ANil
      | None => mret' ANil
      end
  | _ => mret' ANil
  end.
(** A string that decodes to a string is longer than it. *)
Definition step_fuel (cur : any) : nat := match cur with AStr v => S (String.length v) | _ => 0 end.
Definition step_part (cur : any) (p : string) : mem any := step (step_fuel cur) cur p.

(* internal/agent/runtime/state.go:919-932 dotTraverse *)
Definition dotTraverse (root : any) (path : string) : mem any :=
  if decide (path = "") then mret' root else mfold step_part (split_on dot path) root.

Inductive var_error := EmptyReference | InvalidReference (ref : string).

(* internal/agent/runtime/state.go:862-883 getVarLocked *)
Definition getVarLocked (s : CanvasState) (ref : string) : mem (var_error + any) :=
  if decide (ref = "item") then h ⇐ mget; mret' (inr (get_key h (Globals s) "__item__"))
  else if decide (ref = "index") then h ⇐ mget; mret' (inr (get_key h (Globals s) "__index__"))
  else if has_prefix ref "sys." then v ⇐ dotTraverse (AMap (Sys s)) (drop_prefix "sys." ref); mret' (inr v)
  else if has_prefix ref "env." then v ⇐ dotTraverse (AMap (Env s)) (drop_prefix "env." ref); mret' (inr v)
  else match cut at_byte ref with
       | Some (cpnID, tail) =>
           match Outputs s !! cpnID with
           | None => mret' (inr ANil)
           | Some outputs => v ⇐ dotTraverse (AMap outputs) tail; mret' (inr v)
           end
       | None => mret' (inl (InvalidReference ref))
       end.

(* internal/agent/runtime/state.go:248-255 CanvasState.GetVar *)
Definition GetVar (s : CanvasState) (ref : string) : mem (var_error + any) :=
  if decide (ref = "") then mret' (inl EmptyReference) else getVarLocked s ref.

(** The walk of [setVarLocked] along the parts of the parameter. *)
(* internal/agent/runtime/state.go:892-905 setVarLocked(part) *)
Fixpoint set_parts (cur : option loc) (parts : list string) (v : any) : mem unit :=
  match parts with
  | [] => mret' ()
  | [p] => put_key cur p v
  | p :: parts =>
      h ⇐ mget;
      match get_key h cur p with
      | AMap next => set_parts next parts v
      | _ => next ⇐ new_map ∅;
             _ ⇐ put_key cur p (AMap (Some next));
             set_parts (Some next) parts v
      end
  end.

(* internal/agent/runtime/state.go:886-906 setVarLocked *)
Definition setVarLocked (outputs : gmap string (option loc)) (cpnID param : string) (v : any)
    : mem (gmap string (option loc)) :=
  '(bucket, outputs) ⇐ match outputs !! cpnID with
                       | Some bucket => mret' (bucket, outputs)
                       | None => bucket ⇐ new_map ∅; mret' (Some bucket, <[cpnID := Some bucket]> outputs)
                       end;
  _ ⇐ set_parts bucket (split_on dot param) v;
  mret' outputs.

(* internal/agent/runtime/state.go:261-265 CanvasState.SetVar *)
Definition SetVar (s : CanvasState) (cpnID param : string) (v : any) : mem CanvasState :=
  outputs ⇐ setVarLocked (Outputs s) cpnID param v; mret' (with_Outputs s outputs).

(* internal/agent/runtime/state.go:275-287 CanvasState.ReadVars *)
Fixpoint ReadVars (s : CanvasState) (refs : list string) : mem (var_error + gmap string any) :=
  match refs with
  | [] => mret' (inr ∅)
  | ref :: refs =>
      r ⇐ getVarLocked s ref;
      match r with
      | inl err => mret' (inl err)
      | inr v => rest ⇐ ReadVars s refs;
                 mret' (match rest with
                        | inl err => inl err
                        | inr out => inr (if decide (is_Some (out !! ref)) then out else <[ref := v]> out)
                        end)
      end
  end.

(* internal/agent/runtime/state.go:296-308 CanvasState.Snapshot *)
Definition Snapshot (s : CanvasState) : mem (gmap string (option loc)) :=
  kvs ⇐ mmap (λ kv : string * option loc, cp ⇐ copy_map kv.2; mret' (kv.1, cp)) (range (Outputs s));
  mret' (list_to_map kvs).

(* internal/agent/runtime/state.go:313-330 CanvasState.SnapshotNamespaces *)
Definition SnapshotNamespaces (s : CanvasState) : mem (option loc * option loc * option loc) :=
  sys ⇐ copy_map (Sys s); env ⇐ copy_map (Env s); globals ⇐ copy_map (Globals s);
  mret' (sys, env, globals).

(* internal/agent/runtime/state.go:607-619 CanvasState.RecordOutput *)
Definition RecordOutput (s : CanvasState) (cpnID bucket : string) (payload : any) : mem CanvasState :=
  if decide (cpnID = "") then mret' s else
  '(b, outputs) ⇐ match Outputs s !! cpnID with
                  | Some b => mret' (b, Outputs s)
                  | None => b ⇐ new_map ∅; mret' (Some b, <[cpnID := Some b]> (Outputs s))
                  end;
  _ ⇐ put_key b bucket payload;
  mret' (with_Outputs s outputs).

(* internal/agent/runtime/state.go:625-633 CanvasState.GetGlobal *)
Definition GetGlobal (s : CanvasState) (key : string) (h : heap) : option any := map_at h (Globals s) !! key.

(* internal/agent/runtime/state.go:638-648 CanvasState.SetGlobal *)
Definition SetGlobal (s : CanvasState) (key : string) (val : any) : mem CanvasState :=
  globals ⇐ ensure_map (Globals s);
  _ ⇐ put_key globals key val;
  mret' (with_namespaces s (Sys s) (Env s) globals).

(** ** Conversation history and memory *)

(* internal/agent/runtime/state.go:542-586 cloneJSONReflect *)
Fixpoint cloneJSONReflect (fuel : nat) (value : any) : mem any :=
  match fuel with
  | O => mpanic
  | S fuel =>
      let clone_map (m : option loc) : mem any :=
        match m with
        | None => mret' (AMap None)
        | Some _ =>
            h ⇐ mget;
            kvs ⇐ mmap (λ kv : string * any, v ⇐ cloneJSONReflect fuel kv.2; mret' (kv.1, v)) (range (map_at h m));
            l ⇐ new_map (list_to_map kvs);
            mret' (AMap (Some l))
        end in
      let clone_list (vs : list (mem any)) : mem any :=
        ws ⇐ mmap id vs; s ⇐ new_slice ws; mret' (AList s) in
      match value with
      | AMap m => clone_map m
      | AList None => mret' (AList None)
      | AList s => h ⇐ mget; clone_list (map (cloneJSONReflect fuel) (elems h s))
      | AStrs l => clone_list (map (λ t, mret' (AStr t)) l)
      | AMaps l => clone_list (map clone_map l)
      | AOther t x => match json_other t x with Some v => alloc_value v | None => mret' value end
      | _ => mret' value
      end
  end.

(* internal/agent/runtime/state.go:538-540 cloneJSONValue *)
Definition cloneJSONValue (value : any) : mem any :=
  h ⇐ mget; cloneJSONReflect (2 + heap_cells h) value.

(* internal/agent/runtime/state.go:524-536 cloneMapSlice *)
Definition cloneMapSlice (items : list (option loc)) : mem (list (option loc)) :=
  mmap (λ item, v ⇐ cloneJSONValue (AMap item); match v with AMap m => mret' m | _ => mpanic end) items.

(* internal/agent/runtime/state.go:588-602 historyContent *)
Definition historyContent (payload : any) : mem string :=
  match payload with
  | ANil => mret' ""
  | AStr value => mret' value
  | AMap value => h ⇐ mget; mret' (str_of (get_key h value "content"))
  | value => mread (λ h, sprint h value)
  end.

(* internal/agent/runtime/state.go:333-341 CanvasState.SetHistory *)
Definition SetHistory (s : CanvasState) (history : list (option loc)) : mem CanvasState :=
  copied ⇐ cloneMapSlice history; mret' (with_History s copied (-1)).

(** The new history and the index of its last entry. *)
(* internal/agent/runtime/state.go:367-375 CanvasState.appendHistory *)
Definition appendHistory (s : CanvasState) (role : string) (payload : any) : mem (list (option loc) * Z) :=
  payload ⇐ cloneJSONValue payload;
  content ⇐ historyContent payload;
  entry ⇐ new_map {["role" := AStr role; "content" := AStr content; "payload" := payload]};
  let history := History s ++ [Some entry] in
  mret' (history, Z.of_nat (length history) - 1)%Z.

(* internal/agent/runtime/state.go:345-353 CanvasState.AppendHistory *)
Definition AppendHistory (s : CanvasState) (role : string) (payload : any) : mem CanvasState :=
  if decide (role = "") then mret' s else
  '(history, _) ⇐ appendHistory s role payload; mret' (with_History s history (-1)).

(* internal/agent/runtime/state.go:358-365 CanvasState.AppendCurrentUser *)
Definition AppendCurrentUser (s : CanvasState) (payload : any) : mem CanvasState :=
  '(history, index) ⇐ appendHistory s "user" payload; mret' (with_History s history index).

(* internal/agent/runtime/state.go:378-385 CanvasState.SnapshotHistory *)
Definition SnapshotHistory (s : CanvasState) : mem (list (option loc)) := cloneMapSlice (History s).

(* internal/agent/runtime/state.go:390-401 CanvasState.SnapshotPriorHistory *)
Definition SnapshotPriorHistory (s : CanvasState) : mem (list (option loc)) :=
  history ⇐ cloneMapSlice (History s);
  mret' (if decide (0 ≤ activeHistoryIndex s ∧ activeHistoryIndex s = Z.of_nat (length history) - 1)%Z
         then take (Z.to_nat (activeHistoryIndex s)) history else history).

(* internal/agent/runtime/state.go:404-411 CanvasState.SetMemory *)
Definition SetMemory (s : CanvasState) (memory : list (option loc)) : mem CanvasState :=
  copied ⇐ cloneMapSlice memory; mret' (with_Memory s copied).

(* internal/agent/runtime/state.go:415-426 CanvasState.AppendMemory *)
Definition AppendMemory (s : CanvasState) (user assistant summary : string) : mem CanvasState :=
  if decide (summary = "") then mret' s else
  entry ⇐ new_map {["user" := AStr user; "assistant" := AStr assistant; "summary" := AStr summary]};
  mret' (with_Memory s (Memory s ++ [Some entry])).

(* internal/agent/runtime/state.go:429-436 CanvasState.SnapshotMemory *)
Definition SnapshotMemory (s : CanvasState) : mem (list (option loc)) := cloneMapSlice (Memory s).

(* internal/agent/runtime/state.go:440-460 CanvasState.AppendSysHistory *)
Definition AppendSysHistory (s : CanvasState) (entry : string) : mem CanvasState :=
  sys ⇐ ensure_map (Sys s);
  h ⇐ mget;
  history ⇐ match get_key h sys "history" with
            | AList value => append None (elems h value)
            | AStrs value => new_slice_cap (length value + 1) (map AStr value)
            | _ => mret' None
            end;
  history ⇐ append history [AStr entry];
  _ ⇐ put_key sys "history" (AList history);
  mret' (with_Sys s sys).

(* internal/agent/runtime/state.go:463-473 CanvasState.SetSysHistory *)
Definition SetSysHistory (s : CanvasState) (history : option slice) : mem CanvasState :=
  sys ⇐ ensure_map (Sys s);
  h ⇐ mget;
  copied ⇐ append None (elems h history);
  _ ⇐ put_key sys "history" (AList copied);
  mret' (with_Sys s sys).

(* internal/agent/runtime/state.go:476-494 CanvasState.SnapshotSysHistory *)
Definition SnapshotSysHistory (s : CanvasState) : mem (option slice) :=
  h ⇐ mget;
  match get_key h (Sys s) "history" with
  | AList value => append None (elems h value)
  | AStrs value => new_slice (map AStr value)
  | _ => new_slice []
  end.

(* internal/agent/runtime/state.go:499-522 CanvasState.IncrementConversationTurns *)
Definition IncrementConversationTurns (s : CanvasState) : mem CanvasState :=
  sys ⇐ ensure_map (Sys s);
  h ⇐ mget;
  _ ⇐ put_key sys "conversation_turns"
        match get_key h sys "conversation_turns" with
        | AInt turns => AInt (int_add turns 1)
        | AInt32 turns => AInt32 (wrap32 (turns + 1))
        | AInt64 turns => AInt64 (int_add turns 1)
        | AFloat32 turns => AFloat32 (f32_add turns f64_1)
        | AFloat turns => AFloat (f64_add turns f64_1)
        | _ => AInt 1
        end;
  mret' (with_Sys s sys).

(** ** The retrieval results of the run *)

(** The maps among some values. *)
Definition maps_of (l : list any) : list (option loc) := omap as_map l.

(* internal/agent/runtime/state.go:660-683 CanvasState.GetRetrievalChunks *)
Definition GetRetrievalChunks (s : CanvasState) (h : heap) : list (option loc) :=
  match get_key h (Retrieval s) "chunks" with
  | AList l => maps_of (elems h l)
  | _ => []
  end.

(* internal/agent/runtime/state.go:710-725 copyRetrievalList *)
Definition copyRetrievalList (value : any) : mem (option slice) :=
  h ⇐ mget;
  match value with
  | AList l => new_slice (elems h l)
  | AMaps l => new_slice (map AMap l)
  | _ => mret' None
  end.

(* internal/agent/runtime/state.go:727-753 copyRetrievalDocAggs *)
Definition copyRetrievalDocAggs (value : any) : mem (option slice) :=
  h ⇐ mget;
  match value with
  | AList l => new_slice (elems h l)
  | AMaps l => new_slice (map AMap l)
  | AMap aggs => new_slice (map (get_key h aggs) (sorted_keys (map_at h aggs)))
  | _ => mret' None
  end.

(* internal/agent/runtime/state.go:688-708 CanvasState.GetRetrievalReference *)
Definition GetRetrievalReference (s : CanvasState) : mem (option loc) :=
  h ⇐ mget;
  if decide (size (map_at h (Retrieval s)) = 0) then mret' None else
  chunks ⇐ copyRetrievalList (get_key h (Retrieval s) "chunks");
  docAggs ⇐ copyRetrievalDocAggs (get_key h (Retrieval s) "doc_aggs");
  if decide (slice_len chunks = 0 ∧ slice_len docAggs = 0) then mret' None else
  l ⇐ new_map {["chunks" := AList chunks; "doc_aggs" := AList docAggs; "total" := AInt (Z.of_nat (slice_len chunks))]};
  mret' (Some l).

(* internal/agent/runtime/state.go:760-774 CanvasState.SetRetrievalChunks *)
Definition SetRetrievalChunks (s : CanvasState) (chunks : list (option loc)) : mem CanvasState :=
  retrieval ⇐ ensure_map (Retrieval s);
  asAny ⇐ new_slice (map AMap chunks);
  _ ⇐ put_key retrieval "chunks" (AList asAny);
  mret' (with_Retrieval s retrieval).

(** [None] when the chunk has no usable identifier. *)
(* internal/agent/runtime/state.go:831-838 retrievalReferenceID *)
Definition retrievalReferenceID (h : heap) (chunk : option loc) : go (option string) :=
  match map_at h chunk !! "id" with
  | None | Some ANil => Ret None
  | Some value => id <-! sprint h value; Ret (if decide (id = "") then None else Some id)
  end.

(** The identifiers among the values already recorded. *)
Definition seen_ids (h : heap) (values : list any) : go (list string) :=
  ids <-! go_mapM (retrievalReferenceID h) (maps_of values); Ret (omap id ids).

(** One new chunk: kept unless its identifier was seen. *)
(* internal/agent/runtime/state.go:803-809 CanvasState.SetRetrievalReferences(part) *)
Definition add_chunk (acc : option slice * list string) (chunk : option loc) : mem (option slice * list string) :=
  let '(chunkValues, seenChunkIDs) := acc in
  id ⇐ mread (λ h, retrievalReferenceID h chunk);
  match id with
  | Some id =>
      if decide (id ∈ seenChunkIDs) then mret' acc
      else cv ⇐ append chunkValues [AMap chunk]; mret' (cv, id :: seenChunkIDs)
  | None => cv ⇐ append chunkValues [AMap chunk]; mret' (cv, seenChunkIDs)
  end.

(** One aggregate: the first of a document name stays. *)
(* internal/agent/runtime/state.go:817-825 CanvasState.SetRetrievalReferences(part) *)
Definition add_doc_agg (docAggValues : option loc) (docAgg : option loc) : mem (option loc) :=
  h ⇐ mget;
  let docName := str_of (get_key h docAgg "doc_name") in
  if decide (docName = "" ∨ is_Some (map_at h docAggValues !! docName)) then mret' docAggValues
  else _ ⇐ put_key docAggValues docName (AMap docAgg); mret' docAggValues.

(* internal/agent/runtime/state.go:779-829 CanvasState.SetRetrievalReferences *)
Definition SetRetrievalReferences (s : CanvasState) (chunks docAggs : list (option loc)) : mem CanvasState :=
  retrieval ⇐ ensure_map (Retrieval s);
  h ⇐ mget;
  chunkValues ⇐ match get_key h retrieval "chunks" with
                | AList (Some cv) => mret' (Some cv)
                | _ => new_slice_cap (length chunks) []
                end;
  seen ⇐ mread (λ h, seen_ids h (elems h chunkValues));
  '(chunkValues, _) ⇐ mfold add_chunk chunks (chunkValues, seen);
  h ⇐ mget;
  docAggValues ⇐ match get_key h retrieval "doc_aggs" with
                 | AMap (Some m) => mret' (Some m)
                 | _ => l ⇐ new_map ∅; mret' (Some l)
                 end;
  docAggValues ⇐ mfold add_doc_agg docAggs docAggValues;
  _ ⇐ put_key retrieval "chunks" (AList chunkValues);
  _ ⇐ put_key retrieval "doc_aggs" (AMap docAggValues);
  mret' (with_Retrieval s retrieval).

(* internal/agent/runtime/state.go:841-858 CanvasState.GetRetrievalDocAggs *)
Definition GetRetrievalDocAggs (s : CanvasState) (h : heap) : gmap string (option loc) :=
  match get_key h (Retrieval s) "doc_aggs" with
  | AMap raw => omap as_map (map_at h raw)
  | _ => ∅
  end.
End state.
