(* ===== verification/AgentLemmas.v ===== *)
(** * Lemmas about values on the heap, the canvas state and copies of values *)

From S2P Require Import Prelude GoValue StateMap AgentValue CanvasState.
From stdpp Require Import relations.

(** ** Lemmas on the heap of the canvas

    Computations on the heap, the maps that a map contains, and what a walk that
    writes a nested key changes: one key of one map that existed before. *)

Open Scope go_scope.

(** ** Sequencing *)

Lemma mbind_Ret {A B} (c : mem A) (k : A → mem B) h r :
  mbind' c k h = Ret r ↔ ∃ a h', c h = Ret (a, h') ∧ k a h' = Ret r.
Proof.
  unfold mbind'. rewrite go_bind_Ret. split; [intros ([a h'] & ? & ?); eauto|].
  intros (a & h' & ? & ?). by exists (a, h').
Qed.

Lemma mbind_step {A B} (c : mem A) (k : A → mem B) h a h' :
  c h = Ret (a, h') → mbind' c k h = k a h'.
Proof. intros E. unfold mbind'. by rewrite E. Qed.

(** ** Maps of the heap *)

Lemma map_at_set l m h : map_at (set_map l m h) (Some l) = m.
Proof. simpl. by rewrite lookup_insert_eq. Qed.
Lemma map_at_set_ne l l' m h : l ≠ l' → map_at (set_map l m h) (Some l') = map_at h (Some l').
Proof. intros. simpl. by rewrite lookup_insert_ne. Qed.
Lemma maps_set_ne l l' m h : l ≠ l' → h_maps (set_map l m h) !! l' = h_maps h !! l'.
Proof. intros. simpl. by rewrite lookup_insert_ne. Qed.
Lemma maps_set l m h : h_maps (set_map l m h) !! l = Some m.
Proof. simpl. by rewrite lookup_insert_eq. Qed.
Lemma fresh_map_None h : h_maps h !! fresh_map h = None.
Proof. apply not_elem_of_dom. unfold fresh_map. apply is_fresh. Qed.
Lemma map_at_fresh h : map_at h (Some (fresh_map h)) = ∅.
Proof. simpl. by rewrite fresh_map_None. Qed.
Lemma map_at_Some h l m : h_maps h !! l = Some m → map_at h (Some l) = m.
Proof. intros E. simpl. by rewrite E. Qed.
#[export] Hint Resolve fresh_map_None maps_set : graph.

(** ** Maps inside maps *)

Definition child (h : heap) (l l' : loc) : Prop := ∃ k, map_at h (Some l) !! k = Some (AMap (Some l')).

Lemma tc_inv_rtc_l {A} (R : relation A) x z : tc R x z → ∃ y, R x y ∧ rtc R y z.
Proof. induction 1; eauto using tc_rtc, rtc_refl. Qed.

Lemma tc_mono {A} (R R' : relation A) x y : (∀ a b, R a b → R' a b) → tc R x y → tc R' x y.
Proof. intros HR. induction 1; eauto using tc_once, tc_l. Qed.
Lemma rtc_mono {A} (R R' : relation A) x y : (∀ a b, R a b → R' a b) → rtc R x y → rtc R' x y.
Proof. intros HR. induction 1; eauto using rtc_refl, rtc_l. Qed.

(** Adding one edge to a relation without cycles. *)
Section add_edge.
Context {A : Type} (R R' : relation A) (a b : A).
Hypothesis Hsub : ∀ x y, R' x y → R x y ∨ (x = a ∧ y = b).

Lemma rtc_add_edge x y : rtc R' x y → rtc R x y ∨ (rtc R x a ∧ rtc R b y).
Proof.
  induction 1 as [|x y z Hxy _ IH]; [by left; constructor|].
  destruct (Hsub _ _ Hxy) as [H1 | [-> ->]], IH as [H2 | [H2 H3]].
  - left. by eapply rtc_l.
  - right. split; [by eapply rtc_l|done].
  - right. by split; [constructor|].
  - right. by split; [constructor|].
Qed.

Lemma acyclic_add_edge :
  (∀ x, ¬ tc R x x) → ¬ rtc R b a → ∀ x, ¬ tc R' x x.
Proof.
  intros Hac Hba x (y & Hxy & Hyx)%tc_inv_rtc_l.
  destruct (Hsub _ _ Hxy) as [H1 | [-> ->]], (rtc_add_edge _ _ Hyx) as [H2 | [H2 H3]].
  - apply (Hac x). by eapply tc_rtc_r; [apply tc_once|].
  - apply Hba. etrans; [exact H3|]. by eapply rtc_l.
  - by apply Hba.
  - by apply Hba.
Qed.
End add_edge.

(** The maps of a heap that is in use: no map contains itself, none is nil, and
    all are there. *)
Record heap_ok (h : heap) : Prop := {
  ho_closed : ∀ l l', child h l l' → is_Some (h_maps h !! l');
  ho_no_nil : ∀ l k, map_at h (Some l) !! k ≠ Some (AMap None);
  ho_acyclic : ∀ l, ¬ tc (child h) l l;
}.

(** [v] may be stored in the map [l]: it is not a nil map and does not contain [l]. *)
Definition storable (h : heap) (v : any) (l : loc) : Prop :=
  match v with
  | AMap None => False
  | AMap (Some lv) => is_Some (h_maps h !! lv) ∧ ¬ rtc (child h) lv l
  | _ => True
  end.

Lemma child_put h l k v x y :
  child (set_map l (<[k := v]> (map_at h (Some l))) h) x y → child h x y ∨ (x = l ∧ v = AMap (Some y)).
Proof.
  intros [k' Hk]. destruct (decide (l = x)) as [<-|Hx].
  - rewrite map_at_set in Hk. destruct (decide (k = k')) as [<-|Hk'].
    + rewrite lookup_insert_eq in Hk. right. by simplify_eq.
    + rewrite lookup_insert_ne in Hk by done. left. by exists k'.
  - rewrite map_at_set_ne in Hk by done. left. by exists k'.
Qed.

Lemma maps_put_is_Some h l m l' : is_Some (h_maps h !! l') → is_Some (h_maps (set_map l m h) !! l').
Proof. intros. simpl. apply lookup_insert_is_Some'. by right. Qed.

Lemma heap_ok_put h l k v :
  heap_ok h → storable h v l → heap_ok (set_map l (<[k := v]> (map_at h (Some l))) h).
Proof.
  intros [Hc Hn Ha] Hv. split.
  - intros x y [Hxy | [-> ->]]%child_put; apply maps_put_is_Some; [by eapply Hc|]. by destruct Hv.
  - intros x k' Hk. destruct (decide (l = x)) as [<-|Hx].
    + rewrite map_at_set in Hk. apply lookup_insert_Some in Hk as [[_ ->] | [_ Hk]]; [done|].
      by eapply Hn.
    + rewrite map_at_set_ne in Hk by done. by eapply Hn.
  - destruct v as [| | | | | | | | | |[lv|]| |]; try done.
    11: { destruct Hv as [_ Hv]. eapply (acyclic_add_edge (child h) _ l lv); [|done|done].
      intros x y [?|[? [= ->]]]%child_put; auto. }
    all: intros x Hx; apply (Ha x); eapply tc_mono; [|exact Hx];
      intros ? ? [?|[? [=]]]%child_put; done.
Qed.

Lemma child_new h x y : child (set_map (fresh_map h) ∅ h) x y ↔ child h x y.
Proof.
  unfold child. destruct (decide (fresh_map h = x)) as [<-|Hx].
  - by rewrite map_at_set, map_at_fresh.
  - by rewrite map_at_set_ne.
Qed.

Lemma heap_ok_new h : heap_ok h → heap_ok (set_map (fresh_map h) ∅ h).
Proof.
  intros [Hc Hn Ha]. split.
  - intros x y Hxy. apply maps_put_is_Some. eapply Hc, child_new, Hxy.
  - intros x k Hk. destruct (decide (fresh_map h = x)) as [<-|Hx].
    + by rewrite map_at_set, lookup_empty in Hk.
    + rewrite map_at_set_ne in Hk by done. by eapply Hn.
  - intros x Hx. apply (Ha x). eapply tc_mono; [|exact Hx]. intros a b. apply (proj1 (child_new h a b)).
Qed.

(** ** The walk of [setVarLocked] *)

(** The last map on the path that exists, and the key of it that changes. *)
Fixpoint walk_end (h : heap) (l : loc) (parts : list string) : loc * string :=
  match parts with
  | [] => (l, "")
  | [p] => (l, p)
  | p :: parts => match get_key h (Some l) p with
                  | AMap (Some next) => walk_end h next parts
                  | _ => (l, p)
                  end
  end.

Lemma get_key_child h l p l' : get_key h (Some l) p = AMap (Some l') → child h l l'.
Proof. unfold get_key. intros E. exists p. by destruct (map_at h (Some l) !! p) as [v|]; simplify_eq/=. Qed.

Lemma walk_end_below h parts : ∀ l, rtc (child h) l (walk_end h l parts).1.
Proof.
  induction parts as [|p [|q parts] IH]; intros l; [by constructor..|].
  cbn [walk_end]. destruct (get_key h (Some l) p) as [| | | | | | | | | |[l'|]| |] eqn:E; try by constructor.
  eapply rtc_l; [by eapply get_key_child|]. apply IH.
Qed.

(** What a write changed: one key of one map that was there before. *)
Record written (h h' : heap) (we : loc * string) : Prop := {
  wr_one : ∀ l, is_Some (h_maps h !! l) → l ≠ we.1 → h_maps h' !! l = h_maps h !! l;
  wr_key : ∃ w, h_maps h' !! we.1 = Some (<[we.2 := w]> (map_at h (Some we.1)));
  wr_arrs : h_arrs h' = h_arrs h;
}.

Lemma put_key_written h l k v :
  is_Some (h_maps h !! l) → written h (set_map l (<[k := v]> (map_at h (Some l))) h) (l, k).
Proof. intros. split; [intros; by rewrite maps_set_ne|exists v; by rewrite maps_set|done]. Qed.

Section walk.
Context `{GoLib}.

Lemma step_map m p h : step_part (AMap m) p h = Ret (get_key h m p, h).
Proof. done. Qed.

Lemma get_key_other h h' l p : h_maps h' !! l = h_maps h !! l → get_key h' (Some l) p = get_key h (Some l) p.
Proof. unfold get_key, map_at. by intros ->. Qed.

(** The part of the specification of a walk that the induction carries. *)
Definition walk_spec (h : heap) (l : loc) (parts : list string) (v : any) (h' : heap) : Prop :=
  set_parts (Some l) parts v h = Ret ((), h')
  ∧ mfold step_part parts (AMap (Some l)) h' = Ret (v, h')
  ∧ heap_ok h' ∧ written h h' (walk_end h l parts).

(** A path that leaves the existing maps at [p]: new maps from there on. *)
Lemma walk_spec_new h l p parts v h' :
  let next := fresh_map h in
  let h2 := set_map l (<[p := AMap (Some next)]> (map_at h (Some l))) (set_map next ∅ h) in
  parts ≠ [] → heap_ok h → is_Some (h_maps h !! l) →
  (∀ l', get_key h (Some l) p ≠ AMap l') →
  walk_spec h2 next parts v h' → walk_spec h l (p :: parts) v h'.
Proof.
  intros next h2 Hp Hok Hl Hno (Hset & Hget & Hok' & [H1 [w H2] H3]).
  assert (Hne : next ≠ l) by (intros E; unfold next in E; rewrite <- E, fresh_map_None in Hl; by destruct Hl).
  assert (Hat : map_at (set_map next ∅ h) (Some l) = map_at h (Some l)) by (by apply map_at_set_ne).
  assert (Hn : map_at h2 (Some next) = ∅).
  { unfold h2. rewrite map_at_set_ne by done. apply map_at_set. }
  assert (Hwe : walk_end h2 next parts = (next, hd "" parts)).
  { destruct parts as [|q [|r parts]]; [done..|]. cbn [walk_end hd]. unfold get_key. by rewrite Hn, lookup_empty. }
  assert (Hwe' : walk_end h l (p :: parts) = (l, p)).
  { destruct parts as [|q parts]; [done|]. cbn [walk_end].
    destruct (get_key h (Some l) p) as [| | | | | | | | | |m| |] eqn:E; try done. by destruct (Hno m). }
  rewrite Hwe in *. cbn [fst snd] in *.
  assert (Hl2 : h_maps h' !! l = h_maps h2 !! l).
  { apply H1; [|done]. unfold h2. rewrite maps_set. eauto. }
  split_and!; [| |done|rewrite Hwe'; split; cbn [fst snd]].
  - destruct parts as [|q parts]; [done|]. cbn [set_parts]. unfold mget, mbind'. cbn [go_bind fst snd].
    assert (Hput : put_key (Some l) p (AMap (Some next)) (set_map next ∅ h) = Ret ((), h2)).
    { unfold put_key. by rewrite Hat. }
    destruct (get_key h (Some l) p) as [| | | | | | | | | |m| |] eqn:E;
      try (unfold new_map; cbn [go_bind fst snd]; fold next; rewrite Hput; exact Hset).
    by destruct (Hno m).
  - cbn [mfold]. unfold mbind' at 1. rewrite step_map. cbn [go_bind fst snd].
    rewrite (get_key_other h2 h' l p) by done. unfold get_key, h2.
    rewrite map_at_set, lookup_insert_eq. exact Hget.
  - intros l0 Hl0 Hne0. assert (next ≠ l0).
    { intros E. unfold next in E. rewrite <- E, fresh_map_None in Hl0. by destruct Hl0. }
    rewrite H1; [|unfold h2; by do 2 apply maps_put_is_Some|done].
    unfold h2. by rewrite !maps_set_ne.
  - exists (AMap (Some next)). rewrite Hl2. unfold h2. by rewrite maps_set.
  - by rewrite H3.
Qed.

(** A path that goes on in an existing map: it is not the map it is in. *)
Lemma walk_spec_old h l p parts next v h' :
  parts ≠ [] → heap_ok h → is_Some (h_maps h !! l) → get_key h (Some l) p = AMap (Some next) →
  walk_spec h next parts v h' → walk_spec h l (p :: parts) v h'.
Proof.
  intros Hp Hok Hl Hk (Hset & Hget & Hok' & Hw).
  assert (Hwe : walk_end h l (p :: parts) = walk_end h next parts).
  { destruct parts as [|q parts]; [done|]. cbn [walk_end]. by rewrite Hk. }
  assert (Hne : l ≠ (walk_end h next parts).1).
  { intros E. apply (ho_acyclic _ Hok l). eapply tc_rtc_r; [eapply tc_once, get_key_child, Hk|].
    rewrite E. apply walk_end_below. }
  split_and!; [| |done|by rewrite Hwe].
  - destruct parts as [|q parts]; [done|]. cbn [set_parts]. unfold mget, mbind'. cbn [go_bind fst snd]. by rewrite Hk.
  - cbn [mfold]. unfold mbind' at 1. rewrite step_map. cbn [go_bind fst snd].
    rewrite (get_key_other h h' l p) by (by apply Hw). by rewrite Hk.
Qed.

Lemma storable_new h l p next v :
  next = fresh_map h → heap_ok h → storable h v l →
  storable (set_map l (<[p := AMap (Some next)]> (map_at h (Some l))) (set_map next ∅ h)) v next.
Proof.
  intros -> Hok. destruct v as [| | | | | | | | | |[lv|]| |]; try done. intros [Hlv Hr]. split.
  { by do 2 apply maps_put_is_Some. }
  assert (Hlv' : lv ≠ fresh_map h) by (intros ->; rewrite fresh_map_None in Hlv; by destruct Hlv).
  intros Hrtc. apply Hr. clear Hr.
  assert (Hin : ∀ x y, child (set_map l (<[p := AMap (Some (fresh_map h))]> (map_at h (Some l))) (set_map (fresh_map h) ∅ h)) x y
                 → child h x y ∨ (x = l ∧ y = fresh_map h)).
  { intros x y Hxy. destruct (decide (fresh_map h = l)) as [<-|Hne].
    - rewrite map_at_fresh in Hxy. destruct Hxy as [k Hk]. destruct (decide (fresh_map h = x)) as [<-|Hx].
      + rewrite map_at_set in Hk. apply lookup_insert_Some in Hk as [[_ [= ->]] | [_ Hk]]; [by right|].
        by rewrite lookup_empty in Hk.
      + left. exists k. by rewrite !map_at_set_ne in Hk.
    - rewrite <- (map_at_set_ne (fresh_map h) l ∅ h Hne) in Hxy.
      apply child_put in Hxy as [Hxy | [-> [= ->]]]; [left; by apply child_new|by right]. }
  destruct (rtc_add_edge (child h) _ l (fresh_map h) Hin _ _ Hrtc) as [Hh | [Hh _]]; [|done].
  apply rtc_inv_r in Hh as [|(z & _ & Hz)]; [done|].
  apply (ho_closed _ Hok) in Hz. rewrite fresh_map_None in Hz. by destruct Hz.
Qed.

Lemma set_parts_spec parts : ∀ h l v,
  parts ≠ [] → heap_ok h → is_Some (h_maps h !! l) → storable h v (walk_end h l parts).1 →
  ∃ h', walk_spec h l parts v h'.
Proof.
  induction parts as [|p [|q parts] IH]; intros h l v Hp Hok Hl Hv; [done| |].
  - exists (set_map l (<[p := v]> (map_at h (Some l))) h). split_and!; [done| |by apply heap_ok_put|by apply put_key_written].
    cbn [mfold]. unfold mbind'. rewrite step_map. cbn [go_bind fst snd]. unfold get_key, mret'.
    by rewrite map_at_set, lookup_insert_eq.
  - assert (Hcase : (∃ next, get_key h (Some l) p = AMap (Some next)) ∨ (∀ m, get_key h (Some l) p ≠ AMap m)).
    { destruct (get_key h (Some l) p) as [| | | | | | | | | |[next|]| |] eqn:E; eauto; [].
      exfalso. unfold get_key in E. destruct (map_at h (Some l) !! p) eqn:E'; simplify_eq/=.
      by eapply (ho_no_nil _ Hok). }
    destruct Hcase as [[next E] | Hno].
    + destruct (IH h next v) as [h' Hh']; [done|done| | |exists h'; by eapply walk_spec_old].
      * by eapply (ho_closed _ Hok), get_key_child.
      * cbn [walk_end] in Hv. by rewrite E in Hv.
    + assert (Hwe : walk_end h l (p :: q :: parts) = (l, p)).
      { cbn [walk_end]. destruct (get_key h (Some l) p) as [| | | | | | | | | |m| |] eqn:E; try done. by destruct (Hno m). }
      rewrite Hwe in Hv. cbn [fst] in Hv.
      assert (Hne : fresh_map h ≠ l) by (intros E; rewrite <- E, fresh_map_None in Hl; by destruct Hl).
      pose proof (storable_new h l p _ v eq_refl Hok Hv) as Hst.
      set (h2 := set_map l _ _) in Hst.
      assert (Hn : map_at h2 (Some (fresh_map h)) = ∅) by (unfold h2; rewrite map_at_set_ne, map_at_set by done; done).
      destruct (IH h2 (fresh_map h) v) as [h' Hh']; [done| | | |exists h'; by eapply walk_spec_new].
      * unfold h2. rewrite <- (map_at_set_ne (fresh_map h) l ∅ h Hne). apply heap_ok_put; [by apply heap_ok_new|].
        split; [by rewrite maps_set|]. intros [?|(z & Hz & _)]%rtc_inv; [done|].
        apply (proj1 (child_new h _ _)) in Hz as [k Hk]. by rewrite map_at_fresh, lookup_empty in Hk.
      * unfold h2. apply maps_put_is_Some. rewrite maps_set. eauto.
      * replace (walk_end h2 (fresh_map h) (q :: parts)).1 with (fresh_map h); [done|].
        destruct parts; [done|]. cbn [walk_end]. unfold get_key. by rewrite Hn, lookup_empty.
Qed.
End walk.

(** ** Values as trees, and deep copies

    [readback] is the tree a value stands for in a heap; a value with a cycle has
    none.  A value that has a tree has it at the depth the code can reach
    ([readback_bound]), a deep copy has the same tree, and the copy keeps it
    whatever is written to the objects that were there before. *)

Open Scope go_scope.

Inductive tree :=
| TLeaf (v : any)
| TList (l : list tree)
| TMap (kvs : list (string * tree)).

Section readback.
Context `{GoLib}.

Definition readback_entries (rb : any → option tree) (m : gmap string any) : option tree :=
  TMap <$> mapM (λ k, v ← m !! k; t ← rb v; Some (k, t)) (sorted_keys m).
(** The tree of a map at a location, nil or not. *)
Definition readback_map (rb : any → option tree) (h : heap) (m : option loc) : option tree :=
  match m with
  | None => Some (TLeaf (AMap None))
  | Some l => m ← h_maps h !! l; readback_entries rb m
  end.

Fixpoint readback (fuel : nat) (h : heap) (v : any) : option tree :=
  match fuel with
  | O => None
  | S fuel =>
      match v with
      | AMap m => readback_map (readback fuel h) h m
      | AList None => Some (TLeaf (AList None))
      | AList (Some s) => _ ← h_arrs h !! s_arr s; TList <$> mapM (readback fuel h) (elems h (Some s))
      | AStrs l => Some (TList (map (λ t, TLeaf (AStr t)) l))
      | AMaps l => TList <$> mapM (readback_map (readback fuel h) h) l
      | AOther t x => match json_other t x with Some _ => None | None => Some (TLeaf v) end
      | _ => Some (TLeaf v)
      end
  end.

(** ** More heap, more depth *)

Definition extends (h h' : heap) : Prop := h_maps h ⊆ h_maps h' ∧ h_arrs h ⊆ h_arrs h'.
#[global] Instance extends_preorder : PreOrder extends.
Proof.
  split; [by intros h; split|]. intros h1 h2 h3 [? ?] [? ?]. split; by etrans.
Qed.

Lemma extends_new_map h m : extends h (set_map (fresh_map h) m h).
Proof. split; [|done]. apply insert_subseteq, fresh_map_None. Qed.
Lemma fresh_arr_None h : h_arrs h !! fresh_arr h = None.
Proof. apply not_elem_of_dom. unfold fresh_arr. apply is_fresh. Qed.
Lemma extends_new_arr h cells : extends h (set_arr (fresh_arr h) cells h).
Proof. split; [done|]. apply insert_subseteq, fresh_arr_None. Qed.

(** What is read depends only on the objects the two heaps share. *)
Lemma mapM_mono {A B} (f g : A → option B) l r :
  (∀ x y, x ∈ l → f x = Some y → g x = Some y) → mapM f l = Some r → mapM g l = Some r.
Proof.
  intros Hfg Hr%mapM_Some_1. apply mapM_Some_2. revert Hfg.
  induction Hr as [|x y l r Hx Hr IH]; intros Hfg; constructor.
  - apply Hfg; [by left|done].
  - apply IH. intros a b Ha. apply Hfg. by right.
Qed.

Lemma readback_entries_mono (rb rb' : any → option tree) m t :
  (∀ v t, rb v = Some t → rb' v = Some t) → readback_entries rb m = Some t → readback_entries rb' m = Some t.
Proof.
  intros Hrb (kvs & Hk & ->)%fmap_Some. apply fmap_Some. exists kvs. split; [|done].
  eapply mapM_mono; [|exact Hk]. intros k [k' t'] _ (v & -> & (t0 & E & [= <- <-])%bind_Some)%bind_Some.
  simpl. by rewrite (Hrb _ _ E).
Qed.

Lemma readback_map_mono (rb rb' : any → option tree) h h' m t :
  h_maps h ⊆ h_maps h' → (∀ v t, rb v = Some t → rb' v = Some t) →
  readback_map rb h m = Some t → readback_map rb' h' m = Some t.
Proof.
  intros Hh Hrb. destruct m as [l|]; [|done]. simpl. intros (m & Hm & Ht)%bind_Some.
  rewrite (lookup_weaken _ _ _ _ Hm Hh). simpl. by eapply readback_entries_mono.
Qed.

Lemma readback_mono n n' h h' v t :
  n ≤ n' → extends h h' → readback n h v = Some t → readback n' h' v = Some t.
Proof.
  intros Hn [Hm Ha]. revert n' Hn v t. induction n as [|n IH]; intros n' Hn v t; [done|]. destruct n' as [|n']; [lia|].
  assert (Hrb : ∀ v t, readback n h v = Some t → readback n' h' v = Some t) by (intros; apply IH; [lia|done]).
  destruct v as [| | | | | | | | |[s|]|m|l| ]; cbn [readback]; try done.
  - intros (cells & Hc & Ht)%bind_Some. pose proof (lookup_weaken _ _ _ _ Hc Ha) as Hc'. rewrite Hc'. simpl.
    unfold elems, cells_at in *. rewrite Hc in Ht. rewrite Hc'. simpl in *.
    apply fmap_Some in Ht as (ts & Ht & ->). apply fmap_Some. exists ts. split; [|done].
    eapply mapM_mono; [|exact Ht]. auto.
  - by apply readback_map_mono.
  - intros (ts & Ht & ->)%fmap_Some. apply fmap_Some. exists ts. split; [|done].
    eapply mapM_mono; [|exact Ht]. intros m tm _. by apply readback_map_mono.
Qed.
End readback.

(** ** Copies *)

(** [h''] has the objects made between [h] and [h'] as [h'] has them. *)
Definition agree_new (h h' h'' : heap) : Prop :=
  (∀ l, h_maps h !! l = None → is_Some (h_maps h' !! l) → h_maps h'' !! l = h_maps h' !! l)
  ∧ (∀ l, h_arrs h !! l = None → is_Some (h_arrs h' !! l) → h_arrs h'' !! l = h_arrs h' !! l).

Lemma agree_new_mid h h1 h2 h3 h'' :
  extends h h1 → extends h1 h2 → extends h2 h3 → agree_new h h3 h'' → agree_new h1 h2 h''.
Proof.
  intros [M1 A1] [_ _] [M3 A3] [HM HA]. split; intros l Hl [m Hm].
  - pose proof (lookup_weaken _ _ _ _ Hm M3) as Hm'. rewrite Hm, HM, Hm'; [done| |eauto].
    by eapply lookup_weaken_None.
  - pose proof (lookup_weaken _ _ _ _ Hm A3) as Hm'. rewrite Hm, HA, Hm'; [done| |eauto].
    by eapply lookup_weaken_None.
Qed.

Lemma mmap_id_map {A B} (f : A → mem B) l h : mmap id (map f l) h = mmap f l h.
Proof.
  revert h. induction l as [|x l IH]; intros h; [done|]. cbn [map mmap]. unfold mbind', id.
  destruct (f x h) as [[y h']|]; [|done]. cbn [go_bind fst snd]. by rewrite IH.
Qed.

(** A copied thing: made from [h], and read as [Q] says in every heap that keeps the new objects. *)
Definition copies {B T} (Q : heap → B → T → Prop) (h : heap) (y : B) (h' : heap) (t : T) : Prop :=
  extends h h' ∧ ∀ h'', agree_new h h' h'' → Q h'' y t.

Lemma mmap_copies {A B T} (f : A → mem B) (R : A → T → Prop) (Q : heap → B → T → Prop) h0 l ts :
  (∀ h x t, extends h0 h → R x t → ∃ y h', f x h = Ret (y, h') ∧ copies Q h y h' t) →
  Forall2 R l ts → ∀ h, extends h0 h →
  ∃ ys h', mmap f l h = Ret (ys, h') ∧ copies (λ h'', Forall2 (Q h'')) h ys h' ts.
Proof.
  intros Hf. induction 1 as [|x t l ts Hx Hl IH]; intros h Hh.
  - exists [], h. split; [done|]. split; [done|]. by constructor.
  - destruct (Hf h x t Hh Hx) as (y & h1 & E1 & Hx1 & HQ).
    destruct (IH h1) as (ys & h2 & E2 & Hx2 & HF); [by etrans|].
    exists (y :: ys), h2. cbn [mmap]. rewrite (mbind_step _ _ _ _ _ E1), (mbind_step _ _ _ _ _ E2).
    split; [done|]. split; [by etrans|]. intros h'' Hag. constructor.
    + apply HQ. by eapply (agree_new_mid h h h1 h2).
    + apply HF. by eapply (agree_new_mid h h1 h2 h2).
Qed.

Lemma Forall2_choice {A T} (R : A → T → Prop) l : (∀ x, x ∈ l → ∃ t, R x t) → ∃ ts, Forall2 R l ts.
Proof.
  induction l as [|x l IH]; intros Hl; [by exists []|].
  destruct (Hl x) as [t Ht]; [by left|]. destruct IH as [ts Hts]; [intros; apply Hl; by right|].
  exists (t :: ts). by constructor.
Qed.

Lemma elem_of_sorted_keys (m : gmap string any) k : k ∈ sorted_keys m ↔ is_Some (m !! k).
Proof.
  unfold sorted_keys. rewrite sort_strings_perm. rewrite list_elem_of_fmap. split.
  - intros ([k' v] & -> & Hv%elem_of_map_to_list). eauto.
  - intros [v Hv]. exists (k, v). split; [done|]. by apply elem_of_map_to_list.
Qed.

Lemma sorted_keys_dom (m m' : gmap string any) : dom m = dom m' → sorted_keys m = sorted_keys m'.
Proof.
  intros Hd. apply sort_strings_unique, NoDup_Permutation; [apply NoDup_fst_map_to_list..|].
  intros k. rewrite !list_elem_of_fmap.
  assert (Hk : ∀ m : gmap string any, (∃ y : string * any, k = y.1 ∧ y ∈ map_to_list m) ↔ k ∈ dom m).
  { intros m0. rewrite elem_of_dom. split.
    - intros ([k' v] & -> & Hv%elem_of_map_to_list). eauto.
    - intros [v Hv]. exists (k, v). split; [done|]. by apply elem_of_map_to_list. }
  by rewrite !Hk, Hd.
Qed.

(** Maps whose entries read the same. *)
Lemma readback_entries_ext (rb rb' : any → option tree) (m m' : gmap string any) t :
  dom m = dom m' →
  (∀ k v tv, m !! k = Some v → rb v = Some tv → ∃ v', m' !! k = Some v' ∧ rb' v' = Some tv) →
  readback_entries rb m = Some t → readback_entries rb' m' = Some t.
Proof.
  intros Hd Hm. unfold readback_entries. rewrite <- (sorted_keys_dom _ _ Hd).
  intros (kvs & Hk & ->)%fmap_Some. apply fmap_Some. exists kvs. split; [|done].
  eapply mapM_mono; [|exact Hk]. intros k [k' t'] _ (v & Hv & (t0 & E & [= <- <-])%bind_Some)%bind_Some.
  destruct (Hm _ _ _ Hv E) as (v' & Hv' & E'). by rewrite Hv'; simpl; rewrite E'.
Qed.

Lemma readback_entries_all rb m t k v :
  readback_entries rb m = Some t → m !! k = Some v → ∃ tv, rb v = Some tv.
Proof.
  intros (kvs & Hk & _)%fmap_Some Hv. apply mapM_Some_1 in Hk.
  assert (Hin : k ∈ sorted_keys m) by (apply elem_of_sorted_keys; eauto).
  apply list_elem_of_lookup in Hin as [i Hi]. destruct (Forall2_lookup_l _ _ _ _ _ Hk Hi) as ([k' tv] & _ & E).
  rewrite Hv in E. simpl in E. apply bind_Some in E as (tv' & E & _). eauto.
Qed.

Section clone.
Context `{GoLib} `{MapOrder}.

(** The two loops of [cloneJSONReflect], over a copy of the parts. *)
Definition clone_entries (cl : any → mem any) (m : gmap string any) : mem any :=
  kvs ⇐ mmap (λ kv : string * any, v ⇐ cl kv.2; mret' (kv.1, v)) (range m);
  l ⇐ new_map (list_to_map kvs);
  mret' (AMap (Some l)).
Definition clone_items {A} (cl : A → mem any) (l : list A) : mem any :=
  ws ⇐ mmap cl l; s ⇐ new_slice ws; mret' (AList s).

(** [cl] copies every value that reads back as a tree with [rb], into one that
    reads back with [rb']. *)
Variables (cl : any → mem any) (rb : any → option tree) (rb' : heap → any → option tree) (h0 : heap).
Hypothesis Hcl : ∀ h v t, extends h0 h → rb v = Some t →
  ∃ v' h', cl v h = Ret (v', h') ∧ copies (λ h'' w t, rb' h'' w = Some t) h v' h' t.

Lemma clone_entries_copies m t h :
  extends h0 h → readback_entries rb m = Some t →
  ∃ l h', clone_entries cl m h = Ret (AMap (Some l), h')
    ∧ copies (λ h'' l t, readback_map (rb' h'') h'' (Some l) = Some t) h l h' t.
Proof.
  intros Hh Hm.
  set (R := λ (kv : string * any) (kt : string * tree), kv.1 = kt.1 ∧ rb kv.2 = Some kt.2).
  set (Q := λ h'' (kv : string * any) (kt : string * tree), kv.1 = kt.1 ∧ rb' h'' kv.2 = Some kt.2).
  destruct (Forall2_choice R (range m)) as [ts Hts].
  { intros [k v] Hkv%elem_of_range. destruct (readback_entries_all _ _ _ _ _ Hm Hkv) as [tv Htv].
    by exists (k, tv). }
  assert (Hf : ∀ h x t, extends h0 h → R x t →
    ∃ y h', (v ⇐ cl x.2; mret' (x.1, v)) h = Ret (y, h') ∧ copies Q h y h' t).
  { intros h1 [k v] [k' tv] Hh1 [Hk Hv]. simpl in *. subst k'.
    destruct (Hcl h1 v tv Hh1 Hv) as (v' & h2 & E & Hx & Hr).
    exists (k, v'), h2. rewrite (mbind_step _ _ _ _ _ E). split; [done|]. split; [done|]. by split; [|apply Hr]. }
  destruct (mmap_copies _ R Q h0 _ _ Hf Hts h Hh) as (kvs & h1 & E1 & Hx1 & HQ).
  unfold clone_entries. rewrite (mbind_step _ _ _ _ _ E1). cbn [mbind' new_map go_bind fst snd].
  exists (fresh_map h1). eexists. split; [reflexivity|]. split; [etrans; [exact Hx1|apply extends_new_map]|].
  intros h'' Hag. assert (Hl : h_maps h'' !! fresh_map h1 = Some (list_to_map kvs)).
  { rewrite <- (maps_set (fresh_map h1) (list_to_map kvs) h1). apply Hag; [|by rewrite maps_set].
    eapply lookup_weaken_None; [apply fresh_map_None|apply Hx1]. }
  assert (HF : Forall2 (Q h'') kvs ts).
  { apply HQ. eapply (agree_new_mid h h h1); [done|done|apply extends_new_map|exact Hag]. }
  cbn [readback_map]. rewrite Hl. simpl.
  assert (Hkeys : kvs.*1 = (range m).*1).
  { clear -HF Hts. revert kvs HF. induction Hts as [|[k v] [k' t] l ts [Hk _] Hl IH]; intros kvs HF.
    - by apply Forall2_nil_inv_r in HF as ->.
    - apply Forall2_cons_inv_r in HF as ([k2 v2] & kvs' & [Hk' _] & HF & ->). simpl in Hk, Hk'. rewrite !fmap_cons, (IH _ HF). simpl. congruence. }
  assert (Hnd : NoDup kvs.*1) by (rewrite Hkeys; apply range_NoDup).
  eapply readback_entries_ext; [| |exact Hm].
  - rewrite dom_list_to_map_L, Hkeys. apply set_eq. intros k. rewrite elem_of_list_to_set, elem_of_dom.
    symmetry. apply elem_of_range_keys.
  - intros k v tv Hv Htv. apply elem_of_range, list_elem_of_lookup in Hv as [i Hi].
    destruct (Forall2_lookup_l _ _ _ _ _ Hts Hi) as ([k1 t1] & Hi1 & Hk1 & Ht1). simpl in *. subst k1.
    destruct (Forall2_lookup_r _ _ _ _ _ HF Hi1) as ([k2 v2] & Hi2 & Hk2 & Hv2). simpl in *. subst k2.
    exists v2. split; [|congruence]. apply elem_of_list_to_map_1; [done|]. by eapply list_elem_of_lookup_2.
Qed.

Lemma clone_items_copies {A} (f : A → mem any) (R : A → tree → Prop) l ts h :
  (∀ h v t, extends h0 h → R v t → ∃ v' h', f v h = Ret (v', h') ∧ copies (λ h'' w t, rb' h'' w = Some t) h v' h' t) →
  extends h0 h → Forall2 R l ts →
  ∃ s h', clone_items f l h = Ret (AList (Some s), h')
    ∧ copies (λ h'' s t, is_Some (h_arrs h'' !! s_arr s) ∧ TList <$> mapM (rb' h'') (elems h'' (Some s)) = Some t) h s h' (TList ts).
Proof.
  intros Hf Hh Hl.
  destruct (mmap_copies f R (λ h'' w t, rb' h'' w = Some t) h0 _ _ Hf Hl h Hh) as (ws & h1 & E1 & Hx1 & HQ).
  unfold clone_items. rewrite (mbind_step _ _ _ _ _ E1). cbn [mbind' new_slice new_slice_cap go_bind fst snd].
  eexists _, _. split; [reflexivity|]. split; [etrans; [exact Hx1|apply extends_new_arr]|].
  intros h'' Hag. simpl.
  assert (Ha : h_arrs h'' !! fresh_arr h1 = Some (ws ++ replicate (length ws - length ws) ANil)).
  { rewrite (proj2 Hag); simpl; rewrite ?lookup_insert_eq; [done| |eauto].
    eapply lookup_weaken_None; [apply fresh_arr_None|apply Hx1]. }
  split; [eauto|]. unfold cells_at. rewrite Ha, Nat.sub_diag. cbn [default replicate drop].
  rewrite app_nil_r, drop_0, take_ge by done. apply fmap_Some. exists ts. split; [|done].
  apply mapM_Some_2. apply HQ. eapply (agree_new_mid h h h1); [done|done|apply extends_new_arr|exact Hag].
Qed.
End clone.

Section clone_values.
Context `{GoLib} `{MapOrder}.

Lemma copies_here {B T} (Q : heap → B → T → Prop) h y t : (∀ h'', Q h'' y t) → copies Q h y h t.
Proof. intros HQ. split; [done|auto]. Qed.

(** The maps of a slice of maps. *)
Definition clone_map (n : nat) (m : option loc) : mem any :=
  match m with
  | None => mret' (AMap None)
  | Some _ => h ⇐ mget; clone_entries (cloneJSONReflect n) (map_at h m)
  end.

Lemma clone_copies n : ∀ h v t, readback n h v = Some t →
  ∃ v' h', cloneJSONReflect n v h = Ret (v', h') ∧ copies (λ h'' w t, readback (2 * n) h'' w = Some t) h v' h' t.
Proof.
  induction n as [|n IH]; intros h v t Hv; [done|].
  replace (2 * S n) with (S (S (2 * n))) by lia.
  assert (Hcl : ∀ h1 v t, extends h h1 → readback n h v = Some t →
    ∃ v' h', cloneJSONReflect n v h1 = Ret (v', h') ∧ copies (λ h'' w t, readback (2 * n) h'' w = Some t) h1 v' h' t).
  { intros h1 w tw Hh Hw. apply IH. by eapply readback_mono. }
  assert (Hmap : ∀ h1 m t, extends h h1 → readback_map (readback n h) h m = Some t →
    ∃ v' h', clone_map n m h1 = Ret (v', h') ∧ copies (λ h'' w t, readback (S (2 * n)) h'' w = Some t) h1 v' h' t).
  { intros h1 [l|] tm Hh Hm; [|exists (AMap None), h1; split; [done|]; by apply copies_here].
    simpl in Hm. apply bind_Some in Hm as (m & Hl & Hm).
    unfold clone_map. cbn [mbind' mget go_bind fst snd].
    rewrite (map_at_Some h1 l m) by (by eapply lookup_weaken, Hh).
    destruct (clone_entries_copies _ _ _ h Hcl m tm h1 Hh Hm) as (l' & h' & E & Hx & Hr).
    exists (AMap (Some l')), h'. split; [exact E|]. split; [done|]. intros h'' Hag. exact (Hr h'' Hag). }
  destruct v as [| | | | | | | |strs|[s|]|m|maps|ot ox]; cbn [readback] in Hv;
    try (injection Hv as <-; eexists _, h; split; [reflexivity|]; by apply copies_here).
  - injection Hv as <-.
    destruct (clone_items_copies (λ h'' w, readback (S (2 * n)) h'' w) h (λ x, mret' (AStr x)) (λ x t, t = TLeaf (AStr x)) strs
      (map (λ x, TLeaf (AStr x)) strs) h) as (s & h' & E & Hx & Hr); [|done| |].
    + intros h1 x ? _ ->. eexists _, _. split; [reflexivity|]. by apply copies_here.
    + apply Forall2_fmap_r. induction strs; by constructor.
    + exists (AList (Some s)), h'. split; [|split; [done|intros h'' Hag]].
      * rewrite <- E. cbn [cloneJSONReflect]. unfold clone_items, mbind'. by rewrite mmap_id_map.
      * destruct (Hr h'' Hag) as [[c Hc] Hr']. cbn [readback]. rewrite Hc. simpl. exact Hr'.
  - apply bind_Some in Hv as (cells & Hc & (ts & Hts & ->)%fmap_Some). apply mapM_Some_1 in Hts.
    destruct (clone_items_copies (λ h'' w, readback (2 * n) h'' w) h (cloneJSONReflect n) _ _ _ h Hcl (reflexivity h) Hts)
      as (s' & h' & E & Hx & Hr).
    exists (AList (Some s')), h'. split; [|split; [done|intros h'' Hag]].
    + rewrite <- E. cbn [cloneJSONReflect]. unfold clone_items, mbind', mget. cbn [go_bind fst snd]. by rewrite mmap_id_map.
    + destruct (Hr h'' Hag) as [[c Hc'] Hr']. apply (readback_mono (S (2 * n)) _ h''); [lia|done|].
      cbn [readback]. rewrite Hc'. exact Hr'.
  - destruct (Hmap h m t) as (v' & h' & E & Hx & Hr); [done|done|]. exists v', h'. split; [exact E|].
    split; [done|]. intros h'' Hag. apply (readback_mono (S (2 * n)) _ h''); [lia|done|]. by apply Hr.
  - apply fmap_Some in Hv as (ts & Hts & ->). apply mapM_Some_1 in Hts.
    destruct (clone_items_copies (λ h'' w, readback (S (2 * n)) h'' w) h (clone_map n) _ _ _ h Hmap (reflexivity h) Hts)
      as (s' & h' & E & Hx & Hr).
    exists (AList (Some s')), h'. split; [|split; [done|intros h'' Hag]].
    + rewrite <- E. cbn [cloneJSONReflect]. unfold clone_items, mbind'. by rewrite <- (mmap_id_map (clone_map n)).
    + destruct (Hr h'' Hag) as [[c Hc'] Hr']. cbn [readback]. rewrite Hc'. exact Hr'.
  - destruct (json_other ot ox) eqn:Ej; [done|]. injection Hv as <-. exists (AOther ot ox), h.
    cbn [cloneJSONReflect]. rewrite Ej. split; [done|]. apply copies_here. intros h''. cbn [readback]. by rewrite Ej.
Qed.
End clone_values.

(** ** The depth of a value without cycles *)

Definition cell : Type := (loc * string) + (loc * nat).
Definition cell_val (h : heap) (c : cell) : option any :=
  match c with
  | inl (l, k) => h_maps h !! l ≫= (.!! k)
  | inr (l, i) => h_arrs h !! l ≫= (.!! i)
  end.
Definition all_cells (h : heap) : list cell :=
  (map_to_list (h_maps h) ≫= λ lm, (λ kv : string * any, inl (lm.1, kv.1)) <$> map_to_list lm.2)
  ++ (map_to_list (h_arrs h) ≫= λ la, (λ i, inr (la.1, i)) <$> seq 0 (length la.2)).

Lemma length_bind_sum {A B} (f : A → list B) l : length (l ≫= f) = sum_list (map (length ∘ f) l).
Proof. induction l as [|x l IH]; [done|]. simpl. by rewrite length_app, <- IH. Qed.

Lemma length_all_cells h : length (all_cells h) = heap_cells h.
Proof.
  unfold all_cells, heap_cells. rewrite length_app, !length_bind_sum. f_equal; f_equal; apply map_ext; intros [l m]; simpl.
  - rewrite length_fmap. apply length_map_to_list.
  - by rewrite length_fmap, length_seq.
Qed.

Lemma all_cells_complete h c : is_Some (cell_val h c) → c ∈ all_cells h.
Proof.
  unfold all_cells. destruct c as [[l k]|[l i]]; simpl; intros [v (m & Hm & Hk)%bind_Some]; apply elem_of_app.
  - left. apply list_elem_of_bind. exists (l, m). split; [|by apply elem_of_map_to_list].
    apply list_elem_of_fmap. exists (k, v). split; [done|]. by apply elem_of_map_to_list.
  - right. apply list_elem_of_bind. exists (l, m). split; [|by apply elem_of_map_to_list].
    apply list_elem_of_fmap. exists i. split; [done|]. apply elem_of_seq. apply lookup_lt_Some in Hk. simpl. lia.
Qed.

Section depth.
Context `{GoLib}.
Variable h : heap.

(** [v] needs exactly [S n] levels. *)
Definition levels (n : nat) (v : any) : Prop := is_Some (readback (S n) h v) ∧ readback n h v = None.

Lemma mapM_is_Some_elem {A B} (f : A → option B) l x : is_Some (mapM f l) → x ∈ l → is_Some (f x).
Proof. intros Hl Hx. apply mapM_is_Some_1 in Hl. by eapply Forall_forall in Hl. Qed.

Lemma mapM_None_elem {A B} (f : A → option B) l : mapM f l = None → ∃ x, x ∈ l ∧ f x = None.
Proof.
  intros Hl. apply mapM_None_1, Exists_exists in Hl as (x & Hx & E). eauto.
Qed.

(** The entry of a map that needs the last level. *)
Lemma deep_entry n m :
  is_Some (readback_map (readback (S n) h) h m) → readback_map (readback n h) h m = None →
  ∃ c w, cell_val h c = Some w ∧ levels n w.
Proof.
  destruct m as [l|]; [|by intros ?]. simpl. intros [t (m & Hm & Ht)%bind_Some]. rewrite Hm. simpl.
  unfold readback_entries. intros E%fmap_None. apply mapM_None_elem in E as (k & Hk & E).
  apply elem_of_sorted_keys in Hk as [v Hv]. rewrite Hv in E. simpl in E.
  exists (inl (l, k)), v. split; [simpl; by rewrite Hm|].
  destruct (readback_entries_all _ _ _ _ _ Ht Hv) as [tv Htv]. split; [eauto|].
  by destruct (readback n h v).
Qed.

Lemma deep_cell n v : levels (S n) v → ∃ c w, cell_val h c = Some w ∧ levels n w.
Proof.
  intros [Hs Hn]. destruct v as [| | | | | | | |strs|[s|]|m|maps|ot ox]; cbn [readback] in *; try done.
  - destruct (h_arrs h !! s_arr s) as [cells|] eqn:Hc; [|by destruct Hs]. simpl in *.
    apply fmap_is_Some in Hs. apply fmap_None, mapM_None_elem in Hn as (w & Hw & E).
    pose proof (mapM_is_Some_elem _ _ _ Hs Hw) as Hw'.
    apply list_elem_of_lookup in Hw as [i Hi]. unfold elems, cells_at in Hi. rewrite Hc in Hi. simpl in Hi.
    apply lookup_take_Some in Hi as [Hi _]. rewrite lookup_drop in Hi.
    exists (inr (s_arr s, s_off s + i)), w. split; [simpl; by rewrite Hc|]. by split.
  - by eapply deep_entry.
  - apply fmap_is_Some in Hs. apply fmap_None, mapM_None_elem in Hn as (w & Hw & E).
    pose proof (mapM_is_Some_elem _ _ _ Hs Hw) as Hw'. by eapply deep_entry.
  - by destruct (json_other ot ox), Hs.
Qed.

Lemma levels_unique n m v : levels n v → levels m v → n = m.
Proof.
  assert (Hlt : ∀ a b, a < b → levels a v → levels b v → False).
  { intros a b Hab [[t Ha] _] [_ Hb]. rewrite (readback_mono (S a) b h h v t) in Hb; [done|lia|done|done]. }
  intros Hn Hm. destruct (lt_eq_lt_dec n m) as [[?|?]|?]; [|done|]; exfalso; eauto.
Qed.

(** A value of [n] levels goes through [n] different cells. *)
Lemma levels_chain n : ∀ v, levels n v →
  ∃ cs, length cs = n ∧ NoDup cs ∧ ∀ c, c ∈ cs → ∃ w m, cell_val h c = Some w ∧ levels m w ∧ m < n.
Proof.
  induction n as [|n IH]; intros v Hv.
  - exists []. split; [done|]. split; [constructor|]. by intros c ?%elem_of_nil.
  - destruct (deep_cell n v Hv) as (c & w & Hc & Hw). destruct (IH w Hw) as (cs & Hlen & Hnd & Hcs).
    exists (c :: cs). split; [simpl; by f_equal|]. split.
    + constructor; [|done]. intros (w' & m & Hc' & Hw' & Hm)%Hcs. simplify_eq.
      pose proof (levels_unique _ _ _ Hw Hw'). lia.
    + intros c' [->|(w' & m & ? & ? & ?)%Hcs]%elem_of_cons; [by exists w, n; eauto|]. exists w', m. split_and!; auto with lia.
Qed.

Lemma levels_bound n v : levels n v → n ≤ heap_cells h.
Proof.
  intros (cs & <- & Hnd & Hcs)%levels_chain. rewrite <- length_all_cells. apply submseteq_length.
  apply NoDup_submseteq; [done|]. intros c (w & m & Hc & _)%Hcs. apply all_cells_complete. eauto.
Qed.

(** The depth the code allows is enough for every value that has a tree. *)
Lemma readback_bound n v t : readback n h v = Some t → readback (2 + heap_cells h) h v = Some t.
Proof.
  revert t. induction n as [|n IH]; intros t Hn; [done|].
  destruct (readback n h v) as [t'|] eqn:E.
  - rewrite <- Hn. rewrite (IH t' eq_refl). symmetry. eapply readback_mono; [|done|exact E]. lia.
  - assert (n ≤ heap_cells h) by (apply (levels_bound n v); split; eauto).
    eapply readback_mono; [|done|exact Hn]. lia.
Qed.
End depth.

(** ** Values that read as a tree *)

Section reads.
Context `{GoLib} `{MapOrder}.

Definition reads (h : heap) (v : any) (t : tree) : Prop := ∃ n, readback n h v = Some t.

Lemma reads_extends h h' v t : extends h h' → reads h v t → reads h' v t.
Proof. intros Hh [n Hn]. exists n. by eapply readback_mono. Qed.

Lemma copies_reads_extends (h h' h'' : heap) v t :
  extends h' h'' → copies reads h v h' t → copies reads h v h'' t.
Proof.
  intros He [Hx HQ]. split; [by etrans|]. intros h3 Hag. apply HQ. by eapply (agree_new_mid h h h' h'').
Qed.

Lemma cloneJSONValue_copies h v t : reads h v t → ∃ v' h', cloneJSONValue v h = Ret (v', h') ∧ copies reads h v' h' t.
Proof.
  intros [n Hn]. apply readback_bound in Hn. destruct (clone_copies _ _ _ _ Hn) as (v' & h' & E & Hx & HQ).
  exists v', h'. split; [exact E|]. split; [done|]. intros h'' Hag. eexists. by apply HQ.
Qed.

(** What reads as a map is a map. *)
Lemma reads_map h h' m v t : reads h (AMap m) t → reads h' v t → ∃ m', v = AMap m'.
Proof.
  intros [[|n] Hn] [[|n'] Hn']; try done. cbn [readback] in *.
  destruct m as [l|]; simpl in Hn.
  - apply bind_Some in Hn as (m & _ & (kvs & _ & ->)%fmap_Some).
    destruct v as [| | | | | | | |strs|[s|]|m'|maps|ot ox]; try done; [|by eauto| |by destruct (json_other ot ox)].
    + by apply bind_Some in Hn' as (? & _ & (? & _ & [=])%fmap_Some).
    + by apply fmap_Some in Hn' as (? & _ & [=]).
  - injection Hn as <-. destruct v as [| | | | | | | |strs|[s|]|m'|maps|ot ox]; try done; [|by eauto| |by destruct (json_other ot ox)].
    + by apply bind_Some in Hn' as (? & _ & (? & _ & [=])%fmap_Some).
    + by apply fmap_Some in Hn' as (? & _ & [=]).
Qed.

Definition reads_maps (h : heap) : list (option loc) → list tree → Prop := Forall2 (λ m t, reads h (AMap m) t).

Lemma cloneMapSlice_copies h items ts :
  reads_maps h items ts → ∃ copied h', cloneMapSlice items h = Ret (copied, h') ∧ copies reads_maps h copied h' ts.
Proof.
  intros Hts. apply (mmap_copies _ (λ m t, reads h (AMap m) t) (λ h'' m t, reads h'' (AMap m) t) h); [|done|done].
  intros h1 m t Hh Hm. destruct (cloneJSONValue_copies h1 (AMap m) t) as (v & h2 & E & Hx & HQ); [by eapply reads_extends|].
  destruct (reads_map h h2 m v t) as [m' ->]; [done| |].
  { apply HQ. by split. }
  exists m', h2. rewrite (mbind_step _ _ _ _ _ E). by split.
Qed.

(** A value that reads as a tree has a text. *)
Lemma go_mapM_total {A B} (f : A → go B) l : (∀ x, x ∈ l → ∃ y, f x = Ret y) → ∃ ys, go_mapM f l = Ret ys.
Proof.
  induction l as [|x l IH]; intros Hf; [by exists []|].
  destruct (Hf x) as [y E]; [by left|]. destruct IH as [ys E']; [intros; apply Hf; by right|].
  exists (y :: ys). simpl. by rewrite E, E'.
Qed.

Lemma sprint_depth_total n : ∀ h v t, readback n h v = Some t → ∃ s, sprint_depth n h v = Ret s.
Proof.
  induction n as [|n IH]; intros h v t Hv; [done|].
  assert (Hmap : ∀ m t, readback_map (readback n h) h m = Some t → ∃ ks, go_mapM
    (λ k, t <-! sprint_depth n h (get_key h m k); Ret (k +:+ ":" +:+ t)) (sorted_keys (map_at h m)) = Ret ks).
  { intros m tm Hm. apply go_mapM_total. intros k Hk%elem_of_sorted_keys.
    destruct m as [l|]; [|by destruct Hk]. simpl in Hm. apply bind_Some in Hm as (m & Hl & Hm).
    rewrite (map_at_Some _ _ _ Hl) in Hk. destruct Hk as [w Hw].
    destruct (readback_entries_all _ _ _ _ _ Hm Hw) as [tw Htw]. destruct (IH _ _ _ Htw) as [s Es].
    unfold get_key. rewrite (map_at_Some _ _ _ Hl), Hw. simpl. rewrite Es. simpl. eauto. }
  destruct v as [| | | | | | | |strs|[s|]|m|maps|ot ox]; cbn [readback sprint_depth] in *; eauto.
  - apply bind_Some in Hv as (cells & _ & (ts & Hts & _)%fmap_Some).
    destruct (go_mapM_total (sprint_depth n h) (elems h (Some s))) as [ys ->]; [|simpl; eauto].
    intros w Hw. destruct (mapM_is_Some_elem _ _ _ (mk_is_Some _ _ Hts) Hw) as [tw Htw]. eauto.
  - destruct (Hmap _ _ Hv) as [ks ->]. simpl. eauto.
  - apply fmap_Some in Hv as (ts & Hts & _).
    match goal with |- ∃ _, go_bind (go_mapM ?f _) _ = _ => destruct (go_mapM_total f maps) as [ys ->]; [|simpl; eauto] end.
    intros m Hm. destruct (mapM_is_Some_elem _ _ _ (mk_is_Some _ _ Hts) Hm) as [tw Htw].
    destruct (Hmap _ _ Htw) as [ks ->]. simpl. eauto.
Qed.

Lemma sprint_total h v t : reads h v t → ∃ s, sprint h v = Ret s.
Proof. intros [n Hn]. eapply sprint_depth_total. by apply readback_bound in Hn. Qed.
End reads.
