(* ===== verification/CanvasTemplate.v ===== *)
(** * Variable references in templates (internal/agent/runtime/template.go, template_jinja.go)

    Regular expressions as data, with the leftmost-first search of Go's [regexp]; the
    expression of references and the text cut at its matches; then the
    substitution of references by the values of the state. *)

From S2P Require Import Prelude GoValue TitleLevels StateMap AgentValue CanvasState AgentLemmas.

Open Scope go_scope.

(** ** The pattern *)

Notation chars := (list Ascii.ascii).
Definition text_of (l : chars) : string := String.string_of_list_ascii l.
Definition chars_of (s : string) : chars := String.list_ascii_of_string s.

Inductive regex :=
| RClass (p : Ascii.ascii → bool)        (* one byte of a class *)
| RWord (w : chars)                      (* a literal *)
| RPlus (p : Ascii.ascii → bool)         (* one or more bytes of a class *)
| RStar (p : Ascii.ascii → bool)
| RSeq (r1 r2 : regex)
| RAlt (r1 r2 : regex)
| RGroup (r : regex)                     (* the capture group *)
| RWordEnd.                              (* [\b] after a letter, a digit or an underscore *)

(** The texts of an expression without groups and boundaries. *)
Fixpoint lang (r : regex) (w : chars) : Prop :=
  match r with
  | RClass p => ∃ c, w = [c] ∧ p c = true
  | RWord w' => w = w'
  | RPlus p => w ≠ [] ∧ Forall (λ c, p c = true) w
  | RStar p => Forall (λ c, p c = true) w
  | RSeq r1 r2 => ∃ w1 w2, w = w1 ++ w2 ∧ lang r1 w1 ∧ lang r2 w2
  | RAlt r1 r2 => lang r1 w ∨ lang r2 w
  | RGroup r => lang r w
  | RWordEnd => w = []
  end.

Definition is_char (n : N) (c : Ascii.ascii) : bool := bool_decide (Ascii.N_of_ascii c = n).
Definition open_brace : Ascii.ascii → bool := is_char 123.
Definition close_brace : Ascii.ascii → bool := is_char 125.
(** [\s]: tab, newline, form feed, carriage return, space. *)
Definition space_char (c : Ascii.ascii) : bool := is_char 9 c || is_char 10 c || is_char 12 c || is_char 13 c || is_char 32 c.
Definition alnum (c : Ascii.ascii) : bool := byte_in 48 57 c || byte_in 65 90 c || byte_in 97 122 c.
Definition cpn_char (c : Ascii.ascii) : bool := alnum c || is_char 58 c || is_char 95 c.
Definition param_char (c : Ascii.ascii) : bool := alnum c || is_char 95 c || is_char 46 c || is_char 45 c.
Definition path_char (c : Ascii.ascii) : bool := alnum c || is_char 95 c || is_char 46 c.

Definition word_char (c : Ascii.ascii) : bool := alnum c || is_char 95 c.

Definition re_component : regex := RSeq (RPlus cpn_char) (RSeq (RClass (is_char 64)) (RPlus param_char)).
Definition re_namespace (ns : string) : regex := RSeq (RWord (chars_of ns)) (RPlus path_char).
(** What is captured. *)
Definition re_ref : regex :=
  RAlt re_component (RAlt (re_namespace "sys.") (RAlt (re_namespace "env.")
    (RAlt (RWord (chars_of "item")) (RWord (chars_of "index"))))).

(* internal/agent/runtime/template.go:46-46 VarRefPattern *)
Definition VarRefPattern : regex :=
  RSeq (RPlus open_brace) (RSeq (RStar space_char)
    (RSeq (RGroup re_ref) (RSeq (RStar space_char) (RPlus close_brace)))).

(** ** Matching

    The documented choice of Go's [regexp]: of the matches that begin at a place, the
    one that a backtracking search finds first, which tries the alternatives in
    their order and repeats as often as it can. *)

Section matching.
Context {A : Type}.

(** As many bytes of a class as the continuation allows. *)
Fixpoint re_greedy (p : Ascii.ascii → bool) (l : chars) (k : chars → option A) : option A :=
  match l with
  | c :: l' => if p c then match re_greedy p l' k with Some r => Some r | None => k l end else k l
  | [] => k []
  end.

(** The search with the text of the group so far; the continuation gets the group and
    the text after the match. *)
Fixpoint re_run (r : regex) (group : chars) (l : chars) (k : chars → chars → option A) : option A :=
  match r with
  | RClass p => match l with c :: l' => if p c then k group l' else None | [] => None end
  | RWord w => l' ← Prelude.strip_prefix w l; k group l'
  | RPlus p => match l with c :: l' => if p c then re_greedy p l' (k group) else None | [] => None end
  | RStar p => re_greedy p l (k group)
  | RSeq r1 r2 => re_run r1 group l (λ group l, re_run r2 group l k)
  | RAlt r1 r2 => match re_run r1 group l k with Some x => Some x | None => re_run r2 group l k end
  | RGroup r => re_run r group l (λ _ l', k (take (length l - length l') l) l')
  | RWordEnd => match l with c :: _ => if word_char c then None else k group l | [] => k group l end
  end.
End matching.

(** The match that begins here: its group, and what follows it. *)
Definition match_at (r : regex) (l : chars) : option (chars * chars) := re_run r [] l (λ group rest, Some (group, rest)).
Definition match_here : chars → option (chars * chars) := match_at VarRefPattern.

(** The text cut into what is between the matches and the references. *)
Inductive piece := Lit (c : Ascii.ascii) | Ref (ref : string).
Fixpoint pieces (fuel : nat) (l : chars) : list piece :=
  match fuel with
  | O => []
  | S fuel =>
      match l with
      | [] => []
      | c :: l' => match match_here l with
                   | Some (ref, rest) => Ref (text_of ref) :: pieces fuel rest
                   | None => Lit c :: pieces fuel l'
                   end
      end
  end.
Definition find_all (s : string) : list piece := pieces (S (String.length s)) (chars_of s).
Definition refs_of (ps : list piece) : list string := omap (λ p, match p with Ref r => Some r | Lit _ => None end) ps.
(** [VarRefPattern.MatchString]. *)
Definition has_ref (s : string) : bool := match refs_of (find_all s) with [] => false | _ => true end.

Example find_all_ex : refs_of (find_all "a {{ llm:0@out.x }} {sys.query}} {{ item } {{bad}} {index}{{x@y }") = ["llm:0@out.x"; "sys.query"; "item"; "index"; "x@y"].
Proof. vm_compute. reflexivity. Qed.
Example backtracking_ex :
  map (λ s, prod_map text_of text_of <$> match_at (RSeq (RPlus alnum) (RSeq (RGroup (RAlt (RWord (chars_of "b")) (RPlus alnum))) RWordEnd)) (chars_of s))
    ["aab c"; "b"; "abc."; "ab_c"] = [Some ("b", " c"); None; Some ("c", "."); None].
Proof. vm_compute. reflexivity. Qed.

Definition dedup_first (l : list string) : list string :=
  foldl (λ out r, if decide (r ∈ out) then out else out ++ [r]) [] l.
(* internal/agent/runtime/template.go:53-69 ExtractRefs *)
Definition ExtractRefs (s : string) : list string := dedup_first (refs_of (find_all s)).

(** ** Resolution *)

Inductive template_error := UnresolvedReference (ref : string) | ResolveError (ref : string) (err : var_error).

Section resolve.
Context `{GoLib}.

(** The replacement of one match, and the first error so far. *)
(* internal/agent/runtime/template.go:87-109 ResolveTemplate(part) *)
Definition resolve_piece (state : CanvasState) (acc : string * option template_error) (p : piece)
    : mem (string * option template_error) :=
  let '(out, firstErr) := acc in
  let keep e := match firstErr with Some e' => Some e' | None => Some e end in
  match p with
  | Lit c => mret' (out +:+ String c "", firstErr)
  | Ref ref =>
      r ⇐ GetVar state ref;
      match r with
      | inl err => mret' (out, keep (ResolveError ref err))
      | inr ANil => mret' (out, keep (UnresolvedReference ref))
      | inr v => t ⇐ mread (λ h, sprint h v); mret' (out +:+ t, firstErr)
      end
  end.
(* internal/agent/runtime/template.go:82-111 ResolveTemplate *)
Definition ResolveTemplate (s : string) (state : CanvasState) : mem (string * option template_error) :=
  if has_ref s then mfold (resolve_piece state) (find_all s) ("", None) else mret' (s, None).

(** The JSON text of a value without HTML escapes, when it can be encoded. *)
Variable json_text : tree → option string.

(* internal/agent/runtime/template.go:144-156 stringifyDisplayValue *)
Definition stringifyDisplayValue (value : any) : mem string :=
  match value with
  | AStr text => mret' text
  | _ => h ⇐ mget;
         match readback (2 + heap_cells h) h value ≫= json_text with
         | Some text => mret' text
         | None => mread (λ h, sprint h value)
         end
  end.

(* internal/agent/runtime/template.go:127-137 ResolveTemplateForDisplay(part) *)
Definition display_piece (state : CanvasState) (out : string) (p : piece) : mem string :=
  match p with
  | Lit c => mret' (out +:+ String c "")
  | Ref ref =>
      r ⇐ GetVar state ref;
      match r with
      | inl _ | inr ANil => mret' out
      | inr v => t ⇐ stringifyDisplayValue v; mret' (out +:+ t)
      end
  end.
(* internal/agent/runtime/template.go:123-138 ResolveTemplateForDisplay *)
Definition ResolveTemplateForDisplay (s : string) (state : CanvasState) : mem string :=
  if has_ref s then mfold (display_piece state) (find_all s) "" else mret' s.

(** ** Jinja templates *)

(* internal/agent/runtime/template_jinja.go:51-67 ContainsJinjaSyntax *)
Definition ContainsJinjaSyntax (s : string) : bool :=
  contains_str s "{%" || contains_str s "{#" || contains_str s "|".

(** The template engine: the context it is given, and its result. *)
Variable gonja : heap → gmap string any → string → option string.
Context `{MapOrder}.

(* internal/agent/runtime/template_jinja.go:108-114 stateToGonjaContext *)
Definition stateToGonjaContext (state : CanvasState) : mem (gmap string any) :=
  snapshot ⇐ Snapshot state; mret' (AMap <$> snapshot).

(* internal/agent/runtime/template_jinja.go:86-100 ResolveTemplateJinja *)
Definition ResolveTemplateJinja (s : string) (state : CanvasState) : mem (option string) :=
  ctx ⇐ stateToGonjaContext state; h ⇐ mget; mret' (gonja h ctx s).

(** [None] is an error. *)
(* internal/agent/runtime/template_jinja.go:151-156 ResolveTemplateAuto *)
Definition ResolveTemplateAuto (s : string) (state : CanvasState) : mem (option string) :=
  if ContainsJinjaSyntax s then ResolveTemplateJinja s state
  else '(out, err) ⇐ ResolveTemplate s state; mret' (match err with None => Some out | Some _ => None end).
End resolve.
