(* ===== verification/NodeSwitch.v ===== *)
(** * The Switch component (internal/agent/component/switch.go) and its branch
    (internal/agent/canvas/multibranch.go)

    Parameters and inputs of a component are maps of values of the heap. *)

From S2P Require Import Prelude GoValue TitleLevels ChunkDoc TokenSplit Reranker StateMap AgentValue.
From S2P Require Import CanvasState CanvasTemplate.
From stdpp Require Import pretty.

Open Scope go_scope.

Notation params := (gmap string any).
(** [m[k]] in a parameter map. *)
Definition param (m : params) (k : string) : any := default ANil (m !! k).

Inductive switch_error :=
| NonNumericOperands (op : string)
| UnknownOperator (op : string)
| ClauseNotAMap (i : nat)
| ClauseError (i : nat) (err : switch_error)
| ConditionError (i : nat) (err : switch_error).

Section switch.
Context `{GoLib}.

(* internal/agent/component/switch.go:495-514 numericize *)
Definition numericize (v : any) : option float64 :=
  match v with
  | AInt x | AInt64 x => Some (f64_of_int x)
  | AFloat x | AFloat32 x => Some x
  | AStr x => parse_float x
  | _ => None
  end.

(* internal/agent/component/switch.go:518-530 isEmptyValue *)
Definition isEmptyValue (h : heap) (v : any) : bool :=
  match v with
  | ANil => true
  | AStr x => bool_decide (x = "")
  | AList x => bool_decide (slice_len x = 0)
  | AMap x => bool_decide (size (map_at h x) = 0)
  | _ => false
  end.

(* internal/agent/component/switch.go:482-490 indexOf *)
Fixpoint indexOf (s sub : string) (i : Z) : Z :=
  if has_prefix s sub then i
  else match s with
       | EmptyString => -1
       | String _ s' => indexOf s' sub (i + 1)
       end.
(* internal/agent/component/switch.go:472-477 containsString *)
Definition containsString (haystack needle : string) : bool :=
  if decide (needle = "") then true else bool_decide (0 ≤ indexOf haystack needle 0)%Z.

(* internal/agent/component/switch.go:455-470 equalFoldValues *)
Definition equalFoldValues (a b : any) : mem bool :=
  if is_nil a || is_nil b then mret' (is_nil a && is_nil b) else
  as_ ⇐ mread (λ h, sprint h a);
  bs ⇐ mread (λ h, sprint h b);
  mret' match numericize (AStr as_), numericize (AStr bs) with
        | Some an, Some bn => f64_eqb an bn
        | _, _ => equal_fold as_ bs
        end.

(* internal/agent/component/switch.go:421-438 leftValue *)
Definition leftValue (left : string) (state : CanvasState) : mem any :=
  if decide (left = "") then mret' (AStr "")
  else if has_ref left then
    '(resolved, err) ⇐ ResolveTemplate left state;
    mret' (AStr (match err with Some _ => left | None => resolved end))
  else mret' (AStr left).

(** The operators on text, of both sides in lower case. *)
Definition string_operator (op ls rs : string) : option bool :=
  if decide (op = "contains") then Some (containsString ls rs)
  else if decide (op = "not contains") then Some (negb (containsString ls rs))
  else if decide (op = "start with") then Some (has_prefix ls rs)
  else if decide (op = "end with") then Some (has_suffix ls rs)
  else None.
Definition numeric_operator (op : string) (ln rn : float64) : bool :=
  if decide (op = ">") then f64_lt rn ln
  else if decide (op = "<") then f64_lt ln rn
  else if decide (op = ">=") then f64_le rn ln
  else f64_le ln rn.

(* internal/agent/component/switch.go:347-416 evaluateClause *)
Definition evaluateClause (clause : option loc) (state : CanvasState) : mem (switch_error + bool) :=
  h ⇐ mget;
  let left := str_of (get_key h clause "left") in
  let op := str_of (get_key h clause "op") in
  let op := if decide (op = "") then "==" else op in
  let right := get_key h clause "right" in
  lv ⇐ leftValue left state;
  h ⇐ mget;
  if decide (op = "empty") then mret' (inr (isEmptyValue h lv))
  else if decide (op = "not empty") then mret' (inr (negb (isEmptyValue h lv)))
  else if decide (op ∈ ["contains"; "not contains"; "start with"; "end with"]) then
    ls ⇐ mread (λ h, sprint h (if is_nil lv then AStr "" else lv));
    rs ⇐ mread (λ h, sprint h (if is_nil right then AStr "" else right));
    mret' (match string_operator op (to_lower ls) (to_lower rs) with
           | Some b => inr b
           | None => inl (UnknownOperator op)
           end)
  else if decide (op = "==") then b ⇐ equalFoldValues lv right; mret' (inr b)
  else if decide (op = "!=") then b ⇐ equalFoldValues lv right; mret' (inr (negb b))
  else if decide (op ∈ [">"; "<"; ">="; "<="]) then
    mret' (match numericize lv, numericize right with
           | Some ln, Some rn => inr (numeric_operator op ln rn)
           | _, _ => inl (NonNumericOperands op)
           end)
  else mret' (inl (UnknownOperator op)).

(* internal/agent/component/switch.go:239-255 legacySwitchLeft *)
Definition legacySwitchLeft (h : heap) (item : option loc) : string :=
  let left := str_of (get_key h item "left") in
  if decide (left ≠ "") then left else
  let cpnRef := str_of (get_key h item "cpn_id") in
  if decide (cpnRef = "") then ""
  else if has_ref cpnRef || contains_str cpnRef "@" || has_prefix cpnRef "sys." || has_prefix cpnRef "env."
  then "{{" +:+ cpnRef +:+ "}}"
  else cpnRef.

(* internal/agent/component/switch.go:257-266 normalizeLegacySwitchOperator *)
Definition normalizeLegacySwitchOperator (op : string) : string :=
  if decide (op = "" ∨ op = "=") then "==" else if decide (op = "<>") then "!=" else op.

(* internal/agent/component/switch.go:205-237 normalizeLegacyGroup *)
Definition normalizeLegacyGroup (group : option loc) : mem (string * list any) :=
  h ⇐ mget;
  match get_key h group "clauses" with
  | AList clauses => mret' (str_of (get_key h group "op"), elems h clauses)
  | _ =>
      let op := str_of (get_key h group "logical_operator") in
      let rawItems := match get_key h group "items" with AList l => elems h l | _ => [] end in
      clauses ⇐ mmap (λ item : loc,
        h ⇐ mget;
        let clause := {["left" := AStr (legacySwitchLeft h (Some item));
                        "op" := AStr (normalizeLegacySwitchOperator (str_of (get_key h (Some item) "operator")))]} in
        l ⇐ new_map (match map_at h (Some item) !! "value" with
                     | Some v => <["right" := v]> clause
                     | None => clause
                     end);
        mret' (AMap (Some l))) (omap (λ v, match v with AMap m => m | _ => None end) rawItems);
      mret' (op, clauses)
  end.

(** The clauses in turn: an "or" stops at the first that holds, an "and" at the
    first that does not. *)
Fixpoint evaluate_clauses (op : string) (clauses : list any) (i : nat) (state : CanvasState) : mem (switch_error + bool) :=
  match clauses with
  | [] => mret' (inr (bool_decide (op = "and")))
  | AMap c :: clauses =>
      r ⇐ evaluateClause c state;
      match r with
      | inl err => mret' (inl (ClauseError i err))
      | inr matched =>
          if decide (op = "or" ∧ matched = true) then mret' (inr true)
          else if decide (op = "and" ∧ matched = false) then mret' (inr false)
          else evaluate_clauses op clauses (S i) state
      end
  | _ :: _ => mret' (inl (ClauseNotAMap i))
  end.

(* internal/agent/component/switch.go:169-203 evaluateGroup *)
Definition evaluateGroup (group : option loc) (state : CanvasState) : mem (switch_error + bool) :=
  '(op, clauses) ⇐ normalizeLegacyGroup group;
  let op := if decide (op = "") then "and" else op in
  match clauses with
  | [] => mret' (inr false)
  | _ => evaluate_clauses op clauses 0 state
  end.

Definition nonempty_strings (l : list any) : list string :=
  omap (λ v, match v with AStr s => if decide (s = "") then None else Some s | _ => None end) l.

(* internal/agent/component/switch.go:273-301 switchGroupTargets *)
Definition switchGroupTargets (h : heap) (group : option loc) : list string :=
  match get_key h group "to" with
  | AStr next => if decide (next = "") then [] else [next]
  | AList raw => nonempty_strings (elems h raw)
  | AStrs raw => filter (λ s, s ≠ "") raw
  | _ => []
  end.

(* internal/agent/component/switch.go:314-333 legacySwitchDefaultTarget *)
Definition legacySwitchDefaultTarget (h : heap) (merged : params) : string :=
  default "" (head match param merged "end_cpn_ids" with
                   | AList raw => nonempty_strings (elems h raw)
                   | AStrs raw => filter (λ s, s ≠ "") raw
                   | _ => []
                   end).

(** The targets of the first group that matches; [None] when none does. *)
(* internal/agent/component/switch.go:104-131 SwitchComponent.Invoke(part) *)
Fixpoint first_group (groups : list any) (i : nat) (state : CanvasState) : mem (switch_error + option (list string)) :=
  match groups with
  | [] => mret' (inr None)
  | AMap group :: groups =>
      r ⇐ evaluateGroup group state;
      match r with
      | inl evalErr => mret' (inl (ConditionError i evalErr))
      | inr false => first_group groups (S i) state
      | inr true =>
          h ⇐ mget;
          mret' (inr (Some match switchGroupTargets h group with
                           | [] => ["matched_" +:+ pretty i]
                           | targets => targets
                           end))
      end
  | _ :: groups => first_group groups (S i) state
  end.

(* internal/agent/component/switch.go:83-135 SwitchComponent.Invoke *)
Definition switch_Invoke (static : params) (state : CanvasState) (inputs : params) : mem (switch_error + params) :=
  let merged := inputs ∪ static in
  h ⇐ mget;
  let defaultNext := str_of (param merged "default") in
  let defaultNext := if decide (defaultNext = "") then legacySwitchDefaultTarget h merged else defaultNext in
  r ⇐ first_group (match param merged "conditions" with AList raw => elems h raw | _ => [] end) 0 state;
  match r with
  | inl err => mret' (inl err)
  | inr targets =>
      s ⇐ new_slice (map AStr (default [defaultNext] targets));
      mret' (inr {["_next" := AList s]})
  end.
End switch.

(** ** The branch over the children *)

(* internal/agent/canvas/multibranch.go:175-209 makeSwitchBranchCondition *)
Definition makeSwitchBranchCondition (endNodes : gset string) (h : heap) (out : params) : gset string :=
  match param out "_next" with
  | AStr v => if decide (v ≠ "" ∧ v ∈ endNodes) then {[v]} else ∅
  | AStrs v => filter (λ s, s ≠ "" ∧ s ∈ endNodes) (list_to_set v)
  | AList v => filter (λ s, s ≠ "" ∧ s ∈ endNodes) (list_to_set (omap as_string (elems h v)))
  | _ => ∅
  end.
