(* ===== verification/NodeAssign.v ===== *)
(** * The VariableAssigner component (internal/agent/component/variable_assigner.go)

    A component is built once and invoked on every visit of its node, so that its
    configuration is state: the list of assignments is a slice, of which the
    backing array is kept here with the length that the component sees. *)

From S2P Require Import Prelude GoValue TitleLevels ChunkDoc Tokenizer Reranker StateMap AgentValue.
From S2P Require Import CanvasState CanvasTemplate NodeSwitch.
From stdpp Require Import pretty.

Open Scope go_scope.

(** The backing array of [Variables] and how much of it is in use. *)
(* internal/agent/component/variable_assigner.go:54-56 variableAssignerParam *)
Record variableAssignerParam := { va_array : list (option loc); va_len : nat }.
Definition va_Variables (p : variableAssignerParam) : list (option loc) := take (va_len p) (va_array p).

Inductive param_error := ParamError (field reason : string).

(** Every item must be a map. *)
Fixpoint all_maps (field : string) (i : nat) (l : list any) : param_error + list (option loc) :=
  match l with
  | [] => inr []
  | AMap m :: l => match all_maps field (S i) l with inl err => inl err | inr ms => inr (m :: ms) end
  | _ :: _ => inl (ParamError (field +:+ "[" +:+ pretty i +:+ "]") "must be a map")
  end.

(* internal/agent/component/variable_assigner.go:61-93 variableAssignerParam.Update *)
Definition va_Update (h : heap) (conf : params) : param_error + variableAssignerParam :=
  let with_list l := match all_maps "variables" 0 l with
                     | inl err => inl err
                     | inr out => inr {| va_array := out; va_len := length out |}
                     end in
  match conf !! "variables" with
  | None => inr {| va_array := []; va_len := 0 |}
  | Some (AList l) => with_list (elems h l)
  | Some (AMaps l) => with_list (map AMap l)
  | Some _ => inl (ParamError "variables" "must be a list")
  end.

Inductive assign_error :=
| IncompleteAssignment (i : nat)
| GetVariableError (i : nat) (ref : string) (err : var_error)
| WriteVariableError (i : nat) (ref : string).

Section assign.
Context `{GoLib}.

Definition open_brace_byte : Ascii.ascii := Ascii.ascii_of_N 123.
Definition close_brace_byte : Ascii.ascii := Ascii.ascii_of_N 125.
(** One pair of braces around the text, and white space inside them. *)
Definition strip_braces (s : string) : option string :=
  match chars_of s with
  | c :: rest =>
      match last rest with
      | Some d => if decide (c = open_brace_byte ∧ d = close_brace_byte)
                  then Some (trim_space (text_of (take (length rest - 1) rest))) else None
      | None => None
      end
  | [] => None
  end.
(* internal/agent/component/variable_assigner.go:431-441 stripVarBraces *)
Definition stripVarBraces (s : string) : string :=
  let s := trim_space s in
  match strip_braces s with
  | None => s
  | Some s => match strip_braces s with None => s | Some s => s end
  end.

(* internal/agent/component/variable_assigner.go:448-460 resolveParamValue *)
Definition resolveParamValue (state : CanvasState) (param : any) : mem any :=
  match param with
  | AStr s =>
      if decide (s = "") then mret' param else
      r ⇐ GetVar state (stripVarBraces s);
      mret' (match r with inl _ | inr ANil => param | inr v => v end)
  | _ => mret' param
  end.

(* internal/agent/component/variable_assigner.go:470-486 goKind *)
Definition goKind (v : any) : string :=
  match v with
  | AInt _ | AInt64 _ | AInt32 _ => "int"
  | AFloat _ | AFloat32 _ => "float"
  | AStr _ => "string"
  | ABool _ => "bool"
  | AMap _ => "map"
  | AList _ => "list"
  | _ => "unknown"
  end.
(* internal/agent/component/variable_assigner.go:466-468 compatibleElemType *)
Definition compatibleElemType (a b : any) : bool := bool_decide (goKind a = goKind b).

(* internal/agent/component/variable_assigner.go:493-502 isNumberish *)
Definition isNumberish (v : any) : bool :=
  match v with
  | AInt _ | AInt32 _ | AInt64 _ | AFloat _ | AFloat32 _ => true
  | AOther t _ => bool_decide (t ∈ ["int8"; "int16"; "uint"; "uint8"; "uint16"; "uint32"; "uint64"])
  | _ => false
  end.
(* internal/agent/component/variable_assigner.go:506-520 toFloat64 *)
Definition toFloat64 (v : any) : float64 :=
  match v with
  | AInt x | AInt64 x | AInt32 x => f64_of_int x
  | AFloat x | AFloat32 x => x
  | _ => f64_0
  end.

(* internal/agent/component/variable_assigner.go:253-268 operate(part) *)
Definition clear_value (oldVal : any) : mem any :=
  match oldVal with
  | AList _ => s ⇐ new_slice []; mret' (AList s)
  | AStr _ => mret' (AStr "")
  | AMap _ => l ⇐ new_map ∅; mret' (AMap (Some l))
  | ABool _ => mret' (ABool false)
  | AInt _ | AInt64 _ | AFloat _ | AFloat32 _ => mret' (AInt 0)
  | _ => mret' ANil
  end.

(* internal/agent/component/variable_assigner.go:270-289 operate(part) *)
Definition set_value (state : CanvasState) (oldVal param : any) : mem any :=
  match oldVal, param with
  | (ANil | AStr _), AStr s =>
      if decide (s = "") then mret' param else
      r ⇐ GetVar state s;
      match r with
      | inl _ | inr ANil =>
          if contains_str s "{{" then
            '(resolved, err) ⇐ ResolveTemplate s state;
            mret' (match err with None => AStr resolved | Some _ => param end)
          else mret' param
      | inr v => mret' v
      end
  | _, _ => mret' param
  end.

(** The list to change, a new one when the variable is unset. *)
Definition list_or_new (oldVal : any) : mem any :=
  match oldVal with ANil => s ⇐ new_slice []; mret' (AList s) | _ => mret' oldVal end.

(* internal/agent/component/variable_assigner.go:291-330 operate(part) *)
Definition grow_list (state : CanvasState) (oldVal param : any) (extend : bool) : mem (string + any) :=
  p ⇐ resolveParamValue state param;
  oldVal ⇐ list_or_new oldVal;
  match oldVal with
  | AList lst =>
      h ⇐ mget;
      let extra := match p with AList pl => if extend then Some (elems h pl) else Some [p] | _ => if extend then None else Some [p] end in
      match extra with
      | None => mret' (inl "ERROR:PARAMETER_NOT_LIST")
      | Some pl =>
          match elems h lst, pl with
          | x :: _, y :: _ =>
              if compatibleElemType x y then s ⇐ append lst pl; mret' (inr (AList s))
              else mret' (inl "ERROR:PARAMETER_NOT_LIST_ELEMENT_TYPE")
          | _, _ => s ⇐ append lst pl; mret' (inr (AList s))
          end
      end
  | _ => mret' (inl "ERROR:VARIABLE_NOT_LIST")
  end.

(* internal/agent/component/variable_assigner.go:332-350 operate(part) *)
Definition remove_item (oldVal : any) (first : bool) : string + any :=
  match oldVal with
  | AList None => inr oldVal
  | AList (Some s) =>
      if decide (s_len s = 0) then inr oldVal
      else inr (AList (Some (if first then subslice s 1 (s_len s) else subslice s 0 (s_len s - 1))))
  | _ => inl "ERROR:VARIABLE_NOT_LIST"
  end.

(* internal/agent/component/variable_assigner.go:352-381 operate(part) *)
Definition arithmetic (state : CanvasState) (oldVal : any) (op : string) (param : any) : mem (string + any) :=
  pv ⇐ resolveParamValue state param;
  mret' (if negb (isNumberish oldVal) || negb (isNumberish pv)
         then inl "ERROR:VARIABLE_NOT_NUMBER or PARAMETER_NOT_NUMBER"
         else let a := toFloat64 oldVal in
              let b := toFloat64 pv in
              if decide (op = "+=") then inr (AFloat (f64_add a b))
              else if decide (op = "-=") then inr (AFloat (f64_sub a b))
              else if decide (op = "*=") then inr (AFloat (f64_mul a b))
              else if f64_eqb b f64_0 then inl "ERROR:DIVIDE_BY_ZERO"
              else inr (AFloat (f64_div a b))).

(** The new value, or the text of an error. *)
(* internal/agent/component/variable_assigner.go:234-384 operate *)
Definition operate (state : CanvasState) (oldVal : any) (op : string) (param : any) : mem (string + any) :=
  if decide (op = "overwrite") then
    match param with
    | AStr s => r ⇐ GetVar state (stripVarBraces s);
                mret' (match r with inl _ => inl "ERROR:PARAMETER_UNRESOLVED" | inr v => inr v end)
    | _ => mret' (inr param)
    end
  else if decide (op = "clear") then v ⇐ clear_value oldVal; mret' (inr v)
  else if decide (op = "set") then v ⇐ set_value state oldVal param; mret' (inr v)
  else if decide (op = "append") then
    _ ⇐ GetVar state (str_of param); grow_list state oldVal param false
  else if decide (op = "extend") then grow_list state oldVal param true
  else if decide (op = "remove_first") then mret' (remove_item oldVal true)
  else if decide (op = "remove_last") then mret' (remove_item oldVal false)
  else if decide (op ∈ ["+="; "-="; "*="; "/="]) then arithmetic state oldVal op param
  else mret' (inl "ERROR:UNKNOWN_OPERATOR").

(** [None] is an invalid reference. *)
(* internal/agent/component/variable_assigner.go:393-415 writeVar *)
Definition writeVar (state : CanvasState) (ref : string) (v : any) : mem (option CanvasState) :=
  if decide (ref = "item") then _ ⇐ put_key (Globals state) "__item__" v; mret' (Some state)
  else if decide (ref = "index") then _ ⇐ put_key (Globals state) "__index__" v; mret' (Some state)
  else if has_prefix ref "sys." then _ ⇐ put_key (Sys state) (drop_prefix "sys." ref) v; mret' (Some state)
  else if has_prefix ref "env." then _ ⇐ put_key (Env state) (drop_prefix "env." ref) v; mret' (Some state)
  else match cut at_byte ref with
       | Some (cpnID, param) =>
           if decide (cpnID = "") then mret' None
           else s ⇐ SetVar state cpnID param v; mret' (Some s)
       | None => mret' None
       end.

(** The assignments so far, the messages of the operators that failed, the state. *)
(* internal/agent/component/variable_assigner.go:172-196 VariableAssignerComponent.Invoke(part) *)
Fixpoint assign_items (items : list (option loc)) (i : nat) (acc : list string * list string) (state : CanvasState)
    : mem (assign_error + (list string * list string * CanvasState)) :=
  match items with
  | [] => mret' (inr (acc, state))
  | item :: items =>
      h ⇐ mget;
      let ref := str_of (get_key h item "variable") in
      let op := str_of (get_key h item "operator") in
      let param := get_key h item "parameter" in
      if decide (ref = "" ∨ op = "") then mret' (inl (IncompleteAssignment i)) else
      old ⇐ GetVar state ref;
      match old with
      | inl err => mret' (inl (GetVariableError i ref err))
      | inr oldVal =>
          new ⇐ operate state oldVal op param;
          match new with
          | inl opErr => assign_items items (S i) (acc.1, acc.2 ++ ["variables[" +:+ pretty i +:+ "] " +:+ ref +:+ ": " +:+ opErr]) state
          | inr newVal =>
              w ⇐ writeVar state ref newVal;
              match w with
              | None => mret' (inl (WriteVariableError i ref))
              | Some state => assign_items items (S i) (acc.1 ++ [ref], acc.2) state
              end
          end
      end
  end.

(** [items = items[:0]] and one [append] per map: the array of the component is
    overwritten as far as it reaches. *)
(* internal/agent/component/variable_assigner.go:161-168 VariableAssignerComponent.Invoke(part) *)
Definition override_items (p : variableAssignerParam) (ms : list (option loc)) : variableAssignerParam :=
  {| va_array := list_inserts 0 (take (length (va_array p)) ms) (va_array p); va_len := va_len p |}.

(** The outputs and the state; the component itself may change too. *)
(* internal/agent/component/variable_assigner.go:149-202 VariableAssignerComponent.Invoke *)
Definition assigner_Invoke (p : variableAssignerParam) (state : CanvasState) (inputs : params)
    : mem (variableAssignerParam * (assign_error + (params * CanvasState))) :=
  h ⇐ mget;
  let '(items, p) :=
    match param inputs "variables" with
    | AList (Some override) =>
        if decide (s_len override = 0) then (va_Variables p, p)
        else let ms := maps_of (elems h (Some override)) in (ms, override_items p ms)
    | _ => (va_Variables p, p)
    end in
  r ⇐ assign_items items 0 ([], []) state;
  mret' (p, match r with
            | inl err => inl err
            | inr (assignments, errors, state) =>
                let out := {["assignments" := AStrs assignments]} in
                inr (match errors with [] => out | _ => <["errors" := AStrs errors]> out end, state)
            end).
End assign.
