(* ===== verification/NodeLists.v ===== *)
(** * The ListOperations component (internal/agent/component/list_operations.go)

    The operations read the elements of a list and build a new one.  Strict range
    errors are panics that [Invoke] turns into errors; other panics go on. *)

From S2P Require Import Prelude GoValue TitleLevels ChunkDoc TokenSplit Reranker StateMap AgentValue.
From S2P Require Import CanvasState CanvasTemplate NodeSwitch NodeAssign.
From stdpp Require Import pretty.

Open Scope go_scope.

(** [sort.SliceStable]: the stable order when the comparison is a strict weak
    order on the elements of the list, and some permutation otherwise. *)
Record weak_order {A} (less : A → A → bool) (l : list A) : Prop := {
  weak_irrefl : ∀ x, x ∈ l → less x x = false;
  weak_trans : ∀ x y z, x ∈ l → y ∈ l → z ∈ l → less x y = true → less y z = true → less x z = true;
  weak_equiv : ∀ x y z, x ∈ l → y ∈ l → z ∈ l → less x y = false → less y z = false → less x z = false;
}.
Class SliceStable := {
  slice_stable : ∀ {A : Type}, (A → A → bool) → list A → list A;
  slice_stable_perm : ∀ {A : Type} (less : A → A → bool) l, slice_stable less l ≡ₚ l;
  slice_stable_order : ∀ {A : Type} (less : A → A → bool) l, weak_order less l → slice_stable less l = stable_sort less l;
}.
#[program] Definition insertion_stable : SliceStable := {| slice_stable A less l := stable_sort less l |}.
Next Obligation. intros A less l. apply stable_sort_perm. Qed.
Next Obligation. done. Qed.

(* internal/agent/component/list_operations.go:87-95 listOperationsParam *)
Record listOperationsParam := {
  lo_Query : string;
  lo_Operations : string;
  lo_N : Z;
  lo_Strict : bool;
  lo_SortMethod : string;
  lo_SortBy : list string;
  lo_Filter : option loc;
}.

(** The result of an operation: a list, a range error of strict mode, or another panic. *)
Inductive list_result := Items (l : list any) | StrictRange (op : string) (n : Z) | Crash.

Inductive list_error := QueryError (err : var_error) | NotAList | StrictRangeError (op : string) (n : Z) | UnsupportedOperation.

Section lists.
Context `{GoLib} `{SliceStable}.

(* internal/agent/component/list_operations.go:73-84 coerceBool *)
Definition coerceBool (v : any) : bool :=
  match v with
  | ABool b => b
  | AStr s => bool_decide (to_lower (trim_space s) ∈ ["1"; "true"; "yes"; "on"])
  | _ => false
  end.

(* internal/agent/component/list_operations.go:125-132 normalizeListOperationName *)
Definition normalizeListOperationName (op : string) : string :=
  if decide (to_lower (trim_space op) = "topn") then "head" else op.

Definition trimmed_words (l : list string) : list string := filter (λ s, s ≠ "") (map trim_space l).
(** A list that may be nil is empty either way. *)
(* internal/agent/component/list_operations.go:170-212 parseSortByFieldList *)
Definition parseSortByFieldList (h : heap) (v : any) : list string :=
  match v with
  | AStr raw => trimmed_words (split_on comma raw)
  | AList x => trimmed_words (omap as_string (elems h x))
  | AStrs x => trimmed_words x
  | _ => []
  end.

(* internal/agent/component/list_operations.go:218-237 toInt *)
Definition toInt (v : any) : Z :=
  match v with
  | AInt x | AInt64 x => x
  | AFloat x => int_of_f64 x
  | AStr x => default 0%Z (scan_int x)
  | ABool x => if x then 1 else 0
  | _ => 0
  end.

(* internal/agent/component/list_operations.go:98-123 listOperationsParam.Update *)
Definition lo_Update (h : heap) (conf : params) : listOperationsParam :=
  let operations := str_of (param conf "operations") in
  let sortMethod := str_of (param conf "sort_method") in
  {| lo_Query := str_of (param conf "query");
     lo_Operations := normalizeListOperationName (if decide (operations = "") then "nth" else operations);
     lo_N := toInt (param conf "n");
     lo_Strict := match conf !! "strict" with Some v => coerceBool v | None => false end;
     lo_SortMethod := if decide (sortMethod = "") then "asc" else sortMethod;
     lo_SortBy := parseSortByFieldList h (param conf "sort_by");
     lo_Filter := match param conf "filter" with AMap f => f | _ => None end |}.

(* internal/agent/component/list_operations.go:135-149 listOperationsParam.Check *)
Definition lo_Check (p : listOperationsParam) : option param_error :=
  if decide (lo_Query p = "") then Some (ParamError "query" "must not be empty")
  else if decide (lo_Operations p ∈ ["nth"; "head"; "tail"; "filter"; "sort"; "drop_duplicates"]) then None
  else Some (ParamError "operations" "must be one of: nth, head, tail, filter, sort, drop_duplicates").

(** Out of range: an error in strict mode, an empty list otherwise. *)
Definition out_of_range (p : listOperationsParam) (op : string) : list_result :=
  if lo_Strict p then StrictRange op (lo_N p) else Items [].

(** A negative index into a slice is a run-time panic. *)
(* internal/agent/component/list_operations.go:382-407 ListOperationsComponent.opNth *)
Definition opNth (p : listOperationsParam) (items : list any) : list_result :=
  let n := lo_N p in
  let at_index i := if decide (0 ≤ i)%Z then match items !! Z.to_nat i with Some x => Items [x] | None => Crash end else Crash in
  if decide (n = 0)%Z then out_of_range p "nth"
  else if decide (0 < n)%Z then
    if decide (n ≤ Z.of_nat (length items))%Z then at_index (n - 1)%Z else out_of_range p "nth"
  else
    let absN := wrap64 (- n) in
    if decide (absN ≤ Z.of_nat (length items))%Z then at_index n else out_of_range p "nth".

(* internal/agent/component/list_operations.go:410-425 ListOperationsComponent.opHead *)
Definition opHead (p : listOperationsParam) (items : list any) : list_result :=
  let n := lo_N p in
  if lo_Strict p then
    if decide (n < 1 ∨ Z.of_nat (length items) < n)%Z then StrictRange "head" n else Items (take (Z.to_nat n) items)
  else if decide (n < 1)%Z then Items []
  else Items (take (Z.to_nat (Z.min n (Z.of_nat (length items)))) items).

(* internal/agent/component/list_operations.go:428-443 ListOperationsComponent.opTail *)
Definition opTail (p : listOperationsParam) (items : list any) : list_result :=
  let n := lo_N p in
  let last_n k := drop (length items - Z.to_nat k) items in
  if lo_Strict p then
    if decide (n < 1 ∨ Z.of_nat (length items) < n)%Z then StrictRange "tail" n else Items (last_n n)
  else if decide (n < 1)%Z then Items []
  else Items (last_n (Z.min n (Z.of_nat (length items)))).

(* internal/agent/component/list_operations.go:543-554 normValue *)
Definition normValue (h : heap) (v : any) : go string :=
  match v with
  | ANil => Ret ""
  | ABool b => Ret (if b then "True" else "False")
  | _ => sprint h v
  end.

(* internal/agent/component/list_operations.go:557-571 evalFilter *)
Definition evalFilter (v op target : string) : bool :=
  if decide (op = "=") then bool_decide (v = target)
  else if decide (op = "≠") then bool_decide (v ≠ target)
  else if decide (op = "contains") then contains_str v target
  else if decide (op = "start with") then has_prefix v target
  else if decide (op = "end with") then has_suffix v target
  else false.

(* internal/agent/component/list_operations.go:446-456 ListOperationsComponent.opFilter *)
Fixpoint opFilter (h : heap) (op val : string) (items : list any) : go (list any) :=
  match items with
  | [] => Ret []
  | item :: items =>
      t <-! normValue h item;
      out <-! opFilter h op val items;
      Ret (if evalFilter t op val then item :: out else out)
  end.

(** ** Keys *)

Inductive hkey := KLeaf (v : any) | KList (l : list hkey).

(* internal/agent/component/list_operations.go:577-599 hashableKey *)
Fixpoint hashableKey (fuel : nat) (h : heap) (v : any) : go hkey :=
  match fuel with
  | O => Panic
  | S fuel =>
      match v with
      | AMap m =>
          pairs <-! go_mapM (λ k, t <-! hashableKey fuel h (get_key h m k); Ret [KLeaf (AStr k); t]) (sorted_keys (map_at h m));
          Ret (KList (concat pairs))
      | AList s => l <-! go_mapM (hashableKey fuel h) (elems h s); Ret (KList l)
      | _ => Ret (KLeaf v)
      end
  end.
Definition hashable_key (h : heap) (v : any) : go hkey := hashableKey (2 + heap_cells h) h v.

Fixpoint sprint_key (h : heap) (k : hkey) : go string :=
  match k with
  | KLeaf v => sprint h v
  | KList l => ts <-! go_mapM id (map (sprint_key h) l); Ret ("[" +:+ join_words " " ts +:+ "]")
  end.

(** What [lessScalar] compares: the number, if it is one, and the text. *)
(* internal/agent/component/list_operations.go:633-646 toFloat64OK *)
Definition toFloat64OK (v : any) : option float64 :=
  match v with
  | AInt x | AInt64 x => Some (f64_of_int x)
  | AFloat x => Some x
  | _ => None
  end.
Definition scalar : Type := option float64 * string.
Definition scalar_of (h : heap) (k : hkey) : go scalar :=
  t <-! sprint_key h k; Ret (match k with KLeaf v => toFloat64OK v | KList _ => None end, t).

(* internal/agent/component/list_operations.go:623-630 lessScalar *)
Definition lessScalar (a b : scalar) : bool :=
  match a.1, b.1 with
  | Some af, Some bf => f64_lt af bf
  | _, _ => String.ltb a.2 b.2
  end.

(* internal/agent/component/list_operations.go:603-619 lessKey *)
Fixpoint lessKey (as_ bs : list scalar) : bool :=
  match as_, bs with
  | a :: as', b :: bs' => if lessScalar a b then true else if lessScalar b a then false else lessKey as' bs'
  | [], _ :: _ => true
  | _, [] => false
  end.

(** The key of an element of a list of maps: the chosen fields, or all of it. *)
Definition key_fn (h : heap) (fields : list string) (x : any) : go (list scalar + scalar) :=
  match fields with
  | [] => k <-! hashable_key h x;
          match k with
          | KList l => ss <-! go_mapM (scalar_of h) l; Ret (inl ss)
          | KLeaf _ => s <-! scalar_of h k; Ret (inr s)
          end
  | _ => let m := match x with AMap m => m | _ => None end in
         ss <-! go_mapM (λ k, scalar_of h (KLeaf (get_key h m k))) fields; Ret (inl ss)
  end.
Definition less_keys (a b : (list scalar + scalar) * string) : bool :=
  match a.1, b.1 with
  | inl x, inl y => lessKey x y
  | inr x, inr y => lessScalar x y
  | inl _, inr y => lessScalar (None, a.2) y
  | inr x, inl _ => lessScalar x (None, b.2)
  end.
(** The key with its text, for a comparison of a tuple with a scalar. *)
Definition keyed (h : heap) (fields : list string) (x : any) : go (((list scalar + scalar) * string) * any) :=
  k <-! key_fn h fields x;
  t <-! match k with inl ss => Ret ("[" +:+ join_words " " ss.*2 +:+ "]") | inr s => Ret s.2 end;
  Ret ((k, t), x).

(* internal/agent/component/list_operations.go:467-504 ListOperationsComponent.opSort *)
Definition opSort (h : heap) (p : listOperationsParam) (items : list any) : go (list any) :=
  let reverse := equal_fold (lo_SortMethod p) "desc" in
  let direct {A} (less : A → A → bool) a b := if reverse then less b a else less a b in
  match items with
  | [] => Ret []
  | AMap _ :: _ =>
      ks <-! go_mapM (keyed h (lo_SortBy p)) items;
      Ret (slice_stable (direct (λ a b, less_keys a.1 b.1)) ks).*2
  | _ =>
      ks <-! go_mapM (λ x, s <-! scalar_of h (KLeaf x); Ret (s, x)) items;
      Ret (slice_stable (direct (λ a b, lessScalar a.1 b.1)) ks).*2
  end.

(** The JSON text of a key; [None] is an error of the encoder. *)
Variable json_key : hkey → option string.
(* internal/agent/component/list_operations.go:529-537 dedupKey *)
Definition dedupKey (h : heap) (v : any) : go string :=
  k <-! hashable_key h v;
  match json_key k with Some b => Ret b | None => sprint h v end.

(* internal/agent/component/list_operations.go:511-523 ListOperationsComponent.opDropDuplicates *)
Fixpoint opDropDuplicates (h : heap) (seen : list string) (items : list any) : go (list any) :=
  match items with
  | [] => Ret []
  | item :: items =>
      k <-! dedupKey h item;
      if decide (k ∈ seen) then opDropDuplicates h seen items
      else out <-! opDropDuplicates h (k :: seen) items; Ret (item :: out)
  end.

Definition as_result (r : go (list any)) : list_result := match r with Ret l => Items l | Panic => Crash end.
(** The dispatch on the operation. *)
(* internal/agent/component/list_operations.go:304-320 ListOperationsComponent.Invoke(part) *)
Definition list_operation (h : heap) (p : listOperationsParam) (items : list any) : option list_result :=
  let op := lo_Operations p in
  if decide (op = "nth") then Some (opNth p items)
  else if decide (op = "head") then Some (opHead p items)
  else if decide (op = "tail") then Some (opTail p items)
  else if decide (op = "filter") then
    Some (as_result (opFilter h (str_of (get_key h (lo_Filter p) "operator")) (str_of (get_key h (lo_Filter p) "value")) items))
  else if decide (op = "sort") then Some (as_result (opSort h p items))
  else if decide (op = "drop_duplicates") then Some (as_result (opDropDuplicates h [] items))
  else None.

(* internal/agent/component/list_operations.go:274-332 ListOperationsComponent.Invoke *)
Definition lists_Invoke (p : listOperationsParam) (state : CanvasState) : mem (list_error + params) :=
  raw ⇐ GetVar state (lo_Query p);
  match raw with
  | inl err => mret' (inl (QueryError err))
  | inr (AList s) =>
      h ⇐ mget;
      match list_operation h p (elems h s) with
      | None => mret' (inl UnsupportedOperation)
      | Some Crash => mpanic
      | Some (StrictRange op n) => mret' (inl (StrictRangeError op n))
      | Some (Items out) =>
          r ⇐ new_slice out;
          mret' (inr {["result" := AList r; "first" := default ANil (head out); "last" := default ANil (last out)]})
      end
  | inr _ => mret' (inl NotAList)
  end.
End lists.
