(* ===== verification/NodeData.v ===== *)
(** * DataOperations, StringTransform and VariableAggregator (internal/agent/component/data_operations.go,
    string_transform.go, variable_aggregator.go)

    Seven transforms of a list of maps of the canvas state; texts cut and merged;
    the first of several variables that has a value. *)

From S2P Require Import Prelude GoValue StateMap TitleLevels ChunkDoc TokenSplit Reranker.
From S2P Require Import AgentValue CanvasState CanvasTemplate NodeSwitch NodeAssign NodeLists.
From stdpp Require Import pretty.

Open Scope go_scope.

(* internal/agent/component/data_operations.go:54-62 dataOperationsParam *)
Record dataOperationsParam := {
  do_Query : list string;
  do_Operations : string;
  do_SelectKeys : list string;
  do_FilterValues : list (option loc);
  do_Updates : list (option loc);
  do_RemoveKeys : list string;
  do_RenameKeys : list (option loc);
}.

Inductive data_error := DataQueryError (ref : string) (err : var_error).

(* internal/agent/component/data_operations.go:112-139 toStringSlice *)
Definition toStringSlice (h : heap) (v : any) : list string :=
  match v with
  | AStr x => trimmed_words (split_on comma x)
  | AList x => omap as_string (elems h x)
  | AStrs x => x
  | _ => []
  end.

(* internal/agent/component/data_operations.go:142-158 toMapSlice *)
Definition toMapSlice (h : heap) (v : any) : list (option loc) :=
  match v with
  | AList x => maps_of (elems h x)
  | AMaps x => x
  | _ => []
  end.

(* internal/agent/component/data_operations.go:65-80 dataOperationsParam.Update *)
Definition do_Update (h : heap) (conf : params) : dataOperationsParam :=
  let operations := str_of (param conf "operations") in
  {| do_Query := toStringSlice h (param conf "query");
     do_Operations := if decide (operations = "") then "literal_eval" else operations;
     do_SelectKeys := toStringSlice h (param conf "select_keys");
     do_FilterValues := toMapSlice h (param conf "filter_values");
     do_Updates := toMapSlice h (param conf "updates");
     do_RemoveKeys := toStringSlice h (param conf "remove_keys");
     do_RenameKeys := toMapSlice h (param conf "rename_keys") |}.

Definition data_operation_names : list string :=
  ["select_keys"; "literal_eval"; "combine"; "filter_values"; "append_or_update"; "remove_keys"; "rename_keys"].
(* internal/agent/component/data_operations.go:83-95 dataOperationsParam.Check *)
Definition do_Check (p : dataOperationsParam) : option param_error :=
  if decide (do_Operations p ∈ data_operation_names) then None
  else Some (ParamError "operations" "must be one of: select_keys, literal_eval, combine, filter_values, append_or_update, remove_keys, rename_keys").

Section data.
Context `{GoLib} `{MapOrder}.

(** One new map per item, in a new list. *)
Definition each_map (f : option loc → mem any) (items : list (option loc)) : mem any :=
  out ⇐ mmap f items; s ⇐ new_slice out; mret' (AList s).
Definition changed_copy (item : option loc) (f : gmap string any → mem (gmap string any)) : mem any :=
  h ⇐ mget; m ⇐ f (map_at h item); l ⇐ new_map m; mret' (AMap (Some l)).

(* internal/agent/component/data_operations.go:296-312 DataOperationsComponent.opSelectKeys *)
Definition opSelectKeys (p : dataOperationsParam) (items : list (option loc)) : mem any :=
  each_map (λ item, changed_copy item (λ m, mret' (filter (λ kv, kv.1 ∈ do_SelectKeys p) m))) items.

(** What [json.Unmarshal] is tried on. *)
(* internal/agent/component/data_operations.go:344-367 recursiveEval(part) *)
Definition looks_literal (s : string) : bool :=
  match s with
  | EmptyString => false
  | String first _ =>
      bool_decide (first ∈ chars_of "{[(" ++ [Ascii.ascii_of_N 34; Ascii.ascii_of_N 39]) || byte_in 48 57 first
      || bool_decide (to_lower s ∈ ["true"; "false"; "null"; "none"])
  end.

(* internal/agent/component/data_operations.go:328-376 recursiveEval *)
Fixpoint recursiveEval (fuel : nat) (v : any) : mem any :=
  match fuel with
  | O => mpanic
  | S fuel =>
      match v with
      | AMap m =>
          h ⇐ mget;
          kvs ⇐ mmap (λ kv : string * any, w ⇐ recursiveEval fuel kv.2; mret' (kv.1, w)) (range (map_at h m));
          l ⇐ new_map (list_to_map kvs);
          mret' (AMap (Some l))
      | AList s =>
          h ⇐ mget;
          out ⇐ mmap (recursiveEval fuel) (elems h s);
          s' ⇐ new_slice out;
          mret' (AList s')
      | AStr x =>
          let s := trim_space x in
          if looks_literal s then match unmarshal s with Some parsed => alloc_value parsed | None => mret' v end
          else mret' v
      | _ => mret' v
      end
  end.
(* internal/agent/component/data_operations.go:317-323 DataOperationsComponent.opLiteralEval *)
Definition opLiteralEval (items : list (option loc)) : mem any :=
  h ⇐ mget; each_map (λ item, recursiveEval (2 + heap_cells h) (AMap item)) items.

(** One entry of an input map into the result. *)
(* internal/agent/component/data_operations.go:386-404 DataOperationsComponent.opCombine(part) *)
Definition combine_entry (out : gmap string any) (kv : string * any) : mem (gmap string any) :=
  let '(k, v) := kv in
  match out !! k with
  | None => mret' (<[k := v]> out)
  | Some (AList ex) =>
      h ⇐ mget;
      s ⇐ append ex (match v with AList vl => elems h vl | _ => [v] end);
      mret' (<[k := AList s]> out)
  | Some ex => s ⇐ new_slice [ex; v]; mret' (<[k := AList s]> out)
  end.
(* internal/agent/component/data_operations.go:382-408 DataOperationsComponent.opCombine *)
Definition opCombine (items : list (option loc)) : mem any :=
  out ⇐ mfold (λ out obj, h ⇐ mget; mfold combine_entry (range (map_at h obj)) out) items ∅;
  l ⇐ new_map out; mret' (AMap (Some l)).

(* internal/agent/component/data_operations.go:468-473 asString *)
Definition asString (h : heap) (v : any) : go string := match v with AStr s => Ret s | _ => sprint h v end.

(* internal/agent/component/data_operations.go:435-465 matchRule *)
Definition matchRule (state : CanvasState) (obj rule : option loc) : mem bool :=
  h ⇐ mget;
  let key := str_of (get_key h rule "key") in
  match map_at h obj !! key with
  | None => mret' false
  | Some field =>
      o ⇐ mread (λ h, asString h (get_key h rule "operator"));
      let op := to_lower o in
      let op := if decide (op = "") then "equals" else op in
      let value := get_key h rule "value" in
      target ⇐ mread (λ h, normValue h value);
      target ⇐ match value with
               | AStr s =>
                   if contains_str s "{{" then
                     '(resolved, err) ⇐ ResolveTemplate s state;
                     mret' (match err with None => resolved | Some _ => target end)
                   else mret' target
               | _ => mret' target
               end;
      v ⇐ mread (λ h, normValue h field);
      mret' (if decide (op ∈ ["="; "equals"]) then bool_decide (v = target)
             else if decide (op ∈ ["≠"; "!="]) then bool_decide (v ≠ target)
             else if decide (op = "contains") then contains_str v target
             else if decide (op = "start with") then has_prefix v target
             else if decide (op = "end with") then has_suffix v target
             else false)
  end.

(** All the rules, up to the first that does not match. *)
Fixpoint match_rules (state : CanvasState) (obj : option loc) (rules : list (option loc)) : mem bool :=
  match rules with
  | [] => mret' true
  | rule :: rules => b ⇐ matchRule state obj rule; if b then match_rules state obj rules else mret' false
  end.
(* internal/agent/component/data_operations.go:411-431 DataOperationsComponent.opFilterValues *)
Definition opFilterValues (p : dataOperationsParam) (state : CanvasState) (items : list (option loc)) : mem any :=
  out ⇐ mfold (λ out obj, b ⇐ match_rules state obj (do_FilterValues p); mret' (if b then out ++ [AMap obj] else out)) items [];
  s ⇐ new_slice out; mret' (AList s).

(* internal/agent/component/data_operations.go:485-506 DataOperationsComponent.opAppendOrUpdate(part) *)
Definition apply_update (state : CanvasState) (cp : gmap string any) (upd : option loc) : mem (gmap string any) :=
  h ⇐ mget;
  k0 ⇐ mread (λ h, asString h (get_key h upd "key"));
  let k := trim_space k0 in
  if decide (k = "") then mret' cp else
  let raw := get_key h upd "value" in
  match raw with
  | AStr s =>
      t ⇐ (if contains_str s "{{" then '(resolved, err) ⇐ ResolveTemplate s state;
             mret' (match err with None => if decide (resolved = "") then None else Some resolved | Some _ => None end)
           else mret' None);
      match t with
      | Some resolved => mret' (<[k := AStr resolved]> cp)
      | None => r ⇐ GetVar state s;
                mret' (<[k := match r with inl _ | inr ANil => raw | inr v => v end]> cp)
      end
  | _ => mret' (<[k := raw]> cp)
  end.
(* internal/agent/component/data_operations.go:477-511 DataOperationsComponent.opAppendOrUpdate *)
Definition opAppendOrUpdate (p : dataOperationsParam) (state : CanvasState) (items : list (option loc)) : mem any :=
  each_map (λ item, changed_copy item (mfold (apply_update state) (do_Updates p))) items.

(* internal/agent/component/data_operations.go:514-529 DataOperationsComponent.opRemoveKeys *)
Definition opRemoveKeys (p : dataOperationsParam) (items : list (option loc)) : mem any :=
  each_map (λ item, changed_copy item (λ m, mret' (foldl (λ cp k, delete k cp) m (do_RemoveKeys p)))) items.

(* internal/agent/component/data_operations.go:540-548 DataOperationsComponent.opRenameKeys(part) *)
Definition rename_key (cp : gmap string any) (pair : option loc) : mem (gmap string any) :=
  old0 ⇐ mread (λ h, asString h (get_key h pair "old_key"));
  new0 ⇐ mread (λ h, asString h (get_key h pair "new_key"));
  let old := trim_space old0 in
  let new := trim_space new0 in
  if decide (old = "" ∨ new = "" ∨ old = new) then mret' cp
  else mret' (match cp !! old with Some v => delete old (<[new := v]> cp) | None => cp end).
(* internal/agent/component/data_operations.go:532-553 DataOperationsComponent.opRenameKeys *)
Definition opRenameKeys (p : dataOperationsParam) (items : list (option loc)) : mem any :=
  each_map (λ item, changed_copy item (mfold rename_key (do_RenameKeys p))) items.

(** The maps the queries refer to. *)
(* internal/agent/component/data_operations.go:205-227 DataOperationsComponent.Invoke(part) *)
Fixpoint input_objects (state : CanvasState) (queries : list string) : mem (data_error + list (option loc)) :=
  match queries with
  | [] => mret' (inr [])
  | ref :: queries =>
      if decide (ref = "") then input_objects state queries else
      r ⇐ GetVar state ref;
      match r with
      | inl err => mret' (inl (DataQueryError ref err))
      | inr v =>
          h ⇐ mget;
          let here := match v with AMap m => [m] | AList l => maps_of (elems h l) | _ => [] end in
          rest ⇐ input_objects state queries;
          mret' (match rest with inl err => inl err | inr objs => inr (here ++ objs) end)
      end
  end.

(* internal/agent/component/data_operations.go:187-247 DataOperationsComponent.Invoke *)
Definition data_Invoke (p : dataOperationsParam) (state : CanvasState) : mem (data_error + params) :=
  r ⇐ input_objects state (do_Query p);
  match r with
  | inl err => mret' (inl err)
  | inr items =>
      let op := do_Operations p in
      result ⇐ (if decide (op = "select_keys") then opSelectKeys p items
                else if decide (op = "literal_eval") then opLiteralEval items
                else if decide (op = "combine") then opCombine items
                else if decide (op = "filter_values") then opFilterValues p state items
                else if decide (op = "append_or_update") then opAppendOrUpdate p state items
                else if decide (op = "remove_keys") then opRemoveKeys p items
                else if decide (op = "rename_keys") then opRenameKeys p items
                else mret' ANil);
      mret' (inr {["result" := result]})
  end.
End data.


(** ** StringTransform *)

(* internal/agent/component/string_transform.go:44-49 stringTransformParam *)
Record stringTransformParam := { st_Method : string; st_Script : string; st_SplitRef : string; st_Delimiters : list string }.

Inductive text_error :=
| SplitRefError (err : var_error)
| SplitNotAString
| BadDelimiters.

(** Of a new parameter, so that nil leaves no delimiters. *)
(* internal/agent/component/string_transform.go:52-82 stringTransformParam.Update *)
Definition st_Update (h : heap) (conf : params) : stringTransformParam :=
  let method := str_of (param conf "method") in
  {| st_Method := if decide (method = "") then "split" else method;
     st_Script := str_of (param conf "script");
     st_SplitRef := str_of (param conf "split_ref");
     st_Delimiters := match param conf "delimiters" with
                      | AList v => omap as_string (elems h v)
                      | AStrs v => v
                      | _ => []
                      end |}.

(* internal/agent/component/string_transform.go:85-96 stringTransformParam.Check *)
Definition st_Check (p : stringTransformParam) : option param_error :=
  if decide (st_Method p ∈ ["split"; "merge"]) then
    match st_Delimiters p with
    | [] => Some (ParamError "delimiters" "must not be empty")
    | _ => None
    end
  else Some (ParamError "method" "must be one of: split, merge").

(** [regexp] reads text rune by rune, and a byte that is not UTF-8 as U+FFFD. *)
Definition same_rune (a b : string) : bool := bool_decide (a = b) || is_fffd a && is_fffd b.
Fixpoint rune_prefix (d rs : list string) : bool :=
  match d, rs with
  | [], _ => true
  | a :: d, b :: rs => same_rune a b && rune_prefix d rs
  | _ :: _, [] => false
  end.
Definition first_delim (delims : list (list string)) (rs : list string) : option (list string) :=
  head (filter (λ d, rune_prefix d rs = true) delims).

(** The contents between the matches of the delimiters; [after] says that the text
    here follows a match, where an empty match is not taken. *)
Fixpoint split_runes (fuel : nat) (delims : list (list string)) (after : bool) (current : string) (rs : list string) : list string :=
  match fuel with
  | O => [current]
  | S fuel =>
      match first_delim delims rs, rs with
      | Some ((_ :: _) as d), _ => current :: split_runes fuel delims true "" (drop (length d) rs)
      | Some [], [] => if after then [current] else [current; ""]
      | Some [], r :: rs => if after then split_runes fuel delims false (current +:+ r) rs
                            else current :: split_runes fuel delims false r rs
      | None, [] => [current]
      | None, r :: rs => split_runes fuel delims false (current +:+ r) rs
      end
  end.
(* internal/agent/component/string_transform.go:270-293 StringTransformComponent.doSplit(part) *)
Definition split_text (delims : list string) (text : string) : list string :=
  split_runes (S (length (runes text))) (map runes delims) false "" (runes text).

Example split_text_ex : map (λ ds, split_text ds "a,b;;c") [[","; ";"]; [";;"; ";"]; [""]; ["x"]; [""; ","]]
  = [["a"; "b"; ""; "c"]; ["a,b"; "c"]; [""; "a"; ","; "b"; ";"; ";"; "c"; ""]; ["a,b;;c"]; [""; "a"; ","; "b"; ";"; ";"; "c"; ""]].
Proof. vm_compute. reflexivity. Qed.

(** ** Placeholders *)

Definition ident_head (c : Ascii.ascii) : bool := byte_in 65 90 c || byte_in 97 122 c || is_char 95 c.
(* internal/agent/component/string_transform.go:113-113 placeholderPattern *)
Definition placeholderPattern : regex :=
  RSeq (RWord (chars_of "{{")) (RSeq (RStar space_char) (RSeq (RGroup (RSeq (RClass ident_head) (RStar word_char)))
    (RSeq (RStar space_char) (RWord (chars_of "}}"))))).
Fixpoint placeholders (fuel : nat) (l : chars) : list string :=
  match fuel with
  | O => []
  | S fuel =>
      match l with
      | [] => []
      | _ :: l' => match match_at placeholderPattern l with
                   | Some (name, rest) => text_of name :: placeholders fuel rest
                   | None => placeholders fuel l'
                   end
      end
  end.
(* internal/agent/component/string_transform.go:333-355 extractPlaceholders *)
Definition extractPlaceholders (s : string) : list string := dedup_first (placeholders (S (String.length s)) (chars_of s)).

Example extractPlaceholders_ex : extractPlaceholders "{{a}} {{ b_1 }} {{{c}}} {{1}} {{a}} {{d }" = ["a"; "b_1"; "c"].
Proof. vm_compute. reflexivity. Qed.

(** [strings.ReplaceAll], of a text that is not empty. *)
Fixpoint replace_from (skip : nat) (l old new : chars) : chars :=
  match l with
  | [] => []
  | c :: l' =>
      match skip with
      | S skip => replace_from skip l' old new
      | O => match Prelude.strip_prefix old l with
             | Some _ => new ++ replace_from (length old - 1) l' old new
             | None => c :: replace_from 0 l' old new
             end
      end
  end.
Definition ReplaceAll (s old new : string) : string := text_of (replace_from 0 (chars_of s) (chars_of old) (chars_of new)).

Example ReplaceAll_ex : ReplaceAll "x{{a}}y{{a}}{{ a }}" "{{a}}" "1" = "x1y1{{ a }}".
Proof. vm_compute. reflexivity. Qed.

Section text.
Context `{GoLib} `{MapOrder}.
Variable gonja : heap → gmap string any → string → option string.
(** Whether [regexp.Compile] accepts the quoted delimiters. *)
Variable valid_utf8 : string → bool.

(* internal/agent/component/string_transform.go:252-295 StringTransformComponent.doSplit *)
Definition doSplit (p : stringTransformParam) (state : CanvasState) (inputs : params) : mem (text_error + params) :=
  let line := str_of (param inputs "line") in
  v ⇐ (if decide (line ≠ "") then mret' (inr line)
       else if decide (st_SplitRef p = "") then mret' (inr "")
       else r ⇐ GetVar state (st_SplitRef p);
            mret' (match r with
                   | inl err => inl (SplitRefError err)
                   | inr ANil => inr ""
                   | inr (AStr s) => inr s
                   | inr _ => inl SplitNotAString
                   end));
  mret' (match v with
         | inl err => inl err
         | inr varValue =>
             if forallb valid_utf8 (st_Delimiters p)
             then inr {["result" := AStrs (split_text (st_Delimiters p) varValue)]}
             else inl BadDelimiters
         end).

(* internal/agent/component/string_transform.go:317-326 StringTransformComponent.doMerge(part) *)
Definition merge_name (state : CanvasState) (inputs : params) (script n : string) : mem string :=
  value ⇐ match inputs !! n with
          | Some v => mret' v
          | None => r ⇐ GetVar state n; mret' (match r with inl _ | inr ANil => AStr "" | inr v => v end)
          end;
  t ⇐ mread (λ h, sprint h value);
  mret' (ReplaceAll script ("{{" +:+ n +:+ "}}") t).
(* internal/agent/component/string_transform.go:301-329 StringTransformComponent.doMerge *)
Definition doMerge (p : stringTransformParam) (state : CanvasState) (inputs : params) : mem params :=
  r ⇐ ResolveTemplateAuto gonja (st_Script p) state;
  let script := default (st_Script p) r in
  out ⇐ mfold (merge_name state inputs) (extractPlaceholders script) script;
  mret' {["result" := AStr out]}.

(* internal/agent/component/string_transform.go:142-155 StringTransformComponent.Invoke *)
Definition text_Invoke (p : stringTransformParam) (state : CanvasState) (inputs : params) : mem (text_error + params) :=
  if decide (st_Method p = "split") then doSplit p state inputs
  else out ⇐ doMerge p state inputs; mret' (inr out).

(** ** VariableAggregator *)

(* internal/agent/component/variable_aggregator.go:55-87 variableAggregatorParam.Update *)
Definition agg_Update (h : heap) (conf : params) : param_error + list (option loc) :=
  match conf !! "groups" with
  | None => inr []
  | Some (AList x) => all_maps "groups" 0 (elems h x)
  | Some (AMaps x) => all_maps "groups" 0 (map AMap x)
  | Some _ => inl (ParamError "groups" "must be a list")
  end.

Fixpoint check_groups (h : heap) (i : nat) (groups : list (option loc)) : option param_error :=
  match groups with
  | [] => None
  | g :: groups =>
      let field f := "groups[" +:+ pretty i +:+ "]." +:+ f in
      if decide (str_of (get_key h g "group_name") = "") then Some (ParamError (field "group_name") "must not be empty")
      else match map_at h g !! "variables" with
           | Some (AList _ | AMaps _) => check_groups h (S i) groups
           | _ => Some (ParamError (field "variables") "must be a list")
           end
  end.
(* internal/agent/component/variable_aggregator.go:90-111 variableAggregatorParam.Check *)
Definition agg_Check (h : heap) (groups : list (option loc)) : option param_error :=
  match groups with
  | [] => Some (ParamError "groups" "must not be empty")
  | _ => check_groups h 0 groups
  end.

(* internal/agent/component/variable_aggregator.go:281-301 isTruthy *)
Definition isTruthy (h : heap) (v : any) : bool :=
  match v with
  | ANil => false
  | ABool x => x
  | AStr x => bool_decide (x ≠ "")
  | AList x => bool_decide (slice_len x ≠ 0)
  | AMap x => bool_decide (size (map_at h x) ≠ 0)
  | AInt x | AInt64 x => bool_decide (x ≠ 0)%Z
  | AFloat x => negb (f64_eqb x f64_0)
  | _ => true
  end.

(** The first selector of a group with a truthy value. *)
(* internal/agent/component/variable_aggregator.go:213-229 VariableAggregatorComponent.Invoke(part) *)
Fixpoint first_truthy (state : CanvasState) (selectors : list any) : mem (option any) :=
  match selectors with
  | [] => mret' None
  | AMap sel :: selectors =>
      h ⇐ mget;
      let ref := str_of (get_key h sel "value") in
      if decide (ref = "") then first_truthy state selectors else
      r ⇐ GetVar state ref;
      h ⇐ mget;
      match r with
      | inr val => if isTruthy h val then mret' (Some val) else first_truthy state selectors
      | inl _ => first_truthy state selectors
      end
  | _ :: selectors => first_truthy state selectors
  end.
Definition aggregate_group (state : CanvasState) (out : params) (g : option loc) : mem params :=
  h ⇐ mget;
  let gname := str_of (get_key h g "group_name") in
  if decide (gname = "") then mret' out else
  v ⇐ first_truthy state (match get_key h g "variables" with AList s => elems h s | _ => [] end);
  mret' (match v with Some val => <[gname := val]> out | None => out end).

(** The groups of this call: those of the inputs, if there are any. *)
(* internal/agent/component/variable_aggregator.go:179-205 VariableAggregatorComponent.Invoke(part) *)
Definition override_groups (h : heap) (groups : list (option loc)) (inputs : params) : list (option loc) :=
  match param inputs "variables" with
  | AList s =>
      let override := elems h s in
      match override with
      | AMap first :: _ =>
          if decide (is_Some (map_at h first !! "groups")) then
            maps_of override ≫= λ m, match get_key h m "groups" with AList gs => maps_of (elems h gs) | _ => [] end
          else maps_of override
      | _ => groups
      end
  | _ => groups
  end.
(* internal/agent/component/variable_aggregator.go:163-232 VariableAggregatorComponent.Invoke *)
Definition aggregator_Invoke (groups : list (option loc)) (state : CanvasState) (inputs : params) : mem params :=
  h ⇐ mget; mfold (aggregate_group state) (override_groups h groups inputs) ∅.
End text.
