(* ===== verification/Workflow.v ===== *)
(** * The drivers of loops and parallel nodes of a canvas (internal/agent/workflowx)

    A loop runs a sub-workflow until a condition holds or a bound is reached, plainly
    or as a stream; a parallel node runs it on every item.  Both save what is done
    when the sub-workflow is interrupted, and go on from there. *)

From S2P Require Import Prelude GoValue.
From stdpp Require Import pretty list_numbers.

(** ** Loop nodes of the canvas (internal/agent/workflowx/loop.go)

    A node that runs a compiled sub-workflow until a condition holds, by calls or
    by streams.  The sub-workflow belongs to the graph library and is a parameter:
    it takes the identifier of a checkpoint, if it is given one, and may use the
    store that the node keeps for it.  When it interrupts, the node saves where it
    was in the state of its own interrupt, and a later run gets that state back.
    [T] are the values, [W] is the world of the run, [I] are signals of
    interrupts; a byte slice is a string. *)

(** ** Options *)

Notation LoopStreamMode := string (only parsing).
(* internal/agent/workflowx/loop.go:68-82 LoopStreamMode(part) *)
Definition LoopStreamFinalOnly : LoopStreamMode := "final_only".
Definition LoopStreamEveryIteration : LoopStreamMode := "every_iteration".

Definition defaultMaxIterations : Z := 1024.

(** Identifiers of checkpoints: [uuid.NewString] draws from the world. *)
Section options.
Context {W : Type}.

(* internal/agent/workflowx/loop.go:143-153 loopOptions(part) *)
Record loopOptions := {
  maxIterations : Z;
  maxIterationsSet : bool;
  streamMode : LoopStreamMode;
  checkpointBuilder : string → Z → W → string * W;
  enableSubCheckpoint : bool;
}.
Definition LoopOption : Type := loopOptions → loopOptions.

(* internal/agent/workflowx/loop.go:160-167 WithLoopMaxIterations *)
Definition WithLoopMaxIterations (n : Z) : LoopOption := λ o,
  if decide (0 < n)%Z
  then {| maxIterations := n; maxIterationsSet := true; streamMode := streamMode o;
          checkpointBuilder := checkpointBuilder o; enableSubCheckpoint := enableSubCheckpoint o |}
  else o.

(* internal/agent/workflowx/loop.go:200-206 WithLoopStream *)
Definition WithLoopStream (mode : LoopStreamMode) : LoopOption := λ o,
  if decide (mode = LoopStreamFinalOnly ∨ mode = LoopStreamEveryIteration)
  then {| maxIterations := maxIterations o; maxIterationsSet := maxIterationsSet o; streamMode := mode;
          checkpointBuilder := checkpointBuilder o; enableSubCheckpoint := enableSubCheckpoint o |}
  else o.

(* internal/agent/workflowx/loop.go:221-227 WithLoopCheckpointIDBuilder *)
Definition WithLoopCheckpointIDBuilder (b : option (string → Z → W → string * W)) : LoopOption := λ o,
  match b with
  | Some b => {| maxIterations := maxIterations o; maxIterationsSet := maxIterationsSet o; streamMode := streamMode o;
                 checkpointBuilder := b; enableSubCheckpoint := enableSubCheckpoint o |}
  | None => o
  end.

(* internal/agent/workflowx/loop.go:238-242 WithLoopEnableSubCheckpoint *)
Definition WithLoopEnableSubCheckpoint (enable : bool) : LoopOption := λ o,
  {| maxIterations := maxIterations o; maxIterationsSet := maxIterationsSet o; streamMode := streamMode o;
     checkpointBuilder := checkpointBuilder o; enableSubCheckpoint := enable |}.

(* internal/agent/workflowx/loop.go:249-251 defaultCheckpointBuilder *)
Definition defaultCheckpointBuilder (uuid : W → string * W) (nodeKey : string) (iteration : Z) (w : W) : string * W :=
  let '(u, w) := uuid w in ("workflowx-cp:" +:+ nodeKey +:+ ":" +:+ pretty iteration +:+ ":" +:+ u, w).

(* internal/agent/workflowx/loop.go:253-266 getLoopOptions *)
Definition getLoopOptions (uuid : W → string * W) (opts : list LoopOption) : loopOptions :=
  let o := foldl (λ o opt, opt o)
             {| maxIterations := 0; maxIterationsSet := false; streamMode := LoopStreamFinalOnly;
                checkpointBuilder := defaultCheckpointBuilder uuid; enableSubCheckpoint := true |} opts in
  if decide (maxIterations o = 0%Z)
  then {| maxIterations := defaultMaxIterations; maxIterationsSet := maxIterationsSet o; streamMode := streamMode o;
          checkpointBuilder := checkpointBuilder o; enableSubCheckpoint := enableSubCheckpoint o |}
  else o.
End options.
Arguments loopOptions : clear implicits.

(** ** The saved state *)

(* internal/agent/workflowx/loop.go:277-284 loopInterruptState *)
Record loopInterruptState := {
  Iteration : Z;
  CurrentInput : option string;
  StreamMode : LoopStreamMode;
  SubCheckpointID : string;
  SubCheckpoints : gmap string string;
  ReplayChunks : list string;
}.
(* internal/agent/workflowx/loop.go:369-376 loopSnapshot *)
Record loopSnapshot := {
  startIteration : Z;
  current : option string;
  snap_streamMode : LoopStreamMode;
  subCheckID : string;
  subCheckpoints : gmap string string;
  replayChunks : list string;
}.

(** [json.Marshal] and [json.Unmarshal], of values and of the state; a state can
    always be encoded. *)
Record Codec (T : Type) := {
  marshal : T → option string;
  unmarshal : string → option T;
  state_text : loopInterruptState → string;
  state_of : string → option loopInterruptState;
}.
Arguments marshal {_} _ _. Arguments unmarshal {_} _ _. Arguments state_text {_} _ _. Arguments state_of {_} _ _.

Inductive loop_error :=
| ErrLoopResumeStateInvalid (why : string)
| ErrMarshalInput (iteration : Z)
| ErrIteration (iteration : Z) (why : string)
| ErrLoopQuitConditionFailed (iteration : Z) (why : string)
| ErrLoopMaxIterationsExceeded (n : Z)
| ErrEmptyStream (iteration : Z)
| ErrStream (why : string)
| ErrEncodeReplay.

(** An error of the sub-workflow; [isInterruptError] tells the two apart. *)
Inductive sub_error (I : Type) := SubInterrupt (i : I) | SubFail (why : string).
Arguments SubInterrupt {_} _. Arguments SubFail {_} _.

(** A result, an error, or an interrupt with the state of the node. *)
Inductive outcome (I A : Type) := Done (a : A) | Fails (e : loop_error) | Interrupts (state : string) (i : I).
Arguments Done {_ _} _. Arguments Fails {_ _} _. Arguments Interrupts {_ _} _ _.

(** ** The store of the sub-workflow

    The state that the context carries; the mutex makes its methods atomic. *)

(* internal/agent/workflowx/loop.go:898-908 loopBridgeState.get *)
Definition loopBridgeState_get (s : gmap string string) (id : string) : option string := s !! id.
(* internal/agent/workflowx/loop.go:910-919 loopBridgeState.set *)
Definition loopBridgeState_set (s : gmap string string) (id payload : string) : gmap string string := <[id := payload]> s.
(* internal/agent/workflowx/loop.go:921-925 loopBridgeState.delete *)
Definition loopBridgeState_delete (s : gmap string string) (id : string) : gmap string string := delete id s.
(** A context without the state has nothing and keeps nothing. *)
(* internal/agent/workflowx/loop.go:943-950 loopBridgeStore.Get *)
Definition loopBridgeStore_Get (ctx : option (gmap string string)) (id : string) : option string := ctx ≫= λ s, loopBridgeState_get s id.
(* internal/agent/workflowx/loop.go:952-959 loopBridgeStore.Set *)
Definition loopBridgeStore_Set (ctx : option (gmap string string)) (id payload : string) : option (gmap string string) :=
  (λ s, loopBridgeState_set s id payload) <$> ctx.

(** ** The loop *)

Section loop.
Context {T W I : Type} (J : Codec T) (options : loopOptions W) (nodeKey : string).
(** The sub-workflow: a call, or a stream of chunks that ends with EOF or an error. *)
Context (invoke : option string → T → gmap string string → W → (sub_error I + T) * gmap string string * W).
Context (stream : option string → T → gmap string string → W → (sub_error I + list T * option (sub_error I)) * gmap string string * W).
Context (shouldQuit : Z → T → T → W → (string + bool) * W).

(** [resume] is the state that an interrupt of this node left, in a run that resumes it. *)
(* internal/agent/workflowx/loop.go:381-411 loadLoopSnapshot *)
Definition loadLoopSnapshot (resume : option string) (defaultMode : LoopStreamMode) : loop_error + loopSnapshot :=
  match resume with
  | None => inr {| startIteration := 1; current := None; snap_streamMode := defaultMode; subCheckID := "";
                   subCheckpoints := ∅; replayChunks := [] |}
  | Some payload =>
      match state_of J payload with
      | None => inl (ErrLoopResumeStateInvalid "decode state")
      | Some st =>
          if decide (Iteration st < 1)%Z then inl (ErrLoopResumeStateInvalid "bad iteration") else
          match CurrentInput st with
          | None => inl (ErrLoopResumeStateInvalid "missing current_input")
          | Some input =>
              inr {| startIteration := Iteration st; current := Some input;
                     snap_streamMode := if decide (StreamMode st = "") then defaultMode else StreamMode st;
                     subCheckID := SubCheckpointID st; subCheckpoints := SubCheckpoints st; replayChunks := ReplayChunks st |}
          end
      end
  end.

(* internal/agent/workflowx/loop.go:414-423 encodeState *)
Definition encodeState (s : loopSnapshot) : string :=
  state_text J {| Iteration := startIteration s; CurrentInput := current s; StreamMode := snap_streamMode s;
                  SubCheckpointID := subCheckID s; SubCheckpoints := subCheckpoints s; ReplayChunks := replayChunks s |}.

(* internal/agent/workflowx/loop.go:438-445 runLoopInvoke(part) *)
Definition start_input (snap : loopSnapshot) (input : T) : loop_error + T :=
  match current snap with
  | None => if decide (startIteration snap = 1%Z) then inr input
            else inl (ErrLoopResumeStateInvalid "decode current input")
  | Some t => match unmarshal J t with
              | Some v => inr v
              | None => inl (ErrLoopResumeStateInvalid "decode current input")
              end
  end.

(** The identifier for the iteration, and the option that passes it on. *)
Definition child_id (id : string) (iteration : Z) (w : W) : string * W :=
  if decide (id = "") then checkpointBuilder options nodeKey iteration w else (id, w).
(* internal/agent/workflowx/loop.go:873-881 withSubCheckpoint *)
Definition withSubCheckpoint (cpID : string) : option string := if enableSubCheckpoint options then Some cpID else None.

(** After an iteration: [None] goes on. *)
(* internal/agent/workflowx/loop.go:499-518 runLoopInvoke(part) *)
Definition after_iteration (iteration : Z) (prev next : T) (w : W) : option (outcome I T) * W :=
  let '(r, w) := shouldQuit iteration prev next w in
  (match r with
   | inl qErr => Some (Fails (ErrLoopQuitConditionFailed iteration qErr))
   | inr true => Some (Done next)
   | inr false =>
       if decide (maxIterations options ≤ iteration)%Z
       then Some (if maxIterationsSet options then Done next else Fails (ErrLoopMaxIterationsExceeded (maxIterations options)))
       else None
   end, w).

(* internal/agent/workflowx/loop.go:451-526 runLoopInvoke(part) *)
Fixpoint invoke_loop (fuel : nat) (mode : LoopStreamMode) (iteration : Z) (current : T) (id : string)
    (bridge : gmap string string) (w : W) : option (outcome I T * W) :=
  match fuel with
  | O => None
  | S fuel =>
      let '(id, w) := child_id id iteration w in
      match marshal J current with
      | None => Some (Fails (ErrMarshalInput iteration), w)
      | Some currentJSON =>
          match invoke (withSubCheckpoint id) current bridge w with
          | (inl (SubInterrupt i), bridge, w) =>
              Some (Interrupts (encodeState {| startIteration := iteration; current := Some currentJSON; snap_streamMode := mode;
                                              subCheckID := id; subCheckpoints := bridge; replayChunks := [] |}) i, w)
          | (inl (SubFail why), _, w) => Some (Fails (ErrIteration iteration why), w)
          | (inr next, bridge, w) =>
              match after_iteration iteration current next w with
              | (Some r, w) => Some (r, w)
              | (None, w) => invoke_loop fuel mode (int_add iteration 1) next "" (loopBridgeState_delete bridge id) w
              end
          end
      end
  end.

(** Enough for every iteration the limit allows. *)
Definition loop_fuel (start : Z) : nat := S (Z.to_nat (maxIterations options - start)).

(* internal/agent/workflowx/loop.go:428-527 runLoopInvoke *)
Definition runLoopInvoke (resume : option string) (input : T) (w : W) : option (outcome I T * W) :=
  match loadLoopSnapshot resume (streamMode options) with
  | inl err => Some (Fails err, w)
  | inr snap =>
      match start_input snap input with
      | inl err => Some (Fails err, w)
      | inr current =>
          invoke_loop (loop_fuel (startIteration snap)) (snap_streamMode snap) (startIteration snap) current
            (subCheckID snap) (subCheckpoints snap) w
      end
  end.

(** ** Streams *)

(* internal/agent/workflowx/loop.go:800-824 sendIterations *)
Definition sendIterations (readers : list (list T)) (mode : LoopStreamMode) : list T :=
  if decide (mode = LoopStreamFinalOnly) then default [] (last readers) else concat readers.

(* internal/agent/workflowx/loop.go:987-1000 encodeReplayChunks *)
Definition encodeReplayChunks (chunks : list T) : option (list string) := mapM (marshal J) chunks.
(* internal/agent/workflowx/loop.go:1002-1015 decodeReplayChunks *)
Definition decodeReplayChunks (chunks : list string) : option (list T) := mapM (unmarshal J) chunks.

(** What the goroutine that runs the iterations keeps. *)
Record producing := {
  p_iteration : Z;
  p_current : T;
  p_id : string;
  p_bridge : gmap string string;
  p_readers : list (list T);
  p_history : list string;
  p_prefilled : bool;
}.
(** How it ends: quietly, with an error, or with an interrupt. *)
Notation pipe_error := (option (loop_error + string * I)).

Definition stream_interrupt (mode : LoopStreamMode) (p : producing) (currentJSON : string) (i : I) : pipe_error :=
  Some (inr (encodeState {| startIteration := p_iteration p; current := Some currentJSON; snap_streamMode := mode;
                            subCheckID := p_id p; subCheckpoints := p_bridge p; replayChunks := p_history p |}, i)).

(** A completed iteration: its chunks are kept for the output and for a replay. *)
(* internal/agent/workflowx/loop.go:675-725 runLoopStream(part) *)
Definition publish (mode : LoopStreamMode) (startIteration : Z) (collected : list T) (p : producing) (w : W)
    : (list (list T) * pipe_error + producing) * W :=
  match last collected with
  | None => (inl (p_readers p, Some (inl (ErrEmptyStream (p_iteration p)))), w)
  | Some next =>
      let every := bool_decide (mode = LoopStreamEveryIteration) in
      let readers := if every && p_prefilled p && bool_decide (p_iteration p = startIteration)
                     then p_readers p else p_readers p ++ [collected] in
      match (if every then encodeReplayChunks collected else Some []) with
      | None => (inl (readers, Some (inl ErrEncodeReplay)), w)
      | Some encoded =>
          match after_iteration (p_iteration p) (p_current p) next w with
          | (Some (Done _), w) => (inl (readers, None), w)
          | (Some (Fails e), w) => (inl (readers, Some (inl e)), w)
          | (Some (Interrupts s i), w) => (inl (readers, Some (inr (s, i))), w)
          | (None, w) =>
              (inr {| p_iteration := int_add (p_iteration p) 1; p_current := next; p_id := "";
                      p_bridge := loopBridgeState_delete (p_bridge p) (p_id p);
                      p_readers := readers; p_history := p_history p ++ encoded; p_prefilled := false |}, w)
          end
      end
  end.

(* internal/agent/workflowx/loop.go:613-727 runLoopStream(part) *)
Fixpoint produce (fuel : nat) (mode : LoopStreamMode) (startIteration : Z) (p : producing) (w : W)
    : option (list (list T) * pipe_error * W) :=
  match fuel with
  | O => None
  | S fuel =>
      let '(id, w) := child_id (p_id p) (p_iteration p) w in
      match marshal J (p_current p) with
      | None => Some (p_readers p, Some (inl (ErrMarshalInput (p_iteration p))), w)
      | Some currentJSON =>
          let '(r, bridge, w) := stream (withSubCheckpoint id) (p_current p) (p_bridge p) w in
          let p := {| p_iteration := p_iteration p; p_current := p_current p; p_id := id; p_bridge := bridge;
                      p_readers := p_readers p; p_history := p_history p; p_prefilled := p_prefilled p |} in
          match r with
          | inl (SubInterrupt i) | inr (_, Some (SubInterrupt i)) => Some (p_readers p, stream_interrupt mode p currentJSON i, w)
          | inl (SubFail why) => Some (p_readers p, Some (inl (ErrIteration (p_iteration p) why)), w)
          | inr (_, Some (SubFail why)) => Some (p_readers p, Some (inl (ErrStream why)), w)
          | inr (collected, None) =>
              match publish mode startIteration collected p w with
              | (inl (readers, err), w) => Some (readers, err, w)
              | (inr p, w) => produce fuel mode startIteration p w
              end
          end
      end
  end.

(** The reader of the output receives the chunks and then the error.  When the
    goroutine has failed, both of its channels are ready and [closed_first] is the
    one that [select] takes. *)
(* internal/agent/workflowx/loop.go:732-760 runLoopStream(part) *)
Definition emit (closed_first : bool) (mode : LoopStreamMode) (readers : list (list T)) (err : pipe_error) : list T * pipe_error :=
  match err with
  | None => (sendIterations readers mode, None)
  | Some _ =>
      (if closed_first || bool_decide (mode = LoopStreamEveryIteration) then sendIterations readers mode else [], err)
  end.

(* internal/agent/workflowx/loop.go:553-763 runLoopStream *)
Definition runLoopStream (closed_first : bool) (resume : option string) (input : T) (w : W)
    : option ((loop_error + list T * pipe_error) * W) :=
  match loadLoopSnapshot resume (streamMode options) with
  | inl err => Some (inl err, w)
  | inr snap =>
      match start_input snap input with
      | inl err => Some (inl err, w)
      | inr current =>
          let mode := snap_streamMode snap in
          let replaying := bool_decide (mode = LoopStreamEveryIteration ∧ replayChunks snap ≠ []) in
          match (if replaying then decodeReplayChunks (replayChunks snap) else Some []) with
          | None => Some (inl (ErrLoopResumeStateInvalid "decode replay chunks"), w)
          | Some replayed =>
              match produce (loop_fuel (startIteration snap)) mode (startIteration snap)
                      {| p_iteration := startIteration snap; p_current := current; p_id := subCheckID snap;
                         p_bridge := subCheckpoints snap; p_readers := if replaying then [replayed] else [];
                         p_history := replayChunks snap; p_prefilled := replaying |} w with
              | None => None
              | Some (readers, err, w) => Some (inr (emit closed_first mode readers err), w)
              end
          end
      end
  end.
End loop.

(** ** Parallel nodes of the canvas (internal/agent/workflowx/parallel.go)

    A node that runs a compiled sub-workflow once per item, at most so many at a
    time.  The run of one item is a parameter and one atomic action; the store the
    items use for their checkpoints is shared.  Which item is next is arbitrary
    ([item_order]), except that the first one runs before the others are started.
    When items interrupt, the node saves the results it has, and a later run gets
    that state back and runs the other items. *)

Open Scope go_scope.

(** ** Options *)

(** [contextBuilder] is part of the run of an item; here only whether there is one. *)
(* internal/agent/workflowx/parallel.go:67-74 parallelOptions(part) *)
Record parallelOptions := {
  maxConcurrency : Z;
  item_checkpointBuilder : string → Z → string;
  item_enableSubCheckpoint : bool;
  contextBuilder : bool;
}.
Definition ParallelOption : Type := parallelOptions → parallelOptions.

(* internal/agent/workflowx/parallel.go:85-91 WithParallelMaxConcurrency *)
Definition WithParallelMaxConcurrency (n : Z) : ParallelOption := λ o,
  if decide (0 ≤ n)%Z
  then {| maxConcurrency := n; item_checkpointBuilder := item_checkpointBuilder o;
          item_enableSubCheckpoint := item_enableSubCheckpoint o; contextBuilder := contextBuilder o |}
  else o.
(* internal/agent/workflowx/parallel.go:129-135 WithParallelCheckpointIDBuilder *)
Definition WithParallelCheckpointIDBuilder (b : option (string → Z → string)) : ParallelOption := λ o,
  match b with
  | Some b => {| maxConcurrency := maxConcurrency o; item_checkpointBuilder := b;
                 item_enableSubCheckpoint := item_enableSubCheckpoint o; contextBuilder := contextBuilder o |}
  | None => o
  end.
(* internal/agent/workflowx/parallel.go:143-147 WithParallelEnableSubCheckpoint *)
Definition WithParallelEnableSubCheckpoint (enable : bool) : ParallelOption := λ o,
  {| maxConcurrency := maxConcurrency o; item_checkpointBuilder := item_checkpointBuilder o;
     item_enableSubCheckpoint := enable; contextBuilder := contextBuilder o |}.
(* internal/agent/workflowx/parallel.go:152-160 WithParallelContextBuilder *)
Definition WithParallelContextBuilder (given : bool) : ParallelOption := λ o,
  if given then {| maxConcurrency := maxConcurrency o; item_checkpointBuilder := item_checkpointBuilder o;
                   item_enableSubCheckpoint := item_enableSubCheckpoint o; contextBuilder := true |} else o.

(* internal/agent/workflowx/parallel.go:167-169 defaultParallelCheckpointBuilder *)
Definition defaultParallelCheckpointBuilder (nodeKey : string) (index : Z) : string :=
  "workflowx-parallel:" +:+ nodeKey +:+ ":" +:+ pretty index.

(* internal/agent/workflowx/parallel.go:171-180 getParallelOptions *)
Definition getParallelOptions (opts : list ParallelOption) : parallelOptions :=
  foldl (λ o opt, opt o)
    {| maxConcurrency := 0; item_checkpointBuilder := defaultParallelCheckpointBuilder;
       item_enableSubCheckpoint := true; contextBuilder := false |} opts.

(** ** The saved state *)

(** [R] are the results: outputs when the state is saved, decoded JSON afterwards. *)
(* internal/agent/workflowx/parallel.go:193-222 ParallelInterruptState *)
Record ParallelInterruptState (R : Type) := {
  OriginalInputsJSON : string;
  CompletedResults : gmap Z R;
  InterruptedIndices : list Z;
  TotalCount : Z;
  ItemCheckpoints : gmap string string;
}.
Arguments OriginalInputsJSON {_} _. Arguments CompletedResults {_} _. Arguments InterruptedIndices {_} _.
Arguments TotalCount {_} _. Arguments ItemCheckpoints {_} _.

Inductive par_error :=
| ErrParallelResumeStateInvalid (why : string)
| ErrItem (index : Z) (why : string)
| ErrMarshalInputs
| ErrEncodeState.

(* internal/agent/workflowx/parallel.go:559-571 buildPendingIndices *)
Definition buildPendingIndices {R} (totalCount : Z) (completedResults : gmap Z R) : list Z :=
  filter (λ idx, completedResults !! idx = None) (seqZ 0 totalCount).

(** Every index of the list is in range and new; the indices that are covered then. *)
Fixpoint cover (what : string) (total : Z) (l : list Z) (covered : gset Z) : par_error + gset Z :=
  match l with
  | [] => inr covered
  | idx :: l =>
      if decide (idx < 0 ∨ total ≤ idx)%Z then inl (ErrParallelResumeStateInvalid (what +:+ " index out of range"))
      else if decide (idx ∈ covered) then inl (ErrParallelResumeStateInvalid "duplicate index")
      else cover what total l ({[idx]} ∪ covered)
  end.
(* internal/agent/workflowx/parallel.go:578-607 validateParallelSnapshot *)
Definition validateParallelSnapshot {R} (st : ParallelInterruptState R) : option par_error :=
  match cover "completed" (TotalCount st) (map_to_list (CompletedResults st)).*1 ∅ with
  | inl e => Some e
  | inr covered =>
      match cover "interrupted" (TotalCount st) (InterruptedIndices st) covered with
      | inl e => Some e
      | inr covered =>
          if decide (Forall (λ idx, idx ∈ covered) (seqZ 0 (TotalCount st))) then None
          else Some (ErrParallelResumeStateInvalid "missing index")
      end
  end.

(** The type [O] of outputs: its zero value, the assertion [v.(O)], and the
    conversion of a float64 when it is one of the numeric types. *)
Record OutType (O : Type) := {
  out_zero : O;
  out_assert : value → option O;
  out_float : option (float64 → O);
}.
Arguments out_zero {_} _. Arguments out_assert {_} _ _. Arguments out_float {_} _.

(* internal/agent/workflowx/parallel.go:446-491 coerceAnyToO *)
Definition coerceAnyToO {O} (T : OutType O) (v : value) : option O :=
  match v with
  | VNil => None
  | _ =>
      match out_assert T v with
      | Some typed => Some typed
      | None => match out_float T, v with
                | Some conv, VFloat f => Some (conv f)
                | _, _ => None
                end
      end
  end.

(** JSON texts of the items and of the state. *)
Record ParCodec (A O : Type) := {
  items_text : list A → option string;
  items_of : string → option (list A);
  par_text : ParallelInterruptState O → option string;
  par_of : string → option (ParallelInterruptState value);
}.
Arguments items_text {_ _} _ _. Arguments items_of {_ _} _ _. Arguments par_text {_ _} _ _. Arguments par_of {_ _} _ _.

(** ** The run *)

Inductive item_result (I O : Type) := ItemOut (o : O) | ItemErr (e : sub_error I) | ItemPanic (why : string).
Arguments ItemOut {_ _} _. Arguments ItemErr {_ _} _. Arguments ItemPanic {_ _} _.

Inductive par_outcome (I O : Type) := ParDone (outputs : list O) | ParFails (e : par_error) | ParInterrupts (state : string) (signals : list I).
Arguments ParDone {_ _} _. Arguments ParFails {_ _} _. Arguments ParInterrupts {_ _} _ _.

(** The order in which the goroutines of items take effect. *)
Class ItemOrder := {
  item_order : list Z → list Z;
  item_order_perm l : item_order l ≡ₚ l;
}.

Section parallel.
Context {A O W I : Type} (J : ParCodec A O) (OT : OutType O) (options : parallelOptions) (nodeKey : string).
Context (run : Z → option string → A → gmap string string → W → item_result I O * gmap string string * W).
Context `{ItemOrder}.

(** The test payload in the context is left out. *)
(* internal/agent/workflowx/parallel.go:511-543 loadParallelSnapshot *)
Definition loadParallelSnapshot (resume : option string) : par_error + option (ParallelInterruptState value) :=
  match resume with
  | None => inr None
  | Some payload =>
      match par_of J payload with
      | None => inl (ErrParallelResumeStateInvalid "decode state")
      | Some st =>
          if decide (TotalCount st < 0)%Z then inl (ErrParallelResumeStateInvalid "negative total_count") else
          match validateParallelSnapshot st with
          | Some e => inl e
          | None => inr (Some st)
          end
      end
  end.

(* internal/agent/workflowx/parallel.go:651-687 runParallelFanout(part) *)
Definition runOne (items : list A) (idx : Z) (bridge : gmap string string) (w : W)
    : go (sub_error I + O) * gmap string string * W :=
  let cpID := if item_enableSubCheckpoint options then item_checkpointBuilder options nodeKey idx else "" in
  let opt := if decide (cpID = "") then None else Some cpID in
  match (if decide (0 ≤ idx)%Z then items !! Z.to_nat idx else None) with
  | None => (if contextBuilder options then Panic
             else Ret (inl (SubFail ("item " +:+ pretty idx +:+ " panic: index out of range"))), bridge, w)
  | Some item =>
      let '(r, bridge, w) := run idx opt item bridge w in
      (Ret match r with
           | ItemOut o => inr o
           | ItemErr e => inl e
           | ItemPanic why => inl (SubFail ("item " +:+ pretty idx +:+ " panic: " +:+ why))
           end, bridge, w)
  end.

Fixpoint run_items (items : list A) (l : list Z) (bridge : gmap string string) (w : W)
    : go (list (Z * (sub_error I + O)) * gmap string string * W) :=
  match l with
  | [] => Ret ([], bridge, w)
  | idx :: l =>
      let '(r, bridge, w) := runOne items idx bridge w in
      r <-! r; p <-! run_items items l bridge w; Ret ((idx, r) :: p.1.1, p.1.2, p.2)
  end.

(** The results in the order they are sent. *)
(* internal/agent/workflowx/parallel.go:636-723 runParallelFanout *)
Definition runParallelFanout (items : list A) (indices : list Z) (bridge : gmap string string) (w : W)
    : go (list (Z * (sub_error I + O)) * gmap string string * W) :=
  let order := if decide (maxConcurrency options ≤ 1)%Z then indices
               else match indices with [] => [] | first :: rest => first :: item_order rest end in
  run_items items order bridge w.

(** The results so far: outputs, completed results, interrupts, the first other error. *)
(* internal/agent/workflowx/parallel.go:385-405 runParallelInvoke(part) *)
Definition drain (acc : list O * gmap Z O * list I * option par_error) (r : Z * (sub_error I + O))
    : list O * gmap Z O * list I * option par_error :=
  let '(outputs, completed, interrupts, normalErr) := acc in
  match r with
  | (idx, inr o) =>
      (if decide (0 ≤ idx)%Z then <[Z.to_nat idx := o]> outputs else outputs, <[idx := o]> completed, interrupts, normalErr)
  | (_, inl (SubInterrupt i)) => (outputs, completed, interrupts ++ [i], normalErr)
  | (idx, inl (SubFail why)) =>
      (outputs, completed, interrupts, match normalErr with None => Some (ErrItem idx why) | e => e end)
  end.

(** The slots of the results that were completed before. *)
(* internal/agent/workflowx/parallel.go:356-370 runParallelInvoke(part) *)
Definition replay_completed (completed : gmap Z value) (total : Z) : option (list O) :=
  foldl (λ outputs kv,
    outputs ← outputs;
    if decide (0 ≤ kv.1 < total)%Z
    then o ← coerceAnyToO OT kv.2; Some (<[Z.to_nat kv.1 := o]> outputs)
    else None) (Some (replicate (Z.to_nat total) (out_zero OT))) (map_to_list completed).

(** What a run works on: the items, the number of outputs, the indices, the
    outputs to start with and the store. *)
(* internal/agent/workflowx/parallel.go:320-375 runParallelInvoke(part) *)
Definition par_start (resume : option string) (items : list A) (defaultBridge : gmap string string)
    : par_error + (list A * Z * list Z * list O * gmap string string) :=
  match loadParallelSnapshot resume with
  | inl e => inl e
  | inr None =>
      let n := Z.of_nat (length items) in
      inr (items, n, seqZ 0 n, replicate (length items) (out_zero OT), defaultBridge)
  | inr (Some prev) =>
      match items_of J (OriginalInputsJSON prev) with
      | None => inl (ErrParallelResumeStateInvalid "decode original_inputs_json")
      | Some [] => inr ([], 0%Z, [], [], defaultBridge)
      | Some restored =>
          match replay_completed (CompletedResults prev) (TotalCount prev) with
          | None => inl (ErrParallelResumeStateInvalid "completed results")
          | Some outputs => inr (restored, TotalCount prev, InterruptedIndices prev, outputs, ItemCheckpoints prev)
          end
      end
  end.

(** The outcome, the store that the node keeps between runs, and the world. *)
(* internal/agent/workflowx/parallel.go:312-438 runParallelInvoke *)
Definition runParallelInvoke (resume : option string) (items : list A) (defaultBridge : gmap string string) (w : W)
    : go (par_outcome I O * gmap string string * W) :=
  match par_start resume items defaultBridge with
  | inl e => Ret (ParFails e, defaultBridge, w)
  | inr ([], _, _, _, _) => Ret (ParDone [], defaultBridge, w)
  | inr (items, total, indices, outputs, bridge) =>
      p <-! runParallelFanout items indices bridge w;
      let '(results, bridge, w) := p in
      let '(outputs, completed, interrupts, normalErr) := foldl drain (outputs, ∅, [], None) results in
      let kept := match resume with None => bridge | Some _ => defaultBridge end in
      let outcome :=
        match normalErr with
        | Some e => ParFails e
        | None =>
            match interrupts with
            | [] => ParDone outputs
            | _ =>
                match items_text J items with
                | None => ParFails ErrMarshalInputs
                | Some inputsJSON =>
                    match par_text J {| OriginalInputsJSON := inputsJSON; CompletedResults := completed;
                                        InterruptedIndices := buildPendingIndices total completed; TotalCount := total;
                                        ItemCheckpoints := bridge |} with
                    | None => ParFails ErrEncodeState
                    | Some state => ParInterrupts state interrupts
                    end
                end
            end
        end in
      Ret (outcome, kept, w)
  end.
End parallel.
