(* ===== verification/CanvasDSL.v ===== *)
(** * The canvas: decoding and members (internal/agent/canvas/canvas.go, decode.go, loop_subgraph.go, parallel_subgraph.go)

    A canvas is the graph of components that a DSL describes.  Loop and Parallel
    nodes stand for the part of the graph that is their body. *)

From S2P Require Import Prelude GoValue TitleLevels StateMap AgentValue CanvasState CanvasTemplate.
From S2P Require Import NodeSwitch.

Open Scope go_scope.

(* internal/agent/canvas/canvas.go:65-74 CanvasComponent(part) *)
Record CanvasComponent := {
  ComponentName : string;
  Params : option loc;
  Downstream : list string;
  Upstream : list string;
}.
(* internal/agent/canvas/canvas.go:47-60 Canvas *)
Record Canvas := {
  Components : gmap string CanvasComponent;
  cv_Path : list string;
  cv_History : list (option loc);
  cv_Memory : list (option loc);
  cv_Globals : option loc;
  NodeParents : gmap string string;
}.

Inductive decode_error := EmptyDSL | DSLWithoutComponents | EmptyComponentName (cpnID : string).

(** ** Decoding *)

(* internal/agent/canvas/decode.go:232-243 decodeStringSlice *)
Definition decodeStringSlice (h : heap) (s : option slice) : list string := omap AgentValue.as_string (elems h s).
(** A list of names in either of its two types. *)
Definition names_of (h : heap) (v : any) : option (list string) :=
  match v with
  | AList s => Some (decodeStringSlice h s)
  | AStrs l => Some l
  | _ => None
  end.

(* internal/agent/canvas/decode.go:197-230 decodeComponentFields *)
Definition decodeComponentFields (h : heap) (comp : option loc) : CanvasComponent :=
  let obj := match get_key h comp "obj" with AMap o => Some o | _ => None end in
  let from_obj k := match obj with Some o => get_key h o k | None => ANil end in
  let name := str_of (from_obj "component_name") in
  let params := match from_obj "params" with AMap p => p | _ => None end in
  let downstream := default [] (names_of h (from_obj "downstream")) in
  {| ComponentName := if decide (name = "") then str_of (get_key h comp "name") else name;
     Params := match params with
               | Some _ => params
               | None => match get_key h comp "params" with AMap p => p | _ => None end
               end;
     Downstream := match downstream with [] => default [] (names_of h (get_key h comp "downstream")) | _ => downstream end;
     Upstream := default [] (names_of h (get_key h comp "upstream")) |}.

Section decode.
Context `{GoLib} `{MapOrder}.

(* internal/agent/canvas/decode.go:155-167 decodedHistoryContent *)
Definition decodedHistoryContent (payload : any) : mem string :=
  match payload with
  | ANil => mret' ""
  | AStr value => mret' value
  | AMap value => h ⇐ mget; mret' (str_of (get_key h value "content"))
  | value => mread (λ h, sprint h value)
  end.

(** Role and payload of an entry, in either shape. *)
(* internal/agent/canvas/decode.go:97-113 decodeHistory(part) *)
Definition history_pair (h : heap) (item : any) : option (string * any) :=
  match item with
  | AList s => match elems h s with
               | r :: payload :: _ => Some (str_of r, payload)
               | _ => None
               end
  | AMap value => Some (str_of (get_key h value "role"), default (get_key h value "content") (map_at h value !! "payload"))
  | _ => None
  end.
Definition history_entry (role content : string) (payload : any) : gmap string any :=
  {["role" := AStr role; "content" := AStr content; "payload" := payload]}.
(* internal/agent/canvas/decode.go:88-124 decodeHistory *)
Definition decodeHistory (raw : any) : mem (list (option loc)) :=
  match raw with
  | AList s =>
      h ⇐ mget;
      mfold (λ history item,
        h ⇐ mget;
        match history_pair h item with
        | None => mret' history
        | Some (role, payload) =>
            if decide (role = "") then mret' history else
            content ⇐ decodedHistoryContent payload;
            l ⇐ new_map (history_entry role content payload);
            mret' (history ++ [Some l])
        end) (elems h s) []
  | _ => mret' []
  end.

Definition memory_entry (user assistant summary : any) : gmap string any :=
  {["user" := user; "assistant" := assistant; "summary" := summary]}.
Definition memory_triple (h : heap) (item : any) : option (any * any * any) :=
  match item with
  | AList s => match elems h s with
               | u :: a :: t :: _ => Some (u, a, t)
               | _ => None
               end
  | AMap value => Some (get_key h value "user", get_key h value "assistant", get_key h value "summary")
  | _ => None
  end.
(* internal/agent/canvas/decode.go:127-153 decodeMemory *)
Definition decodeMemory (raw : any) : mem (list (option loc)) :=
  match raw with
  | AList s =>
      h ⇐ mget;
      mfold (λ memory item,
        h ⇐ mget;
        match memory_triple h item with
        | None => mret' memory
        | Some (u, a, t) => l ⇐ new_map (memory_entry u a t); mret' (memory ++ [Some l])
        end) (elems h s) []
  | _ => mret' []
  end.

(* internal/agent/canvas/decode.go:171-185 EncodeHistory *)
Definition EncodeHistory (history : list (option loc)) : mem (option slice) :=
  out ⇐ mfold (λ out entry,
      h ⇐ mget;
      let role := str_of (get_key h entry "role") in
      if decide (role = "") then mret' out else
      let payload := default (get_key h entry "content") (map_at h entry !! "payload") in
      p ⇐ new_slice [AStr role; payload];
      mret' (out ++ [AList p])) history [];
  new_slice out.
(* internal/agent/canvas/decode.go:189-195 EncodeMemory *)
Definition EncodeMemory (memory : list (option loc)) : mem (option slice) :=
  out ⇐ mmap (λ entry,
      h ⇐ mget;
      p ⇐ new_slice [get_key h entry "user"; get_key h entry "assistant"; get_key h entry "summary"];
      mret' (AList p)) memory;
  new_slice out.

(* internal/agent/canvas/decode.go:49-63 DecodeFromDSL(part) *)
Definition node_parents (h : heap) (dsl : option loc) : gmap string string :=
  match get_key h dsl "graph" with
  | AMap graph =>
      match get_key h graph "nodes" with
      | AList nodes =>
          foldl (λ parents raw,
            match raw with
            | AMap (Some node) =>
                let id := str_of (get_key h (Some node) "id") in
                let parentID := str_of (get_key h (Some node) "parentId") in
                if decide (id ≠ "" ∧ parentID ≠ "") then <[id := parentID]> parents else parents
            | _ => parents
            end) ∅ (elems h nodes)
      | _ => ∅
      end
  | _ => ∅
  end.
(* internal/agent/canvas/decode.go:64-81 DecodeFromDSL(part) *)
Fixpoint decode_components (h : heap) (raw : list (string * any)) (out : gmap string CanvasComponent)
    : decode_error + gmap string CanvasComponent :=
  match raw with
  | [] => inr out
  | (cpnID, AMap comp) :: raw =>
      let c := decodeComponentFields h comp in
      if decide (ComponentName c = "") then inl (EmptyComponentName cpnID) else decode_components h raw (<[cpnID := c]> out)
  | _ :: raw => decode_components h raw out
  end.
(* internal/agent/canvas/decode.go:24-86 DecodeFromDSL *)
Definition DecodeFromDSL (dsl : option loc) : mem (decode_error + Canvas) :=
  h ⇐ mget;
  if decide (size (map_at h dsl) = 0) then mret' (inl EmptyDSL) else
  match get_key h dsl "components" with
  | AMap rawComps =>
      if decide (size (map_at h rawComps) = 0) then mret' (inl DSLWithoutComponents) else
      history ⇐ decodeHistory (get_key h dsl "history");
      memory ⇐ decodeMemory (get_key h dsl "memory");
      mret' (match decode_components h (range (map_at h rawComps)) ∅ with
             | inl err => inl err
             | inr comps =>
                 if decide (size comps = 0) then inl DSLWithoutComponents
                 else inr {| Components := comps;
                             cv_Path := match get_key h dsl "path" with AList p => decodeStringSlice h p | _ => [] end;
                             cv_History := history;
                             cv_Memory := memory;
                             cv_Globals := match get_key h dsl "globals" with AMap g => g | _ => None end;
                             NodeParents := node_parents h dsl |}
             end)
  | _ => mret' (inl DSLWithoutComponents)
  end.
End decode.

(** ** The members of a body *)

Definition no_component : CanvasComponent := {| ComponentName := ""; Params := None; Downstream := []; Upstream := [] |}.
(** [c.Components[id]]: a missing component has no fields. *)
Definition component (c : Canvas) (id : string) : CanvasComponent := default no_component (Components c !! id).

(* internal/agent/canvas/parallel_subgraph.go:86-97 collectGroupedMembers *)
Definition collectGroupedMembers (c : Canvas) (parentID : string) : gset string :=
  if decide (parentID = "") then ∅
  else dom (filter (λ kv, kv.2 = parentID ∧ ComponentName (component c kv.1) ≠ "") (NodeParents c)).

(** One child of the node at the head of the queue. *)
Definition add_child (root cur : string) (acc : gset string * list string) (child : string) : gset string * list string :=
  if decide (child = root ∨ child = cur ∨ child ∈ acc.1) then acc else ({[child]} ∪ acc.1, acc.2 ++ [child]).
(* internal/agent/canvas/loop_subgraph.go:137-149 collectDescendants(part) *)
Fixpoint search (fuel : nat) (c : Canvas) (root : string) (visited : gset string) (queue : list string) : option (gset string) :=
  match queue with
  | [] => Some visited
  | cur :: queue =>
      match fuel with
      | O => None
      | S fuel =>
          let '(visited, queue) := foldl (add_child root cur) (visited, queue) (Downstream (component c cur)) in
          search fuel c root visited queue
      end
  end.
(** Every name is queued once, and every name occurs as a child. *)
Definition children_count (c : Canvas) : nat := sum_list (map (λ kc, length (Downstream kc.2)) (map_to_list (Components c))).
(* internal/agent/canvas/loop_subgraph.go:125-151 collectDescendants *)
Definition collectDescendants (c : Canvas) (root : string) : option (gset string) :=
  let '(visited, queue) := foldl (add_child root root) (∅, []) (Downstream (component c root)) in
  search (S (children_count c)) c root visited queue.

(* internal/agent/canvas/loop_subgraph.go:117-123 collectLoopMembers *)
Definition collectLoopMembers (c : Canvas) (loopID : string) : option (gset string) :=
  let members := collectGroupedMembers c loopID in
  if decide (size members = 0) then collectDescendants c loopID else Some members.
