(* ===== verification/LoopCondition.v ===== *)
(** * Variables and condition of a Loop (internal/agent/canvas/loop_subgraph.go) *)

From S2P Require Import Prelude GoValue TitleLevels ChunkDoc TokenSplit Reranker StateMap AgentValue.
From S2P Require Import CanvasState CanvasTemplate NodeSwitch CanvasDSL.

Open Scope go_scope.

Inductive loop_error :=
| LoopVarNotAMap (i : nat)
| NilLoopVar
| LoopVarIncomplete (missing : string)
| ConditionNotAMap (i : nat)
| ConditionIncomplete (i : nat) (missing : string)
| InvalidLogicalOperator (op : string)
| ConditionRhsError (ref : string) (err : var_error)
| ConditionLhsError (ref : string) (err : var_error)
| InvalidInputMode (mode : string)
| InvalidLoopOperator (op kind : string)
| LoopInitError (name ref : string) (err : var_error).

(** ** Initial values *)

(* internal/agent/canvas/loop_subgraph.go:371-374 initVarSpec *)
Record initVarSpec := { iv_Value : any; iv_InputMode : string }.

(* internal/agent/canvas/loop_subgraph.go:464-479 zeroValueForType *)
Definition zeroValueForType (typ : any) : mem any :=
  let s := str_of typ in
  if decide (s = "number") then mret' (AInt 0)
  else if decide (s = "string") then mret' (AStr "")
  else if decide (s = "boolean") then mret' (ABool false)
  else if has_prefix s "object" then l ⇐ new_map ∅; mret' (AMap (Some l))
  else if has_prefix s "array" then x ⇐ new_slice []; mret' (AList x)
  else mret' (AStr "").

(* internal/agent/canvas/loop_subgraph.go:442-453 resolveLoopVarValue *)
Definition resolveLoopVarValue (inputMode : string) (value typ : any) : mem any :=
  if decide (inputMode = "variable" ∨ inputMode = "constant") then mret' value else zeroValueForType typ.

Section loop.
Context `{GoLib} `{MapOrder}.

(* internal/agent/canvas/loop_subgraph.go:412-440 readLoopVarFields *)
Definition readLoopVarFields (item : option loc) : mem (loop_error + (string * string * any * any)) :=
  match item with
  | None => mret' (inl NilLoopVar)
  | Some _ =>
      h ⇐ mget;
      let var := get_key h item "variable" in
      let mode := get_key h item "input_mode" in
      let typ := get_key h item "type" in
      if is_nil var then mret' (inl (LoopVarIncomplete "variable"))
      else if is_nil mode then mret' (inl (LoopVarIncomplete "input_mode"))
      else match map_at h item !! "value" with
           | None => mret' (inl (LoopVarIncomplete "value"))
           | Some value =>
               if is_nil typ then mret' (inl (LoopVarIncomplete "type")) else
               name ⇐ (if decide (str_of var = "") then mread (λ h, sprint h var) else mret' (str_of var));
               mret' (inr (name, str_of mode, value, typ))
           end
  end.

Fixpoint initial_variables (i : nat) (l : list any) (out : gmap string initVarSpec) : mem (loop_error + gmap string initVarSpec) :=
  match l with
  | [] => mret' (inr out)
  | AMap item :: l =>
      r ⇐ readLoopVarFields item;
      match r with
      | inl err => mret' (inl err)
      | inr (name, inputMode, value, typ) =>
          v ⇐ resolveLoopVarValue inputMode value typ;
          initial_variables (S i) l (<[name := {| iv_Value := v; iv_InputMode := inputMode |}]> out)
      end
  | _ :: _ => mret' (inl (LoopVarNotAMap i))
  end.
(* internal/agent/canvas/loop_subgraph.go:391-410 resolveInitialVariables *)
Definition resolveInitialVariables (params : option loc) : mem (loop_error + gmap string initVarSpec) :=
  h ⇐ mget;
  initial_variables 0 (match get_key h params "loop_variables" with AList l => elems h l | _ => [] end) ∅.

(** One variable of the entry node: it keeps the value it has. *)
(* internal/agent/canvas/loop_subgraph.go:207-220 buildSubWorkflow(part) *)
Definition seed_variable (loopID : string) (state : CanvasState) (k : string) (spec : initVarSpec) : mem (loop_error + CanvasState) :=
  existing ⇐ GetVar state (loopID +:+ "@" +:+ k);
  match existing with
  | inl _ | inr ANil =>
      if decide (iv_InputMode spec = "variable") then
        let ref := str_of (iv_Value spec) in
        r ⇐ GetVar state ref;
        match r with
        | inl err => mret' (inl (LoopInitError k ref err))
        | inr v => s ⇐ SetVar state loopID k v; mret' (inr s)
        end
      else s ⇐ SetVar state loopID k (iv_Value spec); mret' (inr s)
  | inr _ => mret' (inr state)
  end.
Fixpoint seed_variables (loopID : string) (specs : list (string * initVarSpec)) (state : CanvasState) : mem (loop_error + CanvasState) :=
  match specs with
  | [] => mret' (inr state)
  | (k, spec) :: specs =>
      r ⇐ seed_variable loopID state k spec;
      match r with inl err => mret' (inl err) | inr state => seed_variables loopID specs state end
  end.
(** The entry node of the body, which also passes its input on. *)
(* internal/agent/canvas/loop_subgraph.go:200-224 buildSubWorkflow(part) *)
Definition loop_init (loopID : string) (initValues : gmap string initVarSpec) (state : CanvasState) : mem (loop_error + CanvasState) :=
  seed_variables loopID (range initValues) state.

(** ** The condition *)

(* internal/agent/canvas/loop_subgraph.go:558-563 loopConditionSpec *)
Record loopConditionSpec := { lc_Variable : string; lc_Operator : string; lc_Value : any; lc_InputMode : string }.

(* internal/agent/canvas/loop_subgraph.go:747-761 toFloat *)
Definition to_float (v : any) : option float64 :=
  match v with
  | AFloat x | AFloat32 x => Some x
  | AInt x | AInt32 x | AInt64 x => Some (f64_of_int x)
  | _ => None
  end.
(* internal/agent/canvas/loop_subgraph.go:763-765 isNilOp *)
Definition isNilOp (op : string) : bool := bool_decide (op = "empty" ∨ op = "not empty").

(* internal/agent/canvas/loop_subgraph.go:634-658 evalStringOp *)
Definition evalStringOp (s op : string) (value : any) : loop_error + bool :=
  let vs := str_of value in
  let same := match value with AStr t => bool_decide (s = t) | _ => false end in
  if decide (op = "contains") then inr (contains_str s vs)
  else if decide (op = "not contains") then inr (negb (contains_str s vs))
  else if decide (op = "start with") then inr (has_prefix s vs)
  else if decide (op = "end with") then inr (has_suffix s vs)
  else if decide (op = "is") then inr same
  else if decide (op = "is not") then inr (negb same)
  else if decide (op = "empty") then inr (bool_decide (s = ""))
  else if decide (op = "not empty") then inr (bool_decide (s ≠ ""))
  else inl (InvalidLoopOperator op "string").

(* internal/agent/canvas/loop_subgraph.go:660-675 evalBoolOp *)
Definition evalBoolOp (b : bool) (op : string) (value : any) : loop_error + bool :=
  let vb := match value with ABool x => x | _ => false end in
  if decide (op = "is") then inr (eqb b vb)
  else if decide (op = "is not") then inr (negb (eqb b vb))
  else if decide (op = "empty") then inr (negb b && is_nil value)
  else if decide (op = "not empty") then inr (b || negb (is_nil value))
  else inl (InvalidLoopOperator op "bool").

(* internal/agent/canvas/loop_subgraph.go:677-701 evalNumberOp *)
Definition evalNumberOp (n : float64) (op : string) (value : any) : loop_error + bool :=
  match to_float value, isNilOp op with
  | None, false => inl (InvalidLoopOperator op "number, non-numeric value")
  | cmp, _ =>
      let cmp := default f64_0 cmp in
      if decide (op = "=") then inr (f64_eqb n cmp)
      else if decide (op = "≠") then inr (negb (f64_eqb n cmp))
      else if decide (op = ">") then inr (f64_lt cmp n)
      else if decide (op = "<") then inr (f64_lt n cmp)
      else if decide (op = "≥") then inr (f64_le cmp n)
      else if decide (op = "≤") then inr (f64_le n cmp)
      else if decide (op = "empty") then inr (is_nil value)
      else if decide (op = "not empty") then inr (negb (is_nil value))
      else inl (InvalidLoopOperator op "number")
  end.

(* internal/agent/canvas/loop_subgraph.go:703-711 evalDictOp *)
Definition evalDictOp (h : heap) (m : option loc) (op : string) : loop_error + bool :=
  if decide (op = "empty") then inr (bool_decide (size (map_at h m) = 0))
  else if decide (op = "not empty") then inr (bool_decide (size (map_at h m) ≠ 0))
  else inl (InvalidLoopOperator op "dict").

(** [slices.Contains]: comparing two maps or two slices panics. *)
Fixpoint slice_contains (l : list any) (v : any) : go bool :=
  match l with
  | [] => Ret false
  | x :: l => b <-! go_eq x v; if b then Ret true else slice_contains l v
  end.
Fixpoint all_equal (l l' : list any) : go bool :=
  match l, l' with
  | x :: l, y :: l' => b <-! go_eq x y; if b then all_equal l l' else Ret false
  | _, _ => Ret true
  end.
(* internal/agent/canvas/loop_subgraph.go:731-745 listEqual *)
Definition listEqual (h : heap) (lst : option slice) (value : any) : go bool :=
  match value with
  | AList other => if decide (slice_len lst = slice_len other) then all_equal (elems h lst) (elems h other) else Ret false
  | _ => Ret false
  end.
(* internal/agent/canvas/loop_subgraph.go:713-729 evalListOp *)
Definition evalListOp (h : heap) (lst : option slice) (op : string) (value : any) : go (loop_error + bool) :=
  if decide (op = "contains") then b <-! slice_contains (elems h lst) value; Ret (inr b)
  else if decide (op = "not contains") then b <-! slice_contains (elems h lst) value; Ret (inr (negb b))
  else if decide (op = "is") then b <-! listEqual h lst value; Ret (inr b)
  else if decide (op = "is not") then b <-! listEqual h lst value; Ret (inr (negb b))
  else if decide (op = "empty") then Ret (inr (bool_decide (slice_len lst = 0)))
  else if decide (op = "not empty") then Ret (inr (bool_decide (slice_len lst ≠ 0)))
  else Ret (inl (InvalidLoopOperator op "list")).

(* internal/agent/canvas/loop_subgraph.go:605-632 evaluateCondition *)
Definition evaluateCondition (h : heap) (varVal : any) (op : string) (value : any) : go (loop_error + bool) :=
  match varVal with
  | ANil => Ret (inr (bool_decide (op = "empty")))
  | AStr v => Ret (evalStringOp v op value)
  | ABool v => Ret (evalBoolOp v op value)
  | AInt v | AInt32 v | AInt64 v => Ret (evalNumberOp (f64_of_int v) op value)
  | AFloat v | AFloat32 v => Ret (evalNumberOp v op value)
  | AMap v => Ret (evalDictOp h v op)
  | AList v => evalListOp h v op value
  | _ => Ret (inl (InvalidLoopOperator op "variable type unsupported"))
  end.

(* internal/agent/canvas/loop_subgraph.go:569-599 evalOneLoopCondition *)
Definition evalOneLoopCondition (state : CanvasState) (loopID : string) (spec : loopConditionSpec) : mem (loop_error + bool) :=
  rhs ⇐ (if decide (lc_InputMode spec = "variable") then
           let ref := str_of (lc_Value spec) in
           r ⇐ GetVar state ref;
           mret' (match r with inl err => inl (ConditionRhsError ref err) | inr v => inr v end)
         else if decide (lc_InputMode spec = "constant") then mret' (inr (lc_Value spec))
         else mret' (inl (InvalidInputMode (lc_InputMode spec))));
  match rhs with
  | inl err => mret' (inl err)
  | inr rhs =>
      let ref := if contains_str (lc_Variable spec) "." || contains_str (lc_Variable spec) "@"
                 then lc_Variable spec else loopID +:+ "@" +:+ lc_Variable spec in
      got ⇐ GetVar state ref;
      match got with
      | inl err => mret' (inl (ConditionLhsError ref err))
      | inr got => mread (λ h, evaluateCondition h got (lc_Operator spec) rhs)
      end
  end.

(** The list of conditions of the DSL. *)
(* internal/agent/canvas/loop_subgraph.go:494-517 translateLoopCondition(part) *)
Fixpoint condition_specs (h : heap) (i : nat) (l : list any) : loop_error + list loopConditionSpec :=
  match l with
  | [] => inr []
  | AMap m :: l =>
      let variable := str_of (get_key h m "variable") in
      let operator := str_of (get_key h m "operator") in
      let inputMode := str_of (get_key h m "input_mode") in
      if decide (variable = "") then inl (ConditionIncomplete i "variable")
      else if decide (operator = "") then inl (ConditionIncomplete i "operator")
      else match condition_specs h (S i) l with
           | inl err => inl err
           | inr specs => inr ({| lc_Variable := variable; lc_Operator := operator; lc_Value := get_key h m "value";
                                  lc_InputMode := if decide (inputMode = "") then "constant" else inputMode |} :: specs)
           end
  | _ :: _ => inl (ConditionNotAMap i)
  end.
(** The conditions and whether they are joined by "or". *)
(* internal/agent/canvas/loop_subgraph.go:491-556 translateLoopCondition *)
Definition translateLoopCondition (h : heap) (params : option loc) : loop_error + (list loopConditionSpec * bool) :=
  match condition_specs h 0 (match get_key h params "loop_termination_condition" with AList l => elems h l | _ => [] end) with
  | inl err => inl err
  | inr conditions =>
      let logicalOp := str_of (get_key h params "logical_operator") in
      if decide (logicalOp = "" ∨ logicalOp = "and") then inr (conditions, false)
      else if decide (logicalOp = "or") then inr (conditions, true)
      else inl (InvalidLogicalOperator logicalOp)
  end.

(** Every condition is evaluated, and all results are combined. *)
(* internal/agent/canvas/loop_subgraph.go:542-554 translateLoopCondition(part) *)
Fixpoint combine_conditions (state : CanvasState) (loopID : string) (any_of : bool) (conditions : list loopConditionSpec) (combined : bool)
    : mem (loop_error + bool) :=
  match conditions with
  | [] => mret' (inr combined)
  | spec :: conditions =>
      r ⇐ evalOneLoopCondition state loopID spec;
      match r with
      | inl err => mret' (inl err)
      | inr v => combine_conditions state loopID any_of conditions (if any_of then combined || v else combined && v)
      end
  end.
(* internal/agent/canvas/loop_subgraph.go:526-555 translateLoopCondition(part) *)
Definition should_quit (state : CanvasState) (loopID : string) (cond : list loopConditionSpec * bool) : mem (loop_error + bool) :=
  match cond.1 with
  | [] => mret' (inr false)
  | _ => combine_conditions state loopID cond.2 cond.1 (negb cond.2)
  end.
End loop.

(* internal/agent/canvas/loop_subgraph.go:769-787 readMaxLoopCount *)
Definition readMaxLoopCount (h : heap) (params : option loc) : Z :=
  match get_key h params "maximum_loop_count" with
  | AInt x | AInt64 x | AInt32 x => x
  | AFloat x | AFloat32 x => int_of_f64 x
  | _ => 0
  end.
