(* ===== verification/DSLNormalize.v ===== *)
(** * The DSL of a canvas: normal form, reset, extraction (internal/agent/dsl)

    A stored canvas is a map of decoded JSON.  The functions copy it and repair the
    copy in place, so that they are computations on the heap; what they leave of
    their argument is a property. *)

From S2P Require Import Prelude GoValue TitleLevels StateMap AgentValue CanvasState AgentLemmas.
From S2P Require Import CanvasTemplate.

Open Scope go_scope.

Definition componentNameIteration : string := "Iteration".
Definition componentNameParallel : string := "Parallel".
Definition componentNameLoopItem : string := "LoopItem".
Definition componentNameIterationItem : string := "IterationItem".

(** [v == s], of an interface and a string. *)
Definition is_str (v : any) (s : string) : bool := bool_decide (AgentValue.as_string v = Some s).
(** [m, _ := v.(map[string]any); m != nil]. *)
Definition non_nil_map (v : any) : option loc := match v with AMap m => m | _ => None end.
(** [range v.([]any)]. *)
Definition list_of (h : heap) (v : any) : list any := match v with AList s => elems h s | _ => [] end.

(* internal/agent/dsl/normalize.go:411-426 toStringSlice *)
Definition toStringSlice (h : heap) (v : any) : list string :=
  filter (λ s, s ≠ "") (omap AgentValue.as_string (list_of h v)).

(* internal/agent/dsl/normalize.go:571-583 stringsToAny *)
Definition stringsToAny (s : list string) : mem any :=
  let out := filter (λ s, s ≠ "") s in
  l ⇐ new_slice_cap (match out with [] => 0 | _ => length s end) (map AStr out);
  mret' (AList l).

(* internal/agent/dsl/normalize.go:590-625 componentNameToNodeTypeMap *)
Definition componentNameToNodeTypeMap : gmap string string := list_to_map
  [("Begin", "beginNode"); ("Retrieval", "ragNode"); ("Categorize", "categorizeNode"); ("Message", "messageNode");
   ("Answer", "messageNode"); ("RewriteQuestion", "rewriteNode"); ("ExeSQL", "toolNode"); ("Switch", "switchNode");
   ("Agent", "agentNode"); ("Tool", "toolNode"); ("File", "fileNode"); ("Parser", "parserNode");
   ("Tokenizer", "tokenizerNode"); ("TokenChunker", "chunkerNode"); ("TitleChunker", "chunkerNode");
   ("OneChunker", "chunkerNode"); ("QAChunker", "chunkerNode"); ("TableChunker", "chunkerNode");
   ("PageChunker", "chunkerNode"); ("Extractor", "contextNode"); ("Loop", "loopNode"); ("LoopStart", "loopStartNode");
   ("ExitLoop", "exitLoopNode"); ("Iteration", "iterationNode"); ("IterationStart", "iterationStartNode");
   ("Parallel", "parallelNode"); ("DataOperations", "dataOperationsNode"); ("ListOperations", "listOperationsNode");
   ("VariableAssigner", "variableAssignerNode"); ("VariableAggregator", "variableAggregatorNode");
   ("Keyword", "keywordNode"); ("Note", "noteNode"); ("Placeholder", "placeholderNode"); ("Code", "toolNode")].

(* internal/agent/dsl/normalize.go:627-632 componentNameToNodeType *)
Definition componentNameToNodeType (name : string) : string := default "agentNode" (componentNameToNodeTypeMap !! name).

(** ** References to the items of old loops *)

Definition alias_char (c : Ascii.ascii) : bool := alnum c || is_char 95 c || is_char 58 c || is_char 45 c.
(* internal/agent/dsl/normalize.go:81-81 legacyIterationAliasPattern *)
Definition legacyIterationAliasPattern : regex :=
  RSeq (RWord (chars_of "IterationItem:")) (RSeq (RPlus alias_char) (RSeq (RClass (is_char 64))
    (RSeq (RGroup (RAlt (RWord (chars_of "item")) (RWord (chars_of "index")))) RWordEnd))).

Fixpoint replace_aliases (fuel : nat) (l : chars) : chars :=
  match fuel with
  | O => l
  | S fuel =>
      match l with
      | [] => []
      | c :: l' => match match_at legacyIterationAliasPattern l with
                   | Some (alias, rest) => alias ++ replace_aliases fuel rest
                   | None => c :: replace_aliases fuel l'
                   end
      end
  end.
(* internal/agent/dsl/normalize.go:190-204 replaceLegacyIterationAliasRefs *)
Definition replaceLegacyIterationAliasRefs (s : string) : string :=
  text_of (replace_aliases (String.length s) (chars_of s)).

Example replace_ex :
  map replaceLegacyIterationAliasRefs
    ["{IterationItem:Sad-Cats_1@item}"; "IterationItem:a:b@index.x"; "IterationItem:a@items"; "IterationItem:@item"; "xIterationItem:a@itemIterationItem:b@index"]
  = ["{item}"; "index.x"; "IterationItem:a@items"; "IterationItem:@item"; "xIterationItem:a@itemindex"].
Proof. vm_compute. reflexivity. Qed.

Section dsl.
Context `{MapOrder}.

(** ** Copies *)

(* internal/agent/dsl/normalize.go:481-498 deepCopyAny *)
Fixpoint deepCopyAny (fuel : nat) (v : any) : mem any :=
  match fuel with
  | O => mpanic
  | S fuel =>
      match v with
      | AMap x => h ⇐ mget; clone_entries (deepCopyAny fuel) (map_at h x)
      | AList x => h ⇐ mget; clone_items (deepCopyAny fuel) (elems h x)
      | v => mret' v
      end
  end.
Definition deep_copy (v : any) : mem any := h ⇐ mget; deepCopyAny (2 + heap_cells h) v.

(** A map with the same keys and the copies of the values. *)
Definition copy_entries (f : string → any → mem any) (m : option loc) : mem any :=
  h ⇐ mget;
  kvs ⇐ mmap (λ kv : string * any, v ⇐ f kv.1 kv.2; mret' (kv.1, v)) (range (map_at h m));
  l ⇐ new_map (list_to_map kvs);
  mret' (AMap (Some l)).

(* internal/agent/dsl/normalize.go:503-532 deepCopyGraph *)
Definition deepCopyGraph : option loc → mem any :=
  copy_entries (λ k v,
    if decide (k = "nodes" ∨ k = "edges")
    then match v with
         | AList s => h ⇐ mget; clone_items deep_copy (elems h s)
         | v => mret' v
         end
    else mret' v).

(* internal/agent/dsl/normalize.go:538-552 deepCopyComponents *)
Definition deepCopyComponents : option loc → mem any :=
  copy_entries (λ _ v,
    match v with
    | AMap cm =>
        entry ⇐ deep_copy (AMap cm);
        h ⇐ mget;
        match get_key h cm "obj" with
        | AMap obj => o ⇐ deep_copy (AMap obj); _ ⇐ put_key (non_nil_map entry) "obj" o; mret' entry
        | _ => mret' entry
        end
    | v => mret' v
    end).

(* internal/agent/dsl/normalize.go:450-475 deepCopyDSL *)
Definition deepCopyDSL (dsl : option loc) : mem (option loc) :=
  v ⇐ copy_entries (λ k v,
        match v with
        | AMap m => if decide (k = "graph") then deepCopyGraph m
                    else if decide (k = "components") then deepCopyComponents m
                    else mret' v
        | v => mret' v
        end) dsl;
  mret' (non_nil_map v).

(* internal/agent/dsl/normalize.go:558-564 copyMapStringAny *)
Definition copyMapStringAny (m : option loc) : mem (option loc) := copy_map m.

(** ** Repairs of the graph *)

Definition for_each {A} (f : A → mem unit) (l : list A) : mem unit := mfold (λ _, f) l ().

(* internal/agent/dsl/normalize.go:257-280 enforceHandleIds *)
Definition enforceHandleIds (dsl : option loc) : mem unit :=
  h ⇐ mget;
  match non_nil_map (get_key h dsl "graph") with
  | None => mret' ()
  | Some graph =>
      for_each (λ e,
        match non_nil_map e with
        | None => mret' ()
        | Some m =>
            h ⇐ mget;
            let src := str_of (get_key h (Some m) "sourceHandle") in
            _ ⇐ (if decide (src = "end" ∨ src = "start") then put_key (Some m) "sourceHandle" (AStr "start") else mret' ());
            h ⇐ mget;
            let dst := str_of (get_key h (Some m) "targetHandle") in
            if decide (dst = "start" ∨ dst = "end") then put_key (Some m) "targetHandle" (AStr "end") else mret' ()
        end) (list_of h (get_key h (Some graph) "edges"))
  end.

(* internal/agent/dsl/normalize.go:285-295 graphHasNodes *)
Definition graphHasNodes (h : heap) (dsl : option loc) : bool :=
  match get_key h dsl "graph" with
  | AMap graph => match get_key h graph "nodes" with
                  | AList nodes => bool_decide (0 < slice_len nodes)
                  | _ => false
                  end
  | _ => false
  end.

(* internal/agent/dsl/normalize.go:383-409 extractComponent *)
Definition extractComponent (h : heap) (comp : option loc) : string * option loc * list string :=
  let '(name, params, downstream) :=
    match get_key h comp "obj" with
    | AMap obj => (str_of (get_key h obj "component_name"), non_nil_map (get_key h obj "params"),
                   toStringSlice h (get_key h obj "downstream"))
    | _ => ("", None, [])
    end in
  (if decide (name = "") then str_of (get_key h comp "name") else name,
   match params with Some p => Some p | None => non_nil_map (get_key h comp "params") end,
   downstream ++ toStringSlice h (get_key h comp "downstream")).

Definition edge_entries (key dst : string) : gmap string any :=
  {["id" := AStr ("xy-edge__" +:+ key +:+ "-" +:+ dst); "source" := AStr key; "target" := AStr dst;
    "sourceHandle" := AStr "start"; "targetHandle" := AStr "end"]}.

(** One component: [acc] is the nodes, the edges and the flat components so far. *)
(* internal/agent/dsl/normalize.go:326-376 buildGraphFromComponents(part) *)
Definition build_component (components : option loc) (acc : list any * list any * gmap string any) (key : string)
    : mem (list any * list any * gmap string any) :=
  let '(nodes, edges, normalized) := acc in
  h ⇐ mget;
  match non_nil_map (get_key h components key) with
  | None => mret' (nodes, edges, normalized)
  | Some comp =>
      let '(name, params, downstream) := extractComponent h (Some comp) in
      let name := if decide (name = "") then key else name in
      position ⇐ new_map {["x" := AFloat (f64_add (f64_of_int 50) (f64_mul (f64_of_int (Z.of_nat (length nodes))) (f64_of_int 350)));
                           "y" := AFloat (f64_of_int 200)]};
      data ⇐ new_map {["label" := AStr name; "name" := AStr name; "form" := AMap params]};
      node ⇐ new_map {["id" := AStr key; "type" := AStr (componentNameToNodeType name); "position" := AMap (Some position);
                       "data" := AMap (Some data); "sourcePosition" := AStr "right"; "targetPosition" := AStr "left"]};
      new_edges ⇐ mmap (λ dst, e ⇐ new_map (edge_entries key dst); mret' (AMap (Some e))) downstream;
      flat ⇐ new_map {["id" := AStr key; "name" := AStr name;
                       "downstream" := AStrs (toStringSlice h (get_key h (Some comp) "downstream"));
                       "upstream" := AStrs (toStringSlice h (get_key h (Some comp) "upstream"));
                       "params" := AMap params]};
      mret' (nodes ++ [AMap (Some node)], edges ++ new_edges, <[key := AMap (Some flat)]> normalized)
  end.

(* internal/agent/dsl/normalize.go:306-378 buildGraphFromComponents *)
Definition buildGraphFromComponents (components : option loc) : mem (list any * list any * loc) :=
  h ⇐ mget;
  '(nodes, edges, normalized) ⇐ mfold (build_component components) (sorted_keys (map_at h components)) ([], [], ∅);
  l ⇐ new_map normalized;
  mret' (nodes, edges, l).

(** [if m[k] == from { m[k] = to }]. *)
Definition rename_key (m : option loc) (k from to : string) : mem unit :=
  h ⇐ mget; if is_str (get_key h m k) from then put_key m k (AStr to) else mret' ().

(* internal/agent/dsl/normalize.go:210-251 repairParallelLeaksForCanvas *)
Definition repairParallelLeaksForCanvas (dsl : option loc) : mem unit :=
  h ⇐ mget;
  _ ⇐ for_each (λ kv : string * any,
        match non_nil_map kv.2 with
        | None => mret' ()
        | Some comp =>
            h ⇐ mget;
            _ ⇐ match get_key h (Some comp) "obj" with
                | AMap obj => rename_key obj "component_name" componentNameParallel componentNameIteration
                | _ => mret' ()
                end;
            rename_key (Some comp) "name" componentNameParallel componentNameIteration
        end) (range (map_at h (non_nil_map (get_key h dsl "components"))));
  h ⇐ mget;
  match non_nil_map (get_key h dsl "graph") with
  | None => mret' ()
  | Some graph =>
      for_each (λ raw,
        match non_nil_map raw with
        | None => mret' ()
        | Some node =>
            _ ⇐ rename_key (Some node) "type" "parallelNode" "iterationNode";
            h ⇐ mget;
            match non_nil_map (get_key h (Some node) "data") with
            | None => mret' ()
            | Some data =>
                _ ⇐ rename_key (Some data) "label" componentNameParallel componentNameIteration;
                rename_key (Some data) "name" componentNameParallel componentNameIteration
            end
        end) (list_of h (get_key h (Some graph) "nodes"))
  end.

(** ** Old loops *)

(* internal/agent/dsl/normalize.go:771-793 buildParentMap *)
Definition buildParentMap (h : heap) (dsl : option loc) : gmap string string :=
  match non_nil_map (get_key h dsl "graph") with
  | None => ∅
  | Some graph =>
      foldl (λ out n,
        match non_nil_map n with
        | None => out
        | Some nm =>
            let id := str_of (get_key h (Some nm) "id") in
            let parent := str_of (get_key h (Some nm) "parentId") in
            if decide (id ≠ "" ∧ parent ≠ "") then <[id := parent]> out else out
        end) ∅ (list_of h (get_key h (Some graph) "nodes"))
  end.

(* internal/agent/dsl/normalize.go:797-807 componentNameFromComp *)
Definition componentNameFromComp (h : heap) (comp : option loc) : string :=
  let n := match get_key h comp "obj" with AMap obj => str_of (get_key h obj "component_name") | _ => "" end in
  if decide (n = "") then str_of (get_key h comp "name") else n.

(* internal/agent/dsl/normalize.go:812-822 childCompDownstream *)
Definition childCompDownstream (h : heap) (comp : option loc) : any :=
  match map_at h comp !! "downstream" with
  | Some d => d
  | None => match get_key h comp "obj" with
            | AMap obj => default ANil (map_at h obj !! "downstream")
            | _ => ANil
            end
  end.

(** Names that are not empty and not seen before, appended to [out]. *)
Definition add_unseen (out names : list string) : list string :=
  foldl (λ out s, if decide (s = "" ∨ s ∈ out) then out else out ++ [s]) out names.
(* internal/agent/dsl/normalize.go:826-850 mergeDownstream *)
Definition mergeDownstream (parent child : list string) : list string :=
  match child with [] => parent | _ => add_unseen (add_unseen [] parent) child end.

(* internal/agent/dsl/normalize.go:856-868 removeFromSlice *)
Definition removeFromSlice (s : list string) (drop : string) : list string :=
  if decide (drop = "") then s else filter (λ x, x ≠ drop) s.

(* internal/agent/dsl/normalize.go:872-874 isLegacyChildName *)
Definition isLegacyChildName (name : string) : bool :=
  bool_decide (name = componentNameLoopItem ∨ name = componentNameIterationItem).

Definition delete_key (m : option loc) (k : string) : mem unit := λ h,
  match m with
  | None => Ret ((), h)
  | Some l => Ret ((), set_map l (delete k (map_at h m)) h)
  end.

(** One component in the first loop. *)
(* internal/agent/dsl/normalize.go:670-730 foldLegacyLoopVariants(part) *)
Definition fold_child (rawComps : loc) (childOf : gmap string string) (kv : string * any) : mem unit :=
  let '(childID, raw) := kv in
  match non_nil_map raw with
  | None => mret' ()
  | Some comp =>
      h ⇐ mget;
      if isLegacyChildName (componentNameFromComp h (Some comp)) then
        match childOf !! childID with
        | None => mret' ()
        | Some parentID =>
            match non_nil_map (get_key h (Some rawComps) parentID) with
            | None => delete_key (Some rawComps) childID
            | Some parentComp =>
                let childDS := toStringSlice h (childCompDownstream h (Some comp)) in
                let merged := mergeDownstream (toStringSlice h (get_key h (Some parentComp) "downstream")) childDS in
                v ⇐ stringsToAny (removeFromSlice merged childID);
                _ ⇐ put_key (Some parentComp) "downstream" v;
                delete_key (Some rawComps) childID
            end
        end
      else mret' ()
  end.

(** One component in the second loop. *)
(* internal/agent/dsl/normalize.go:735-765 foldLegacyLoopVariants(part) *)
Definition rename_iteration (dsl : option loc) (kv : string * any) : mem unit :=
  let '(id, raw) := kv in
  match non_nil_map raw with
  | None => mret' ()
  | Some comp =>
      h ⇐ mget;
      if decide (componentNameFromComp h (Some comp) = componentNameIteration) then
        _ ⇐ match get_key h (Some comp) "obj" with
            | AMap obj => put_key obj "component_name" (AStr componentNameParallel)
            | _ => mret' ()
            end;
        _ ⇐ put_key (Some comp) "name" (AStr componentNameParallel);
        h ⇐ mget;
        match non_nil_map (get_key h dsl "graph") with
        | None => mret' ()
        | Some graph =>
            for_each (λ n,
              h ⇐ mget;
              match non_nil_map n with
              | Some nm =>
                  if is_str (get_key h (Some nm) "id") id then
                    _ ⇐ match non_nil_map (get_key h (Some nm) "data") with
                        | Some data =>
                            _ ⇐ put_key (Some data) "label" (AStr componentNameParallel);
                            put_key (Some data) "name" (AStr componentNameParallel)
                        | None => mret' ()
                        end;
                    put_key (Some nm) "type" (AStr (componentNameToNodeType componentNameParallel))
                  else mret' ()
              | None => mret' ()
              end) (list_of h (get_key h (Some graph) "nodes"))
        end
      else mret' ()
  end.

(** The empty loop over the nodes in the code has no effect. *)
(* internal/agent/dsl/normalize.go:658-766 foldLegacyLoopVariants *)
Definition foldLegacyLoopVariants (dsl : option loc) : mem unit :=
  h ⇐ mget;
  match non_nil_map (get_key h dsl "components") with
  | None => mret' ()
  | Some rawComps =>
      let childOf := buildParentMap h dsl in
      _ ⇐ for_each (fold_child rawComps childOf) (range (map_at h (Some rawComps)));
      h ⇐ mget;
      for_each (rename_iteration dsl) (range (map_at h (Some rawComps)))
  end.

(** [items[i] = v]. *)
Definition put_cell (s : slice) (i : nat) (v : any) : mem unit := λ h,
  Ret ((), set_arr (s_arr s) (<[s_off s + i := v]> (cells_at h (s_arr s))) h).

(** [set] writes a string back to where it was. *)
Definition rewrite_value (maps : option loc → mem unit) (lists : slice → mem unit) (set : any → mem unit) (v : any) : mem unit :=
  match v with
  | AStr x => set (AStr (replaceLegacyIterationAliasRefs x))
  | AMap x => maps x
  | AList (Some x) => lists x
  | _ => mret' ()
  end.
(* internal/agent/dsl/normalize.go:164-188 rewriteLegacyIterationAliases(part) *)
Fixpoint rewriteLegacyIterationAliases (fuel : nat) (dsl : option loc) : mem unit :=
  match fuel with
  | O => mpanic
  | S fuel =>
      h ⇐ mget;
      for_each (λ kv : string * any,
        rewrite_value (rewriteLegacyIterationAliases fuel) (rewriteLegacyIterationAliasesInSlice fuel) (put_key dsl kv.1) kv.2)
        (range (map_at h dsl))
  end
with rewriteLegacyIterationAliasesInSlice (fuel : nat) (items : slice) : mem unit :=
  match fuel with
  | O => mpanic
  | S fuel =>
      for_each (λ i,
        h ⇐ mget;
        rewrite_value (rewriteLegacyIterationAliases fuel) (rewriteLegacyIterationAliasesInSlice fuel) (put_cell items i)
          (nth i (elems h (Some items)) ANil))
        (seq 0 (s_len items))
  end.

(** ** Normal forms *)

(* internal/agent/dsl/normalize.go:109-158 normalize *)
Definition normalize (dsl : option loc) (foldLegacy : bool) : mem (option loc) :=
  match dsl with
  | None => mret' None
  | Some _ =>
      out ⇐ deepCopyDSL dsl;
      _ ⇐ enforceHandleIds out;
      h ⇐ mget;
      _ ⇐ (if graphHasNodes h out then mret' () else
           match non_nil_map (get_key h out "components") with
           | None => mret' ()
           | Some rawComps =>
               '(nodes, edges, normComps) ⇐ buildGraphFromComponents (Some rawComps);
               match nodes with
               | [] => mret' ()
               | _ =>
                   ns ⇐ new_slice_cap (size (map_at h (Some rawComps))) nodes;
                   es ⇐ new_slice edges;
                   graph ⇐ new_map {["nodes" := AList ns; "edges" := AList es]};
                   _ ⇐ put_key out "graph" (AMap (Some graph));
                   put_key out "components" (AMap (Some normComps))
               end
           end);
      _ ⇐ repairParallelLeaksForCanvas out;
      _ ⇐ (if foldLegacy then
             _ ⇐ foldLegacyLoopVariants out;
             h ⇐ mget;
             rewriteLegacyIterationAliases (2 + heap_cells h) out
           else mret' ());
      mret' out
  end.
(* internal/agent/dsl/normalize.go:97-99 NormalizeForCanvas *)
Definition NormalizeForCanvas (dsl : option loc) : mem (option loc) := normalize dsl false.
(* internal/agent/dsl/normalize.go:105-107 NormalizeForRun *)
Definition NormalizeForRun (dsl : option loc) : mem (option loc) := normalize dsl true.

(** ** Reset *)

Definition copy_value (maps : option loc → mem (option loc)) (lists : option slice → mem (option slice)) (v : any) : mem any :=
  match v with
  | AMap x => c ⇐ maps x; mret' (AMap c)
  | AList x => c ⇐ lists x; mret' (AList c)
  | v => mret' v
  end.
(* internal/agent/dsl/reset.go:238-272 deepCopyMap(part) *)
Fixpoint deepCopyMap (fuel : nat) (m : option loc) : mem (option loc) :=
  match fuel with
  | O => mpanic
  | S fuel =>
      match m with
      | None => mret' None
      | Some _ =>
          h ⇐ mget;
          kvs ⇐ mmap (λ kv : string * any, v ⇐ copy_value (deepCopyMap fuel) (deepCopySlice fuel) kv.2; mret' (kv.1, v))
                  (range (map_at h m));
          l ⇐ new_map (list_to_map kvs);
          mret' (Some l)
      end
  end
with deepCopySlice (fuel : nat) (s : option slice) : mem (option slice) :=
  match fuel with
  | O => mpanic
  | S fuel =>
      match s with
      | None => mret' None
      | Some _ => h ⇐ mget; vs ⇐ mmap (copy_value (deepCopyMap fuel) (deepCopySlice fuel)) (elems h s); new_slice vs
      end
  end.
Definition deep_copy_map (m : option loc) : mem (option loc) := h ⇐ mget; deepCopyMap (2 + heap_cells h) m.

(** [m[k] = []any{}]. *)
Definition put_empty_list (m : option loc) (k : string) : mem unit := s ⇐ new_slice []; put_key m k (AList s).

(* internal/agent/dsl/reset.go:52-67 ResetForNewSession *)
Definition ResetForNewSession (dsl : option loc) : mem (option loc) :=
  match dsl with
  | None => l ⇐ new_map ∅; mret' (Some l)
  | Some _ =>
      out ⇐ deep_copy_map dsl;
      _ ⇐ put_empty_list out "history";
      _ ⇐ put_empty_list out "path";
      h ⇐ mget;
      globals ⇐ match non_nil_map (get_key h out "globals") with
                | Some g => mret' g
                | None => g ⇐ new_map ∅; _ ⇐ put_key out "globals" (AMap (Some g)); mret' g
                end;
      _ ⇐ put_empty_list (Some globals) "sys.history";
      mret' out
  end.

(* internal/agent/dsl/reset.go:179-202 zeroByType *)
Definition zeroByType (v : any) : mem any :=
  match v with
  | AStr _ => mret' (AStr "")
  | ABool _ => mret' (ABool false)
  | AInt _ => mret' (AInt 0)
  | AInt32 _ => mret' (AInt32 0)
  | AInt64 _ => mret' (AInt64 0)
  | AFloat32 _ => mret' (AFloat32 (f64_of_int 0))
  | AFloat _ => mret' (AFloat (f64_of_int 0))
  | AList _ => s ⇐ new_slice []; mret' (AList s)
  | AMap _ => l ⇐ new_map ∅; mret' (AMap (Some l))
  | _ => mret' ANil
  end.

(* internal/agent/dsl/reset.go:213-227 zeroByVariableType *)
Definition zeroByVariableType (v : option loc) : mem any :=
  h ⇐ mget;
  let t := str_of (get_key h v "type") in
  if decide (t = "number") then mret' (AInt 0)
  else if decide (t = "boolean") then mret' (ABool false)
  else if decide (t = "object") then l ⇐ new_map ∅; mret' (AMap (Some l))
  else if has_prefix t "array" then s ⇐ new_slice []; mret' (AList s)
  else mret' (AStr "").

(** [len(k) > 4 && k[:4] == ns]. *)
Definition in_namespace (ns k : string) : bool := bool_decide (4 < String.length k) && has_prefix k ns.

(** The value of a declared variable. *)
(* internal/agent/dsl/reset.go:145-159 ResetForCanvas(part) *)
Definition env_default (vars : option loc) (name : string) : mem any :=
  h ⇐ mget;
  match get_key h vars name with
  | AMap v =>
      match map_at h v !! "value" with
      | Some value => if is_nil value then zeroByVariableType v else mret' value
      | None => zeroByVariableType v
      end
  | _ => mret' (AStr "")
  end.

(* internal/agent/dsl/reset.go:85-162 ResetForCanvas *)
Definition ResetForCanvas (dsl : option loc) : mem (option loc) :=
  match dsl with
  | None => l ⇐ new_map ∅; mret' (Some l)
  | Some _ =>
      out ⇐ copyMapStringAny dsl;
      _ ⇐ put_empty_list out "history";
      _ ⇐ put_empty_list out "retrieval";
      _ ⇐ put_empty_list out "memory";
      _ ⇐ put_empty_list out "path";
      h ⇐ mget;
      vars ⇐ ensure_map (non_nil_map (get_key h out "variables"));
      vars ⇐ deep_copy_map vars;
      h ⇐ mget;
      match non_nil_map (get_key h out "globals") with
      | None => mret' out
      | Some globals =>
          globals ⇐ deep_copy_map (Some globals);
          _ ⇐ put_key out "globals" (AMap globals);
          h ⇐ mget;
          let keys := (range (map_at h globals)).*1 in
          _ ⇐ for_each (λ k, z ⇐ (h ⇐ mget; zeroByType (get_key h globals k)); put_key globals k z)
                (filter (λ k, in_namespace "sys." k) keys);
          _ ⇐ for_each (λ k, v ⇐ env_default vars (drop_prefix "env." k); put_key globals k v)
                (filter (λ k, in_namespace "env." k) keys);
          mret' out
      end
  end.
End dsl.

(** ** Extraction *)

(* internal/agent/dsl/errors.go:24-38 ErrMalformedDSL *)
Inductive dsl_error :=
| ErrMalformedDSL (why : string)
| ErrComponentNotFound (componentID : string)
| ErrMissingInputForm (componentID : string).

Section extract.
Context (h : heap).

(* internal/agent/dsl/extract.go:122-139 navigateToComponent *)
Definition navigateToComponent (dsl : option loc) (componentID : string) : dsl_error + option loc :=
  match dsl with
  | None => inl (ErrMalformedDSL "nil dsl")
  | Some _ =>
      match get_key h dsl "components" with
      | AMap comps =>
          match map_at h comps !! componentID with
          | None => inl (ErrComponentNotFound componentID)
          | Some (AMap cm) => inr cm
          | Some _ => inl (ErrMalformedDSL (componentID +:+ " is not a dict"))
          end
      | _ => inl (ErrMalformedDSL "missing components map")
      end
  end.

(** The component's [obj], for the three extractors. *)
Definition component_obj (dsl : option loc) (componentID : string) : dsl_error + option loc :=
  match navigateToComponent dsl componentID with
  | inl e => inl e
  | inr comp => match get_key h comp "obj" with
                | AMap obj => inr obj
                | _ => inl (ErrMalformedDSL (componentID +:+ " has no obj"))
                end
  end.

(* internal/agent/dsl/extract.go:78-96 ExtractComponentParams *)
Definition ExtractComponentParams (dsl : option loc) (componentID : string) : dsl_error + option loc :=
  match component_obj dsl componentID with
  | inl e => inl e
  | inr obj =>
      match get_key h obj "params" with
      | ANil => inr None
      | AMap params => inr params
      | _ => inl (ErrMalformedDSL (componentID +:+ " params is not a dict"))
      end
  end.

(* internal/agent/dsl/extract.go:45-71 ExtractComponentInputForm *)
Definition ExtractComponentInputForm (dsl : option loc) (componentID : string) : dsl_error + option loc :=
  match component_obj dsl componentID with
  | inl e => inl e
  | inr obj =>
      match get_key h obj "params" with
      | ANil => inl (ErrMissingInputForm componentID)
      | AMap params =>
          match get_key h params "inputs" with
          | ANil => inl (ErrMissingInputForm componentID)
          | AMap form => inr form
          | _ => inl (ErrMalformedDSL (componentID +:+ " params.inputs is not a dict"))
          end
      | _ => inl (ErrMalformedDSL (componentID +:+ " params is not a dict"))
      end
  end.

(* internal/agent/dsl/extract.go:102-116 ExtractComponentName *)
Definition ExtractComponentName (dsl : option loc) (componentID : string) : dsl_error + string :=
  match component_obj dsl componentID with
  | inl e => inl e
  | inr obj =>
      let name := str_of (get_key h obj "component_name") in
      if decide (name = "") then inl (ErrMalformedDSL (componentID +:+ " has no component_name")) else inr name
  end.

(** [m, _ := v.(map[string]any)]; reading a nil map gives nil. *)
Definition is_begin (raw : any) : bool :=
  match raw with
  | AMap cm => bool_decide (str_of (get_key h (non_nil_map (get_key h cm "obj")) "component_name") = "Begin")
  | _ => false
  end.
(* internal/agent/dsl/extract.go:152-172 FindBeginComponentID *)
Definition FindBeginComponentID `{MapOrder} (dsl : option loc) : dsl_error + string :=
  match dsl with
  | None => inl (ErrMalformedDSL "nil dsl")
  | Some _ =>
      match get_key h dsl "components" with
      | AMap comps =>
          match head (filter (λ kv, is_begin kv.2) (range (map_at h comps))) with
          | Some (id, _) => inr id
          | None => inl (ErrComponentNotFound "Begin component")
          end
      | _ => inl (ErrMalformedDSL "missing components map")
      end
  end.

(** A text parameter of the Begin component. *)
Definition begin_param `{MapOrder} (dsl : option loc) (k : string) : dsl_error + string :=
  match FindBeginComponentID dsl with
  | inl e => inl e
  | inr id =>
      match navigateToComponent dsl id with
      | inl e => inl e
      | inr comp =>
          let obj := non_nil_map (get_key h comp "obj") in
          inr (str_of (get_key h (non_nil_map (get_key h obj "params")) k))
      end
  end.
(* internal/agent/dsl/extract.go:177-190 ExtractPrologue *)
Definition ExtractPrologue `{MapOrder} (dsl : option loc) : dsl_error + string := begin_param dsl "prologue".
(* internal/agent/dsl/extract.go:194-207 ExtractMode *)
Definition ExtractMode `{MapOrder} (dsl : option loc) : dsl_error + string := begin_param dsl "mode".
End extract.
