(* ===== verification/CanvasBuild.v ===== *)
(** * Building the workflow of a canvas (internal/agent/canvas/scheduler.go, loop_subgraph.go,
    parallel_subgraph.go, multibranch.go, node_body.go)

    A workflow of the graph library is described by the calls that build it: the
    nodes with their bodies, one data input or dependency per edge, branches, and
    the inputs of the end node.  The components are built by a factory, a
    parameter, as is whether the library accepts a sub-workflow. *)

From S2P Require Import Prelude GoValue TitleLevels StateMap AgentValue CanvasState CanvasTemplate.
From S2P Require Import NodeSwitch CanvasDSL LoopCondition.

Open Scope go_scope.

(** Computations that may fail with an error. *)
Notation "x ⇐? c ; k" := (mbind' c (λ r, match r with inl err => mret' (inl err) | inr x => k end))
  (at level 20, c at level 100, k at level 200, right associativity) : go_scope.
Section efold.
Context {A B E : Type}.
Variable f : B → A → mem (E + B).
Fixpoint efold (l : list A) (b : B) : mem (E + B) :=
  match l with
  | [] => mret' (inr b)
  | x :: l => b ⇐? f b x; efold l b
  end.
End efold.

(** The members of a set in the order of a range. *)
Definition range_set `{MapOrder} (s : gset string) : list string := (range (gset_to_gmap () s)).*1.

(** ** Descriptions of workflows *)

Inductive node_body {C : Type} :=
| LegacyNoOpBody
| UserFillUpBody (params : option loc)
| RealBody (comp : C) (deferToMessage suppressEvents : bool)
| PlaceholderBody
| LoopInitBody (loopID : string) (initValues : gmap string initVarSpec)
| GatherBody (terminals : list string)       (* forwards the terminal that ran *)
| EchoBody
| CollectItemBody (key : string)
| BatchBody (key itemsRef : string)
| CollectBody (key : string) (outputRefs : gmap string string).
Arguments node_body : clear implicits.

Inductive wf_call {C : Type} :=
| AddLambdaNode (id : string) (body : node_body C)
| AddLoopNode (id : string) (sub : list wf_call) (quit : list loopConditionSpec * bool) (maxIters : Z)
| AddGraphNode (id : string) (sub : list wf_call)
| AddParallelNode (id : string) (sub : list wf_call) (maxConcurrency : Z)
| StartInput (id : string)
| AddInput (id from : string)
| AddDependency (id from : string)
| AddFieldInput (id from : string)
| AddBranch (id : string) (endNodes : gset string)
| EndInput (from : string)
| EndFieldInput (from : string).
Arguments wf_call : clear implicits.
Notation workflow C := (list (wf_call C)).

Definition terminalMergeNodeID : string := "__canvas_terminal_merge__".
Definition loopInitKey : string := "__loop_init__".

Inductive build_error :=
| NoComponents
| EmptyComponent (cpnID : string)
| EmptyLoopMember (loopID cpnID : string)
| FactoryError (cpnID name text : string)
| FactoryNil (cpnID name : string)
| UnknownComponentName (cpnID name : string)
| SelfEdge (cpnID : string)
| UnknownUpstream (cpnID up : string)
| UnknownEdgeComponent (cpnID : string)
| EndNodeNotSet
| LoopError (loopID : string) (err : loop_error)
| InstallLoop (loopID : string)
| MissingParams (parallelID : string)
| MissingItemsRef (parallelID : string)
| InstallParallel (parallelID : string)
| SearchFuel.                                  (* not reached *)

Section build.
Context `{GoLib} {C : Type}.
(** [runtime.DefaultFactory], or the factory of the context: an error text, or a component. *)
Variable factory : option (string → option loc → string + option C).
(** Whether the library compiles a sub-workflow of a loop, and one of a parallel node. *)
Variable compiles : workflow C → bool.
(** The overrides of the run, by component. *)
Variable overrides : params.

(** ** Bodies of nodes *)

(* internal/agent/canvas/canvas.go:30-32 legacyNoOpNames *)
Definition legacyNoOpNames : list string := ["exitloop"].
(* internal/agent/canvas/scheduler.go:98-100 isLegacyNoOp *)
Definition isLegacyNoOp (name : string) : bool := bool_decide (to_lower name ∈ legacyNoOpNames).
(* internal/agent/canvas/scheduler.go:111-129 isKnownPrimitive *)
Definition isKnownPrimitive (name : string) : bool :=
  if decide (name = "") then false
  else isLegacyNoOp name
       || bool_decide (to_lower name ∈ ["begin"; "message"; "llm"; "categorize"; "switch"; "agent"; "invoke"; "dataoperations";
            "listoperations"; "stringtransform"; "variableaggregator"; "variableassigner"; "loop"; "parallel"]).

(* internal/agent/canvas/node_body.go:111-123 applyOverrideParams *)
Definition applyOverrideParams (params cpnOverride : option loc) : mem (option loc) :=
  h ⇐ mget;
  if decide (size (map_at h cpnOverride) = 0) then mret' params
  else l ⇐ new_map (map_at h cpnOverride ∪ map_at h params); mret' (Some l).

(* internal/agent/canvas/node_body.go:129-172 buildNodeBodyWithOptions *)
Definition buildNodeBodyWithOptions (cpnID name : string) (params : option loc) (deferToMessage suppressEvents : bool)
    : mem (build_error + node_body C) :=
  params ⇐ match param overrides cpnID with AMap o => applyOverrideParams params o | _ => mret' params end;
  mret' (if isLegacyNoOp name then inr LegacyNoOpBody
         else if equal_fold name "UserFillUp" then inr (UserFillUpBody params)
         else match factory with
              | Some f => match f name params with
                          | inl text => inl (FactoryError cpnID name text)
                          | inr None => inl (FactoryNil cpnID name)
                          | inr (Some comp) => inr (RealBody comp deferToMessage suppressEvents)
                          end
              | None => if isKnownPrimitive name then inr PlaceholderBody else inl (UnknownComponentName cpnID name)
              end).

(* internal/agent/canvas/scheduler.go:735-750 directMessageDownstream *)
Definition directMessageDownstream (c : Canvas) (cpnID : string) : bool :=
  existsb (λ downID, match Components c !! downID with Some down => equal_fold (ComponentName down) "Message" | None => false end)
    (Downstream (component c cpnID)).
(* internal/agent/canvas/scheduler.go:568-573 BuildWorkflow(part) *)
Definition body_of (c : Canvas) (cpnID : string) : mem (build_error + node_body C) :=
  let name := ComponentName (component c cpnID) in
  let deferToMessage := directMessageDownstream c cpnID in
  buildNodeBodyWithOptions cpnID name (Params (component c cpnID)) deferToMessage (equal_fold name "Agent" && negb deferToMessage).

(** ** Branches and ends *)

(* internal/agent/canvas/multibranch.go:72-74 isBranchableControl *)
Definition isBranchableControl (name : string) : bool := bool_decide (to_lower name ∈ ["switch"; "categorize"]).

(* internal/agent/canvas/multibranch.go:115-124 wireMultiBranches(part) *)
Definition branch_ends (c : Canvas) (loopMembers : gset string) (comp : CanvasComponent) : gset string :=
  list_to_set (filter (λ child, child ∉ loopMembers ∧ is_Some (Components c !! child)) (Downstream comp)).
(* internal/agent/canvas/multibranch.go:92-146 wireMultiBranches *)
Definition wireMultiBranches `{MapOrder} (c : Canvas) (loopMembers : gset string) : workflow C :=
  omap (λ kc : string * CanvasComponent,
    let '(cpnID, comp) := kc in
    if decide (cpnID ∈ loopMembers) then None
    else if isBranchableControl (ComponentName comp) then
      let endNodes := branch_ends c loopMembers comp in
      if decide (size endNodes < 2) then None else Some (AddBranch cpnID endNodes)
    else None) (range (Components c)).

(** The first source carries the data, the others are dependencies. *)
Definition wire_sources (cpnID : string) (sources : list string) : workflow C :=
  match sources with
  | [] => []
  | up :: ups => AddInput cpnID up :: map (AddDependency cpnID) ups
  end.

(* internal/agent/canvas/scheduler.go:752-822 wireWorkflowTerminals *)
Definition wireWorkflowTerminals (terminals : list string) (fallback : string) (useFieldMapping : bool) : build_error + workflow C :=
  let end_input id := if useFieldMapping then EndFieldInput id else EndInput id in
  match match terminals with [] => if decide (fallback = "") then None else Some [fallback] | _ => Some terminals end with
  | None => inl EndNodeNotSet
  | Some [t] => inr [end_input t]
  | Some ts =>
      if useFieldMapping then
        inr ([AddLambdaNode terminalMergeNodeID EchoBody] ++ wire_sources terminalMergeNodeID ts ++ [end_input terminalMergeNodeID])
      else
        inr ([AddLambdaNode terminalMergeNodeID (GatherBody ts)] ++ map (AddFieldInput terminalMergeNodeID) ts ++ [end_input terminalMergeNodeID])
  end.

(** ** The body of a loop *)

(** The sources of a member. *)
(* internal/agent/canvas/loop_subgraph.go:264-295 buildSubWorkflow(part) *)
Definition member_sources (c : Canvas) (members : gset string) (loopID cpnID : string) : list string :=
  match omap (λ up, if decide (up = loopID) then Some loopInitKey else if decide (up ∈ members) then Some up else None)
          (Upstream (component c cpnID)) with
  | [] => [loopInitKey]
  | sources => sources
  end.
(* internal/agent/canvas/loop_subgraph.go:306-327 buildSubWorkflow(part) *)
Definition is_sub_terminal (c : Canvas) (members : gset string) (cpnID : string) : bool :=
  let comp := component c cpnID in
  negb (existsb (λ down, bool_decide (down ∈ members)) (Downstream comp))
  && (negb (isLegacyNoOp (ComponentName comp)) || equal_fold (ComponentName comp) "ExitLoop").

(* internal/agent/canvas/loop_subgraph.go:342-357 subCanvasForMembers *)
Definition subCanvasForMembers (c : Canvas) (members : gset string) : Canvas :=
  {| Components := filter (λ kc, kc.1 ∈ members) (Components c); cv_Path := []; cv_History := []; cv_Memory := [];
     cv_Globals := None; NodeParents := ∅ |}.

(** The orders of the ranges over the members, one per loop of the code. *)
Record orders := { o_nodes : MapOrder; o_edges : MapOrder; o_branches : MapOrder; o_ends : MapOrder }.

(* internal/agent/canvas/loop_subgraph.go:165-340 buildSubWorkflow *)
Definition buildSubWorkflow (O : orders) (c : Canvas) (members : gset string) (loopID : string) (initValues : gmap string initVarSpec)
    : mem (build_error + workflow C) :=
  nodes ⇐? efold (λ acc cpnID,
      if decide (ComponentName (component c cpnID) = "") then mret' (inl (EmptyLoopMember loopID cpnID)) else
      body ⇐? body_of c cpnID;
      mret' (inr (acc ++ [AddLambdaNode cpnID body]))) (@range_set (o_nodes O) members) [AddLambdaNode loopInitKey (LoopInitBody loopID initValues)];
  let edges := @range_set (o_edges O) members ≫= λ cpnID, wire_sources cpnID (member_sources c members loopID cpnID) in
  let branches := @wireMultiBranches (o_branches O) (subCanvasForMembers c members) ∅ in
  let terminals := filter (λ cpnID, is_sub_terminal c members cpnID = true) (@range_set (o_ends O) members) in
  mret' (match wireWorkflowTerminals terminals loopInitKey false with
         | inl err => inl err
         | inr ends => inr (nodes ++ edges ++ branches ++ ends ++ [StartInput loopInitKey])
         end).

(** The sub-workflow, the condition to stop, the bound and the members. *)
(* internal/agent/canvas/loop_subgraph.go:51-56 loopExpansion *)
Record loopExpansion := {
  lx_Sub : workflow C; lx_ShouldQuit : list loopConditionSpec * bool; lx_MaxIters : Z; lx_Members : gset string }.

Definition in_loop {A} (loopID : string) (r : loop_error + A) : build_error + A :=
  match r with inl err => inl (LoopError loopID err) | inr a => inr a end.
(* internal/agent/canvas/loop_subgraph.go:73-111 buildLoopExpansion *)
Definition buildLoopExpansion (O : orders) (c : Canvas) (loopID : string) : mem (build_error + loopExpansion) :=
  let comp := component c loopID in
  members ⇐? mret' (match collectLoopMembers c loopID with Some m => inr m | None => inl SearchFuel end);
  r ⇐ resolveInitialVariables (Params comp);
  initValues ⇐? mret' (in_loop loopID r);
  h ⇐ mget;
  quit ⇐? mret' (in_loop loopID (translateLoopCondition h (Params comp)));
  sub ⇐? buildSubWorkflow O c members loopID initValues;
  mret' (inr {| lx_Sub := sub; lx_ShouldQuit := quit; lx_MaxIters := readMaxLoopCount h (Params comp); lx_Members := members |}).

(** ** Parallel *)

(* internal/agent/canvas/parallel_subgraph.go:99-129 readParallelParams *)
Definition readParallelParams (h : heap) (parallelID : string) (params : option loc) : build_error + (string * Z * gmap string string) :=
  match params with
  | None => inl (MissingParams parallelID)
  | Some _ =>
      let itemsRef := str_of (get_key h params "items_ref") in
      if decide (itemsRef = "") then inl (MissingItemsRef parallelID) else
      let maxConcurrency := match get_key h params "max_concurrency" with
                            | AInt v | AInt64 v => v
                            | AFloat v => int_of_f64 v
                            | _ => 0%Z
                            end in
      let rawOutputs := match get_key h params "outputs" with AMap m => map_at h m | _ => ∅ end in
      let ref_of (raw : any) := match raw with
                                | AMap (Some spec) => let ref := str_of (get_key h (Some spec) "ref") in
                                                      if decide (ref = "") then None else Some ref
                                | _ => None
                                end in
      inr (itemsRef, maxConcurrency, omap ref_of rawOutputs)
  end.

(* internal/agent/canvas/parallel_subgraph.go:131-185 buildParallelItemWorkflow *)
Definition buildParallelItemWorkflow (O : orders) (c : Canvas) (parallelID : string) (members : gset string) : mem (build_error + workflow C) :=
  sub ⇐? buildSubWorkflow O c members parallelID ∅;
  let body := parallelID +:+ "__parallel_body__" in
  mret' (inr [AddLambdaNode "__parallel_item_input__" EchoBody;
              StartInput "__parallel_item_input__";
              AddGraphNode body sub;
              AddInput body "__parallel_item_input__";
              AddLambdaNode "__parallel_item_collect__" (CollectItemBody parallelID);
              AddInput "__parallel_item_collect__" body;
              EndInput "__parallel_item_collect__"]).

(* internal/agent/canvas/parallel_subgraph.go:187-281 buildParallelOuterWorkflow *)
Definition buildParallelOuterWorkflow (key itemsRef : string) (maxConcurrency : Z) (outputRefs : gmap string string) (sub : workflow C)
    : build_error + workflow C :=
  let batchInputKey := key +:+ "__parallel_batch_input__" in
  let batchGraphKey := key +:+ "__parallel_batch_graph__" in
  let collectKey := key +:+ "__parallel_collect__" in
  let batchKey := key +:+ "__parallel_batch__" in
  if compiles sub then
    inr [AddLambdaNode batchInputKey (BatchBody key itemsRef);
         StartInput batchInputKey;
         AddGraphNode batchGraphKey [AddParallelNode batchKey sub (Z.max 0 maxConcurrency); StartInput batchKey; EndInput batchKey];
         AddInput batchGraphKey batchInputKey;
         AddLambdaNode collectKey (CollectBody key outputRefs);
         AddInput collectKey batchGraphKey;
         EndInput collectKey]
  else inl (InstallParallel key).

(* internal/agent/canvas/parallel_subgraph.go:44-84 buildParallelExpansion *)
Definition buildParallelExpansion (O : orders) (c : Canvas) (parallelID : string) : mem (build_error + (workflow C * gset string)) :=
  let comp := component c parallelID in
  members ⇐? mret' (match collectLoopMembers c parallelID with Some m => inr m | None => inl SearchFuel end);
  h ⇐ mget;
  p ⇐? mret' (readParallelParams h parallelID (Params comp));
  let '(itemsRef, maxConcurrency, outputRefs) := p in
  sub ⇐? buildParallelItemWorkflow O c parallelID members;
  graph ⇐? mret' (buildParallelOuterWorkflow parallelID itemsRef maxConcurrency outputRefs sub);
  mret' (inr (graph, members)).

(** ** The outer workflow *)

(** The calls so far, the macro nodes and the members of their bodies. *)
(* internal/agent/canvas/scheduler.go:474-529 BuildWorkflow(part) *)
Definition expand_macro (O : orders) (c : Canvas) (acc : workflow C * gset string * gset string) (kc : string * CanvasComponent)
    : mem (build_error + (workflow C * gset string * gset string)) :=
  let '(calls, macroNodes, macroMembers) := acc in
  let '(cpnID, comp) := kc in
  if equal_fold (ComponentName comp) "Loop" then
    exp ⇐? buildLoopExpansion O c cpnID;
    if compiles (lx_Sub exp) then
      mret' (inr (calls ++ [AddLoopNode cpnID (lx_Sub exp) (lx_ShouldQuit exp) (Z.max 0 (lx_MaxIters exp))],
                  {[cpnID]} ∪ macroNodes, lx_Members exp ∪ macroMembers))
    else mret' (inl (InstallLoop cpnID))
  else if equal_fold (ComponentName comp) "Parallel" then
    exp ⇐? buildParallelExpansion O c cpnID;
    mret' (inr (calls ++ [AddGraphNode cpnID exp.1], {[cpnID]} ∪ macroNodes, exp.2 ∪ macroMembers))
  else mret' (inr acc).

(** Pass 1: the nodes of the outer graph, and the edges to wire. *)
(* internal/agent/canvas/scheduler.go:551-612 BuildWorkflow(part) *)
Definition register_node (c : Canvas) (macroNodes macroMembers : gset string) (acc : workflow C * list (string * string)) (kc : string * CanvasComponent)
    : mem (build_error + (workflow C * list (string * string))) :=
  let '(calls, pending) := acc in
  let '(cpnID, comp) := kc in
  let edges := map (λ up, (cpnID, up)) (Upstream comp) in
  if decide (cpnID ∈ macroNodes) then mret' (inr (calls, pending ++ edges))
  else if decide (cpnID ∈ macroMembers) then mret' (inr acc)
  else if decide (ComponentName comp = "") then mret' (inl (EmptyComponent cpnID))
  else body ⇐? body_of c cpnID;
       mret' (inr (calls ++ [AddLambdaNode cpnID body], pending ++ edges)).

(** The nodes of the outer graph: macro nodes, and components outside every body. *)
Definition outer_node (c : Canvas) (macroNodes macroMembers : gset string) (id : string) : Prop :=
  id ∈ macroNodes ∨ (is_Some (Components c !! id) ∧ id ∉ macroMembers).
#[global] Instance outer_node_dec c mn mm id : Decision (outer_node c mn mm id) := _.

(** Pass 2: the first edge of a node carries the data, the others are dependencies. *)
(* internal/agent/canvas/scheduler.go:642-660 BuildWorkflow(part) *)
Fixpoint wire_edges (known : string → bool) (first : gset string) (pending : list (string * string)) : build_error + workflow C :=
  match pending with
  | [] => inr []
  | (cpn, up) :: pending =>
      if decide (cpn = up) then inl (SelfEdge cpn)
      else if negb (known up) then inl (UnknownUpstream cpn up)
      else if negb (known cpn) then inl (UnknownEdgeComponent cpn)
      else match wire_edges known ({[cpn]} ∪ first) pending with
           | inl err => inl err
           | inr calls => inr ((if decide (cpn ∈ first) then AddDependency cpn up else AddInput cpn up) :: calls)
           end
  end.

(** Pass 3: the inputs from the start, and the terminals. *)
(* internal/agent/canvas/scheduler.go:695-719 BuildWorkflow(part) *)
Definition start_input (macroNodes macroMembers : gset string) (kc : string * CanvasComponent) : option (wf_call C) :=
  let '(cpnID, comp) := kc in
  if decide (cpnID ∈ macroMembers ∧ cpnID ∉ macroNodes) then None
  else match Upstream comp with [] => Some (StartInput cpnID) | _ => None end.
(* internal/agent/canvas/scheduler.go:701-722 BuildWorkflow(part) *)
Definition is_terminal (macroNodes macroMembers : gset string) (kc : string * CanvasComponent) : bool :=
  let '(cpnID, comp) := kc in
  if decide (cpnID ∈ macroNodes) then forallb (λ down, bool_decide (down ∈ macroMembers)) (Downstream comp)
  else if decide (cpnID ∈ macroMembers) then false
  else match Downstream comp with [] => true | _ => false end.

(** The orders of the ranges of the outer build, and of those of each body. *)
Record build_orders := { b_macros : MapOrder; b_nodes : MapOrder; b_branches : MapOrder; b_ends : MapOrder; b_sub : string → orders }.

(* internal/agent/canvas/scheduler.go:402-730 BuildWorkflow *)
Definition BuildWorkflow (O : build_orders) (c : Canvas) : mem (build_error + workflow C) :=
  if decide (size (Components c) = 0) then mret' (inl NoComponents) else
  m ⇐? efold (λ acc kc, expand_macro (b_sub O kc.1) c acc kc) (@range (b_macros O) _ (Components c)) ([], ∅, ∅);
  let '(macro_calls, macroNodes, macroMembers) := m in
  n ⇐? efold (register_node c macroNodes macroMembers) (@range (b_nodes O) _ (Components c)) ([], []);
  let '(node_calls, pending) := n in
  edges ⇐? mret' (wire_edges (λ id, bool_decide (outer_node c macroNodes macroMembers id)) ∅ pending);
  let branches := @wireMultiBranches (b_branches O) c macroMembers in
  let rows := @range (b_ends O) _ (Components c) in
  let terminals := (filter (λ kc, is_terminal macroNodes macroMembers kc = true) rows).*1 in
  ends ⇐? mret' (wireWorkflowTerminals terminals "" true);
  mret' (inr (macro_calls ++ node_calls ++ edges ++ branches ++ omap (start_input macroNodes macroMembers) rows ++ ends)).
End build.
