(* ===== verification/CanvasNodes.v ===== *)
(** * The state around a node (internal/agent/canvas/scheduler.go, node_body.go, parallel_subgraph.go)

    A run has the state of the graph library, given to the handlers before and
    after every node, and the state in the context, which the components use.  The
    handlers copy between the two.  The snapshot that the handlers put under the
    key "state" of the input is a value of its own here. *)

From S2P Require Import Prelude GoValue TitleLevels StateMap AgentValue CanvasState CanvasTemplate.
From S2P Require Import NodeSwitch NodeAssign CanvasDSL LoopCondition CanvasBuild.

Open Scope go_scope.

(** The state in the context: none, the one of the graph, or another. *)
Inductive context := NoContext | SameContext | OtherContext (s : CanvasState).

Section nodes.
Context `{GoLib} `{MapOrder}.

(** [ns[k] = v] for every entry. *)
Definition put_all (m : option loc) (entries : gmap string any) : mem unit :=
  mfold (λ _ kv, put_key m kv.1 kv.2) (range entries) ().
(** [SetVar(cpnID, k, v)] for every entry of a bucket. *)
Definition set_bucket (s : CanvasState) (cpnID : string) (entries : list (string * any)) : mem CanvasState :=
  mfold (λ s kv, SetVar s cpnID kv.1 kv.2) entries s.

(* internal/agent/canvas/scheduler.go:158-162 statePre(part) *)
Definition sync_outputs (state ctxState : CanvasState) : mem CanvasState :=
  mfold (λ x kb, h ⇐ mget; set_bucket x kb.1 (range (map_at h kb.2))) (range (Outputs state)) ctxState.
(* internal/agent/canvas/scheduler.go:163-172 statePre(part) *)
Definition sync_namespaces (state ctxState : CanvasState) : mem unit :=
  '(sysNS, envNS, globalsNS) ⇐ SnapshotNamespaces state;
  h ⇐ mget;
  _ ⇐ put_all (Sys ctxState) (map_at h sysNS);
  _ ⇐ put_all (Env ctxState) (map_at h envNS);
  put_all (Globals ctxState) (map_at h globalsNS).
(** The longer of two lists replaces the other one. *)
(* internal/agent/canvas/scheduler.go:173-189 statePre(part) *)
Definition sync_lists (state ctxState : CanvasState) (history memory : list (option loc) * list (option loc)) (sysHistory : option slice * option slice)
    : mem (CanvasState * CanvasState) :=
  let '(localHistory, contextHistory) := history in
  let '(localMemory, contextMemory) := memory in
  let '(localSys, contextSys) := sysHistory in
  '(state, ctxState) ⇐ (if decide (length localHistory ≤ length contextHistory)
                        then s ⇐ SetHistory state contextHistory; mret' (s, ctxState)
                        else x ⇐ SetHistory ctxState localHistory; mret' (state, x));
  '(state, ctxState) ⇐ (if decide (length localMemory ≤ length contextMemory)
                        then s ⇐ SetMemory state contextMemory; mret' (s, ctxState)
                        else x ⇐ SetMemory ctxState localMemory; mret' (state, x));
  let longer := if decide (slice_len localSys ≤ slice_len contextSys) then contextSys else localSys in
  state ⇐ SetSysHistory state longer;
  ctxState ⇐ SetSysHistory ctxState longer;
  mret' (state, ctxState).

(* internal/agent/canvas/scheduler.go:150-191 statePre(part) *)
Definition sync_context (state ctxState : CanvasState) : mem (CanvasState * CanvasState) :=
  localHistory ⇐ SnapshotHistory state;
  contextHistory ⇐ SnapshotHistory ctxState;
  localMemory ⇐ SnapshotMemory state;
  contextMemory ⇐ SnapshotMemory ctxState;
  localSys ⇐ SnapshotSysHistory state;
  contextSys ⇐ SnapshotSysHistory ctxState;
  ctxState ⇐ sync_outputs state ctxState;
  _ ⇐ sync_namespaces state ctxState;
  sync_lists state ctxState (localHistory, contextHistory) (localMemory, contextMemory) (localSys, contextSys).

(** The input of a node, the snapshot it sees, and the two states. *)
(* internal/agent/canvas/scheduler.go:143-199 statePre *)
Definition statePre (ctx : context) (inp : params) (state : CanvasState)
    : mem (params * gmap string (option loc) * CanvasState * context) :=
  '(state, ctx) ⇐ match ctx with
                  | OtherContext ctxState => '(s, x) ⇐ sync_context state ctxState; mret' (s, OtherContext x)
                  | _ => mret' (state, ctx)
                  end;
  snapshot ⇐ Snapshot state;
  mret' (delete "state" inp, snapshot, state, ctx).

(** The keys of an output that are not the component's. *)
Definition reserved_keys : list string := ["__cpn_id__"; "state"; "__legacy_noop__"].
(* internal/agent/canvas/scheduler.go:256-271 sanitizeNodeInputs *)
Definition sanitizeNodeInputs (inputs : params) : params := filter (λ kv, kv.1 ∉ reserved_keys) inputs.

(** One output, into the state and the state of the context. *)
(* internal/agent/canvas/scheduler.go:227-232 statePost(part) *)
Definition record_output (cpnID : string) (acc : CanvasState * context) (kv : string * any) : mem (CanvasState * context) :=
  let '(state, ctx) := acc in
  state ⇐ SetVar state cpnID kv.1 kv.2;
  match ctx with
  | NoContext => mret' (state, ctx)
  | SameContext => s ⇐ SetVar state cpnID kv.1 kv.2; mret' (s, ctx)
  | OtherContext x => x ⇐ SetVar x cpnID kv.1 kv.2; mret' (state, OtherContext x)
  end.
(* internal/agent/canvas/scheduler.go:234-241 statePost(part) *)
Definition adopt_context (state ctxState : CanvasState) : mem CanvasState :=
  '(sysNS, envNS, globalsNS) ⇐ SnapshotNamespaces ctxState;
  history ⇐ SnapshotHistory ctxState;
  state ⇐ SetHistory (with_namespaces state sysNS envNS globalsNS) history;
  memory ⇐ SnapshotMemory ctxState;
  SetMemory state memory.
(* internal/agent/canvas/scheduler.go:217-243 statePost *)
Definition statePost (ctx : context) (out : params) (state : CanvasState) : mem (CanvasState * context) :=
  let cpnID := str_of (param out "__cpn_id__") in
  if decide (cpnID = "") then mret' (state, ctx) else
  '(state, ctx) ⇐ mfold (record_output cpnID) (filter (λ kv, kv.1 ∉ reserved_keys) (range out)) (state, ctx);
  match ctx with
  | OtherContext x => s ⇐ adopt_context state x; mret' (s, ctx)
  | _ => mret' (state, ctx)
  end.

(** The start time and inputs of a node, kept in the system variables. *)
(* internal/agent/canvas/scheduler.go:276-286 nodeStartedAt(part) *)
Definition nodeStartedAt (now : float64) (state : CanvasState) (cpnID : string) (inputs : params) : mem unit :=
  match Sys state with
  | None => mret' ()
  | sys =>
      _ ⇐ put_key sys ("_node_start_" +:+ cpnID) (AFloat now);
      l ⇐ new_map (sanitizeNodeInputs inputs);
      put_key sys ("_node_inputs_" +:+ cpnID) (AMap (Some l))
  end.

(** ** The state of a run *)

(** An entry of the globals of the DSL goes to the namespace of its prefix. *)
(* internal/agent/canvas/scheduler.go:448-456 BuildWorkflow(part) *)
Definition seed_global (st : CanvasState) (_ : unit) (kv : string * any) : mem unit :=
  let '(k, v) := kv in
  if has_prefix k "sys." then put_key (Sys st) (drop_prefix "sys." k) v
  else if has_prefix k "env." then put_key (Env st) (drop_prefix "env." k) v
  else put_key (Globals st) k v.
(* internal/agent/canvas/scheduler.go:428-462 BuildWorkflow(part) *)
Definition genState (c : Canvas) (ctx : option CanvasState) : mem CanvasState :=
  match ctx with
  | Some x =>
      st ⇐ NewCanvasState (RunID x) (SessionID x);
      snapshot ⇐ Snapshot x;
      st ⇐ mfold (λ st kb, h ⇐ mget; set_bucket st kb.1 (range (map_at h kb.2))) (range snapshot) st;
      '(sysNS, envNS, globalsNS) ⇐ SnapshotNamespaces x;
      history ⇐ SnapshotHistory x;
      st ⇐ SetHistory (with_Path (with_namespaces st sysNS envNS globalsNS) (Path x)) history;
      memory ⇐ SnapshotMemory x;
      SetMemory st memory
  | None =>
      st ⇐ NewCanvasState "" "";
      h ⇐ mget;
      _ ⇐ mfold (seed_global st) (range (map_at h (cv_Globals c))) ();
      st ⇐ SetHistory st (cv_History c);
      st ⇐ SetMemory st (cv_Memory c);
      EnsureSysDate st
  end.

(** ** Nodes of a body *)

(** The outputs of a body node go to the state of the context; [None] is a nil output. *)
(* internal/agent/canvas/node_body.go:324-375 withStateBracket *)
Definition withStateBracket {E : Type} (cpnID : string) (now : float64)
    (body : params → gmap string (option loc) → CanvasState → mem (E + option params * CanvasState))
    (inp : params) (state : CanvasState) : mem (E + option params * CanvasState) :=
  _ ⇐ nodeStartedAt now state cpnID inp;
  snapshot ⇐ Snapshot state;
  r ⇐ body (delete "state" inp) snapshot state;
  match r with
  | inl err => mret' (inl err)
  | inr (None, state) => mret' (inr (None, state))
  | inr (Some out, state) =>
      let outputCpnID := str_of (param out "__cpn_id__") in
      if decide (outputCpnID = "") then mret' (inr (Some out, state)) else
      s ⇐ set_bucket state outputCpnID (filter (λ kv, kv.1 ∉ reserved_keys) (range out));
      mret' (inr (Some out, s))
  end.

(* internal/agent/canvas/scheduler.go:72-78 placeholderLambda *)
Definition placeholderLambda (inp : params) : params := inp.
(* internal/agent/canvas/node_body.go:297-306 placeholderBody *)
Definition placeholderBody (cpnID : string) (inp : params) : params := <["__cpn_id__" := AStr cpnID]> (placeholderLambda inp).
(* internal/agent/canvas/node_body.go:186-196 legacyNoOpBody *)
Definition legacyNoOpBody (cpnID : string) (inp : params) : params :=
  <["__legacy_noop__" := ABool true]> (<["__cpn_id__" := AStr cpnID]> inp).

(** ** Items of a parallel node *)

Inductive items_error := NotAnArray.
Definition item_maps (l : list any) : mem (list (option loc)) :=
  mmap (λ ix : nat * any, l ⇐ new_map {["item" := ix.2; "index" := AInt (Z.of_nat ix.1)]}; mret' (Some l)) (imap pair l).
(* internal/agent/canvas/parallel_subgraph.go:283-302 toParallelItems *)
Definition toParallelItems (raw : any) : mem (items_error + list (option loc)) :=
  match raw with
  | ANil => mret' (inr [])
  | AStrs items => ms ⇐ item_maps (map AStr items); mret' (inr ms)
  | AList items => h ⇐ mget; ms ⇐ item_maps (elems h items); mret' (inr ms)
  | _ => mret' (inl NotAnArray)
  end.

(** The result of an item: the outputs of every component, with the item and its index. *)
(* internal/agent/canvas/parallel_subgraph.go:161-178 buildParallelItemWorkflow(part) *)
Definition collect_item (state : CanvasState) : mem params :=
  h ⇐ mget;
  let base := {["item" := get_key h (Globals state) "__item__"; "index" := get_key h (Globals state) "__index__"]} in
  snapshot ⇐ Snapshot state;
  kvs ⇐ mmap (λ kb : string * option loc, cp ⇐ copy_map kb.2; mret' (kb.1, AMap cp)) (range snapshot);
  mret' (list_to_map kvs ∪ base).

(** The segments of a path: each must be a name of a map, and no value may be nil. *)
Fixpoint traverse_any (h : heap) (cur : any) (segs : list string) : any :=
  match segs with
  | [] => cur
  | seg :: segs =>
      match cur with
      | AMap m => if decide (seg = "") then ANil
                  else match get_key h m seg with ANil => ANil | v => traverse_any h v segs end
      | _ => ANil
      end
  end.
(* internal/agent/canvas/parallel_subgraph.go:363-385 dotTraverseAny *)
Definition dotTraverseAny (h : heap) (v : any) (path : string) : any :=
  if decide (path = "") then v else traverse_any h v (split_on dot path).
(* internal/agent/canvas/parallel_subgraph.go:333-352 resolveParallelItemRef *)
Definition resolveParallelItemRef (h : heap) (itemOut : params) (ref : string) : any :=
  if decide (ref = "") then ANil
  else if decide (ref = "item") then param itemOut "item"
  else if decide (ref = "index") then param itemOut "index"
  else match cut at_byte ref with
       | Some (cpnID, p) => if decide (cpnID = "") then ANil
                            else match param itemOut cpnID with AMap bucket => dotTraverseAny h (AMap bucket) p | _ => ANil end
       | None => ANil
       end.
(** The outputs of the node: the values of each reference in all the items. *)
(* internal/agent/canvas/parallel_subgraph.go:261-274 buildParallelOuterWorkflow(part) *)
Definition collect_outputs (key : string) (outputRefs : gmap string string) (outputs : list params) : mem params :=
  h ⇐ mget;
  kvs ⇐ mmap (λ nr : string * string, s ⇐ new_slice (map (λ out, resolveParallelItemRef h out nr.2) outputs); mret' (nr.1, AList s)) (range outputRefs);
  results ⇐ mmap (λ out, l ⇐ new_map out; mret' (Some l)) outputs;
  mret' (list_to_map kvs ∪ {["__cpn_id__" := AStr key; "_result" := AMaps results]}).
End nodes.
