(* ===== verification/CanvasProps.v ===== *)
(** * Properties of the canvas state

    Reading a variable that was set, and copies of the conversation. *)

From S2P Require Import Prelude GoValue TitleLevels StateMap AgentValue CanvasState AgentLemmas.
From S2P Require Import AgentLemmas.

Open Scope go_scope.

(** ** Variables *)

Lemma cut_app c a s : contains_byte c a = false → cut c (a +:+ String c s) = Some (a, s).
Proof.
  induction a as [|x a IH]; cbn [contains_byte]; intros Ha.
  - change ("" +:+ String c s) with (String c s). cbn [cut]. by rewrite decide_True.
  - case_decide; [done|]. change (String x a +:+ String c s) with (String x (a +:+ String c s)).
    cbn [cut]. rewrite decide_False by done. by rewrite IH.
Qed.

Lemma contains_byte_app c a s : contains_byte c (a +:+ String c s) = true.
Proof.
  induction a as [|x a IH].
  - change ("" +:+ String c s) with (String c s). cbn [contains_byte]. by rewrite bool_decide_true.
  - change (String x a +:+ String c s) with (String x (a +:+ String c s)). cbn [contains_byte]. rewrite IH. apply orb_true_r.
Qed.

(** A state whose buckets are maps of the heap. *)
Definition state_ok (h : heap) (s : CanvasState) : Prop :=
  heap_ok h ∧ ∀ cpnID bucket, Outputs s !! cpnID = Some bucket → ∃ l, bucket = Some l ∧ is_Some (h_maps h !! l).

(** An identifier that [GetVar] takes for a component. *)
Definition component_id (cpnID : string) : Prop :=
  contains_byte at_byte cpnID = false
  ∧ ∀ tail, has_prefix (cpnID +:+ String at_byte tail) "sys." = false
          ∧ has_prefix (cpnID +:+ String at_byte tail) "env." = false.

Lemma getVar_component `{GoLib} s cpnID param h bucket :
  component_id cpnID → Outputs s !! cpnID = Some bucket →
  GetVar s (cpnID +:+ String at_byte param) h = (v ⇐ dotTraverse (AMap bucket) param; mret' (inr v)) h.
Proof.
  intros [Hat Hpre] Hb. destruct (Hpre param) as [Hs He].
  assert (Hne : ∀ x, contains_byte at_byte x = false → cpnID +:+ String at_byte param ≠ x).
  { intros x Hx <-. by rewrite contains_byte_app in Hx. }
  unfold GetVar, getVarLocked. rewrite !decide_False by (by apply Hne). rewrite Hs, He, (cut_app _ _ _ Hat), Hb. done.
Qed.

(** The map that [SetVar] writes to. *)
Definition target (h : heap) (s : CanvasState) (cpnID param : string) : loc :=
  match Outputs s !! cpnID with
  | Some (Some l) => (walk_end h l (split_on dot param)).1
  | _ => fresh_map h
  end.

(** Of the maps of [h], only [l0] changed, in one key. *)
Definition one_key_changed (h h' : heap) (l0 : loc) : Prop :=
  (∀ l m, l ≠ l0 → h_maps h !! l = Some m → h_maps h' !! l = Some m)
  ∧ (∃ k, ∀ m, h_maps h !! l0 = Some m → ∃ w, h_maps h' !! l0 = Some (<[k := w]> m))
  ∧ h_arrs h' = h_arrs h.

Lemma written_one_key h h' we : written h h' we → one_key_changed h h' we.1.
Proof.
  intros [H1 [w H2] H3]. split_and!; [| |done].
  - intros l m Hl Hm. rewrite H1; eauto.
  - exists we.2. intros m Hm. exists w. by rewrite H2, (map_at_Some _ _ _ Hm).
Qed.

Section set_get.
Context `{GoLib}.
Implicit Types (h : heap) (s : CanvasState) (v : any).

Lemma set_get_bucket h s cpnID param v l outputs h' :
  component_id cpnID → param ≠ "" → outputs !! cpnID = Some (Some l) →
  walk_spec h l (split_on dot param) v h' →
  (_ ⇐ set_parts (Some l) (split_on dot param) v; mret' outputs) h = Ret (outputs, h')
  ∧ GetVar (with_Outputs s outputs) (cpnID +:+ String at_byte param) h' = Ret (inr v, h').
Proof.
  intros Hc Hp Ho (Hset & Hget & _ & _). split; [by rewrite (mbind_step _ _ _ _ _ Hset)|].
  rewrite (getVar_component _ _ _ _ (Some l)) by done. unfold dotTraverse.
  rewrite decide_False by done. by rewrite (mbind_step _ _ _ _ _ Hget).
Qed.

Lemma set_var_ok h s cpnID param v :
  state_ok h s → component_id cpnID → param ≠ "" → storable h v (target h s cpnID param) →
  ∃ s' h', SetVar s cpnID param v h = Ret (s', h')
    ∧ GetVar s' (cpnID +:+ String at_byte param) h' = Ret (inr v, h')
    ∧ state_ok h' s' ∧ one_key_changed h h' (target h s cpnID param).
Proof.
  intros [Hok Hout] Hc Hp Hst. unfold target in *. unfold SetVar, setVarLocked.
  assert (Hkeep : ∀ h1 h' we, written h1 h' we → ∀ l, is_Some (h_maps h1 !! l) → is_Some (h_maps h' !! l)).
  { intros h1 h' we Hw l Hl. destruct (decide (l = we.1)) as [->|Hne]; [destruct (wr_key _ _ _ Hw); eauto|].
    by rewrite (wr_one _ _ _ Hw). }
  destruct (Outputs s !! cpnID) as [bucket|] eqn:Hb.
  - destruct (Hout _ _ Hb) as (l & -> & Hl).
    destruct (set_parts_spec (split_on dot param) h l v) as [h' Hw]; [apply split_on_not_nil|done..|].
    destruct (set_get_bucket h s cpnID param v l _ h' Hc Hp Hb Hw) as [E1 E2].
    destruct Hw as (_ & _ & Hok' & Hw).
    exists (with_Outputs s (Outputs s)), h'. split_and!.
    + unfold mbind' at 1. cbn [mbind' mret' go_bind fst snd]. by rewrite E1.
    + done.
    + split; [done|]. intros c b Hcb. destruct (Hout c b Hcb) as (l' & -> & Hl'). eauto.
    + by apply written_one_key.
  - set (h1 := set_map (fresh_map h) ∅ h). set (l := fresh_map h) in *.
    assert (Hn : map_at h1 (Some l) = ∅) by apply map_at_set.
    assert (Hwe : (walk_end h1 l (split_on dot param)).1 = l).
    { destruct (split_on dot param) as [|p [|q ps]]; [done..|]. cbn [walk_end]. unfold get_key. by rewrite Hn, lookup_empty. }
    destruct (set_parts_spec (split_on dot param) h1 l v) as [h' Hw]; [apply split_on_not_nil|by apply heap_ok_new| | |].
    { unfold h1, l. rewrite maps_set. eauto. }
    { rewrite Hwe. destruct v as [| | | | | | | | | |[lv|]| |]; try done. destruct Hst as [Hlv Hr].
      split; [by apply maps_put_is_Some|]. intros Hh. apply Hr. eapply rtc_mono; [|exact Hh].
      intros a b. apply (proj1 (child_new h a b)). }
    set (outputs := <[cpnID := Some l]> (Outputs s)).
    destruct (set_get_bucket h1 s cpnID param v l outputs h' Hc Hp) as [E1 E2]; [by apply lookup_insert_eq|done|].
    destruct Hw as (_ & _ & Hok' & Hw).
    exists (with_Outputs s outputs), h'. split_and!.
    + unfold mbind' at 1. cbn [mbind' mret' new_map go_bind fst snd]. fold l h1 outputs. by rewrite E1.
    + done.
    + split; [done|]. intros c b Hcb. change (outputs !! c = Some b) in Hcb.
      apply lookup_insert_Some in Hcb as [[_ <-] | [_ Hcb]].
      * exists l. split; [done|]. eapply Hkeep; [done|]. unfold h1, l. rewrite maps_set. eauto.
      * destruct (Hout c b Hcb) as (l' & -> & Hl'). exists l'. split; [done|]. eapply Hkeep; [done|].
        by apply maps_put_is_Some.
    + apply written_one_key in Hw as (H1 & _ & H3). rewrite Hwe in H1. split_and!; [| |done].
      * intros l' m Hne Hm. apply H1; [done|]. unfold h1, l. by rewrite maps_set_ne.
      * exists "". intros m Hm. unfold l in Hm. by rewrite fresh_map_None in Hm.
Qed.
End set_get.

(** C14: a value stored with [SetVar] under a component and a dotted path is what
    [GetVar] returns for the reference to that path.  The intermediate maps are
    made when they are missing, the calls do not panic, the state stays well
    formed, and of the maps that existed before at most one changes, in one key.
    The value may itself be a map of the state, as long as it does not contain
    the map it is written to. *)
Theorem set_then_get `{GoLib} h s cpnID param v :
  state_ok h s → component_id cpnID → param ≠ "" → storable h v (target h s cpnID param) →
  ∃ s' h', SetVar s cpnID param v h = Ret (s', h')
    ∧ GetVar s' (cpnID +:+ "@" +:+ param) h' = Ret (inr v, h')
    ∧ state_ok h' s' ∧ one_key_changed h h' (target h s cpnID param).
Proof. apply set_var_ok. Qed.

(** A small instance of the library, for the examples. *)
Definition demo_lib : GoLib := {|
  float_text := λ _, "0"; float32_text := λ _, "0"; parse_float := λ _, None;
  unmarshal := λ _, None; json_other := λ _ _, None; lower_rune := id; fold_rune := id;
  grow := λ cap need, Nat.max (2 * cap) need; now_text := "2026-01-01 00:00:00" |}.
#[global] Instance demo_lib_laws : @GoLibLaws demo_lib.
Proof. split. intros. simpl. lia. Qed.

(** One component with an output map at location 1 that holds the map at 2. *)
Definition demo_heap : heap := Heap {[1%positive := {["user" := AMap (Some 2%positive)]}; 2%positive := {["name" := AStr "a"]}]} ∅.
Definition demo_state : CanvasState :=
  {| activeHistoryIndex := -1; Outputs := {["llm" := Some 1%positive]}; Sys := None; Env := None; Path := [];
     History := []; Memory := []; Retrieval := None; Globals := None; CancelFlag := false; RunID := ""; SessionID := "" |}.

Lemma demo_entry l k v : map_at demo_heap (Some l) !! k = Some v →
  (l = 1%positive ∧ v = AMap (Some 2%positive)) ∨ (l = 2%positive ∧ v = AStr "a").
Proof.
  unfold demo_heap, map_at. cbn [h_maps]. intros Hk.
  destruct (decide (l = 1%positive)) as [->|H1]; [|destruct (decide (l = 2%positive)) as [->|H2]].
  - rewrite lookup_insert_eq in Hk. simpl in Hk. apply lookup_singleton_Some in Hk as [_ <-]. by left.
  - rewrite lookup_insert_ne, lookup_singleton_eq in Hk by done. simpl in Hk.
    apply lookup_singleton_Some in Hk as [_ <-]. by right.
  - rewrite lookup_insert_ne, lookup_singleton_ne in Hk by done. simpl in Hk. by rewrite lookup_empty in Hk.
Qed.

Lemma demo_child l l' : child demo_heap l l' → l = 1%positive ∧ l' = 2%positive.
Proof. intros [k [[-> [= ->]] | [_ [=]]]%demo_entry]. done. Qed.

Lemma demo_ok : state_ok demo_heap demo_state.
Proof.
  split; [split|].
  - intros l l' [-> ->]%demo_child. vm_compute. eauto.
  - intros l k [[_ [=]] | [_ [=]]]%demo_entry.
  - intros l Hl. apply tc_inv_rtc_l in Hl as (y & [-> ->]%demo_child & Hl).
    apply rtc_inv in Hl as [|(z & [? ?]%demo_child & _)]; done.
  - intros c b Hb. unfold demo_state in Hb. cbn [Outputs] in Hb. apply lookup_singleton_Some in Hb as [_ <-]. exists 1%positive. vm_compute. eauto.
Qed.

Lemma demo_component : component_id "llm".
Proof. split; [reflexivity|]. intros tail. split; reflexivity. Qed.

Lemma set_then_get_witness :
  ∃ s' h', SetVar demo_state "llm" "user.tags.first" (AStr "x") demo_heap = Ret (s', h')
    ∧ @GetVar demo_lib s' "llm@user.tags.first" h' = Ret (inr (AStr "x"), h').
Proof.
  destruct (@set_then_get demo_lib demo_heap demo_state "llm" "user.tags.first" (AStr "x") demo_ok demo_component)
    as (s' & h' & E1 & E2 & _); [discriminate|exact I|].
  exists s', h'. split; [exact E1|exact E2].
Defined.

(** ** Conversation history *)

Section history.
Context `{GoLib} `{MapOrder}.

(** The tree of a turn. *)
Definition turn (role content : string) (payload : tree) : tree :=
  TMap [("content", TLeaf (AStr content)); ("payload", payload); ("role", TLeaf (AStr role))].

Lemma historyContent_total h v t : reads h v t → ∃ content, historyContent v h = Ret (content, h).
Proof.
  intros Hv. destruct (sprint_total _ _ _ Hv) as [s Es].
  destruct v; cbn [historyContent]; unfold mread, mbind', mget, mret'; cbn [go_bind fst snd]; rewrite ?Es; simpl; eauto.
Qed.

Lemma reads_turn h l role content payload tp :
  h_maps h !! l = Some {["role" := AStr role; "content" := AStr content; "payload" := payload]} →
  reads h payload tp → reads h (AMap (Some l)) (turn role content tp).
Proof.
  intros Hl [n Hn]. exists (S (S n)).
  change (readback_map (readback (S n) h) h (Some l) = Some (turn role content tp)).
  assert (Hk : sorted_keys {["role" := AStr role; "content" := AStr content; "payload" := payload]}
               = ["content"; "payload"; "role"]).
  { rewrite (sorted_keys_dom _ ({["role" := ANil; "content" := ANil; "payload" := ANil]} : gmap string any)); [reflexivity|].
    by rewrite !dom_insert_L. }
  assert (E : readback (S n) h payload = Some tp) by (eapply readback_mono; [|done|exact Hn]; lia).
  assert (Hstr : ∀ s, readback (S n) h (AStr s) = Some (TLeaf (AStr s))) by done.
  revert E Hstr. generalize (readback (S n) h). intros rb E Hstr.
  cbn [readback_map]. rewrite Hl. simpl. unfold readback_entries. rewrite Hk. apply fmap_Some. eexists. split; [|reflexivity]. apply mapM_Some_2.
  constructor; [|constructor; [|constructor; [|constructor]]].
  - rewrite lookup_insert_ne, lookup_insert_eq by done. simpl. by rewrite Hstr.
  - rewrite !lookup_insert_ne, lookup_singleton_eq by done. simpl. by rewrite E.
  - rewrite lookup_insert_eq. simpl. by rewrite Hstr.
Qed.

Lemma appendHistory_ok h s role payload tp :
  reads h payload tp →
  ∃ content entry h', appendHistory s role payload h
      = Ret ((History s ++ [Some entry], Z.of_nat (length (History s))), h')
    ∧ copies (λ h'' l t, reads h'' (AMap (Some l)) t) h entry h' (turn role content tp).
Proof.
  intros Hp. destruct (cloneJSONValue_copies _ _ _ Hp) as (v & h1 & E1 & Hx1 & HQ).
  assert (Hv : reads h1 v tp) by (apply HQ; by split).
  destruct (historyContent_total _ _ _ Hv) as [content E2].
  exists content, (fresh_map h1). eexists. split.
  - unfold appendHistory. rewrite (mbind_step _ _ _ _ _ E1), (mbind_step _ _ _ _ _ E2).
    cbn [mbind' new_map go_bind fst snd]. unfold mret'. rewrite length_app. simpl length.
    replace (Z.of_nat (length (History s) + 1) - 1)%Z with (Z.of_nat (length (History s))) by lia. reflexivity.
  - split; [etrans; [exact Hx1|apply extends_new_map]|]. intros h'' Hag. eapply reads_turn.
    + rewrite (proj1 Hag); [apply maps_set| |by rewrite maps_set].
      eapply lookup_weaken_None; [apply fresh_map_None|apply Hx1].
    + apply HQ. eapply (agree_new_mid h h h1); [done|done|apply extends_new_map|exact Hag].
Qed.

Lemma reads_maps_extends h h' items ts : extends h h' → reads_maps h items ts → reads_maps h' items ts.
Proof. intros Hh Hr. eapply Forall2_impl; [exact Hr|]. intros m t. by apply reads_extends. Qed.

Lemma prior_history_ok h s payload ts tp :
  reads_maps h (History s) ts → reads h payload tp →
  ∃ s' h1 content prior h2,
    AppendCurrentUser s payload h = Ret (s', h1) ∧ SnapshotPriorHistory s' h1 = Ret (prior, h2)
    ∧ reads_maps h1 (History s') (ts ++ [turn "user" content tp])
    ∧ copies reads_maps h1 prior h2 ts.
Proof.
  intros Hts Hp. destruct (appendHistory_ok h s "user" payload tp Hp) as (content & entry & h1 & E1 & Hx1 & HQ1).
  set (s' := with_History s (History s ++ [Some entry]) (Z.of_nat (length (History s)))).
  assert (Hh1 : reads_maps h1 (History s') (ts ++ [turn "user" content tp])).
  { apply Forall2_app; [by eapply reads_maps_extends|]. constructor; [|constructor]. apply HQ1. by split. }
  destruct (cloneMapSlice_copies h1 _ _ Hh1) as (copied & h2 & E2 & Hx2 & HQ2).
  assert (Hlen : length copied = S (length (History s))).
  { assert (Hc : reads_maps h2 copied (ts ++ [turn "user" content tp])) by (apply HQ2; by split).
    apply Forall2_length in Hc. apply Forall2_length in Hts. rewrite length_app in Hc. simpl in Hc. lia. }
  assert (Hlt : length ts = length (History s)) by (symmetry; by eapply Forall2_length).
  exists s', h1, content, (take (length (History s)) copied), h2. split_and!.
  - unfold AppendCurrentUser. rewrite (mbind_step _ _ _ _ _ E1). done.
  - unfold SnapshotPriorHistory. rewrite (mbind_step _ _ _ _ _ E2). unfold mret'.
    rewrite decide_True by (simpl; lia). simpl. by rewrite Nat2Z.id.
  - done.
  - split; [done|]. intros h3 Hag. pose proof (HQ2 h3 Hag) as Hc.
    apply (Forall2_take _ _ _ (length (History s))) in Hc. rewrite <- Hlt in Hc at 2.
    by rewrite take_app_length in Hc.
Qed.
End history.

(** C26: the prompt of the turn in progress is recorded with a copy of its payload,
    and the prior history handed to the components is the conversation before it:
    every earlier turn, in order, and not the prompt.  The copies are isolated:
    they read the same in every heap that keeps the objects the snapshot made,
    whatever happens to the maps of the state or of the caller. *)
Theorem prior_history `{GoLib} `{MapOrder} h s payload ts tp :
  reads_maps h (History s) ts → reads h payload tp →
  ∃ s' h1 content prior h2,
    AppendCurrentUser s payload h = Ret (s', h1) ∧ SnapshotPriorHistory s' h1 = Ret (prior, h2)
    ∧ reads_maps h1 (History s') (ts ++ [turn "user" content tp])
    ∧ copies reads_maps h1 prior h2 ts.
Proof. apply prior_history_ok. Qed.

Lemma prior_history_witness :
  let turn1 := TMap [("name", TLeaf (AStr "a"))] in
  ∃ s' h1 content prior h2,
    @AppendCurrentUser demo_lib order_fwd (with_History demo_state [Some 2%positive] (-1)) (AMap (Some 1%positive)) demo_heap = Ret (s', h1)
    ∧ @SnapshotPriorHistory demo_lib order_fwd s' h1 = Ret (prior, h2)
    ∧ @reads_maps demo_lib h1 (History s') ([turn1] ++ [turn "user" content (TMap [("user", turn1)])])
    ∧ copies (@reads_maps demo_lib) h1 prior h2 [turn1].
Proof.
  intros turn1. apply (@prior_history demo_lib order_fwd).
  - constructor; [|constructor]. exists 5. reflexivity.
  - exists 5. reflexivity.
Defined.
