(* ===== verification/TemplateProps.v ===== *)
(** * Properties of templates

    The search finds exactly the matches of an expression; a template renders to its
    literal text with the references replaced by their values. *)

From S2P Require Import Prelude GoValue TitleLevels StateMap AgentValue CanvasState.
From S2P Require Import AgentLemmas CanvasTemplate TitleProps CanvasProps.

Open Scope go_scope.

(** ** Classes of bytes *)

Ltac all_bytes := let c := fresh in intros c; destruct c as [[] [] [] [] [] [] [] []]; vm_compute; congruence.

Lemma cpn_not_open : ∀ c, cpn_char c = true → open_brace c = false.
Proof. all_bytes. Qed.
Lemma cpn_not_space : ∀ c, cpn_char c = true → space_char c = false.
Proof. all_bytes. Qed.
Lemma at_not_cpn : ∀ c, is_char 64 c = true → cpn_char c = false.
Proof. all_bytes. Qed.
Lemma space_not_open : ∀ c, space_char c = true → open_brace c = false.
Proof. all_bytes. Qed.
Lemma space_not_param : ∀ c, space_char c = true → param_char c = false.
Proof. all_bytes. Qed.
Lemma space_not_path : ∀ c, space_char c = true → path_char c = false.
Proof. all_bytes. Qed.
Lemma close_not_param : ∀ c, close_brace c = true → param_char c = false.
Proof. all_bytes. Qed.
Lemma close_not_path : ∀ c, close_brace c = true → path_char c = false.
Proof. all_bytes. Qed.
Lemma close_not_space : ∀ c, close_brace c = true → space_char c = false.
Proof. all_bytes. Qed.

(** ** Spans *)

(** The longest prefix of a class, and the rest. *)
Fixpoint span (p : Ascii.ascii → bool) (l : chars) : chars * chars :=
  match l with
  | c :: l' => if p c then let '(a, b) := span p l' in (c :: a, b) else ([], l)
  | [] => ([], [])
  end.

Definition starts (p : Ascii.ascii → bool) (l : chars) : Prop := ∃ c l', l = c :: l' ∧ p c = true.
Definition not_starts (p : Ascii.ascii → bool) (l : chars) : Prop := ∀ c l', l = c :: l' → p c = false.

Lemma span_exact p a b : Forall (λ c, p c = true) a → not_starts p b → span p (a ++ b) = (a, b).
Proof.
  intros Ha Hb. induction Ha as [|c a Hc Ha IH]; simpl.
  - destruct b as [|c b]; [done|]. simpl. by rewrite (Hb c b).
  - by rewrite Hc, IH.
Qed.

Lemma span_inj p a b a' b' :
  Forall (λ c, p c = true) a → not_starts p b → Forall (λ c, p c = true) a' → not_starts p b' →
  a ++ b = a' ++ b' → a = a' ∧ b = b'.
Proof. intros Ha Hb Ha' Hb' E. pose proof (span_exact p a b Ha Hb) as E1. rewrite E, span_exact in E1 by done. by simplify_eq. Qed.

Lemma span_spec p l : l = (span p l).1 ++ (span p l).2 ∧ Forall (λ c, p c = true) (span p l).1
                      ∧ not_starts p (span p l).2.
Proof.
  induction l as [|c l (IH1 & IH2 & IH3)]; simpl; [split_and!; [done|constructor|by intros ? ? ?]|].
  destruct (p c) eqn:Hc; [|split_and!; [done|constructor|by intros ? ? [= <- <-]]].
  destruct (span p l) as [a b]. simpl in *. subst. split_and!; [done|by constructor|done].
Qed.

Lemma not_starts_app p q a b :
  (∀ c, p c = true → q c = false) → a ≠ [] → Forall (λ c, p c = true) a → not_starts q (a ++ b).
Proof. intros Hpq Ha Hf. destruct Hf as [|c a Hc Hf]; [done|]. intros c' l' [= <- <-]. auto. Qed.

(** White space, perhaps none, before something that does not start with [q] either. *)
Lemma not_starts_star p q a b :
  (∀ c, p c = true → q c = false) → Forall (λ c, p c = true) a → not_starts q b → not_starts q (a ++ b).
Proof. intros Hpq Hf Hb. destruct Hf as [|c a Hc Hf]; [done|]. intros c' l' [= <- <-]. auto. Qed.

(** ** The search *)

(** How an expression matches: the text [w] before [rest], with the group before and after. *)
Fixpoint parses (r : regex) (group w rest group' : chars) : Prop :=
  match r with
  | RSeq r1 r2 => ∃ w1 w2 g, w = w1 ++ w2 ∧ parses r1 group w1 (w2 ++ rest) g ∧ parses r2 g w2 rest group'
  | RAlt r1 r2 => parses r1 group w rest group' ∨ parses r2 group w rest group'
  | RGroup r => (∃ g, parses r group w rest g) ∧ group' = w
  | RWordEnd => w = [] ∧ group' = group ∧ not_starts word_char rest
  | r => lang r w ∧ group' = group
  end.

Lemma strip_prefix_exact w l : Prelude.strip_prefix w (w ++ l) = Some l.
Proof. induction w as [|c w IH]; [done|]. simpl. by rewrite decide_True. Qed.
Lemma strip_prefix_spec w : ∀ l r, Prelude.strip_prefix w l = Some r → l = w ++ r.
Proof.
  induction w as [|c w IH]; intros l r; [by intros [= ->]|]. destruct l as [|d l]; [done|]. simpl.
  case_decide; [|done]. subst. intros Hr. simpl. f_equal. by apply IH.
Qed.

Lemma greedy_sound {A} p (k : chars → option A) x : ∀ l, re_greedy p l k = Some x →
  ∃ w rest, l = w ++ rest ∧ Forall (λ c, p c = true) w ∧ k rest = Some x.
Proof.
  induction l as [|c l IH]; simpl; [intros; by exists [], []|].
  destruct (p c) eqn:Hc; [|intros; by exists [], (c :: l)].
  destruct (re_greedy p l k) eqn:E; [|intros; by exists [], (c :: l)]. intros [= ->].
  destruct IH as (w & rest & -> & Hw & Hk); [done|]. exists (c :: w), rest. split_and!; [done|by constructor|done].
Qed.

Lemma greedy_complete {A} p (k : chars → option A) w rest :
  Forall (λ c, p c = true) w → is_Some (k rest) → is_Some (re_greedy p (w ++ rest) k).
Proof.
  intros Hw Hk. induction Hw as [|c w Hc Hw [x IH]]; simpl; [|rewrite Hc, IH; eauto].
  destruct rest as [|c rest]; simpl; [done|]. destruct (p c); [|done]. by destruct (re_greedy p rest k).
Qed.

(** Where nothing after it can fail, a repetition takes all it can. *)
Lemma greedy_all {A} p (k : chars → option A) l : (∀ l, is_Some (k l)) → re_greedy p l k = k (span p l).2.
Proof.
  intros Hk. induction l as [|c l IH]; simpl; [done|]. destruct (p c); [|done]. rewrite IH.
  destruct (span p l) as [a b]. simpl. by destruct (Hk b) as [x ->].
Qed.

(** What the search finds is a match. *)
Lemma run_sound {A} r : ∀ group l (k : chars → chars → option A) x, re_run r group l k = Some x →
  ∃ w rest group', l = w ++ rest ∧ parses r group w rest group' ∧ k group' rest = Some x.
Proof.
  induction r as [p|w|p|p|r1 IH1 r2 IH2|r1 IH1 r2 IH2|r IH|]; intros group l k x; cbn [re_run parses lang].
  - destruct l as [|c l]; [done|]. destruct (p c) eqn:Hc; [|done]. intros Hk. exists [c], l, group.
    split_and!; [done|by exists c|done|done].
  - intros (l' & ->%strip_prefix_spec & Hk)%bind_Some. by exists w, l', group.
  - destruct l as [|c l]; [done|]. destruct (p c) eqn:Hc; [|done]. intros (w & rest & -> & Hw & Hk)%greedy_sound.
    exists (c :: w), rest, group. split_and!; [done|done|by constructor|done|done].
  - intros (w & rest & -> & Hw & Hk)%greedy_sound. by exists w, rest, group.
  - intros (w1 & l1 & g1 & -> & H1 & (w2 & rest & g2 & -> & H2 & Hk)%IH2)%IH1.
    exists (w1 ++ w2), rest, g2. rewrite <- app_assoc. split_and!; [done|by exists w1, w2, g1|done].
  - destruct (re_run r1 group l k) as [y|] eqn:E.
    + intros [= ->]. apply IH1 in E as (w & rest & g & -> & H1 & Hk). exists w, rest, g. auto.
    + intros (w & rest & g & -> & H2 & Hk)%IH2. exists w, rest, g. auto.
  - intros (w & rest & g & -> & Hr & Hk)%IH. exists w, rest, w. split_and!; [done|by exists g|done|].
    rewrite length_app in Hk. replace (_ - _) with (length w) in Hk by lia. by rewrite take_app_length in Hk.
  - destruct l as [|c l]; [intros Hk; exists [], [], group; by split_and!|].
    destruct (word_char c) eqn:Hc; [done|]. intros Hk. exists [], (c :: l), group.
    split_and!; [done|done|done|by intros ? ? [= <- <-]|done].
Qed.

(** Where there is a match that the continuation accepts, the search finds one. *)
Lemma run_complete {A} r : ∀ group w rest group' (k : chars → chars → option A),
  parses r group w rest group' → is_Some (k group' rest) → is_Some (re_run r group (w ++ rest) k).
Proof.
  induction r as [p|w0|p|p|r1 IH1 r2 IH2|r1 IH1 r2 IH2|r IH|]; intros group w rest group' k; cbn [re_run parses lang].
  - intros [(c & -> & Hc) ->] Hk. simpl. by rewrite Hc.
  - intros [-> ->] Hk. by rewrite strip_prefix_exact.
  - intros [[Hw0 Hw] ->] Hk. destruct Hw as [|c w Hc Hw]; [done|]. simpl. rewrite Hc. by apply greedy_complete.
  - intros [Hw ->] Hk. by apply greedy_complete.
  - intros (w1 & w2 & g & -> & H1 & H2) Hk. rewrite <- app_assoc. eapply IH1; [exact H1|]. by eapply IH2.
  - intros Hr Hk. destruct (re_run r1 group (w ++ rest) k) eqn:E; [eauto|]. destruct Hr as [Hr|Hr]; [|by eapply IH2].
    destruct (IH1 _ _ _ _ _ Hr Hk) as [x Hx]. congruence.
  - intros [[g Hr] ->] Hk. eapply IH; [exact Hr|]. rewrite length_app.
    replace (_ - _) with (length w) by lia. by rewrite take_app_length.
  - intros (-> & -> & Hn) Hk. simpl. destruct rest as [|c rest]; [done|]. by rewrite (Hn c rest).
Qed.

(** Without groups and boundaries a match is a text of the language. *)
Fixpoint plain (r : regex) : bool :=
  match r with RSeq r1 r2 | RAlt r1 r2 => plain r1 && plain r2 | RGroup _ | RWordEnd => false | _ => true end.
Lemma parses_plain r : plain r = true → ∀ group w rest group', parses r group w rest group' ↔ lang r w ∧ group' = group.
Proof.
  induction r as [p|w0|p|p|r1 IH1 r2 IH2|r1 IH1 r2 IH2|r IH|]; cbn [plain]; intros Hp group w rest group';
    try apply andb_true_iff in Hp as [Hp1 Hp2]; try done; cbn [parses lang].
  - setoid_rewrite (IH1 Hp1). setoid_rewrite (IH2 Hp2). naive_solver.
  - rewrite (IH1 Hp1), (IH2 Hp2). tauto.
Qed.

(** ** Matches of the pattern *)

Definition opening (pre : chars) : Prop := lang (RSeq (RPlus open_brace) (RStar space_char)) pre.
Definition closing (post : chars) : Prop := lang (RSeq (RStar space_char) (RPlus close_brace)) post.

(** The parts of a match. *)
Definition match_parts (pre ref post : chars) : Prop := opening pre ∧ lang re_ref ref ∧ closing post.

Lemma closing_stops q post rest :
  (∀ c, space_char c = true → q c = false) → (∀ c, close_brace c = true → q c = false) →
  closing post → not_starts q (post ++ rest).
Proof.
  intros Hs Hc (w & b & -> & Hw & Hb0 & Hb). rewrite <- app_assoc.
  apply (not_starts_star space_char); [done|done|]. by apply (not_starts_app close_brace).
Qed.

(** A reference starts with a letter, so that the braces and the spaces before it end there. *)
Lemma ref_starts ref : lang re_ref ref → starts cpn_char ref.
Proof.
  intros [Hc | [Hs | [Hs | [-> | ->]]]].
  - destruct Hc as (cpn & w & -> & [Hc0 Hc] & _). destruct Hc as [|c cpn Hc _]; [done|]. by exists c, (cpn ++ w).
  - destruct Hs as (w & path & -> & -> & _). by eexists _, _.
  - destruct Hs as (w & path & -> & -> & _). by eexists _, _.
  - by eexists _, _.
  - by eexists _, _.
Qed.

Lemma ref_stops q ref l : (∀ c, cpn_char c = true → q c = false) → lang re_ref ref → not_starts q (ref ++ l).
Proof. intros Hq Hr. destruct (ref_starts _ Hr) as (c & r & -> & Hc). intros c' l' [= <- <-]. auto. Qed.

(** What can be in a reference, and not in what follows it. *)
Definition body_char (c : Ascii.ascii) : bool := negb (space_char c || close_brace c).
Lemma cpn_body : ∀ c, cpn_char c = true → body_char c = true.
Proof. all_bytes. Qed.
Lemma param_body : ∀ c, param_char c = true → body_char c = true.
Proof. all_bytes. Qed.
Lemma path_body : ∀ c, path_char c = true → body_char c = true.
Proof. all_bytes. Qed.
Lemma at_body : ∀ c, is_char 64 c = true → body_char c = true.
Proof. all_bytes. Qed.
Lemma space_not_body : ∀ c, space_char c = true → body_char c = false.
Proof. all_bytes. Qed.
Lemma close_not_body : ∀ c, close_brace c = true → body_char c = false.
Proof. all_bytes. Qed.

(** What all bytes of a reference satisfy. *)
Lemma ref_class (q : Ascii.ascii → bool) ref :
  (∀ c, cpn_char c = true → q c = true) → (∀ c, is_char 64 c = true → q c = true) →
  (∀ c, param_char c = true → q c = true) → (∀ c, path_char c = true → q c = true) →
  lang re_ref ref → Forall (λ c, q c = true) ref.
Proof.
  intros Hcpn Hat Hparam Hpath.
  assert (Hcs : ∀ w, Forall (λ c, path_char c = true) w → Forall (λ c, q c = true) w).
  { intros w Hw. eapply Forall_impl; [exact Hw|exact Hpath]. }
  assert (Hns : ∀ ns w, Forall (λ c, path_char c = true) (chars_of ns) → lang (re_namespace ns) w → Forall (λ c, q c = true) w).
  { intros ns w Hn (a & b & -> & -> & _ & Hb). apply Forall_app. auto. }
  intros [Hc | [Hs | [Hs | [-> | ->]]]].
  - destruct Hc as (cpn & w & -> & [_ Hc] & (a & param & -> & (c & -> & Ha) & _ & Hp)).
    apply Forall_app. split; [eapply Forall_impl; [exact Hc|exact Hcpn]|]. simpl. constructor; [by apply Hat|].
    eapply Forall_impl; [exact Hp|exact Hparam].
  - eapply Hns; [|exact Hs]. repeat constructor.
  - eapply Hns; [|exact Hs]. repeat constructor.
  - apply Hcs. repeat constructor.
  - apply Hcs. repeat constructor.
Qed.
Lemma ref_body ref : lang re_ref ref → Forall (λ c, body_char c = true) ref.
Proof. apply ref_class; auto using cpn_body, at_body, param_body, path_body. Qed.

(** What a match found is made of; it takes all closing braces. *)
Lemma match_here_sound l ref rest : match_here l = Some (ref, rest) →
  ∃ pre post, l = pre ++ ref ++ post ++ rest ∧ match_parts pre ref post ∧ not_starts close_brace rest.
Proof.
  unfold match_here, match_at, VarRefPattern. cbn [re_run].
  intros E. change (re_run (RPlus open_brace) [] l (λ group l, re_run (RSeq (RStar space_char) (RSeq (RGroup re_ref)
    (RSeq (RStar space_char) (RPlus close_brace)))) group l (λ group rest, Some (group, rest))) = Some (ref, rest)) in E.
  apply run_sound in E as (b & l1 & g1 & -> & [Hb ->] & E). cbn [re_run] in E.
  apply greedy_sound in E as (s & l2 & -> & Hs & E).
  change (re_run (RGroup re_ref) [] l2 (λ group l, re_greedy space_char l (λ l, re_run (RPlus close_brace) group l
    (λ group rest, Some (group, rest)))) = Some (ref, rest)) in E.
  apply run_sound in E as (r & l3 & g2 & -> & [[g Hr] ->] & E).
  apply parses_plain in Hr as [Hr _]; [|done].
  apply greedy_sound in E as (s' & l4 & -> & Hs' & E). cbn [re_run] in E.
  destruct l4 as [|c l4]; [done|]. destruct (close_brace c) eqn:Hc; [|done].
  rewrite greedy_all in E by eauto. injection E as -> <-.
  destruct (span_spec close_brace l4) as (E & Hb' & Hn).
  exists (b ++ s), (s' ++ c :: (span close_brace l4).1). split_and!; [|split_and!|done].
  - rewrite <- !app_assoc. simpl. by rewrite <- E.
  - by exists b, s.
  - done.
  - exists s', (c :: (span close_brace l4).1). split_and!; [done|done|]. split; [done|by constructor].
Qed.

Lemma match_here_complete pre ref post rest : match_parts pre ref post → is_Some (match_here (pre ++ ref ++ post ++ rest)).
Proof.
  intros ((b & s & -> & Hb & Hs) & Hr & (s' & b' & -> & Hs' & Hb')). unfold match_here, match_at.
  replace ((b ++ s) ++ ref ++ (s' ++ b') ++ rest) with ((b ++ s ++ ref ++ s' ++ b') ++ rest) by (by rewrite <- !app_assoc).
  eapply run_complete; [|by eexists]. unfold VarRefPattern. cbn [parses].
  exists b, (s ++ ref ++ s' ++ b'), []. do 2 (split; [done|]). exists s, (ref ++ s' ++ b'), []. do 2 (split; [done|]).
  exists ref, (s' ++ b'), ref. split; [done|]. split; [split; [exists []; by apply parses_plain|done]|]. by exists s', b', ref.
Qed.

(** The parts are determined by the text. *)
Lemma parts_unique pre ref post rest pre' ref' post' rest' :
  match_parts pre ref post → match_parts pre' ref' post' →
  not_starts close_brace rest → not_starts close_brace rest' →
  pre ++ ref ++ post ++ rest = pre' ++ ref' ++ post' ++ rest' → pre = pre' ∧ ref = ref' ∧ post = post' ∧ rest = rest'.
Proof.
  intros (Ho & Hr & Hp) (Ho' & Hr' & Hp') Hn Hn' E.
  assert (Hopen : ∀ pre, opening pre → Forall (λ c, open_brace c || space_char c = true) pre).
  { intros ? (b & s & -> & [_ Hb] & Hs). apply Forall_app. split; (eapply Forall_impl; [eassumption|]); intros c Hc; simpl in *; by rewrite Hc, ?orb_true_r. }
  apply (span_inj (λ c, open_brace c || space_char c)) in E as [-> E];
    [|by apply Hopen|apply ref_stops; [|done]; intros c Hc; by rewrite cpn_not_open, cpn_not_space|
     by apply Hopen|apply ref_stops; [|done]; intros c Hc; by rewrite cpn_not_open, cpn_not_space].
  assert (Hb : ∀ post rest, closing post → not_starts body_char (post ++ rest)).
  { intros. apply closing_stops; [apply space_not_body|apply close_not_body|done]. }
  apply (span_inj body_char) in E as [-> E]; [|by apply ref_body|by apply Hb|by apply ref_body|by apply Hb].
  destruct Hp as (s & b & -> & Hs & Hb0 & Hb1). destruct Hp' as (s' & b' & -> & Hs' & Hb0' & Hb1').
  rewrite <- !app_assoc in E.
  apply (span_inj space_char) in E as [-> E]; [|done|by apply (not_starts_app close_brace); [apply close_not_space|..]|
    done|by apply (not_starts_app close_brace); [apply close_not_space|..]].
  apply (span_inj close_brace) in E as [-> ->]; done.
Qed.

Lemma match_here_exact pre ref post rest :
  match_parts pre ref post → not_starts close_brace rest → match_here (pre ++ ref ++ post ++ rest) = Some (ref, rest).
Proof.
  intros Hm Hn. destruct (match_here_complete pre ref post rest Hm) as [[ref' rest'] E]. rewrite E.
  apply match_here_sound in E as (pre' & post' & E & Hm' & Hn').
  by destruct (parts_unique _ _ _ _ _ _ _ _ Hm Hm' Hn Hn' E) as (-> & -> & -> & ->).
Qed.

(** A longer run of braces after a match belongs to it. *)
Lemma match_here_prefix pre ref post rest : match_parts pre ref post → match_here (pre ++ ref ++ post ++ rest) ≠ None.
Proof. intros Hm E. destruct (match_here_complete pre ref post rest Hm). congruence. Qed.

(** ** Text without references *)

Lemma chars_app a b : chars_of (a +:+ b) = chars_of a ++ chars_of b.
Proof. induction a as [|c a IH]; [done|]. rewrite string_app_cons. unfold chars_of in *. simpl. by rewrite IH. Qed.
Lemma length_chars s : length (chars_of s) = String.length s.
Proof. induction s as [|c s IH]; [done|]. unfold chars_of in *. simpl. by rewrite IH. Qed.
Lemma text_chars s : text_of (chars_of s) = s.
Proof. apply String.string_of_list_ascii_of_string. Qed.

Lemma pieces_no_match fuel : ∀ l, length l < fuel → refs_of (pieces fuel l) = [] → ∀ a b, l = a ++ b → match_here b = None.
Proof.
  induction fuel as [|fuel IH]; intros l Hf; [lia|]. destruct l as [|c l]; [intros _ a b Hab; symmetry in Hab; by apply app_nil in Hab as [-> ->]|].
  simpl in Hf. cbn [pieces]. destruct (match_here (c :: l)) as [[ref rest]|] eqn:E; [done|].
  intros Hr [|c' a] b; [simpl; by intros <-|]. intros [= -> ->]. eapply IH; [|exact Hr|done]. lia.
Qed.
Lemma has_ref_no_match s : has_ref s = false → ∀ a b, chars_of s = a ++ b → match_here b = None.
Proof.
  unfold has_ref, find_all. destruct (refs_of _) eqn:E; [|done]. intros _. eapply pieces_no_match; [|exact E]. rewrite length_chars. lia.
Qed.

Lemma space_closed : ∀ c, space_char c = true → negb (open_brace c) = true.
Proof. all_bytes. Qed.
Lemma close_closed : ∀ c, close_brace c = true → negb (open_brace c) = true.
Proof. all_bytes. Qed.
Lemma cpn_closed : ∀ c, cpn_char c = true → negb (open_brace c) = true.
Proof. all_bytes. Qed.
Lemma param_closed : ∀ c, param_char c = true → negb (open_brace c) = true.
Proof. all_bytes. Qed.
Lemma path_closed : ∀ c, path_char c = true → negb (open_brace c) = true.
Proof. all_bytes. Qed.
Lemma at_closed : ∀ c, is_char 64 c = true → negb (open_brace c) = true.
Proof. all_bytes. Qed.

(** Opening braces are only at the start of a match. *)
Lemma parts_opening pre ref post : match_parts pre ref post →
  ∃ b t, pre ++ ref ++ post = b ++ t ∧ Forall (λ c, open_brace c = true) b ∧ Forall (λ c, negb (open_brace c) = true) t.
Proof.
  intros ((b & s & -> & [_ Hb] & Hs) & Hr & (s' & b' & -> & Hs' & [_ Hb'])).
  exists b, (s ++ ref ++ s' ++ b'). split; [by rewrite <- app_assoc|]. split; [done|]. rewrite !Forall_app. split_and!.
  - eapply Forall_impl; [exact Hs|apply space_closed].
  - eapply Forall_impl; [by apply ref_class with (q := λ c, negb (open_brace c)); auto using cpn_closed, at_closed, param_closed, path_closed|done].
  - eapply Forall_impl; [exact Hs'|apply space_closed].
  - eapply Forall_impl; [exact Hb'|apply close_closed].
Qed.

(** A text without a match of its own has none with what follows it, where that starts
    with an opening brace and the text does not end with one. *)
Lemma no_match_before l c rest :
  (∀ d, last l = Some d → open_brace d = false) → l ≠ [] → open_brace c = true → match_here l = None →
  match_here (l ++ c :: rest) = None.
Proof.
  intros Hlast Hl Hc Hn. destruct (match_here (l ++ c :: rest)) as [[ref rest']|] eqn:E; [|done]. exfalso.
  apply match_here_sound in E as (pre & post & E & Hm & _).
  replace (pre ++ ref ++ post ++ rest') with ((pre ++ ref ++ post) ++ rest') in E by (by rewrite <- !app_assoc).
  destruct (parts_opening _ _ _ Hm) as (b & t & Et & Hb & Ht). apply app_eq_app in E as [k [[-> E]|[E1 E]]].
  { apply (match_here_prefix pre ref post k Hm). by rewrite <- Hn, <- !app_assoc. }
  destruct k as [|c' k].
  { rewrite app_nil_r in E1. apply (match_here_prefix pre ref post [] Hm). by rewrite app_nil_r, E1. }
  injection E as <- E. rewrite E1 in Et. apply app_eq_app in Et as [k' [[-> ->]|[-> Et]]].
  - apply Forall_app in Ht as [_ Ht]. apply Forall_cons in Ht as [Ht _]. by rewrite Hc in Ht.
  - destruct (exists_last Hl) as (l0 & d & ->). specialize (Hlast d). rewrite last_snoc in Hlast.
    rewrite !Forall_app in Hb. destruct Hb as [[_ Hd] _]. apply Forall_cons in Hd as [Hd _].
    rewrite Hlast in Hd by done. done.
Qed.

(** ** Rendering *)

(** A template: literal texts, each before an occurrence of a reference, and the text
    at the end. An occurrence has one or more braces on each side, and white space. *)
Record occurrence := Occurrence { o_pre : string; o_ref : string; o_post : string }.
Definition occurrence_text (o : occurrence) : string := o_pre o +:+ o_ref o +:+ o_post o.
Definition template_text (gs : list (string * occurrence)) (end_ : string) : string :=
  concat_strings (map (λ g, g.1 +:+ occurrence_text g.2) gs) +:+ end_.

Definition occurrence_ok (o : occurrence) : Prop := match_parts (chars_of (o_pre o)) (chars_of (o_ref o)) (chars_of (o_post o)).
(** A literal has no reference; its braces are not next to those of an occurrence. *)
Definition literal_ok (after before : bool) (s : string) : Prop :=
  has_ref s = false
  ∧ (after = true → not_starts close_brace (chars_of s))
  ∧ (before = true → ∀ c, last (chars_of s) = Some c → open_brace c = false).
Fixpoint template_ok (after : bool) (gs : list (string * occurrence)) (end_ : string) : Prop :=
  match gs with
  | [] => literal_ok after false end_
  | (s, o) :: gs => literal_ok after true s ∧ occurrence_ok o ∧ template_ok true gs end_
  end.

Definition template_pieces (gs : list (string * occurrence)) (end_ : string) : list piece :=
  (gs ≫= λ g, map Lit (chars_of g.1) ++ [Ref (o_ref g.2)]) ++ map Lit (chars_of end_).

Lemma pieces_literal w l : (∀ a b, w = a ++ b → b ≠ [] → match_here (b ++ l) = None) → ∀ fuel,
  length (w ++ l) < fuel → ∃ fuel', length l < fuel' ∧ pieces fuel (w ++ l) = map Lit w ++ pieces fuel' l.
Proof.
  induction w as [|c w IH]; intros Hw fuel Hf; [eauto|].
  destruct fuel as [|fuel]; [simpl in Hf; lia|]. simpl in Hf.
  destruct (IH (λ a b E, Hw (c :: a) b (f_equal (cons c) E)) fuel) as (fuel' & Hf' & E); [lia|]. exists fuel'. split; [done|].
  pose proof (Hw [] (c :: w) eq_refl ltac:(done)) as En. cbn [app pieces] in *. rewrite En. simpl. by rewrite E.
Qed.

Lemma pieces_match fuel pre ref post rest : match_parts pre ref post → not_starts close_brace rest →
  length (pre ++ ref ++ post ++ rest) < fuel →
  ∃ fuel', length rest < fuel' ∧ pieces fuel (pre ++ ref ++ post ++ rest) = Ref (text_of ref) :: pieces fuel' rest.
Proof.
  intros Hm Hn Hf. pose proof (match_here_exact _ _ _ _ Hm Hn) as E. destruct fuel as [|fuel]; [lia|].
  exists fuel. rewrite !length_app in Hf. destruct Hm as ((b & s & -> & [Hb _] & _) & _). destruct b as [|c b]; [done|].
  simpl in Hf. split; [lia|]. cbn [app pieces] in *. by rewrite E.
Qed.

(** What follows an occurrence does not start with a closing brace. *)
Lemma template_starts gs end_ : template_ok true gs end_ → not_starts close_brace (chars_of (template_text gs end_)).
Proof.
  destruct gs as [|[s o] gs]; unfold template_text; simpl; [intros (_ & Hc & _); auto|].
  intros ((_ & Hc & _) & ((b & w & E & [Hb0 Hb] & _) & _) & _). specialize (Hc eq_refl).
  rewrite !chars_app. unfold occurrence_text. rewrite !chars_app, E. destruct (chars_of s) as [|c l].
  - destruct Hb as [|c b Hc' Hb]; [done|]. intros c' l' [= <- _]. revert Hc'. clear. revert c. all_bytes.
  - intros c' l' [= <- _]. by apply (Hc c l).
Qed.

Lemma find_all_template gs end_ : template_ok false gs end_ → find_all (template_text gs end_) = template_pieces gs end_.
Proof.
  unfold find_all. assert (Hlen : length (chars_of (template_text gs end_)) < S (String.length (template_text gs end_))).
  { rewrite length_chars. lia. }
  revert Hlen. generalize (S (String.length (template_text gs end_))). generalize false.
  induction gs as [|[s o] gs IH]; intros after fuel Hf Hok.
  - destruct Hok as (Hr & _). change (template_text [] end_) with end_ in *.
    change (template_pieces [] end_) with (map Lit (chars_of end_)).
    rewrite <- (app_nil_r (chars_of end_)) in Hf. rewrite <- (app_nil_r (chars_of end_)) at 1.
    destruct (pieces_literal (chars_of end_) [] ) with (fuel := fuel) as (fuel' & Hf' & ->); [|done|].
    + intros a b Hab _. rewrite app_nil_r. by eapply has_ref_no_match.
    + destruct fuel'; simpl; by rewrite app_nil_r.
  - destruct Hok as ((Hr & _ & Hlast) & Ho & Hok). specialize (Hlast eq_refl).
    assert (Et : chars_of (template_text ((s, o) :: gs) end_)
                 = chars_of s ++ chars_of (o_pre o) ++ chars_of (o_ref o) ++ chars_of (o_post o) ++ chars_of (template_text gs end_)).
    { unfold template_text, occurrence_text. simpl. by rewrite !chars_app, <- !app_assoc. }
    rewrite Et in *. destruct (pieces_literal (chars_of s) (chars_of (o_pre o) ++ chars_of (o_ref o) ++ chars_of (o_post o) ++ chars_of (template_text gs end_))) with (fuel := fuel)
      as (fuel1 & Hf1 & ->); [|done|].
    { intros a b Hab Hb. destruct Ho as ((br & sp & E & [Hbr0 Hbr] & _) & _). rewrite E.
      destruct Hbr as [|c br Hc Hbr]; [done|]. apply no_match_before; [|done|done|by eapply has_ref_no_match].
      intros d Hd. apply Hlast. rewrite Hab, last_app. by rewrite Hd. }
    destruct (pieces_match fuel1 _ _ _ _ Ho (template_starts _ _ Hok) Hf1) as (fuel2 & Hf2 & ->).
    rewrite (IH true fuel2 Hf2 Hok), text_chars. unfold template_pieces. simpl. by rewrite <- !app_assoc.
Qed.

Section render.
Context `{GoLib}.
Variables (h : heap) (s : CanvasState).

(** What a reference stands for in the state: the text of its value, or an error. *)
Definition resolves (ref : string) (o : template_error + string) : Prop :=
  ∃ r, GetVar s ref h = Ret (r, h) ∧
       match r with
       | inl err => o = inl (ResolveError ref err)
       | inr ANil => o = inl (UnresolvedReference ref)
       | inr v => ∃ t, sprint h v = Ret t ∧ o = inr t
       end.

Definition text_or_empty (o : template_error + string) : string := match o with inl _ => "" | inr t => t end.
Definition first_error (os : list (template_error + string)) : option template_error :=
  head (omap (λ o, match o with inl e => Some e | inr _ => None end) os).
Definition rendered (val : string → template_error + string) (gs : list (string * occurrence)) (end_ : string) : string :=
  concat_strings (map (λ g, g.1 +:+ text_or_empty (val (o_ref g.2))) gs) +:+ end_.
Definition or_first (e e' : option template_error) : option template_error := match e with Some _ => e | None => e' end.

Lemma resolve_lits w : ∀ out e, mfold (resolve_piece s) (map Lit w) (out, e) h = Ret ((out +:+ text_of w, e), h).
Proof.
  induction w as [|c w IH]; intros out e; [simpl; unfold mret'; by rewrite string_app_nil|].
  cbn [map mfold]. rewrite (mbind_step _ _ _ (out +:+ String c "", e) h) by done. rewrite IH.
  by rewrite string_app_assoc.
Qed.

Lemma resolve_ref ref o out e : resolves ref o →
  resolve_piece s (out, e) (Ref ref) h = Ret ((out +:+ text_or_empty o, or_first e (first_error [o])), h).
Proof.
  intros (r & Er & Ho). cbn [resolve_piece]. rewrite (mbind_step _ _ _ _ _ Er).
  assert (Hv : ∀ t v, sprint h v = Ret t →
    (t ⇐ mread (λ h, sprint h v); mret' (out +:+ t, e)) h = Ret ((out +:+ t, or_first e None), h)).
  { intros t v Et. unfold mread, mbind'. rewrite Et. by destruct e. }
  destruct r as [err|v]; [subst; simpl; unfold mret'; rewrite string_app_nil; by destruct e|].
  destruct v; try (destruct Ho as (t & Et & ->); by apply Hv).
  subst. simpl. unfold mret'. rewrite string_app_nil. by destruct e.
Qed.

Lemma mfold_app {A B} (f : B → A → mem B) l1 l2 b b' h1 h2 :
  mfold f l1 b h1 = Ret (b', h2) → mfold f (l1 ++ l2) b h1 = mfold f l2 b' h2.
Proof.
  revert b h1. induction l1 as [|x l1 IH]; intros b h1; simpl; [by intros [= -> ->]|].
  intros (b1 & h3 & E1 & E2)%mbind_Ret. rewrite (mbind_step _ _ _ _ _ E1). by apply IH.
Qed.

Lemma first_error_cons o os : first_error (o :: os) = or_first (first_error [o]) (first_error os).
Proof. unfold first_error. destruct o; reflexivity. Qed.
Lemma or_first_assoc a b c : or_first (or_first a b) c = or_first a (or_first b c).
Proof. by destruct a. Qed.

Lemma resolve_template val gs end_ : ∀ out e,
  (∀ g, g ∈ gs → resolves (o_ref g.2) (val (o_ref g.2))) →
  mfold (resolve_piece s) (template_pieces gs end_) (out, e) h
  = Ret ((out +:+ rendered val gs end_, or_first e (first_error (map (λ g, val (o_ref g.2)) gs))), h).
Proof.
  unfold template_pieces, rendered. induction gs as [|[t o] gs IH]; intros out e Hgs.
  - simpl. rewrite resolve_lits, text_chars. by destruct e.
  - cbn [mbind list_bind map fst snd]. rewrite <- !app_assoc. rewrite (mfold_app _ _ _ _ _ _ _ (resolve_lits _ _ _)), text_chars.
    cbn [app mfold]. rewrite (mbind_step _ _ _ _ _ (resolve_ref _ _ _ _ (Hgs _ (list_elem_of_here _ _)))).
    rewrite IH by (intros; apply Hgs; by right). cbn [fst snd]. rewrite or_first_assoc, <- first_error_cons.
    change (concat_strings (?a :: ?l)) with (a +:+ concat_strings l). by rewrite !string_app_assoc.
Qed.

Lemma refs_none gs end_ : refs_of (template_pieces gs end_) = [] → gs = [].
Proof.
  destruct gs as [|g gs]; [done|]. intros Hr.
  assert (Hm : o_ref g.2 ∈ refs_of (template_pieces (g :: gs) end_)); [|by rewrite Hr in Hm; apply elem_of_nil in Hm].
  apply list_elem_of_omap. exists (Ref (o_ref g.2)). split; [|done]. unfold template_pieces. simpl. set_solver.
Qed.

Lemma template_renders_ok val gs end_ :
  template_ok false gs end_ → (∀ g, g ∈ gs → resolves (o_ref g.2) (val (o_ref g.2))) →
  ResolveTemplate (template_text gs end_) s h
  = Ret ((rendered val gs end_, first_error (map (λ g, val (o_ref g.2)) gs)), h).
Proof.
  intros Hgs Hr. unfold ResolveTemplate, has_ref. rewrite (find_all_template _ _ Hgs).
  destruct (refs_of (template_pieces gs end_)) as [|r rs] eqn:E; [by rewrite (refs_none _ _ E)|].
  by rewrite (resolve_template val).
Qed.
End render.

(** C25: a template of literal texts and occurrences of references, each with one or more braces
    and perhaps white space on both sides, resolves to the text in which every
    occurrence is replaced by the text of its value, an unset or failing one by
    nothing, with the error of the first of those, and leaves the state as it
    is. The literals may have braces, but no reference of their own, and no brace
    next to those of an occurrence. *)
Theorem template_renders `{GoLib} h s val gs end_ :
  template_ok false gs end_ → (∀ g, g ∈ gs → resolves h s (o_ref g.2) (val (o_ref g.2))) →
  ResolveTemplate (template_text gs end_) s h
  = Ret ((rendered val gs end_, first_error (map (λ g, val (o_ref g.2)) gs)), h).
Proof. apply template_renders_ok. Qed.

Lemma component_ref cpn at_ param :
  chars_of cpn ≠ [] → Forall (λ c, cpn_char c = true) (chars_of cpn) → at_ = "@" →
  chars_of param ≠ [] → Forall (λ c, param_char c = true) (chars_of param) →
  lang re_ref (chars_of (cpn +:+ at_ +:+ param)).
Proof.
  intros. subst. left. rewrite chars_app. exists (chars_of cpn), (chars_of ("@" +:+ param)). split_and!; [done|by split|].
  exists (chars_of "@"), (chars_of param). split_and!; [done|by eexists|by split].
Qed.

(** One brace, three braces with white space, an unset reference, and a literal with braces. *)
Lemma template_renders_witness :
  @ResolveTemplate demo_lib "} Hi {llm@user.name}, { {{{ llm@user.name }}! {{llm@no}}?{" demo_state demo_heap
  = Ret (("} Hi a, { a! ?{", Some (UnresolvedReference "llm@no")), demo_heap).
Proof.
  apply (@template_renders demo_lib demo_heap demo_state
    (λ r, if String.eqb r "llm@no" then inl (UnresolvedReference r) else inr "a")
    [("} Hi ", Occurrence "{" "llm@user.name" "}"); (", { ", Occurrence "{{{ " "llm@user.name" " }}");
     ("! ", Occurrence "{{" "llm@no" "}}")] "?{").
  - assert (Hr : lang re_ref (chars_of "llm@user.name")).
    { apply (component_ref "llm" "@" "user.name"); first [discriminate | reflexivity | repeat constructor]. }
    assert (Hr' : lang re_ref (chars_of "llm@no")).
    { apply (component_ref "llm" "@" "no"); first [discriminate | reflexivity | repeat constructor]. }
    assert (Hp : ∀ a b, chars_of a ≠ [] → Forall (λ c, open_brace c = true) (chars_of a) → Forall (λ c, space_char c = true) (chars_of b) → opening (chars_of (a +:+ b))).
    { intros a b ? ? ?. exists (chars_of a), (chars_of b). split; [apply chars_app|]. split; [by split|done]. }
    assert (Hq : ∀ a b, chars_of b ≠ [] → Forall (λ c, close_brace c = true) (chars_of b) → Forall (λ c, space_char c = true) (chars_of a) → closing (chars_of (a +:+ b))).
    { intros a b ? ? ?. exists (chars_of a), (chars_of b). split; [apply chars_app|]. split; [done|by split]. }
    assert (Hl : ∀ after before s, has_ref s = false →
      match chars_of s with c :: _ => negb after || negb (close_brace c) | [] => true end = true →
      match last (chars_of s) with Some c => negb before || negb (open_brace c) | None => true end = true → literal_ok after before s).
    { intros after before s ? Hs He. split; [done|]. split; intros ->.
      - intros c l' E. rewrite E in Hs. by apply negb_true_iff in Hs.
      - intros c E. rewrite E in He. by apply negb_true_iff in He. }
    split; [apply Hl; vm_compute; reflexivity|split; [split; [apply (Hp "{" "")|split; [exact Hr|apply (Hq "" "}")]]|]];
      [first [discriminate | repeat constructor]..|].
    split; [apply Hl; vm_compute; reflexivity|split; [split; [apply (Hp "{{{" " ")|split; [exact Hr|apply (Hq " " "}}")]]|]];
      [first [discriminate | repeat constructor]..|].
    split; [apply Hl; vm_compute; reflexivity|split; [split; [apply (Hp "{{" "")|split; [exact Hr'|apply (Hq "" "}}")]]|]];
      [first [discriminate | repeat constructor]..|].
    apply Hl; vm_compute; reflexivity.
  - assert (Hn : @resolves demo_lib demo_heap demo_state "llm@user.name" (inr "a")).
    { exists (inr (AStr "a")). split; [vm_compute; reflexivity|]. exists "a". split; reflexivity. }
    intros g Hg. repeat (apply elem_of_cons in Hg as [->|Hg]; [first [exact Hn | exists (inr ANil); split; vm_compute; reflexivity]|]).
    by apply elem_of_nil in Hg.
Defined.
