(* ===== verification/AssignProps.v ===== *)
(** * Properties of the Switch and VariableAssigner components *)

From S2P Require Import Prelude GoValue TitleLevels StateMap AgentValue CanvasState.
From S2P Require Import AgentLemmas CanvasTemplate NodeSwitch NodeAssign TitleProps.
From S2P Require Import TitleProps CanvasProps TemplateProps.

Open Scope go_scope.

(** ** Overrides of the assignments *)

Lemma take_list_inserts {A} (xs l : list A) n : length l = n →
  take n (list_inserts 0 (take (length l) xs) l) = take n xs ++ drop (length xs) l.
Proof.
  intros <-. rewrite take_ge by (rewrite length_inserts; lia).
  apply list_eq. intros i. destruct (decide (i < length l)) as [Hi|Hi].
  - destruct (decide (i < length xs)) as [Hx|Hx].
    + rewrite (list_lookup_inserts _ 0) by (rewrite ?length_take; lia). rewrite Nat.sub_0_r.
      rewrite lookup_app_l by (rewrite length_take; lia). done.
    + rewrite list_lookup_inserts_ge by (rewrite length_take; lia).
      rewrite lookup_app_r by (rewrite length_take; lia). rewrite length_take, lookup_drop. f_equal. lia.
  - rewrite !lookup_ge_None_2; [done|rewrite length_app, length_take, length_drop; lia|rewrite length_inserts; lia].
Qed.

(** Assignments passed to a VariableAssigner at run time replace its configured
    assignments for good: they are written over the array of the component, so
    that the next invocation without an override applies them again. *)
Theorem override_persists `{GoLib} h p state inputs override ms p' r h' :
  va_len p = length (va_array p) →
  param inputs "variables" = AList (Some override) → s_len override ≠ 0 →
  ms = maps_of (elems h (Some override)) →
  assigner_Invoke p state inputs h = Ret ((p', r), h') →
  va_Variables p' = take (va_len p) ms ++ drop (length ms) (va_Variables p).
Proof.
  intros Hlen Hin Hne -> E. unfold assigner_Invoke in E. rewrite Hin in E.
  apply mbind_Ret in E as (h0 & h1 & [= <- <-] & E). rewrite decide_False in E by done.
  apply mbind_Ret in E as (res & h2 & _ & [= <- _ _]).
  unfold va_Variables, override_items. simpl. rewrite Hlen, (take_ge (va_array p)) by lia.
  by apply take_list_inserts.
Qed.

Lemma override_persists_witness :
  let h := Heap {[1%positive := {["variable" := AStr "env.a"; "operator" := AStr "set"; "parameter" := AInt 1]};
                  2%positive := {["variable" := AStr "env.b"; "operator" := AStr "set"; "parameter" := AInt 2]};
                  3%positive := ∅]}
                {[1%positive := [AMap (Some 2%positive)]]} in
  let p := {| va_array := [Some 1%positive]; va_len := 1 |} in
  let state := with_namespaces demo_state None (Some 3%positive) None in
  ∃ p' r h', @assigner_Invoke demo_lib p state {["variables" := AList (Some (Slice 1 0 1 1))]} h = Ret ((p', r), h')
    ∧ va_Variables p' = [Some 2%positive].
Proof.
  intros h p state.
  destruct (@assigner_Invoke demo_lib p state {["variables" := AList (Some (Slice 1 0 1 1))]} h) as [[[p' r] h']|] eqn:E;
    [|vm_compute in E; discriminate].
  exists p', r, h'. split; [reflexivity|].
  apply (@override_persists demo_lib h p state {["variables" := AList (Some (Slice 1 0 1 1))]} (Slice 1 0 1 1)
    [Some 2%positive] p' r h'); [reflexivity|reflexivity|discriminate|reflexivity|exact E].
Defined.

(** ** Dotted references into the namespaces *)

Lemma mfold_nil `{GoLib} parts h : mfold step_part parts ANil h = Ret (ANil, h).
Proof. induction parts as [|p parts IH]; [done|]. cbn [mfold]. by rewrite (mbind_step _ _ _ ANil h). Qed.

Lemma has_prefix_app (p s : string) : has_prefix (p +:+ s) p = true.
Proof. apply has_prefix_spec. by exists s. Qed.

Lemma substring_app (p s : string) : String.substring (String.length p) (String.length (p +:+ s) - String.length p) (p +:+ s) = s.
Proof.
  induction p as [|c p IH].
  - change ("" +:+ s) with s. simpl String.length. rewrite Nat.sub_0_r. by apply substring_all.
  - rewrite string_app_cons. cbn [String.length String.substring]. rewrite Nat.sub_succ. exact IH.
Qed.

Lemma drop_prefix_app (p s : string) : drop_prefix p (p +:+ s) = s.
Proof. apply substring_app. Qed.

Lemma getVar_namespace `{GoLib} state path h :
  GetVar state ("sys." +:+ path) h = (v ⇐ dotTraverse (AMap (Sys state)) path; mret' (inr v)) h
  ∧ GetVar state ("env." +:+ path) h = (v ⇐ dotTraverse (AMap (Env state)) path; mret' (inr v)) h.
Proof.
  split; unfold GetVar, getVarLocked; rewrite !decide_False by done.
  - by rewrite has_prefix_app, drop_prefix_app.
  - replace (has_prefix ("env." +:+ path) "sys.") with false by done. by rewrite has_prefix_app, drop_prefix_app.
Qed.

(** An assignment to a dotted reference of the sys or env namespace is lost: the whole
    path is written as one key of the namespace, while reading the same reference
    walks the path, and finds nothing when its first part is not there. *)
Theorem dotted_namespace_lost `{GoLib} h state l l' a b v :
  Sys state = Some l → Env state = Some l' → contains_byte dot a = false → a ≠ "" →
  map_at h (Some l) !! a = None → map_at h (Some l') !! a = None →
  ∀ ns, ns = "sys." ∨ ns = "env." →
  ∃ h', writeVar state (ns +:+ a +:+ "." +:+ b) v h = Ret (Some state, h')
    ∧ GetVar state (ns +:+ a +:+ "." +:+ b) h' = Ret (inr ANil, h').
Proof.
  intros Hs He Hd Ha Hl Hl' ns Hns. set (path := a +:+ "." +:+ b).
  assert (Hne : a ≠ path).
  { intros E. assert (Hc : contains_byte dot path = true) by apply (contains_byte_app dot a b). rewrite <- E, Hd in Hc. done. }
  assert (Hsplit : split_on dot path = a :: split_on dot b).
  { unfold path. change ("." +:+ b) with (String dot b). by rewrite split_on_join2, (split_on_free _ _ Hd). }
  assert (Hp : path ≠ "") by (unfold path; by destruct a).
  assert (Hread : ∀ m h', map_at h' m !! a = None → dotTraverse (AMap m) path h' = Ret (ANil, h')).
  { intros m h' Hm. unfold dotTraverse. rewrite decide_False, Hsplit by done. cbn [mfold].
    rewrite (mbind_step _ _ _ ANil h'); [apply mfold_nil|]. rewrite step_map. unfold get_key. by rewrite Hm. }
  assert (Hput : ∀ l0, map_at h (Some l0) !! a = None →
    map_at (set_map l0 (<[path := v]> (map_at h (Some l0))) h) (Some l0) !! a = None).
  { intros l0 Hl0. rewrite map_at_set. by rewrite lookup_insert_ne by done. }
  unfold writeVar. destruct Hns as [-> | ->]; rewrite !decide_False by done.
  - rewrite has_prefix_app, drop_prefix_app, Hs. eexists. split; [reflexivity|].
    rewrite (proj1 (getVar_namespace state path _)), Hs. by rewrite (mbind_step _ _ _ _ _ (Hread _ _ (Hput l Hl))).
  - replace (has_prefix ("env." +:+ path) "sys.") with false by done.
    rewrite has_prefix_app, drop_prefix_app, He. eexists. split; [reflexivity|].
    rewrite (proj2 (getVar_namespace state path _)), He. by rewrite (mbind_step _ _ _ _ _ (Hread _ _ (Hput l' Hl'))).
Qed.

Lemma dotted_namespace_lost_witness :
  let h := Heap {[1%positive := ∅; 2%positive := ∅]} ∅ in
  let state := with_namespaces demo_state (Some 1%positive) (Some 2%positive) None in
  ∃ h', @writeVar state "env.user.name" (AStr "x") h = Ret (Some state, h')
    ∧ @GetVar demo_lib state "env.user.name" h' = Ret (inr ANil, h').
Proof.
  intros h state.
  exact (@dotted_namespace_lost demo_lib h state 1%positive 2%positive "user" "name" (AStr "x") eq_refl eq_refl eq_refl
    ltac:(discriminate) eq_refl eq_refl "env." (or_intror eq_refl)).
Defined.

(** ** Assignments to outputs *)

Lemma cut_ref cpnID param : contains_byte at_byte cpnID = false → cut at_byte (cpnID +:+ "@" +:+ param) = Some (cpnID, param).
Proof. apply cut_app. Qed.

Lemma writeVar_component `{GoLib} state cpnID param v h s' h' :
  component_id cpnID → cpnID ≠ "" → SetVar state cpnID param v h = Ret (s', h') →
  writeVar state (cpnID +:+ "@" +:+ param) v h = Ret (Some s', h').
Proof.
  intros [Hat Hpre] Hne E. destruct (Hpre param) as [H1 H2].
  change (cpnID +:+ "@" +:+ param) with (cpnID +:+ String at_byte param).
  assert (Hn : ∀ x, contains_byte at_byte x = false → cpnID +:+ String at_byte param ≠ x).
  { intros x Hx <-. by rewrite contains_byte_app in Hx. }
  unfold writeVar. rewrite !decide_False by (by apply Hn). rewrite H1, H2, (cut_app _ _ _ Hat), decide_False by done.
  by rewrite (mbind_step _ _ _ _ _ E).
Qed.

(** An assignment to an output of a component whose operator succeeds is
    reported as done, and the variable then has the value of the operator: every
    later reference to it resolves to that value. *)
Theorem assignment_read_back `{GoLib} h h1 state it m cpnID path op old v :
  let ref := cpnID +:+ "@" +:+ path in
  h_maps h !! it = Some m → param m "variable" = AStr ref → param m "operator" = AStr op → op ≠ "" →
  GetVar state ref h = Ret (inr old, h) →
  operate state old op (param m "parameter") h = Ret (inr v, h1) →
  state_ok h1 state → component_id cpnID → cpnID ≠ "" → path ≠ "" → storable h1 v (target h1 state cpnID path) →
  ∃ s' h', assigner_Invoke {| va_array := [Some it]; va_len := 1 |} state ∅ h
      = Ret (({| va_array := [Some it]; va_len := 1 |}, inr ({["assignments" := AStrs [ref]]}, s')), h')
    ∧ GetVar s' ref h' = Ret (inr v, h').
Proof.
  intros ref Hit Hv Ho Hop Hold Hnew Hok Hc Hne Hp Hst.
  destruct (set_var_ok h1 state cpnID path v Hok Hc Hp Hst) as (s' & h' & E & Eg & _ & _).
  exists s', h'. split; [|exact Eg].
  assert (Hkey : ∀ k, get_key h (Some it) k = param m k) by (intros k; unfold get_key, param; by rewrite (map_at_Some _ _ _ Hit)).
  unfold assigner_Invoke. rewrite (mbind_step _ _ _ h h) by done.
  replace (param ∅ "variables") with ANil by done.
  rewrite (mbind_step _ _ _ (inr ([ref], [], s')) h'); [done|].
  change (va_Variables _) with [Some it]. cbn [assign_items].
  rewrite (mbind_step _ _ _ h h) by done. rewrite !Hkey, Hv, Ho. cbn [str_of as_string default from_option].
  assert (Href : ref ≠ "") by (unfold ref; by destruct cpnID). rewrite decide_False by naive_solver.
  rewrite (mbind_step _ _ _ _ _ Hold), (mbind_step _ _ _ _ _ Hnew).
  by rewrite (mbind_step _ _ _ _ _ (writeVar_component _ _ _ _ _ _ _ Hc Hne E)).
Qed.

(** The output [user.tags] of the component is set from its output [user.name]. *)
Definition assign_item : params :=
  {["variable" := AStr "llm@user.tags"; "operator" := AStr "overwrite"; "parameter" := AStr "{{llm@user.name}}"]}.
Definition assign_heap : heap := set_map 3 assign_item demo_heap.

Lemma assign_heap_ok : state_ok assign_heap demo_state.
Proof.
  destruct demo_ok as [[Hc Hn Ha] Ho]. unfold assign_heap.
  assert (Hch : ∀ x y, child (set_map 3 assign_item demo_heap) x y → child demo_heap x y).
  { intros x y [k Hk]. destruct (decide (3%positive = x)) as [<-|Hx].
    - rewrite map_at_set in Hk. unfold assign_item in Hk.
      apply lookup_insert_Some in Hk as [[_ [=]]|[_ Hk]]. apply lookup_insert_Some in Hk as [[_ [=]]|[_ Hk]].
      by apply lookup_singleton_Some in Hk as [_ [=]].
    - rewrite map_at_set_ne in Hk by done. by exists k. }
  split; [split|].
  - intros x y Hxy. apply maps_put_is_Some. eapply Hc. by apply Hch.
  - intros x k Hk. destruct (decide (3%positive = x)) as [<-|Hx].
    + rewrite map_at_set in Hk. unfold assign_item in Hk.
      apply lookup_insert_Some in Hk as [[_ [=]]|[_ Hk]]. apply lookup_insert_Some in Hk as [[_ [=]]|[_ Hk]].
      by apply lookup_singleton_Some in Hk as [_ [=]].
    + rewrite map_at_set_ne in Hk by done. by eapply Hn.
  - intros x Hx. apply (Ha x). by eapply tc_mono.
  - intros c b Hb. destruct (Ho c b Hb) as (l & -> & Hl). exists l. split; [done|]. by apply maps_put_is_Some.
Qed.

Lemma assignment_read_back_witness :
  ∃ s' h', @assigner_Invoke demo_lib {| va_array := [Some 3%positive]; va_len := 1 |} demo_state ∅ assign_heap
      = Ret (({| va_array := [Some 3%positive]; va_len := 1 |}, inr ({["assignments" := AStrs ["llm@user.tags"]]}, s')), h')
    ∧ @GetVar demo_lib s' "llm@user.tags" h' = Ret (inr (AStr "a"), h').
Proof.
  apply (@assignment_read_back demo_lib assign_heap assign_heap demo_state 3%positive assign_item "llm" "user.tags" "overwrite" ANil (AStr "a")).
  - reflexivity.
  - reflexivity.
  - reflexivity.
  - discriminate.
  - vm_compute. reflexivity.
  - vm_compute. reflexivity.
  - exact assign_heap_ok.
  - exact demo_component.
  - discriminate.
  - discriminate.
  - exact I.
Defined.

(** Two variables may hold one list.  Taking the last element off one of them and
    appending to it then changes the other one, whose own value was not assigned. *)
Example shared_list_changed :
  let item l ref op p := (l, {["variable" := AStr ref; "operator" := AStr op; "parameter" := p]}) in
  let h := Heap (list_to_map [(1%positive, {["xs" := AList (Some (Slice 1 0 3 3)); "ys" := AList (Some (Slice 1 0 3 3))]});
                              item 2%positive "llm@xs" "remove_last" ANil;
                              item 3%positive "llm@xs" "append" (AInt 9)])
                {[1%positive := [AInt 1; AInt 2; AInt 3]]} in
  match @assigner_Invoke demo_lib {| va_array := [Some 2%positive; Some 3%positive]; va_len := 2 |} demo_state ∅ h with
  | Ret ((_, inr (_, s)), h') =>
      match @GetVar demo_lib s "llm@ys" h' with
      | Ret (inr (AList ys), _) => elems h' ys = [AInt 1; AInt 2; AInt 9]
      | _ => False
      end
  | _ => False
  end.
Proof. vm_compute. reflexivity. Qed.

(** ** Tests for empty variables *)

Lemma find_ref ref : lang re_ref (chars_of ref) → find_all ("{{" +:+ ref +:+ "}}") = [Ref ref].
Proof.
  intros Hr. assert (E : "{{" +:+ ref +:+ "}}" = template_text [("", Occurrence "{{" ref "}}")] "").
  { unfold template_text, occurrence_text. simpl. by rewrite !string_app_nil. }
  rewrite E, find_all_template; [done|]. split_and!; [|split_and!|].
  - split_and!; [done|by intros ? ? ?|done].
  - exists (chars_of "{{"), []. split_and!; [done| |constructor]. split; [done|repeat constructor].
  - exact Hr.
  - exists [], (chars_of "}}"). split_and!; [done|constructor|]. split; [done|repeat constructor].
  - split_and!; [done|by intros ? ? ?|done].
Qed.

Lemma leftValue_unresolved `{GoLib} h state ref :
  lang re_ref (chars_of ref) → GetVar state ref h = Ret (inr ANil, h) →
  leftValue ("{{" +:+ ref +:+ "}}") state h = Ret (AStr ("{{" +:+ ref +:+ "}}"), h).
Proof.
  intros Hr Hg. unfold leftValue, ResolveTemplate, has_ref. rewrite decide_False by done. rewrite (find_ref _ Hr). cbn [refs_of omap list_omap].
  cbn [mfold]. unfold resolve_piece. unfold mbind' at 1. unfold mbind' at 1. rewrite (mbind_step _ _ _ _ _ Hg). done.
Qed.

(** The operators "empty" and "not empty" of a Switch do not see that a variable is
    unset: for a reference without a value, "empty" fails and "not empty" holds. *)
Theorem unset_is_not_empty `{GoLib} h state l m ref :
  h_maps h !! l = Some m → param m "left" = AStr ("{{" +:+ ref +:+ "}}") → lang re_ref (chars_of ref) →
  GetVar state ref h = Ret (inr ANil, h) →
  (param m "op" = AStr "empty" → evaluateClause (Some l) state h = Ret (inr false, h))
  ∧ (param m "op" = AStr "not empty" → evaluateClause (Some l) state h = Ret (inr true, h)).
Proof.
  intros Hl Hleft Hr Hg.
  assert (Hkey : ∀ k, get_key h (Some l) k = param m k) by (intros k; unfold get_key, param; by rewrite (map_at_Some _ _ _ Hl)).
  split; intros Hop; unfold evaluateClause; rewrite (mbind_step _ _ _ h h) by done;
    rewrite !Hkey, Hleft, Hop; cbn [str_of as_string default from_option];
    rewrite (mbind_step _ _ _ _ _ (leftValue_unresolved _ _ _ Hr Hg)), (mbind_step _ _ _ h h) by done;
    rewrite ?decide_True by done; done.
Qed.

Lemma unset_is_not_empty_witness :
  let clause := {["left" := AStr "{{llm@missing}}"; "op" := AStr "empty"]} in
  let h := set_map 3 clause demo_heap in
  @evaluateClause demo_lib (Some 3%positive) demo_state h = Ret (inr false, h).
Proof.
  intros clause h. apply (@unset_is_not_empty demo_lib h demo_state 3%positive clause "llm@missing").
  - reflexivity.
  - reflexivity.
  - left. exists (chars_of "llm"), (chars_of "@missing"). split; [reflexivity|]. split; [split; [discriminate|repeat constructor]|].
    exists (chars_of "@"), (chars_of "missing"). split; [reflexivity|]. split; [eexists; split; reflexivity|].
    split; [discriminate|repeat constructor].
  - vm_compute. reflexivity.
  - reflexivity.
Defined.
