(* ===== verification/DataProps.v ===== *)
(** * Properties of ListOperations, DataOperations, StringTransform and VariableAggregator *)

From S2P Require Import Prelude GoValue StateMap TitleLevels ChunkDoc TokenSplit AgentValue.
From S2P Require Import CanvasState AgentLemmas CanvasTemplate NodeSwitch NodeAssign.
From S2P Require Import NodeLists NodeData CanvasProps.
From Stdlib Require Import OrdersEx SpecFloat.

Open Scope go_scope.

(** ** Stable sorting on the elements of a list *)

Section weak.
Context {A : Type} (less : A → A → bool).

Lemma weak_asym l x y : weak_order less l → x ∈ l → y ∈ l → less x y = true → less y x = false.
Proof.
  intros W Hx Hy E. destruct (less y x) eqn:E'; [|done].
  pose proof (weak_trans _ _ W x y x Hx Hy Hx E E') as Hxx. by rewrite (weak_irrefl _ _ W x Hx) in Hxx.
Qed.
Lemma weak_order_sub l l' : weak_order less l → (∀ x, x ∈ l' → x ∈ l) → weak_order less l'.
Proof.
  intros [H1 H2 H3] Hsub. split; [by auto|intros x y z ???; apply H2; auto|intros x y z ???; apply H3; auto].
Qed.

(** Insertion keeps a list sorted, and puts an element before its equals. *)
Lemma insert_weak x l : weak_order less (x :: l) → Sorted (in_order less) l → Sorted (in_order less) (insert_sorted less x l).
Proof.
  induction l as [|y l IH]; intros W Hs; cbn; [by repeat constructor|].
  destruct (less y x) eqn:E; [|by constructor; [|constructor]].
  assert (Hxy : less x y = false) by (apply (weak_asym (x :: y :: l)); [done|set_solver|set_solver|done]).
  apply Sorted_inv in Hs as [Hs Hh]. constructor; [apply IH; [|done]; by apply (weak_order_sub (x :: y :: l)); [|set_solver]|].
  destruct l as [|z l]; cbn; [by constructor|].
  destruct (less z x); [|by constructor]. constructor. by apply HdRel_inv in Hh.
Qed.
Definition tied (c x : A) : bool := negb (less x c) && negb (less c x).
Lemma insert_tied c x l : weak_order less (c :: x :: l) →
  filter (tied c) (insert_sorted less x l) = filter (tied c) (x :: l).
Proof.
  induction l as [|y l IH]; intros W; cbn [insert_sorted]; [done|]. destruct (less y x) eqn:E; [|done].
  assert (Hl : filter (tied c) (insert_sorted less x l) = filter (tied c) (x :: l)).
  { apply IH. apply (weak_order_sub (c :: x :: y :: l)); [done|set_solver]. }
  rewrite filter_cons, Hl. rewrite !filter_cons. unfold tied.
  destruct (decide _) as [Hy|Hy]; [|done]. destruct (decide _) as [Hx|Hx]; [|done]. exfalso.
  apply andb_prop_elim in Hy as [Hy1 Hy2]. apply andb_prop_elim in Hx as [Hx1 Hx2].
  apply negb_prop_elim in Hy1, Hx2.
  destruct (less y c) eqn:E1; [done|]. destruct (less c x) eqn:E2; [done|].
  assert (less y x = false) by (apply (weak_equiv _ _ W y c x); [set_solver..|done|done]). congruence.
Qed.

Lemma stable_weak l : weak_order less l → Sorted (in_order less) (stable_sort less l).
Proof.
  induction l as [|x l IH]; intros W; [constructor|]. cbn.
  assert (Hp : stable_sort less l ≡ₚ l) by apply stable_sort_perm.
  apply insert_weak; [|apply IH, (weak_order_sub (x :: l)); [done|set_solver]].
  apply (weak_order_sub (x :: l)); [done|]. intros z. by rewrite Hp.
Qed.
Lemma stable_tied c l : weak_order less (c :: l) → filter (tied c) (stable_sort less l) = filter (tied c) l.
Proof.
  induction l as [|x l IH]; intros W; [done|]. cbn [stable_sort foldr].
  assert (Hp : stable_sort less l ≡ₚ l) by apply stable_sort_perm.
  assert (Hl : filter (tied c) (stable_sort less l) = filter (tied c) l).
  { apply IH, (weak_order_sub (c :: x :: l)); [done|set_solver]. }
  fold (stable_sort less l). rewrite insert_tied; [by rewrite !filter_cons, Hl|].
  apply (weak_order_sub (c :: x :: l)); [done|]. intros z. rewrite !elem_of_cons. by rewrite Hp.
Qed.
End weak.

(** ** The order of scalars *)

Lemma string_lt_trans x y z : String.ltb x y = true → String.ltb y z = true → String.ltb x z = true.
Proof.
  assert (Hlt : ∀ a b, String.ltb a b = true ↔ String_as_OT.lt a b).
  { intros a b. unfold String.ltb. change (String.compare a b) with (String_as_OT.compare a b).
    unfold String_as_OT.lt. by destruct (String_as_OT.compare a b). }
  rewrite !Hlt. apply transitivity.
Qed.
Lemma string_lt_asym x y : String.ltb x y = true → String.ltb y x = false.
Proof. unfold String.ltb. rewrite (String.compare_antisym y x). by destruct (String.compare x y). Qed.
Lemma string_not_lt x y : String.ltb x y = false → x = y ∨ String.ltb y x = true.
Proof.
  unfold String.ltb. rewrite (String.compare_antisym y x). destruct (String.compare x y) eqn:E; try done; [|by right].
  left. by apply String.compare_eq_iff.
Qed.
Lemma string_weak x y z : String.ltb x y = false → String.ltb y z = false → String.ltb x z = false.
Proof.
  intros [->|Hxy]%string_not_lt; [done|]. intros [->|Hyz]%string_not_lt; [by apply string_lt_asym|].
  by apply string_lt_asym, (string_lt_trans z y x).
Qed.

Lemma f64_lt_not_le a b : f64_lt a b = true → f64_le b a = false.
Proof. unfold f64_lt, f64_le, SFltb, SFleb. rewrite (SFcompare_swap a b). by destruct (SFcompare a b) as [[]|]. Qed.
Lemma f64_le_not_lt a b : f64_le b a = true → f64_lt a b = false.
Proof. intros Hle. destruct (f64_lt a b) eqn:E; [|done]. apply f64_lt_not_le in E. congruence. Qed.
Lemma f64_not_le a b : is_nan a = false → is_nan b = false → f64_le b a = false → f64_lt a b = true.
Proof.
  intros Ha Hb Hle. destruct (f64_lt a b) eqn:E; [done|]. rewrite (f64_not_lt a b) in Hle; done.
Qed.

(** The items of a list compare by one order: all are numbers, none of them NaN, or
    none is a number. *)
Definition number_scalar (s : scalar) : Prop := ∃ f, s.1 = Some f ∧ is_nan f = false.
Definition one_kind (ss : list scalar) : Prop := Forall number_scalar ss ∨ Forall (λ s, s.1 = None) ss.

Lemma numbers_trans x y z : number_scalar x → number_scalar y → number_scalar z →
  lessScalar x y = false → lessScalar y z = false → lessScalar x z = false.
Proof.
  destruct x as [? tx], y as [? ty], z as [? tz]. intros (fx & [= ->] & Nx) (fy & [= ->] & Ny) (fz & [= ->] & Nz).
  unfold lessScalar. cbn [fst]. intros Hxy Hyz.
  apply f64_le_not_lt, (f64_le_trans fz fy fx); by apply f64_not_lt.
Qed.
Lemma numbers_lt_trans x y z : number_scalar x → number_scalar y → number_scalar z →
  lessScalar x y = true → lessScalar y z = true → lessScalar x z = true.
Proof.
  intros Nx Ny Nz Hxy Hyz. destruct (lessScalar x z) eqn:E; [done|].
  assert (lessScalar z y = false).
  { destruct x as [? tx], y as [? ty], z as [? tz], Nx as (fx & [= ->] & Nx), Ny as (fy & [= ->] & Ny), Nz as (fz & [= ->] & Nz).
    unfold lessScalar in *. by apply f64_lt_asym. }
  rewrite (numbers_trans x z y) in Hxy by done. done.
Qed.
Lemma scalars_weak ss : one_kind ss → weak_order lessScalar ss.
Proof.
  intros [Hn|Hn]; rewrite Forall_forall in Hn; split.
  - intros x Hx. destruct (Hn x Hx) as (f & Hf & Nf). unfold lessScalar. rewrite Hf.
    destruct (f64_lt f f) eqn:E; [|done]. pose proof (f64_lt_asym _ _ E). congruence.
  - intros x y z Hx Hy Hz. apply numbers_lt_trans; auto.
  - intros x y z Hx Hy Hz. apply numbers_trans; auto.
  - intros x Hx. unfold lessScalar. rewrite (Hn x Hx). destruct (String.ltb x.2 x.2) eqn:E; [|done].
    pose proof (string_lt_asym _ _ E). congruence.
  - intros x y z Hx Hy Hz. unfold lessScalar. rewrite (Hn x Hx), (Hn y Hy). apply string_lt_trans.
  - intros x y z Hx Hy Hz. unfold lessScalar. rewrite (Hn x Hx), (Hn y Hy). apply string_weak.
Qed.

Lemma weak_flip {A} (less : A → A → bool) l : weak_order less l → weak_order (λ a b, less b a) l.
Proof. intros [H1 H2 H3]. split; eauto. Qed.
Lemma weak_key {A B} (f : A → B) (less : B → B → bool) l : weak_order less (f <$> l) → weak_order (λ a b, less (f a) (f b)) l.
Proof.
  intros [H1 H2 H3]. split; [intros x ?; apply H1|intros x y z ???; apply H2|intros x y z ???; apply H3];
    by apply list_elem_of_fmap_2.
Qed.

(** ** The order of keys *)

(** The scalars at each place of the keys are of one kind. *)
Definition one_kind_columns (keys : list (list scalar)) : Prop := ∀ i, one_kind (omap (.!! i) keys).

Lemma lessKey_irrefl x : (∀ i, one_kind (omap (.!! i) [x])) → lessKey x x = false.
Proof.
  induction x as [|a x IH]; intros Hc; [done|]. cbn [lessKey].
  rewrite (weak_irrefl _ _ (scalars_weak [a] (Hc 0)) a) by set_solver. apply IH. intros i. apply (Hc (S i)).
Qed.
Lemma lessKey_asym x : ∀ y, (∀ i, one_kind (omap (.!! i) [x; y])) → lessKey x y = true → lessKey y x = false.
Proof.
  induction x as [|a x IH]; intros [|b y] Hc; try done. cbn [lessKey].
  pose proof (scalars_weak [a; b] (Hc 0)) as W. destruct (lessScalar a b) eqn:E.
  - by rewrite (weak_asym _ _ a b W) by (done || set_solver).
  - destruct (lessScalar b a); [done|]. apply IH. intros i. apply (Hc (S i)).
Qed.
Lemma lessKey_equiv x : ∀ y z, (∀ i, one_kind (omap (.!! i) [x; y; z])) →
  lessKey x y = false → lessKey y z = false → lessKey x z = false.
Proof.
  induction x as [|a x IH]; intros [|b y] [|c z] Hc; try done. cbn [lessKey].
  pose proof (scalars_weak [a; b; c] (Hc 0)) as W.
  assert (Hbc : ∀ u v w, u ∈ [a; b; c] → v ∈ [a; b; c] → w ∈ [a; b; c] →
    lessScalar u v = false → lessScalar v w = false → lessScalar u w = false) by apply (weak_equiv _ _ W).
  destruct (lessScalar a b) eqn:Eab; [done|]. destruct (lessScalar b c) eqn:Ebc; [done|].
  rewrite (Hbc a b c) by (done || set_solver). intros Hxy Hyz. destruct (lessScalar c a) eqn:Eca; [done|].
  rewrite (Hbc b c a) in Hxy by (done || set_solver). rewrite (Hbc c a b) in Hyz by (done || set_solver).
  apply (IH y z); [|done|done]. intros i. apply (Hc (S i)).
Qed.

Lemma one_kind_sub l l' : one_kind l → (∀ x, x ∈ l' → x ∈ l) → one_kind l'.
Proof. intros [Hk|Hk] Hsub; rewrite Forall_forall in Hk; [left|right]; rewrite Forall_forall; auto. Qed.
Lemma columns_sub keys keys' : one_kind_columns keys → (∀ k, k ∈ keys' → k ∈ keys) → one_kind_columns keys'.
Proof.
  intros Hc Hsub i. eapply one_kind_sub; [apply (Hc i)|]. intros x. rewrite !list_elem_of_omap. intros (k & Hk & Hx). eauto.
Qed.
Lemma keys_weak keys : one_kind_columns keys → weak_order lessKey keys.
Proof.
  intros Hc. split.
  - intros x Hx. apply lessKey_irrefl, (columns_sub keys); [done|set_solver].
  - intros x y z Hx Hy Hz Hxy Hyz. destruct (lessKey x z) eqn:E; [done|].
    rewrite (lessKey_equiv y x z) in Hyz; [done|apply (columns_sub keys); [done|set_solver]| |done].
    apply lessKey_asym; [|done]. apply (columns_sub keys); [done|set_solver].
  - intros x y z Hx Hy Hz. apply lessKey_equiv, (columns_sub keys); [done|set_solver].
Qed.

(** A sort sees the elements only through the comparison. *)
Section decorated.
Context {A B : Type} (f : A → B) (less : A → A → bool) (less' : B → B → bool).

Lemma weak_map l : (∀ a b, a ∈ l → b ∈ l → less' (f a) (f b) = less a b) → weak_order less l → weak_order less' (f <$> l).
Proof.
  intros Hf [H1 H2 H3]. split.
  - intros ? (x & -> & Hx)%list_elem_of_fmap. rewrite Hf by done. auto.
  - intros ? ? ? (x & -> & Hx)%list_elem_of_fmap (y & -> & Hy)%list_elem_of_fmap (z & -> & Hz)%list_elem_of_fmap.
    rewrite !Hf by done. eauto.
  - intros ? ? ? (x & -> & Hx)%list_elem_of_fmap (y & -> & Hy)%list_elem_of_fmap (z & -> & Hz)%list_elem_of_fmap.
    rewrite !Hf by done. eauto.
Qed.
Lemma insert_sorted_map x l : (∀ b, b ∈ l → less' (f b) (f x) = less b x) →
  insert_sorted less' (f x) (f <$> l) = f <$> insert_sorted less x l.
Proof.
  induction l as [|y l IH]; intros Hf; [done|]. cbn. rewrite Hf by set_solver. destruct (less y x); [|done].
  cbn. f_equal. apply IH. set_solver.
Qed.
Lemma stable_sort_map l : (∀ a b, a ∈ l → b ∈ l → less' (f a) (f b) = less a b) →
  stable_sort less' (f <$> l) = f <$> stable_sort less l.
Proof.
  induction l as [|x l IH]; intros Hf; [done|]. cbn. fold (stable_sort less l) (stable_sort less' (f <$> l)).
  rewrite IH by set_solver. apply insert_sorted_map. intros b. rewrite (stable_sort_perm less l). set_solver.
Qed.
End decorated.

(** ** Sorting *)

(** What an item is sorted by: in a list of maps, the chosen fields, or the keys and
    values of the item; in another list, the item itself. *)
Definition sort_key `{GoLib} (h : heap) (p : listOperationsParam) (items : list any) (x : any) : go (list scalar + scalar) :=
  match items with
  | AMap _ :: _ => key_fn h (lo_SortBy p) x
  | _ => s <-! scalar_of h (KLeaf x); Ret (inl [s])
  end.
(** The direction of [sort_method]. *)
Definition before_in `{GoLib} (p : listOperationsParam) (a b : list scalar) : bool :=
  if equal_fold (lo_SortMethod p) "desc" then lessKey b a else lessKey a b.

Definition keyed_by (kx : list scalar * any) : ((list scalar + scalar) * string) * any :=
  ((inl kx.1, "[" +:+ join_words " " kx.1.*2 +:+ "]"), kx.2).
Definition single (kx : list scalar * any) : scalar * any := (default (None, "") (head kx.1), kx.2).

Lemma keyed_all `{GoLib} h fields items keys : Forall2 (λ x k, key_fn h fields x = Ret (inl k)) items keys →
  go_mapM (keyed h fields) items = Ret (keyed_by <$> zip keys items).
Proof.
  induction 1 as [|x k items keys E _ IH]; [done|]. cbn [go_mapM]. unfold keyed at 1. rewrite E. cbn [go_bind]. by rewrite IH.
Qed.
Lemma single_all `{GoLib} h items keys :
  Forall2 (λ x k, (s <-! scalar_of h (KLeaf x); Ret (inl [s])) = Ret (inl k : list scalar + scalar)) items keys →
  go_mapM (λ x, s <-! scalar_of h (KLeaf x); Ret (s, x)) items = Ret (single <$> zip keys items)
  ∧ Forall (λ k, ∃ s, k = [s]) keys.
Proof.
  induction 1 as [|x k items keys E _ [IH Hk]]; [done|]. cbn [go_mapM]. destruct (scalar_of h (KLeaf x)); [|done].
  cbn [go_bind] in E. injection E as <-. cbn [go_bind]. rewrite IH. split; [done|]. constructor; eauto.
Qed.
Lemma lessKey_single a b : lessKey [a] [b] = lessScalar a b.
Proof. cbn. by destruct (lessScalar a b), (lessScalar b a). Qed.

(** The code's sorts are the stable sort by keys. *)
Lemma opSort_keys `{GoLib, SliceStable} h p items keys :
  Forall2 (λ x k, sort_key h p items x = Ret (inl k)) items keys → one_kind_columns keys →
  opSort h p items = Ret (stable_sort (λ a b, before_in p a.1 b.1) (zip keys items)).*2.
Proof.
  intros Hk Hc. set (less := λ a b : list scalar * any, before_in p a.1 b.1).
  assert (Hlen : length keys = length items) by (symmetry; by eapply Forall2_length).
  assert (W : weak_order less (zip keys items)).
  { apply (weak_key fst (before_in p)). rewrite fst_zip by lia. unfold before_in.
    destruct (equal_fold _ _); [apply weak_flip|]; by apply keys_weak. }
  assert (Hsort : ∀ {B} (f : list scalar * any → B * any) (less' : B * any → B * any → bool),
    (∀ a b, a ∈ zip keys items → b ∈ zip keys items → less' (f a) (f b) = less a b) → (∀ a, (f a).2 = a.2) →
    (slice_stable less' (f <$> zip keys items)).*2 = (stable_sort less (zip keys items)).*2).
  { intros B f less' Hf H2. rewrite slice_stable_order by (by eapply weak_map). rewrite stable_sort_map with (less := less) by done.
    rewrite <- list_fmap_compose. apply list_fmap_ext. intros _ a _. apply H2. }
  destruct items as [|x0 items0]; [by destruct keys|].
  assert (Hscalar : (∀ m, x0 ≠ AMap m) → opSort h p (x0 :: items0) = Ret (stable_sort less (zip keys (x0 :: items0))).*2).
  { intros Hm. assert (Hk' : Forall2 (λ x k, (s <-! scalar_of h (KLeaf x); Ret (inl [s])) = Ret (inl k : list scalar + scalar)) (x0 :: items0) keys).
    { eapply Forall2_impl; [exact Hk|]. intros x k. unfold sort_key. destruct x0; try done. by destruct (Hm m). }
    destruct (single_all h (x0 :: items0) keys Hk') as [E Hs]. rewrite Forall_forall in Hs.
    transitivity (ks <-! go_mapM (λ x, s <-! scalar_of h (KLeaf x); Ret (s, x)) (x0 :: items0);
      Ret (slice_stable (λ a b : scalar * any, if equal_fold (lo_SortMethod p) "desc" then lessScalar b.1 a.1 else lessScalar a.1 b.1) ks).*2).
    { unfold opSort. destruct x0; try done. by destruct (Hm m). }
    rewrite E. cbn [go_bind]. f_equal. apply Hsort; [|done]. intros [ka a] [kb b] Ha%elem_of_zip_l Hb%elem_of_zip_l.
    destruct (Hs ka Ha) as [sa ->], (Hs kb Hb) as [sb ->]. unfold less, before_in. cbn [single fst head default from_option].
    rewrite !lessKey_single. done. }
  destruct x0; try (apply Hscalar; congruence). clear Hscalar.
  unfold opSort. rewrite (keyed_all _ _ _ _ Hk). cbn [go_bind]. f_equal. by apply Hsort.
Qed.

(** C28: sorting gives a stable sort of the list by the keys of the items, the chosen
    fields or all keys and values in a list of maps, and the items themselves in
    another list: the same items, each pair of neighbours in the order of
    [sort_method], and items with keys that compare equal in the order they had.
    The keys at each place are numbers without NaN, or none is a number. *)
Theorem sort_stable `{GoLib, SliceStable} h p items keys :
  Forall2 (λ x k, sort_key h p items x = Ret (inl k)) items keys → one_kind_columns keys →
  ∃ out, opSort h p items = Ret out.*2 ∧ out ≡ₚ zip keys items
    ∧ Sorted (λ a b, before_in p b.1 a.1 = false) out
    ∧ ∀ c, c ∈ keys → let tie x := negb (before_in p x.1 c) && negb (before_in p c x.1) in
        filter tie out = filter tie (zip keys items).
Proof.
  intros Hk Hc. pose proof (opSort_keys h p items keys Hk Hc) as E. set (less := λ a b : list scalar * any, before_in p a.1 b.1) in E.
  assert (Hlen : length keys = length items) by (symmetry; by eapply Forall2_length).
  assert (W : weak_order less (zip keys items)).
  { apply (weak_key fst (before_in p)). rewrite fst_zip by lia. unfold before_in.
    destruct (equal_fold _ _); [apply weak_flip|]; by apply keys_weak. }
  exists (stable_sort less (zip keys items)). split; [done|split; [apply stable_sort_perm|split; [by apply stable_weak|]]].
  intros c Hin tie. destruct (list_elem_of_lookup_1 _ _ Hin) as [i Hi].
  destruct (lookup_lt_is_Some_2 items i) as [x Hx]; [rewrite <- Hlen; by eapply lookup_lt_Some|].
  apply (stable_tied less (c, x)). apply (weak_order_sub less (zip keys items)); [done|].
  intros a [->|Ha]%elem_of_cons; [|done]. apply list_elem_of_lookup. exists i. by rewrite lookup_zip_with, Hi, Hx.
Qed.

(** Three maps by "n" and then "t", in descending order. *)
Lemma sort_stable_witness :
  let cell (n : Z) (t : string) : gmap string any := {["n" := AInt n; "t" := AStr t]} in
  let h := Heap {[1%positive := cell 1%Z "a"; 2%positive := cell 2%Z "b"; 3%positive := cell 1%Z "c"]} ∅ in
  let items := [AMap (Some 1%positive); AMap (Some 2%positive); AMap (Some 3%positive)] in
  let p := {| lo_Query := "llm@xs"; lo_Operations := "sort"; lo_N := 0; lo_Strict := false; lo_SortMethod := "DESC";
              lo_SortBy := ["n"; "t"]; lo_Filter := None |} in
  ∃ out, @opSort demo_lib insertion_stable h p items = Ret out
    ∧ out = [AMap (Some 2%positive); AMap (Some 3%positive); AMap (Some 1%positive)].
Proof.
  intros cell h items p.
  destruct (@sort_stable demo_lib insertion_stable h p items
    [[(Some (f64_of_int 1), "1"); (None, "a")]; [(Some (f64_of_int 2), "2"); (None, "b")]; [(Some (f64_of_int 1), "1"); (None, "c")]])
    as (out & E & _ & _ & _).
  - repeat constructor; vm_compute; reflexivity.
  - intros [|[|i]]; cbn.
    + left. repeat constructor; (eexists; split; [reflexivity|reflexivity]).
    + right. repeat constructor.
    + right. constructor.
  - exists out.*2. split; [exact E|]. vm_compute in E. injection E as E. vm_compute. symmetry. exact E.
Defined.

(** The list 3, 1, 2.0, 1 in descending order: equal numbers keep their order. *)
Example sort_numbers :
  @opSort demo_lib insertion_stable (Heap ∅ ∅)
    {| lo_Query := "llm@xs"; lo_Operations := "sort"; lo_N := 0; lo_Strict := false; lo_SortMethod := "DESC"; lo_SortBy := []; lo_Filter := None |}
    [AInt 3; AInt 1; AFloat (f64_of_int 2); AInt64 1] = Ret [AInt 3; AFloat (f64_of_int 2); AInt 1; AInt64 1].
Proof. vm_compute. reflexivity. Qed.

(** A list that mixes numbers and texts need not be ordered: 9 < 10 as numbers, and
    "10" < "5" < "9" as texts. *)
Example mixed_cycle :
  let s n t : scalar := (Some (f64_of_int n), t) in
  lessScalar (s 9%Z "9") (s 10%Z "10") = true ∧ lessScalar (s 10%Z "10") (None, "5") = true
  ∧ lessScalar (None, "5") (s 9%Z "9") = true.
Proof. vm_compute. done. Qed.

(** ** Duplicates *)

Lemma drop_duplicates_spec `{GoLib} json_key h seen items ks :
  Forall2 (λ x k, dedupKey json_key h x = Ret k) items ks →
  ∃ out kept, opDropDuplicates json_key h seen items = Ret out
    ∧ Forall2 (λ x k, dedupKey json_key h x = Ret k) out kept ∧ NoDup kept ∧ (∀ k, k ∈ kept → k ∉ seen)
    ∧ zip out kept `sublist_of` zip items ks
    ∧ ∀ i x k, items !! i = Some x → ks !! i = Some k → k ∉ seen → k ∉ take i ks → x ∈ out.
Proof.
  intros Hks. revert seen. induction Hks as [|x k items ks Ek Hks IH]; intros seen; cbn [opDropDuplicates].
  { exists [], []. split_and!; [done|constructor|constructor|set_solver|done|done]. }
  rewrite Ek. cbn [go_bind]. case_decide as Hk.
  - destruct (IH seen) as (out & kept & -> & Ho & Hn & Hs & Hsub & Hall). exists out, kept. split_and!; try done.
    { by apply sublist_cons. }
    intros [|i] y j Hy Hj Hns Hnt; cbn in Hy, Hj; [congruence|]. apply (Hall i y j); try done. cbn in Hnt. set_solver.
  - destruct (IH (k :: seen)) as (out & kept & -> & Ho & Hn & Hs & Hsub & Hall). exists (x :: out), (k :: kept).
    split_and!; [done|by constructor|constructor; [intros Hin; apply (Hs k Hin); set_solver|done]|set_solver
      |by apply sublist_skip|].
    intros [|i] y j Hy Hj Hns Hnt; cbn in Hy, Hj; [injection Hy as <-; set_solver|].
    apply elem_of_cons. right. cbn in Hnt. apply (Hall i y j); try done; set_solver.
Qed.

(** [drop_duplicates] keeps the first item of every key: the result is the items,
    in their order, whose key has not occurred before. *)
Theorem duplicates_dropped `{GoLib} json_key h items ks :
  Forall2 (λ x k, dedupKey json_key h x = Ret k) items ks →
  ∃ out kept, opDropDuplicates json_key h [] items = Ret out
    ∧ Forall2 (λ x k, dedupKey json_key h x = Ret k) out kept ∧ NoDup kept
    ∧ zip out kept `sublist_of` zip items ks
    ∧ ∀ i x k, items !! i = Some x → ks !! i = Some k → k ∉ take i ks → x ∈ out.
Proof.
  intros Hks. destruct (drop_duplicates_spec json_key h [] items ks Hks) as (out & kept & E & Ho & Hn & _ & Hsub & Hall).
  exists out, kept. split_and!; try done. intros i x k Hx Hk Hnt. apply (Hall i x k); try done. set_solver.
Qed.

Lemma duplicates_dropped_witness :
  let json_key k := match k with KLeaf (AStr s) => Some s | _ => None end in
  @opDropDuplicates demo_lib json_key (Heap ∅ ∅) [] [AStr "b"; AStr "a"; AStr "b"] = Ret [AStr "b"; AStr "a"].
Proof.
  intros json_key.
  destruct (@duplicates_dropped demo_lib json_key (Heap ∅ ∅) [AStr "b"; AStr "a"; AStr "b"] ["b"; "a"; "b"]) as (out & kept & E & _).
  - repeat constructor; vm_compute; reflexivity.
  - rewrite E. f_equal. vm_compute in E. injection E as E. symmetry. exact E.
Defined.

(** ** Positions *)

(** A negative [n] counts from the end, says the comment; in fact the element is
    read at index [n], so that every negative position inside the list, and the least
    integer for every list, stops the run with a panic, in strict mode and without. *)
Theorem nth_negative_panics `{GoLib, SliceStable} json_key h p state s :
  lo_Operations p = "nth" → GetVar state (lo_Query p) h = Ret (inr (AList s), h) →
  (int64_min ≤ lo_N p < 0)%Z → (- Z.of_nat (length (elems h s)) ≤ lo_N p ∨ lo_N p = int64_min)%Z →
  lists_Invoke json_key p state h = Panic.
Proof.
  intros Hop Hget Hn Hin. unfold lists_Invoke. rewrite (mbind_step _ _ _ (inr (AList s)) h) by done.
  rewrite (mbind_step _ _ _ h h) by done.
  assert (list_operation json_key h p (elems h s) = Some Crash) as ->; [|done].
  unfold list_operation. rewrite Hop, decide_True by done. unfold opNth.
  rewrite decide_False by lia. rewrite decide_False by lia. rewrite decide_True; [by rewrite decide_False by lia|].
  destruct (decide (lo_N p = int64_min)) as [->|Hmin]; [change (wrap64 (- int64_min)) with int64_min; unfold int64_min; lia|].
  rewrite wrap64_id; [lia|]. unfold in_int64, int64_max. unfold int64_min in *. lia.
Qed.

Lemma nth_negative_panics_witness :
  let h := Heap {[1%positive := {["xs" := AList (Some (Slice 1 0 2 2))]}]} {[1%positive := [AInt 1; AInt 2]]} in
  let p := {| lo_Query := "llm@xs"; lo_Operations := "nth"; lo_N := -1; lo_Strict := false; lo_SortMethod := "asc";
              lo_SortBy := []; lo_Filter := None |} in
  @lists_Invoke demo_lib insertion_stable (λ _, None) p demo_state h = Panic.
Proof.
  intros h p. apply (@nth_negative_panics demo_lib insertion_stable _ h p demo_state (Some (Slice 1 0 2 2)));
    [reflexivity|vm_compute; reflexivity|vm_compute; split; congruence|left; vm_compute; discriminate].
Defined.

(** Positions inside the list, and the split at one. *)
Lemma positions `{GoLib} p items n : (1 ≤ n ≤ Z.of_nat (length items))%Z →
  (lo_N p = n → ∃ x, items !! Z.to_nat (n - 1) = Some x ∧ opNth p items = Items [x])
  ∧ (lo_N p = n → opHead p items = Items (take (Z.to_nat n) items))
  ∧ (lo_N p = Z.of_nat (length items) - n → n < Z.of_nat (length items) → opTail p items = Items (drop (Z.to_nat n) items))%Z.
Proof.
  intros Hn. split_and!.
  - intros E. destruct (lookup_lt_is_Some_2 items (Z.to_nat (n - 1))) as [x Hx]; [lia|]. exists x. split; [done|].
    unfold opNth. rewrite E, decide_False, decide_True, decide_True, decide_True by lia. by rewrite Hx.
  - intros E. unfold opHead. rewrite E. destruct (lo_Strict p); rewrite decide_False by lia; [done|]. by rewrite Z.min_l by lia.
  - intros E Hlt. unfold opTail. rewrite E. destruct (lo_Strict p); rewrite decide_False by lia; rewrite ?Z.min_l by lia;
      do 2 f_equal; lia.
Qed.

(** ** Computations that change no object

    A computation [Grows] when all it does to the heap is to allocate. *)

Class Grows {A} (c : mem A) : Prop := grows : ∀ h a h', c h = Ret (a, h') → extends h h'.

#[export] Instance grows_ret {A} (a : A) : Grows (mret' a).
Proof. intros h b h' [= _ <-]. reflexivity. Qed.
#[export] Instance grows_get : Grows mget.
Proof. intros h b h' [= _ <-]. reflexivity. Qed.
#[export] Instance grows_panic {A} : Grows (@mpanic A).
Proof. done. Qed.
#[export] Instance grows_read {A} (f : heap → go A) : Grows (mread f).
Proof. intros h a h' E. unfold mread in E. destruct (f h); [|done]. injection E as _ <-. reflexivity. Qed.
#[export] Instance grows_bind {A B} (c : mem A) (k : A → mem B) : Grows c → (∀ a, Grows (k a)) → Grows (mbind' c k).
Proof. intros Hc Hk h b h' (a & h1 & E1 & E2)%mbind_Ret. etrans; [by eapply Hc|by eapply Hk]. Qed.
#[export] Instance grows_fold {A B} (f : B → A → mem B) l b : (∀ b x, Grows (f b x)) → Grows (mfold f l b).
Proof. intros Hf. revert b. induction l as [|x l IH]; intros b; cbn [mfold]; apply _. Qed.
Lemma grows_map_in {A B} (f : A → mem B) l : (∀ x, x ∈ l → Grows (f x)) → Grows (mmap f l).
Proof.
  induction l as [|x l IH]; intros Hf; cbn [mmap]; [apply _|].
  assert (Grows (f x)) by (apply Hf; set_solver). assert (Grows (mmap f l)) by (apply IH; set_solver). apply _.
Qed.
#[export] Instance grows_map {A B} (f : A → mem B) l : (∀ x, Grows (f x)) → Grows (mmap f l).
Proof. intros Hf. by apply grows_map_in. Qed.
#[export] Instance grows_map_id {A B} (f : A → mem B) l : (∀ x, Grows (f x)) → Grows (mmap id (map f l)).
Proof. intros Hf. apply grows_map_in. intros c (x & -> & _)%list_elem_of_fmap. apply Hf. Qed.
#[export] Instance grows_new_map m : Grows (new_map m).
Proof. intros h a h' [= _ <-]. apply extends_new_map. Qed.
#[export] Instance grows_new_slice_cap n l : Grows (new_slice_cap n l).
Proof. intros h a h' [= _ <-]. apply extends_new_arr. Qed.
#[export] Instance grows_new_slice l : Grows (new_slice l).
Proof. apply _. Qed.

(** Case analysis down to instances. *)
Ltac solve_grows := intros; repeat first [apply _ | case_match | apply grows_bind; [|intros] | apply grows_fold; intros | apply grows_map_id; intros | apply grows_map; intros].

#[export] Instance grows_alloc v : Grows (alloc_value v).
Proof.
  induction v as [v IH] using value_strong_ind. destruct v; cbn [alloc_value]; try apply _.
  - apply grows_bind; [|solve_grows]. apply grows_map_in. intros x Hx. apply IH. eauto using vsize_list, vsize_map.
  - apply grows_bind; [|solve_grows]. apply grows_map_in. intros [k c] Hx. apply elem_of_map_to_list in Hx.
    rewrite lookup_fmap in Hx. apply fmap_Some in Hx as (v & Hv & ->). apply grows_bind; [|solve_grows]. apply IH. eauto using vsize_list, vsize_map.
Qed.

Section grows.
Context `{GoLib} `{MapOrder}.

#[export] Instance grows_step fuel cur key : Grows (step fuel cur key).
Proof. revert cur. induction fuel as [|fuel IH]; intros cur; destruct cur; cbn [step]; solve_grows. Qed.
#[export] Instance grows_getvar s ref : Grows (GetVar s ref).
Proof. unfold GetVar, getVarLocked, dotTraverse, step_part. solve_grows. Qed.
#[export] Instance grows_template s state : Grows (ResolveTemplate s state).
Proof. unfold ResolveTemplate, resolve_piece. solve_grows. Qed.
End grows.

Section transforms.
Context `{GoLib} `{MapOrder}.

#[export] Instance grows_each f items : (∀ x, Grows (f x)) → Grows (each_map f items).
Proof. intros Hf. unfold each_map. solve_grows. Qed.
#[export] Instance grows_copy item f : (∀ m, Grows (f m)) → Grows (changed_copy item f).
Proof. intros Hf. unfold changed_copy. solve_grows. Qed.
#[export] Instance grows_eval fuel v : Grows (recursiveEval fuel v).
Proof. revert v. induction fuel as [|fuel IH]; intros v; destruct v; cbn [recursiveEval]; solve_grows. Qed.
#[export] Instance grows_rule state obj rule : Grows (matchRule state obj rule).
Proof. unfold matchRule. solve_grows. Qed.
#[export] Instance grows_rules state obj rules : Grows (match_rules state obj rules).
Proof. induction rules as [|rule rules IH]; cbn [match_rules]; solve_grows. Qed.
#[export] Instance grows_objects state queries : Grows (input_objects state queries).
Proof. induction queries as [|q queries IH]; cbn [input_objects]; solve_grows. Qed.

(** Every operation but [combine] leaves the maps and lists of the state as they
    are: all it does to the heap is to allocate the objects of its result. *)
Theorem transforms_frame p state h r h' :
  do_Operations p ≠ "combine" → data_Invoke p state h = Ret (r, h') → extends h h'.
Proof.
  intros Hop E. assert (Hg : Grows (data_Invoke p state)); [|by eapply Hg]. clear E.
  unfold data_Invoke, opSelectKeys, opLiteralEval, opFilterValues, opAppendOrUpdate, apply_update, opRemoveKeys, opRenameKeys, rename_key.
  solve_grows. contradiction.
Qed.
End transforms.

(** Two maps at locations 2 and 3 and a list of them at the reference llm@rows. *)
Definition rows_heap : heap :=
  Heap {[1%positive := {["rows" := AList (Some (Slice 1 0 2 2))]};
         2%positive := {["a" := AInt 1; "b" := AStr "[1]"]};
         3%positive := {["b" := AInt 2]}]}
       {[1%positive := [AMap (Some 2%positive); AMap (Some 3%positive)]]}.
Definition data_param (op : string) : dataOperationsParam :=
  {| do_Query := ["llm@rows"]; do_Operations := op; do_SelectKeys := ["a"]; do_FilterValues := []; do_Updates := [];
     do_RemoveKeys := ["b"]; do_RenameKeys := [] |}.

Lemma transforms_frame_witness :
  ∃ r h', @data_Invoke demo_lib order_fwd (data_param "select_keys") demo_state rows_heap = Ret (r, h') ∧ extends rows_heap h'.
Proof.
  destruct (@data_Invoke demo_lib order_fwd (data_param "select_keys") demo_state rows_heap) as [[r h']|] eqn:E;
    [|vm_compute in E; discriminate].
  exists r, h'. split; [reflexivity|].
  apply (@transforms_frame demo_lib order_fwd (data_param "select_keys") demo_state rows_heap r h'); [discriminate|exact E].
Defined.

(** ** The contents of the result *)

Section contents.
Context `{GoLib} `{MapOrder}.

(** The maps of a result: the entries of each item, changed by [f]. *)
Definition row_of (f : gmap string any → gmap string any) (h h' : heap) (item : option loc) (v : any) : Prop :=
  ∃ l, v = AMap (Some l) ∧ h_maps h !! l = None ∧ h_maps h' !! l = Some (f (map_at h item)).

Lemma map_at_extends h h' m : extends h h' → (∀ l, m = Some l → is_Some (h_maps h !! l)) → map_at h' m = map_at h m.
Proof.
  intros [Hm _] Hl. destruct m as [l|]; [|done]. destruct (Hl l eq_refl) as [x Hx]. simpl.
  by rewrite Hx, (lookup_weaken _ _ _ _ Hx Hm).
Qed.
Lemma changed_copies f h items :
  (∀ l, Some l ∈ items → is_Some (h_maps h !! l)) →
  ∃ vs h', mmap (λ item, changed_copy item (λ m, mret' (f m))) items h = Ret (vs, h') ∧ extends h h'
    ∧ Forall2 (row_of f h h') items vs ∧ h_arrs h' = h_arrs h.
Proof.
  intros Hitems. assert (Hgen : ∀ h1, extends h h1 → h_arrs h1 = h_arrs h →
    ∃ vs h', mmap (λ item, changed_copy item (λ m, mret' (f m))) items h1 = Ret (vs, h') ∧ extends h1 h'
      ∧ Forall2 (row_of f h h') items vs ∧ h_arrs h' = h_arrs h); [|by apply Hgen].
  induction items as [|item items IH]; intros h1 Hext Ha; [by exists [], h1|].
  cbn [mmap]. unfold changed_copy at 1.
  assert (Hat : map_at h1 item = map_at h item).
  { apply map_at_extends; [done|]. intros l ->. apply Hitems. set_solver. }
  set (h2 := set_map (fresh_map h1) (f (map_at h item)) h1).
  assert (Hext2 : extends h1 h2) by apply extends_new_map.
  destruct (IH ltac:(intros; apply Hitems; set_solver) h2 ltac:(by etrans) Ha) as (vs & h' & E & Hext' & Hrows & Ha').
  exists (AMap (Some (fresh_map h1)) :: vs), h'. split_and!; [|by etrans| |done].
  - rewrite (mbind_step _ _ _ (AMap (Some (fresh_map h1))) h2).
    { by rewrite (mbind_step _ _ _ vs h'). }
    rewrite (mbind_step _ _ _ h1 h1) by done. rewrite (mbind_step _ _ _ (f (map_at h1 item)) h1) by done. by rewrite Hat.
  - constructor; [|done]. exists (fresh_map h1). split_and!; [done| |].
    + apply (lookup_weaken_None _ (h_maps h1)); [apply fresh_map_None|apply Hext].
    + eapply lookup_weaken; [|apply Hext']. apply maps_set.
Qed.

Lemma rows_listed f g h items : (∀ l, Some l ∈ items → is_Some (h_maps h !! l)) → (∀ m, f m = g m) →
  ∃ s h' rows, each_map (λ item, changed_copy item (λ m, mret' (f m))) items h = Ret (AList s, h') ∧ extends h h'
    ∧ elems h' s = rows ∧ Forall2 (row_of g h h') items rows.
Proof.
  intros Hitems Hfg. destruct (changed_copies f h items Hitems) as (rows & h' & E & Hext & Hrows & _).
  eexists _, _, rows. split_and!.
  - unfold each_map. rewrite (mbind_step _ _ _ rows h' E). reflexivity.
  - etrans; [exact Hext|]. apply extends_new_arr.
  - cbn [fst snd]. unfold elems, cells_at, set_arr. cbn [s_arr s_off s_len h_arrs]. rewrite lookup_insert_eq. cbn [default drop].
    by rewrite Nat.sub_diag, app_nil_r, take_ge.
  - eapply Forall2_impl; [exact Hrows|]. intros item v (l & -> & Hn & Hl). exists l. by rewrite <- Hfg.
Qed.
Lemma foldl_delete_filter (ks : list string) (m : gmap string any) :
  foldl (λ cp k, delete k cp) m ks = filter (λ kv, kv.1 ∉ ks) m.
Proof.
  revert m. induction ks as [|k ks IH]; intros m; cbn [foldl].
  - symmetry. apply map_filter_id. intros. apply not_elem_of_nil.
  - rewrite IH. apply map_eq. intros j. apply option_eq. intros v. rewrite !map_lookup_filter_Some, lookup_delete_Some.
    set_solver.
Qed.

(** [select_keys] and [remove_keys] return one new map for each input map, in
    order, with the chosen entries of the map and no others. *)
Theorem keys_selected p h items :
  (∀ l, Some l ∈ items → is_Some (h_maps h !! l)) →
  (∃ s h' rows, opSelectKeys p items h = Ret (AList s, h') ∧ extends h h' ∧ elems h' s = rows
     ∧ Forall2 (row_of (filter (λ kv, kv.1 ∈ do_SelectKeys p)) h h') items rows)
  ∧ (∃ s h' rows, opRemoveKeys p items h = Ret (AList s, h') ∧ extends h h' ∧ elems h' s = rows
     ∧ Forall2 (row_of (filter (λ kv, kv.1 ∉ do_RemoveKeys p)) h h') items rows).
Proof.
  intros Hitems. split; apply rows_listed; [done|done|done|].
  intros m. apply foldl_delete_filter.
Qed.
End contents.

Lemma keys_selected_witness :
  let items := [Some 2%positive; Some 3%positive] in
  ∃ s h' rows, @opSelectKeys (data_param "select_keys") items rows_heap = Ret (AList s, h') ∧ elems h' s = rows
    ∧ Forall2 (row_of (filter (λ kv, kv.1 ∈ ["a"])) rows_heap h') items rows.
Proof.
  intros items. destruct (keys_selected (data_param "select_keys") rows_heap items) as [(s & h' & rows & E & _ & Hr & Hrows) _].
  - intros l Hl. apply elem_of_cons in Hl as [[= ->]|Hl]; [vm_compute; eauto|].
    apply elem_of_cons in Hl as [[= ->]|Hl]; [vm_compute; eauto|by apply elem_of_nil in Hl].
  - exists s, h', rows. split; [exact E|]. split; [exact Hr|exact Hrows].
Defined.

(** ** Rules and updates that leave a key out *)

(** A filter rule without an operator is meant to compare for equality, but the
    missing operator is rendered as the text of nil, which is no operator: the rule
    matches nothing. *)
Theorem rule_without_operator `{GoLib} state obj rule h b h' :
  map_at h rule !! "operator" = None → matchRule state obj rule h = Ret (b, h') → b = false.
Proof.
  intros Hop E. unfold matchRule in E. apply mbind_Ret in E as (h0 & h1 & [= <- <-] & E).
  destruct (map_at h obj !! _) as [field|]; [|by injection E as <- _].
  assert (Ho : asString h (get_key h rule "operator") = Ret "<nil>") by (unfold get_key; by rewrite Hop).
  rewrite (mbind_step _ _ _ "<nil>" h) in E by (unfold mread; by rewrite Ho).
  change (to_lower "<nil>") with "<nil>" in E.
  apply mbind_Ret in E as (target & h2 & _ & E). apply mbind_Ret in E as (target' & h3 & _ & E).
  apply mbind_Ret in E as (v & h4 & _ & E). vm_compute in E. by injection E as <- _.
Qed.

Lemma rule_without_operator_witness :
  let h := Heap {[1%positive := {["a" := AStr "x"]}; 2%positive := {["key" := AStr "a"; "value" := AStr "x"]}]} ∅ in
  ∃ h', @matchRule demo_lib demo_state (Some 1%positive) (Some 2%positive) h = Ret (false, h').
Proof.
  intros h. destruct (@matchRule demo_lib demo_state (Some 1%positive) (Some 2%positive) h) as [[b h']|] eqn:E;
    [|vm_compute in E; discriminate].
  exists h'. rewrite (@rule_without_operator demo_lib demo_state (Some 1%positive) (Some 2%positive) h b h'); [reflexivity|reflexivity|exact E].
Defined.

(** An update without a key sets an entry named by the text of nil. *)
Example update_without_key :
  let h := Heap {[1%positive := {["value" := AInt 1]}]} ∅ in
  @apply_update demo_lib demo_state ∅ (Some 1%positive) h = Ret ({["<nil>" := AInt 1]}, h).
Proof. vm_compute. reflexivity. Qed.

(** [combine] appends to the list of the first map in place: with room behind the
    list, the cells another list of the state sees there are overwritten. *)
Example combine_shares :
  let whole := AList (Some (Slice 1 0 2 2)) in
  let h := Heap {[1%positive := {["xs" := AList (Some (Slice 1 0 1 2))]}; 2%positive := {["xs" := AInt 9]}]}
                {[1%positive := [AInt 1; AInt 2]]} in
  match @opCombine demo_lib order_fwd [Some 1%positive; Some 2%positive] h with
  | Ret (_, h') => elems h (Some (Slice 1 0 2 2)) = [AInt 1; AInt 2] ∧ elems h' (Some (Slice 1 0 2 2)) = [AInt 1; AInt 9]
  | Panic => False
  end.
Proof. vm_compute. done. Qed.

(** A list that meets a scalar is nested in the result. *)
Example combine_nests :
  let h := Heap {[1%positive := {["x" := AInt 1]}; 2%positive := {["x" := AList (Some (Slice 1 0 1 1))]}]} {[1%positive := [AInt 2]]} in
  match @opCombine demo_lib order_fwd [Some 1%positive; Some 2%positive] h with
  | Ret (AMap m, h') => match get_key h' m "x" with AList s => elems h' s = [AInt 1; AList (Some (Slice 1 0 1 1))] | _ => False end
  | _ => False
  end.
Proof. vm_compute. done. Qed.

(** ** Merging text *)

(** White space inside a placeholder is accepted where names are collected, and not
    where they are replaced; a value that looks like a placeholder is replaced in turn. *)
Example merge_spaces :
  let p := {| st_Method := "merge"; st_Script := "{{a}} {{ b }}"; st_SplitRef := ""; st_Delimiters := [","] |} in
  @doMerge demo_lib order_fwd (λ _ _ _, None) p demo_state {["a" := AStr "{{b}}"; "b" := AStr "y"]} (Heap ∅ ∅)
  = Ret ({["result" := AStr "y {{ b }}"]}, Heap ∅ ∅).
Proof. vm_compute. reflexivity. Qed.

(** ** Aggregation *)

#[export] Instance grows_truthy `{GoLib} state sels : Grows (first_truthy state sels).
Proof. induction sels as [|[] sels IH]; cbn [first_truthy]; solve_grows. Qed.

(** A selector that is passed over, as the first of a list. *)
Lemma first_truthy_cons `{GoLib} state s sels h v h' :
  first_truthy state (s :: sels) h = Ret (v, h') →
  (∃ sel val, s = AMap sel ∧ v = Some val ∧ str_of (get_key h sel "value") ≠ ""
     ∧ GetVar state (str_of (get_key h sel "value")) h = Ret (inr val, h') ∧ isTruthy h' val = true)
  ∨ ∃ h1, extends h h1 ∧ first_truthy state sels h1 = Ret (v, h')
     ∧ ∀ pre, first_truthy state (s :: pre) h = first_truthy state pre h1.
Proof.
  intros E. destruct s; cbn [first_truthy] in E |- *; try (right; exists h; split; [reflexivity|done]).
  apply mbind_Ret in E as (h0 & h1 & [= <- <-] & E). case_decide as Hr.
  { right. exists h. split; [reflexivity|]. split; [done|]. intros pre.
    rewrite (mbind_step _ _ _ h h) by done. by rewrite decide_True. }
  apply mbind_Ret in E as (r & h1 & Eg & E). apply mbind_Ret in E as (h1' & h2 & [= <- <-] & E).
  assert (Hext : extends h h1) by (by eapply (grows_getvar state)).
  assert (Hskip : (∀ val, r = inr val → isTruthy h1 val = false) → ∀ pre,
    first_truthy state (AMap m :: pre) h = first_truthy state pre h1).
  { intros Hf pre. cbn [first_truthy]. rewrite (mbind_step _ _ _ h h) by done. rewrite decide_False by done.
    rewrite (mbind_step _ _ _ r h1) by done. rewrite (mbind_step _ _ _ h1 h1) by done.
    destruct r as [err|val]; [done|]. by rewrite (Hf val eq_refl). }
  destruct r as [err|val]; [right; exists h1; split_and!; [done|done|by apply Hskip]|].
  destruct (isTruthy h1 val) eqn:Et.
  - injection E as <- <-. left. by exists m, val.
  - right. exists h1. split_and!; [done|done|]. apply Hskip. by intros ? [= <-].
Qed.

(** The value a group yields is the one of its first truthy selector. *)
Lemma first_truthy_spec `{GoLib} state sels h h' v :
  first_truthy state sels h = Ret (v, h') →
  match v with
  | None => True
  | Some val => ∃ pre sel post h1 h2, sels = pre ++ AMap sel :: post
    ∧ GetVar state (str_of (get_key h1 sel "value")) h1 = Ret (inr val, h2) ∧ isTruthy h2 val = true ∧ extends h h1
    ∧ first_truthy state pre h = Ret (None, h1)
  end.
Proof.
  destruct v as [val|]; [|done].
  revert h. induction sels as [|s sels IH]; intros h E; [done|].
  destruct (first_truthy_cons _ _ _ _ _ _ E) as [(sel & w & -> & [= <-] & Hr & Eg & Et)|(h1 & Hext & E1 & Hskip)].
  - exists [], sel, sels, h, h'. done.
  - destruct (IH h1 E1) as (pre & sel & post & h2 & h3 & -> & Eg & Et & Hext2 & Hpre).
    exists (s :: pre), sel, post, h2, h3. split_and!; try done; [by etrans|]. by rewrite Hskip.
Qed.
