(* ===== verification/BuildProps.v ===== *)
(** * Properties of the canvas: members of a body, wiring, conditions *)

From S2P Require Import Prelude GoValue TitleLevels StateMap AgentValue CanvasState AgentLemmas.
From S2P Require Import AgentLemmas CanvasTemplate NodeSwitch CanvasDSL LoopCondition CanvasBuild.
From S2P Require Import CanvasProps.

Open Scope go_scope.

(** ** Members by search *)

Definition edge (c : Canvas) (x y : string) : Prop := y ∈ Downstream (component c x).

Section search.
Context (c : Canvas) (root : string).

(** What the search keeps: the queue has no repetition and is visited, and every
    child of a visited node that is not queued any more is visited or the root. *)
Record searching (visited : gset string) (queue : list string) : Prop := {
  sg_queue : ∀ x, x ∈ queue → x ∈ visited;
  sg_nodup : NoDup queue;
  sg_root : root ∉ visited;
  sg_sound : ∀ x, x ∈ visited → rtc (edge c) root x;
  sg_closed : ∀ x y, (x = root ∨ x ∈ visited) → x ∉ queue → edge c x y → y = root ∨ y ∈ visited ∨ y = x;
}.

(** Children added so far: those among [done]. *)
Lemma add_children cur children : ∀ visited queue v' q',
  foldl (add_child root cur) (visited, queue) children = (v', q') →
  (∀ x, x ∈ queue → x ∈ visited) → NoDup queue →
  ∃ new, q' = queue ++ new ∧ v' = visited ∪ list_to_set new ∧ NoDup q' ∧ (∀ x, x ∈ q' → x ∈ v')
    ∧ (∀ x, x ∈ new → x ∈ children ∧ x ≠ root ∧ x ∉ visited)
    ∧ (∀ y, y ∈ children → y = root ∨ y = cur ∨ y ∈ v').
Proof.
  induction children as [|y children IH]; intros visited queue v' q' E Hq Hnd; cbn [foldl] in E.
  { injection E as <- <-. exists []. split_and!; [by rewrite app_nil_r|set_solver|done|done|set_solver|set_solver]. }
  unfold add_child at 2 in E. cbn [fst snd] in E. case_decide as Hy.
  - destruct (IH _ _ _ _ E Hq Hnd) as (new & -> & -> & Hnd' & Hq' & Hnew & Hall). exists new. split_and!; try done.
    + intros x Hx. destruct (Hnew x Hx) as (? & ? & ?). set_solver.
    + intros z [->|Hz]%elem_of_cons; [destruct Hy as [->|[->|Hy]]; [by left|by right; left|right; right; set_solver]|by apply Hall].
  - apply Decidable.not_or in Hy as [Hyr Hy]. apply Decidable.not_or in Hy as [Hyc Hyv].
    destruct (IH _ _ _ _ E) as (new & -> & -> & Hnd' & Hq' & Hnew & Hall).
    + intros x [Hx|Hx%list_elem_of_singleton]%elem_of_app; set_solver.
    + apply NoDup_app. split; [done|]. split; [set_solver|apply NoDup_singleton].
    + exists (y :: new). rewrite <- app_assoc in Hnd', Hq' |- *. cbn in *. split_and!; [done|set_solver|done|set_solver| |].
      * intros x [->|Hx]%elem_of_cons; [set_solver|]. destruct (Hnew x Hx) as (? & ? & ?). set_solver.
      * intros z [->|Hz]%elem_of_cons; [right; right; set_solver|]. destruct (Hall z Hz) as [?|[?|?]]; [by left|by right; left|right; right; set_solver].
Qed.

Lemma searching_step visited cur queue v' q' :
  searching visited (cur :: queue) →
  foldl (add_child root cur) (visited, queue) (Downstream (component c cur)) = (v', q') → searching v' q'.
Proof.
  intros [Hq Hnd Hr Hs Hc] E. apply NoDup_cons in Hnd as [Hcur Hnd].
  destruct (add_children cur _ _ _ _ _ E) as (new & -> & -> & Hnd' & Hq' & Hnew & Hall); [set_solver|done|].
  assert (Hv : cur ∈ visited) by (apply Hq; set_solver).
  split; [done|done| | |].
  - intros Hin. apply elem_of_union in Hin as [?|Hin]; [done|]. apply elem_of_list_to_set in Hin. by destruct (Hnew root Hin) as (_ & ? & _).
  - intros x [Hx|Hx%elem_of_list_to_set]%elem_of_union; [by apply Hs|]. destruct (Hnew x Hx) as (Hx' & _ & _).
    eapply rtc_r; [by apply Hs|exact Hx'].
  - intros x y Hx Hnq Hxy. destruct (decide (x = cur)) as [->|Hne].
    + destruct (Hall y Hxy) as [?|[?|?]]; auto.
    + destruct (Hc x y) as [?|[?|?]]; [|set_solver|done|by left|right; left; set_solver|by right; right].
      destruct Hx as [->|Hx]; [by left|]. right. apply elem_of_union in Hx as [?|Hx%elem_of_list_to_set]; [done|].
      exfalso. apply Hnq. set_solver.
Qed.

(** The names a search can meet. *)
Definition all_children : list string := map_to_list (Components c) ≫= λ kc, Downstream kc.2.
Lemma length_all_children : length all_children = children_count c.
Proof. unfold all_children, children_count. by rewrite length_bind_sum. Qed.
Lemma edge_child x y : edge c x y → y ∈ all_children.
Proof.
  unfold edge, component. intros Hy. destruct (Components c !! x) as [comp|] eqn:E; simpl in Hy; [|by apply elem_of_nil in Hy].
  apply list_elem_of_bind. exists (x, comp). split; [done|]. by apply elem_of_map_to_list.
Qed.
Lemma visited_bound visited queue : searching visited queue → size visited ≤ children_count c.
Proof.
  intros [_ _ Hr Hs _]. rewrite <- length_all_children. change (size visited) with (length (elements visited)). apply submseteq_length, NoDup_submseteq.
  - apply NoDup_elements.
  - intros x Hx%elem_of_elements. destruct (rtc_inv_r root x (Hs x Hx)) as [<-|(y & _ & Hy)]; [done|]. by eapply edge_child.
Qed.

Lemma search_total fuel : ∀ visited queue, searching visited queue → children_count c + length queue ≤ fuel + size visited →
  ∃ D, search fuel c root visited queue = Some D ∧ searching D [].
Proof.
  induction fuel as [|fuel IH]; intros visited [|cur queue] Hs Hf; cbn [search]; [by exists visited| |by exists visited|].
  { pose proof (visited_bound _ _ Hs). cbn [length] in Hf. lia. }
  destruct (foldl _ _ _) as [v' q'] eqn:E. apply IH; [by eapply searching_step|].
  destruct Hs as [Hq Hnd _ _ _]. apply NoDup_cons in Hnd as [_ Hnd].
  destruct (add_children cur _ _ _ _ _ E) as (new & -> & -> & Hnd' & _ & Hnew & _); [set_solver|done|].
  apply NoDup_app in Hnd' as (_ & _ & Hn).
  rewrite size_union, size_list_to_set, length_app by (try done; set_solver). cbn [length] in Hf. lia.
Qed.

Lemma searching_start v q : foldl (add_child root root) (∅, []) (Downstream (component c root)) = (v, q) →
  searching v q ∧ length q = size v.
Proof.
  intros E. destruct (add_children root _ _ _ _ _ E) as (new & -> & -> & Hnd & Hq & Hnew & Hall); [set_solver|constructor|].
  cbn [app] in *. split; [split|]; [done|done| | | |].
  - intros Hin. rewrite elem_of_union in Hin. destruct Hin as [Hin|Hin%elem_of_list_to_set]; [set_solver|]. by destruct (Hnew root Hin) as (_ & ? & _).
  - intros x [Hx|Hx%elem_of_list_to_set]%elem_of_union; [set_solver|]. destruct (Hnew x Hx) as (Hx' & _ & _). by apply rtc_once.
  - intros x y [->|Hx] Hnq Hxy; [destruct (Hall y Hxy) as [?|[?|?]]; auto|]. exfalso. set_solver.
  - rewrite union_empty_l_L. symmetry. by apply size_list_to_set.
Qed.
End search.

(** C16: the members of a body without grouping are exactly the components that can be
    reached from the Loop or Parallel node, without the node itself: the search
    always ends, whatever cycles the canvas has. *)
Theorem descendants_reachable c root :
  ∃ D, collectDescendants c root = Some D ∧ ∀ x, x ∈ D ↔ x ≠ root ∧ rtc (edge c) root x.
Proof.
  unfold collectDescendants. destruct (foldl _ _ _) as [v q] eqn:E. destruct (searching_start c root v q E) as [Hs Hlen].
  destruct (search_total c root (S (children_count c)) v q Hs) as (D & -> & HD); [lia|].
  exists D. split; [done|]. destruct HD as [_ _ Hr Hsound Hc]. intros x. split.
  - intros Hx. split; [by intros ->|by apply Hsound].
  - intros [Hne Hreach]. assert (Hin : x = root ∨ x ∈ D); [|by destruct Hin].
    clear Hne. revert x Hreach. apply rtc_ind_r; [by left|]. intros y z _ Hyz Hy.
    destruct (Hc y z) as [?|[?| ->]]; [done|set_solver|done|by left|by right|done].
Qed.

(** ** Wiring *)

Section wiring.
Context `{GoLib} {C : Type} (factory : option (string → option loc → string + option C)) (compiles : workflow C → bool) (overrides : params).

Lemma efold_cons {A B X} (f : B → A → mem (X + B)) x l b h r h' :
  efold f (x :: l) b h = Ret (inr r, h') → ∃ b1 h1, f b x h = Ret (inr b1, h1) ∧ efold f l b1 h1 = Ret (inr r, h').
Proof. cbn [efold]. intros ([err|b1] & h1 & E1 & E2)%mbind_Ret; [done|]. by exists b1, h1. Qed.
Lemma ebind_inr {A B X} (x : mem (X + A)) (k : A → mem (X + B)) h r h' :
  mbind' x (λ y, match y with inl err => mret' (inl err) | inr a => k a end) h = Ret (inr r, h') →
  ∃ a h1, x h = Ret (inr a, h1) ∧ k a h1 = Ret (inr r, h').
Proof. intros ([err|a] & h1 & E1 & E2)%mbind_Ret; [done|]. by exists a, h1. Qed.
Lemma eret_inr {A X} (x : X + A) (k : A → mem (X + workflow C)) h r h' :
  mbind' (mret' x) (λ y, match y with inl err => mret' (inl err) | inr a => k a end) h = Ret (inr r, h') →
  ∃ a, x = inr a ∧ k a h = Ret (inr r, h').
Proof. intros (a & h1 & [= -> ->] & E)%ebind_inr. by exists a. Qed.

(** What a node is given: one entry per data input ([None] is the start), and its dependencies. *)
Definition data_inputs (id : string) (wf : workflow C) : list (option string) :=
  omap (λ call, match call with
                | StartInput i => if decide (i = id) then Some None else None
                | AddInput i from => if decide (i = id) then Some (Some from) else None
                | _ => None
                end) wf.
Definition dependencies (id : string) (wf : workflow C) : list string :=
  omap (λ call, match call with AddDependency i from => if decide (i = id) then Some from else None | _ => None end) wf.
Definition unwired (wf : workflow C) : Prop := ∀ id, data_inputs id wf = [] ∧ dependencies id wf = [].

Lemma wired_app id wf wf' :
  data_inputs id (wf ++ wf') = data_inputs id wf ++ data_inputs id wf' ∧ dependencies id (wf ++ wf') = dependencies id wf ++ dependencies id wf'.
Proof. split; apply omap_app. Qed.
Lemma unwired_app wf wf' : unwired wf → unwired wf' → unwired (wf ++ wf').
Proof. intros H1 H2 id. destruct (wired_app id wf wf') as [-> ->], (H1 id) as [-> ->], (H2 id) as [-> ->]. done. Qed.
Lemma unwired_branches `{MapOrder} c mm : unwired (wireMultiBranches c mm).
Proof.
  intros id. unfold wireMultiBranches. induction (range (Components c)) as [|[k comp] rows IH]; [done|].
  cbn [omap list_omap]. destruct IH as [IH1 IH2]. repeat case_match; simplify_eq; try done; cbn; done.
Qed.

(** The macro nodes of a canvas, and the members of their bodies. *)
Definition is_macro (comp : CanvasComponent) : bool := equal_fold (ComponentName comp) "Loop" || equal_fold (ComponentName comp) "Parallel".
Definition macro_node (c : Canvas) (id : string) : Prop := ∃ comp, Components c !! id = Some comp ∧ is_macro comp = true.
Definition macro_member (c : Canvas) (x : string) : Prop := ∃ id m, macro_node c id ∧ collectLoopMembers c id = Some m ∧ x ∈ m.
Definition in_outer (c : Canvas) (id : string) : Prop := macro_node c id ∨ (is_Some (Components c !! id) ∧ ¬ macro_member c id).

Lemma expand_step O c calls mn mm cpnID comp r h h' :
  expand_macro factory compiles overrides O c (calls, mn, mm) (cpnID, comp) h = Ret (inr r, h') →
  if is_macro comp then
    ∃ call m, r = (calls ++ [call], {[cpnID]} ∪ mn, m ∪ mm) ∧ collectLoopMembers c cpnID = Some m ∧ unwired [call]
  else r = (calls, mn, mm).
Proof.
  unfold expand_macro, is_macro. destruct (equal_fold _ "Loop"); cbn [orb]; [|destruct (equal_fold _ "Parallel")].
  - intros (exp & h1 & E & E')%ebind_inr. unfold buildLoopExpansion in E. apply ebind_inr in E as (m & h2 & [= Em ->] & E).
    destruct (collectLoopMembers c cpnID) as [m'|]; [|done]. injection Em as ->.
    apply mbind_Ret in E as (r1 & h3 & _ & E). apply ebind_inr in E as (iv & h4 & _ & E).
    apply mbind_Ret in E as (h5 & h6 & _ & E). apply ebind_inr in E as (q & h7 & _ & E).
    apply ebind_inr in E as (sub & h8 & _ & E). injection E as <- <-.
    destruct (compiles _); [|done]. injection E' as <- <-. eexists _, m. split_and!; [done|done|]. done.
  - intros (exp & h1 & E & E')%ebind_inr. unfold buildParallelExpansion in E. apply ebind_inr in E as (m & h2 & [= Em ->] & E).
    destruct (collectLoopMembers c cpnID) as [m'|]; [|done]. injection Em as ->.
    apply mbind_Ret in E as (h5 & h6 & _ & E). apply ebind_inr in E as ([[i mc] o] & h7 & _ & E).
    apply ebind_inr in E as (sub & h8 & _ & E). apply ebind_inr in E as (g & h9 & _ & E). injection E as <- <-.
    injection E' as <- <-. eexists _, m. split_and!; [done|done|]. done.
  - by intros [= <- _].
Qed.

Lemma expand_rows O c rows : ∀ calls mn mm r h h',
  efold (λ acc kc, expand_macro factory compiles overrides (O kc.1) c acc kc) rows (calls, mn, mm) h = Ret (inr r, h') →
  ∃ new mn' mm', r = (calls ++ new, mn', mm') ∧ unwired new
    ∧ (∀ id, id ∈ mn' ↔ id ∈ mn ∨ ∃ comp, (id, comp) ∈ rows ∧ is_macro comp = true)
    ∧ (∀ x, x ∈ mm' ↔ x ∈ mm ∨ ∃ id comp m, (id, comp) ∈ rows ∧ is_macro comp = true ∧ collectLoopMembers c id = Some m ∧ x ∈ m).
Proof.
  induction rows as [|[k comp] rows IH]; intros calls mn mm r h h' E.
  { injection E as <- <-. exists [], mn, mm. split_and!; [by rewrite app_nil_r|done|set_solver|set_solver]. }
  apply efold_cons in E as (acc & h1 & E1 & E2). apply expand_step in E1. destruct (is_macro comp) eqn:Em.
  - destruct E1 as (call & m & -> & Hm & Hw). destruct (IH _ _ _ _ _ _ E2) as (new & mn' & mm' & -> & Hn & H1 & H2).
    exists ([call] ++ new), mn', mm'. split_and!; [by rewrite app_assoc|by apply unwired_app| |].
    + intros id. rewrite H1, elem_of_union, elem_of_singleton. split.
      * intros [[->|Hx]|(comp' & Hin & Hc)]; [right; exists comp; set_solver|by left|right; exists comp'; set_solver].
      * intros [Hx|(comp' & [[= -> ->]|Hin]%elem_of_cons & Hc)]; [by left; right|by left; left|by right; exists comp'].
    + intros x. rewrite H2, elem_of_union. split.
      * intros [[Hx|Hx]|(id & comp' & m' & Hin & ? & ? & ?)]; [right; exists k, comp, m; set_solver|by left|].
        right. exists id, comp', m'. set_solver.
      * intros [Hx|(id & comp' & m' & [[= -> ->]|Hin]%elem_of_cons & Hc & Hm' & Hx)]; [by left; right| |by right; exists id, comp', m'].
        rewrite Hm in Hm'. injection Hm' as <-. by left; left.
  - subst acc. destruct (IH _ _ _ _ _ _ E2) as (new & mn' & mm' & -> & Hn & H1 & H2). exists new, mn', mm'.
    split_and!; [done|done| |].
    + intros id. rewrite H1. split; (intros [Hx|(comp' & Hin & Hc)]; [by left|right; exists comp']); [set_solver|].
      apply elem_of_cons in Hin as [[= -> ->]|Hin]; [congruence|done].
    + intros x. rewrite H2. split; (intros [Hx|(id & comp' & m' & Hin & Hc & Hm' & Hx)]; [by left|right; exists id, comp', m']); [set_solver|].
      apply elem_of_cons in Hin as [[= -> ->]|Hin]; [congruence|done].
Qed.

(** Pass 1 registers nodes and lists the edges of the nodes of the outer graph. *)
Definition skipped (mn mm : gset string) (id : string) : bool := bool_decide ((id ∉ mn) ∧ id ∈ mm).
Definition edges_of (mn mm : gset string) (kc : string * CanvasComponent) : list (string * string) :=
  if skipped mn mm kc.1 then [] else map (λ up, (kc.1, up)) (Upstream kc.2).
Lemma register_rows c mn mm rows : ∀ calls pending r h h',
  efold (register_node factory overrides c mn mm) rows (calls, pending) h = Ret (inr r, h') →
  ∃ new, r = (calls ++ new, pending ++ (rows ≫= edges_of mn mm)) ∧ unwired new.
Proof.
  induction rows as [|[k comp] rows IH]; intros calls pending r h h' E.
  { injection E as <- <-. exists []. by rewrite !app_nil_r. }
  apply efold_cons in E as (acc & h1 & E1 & E2). unfold register_node in E1. rewrite bind_cons.
  assert (Hcase : ∃ new, acc = (calls ++ new, pending ++ edges_of mn mm (k, comp)) ∧ unwired new).
  { unfold edges_of, skipped. cbn [fst snd]. case_decide as H1; [|case_decide as H2; [|case_decide]].
    - injection E1 as <- <-. exists []. rewrite app_nil_r. by rewrite bool_decide_false by tauto.
    - injection E1 as <- <-. exists []. rewrite app_nil_r. rewrite bool_decide_true by done. by rewrite app_nil_r.
    - done.
    - apply ebind_inr in E1 as (body & h2 & _ & E1). injection E1 as <- <-. exists [AddLambdaNode k body].
      rewrite bool_decide_false by tauto. split; [done|]. done. }
  destruct Hcase as (new & -> & Hn). destruct (IH _ _ _ _ _ E2) as (new' & -> & Hn').
  exists (new ++ new'). split; [by rewrite !app_assoc|by apply unwired_app].
Qed.

(** The upstreams of a node among the edges. *)
Definition ups (id : string) (pending : list (string * string)) : list string :=
  omap (λ e, if decide (e.1 = id) then Some e.2 else None) pending.
Lemma wire_edges_spec known pending : ∀ first calls, wire_edges known first pending = inr calls →
  (∀ e, e ∈ pending → e.1 ≠ e.2 ∧ known e.2 = true)
  ∧ ∀ id, data_inputs id calls = (if decide (id ∈ first) then [] else Some <$> take 1 (ups id pending))
    ∧ dependencies id calls = (if decide (id ∈ first) then ups id pending else drop 1 (ups id pending)).
Proof.
  induction pending as [|[cpn up] pending IH]; intros first calls E.
  { injection E as <-. split; [set_solver|]. intros id. by case_decide. }
  cbn [wire_edges] in E. case_decide as Hne; [done|]. destruct (known up) eqn:Hu; [|done]. cbn [negb] in E.
  destruct (known cpn); [|done]. cbn [negb] in E. destruct (wire_edges known _ pending) as [|calls'] eqn:E'; [done|].
  injection E as <-. destruct (IH _ _ E') as [Hk Hw]. split; [intros e [->|He]%elem_of_cons; [done|by apply Hk]|].
  intros id. destruct (Hw id) as [Hd Hp]. unfold ups, data_inputs, dependencies in *. cbn [omap list_omap fst snd].
  destruct (decide (cpn = id)) as [->|Hid].
  - rewrite decide_True in Hd by set_solver. rewrite decide_True in Hp by set_solver. destruct (decide (id ∈ first)).
    + rewrite decide_True by done. by rewrite Hd, Hp.
    + rewrite decide_True by done. by rewrite Hd, Hp.
  - destruct (decide (cpn ∈ first)); rewrite ?(decide_False (P := cpn = id)) by done;
      rewrite Hd, Hp; split; (destruct (decide (id ∈ first)); [rewrite decide_True by set_solver|rewrite decide_False by set_solver]); done.
Qed.

Lemma ups_app id a b : ups id (a ++ b) = ups id a ++ ups id b.
Proof. apply omap_app. Qed.
Lemma ups_row mn mm id k comp : ups id (edges_of mn mm (k, comp)) = if decide (k = id ∧ skipped mn mm id = false) then Upstream comp else [].
Proof.
  unfold edges_of. cbn [fst snd]. destruct (decide (k = id)) as [->|Hne].
  - destruct (skipped mn mm id); [by rewrite decide_False by naive_solver|]. rewrite decide_True by done.
    induction (Upstream comp) as [|u us IH]; [done|]. unfold ups in *. cbn. rewrite decide_True by done. by rewrite IH.
  - rewrite decide_False by tauto. destruct (skipped mn mm k); [done|]. unfold ups.
    induction (Upstream comp) as [|u us IH]; [done|]. cbn. by rewrite decide_False.
Qed.
(** Each component has one row. *)
Lemma ups_rows mn mm id comp rows : NoDup rows.*1 → (id, comp) ∈ rows →
  ups id (rows ≫= edges_of mn mm) = if skipped mn mm id then [] else Upstream comp.
Proof.
  induction rows as [|[k c'] rows IH]; [by intros _ ?%elem_of_nil|]. rewrite fmap_cons, NoDup_cons, bind_cons, ups_app, ups_row.
  cbn [fst]. intros [Hk Hnd] [[= -> ->]|Hin]%elem_of_cons.
  - assert (Hrest : ups k (rows ≫= edges_of mn mm) = []).
    { clear -Hk. induction rows as [|[k2 c2] rows IH]; [done|]. rewrite bind_cons, ups_app, ups_row, decide_False; [|set_solver].
      apply IH. set_solver. }
    rewrite Hrest, app_nil_r. destruct (skipped mn mm k); [by rewrite decide_False by naive_solver|by rewrite decide_True].
  - rewrite decide_False, IH; [done|done|done|]. intros [-> _]. apply Hk. by apply list_elem_of_fmap_2' with (id, comp).
Qed.
(** A row of another node adds nothing. *)
Lemma start_other mn mm id kc rows : kc.1 ≠ id →
  data_inputs id (omap (start_input (C := C) mn mm) (kc :: rows)) = data_inputs id (omap (start_input mn mm) rows)
  ∧ dependencies id (omap (start_input (C := C) mn mm) (kc :: rows)) = dependencies id (omap (start_input mn mm) rows).
Proof.
  destruct kc as [k comp]. cbn [fst]. intros Hne.
  assert (Hs : start_input (C := C) mn mm (k, comp) = None ∨ start_input (C := C) mn mm (k, comp) = Some (StartInput k)).
  { unfold start_input. repeat case_match; auto. }
  cbn [omap list_omap]. destruct Hs as [-> | ->]; [done|]. unfold data_inputs, dependencies. cbn [omap list_omap].
  by rewrite decide_False.
Qed.
Lemma start_rows mn mm id comp rows : NoDup rows.*1 → (id, comp) ∈ rows →
  data_inputs id (omap (start_input mn mm) rows) = (if skipped mn mm id then [] else match Upstream comp with [] => [None] | _ => [] end)
  ∧ dependencies id (omap (start_input mn mm) rows) = [].
Proof.
  assert (Hnone : ∀ l, id ∉ l.*1 → data_inputs id (omap (start_input (C := C) mn mm) l) = [] ∧ dependencies id (omap (start_input (C := C) mn mm) l) = []).
  { clear. induction l as [|kc l IH]; intros Hk; [done|]. rewrite fmap_cons, not_elem_of_cons in Hk.
    destruct (start_other mn mm id kc l) as [-> ->]; [naive_solver|]. apply IH, (proj2 Hk). }
  induction rows as [|[k c'] rows IH]; [by intros _ ?%elem_of_nil|]. rewrite fmap_cons, NoDup_cons. cbn [fst].
  intros [Hk Hnd] [[= -> ->]|Hin]%elem_of_cons.
  - destruct (Hnone rows Hk) as [H1 H2]. unfold skipped. cbn [omap list_omap start_input].
    destruct (decide (k ∈ mm ∧ k ∉ mn)) as [Hs|Hs].
    + by rewrite bool_decide_true by tauto.
    + rewrite bool_decide_false by tauto. destruct (Upstream c') as [|u us]; [|done].
      unfold data_inputs in *. cbn [omap list_omap]. rewrite decide_True by done. by rewrite H1.
  - destruct (start_other mn mm id (k, c') rows) as [-> ->]; [|by apply IH].
    cbn [fst]. intros ->. apply Hk. by apply list_elem_of_fmap_2' with (id, comp).
Qed.

Lemma ends_unwired id terminals ends : id ≠ terminalMergeNodeID → wireWorkflowTerminals terminals "" true = inr ends →
  data_inputs id ends = [] ∧ dependencies id ends = [].
Proof.
  intros Hid E. unfold wireWorkflowTerminals in E. destruct terminals as [|t [|t' ts]]; [done|by injection E as <-|].
  injection E as <-. unfold data_inputs, dependencies. cbn [omap list_omap app wire_sources map].
  rewrite !decide_False by done. induction ts as [|u us IH]; [done|]. cbn. rewrite !decide_False by done. apply IH.
Qed.

(** The sets of a successful build are the macro nodes and members of the canvas. *)
Lemma outer_known c mn mm id :
  (∀ i, i ∈ mn ↔ macro_node c i) → (∀ x, x ∈ mm ↔ macro_member c x) → outer_node c mn mm id ↔ in_outer c id.
Proof. intros Hn Hm. unfold outer_node, in_outer. rewrite Hn, Hm. done. Qed.

Lemma build_passes O c h wf h' : BuildWorkflow factory compiles overrides O c h = Ret (inr wf, h') →
  ∃ mn mm new edges ends, (∀ i, i ∈ mn ↔ macro_node c i) ∧ (∀ x, x ∈ mm ↔ macro_member c x) ∧ unwired new
    ∧ wire_edges (λ id, bool_decide (outer_node c mn mm id)) ∅ (@range (b_nodes O) _ (Components c) ≫= edges_of mn mm) = inr edges
    ∧ wireWorkflowTerminals (filter (λ kc, is_terminal mn mm kc = true) (@range (b_ends O) _ (Components c))).*1 "" true = inr ends
    ∧ wf = new ++ edges ++ @wireMultiBranches _ C (b_branches O) c mm ++ omap (start_input mn mm) (@range (b_ends O) _ (Components c)) ++ ends.
Proof.
  unfold BuildWorkflow. case_decide; [done|]. intros (m & h1 & Em & E)%ebind_inr.
  destruct (expand_rows _ _ _ _ _ _ _ _ _ Em) as (mc & mn & mm & -> & Hmc & Hn & Hm). cbn [app] in E.
  apply ebind_inr in E as (n & h2 & En & E). destruct (register_rows _ _ _ _ _ _ _ _ _ En) as (nc & -> & Hnc). cbn [app] in E.
  apply eret_inr in E as (edges & Ee & E). apply eret_inr in E as (ends & Ed & E). injection E as <- <-.
  exists mn, mm, (mc ++ nc), edges, ends. split_and!; [| |by apply unwired_app|done|done|by rewrite <- app_assoc].
  - intros i. rewrite Hn. unfold macro_node. setoid_rewrite (@elem_of_range (b_macros O)). set_solver.
  - intros x. rewrite Hm. unfold macro_member, macro_node. setoid_rewrite (@elem_of_range (b_macros O)).
    split; [intros [?|(i & comp & m & ? & ? & ? & ?)]; [set_solver|exists i, m; eauto]|intros (i & m & (comp & ? & ?) & ? & ?); right; by exists i, comp, m].
Qed.

Lemma wiring_ok O c h wf h' id comp :
  BuildWorkflow factory compiles overrides O c h = Ret (inr wf, h') →
  Components c !! id = Some comp → in_outer c id → id ≠ terminalMergeNodeID →
  data_inputs id wf = [head (Upstream comp)] ∧ dependencies id wf = tail (Upstream comp)
  ∧ ∀ up, up ∈ Upstream comp → up ≠ id ∧ in_outer c up.
Proof.
  intros E Hc Hout Hid. destruct (build_passes _ _ _ _ _ E) as (mn & mm & new & edges & ends & Hn & Hm & Hnew & Ee & Ed & ->).
  assert (Hskip : skipped mn mm id = false).
  { apply bool_decide_false. intros [H1 H2]. destruct Hout as [Hmac|[_ Hmem]]; [by apply H1, Hn|by apply Hmem, Hm]. }
  destruct (wire_edges_spec _ _ _ _ Ee) as [Hk Hw]. destruct (Hw id) as [Hd Hp]. rewrite decide_False in Hd by set_solver.
  rewrite decide_False in Hp by set_solver.
  rewrite (ups_rows mn mm id comp), Hskip in Hd by (try apply range_NoDup; by apply elem_of_range).
  rewrite (ups_rows mn mm id comp), Hskip in Hp by (try apply range_NoDup; by apply elem_of_range).
  destruct (start_rows mn mm id comp (@range (b_ends O) _ (Components c))) as [Hs1 Hs2]; [apply range_NoDup|by apply elem_of_range|].
  rewrite Hskip in Hs1. destruct (ends_unwired id _ _ Hid Ed) as [He1 He2].
  destruct (Hnew id) as [Hn1 Hn2], (@unwired_branches (b_branches O) c mm id) as [Hb1 Hb2].
  rewrite !(fun a b => proj1 (wired_app id a b)), !(fun a b => proj2 (wired_app id a b)).
  rewrite Hn1, Hd, Hb1, Hs1, He1, Hn2, Hp, Hb2, Hs2, He2, !app_nil_r. split_and!; [by destruct (Upstream comp)|by destruct (Upstream comp)|].
  intros up Hup. destruct (Hk (id, up)) as [Hne Hko].
  - apply list_elem_of_bind. exists (id, comp). split; [|by apply elem_of_range]. unfold edges_of. cbn [fst snd]. rewrite Hskip.
    by apply list_elem_of_fmap_2' with up.
  - cbn [fst snd] in *. split; [done|]. apply bool_decide_eq_true in Hko. by apply (outer_known c mn mm).
Qed.
(** C12: in a workflow that builds, every node of the outer graph gets exactly one data
    input, from its first upstream or, when it has none, from the start, and one
    dependency for each of its other upstreams; all its upstreams are other nodes of
    the outer graph. *)
Theorem nodes_wired O c h wf h' id comp :
  BuildWorkflow factory compiles overrides O c h = Ret (inr wf, h') →
  Components c !! id = Some comp → in_outer c id → id ≠ terminalMergeNodeID →
  data_inputs id wf = [head (Upstream comp)] ∧ dependencies id wf = tail (Upstream comp)
  ∧ ∀ up, up ∈ Upstream comp → up ≠ id ∧ in_outer c up.
Proof. apply wiring_ok. Qed.

(** A canvas in which a node of the outer graph, a Loop or Parallel node among them,
    has an upstream inside the body of a Loop or Parallel node does not build.  A
    Loop inside the body of another Loop is a node of the outer graph too: such a
    canvas is refused as soon as the inner Loop follows a node of the body. *)
Theorem body_upstream_refused O c h id comp up wf h' :
  Components c !! id = Some comp → in_outer c id → id ≠ terminalMergeNodeID →
  up ∈ Upstream comp → macro_member c up → ¬ macro_node c up →
  BuildWorkflow factory compiles overrides O c h ≠ Ret (inr wf, h').
Proof.
  intros Hc Hout Hid Hup Hmem Hmac E. destruct (wiring_ok _ _ _ _ _ _ _ E Hc Hout Hid) as (_ & _ & Hall).
  destruct (Hall up Hup) as [_ [?|[_ ?]]]; done.
Qed.

(** ** The body of a loop *)

Lemma ups_sources cpnID id sources :
  data_inputs id (wire_sources cpnID sources) = (if decide (cpnID = id) then Some <$> take 1 sources else [])
  ∧ dependencies id (wire_sources cpnID sources) = (if decide (cpnID = id) then drop 1 sources else []).
Proof.
  destruct sources as [|s sources]; [by case_decide|]. unfold data_inputs, dependencies. cbn [wire_sources omap list_omap].
  assert (Hd : omap (λ call : wf_call C, match call with
                | StartInput i => if decide (i = id) then Some None else None
                | AddInput i from => if decide (i = id) then Some (Some from) else None
                | _ => None end) (map (AddDependency cpnID) sources) = []) by (induction sources; done).
  assert (Hp : omap (λ call : wf_call C, match call with AddDependency i from => if decide (i = id) then Some from else None | _ => None end)
                 (map (AddDependency cpnID) sources) = if decide (cpnID = id) then sources else []).
  { clear Hd. induction sources as [|u us IH]; [by case_decide|]. cbn. rewrite IH. by destruct (decide (cpnID = id)). }
  rewrite Hd, Hp. by destruct (decide (cpnID = id)).
Qed.
Lemma member_rows (f : string → list string) rows id : NoDup rows → id ∈ rows →
  data_inputs id (rows ≫= λ cpnID, wire_sources cpnID (f cpnID)) = Some <$> take 1 (f id)
  ∧ dependencies id (rows ≫= λ cpnID, wire_sources cpnID (f cpnID)) = drop 1 (f id).
Proof.
  assert (Hnone : ∀ l, id ∉ l → data_inputs id (l ≫= λ cpnID, wire_sources cpnID (f cpnID)) = []
    ∧ dependencies id (l ≫= λ cpnID, wire_sources cpnID (f cpnID)) = []).
  { clear. induction l as [|k l IH]; intros Hk; [done|]. rewrite not_elem_of_cons in Hk. rewrite bind_cons.
    destruct (wired_app id (wire_sources k (f k)) (l ≫= λ cpnID, wire_sources cpnID (f cpnID))) as [-> ->].
    destruct (ups_sources k id (f k)) as [-> ->]. rewrite !decide_False by naive_solver. apply IH, (proj2 Hk). }
  induction rows as [|k rows IH]; [by intros _ ?%elem_of_nil|]. rewrite NoDup_cons, bind_cons. intros [Hk Hnd] Hin.
  destruct (wired_app id (wire_sources k (f k)) (rows ≫= λ cpnID, wire_sources cpnID (f cpnID))) as [-> ->].
  destruct (ups_sources k id (f k)) as [-> ->]. apply elem_of_cons in Hin as [<-|Hin].
  - destruct (Hnone rows Hk) as [-> ->]. rewrite !decide_True by done. by rewrite !app_nil_r.
  - rewrite !decide_False by (intros ->; done). by apply IH.
Qed.

Lemma sub_ends_unwired terminals ends : wireWorkflowTerminals terminals loopInitKey false = inr ends → unwired ends.
Proof.
  intros E id. unfold wireWorkflowTerminals in E. destruct terminals as [|t [|t' ts]]; [by injection E as <-|by injection E as <-|].
  injection E as <-. unfold data_inputs, dependencies. cbn [omap list_omap app map].
  induction ts as [|u us IH]; [done|]. cbn. apply IH.
Qed.
Lemma member_nodes c loopID members : ∀ acc r h h',
  efold (λ acc cpnID,
      if decide (ComponentName (component c cpnID) = "") then mret' (inl (EmptyLoopMember loopID cpnID)) else
      body ⇐? body_of factory overrides c cpnID;
      mret' (inr (acc ++ [AddLambdaNode cpnID body]))) members acc h = Ret (inr r, h') →
  unwired acc → unwired r.
Proof.
  induction members as [|k members IH]; intros acc r h h' E Ha; [by injection E as <- <-|].
  apply efold_cons in E as (acc' & h1 & E1 & E2). apply (IH _ _ _ _ E2). case_decide; [done|].
  apply ebind_inr in E1 as (body & h2 & _ & E1). injection E1 as <- <-. by apply unwired_app.
Qed.
Lemma range_set_spec `{MapOrder} s : NoDup (range_set s) ∧ ∀ x, x ∈ range_set s ↔ x ∈ s.
Proof.
  unfold range_set. split; [apply range_NoDup|]. intros x. rewrite elem_of_range_keys, lookup_gset_to_gmap.
  unfold is_Some.
  destruct (decide (x ∈ s)) as [Hx|Hx]; [rewrite option_guard_True by done|rewrite option_guard_False by done]; naive_solver.
Qed.

(** C15: in the workflow of a body every member gets exactly one data input, and one
    dependency for each of its other sources; the sources of a member are its
    upstreams in the body and, for the Loop itself or when there are none, the entry
    node, which alone is fed by the start. *)
Theorem members_wired O c members loopID initValues h wf h' x :
  buildSubWorkflow factory overrides O c members loopID initValues h = Ret (inr wf, h') →
  x ∈ members → x ≠ loopInitKey →
  let sources := member_sources c members loopID x in
  ∃ s rest, sources = s :: rest ∧ data_inputs x wf = [Some s] ∧ dependencies x wf = rest
    ∧ (∀ y, y ∈ sources → y = loopInitKey ∨ y ∈ members)
    ∧ (∀ up, up ∈ Upstream (component c x) → up ∈ members → up ≠ loopID → up ∈ sources).
Proof.
  intros E Hx Hne sources. unfold buildSubWorkflow in E. apply ebind_inr in E as (nodes & h1 & En & E).
  destruct (wireWorkflowTerminals _ loopInitKey false) as [|ends] eqn:Ed; [done|]. injection E as <- <-.
  apply member_nodes in En; [|done]. apply sub_ends_unwired in Ed.
  destruct (@range_set_spec (o_edges O) members) as [Hnd Hin].
  destruct (member_rows (member_sources c members loopID) (@range_set (o_edges O) members) x Hnd) as [Hd Hp]; [by apply Hin|].
  assert (Hsrc : ∃ s rest, sources = s :: rest).
  { unfold sources, member_sources. destruct (omap _ _) as [|s rest]; eauto. }
  destruct Hsrc as (s & rest & Hs). exists s, rest. fold sources in Hd, Hp. rewrite Hs in Hd, Hp. cbn [take drop fmap list_fmap] in Hd, Hp.
  destruct (En x) as [Hn1 Hn2], (Ed x) as [He1 He2], (@unwired_branches (o_branches O) (subCanvasForMembers c members) ∅ x) as [Hb1 Hb2].
  rewrite !(fun a b => proj1 (wired_app x a b)), !(fun a b => proj2 (wired_app x a b)).
  rewrite Hn1, Hn2, Hd, Hp, Hb1, Hb2, He1, He2, !app_nil_r, !app_nil_l. split_and!; [done| |done| |].
  - unfold data_inputs. cbn [omap list_omap]. by rewrite decide_False.
  - intros y. unfold sources, member_sources. destruct (omap _ _) as [|s' rest'] eqn:Eo; [set_solver|]. rewrite <- Eo.
    intros (up & _ & Hup)%list_elem_of_omap. repeat case_decide; simplify_eq; auto.
  - intros up Hup Hm Hl. unfold sources, member_sources. assert (Hin' : up ∈ omap (λ up, if decide (up = loopID) then Some loopInitKey
      else if decide (up ∈ members) then Some up else None) (Upstream (component c x))).
    { apply list_elem_of_omap. exists up. split; [done|]. by rewrite decide_False, decide_True. }
    destruct (omap _ _); [by apply elem_of_nil in Hin'|done].
Qed.
End wiring.

(** ** Examples *)

Definition node (name : string) (up down : list string) : CanvasComponent :=
  {| ComponentName := name; Params := None; Downstream := down; Upstream := up |}.
Definition canvas_of (l : list (string * CanvasComponent)) (parents : list (string * string)) : Canvas :=
  {| Components := list_to_map l; cv_Path := []; cv_History := []; cv_Memory := []; cv_Globals := None; NodeParents := list_to_map parents |}.
Definition orders_with (o : MapOrder) : build_orders :=
  let sub := {| o_nodes := o; o_edges := o; o_branches := o; o_ends := o |} in
  {| b_macros := o; b_nodes := o; b_branches := o; b_ends := o; b_sub := λ _, sub |}.
Definition demo_build (o : MapOrder) (c : Canvas) : go ((build_error + workflow unit) * heap) :=
  @BuildWorkflow demo_lib unit None (λ _, true) ∅ (orders_with o) c (Heap ∅ ∅).

(** A diamond that ends in one message. *)
Definition diamond : Canvas := canvas_of
  [("begin", node "Begin" [] ["a"; "b"]); ("a", node "LLM" ["begin"] ["m"]); ("b", node "LLM" ["begin"] ["m"]);
   ("m", node "Message" ["a"; "b"] [])] [].

Lemma nodes_wired_witness :
  ∃ wf h', demo_build order_fwd diamond = Ret (inr wf, h')
    ∧ data_inputs "m" wf = [Some "a"] ∧ dependencies "m" wf = ["b"].
Proof.
  destruct (demo_build order_fwd diamond) as [[[err|wf] h']|] eqn:E; [vm_compute in E; discriminate| |vm_compute in E; discriminate].
  exists wf, h'. split; [reflexivity|].
  destruct (@nodes_wired demo_lib unit None (λ _, true) ∅ (orders_with order_fwd) diamond (Heap ∅ ∅) wf h' "m" (node "Message" ["a"; "b"] []))
    as (Hd & Hp & _); [exact E|reflexivity| |discriminate|split; [exact Hd|exact Hp]].
  right. split; [vm_compute; eauto|]. intros (id & m & (comp & Hc & Hm) & _).
  assert (Hall : map_Forall (λ _ comp, @is_macro demo_lib comp = false) (Components diamond)) by (apply (bool_decide_unpack _); vm_compute; exact I).
  rewrite (Hall id comp Hc) in Hm. discriminate.
Defined.

(** A loop in a loop: the inner loop [c] follows the node [b] of the outer body. *)
Definition nested : Canvas := canvas_of
  [("begin", node "Begin" [] ["l"]); ("l", node "Loop" ["begin"] ["b"; "m"]); ("b", node "LLM" ["l"] ["c"]);
   ("c", node "Loop" ["b"] ["d"]); ("d", node "LLM" ["c"] []); ("m", node "Message" ["l"] [])]
  [("b", "l"); ("c", "l"); ("d", "c")].

Lemma body_upstream_refused_witness :
  "b" ∈ Upstream (node "Loop" ["b"] ["d"]) ∧ ¬ ∃ wf h', demo_build order_fwd nested = Ret (inr wf, h').
Proof.
  split; [apply elem_of_cons; left; reflexivity|]. intros (wf & h' & E). revert E.
  apply (@body_upstream_refused demo_lib unit None (λ _, true) ∅ (orders_with order_fwd) nested (Heap ∅ ∅) "c" (node "Loop" ["b"] ["d"]) "b" wf h').
  - reflexivity.
  - left. exists (node "Loop" ["b"] ["d"]). split; reflexivity.
  - discriminate.
  - apply elem_of_cons. left. reflexivity.
  - exists "l", {["b"; "c"]}. split; [exists (node "Loop" ["begin"] ["b"; "m"]); split; reflexivity|]. split; [vm_compute; reflexivity|].
    apply elem_of_union. left. apply elem_of_singleton. reflexivity.
  - intros (comp & Hc & Hm). vm_compute in Hc. injection Hc as <-. vm_compute in Hm. discriminate.
Defined.

(** When the inner loop is the first node of the body the canvas builds, with the
    inner loop beside the outer one: as a node of the outer graph that runs after
    the outer loop, and inside the body as a component that does nothing. *)
Definition nested_first : Canvas := canvas_of
  [("begin", node "Begin" [] ["l"]); ("l", node "Loop" ["begin"] ["c"]); ("c", node "Loop" ["l"] ["d"]); ("d", node "LLM" ["c"] [])]
  [("c", "l"); ("d", "c")].
Example inner_loop_outside :
  match demo_build order_fwd nested_first with
  | Ret (inr wf, _) =>
      data_inputs "c" wf = [Some "l"]
      ∧ existsb (λ call, match call with AddLoopNode "c" _ _ _ => true | _ => false end) wf = true
      ∧ existsb (λ call, match call with
                         | AddLoopNode "l" sub _ _ => existsb (λ call, match call with AddLambdaNode "c" PlaceholderBody => true | _ => false end) sub
                         | _ => false end) wf = true
  | _ => False
  end.
Proof. vm_compute. done. Qed.

(** With several terminals, which of them the end gets its data from depends on the
    order in which the map of components is read. *)
Definition two_ends : Canvas := canvas_of
  [("begin", node "Begin" [] ["x"; "y"]); ("x", node "Message" ["begin"] []); ("y", node "Message" ["begin"] [])] [].
Example terminal_by_order :
  match demo_build order_fwd two_ends, demo_build order_bwd two_ends with
  | Ret (inr wf, _), Ret (inr wf', _) => data_inputs terminalMergeNodeID wf ≠ data_inputs terminalMergeNodeID wf'
  | _, _ => False
  end.
Proof. vm_compute. discriminate. Qed.

Definition plain_loop : Canvas :=
  canvas_of [("l", node "Loop" [] ["b"]); ("b", node "LLM" ["l"] ["d"]); ("d", node "LLM" ["b"; "l"] [])] [].
Lemma members_wired_witness :
  ∃ wf h', @buildSubWorkflow demo_lib unit None ∅ (b_sub (orders_with order_fwd) "l") plain_loop {["b"; "d"]} "l" ∅ (Heap ∅ ∅) = Ret (inr wf, h')
    ∧ data_inputs "d" wf = [Some "b"] ∧ dependencies "d" wf = [loopInitKey].
Proof.
  destruct (@buildSubWorkflow demo_lib unit None ∅ (b_sub (orders_with order_fwd) "l") plain_loop {["b"; "d"]} "l" ∅ (Heap ∅ ∅))
    as [[[err|wf] h']|] eqn:E; [vm_compute in E; discriminate| |vm_compute in E; discriminate].
  exists wf, h'. split; [reflexivity|].
  destruct (@members_wired demo_lib unit None (λ _, true) ∅ (b_sub (orders_with order_fwd) "l") plain_loop {["b"; "d"]} "l" ∅ (Heap ∅ ∅) wf h' "d")
    as (s & rest & Hs & Hd & Hp & _); [exact E|set_solver|discriminate|].
  vm_compute in Hs. injection Hs as <- <-. split; [exact Hd|exact Hp].
Defined.

(** ** Conditions on numbers *)

(** A number is compared with nil when the condition asks whether it is empty: with no
    value in the condition every number is empty. *)
Lemma number_is_empty n : evalNumberOp n "empty" ANil = inr true ∧ evalNumberOp n "not empty" ANil = inr false.
Proof. done. Qed.
