(* ===== verification/NodeProps.v ===== *)
(** * Properties of the state around a node, and of a stored conversation *)

From S2P Require Import Prelude GoValue TitleLevels StateMap AgentValue CanvasState AgentLemmas.
From S2P Require Import AgentLemmas CanvasTemplate NodeSwitch NodeAssign CanvasDSL LoopCondition.
From S2P Require Import CanvasBuild CanvasNodes CanvasProps AssignProps DataProps.

Open Scope go_scope.

(** ** Writing an output *)

Section outputs.
Context `{GoLib} `{MapOrder}.

Lemma mfold_cons {A B} (f : B → A → mem B) x l b h r :
  mfold f (x :: l) b h = Ret r → ∃ b1 h1, f b x h = Ret (b1, h1) ∧ mfold f l b1 h1 = Ret r.
Proof. cbn [mfold]. by intros (b1 & h1 & E1 & E2)%mbind_Ret; exists b1, h1. Qed.

(** No map has another value under [k] than before or [v], and nothing else changed. *)
Definition only_key (h h' : heap) (k : string) (v : any) : Prop :=
  ∀ l k', map_at h' (Some l) !! k' = map_at h (Some l) !! k' ∨ (k' = k ∧ map_at h' (Some l) !! k' = Some v).

Lemma put_only_key h l k v h' : put_key (Some l) k v h = Ret ((), h') → only_key h h' k v ∧ map_at h' (Some l) !! k = Some v.
Proof.
  intros [= <-]. split; [|by rewrite map_at_set, lookup_insert_eq]. intros l' k'. destruct (decide (l' = l)) as [->|Hl].
  - rewrite map_at_set. destruct (decide (k' = k)) as [->|Hk]; [right; by rewrite lookup_insert_eq|left; by rewrite lookup_insert_ne].
  - left. by rewrite map_at_set_ne.
Qed.

Lemma set_simple h s cpnID k v s' h' : contains_byte dot k = false → SetVar s cpnID k v h = Ret (s', h') →
  (∀ id b, Outputs s !! id = Some b → Outputs s' !! id = Some b)
  ∧ only_key h h' k v ∧ ∃ l, Outputs s' !! cpnID = Some (Some l) ∧ map_at h' (Some l) !! k = Some v.
Proof.
  intros Hk E. unfold SetVar in E. apply mbind_Ret in E as (outputs & h1 & E & [= <- <-]).
  unfold setVarLocked in E. rewrite (split_on_free _ _ Hk) in E. cbn [set_parts] in E.
  apply mbind_Ret in E as ([bucket outs] & h2 & Eb & E). apply mbind_Ret in E as ([] & h3 & Ep & [= <- <-]).
  destruct bucket as [l|]; [|done]. destruct (put_only_key _ _ _ _ _ Ep) as [Hok Hv]. cbn [Outputs with_Outputs].
  destruct (Outputs s !! cpnID) as [b|] eqn:Eo.
  - injection Eb as -> <- <-. split_and!; [done|done|by exists l].
  - apply mbind_Ret in Eb as (l' & h4 & [= <- <-] & [= <- <- <-]). split_and!.
    + intros id b Hb. rewrite lookup_insert_ne; [done|congruence].
    + intros l0 k'. destruct (Hok l0 k') as [Heq|Heq]; [left|by right]. rewrite Heq. destruct (decide (l0 = fresh_map h)) as [->|Hne].
      * by rewrite map_at_set, map_at_fresh.
      * by rewrite map_at_set_ne.
    + exists (fresh_map h). by rewrite lookup_insert_eq.
Qed.

(** The bucket of a component has these entries. *)
Definition bucket_has (h : heap) (s : CanvasState) (cpnID : string) (entries : list (string * any)) : Prop :=
  ∃ l, Outputs s !! cpnID = Some (Some l) ∧ ∀ k w, (k, w) ∈ entries → map_at h (Some l) !! k = Some w.
(** A map under construction: no entries, or a bucket that has them. *)
Definition bucket_so_far (h : heap) (s : CanvasState) (cpnID : string) (entries : list (string * any)) : Prop :=
  entries = [] ∨ bucket_has h s cpnID entries.

Lemma bucket_kept h h' s s' cpnID entries k v : (∀ w, (k, w) ∈ entries → w = v) → only_key h h' k v →
  (∀ id b, Outputs s !! id = Some b → Outputs s' !! id = Some b) →
  bucket_has h s cpnID entries → bucket_has h' s' cpnID entries.
Proof.
  intros Huniq Hok Hout (l & Hl & Hm). exists l. split; [by apply Hout|]. intros k' w Hin.
  destruct (Hok l k') as [->|[-> Hv]]; [by apply Hm|]. by rewrite (Huniq w Hin).
Qed.
Lemma bucket_kept_so_far h h' s s' cpnID entries k v : (∀ w, (k, w) ∈ entries → w = v) → only_key h h' k v →
  (∀ id b, Outputs s !! id = Some b → Outputs s' !! id = Some b) →
  bucket_so_far h s cpnID entries → bucket_so_far h' s' cpnID entries.
Proof. intros Hu Hok Hout [->|Hb]; [by left|right; by eapply bucket_kept]. Qed.
Lemma bucket_set h s s' cpnID entries k v h' : contains_byte dot k = false → (∀ w, (k, w) ∈ entries → w = v) →
  SetVar s cpnID k v h = Ret (s', h') → bucket_so_far h s cpnID entries → bucket_has h' s' cpnID (entries ++ [(k, v)]).
Proof.
  intros Hk Hu E Hb. destruct (set_simple _ _ _ _ _ _ _ Hk E) as (Hout & Hok & l & Hl & Hv). exists l. split; [done|].
  intros k' w [Hin|[= -> ->]%list_elem_of_singleton]%elem_of_app; [|done].
  destruct Hb as [->|Hb]; [by apply elem_of_nil in Hin|].
  destruct (bucket_kept _ _ _ _ _ _ _ _ Hu Hok Hout Hb) as (l' & Hl' & Hm). rewrite Hl in Hl'. injection Hl' as <-. by apply Hm.
Qed.

(** The states a record of outputs has reached. *)
Definition contexts_have (P : CanvasState → Prop) (acc : CanvasState * context) : Prop :=
  P acc.1 ∧ match acc.2 with OtherContext x => P x | _ => True end.

Lemma record_step cpnID entries acc k v h acc' h' : contains_byte dot k = false → (∀ w, (k, w) ∈ entries → w = v) →
  record_output cpnID acc (k, v) h = Ret (acc', h') →
  contexts_have (λ s, bucket_so_far h s cpnID entries) acc → contexts_have (λ s, bucket_has h' s cpnID (entries ++ [(k, v)])) acc'.
Proof.
  intros Hk Hu E. destruct acc as [s ctx]. unfold record_output in E. cbn [fst snd] in E.
  assert (Hu' : ∀ w, (k, w) ∈ entries ++ [(k, v)] → w = v).
  { intros w [Hin|[= ->]%list_elem_of_singleton]%elem_of_app; [by apply Hu|done]. }
  apply mbind_Ret in E as (s1 & h1 & E1 & E). intros [Hs Hx]. pose proof (bucket_set _ _ _ _ _ _ _ _ Hk Hu E1 Hs) as Hb1.
  destruct (set_simple _ _ _ _ _ _ _ Hk E1) as (Hout1 & Hok1 & _). destruct ctx as [| |x].
  - injection E as <- <-. done.
  - apply mbind_Ret in E as (s2 & h2 & E2 & [= <- <-]). destruct (set_simple _ _ _ _ _ _ _ Hk E2) as (Hout2 & Hok2 & _).
    split; [|done]. by eapply bucket_kept.
  - apply mbind_Ret in E as (x' & h2 & E2 & [= <- <-]). destruct (set_simple _ _ _ _ _ _ _ Hk E2) as (Hout2 & Hok2 & _).
    split; cbn [fst snd]; [by eapply (bucket_kept h1 h2 s1 s1)|]. eapply bucket_set; [done|done|done|].
    by eapply (bucket_kept_so_far h h1 x x).
Qed.

Lemma record_all cpnID (todo : list (string * any)) : ∀ entries acc h acc' h',
  (∀ k v w, (k, v) ∈ entries ++ todo → (k, w) ∈ entries ++ todo → v = w) → (∀ k v, (k, v) ∈ todo → contains_byte dot k = false) →
  mfold (record_output cpnID) todo acc h = Ret (acc', h') →
  contexts_have (λ s, bucket_so_far h s cpnID entries) acc → contexts_have (λ s, bucket_so_far h' s cpnID (entries ++ todo)) acc'.
Proof.
  induction todo as [|[k v] todo IH]; intros entries acc h acc' h' Hfun Hk E Hacc.
  { injection E as <- <-. by rewrite app_nil_r. }
  apply mfold_cons in E as (acc1 & h1 & E1 & E2). rewrite (cons_middle (k, v)), app_assoc in Hfun |- *.
  eapply IH; [done|set_solver|exact E2|]. eapply record_step in E1; [|set_solver| |exact Hacc].
  - destruct E1 as [? ?]. split; [by right|]. destruct (acc1.2); [done|done|by right].
  - intros w Hin. apply (Hfun k); set_solver.
Qed.
End outputs.

(** ** The handlers *)

Section handlers.
Context `{GoLib} `{MapOrder}.

#[export] Instance grows_clone fuel v : Grows (cloneJSONReflect fuel v).
Proof.
  revert v. induction fuel as [|fuel IH]; intros v; destruct v; cbn [cloneJSONReflect]; solve_grows.
Qed.
#[export] Instance grows_clones items : Grows (cloneMapSlice items).
Proof. unfold cloneMapSlice, cloneJSONValue. solve_grows. Qed.
#[export] Instance grows_namespaces s : Grows (SnapshotNamespaces s).
Proof. unfold SnapshotNamespaces, copy_map. solve_grows. Qed.
#[export] Instance grows_set_history s l : Grows (SetHistory s l).
Proof. unfold SetHistory. solve_grows. Qed.
#[export] Instance grows_set_memory s l : Grows (SetMemory s l).
Proof. unfold SetMemory. solve_grows. Qed.
#[export] Instance grows_adopt s x : Grows (adopt_context s x).
Proof. unfold adopt_context, SnapshotHistory, SnapshotMemory. solve_grows. Qed.

Lemma adopt_outputs s x h s' h' : adopt_context s x h = Ret (s', h') → Outputs s' = Outputs s.
Proof.
  intros ([[a b] c] & h1 & _ & E)%mbind_Ret. apply mbind_Ret in E as (l & h2 & _ & E). apply mbind_Ret in E as (s1 & h3 & E1 & E).
  apply mbind_Ret in E1 as (l1 & h4 & _ & [= <- <-]). apply mbind_Ret in E as (l2 & h5 & _ & E). by apply mbind_Ret in E as (l3 & h6 & _ & [= <- <-]).
Qed.
Lemma bucket_extends h h' s s' cpnID entries : extends h h' → Outputs s' = Outputs s → bucket_has h s cpnID entries → bucket_has h' s' cpnID entries.
Proof.
  intros [Hm _] Ho (l & Hl & Hall). exists l. rewrite Ho. split; [done|]. intros k w Hin. pose proof (Hall k w Hin) as Hk.
  destruct (h_maps h !! l) as [m|] eqn:E; [|unfold map_at in Hk; rewrite E in Hk; cbn [default from_option] in Hk; by apply lookup_empty_Some in Hk].
  rewrite (map_at_Some _ _ _ E) in Hk. by rewrite (map_at_Some _ _ _ (lookup_weaken _ _ _ _ E Hm)).
Qed.

Lemma bucket_read h s cpnID entries k v : component_id cpnID → contains_byte dot k = false → k ≠ "" →
  bucket_has h s cpnID entries → (k, v) ∈ entries → GetVar s (cpnID +:+ "@" +:+ k) h = Ret (inr v, h).
Proof.
  intros Hc Hk Hne (l & Hl & Hall) Hin. change (cpnID +:+ "@" +:+ k) with (cpnID +:+ String at_byte k).
  rewrite (getVar_component _ _ _ _ (Some l)) by done. unfold dotTraverse. rewrite decide_False by done.
  rewrite (split_on_free _ _ Hk). cbn [mfold]. rewrite (mbind_step _ _ _ v h); [done|].
  rewrite (mbind_step _ _ _ v h); [done|]. rewrite step_map. unfold get_key. by rewrite (Hall k v Hin).
Qed.

(** C13: when a node none of whose output keys has a dot has finished, each of its outputs
    can be read under the identifier of the node, in the state of the graph and in
    the state of the context, whatever maps the two states share and in whatever
    order the outputs are written. The empty key and the reserved keys are not
    outputs. A key with a dot is a path; see [dotted_outputs_race]. *)
Theorem outputs_visible ctx out s cpnID h s' ctx' h' :
  param out "__cpn_id__" = AStr cpnID → component_id cpnID → cpnID ≠ "" →
  (∀ k, k ∈ dom out → contains_byte dot k = false) →
  statePost ctx out s h = Ret ((s', ctx'), h') →
  ∀ k v, out !! k = Some v → k ∉ reserved_keys → k ≠ "" →
    GetVar s' (cpnID +:+ "@" +:+ k) h' = Ret (inr v, h')
    ∧ match ctx' with OtherContext x => GetVar x (cpnID +:+ "@" +:+ k) h' = Ret (inr v, h') | _ => True end.
Proof.
  intros Hid Hc Hne Hdot E k v Hk Hr Hk0. unfold statePost in E. rewrite Hid in E. cbn [str_of AgentValue.as_string default] in E.
  change (default "" (Some cpnID)) with cpnID in E. rewrite decide_False in E by done.
  apply mbind_Ret in E as ([s1 ctx1] & h1 & E1 & E). set (todo := filter _ _) in E1.
  assert (Hin : (k, v) ∈ todo) by (apply list_elem_of_filter; split; [done|by apply elem_of_range]).
  assert (Hsub : ∀ j w, (j, w) ∈ todo → out !! j = Some w) by (intros j w [_ Hj]%list_elem_of_filter; by apply elem_of_range).
  apply (record_all cpnID todo []) in E1 as [Hs Hx]; [| | |split; [by left|destruct ctx; [done|done|by left]]].
  2: { intros j a b Ha%Hsub Hb%Hsub. congruence. }
  2: { intros j w Hj%Hsub. apply Hdot, elem_of_dom. eauto. }
  cbn [app fst snd] in Hs, Hx. destruct Hs as [Hs|Hs]; [rewrite Hs in Hin; by apply elem_of_nil in Hin|].
  assert (Hdotk : contains_byte dot k = false) by (apply Hdot, elem_of_dom; eauto).
  destruct ctx1 as [| |x].
  - injection E as <- <- <-. split; [by eapply bucket_read|done].
  - injection E as <- <- <-. split; [by eapply bucket_read|done].
  - apply mbind_Ret in E as (s2 & h2 & Ea & [= <- <- <-]). pose proof (grows_adopt _ _ _ _ _ Ea) as Hext.
    apply adopt_outputs in Ea. destruct Hx as [Hx|Hx]; [rewrite Hx in Hin; by apply elem_of_nil in Hin|].
    split; eapply bucket_read; eauto using bucket_extends.
Qed.
End handlers.

(** A node of the graph with a state of its own in the context. *)
Lemma outputs_visible_witness :
  let out := {["__cpn_id__" := AStr "llm"; "content" := AStr "hi"]} in
  let fresh_state := with_Outputs demo_state ∅ in
  ∃ s' x' h', @statePost demo_lib order_fwd (OtherContext fresh_state) out demo_state demo_heap = Ret ((s', OtherContext x'), h')
    ∧ @GetVar demo_lib s' "llm@content" h' = Ret (inr (AStr "hi"), h')
    ∧ @GetVar demo_lib x' "llm@content" h' = Ret (inr (AStr "hi"), h').
Proof.
  intros out fresh_state.
  destruct (@statePost demo_lib order_fwd (OtherContext fresh_state) out demo_state demo_heap) as [[[s' ctx'] h']|] eqn:E;
    [|vm_compute in E; discriminate].
  destruct ctx' as [| |x']; [vm_compute in E; discriminate|vm_compute in E; discriminate|].
  exists s', x', h'. split; [reflexivity|].
  apply (@outputs_visible demo_lib order_fwd (OtherContext fresh_state) out demo_state "llm" demo_heap s' (OtherContext x') h');
    [reflexivity|exact demo_component|discriminate| |exact E|reflexivity| |discriminate].
  - intros k Hk. assert (Hall : set_Forall (λ k, contains_byte dot k = false) (dom out)) by (apply (bool_decide_unpack _); vm_compute; exact I).
    exact (Hall k Hk).
  - apply (bool_decide_unpack _). vm_compute. exact I.
Defined.

(** With the outputs "a" and "a.b" the order of the map decides whether "a.b" is there. *)
Example dotted_outputs_race :
  let out := {["__cpn_id__" := AStr "llm"; "a" := AStr "x"; "a.b" := AStr "y"]} in
  let read (ord : MapOrder) :=
    match @statePost demo_lib ord NoContext out (with_Outputs demo_state ∅) demo_heap with
    | Ret ((s', _), h') => match @GetVar demo_lib s' "llm@a.b" h' with Ret (inr v, _) => Some v | _ => None end
    | Panic => None
    end in
  (read order_fwd, read order_bwd) = (Some (AStr "y"), Some ANil) ∨ (read order_fwd, read order_bwd) = (Some ANil, Some (AStr "y")).
Proof. vm_compute. first [by left | by right]. Qed.

(** ** Writes between the handlers *)

Section lost.
Context `{GoLib} `{MapOrder}.

Lemma put_entries l (entries : list (string * any)) : ∀ h h', NoDup entries.*1 →
  mfold (λ _ kv, put_key (Some l) kv.1 kv.2) entries () h = Ret ((), h') →
  (∀ k v, (k, v) ∈ entries → map_at h' (Some l) !! k = Some v)
  ∧ (∀ k, k ∉ entries.*1 → map_at h' (Some l) !! k = map_at h (Some l) !! k)
  ∧ ∀ l', l' ≠ l → map_at h' (Some l') = map_at h (Some l').
Proof.
  induction entries as [|[k v] entries IH]; intros h h' Hnd E; [by injection E as <-; set_solver|].
  apply mfold_cons in E as ([] & h1 & [= <-] & E). rewrite fmap_cons in Hnd. apply NoDup_cons in Hnd as [Hk Hnd].
  destruct (IH _ _ Hnd E) as (H1 & H2 & H3). split_and!.
  - intros k' v' [[= -> ->]|Hin]%elem_of_cons; [|by apply H1]. rewrite H2 by done. by rewrite map_at_set, lookup_insert_eq.
  - intros k' Hk'. rewrite fmap_cons, not_elem_of_cons in Hk'. rewrite H2 by naive_solver. rewrite map_at_set. by rewrite lookup_insert_ne by naive_solver.
  - intros l' Hl'. rewrite H3 by done. by rewrite map_at_set_ne.
Qed.
(** Of a nil map only when there is nothing to write. *)
Lemma put_all_spec m entries h h' : put_all m entries h = Ret ((), h') →
  (∀ k v, entries !! k = Some v → map_at h' m !! k = Some v) ∧ ∀ l', m ≠ Some l' → map_at h' (Some l') = map_at h (Some l').
Proof.
  unfold put_all. intros E. destruct m as [l|].
  - destruct (put_entries l _ _ _ (range_NoDup entries) E) as (H1 & _ & H3). split; [|intros l' Hl'; apply H3; congruence].
    intros k v Hk. apply H1. by apply elem_of_range.
  - destruct (range entries) as [|kv l] eqn:Er.
    + injection E as <-. apply range_nil_inv in Er as ->. split; [|done]. intros k v Hk. by rewrite lookup_empty in Hk.
    + by apply mfold_cons in E as ([] & h1 & E1 & _).
Qed.
Lemma copy_map_spec m h r h' : copy_map m h = Ret (r, h') →
  r = Some (fresh_map h) ∧ h' = set_map (fresh_map h) (map_at h m) h.
Proof. intros E. apply mbind_Ret in E as (h0 & h1 & [= <- <-] & E). by apply mbind_Ret in E as (l & h2 & [= <- <-] & [= <- <-]). Qed.
Lemma namespaces_copied s h sys env globals h' ls m : SnapshotNamespaces s h = Ret ((sys, env, globals), h') →
  Env s = Some ls → h_maps h !! ls = Some m → map_at h' env = m.
Proof.
  intros E Hs Hm. unfold SnapshotNamespaces in E.
  apply mbind_Ret in E as (a & h1 & [-> ->]%copy_map_spec & E). apply mbind_Ret in E as (b & h2 & [-> ->]%copy_map_spec & E).
  apply mbind_Ret in E as (c & h3 & [-> ->]%copy_map_spec & E). injection E as <- <- <- <-. rewrite Hs.
  set (ha := set_map (fresh_map h) _ h). set (hb := set_map (fresh_map ha) _ ha).
  assert (Ha : map_at ha (Some ls) = m) by (apply map_at_Some; eapply lookup_weaken; [exact Hm|apply extends_new_map]).
  apply map_at_Some. eapply (lookup_weaken (h_maps hb)); [|apply extends_new_map]. unfold hb. by rewrite maps_set, Ha.
Qed.

(** A write to a variable of the env namespace by a component is lost when another
    node starts before the component's node has finished: the handler before the
    other node copies the values of the graph's state, taken before the write, over
    those of the context. *)
Theorem env_write_lost s x k v old ls le m h h1 x1 h2 :
  Env s = Some ls → Env x = Some le → ls ≠ le → Globals x ≠ Some le →
  h_maps h !! ls = Some m → m !! k = Some old → contains_byte dot k = false → k ≠ "" →
  writeVar x ("env." +:+ k) v h = Ret (Some x1, h1) →
  GetVar x1 ("env." +:+ k) h1 = Ret (inr v, h1)
  ∧ (sync_namespaces s x1 h1 = Ret ((), h2) → GetVar x1 ("env." +:+ k) h2 = Ret (inr old, h2)).
Proof.
  intros Hs Hx Hne Hg Hm Hk Hdot Hk0 Ew.
  assert (Hread : ∀ h', GetVar x ("env." +:+ k) h' = Ret (inr (get_key h' (Some le) k), h')).
  { intros h'. rewrite (proj2 (getVar_namespace x k h')), Hx. unfold dotTraverse. rewrite decide_False by done.
    rewrite (split_on_free _ _ Hdot). cbn [mfold].
    rewrite (mbind_step _ _ _ (get_key h' (Some le) k) h'); [done|]. by rewrite (mbind_step _ _ _ (get_key h' (Some le) k) h'). }
  unfold writeVar in Ew. rewrite !decide_False in Ew by done.
  replace (has_prefix ("env." +:+ k) "sys.") with false in Ew by done. rewrite has_prefix_app, drop_prefix_app, Hx in Ew.
  injection Ew as <- <-. split; [rewrite Hread; unfold get_key; by rewrite map_at_set, lookup_insert_eq|].
  set (h1 := set_map le _ h). intros E. unfold sync_namespaces in E.
  apply mbind_Ret in E as ([[sysNS envNS] globalsNS] & h3 & E1 & E). apply mbind_Ret in E as (h3' & h4 & [= <- <-] & E).
  assert (Henv : map_at h3 envNS = m) by (eapply namespaces_copied; [exact E1|exact Hs|unfold h1; by rewrite maps_set_ne]).
  apply mbind_Ret in E as ([] & h5 & E2 & E). apply mbind_Ret in E as ([] & h6 & E3 & E4).
  rewrite Hx in E3. destruct (put_all_spec _ _ _ _ E3) as [Hput _]. destruct (put_all_spec _ _ _ _ E4) as [_ Hkeep].
  rewrite Hread. unfold get_key. rewrite (Hkeep le Hg), (Hput k old); [done|]. by rewrite Henv.
Qed.
End lost.

Lemma env_write_lost_witness :
  let h := Heap {[1%positive := {["n" := AInt 0]}; 2%positive := {["n" := AInt 0]}; 3%positive := ∅]} ∅ in
  let s := with_namespaces demo_state None (Some 1%positive) None in
  let x := with_namespaces demo_state None (Some 2%positive) (Some 3%positive) in
  ∃ h1 h2, @writeVar x "env.n" (AInt 1) h = Ret (Some x, h1) ∧ @sync_namespaces order_fwd s x h1 = Ret ((), h2)
    ∧ @GetVar demo_lib x "env.n" h2 = Ret (inr (AInt 0), h2).
Proof.
  intros h s x. set (h1 := set_map 2%positive {["n" := AInt 1]} h).
  assert (Ew : writeVar x "env.n" (AInt 1) h = Ret (Some x, h1)) by (vm_compute; reflexivity).
  destruct (@sync_namespaces order_fwd s x h1) as [[[] h2]|] eqn:E; [|vm_compute in E; discriminate].
  exists h1, h2. split; [exact Ew|]. split; [exact E|].
  apply (@env_write_lost demo_lib order_fwd s x "n" (AInt 1) (AInt 0) 1%positive 2%positive {["n" := AInt 0]} h h1 x h2);
    [reflexivity|reflexivity|discriminate|discriminate|reflexivity|reflexivity|reflexivity|discriminate|exact Ew|exact E].
Defined.

(** A whole run of the interleaving: node [a] increments env.n in its body; node [b]
    starts before [a] has finished; afterwards both states have the old value. *)
Example interleaved_update :
  let h := Heap {[1%positive := {["n" := AInt 0]}; 2%positive := {["n" := AInt 0]}; 3%positive := ∅; 4%positive := ∅; 5%positive := ∅; 6%positive := ∅]} ∅ in
  let s := with_Outputs (with_namespaces demo_state (Some 5%positive) (Some 1%positive) (Some 4%positive)) ∅ in
  let x := with_Outputs (with_namespaces demo_state (Some 6%positive) (Some 2%positive) (Some 3%positive)) ∅ in
  match ('(_, _, s, ctx) ⇐ @statePre demo_lib order_fwd (OtherContext x) ∅ s;          (* a starts *)
         match ctx with
         | OtherContext x =>
             x ⇐ writeVar x "env.n" (AInt 1);                                          (* the body of a *)
             '(_, _, s, ctx) ⇐ @statePre demo_lib order_fwd (OtherContext (default s x)) ∅ s;   (* b starts *)
             '(s, ctx) ⇐ @statePost demo_lib order_fwd ctx {["__cpn_id__" := AStr "a"]} s;      (* a ends *)
             @GetVar demo_lib s "env.n"
         | _ => mpanic
         end) h with
  | Ret (r, _) => r = inr (AInt 0)
  | Panic => False
  end.
Proof. vm_compute. reflexivity. Qed.

(** ** A stored conversation *)

Section history.
Context `{GoLib} `{MapOrder}.

(** An entry of a conversation, and its form in the DSL. *)
Definition entry_of (h : heap) (e : option loc) (rp : string * any) : Prop :=
  ∃ l m, e = Some l ∧ h_maps h !! l = Some m ∧ m !! "role" = Some (AStr rp.1) ∧ m !! "payload" = Some rp.2.
Definition pair_of (h : heap) (v : any) (rp : string * any) : Prop :=
  ∃ s cells, v = AList (Some s) ∧ h_arrs h !! s_arr s = Some cells ∧ elems h (Some s) = [AStr rp.1; rp.2].

Lemma entry_extends h h' e rp : extends h h' → entry_of h e rp → entry_of h' e rp.
Proof. intros [Hm _] (l & m & -> & Hl & Hr & Hp). exists l, m. split_and!; try done. by eapply lookup_weaken. Qed.
Lemma pair_extends h h' v rp : extends h h' → pair_of h v rp → pair_of h' v rp.
Proof.
  intros [_ Ha] (s & cells & -> & Hs & He). exists s, cells. pose proof (lookup_weaken _ _ _ _ Hs Ha) as Hs'. split_and!; [done|done|].
  unfold elems, cells_at in *. rewrite Hs in He. by rewrite Hs'.
Qed.
Lemma pairs_extends h h' vs rps : extends h h' → Forall2 (pair_of h) vs rps → Forall2 (pair_of h') vs rps.
Proof. intros Hext Hf. eapply Forall2_impl; [exact Hf|]. intros v rp. by apply pair_extends. Qed.
Lemma new_slice_elems l h s h' : new_slice l h = Ret (s, h') →
  ∃ a cells, s = Some a ∧ h_arrs h' !! s_arr a = Some cells ∧ elems h' s = l ∧ extends h h'.
Proof.
  intros [= <- <-]. eexists _, _. split_and!; [done|apply lookup_insert_eq| |apply extends_new_arr].
  unfold elems, cells_at, set_arr. cbn [s_arr s_off s_len h_arrs]. rewrite lookup_insert_eq. cbn [default from_option drop].
  by rewrite Nat.sub_diag, app_nil_r, take_ge.
Qed.

Lemma encode_entries (hist : list (option loc)) rps : Forall (λ rp, rp.1 ≠ "") rps → ∀ out done h, Forall2 (entry_of h) hist rps →
  Forall2 (pair_of h) out done →
  ∃ out' h', mfold (λ out entry,
      h ⇐ mget;
      let role := str_of (get_key h entry "role") in
      if decide (role = "") then mret' out else
      let payload := default (get_key h entry "content") (map_at h entry !! "payload") in
      p ⇐ new_slice [AStr role; payload];
      mret' (out ++ [AList p])) hist out h = Ret (out', h') ∧ extends h h' ∧ Forall2 (pair_of h') out' (done ++ rps).
Proof.
  intros Hr. revert hist. induction Hr as [|rp rps Hrp _ IH]; intros hist out done h Hh Ho.
  { apply Forall2_nil_inv_r in Hh as ->. exists out, h. rewrite app_nil_r. by split_and!; [done|reflexivity|]. }
  apply Forall2_cons_inv_r in Hh as (e & hist' & He & Hh & ->). destruct He as (l & m & -> & Hl & Hrole & Hpay).
  destruct (new_slice [AStr rp.1; rp.2] h) as [[p h1]|] eqn:En; [|done].
  destruct (new_slice_elems _ _ _ _ En) as (a & cells & -> & Ha & Hel & Hext).
  destruct (IH hist' (out ++ [AList (Some a)]) (done ++ [rp]) h1) as (out' & h' & E & Hext' & Hf).
  - eapply Forall2_impl; [exact Hh|]. intros. by eapply entry_extends.
  - apply Forall2_app; [by eapply pairs_extends|]. repeat constructor. by exists a, cells.
  - exists out', h'. rewrite <- app_assoc in Hf. split_and!; [|by etrans|done]. cbn [mfold].
    rewrite (mbind_step _ _ _ (out ++ [AList (Some a)]) h1); [done|]. rewrite (mbind_step _ _ _ h h) by done.
    unfold get_key. rewrite (map_at_Some _ _ _ Hl), Hrole, Hpay. cbn [default from_option str_of AgentValue.as_string].
    change (default "" (Some rp.1)) with rp.1. rewrite decide_False by done. by rewrite (mbind_step _ _ _ _ _ En).
Qed.

(** What decoding makes of a pair. *)
Definition decoded_of (h : heap) (e : option loc) (rp : string * any) : Prop :=
  ∃ l content, e = Some l ∧ h_maps h !! l = Some (history_entry rp.1 content rp.2).
Lemma decodeds_extends h h' es rps : extends h h' → Forall2 (decoded_of h) es rps → Forall2 (decoded_of h') es rps.
Proof.
  intros [Hm _] Hf. eapply Forall2_impl; [exact Hf|]. intros e rp (l & c & -> & Hl). exists l, c. split; [done|]. by eapply lookup_weaken.
Qed.
Lemma decode_entries (items : list any) rps : Forall (λ rp, rp.1 ≠ "") rps → ∀ out done h, Forall2 (pair_of h) items rps →
  (∀ rp, rp ∈ rps → ∃ t, reads h rp.2 t) → Forall2 (decoded_of h) out done →
  ∃ out' h', mfold (λ history item,
        h ⇐ mget;
        match history_pair h item with
        | None => mret' history
        | Some (role, payload) =>
            if decide (role = "") then mret' history else
            content ⇐ decodedHistoryContent payload;
            l ⇐ new_map (history_entry role content payload);
            mret' (history ++ [Some l])
        end) items out h = Ret (out', h') ∧ extends h h' ∧ Forall2 (decoded_of h') out' (done ++ rps).
Proof.
  intros Hr. revert items. induction Hr as [|rp rps Hrp _ IH]; intros items out done h Hh Hreads Ho.
  { apply Forall2_nil_inv_r in Hh as ->. exists out, h. rewrite app_nil_r. by split_and!; [done|reflexivity|]. }
  apply Forall2_cons_inv_r in Hh as (v & items' & (s & cells & -> & _ & Hel) & Hh & ->).
  destruct (Hreads rp) as [t Ht]; [set_solver|]. destruct (historyContent_total _ _ _ Ht) as [content Hc].
  set (h1 := set_map (fresh_map h) (history_entry rp.1 content rp.2) h). assert (Hext : extends h h1) by apply extends_new_map.
  destruct (IH items' (out ++ [Some (fresh_map h)]) (done ++ [rp]) h1) as (out' & h' & E & Hext' & Hf).
  - by eapply pairs_extends.
  - intros rp' Hrp'. destruct (Hreads rp') as [t' Ht']; [set_solver|]. exists t'. by eapply reads_extends.
  - apply Forall2_app; [by eapply decodeds_extends|]. repeat constructor. exists (fresh_map h), content. split; [done|]. apply maps_set.
  - exists out', h'. rewrite <- app_assoc in Hf. split_and!; [|by etrans|done]. cbn [mfold].
    rewrite (mbind_step _ _ _ (out ++ [Some (fresh_map h)]) h1); [done|]. rewrite (mbind_step _ _ _ h h) by done.
    unfold history_pair. rewrite Hel. change (str_of (AStr rp.1)) with rp.1. rewrite decide_False by done.
    rewrite (mbind_step _ _ _ content h); [done|]. exact Hc.
Qed.

(** C27: a conversation that is stored in the DSL and loaded again has the same entries:
    one for each, in order, with the same role and the same payload. *)
Theorem history_roundtrip h hist rps :
  Forall2 (entry_of h) hist rps → Forall (λ rp, rp.1 ≠ "") rps → (∀ rp, rp ∈ rps → ∃ t, reads h rp.2 t) →
  ∃ s h1 hist' h2, EncodeHistory hist h = Ret (s, h1) ∧ decodeHistory (AList s) h1 = Ret (hist', h2)
    ∧ extends h h2 ∧ Forall2 (decoded_of h2) hist' rps.
Proof.
  intros Hh Hr Hreads. destruct (encode_entries hist rps Hr [] [] h Hh) as (out & h0 & E & Hext & Hp); [constructor|].
  destruct (new_slice out h0) as [[s h1]|] eqn:En; [|done]. destruct (new_slice_elems _ _ _ _ En) as (a & cells & -> & _ & Hel & Hext1).
  assert (Hext' : extends h h1) by (by etrans).
  destruct (decode_entries out rps Hr [] [] h1) as (hist' & h2 & E' & Hext2 & Hd); [exact (pairs_extends _ _ _ _ Hext1 Hp)| |constructor|].
  - intros rp Hrp. destruct (Hreads rp Hrp) as [t Ht]. exists t. by eapply reads_extends.
  - exists (Some a), h1, hist', h2. split_and!; [| |by etrans|done].
    + unfold EncodeHistory. by rewrite (mbind_step _ _ _ _ _ E).
    + unfold decodeHistory. rewrite (mbind_step _ _ _ h1 h1) by done. by rewrite Hel.
Qed.
End history.

Lemma history_roundtrip_witness :
  let h := Heap {[1%positive := {["role" := AStr "user"; "content" := AStr "hi"; "payload" := AStr "hi"]}]} ∅ in
  ∃ s h1 hist' h2, @EncodeHistory [Some 1%positive] h = Ret (s, h1) ∧ @decodeHistory demo_lib (AList s) h1 = Ret (hist', h2)
    ∧ Forall2 (decoded_of h2) hist' [("user", AStr "hi")].
Proof.
  intros h. destruct (@history_roundtrip demo_lib h [Some 1%positive] [("user", AStr "hi")]) as (s & h1 & hist' & h2 & E1 & E2 & _ & Hd).
  - repeat constructor. exists 1%positive, {["role" := AStr "user"; "content" := AStr "hi"; "payload" := AStr "hi"]}.
    split; [reflexivity|]. split; [reflexivity|]. split; reflexivity.
  - repeat constructor. discriminate.
  - intros rp Hrp. apply list_elem_of_singleton in Hrp as ->. exists (TLeaf (AStr "hi")). exists 1. reflexivity.
  - exists s, h1, hist', h2. split; [exact E1|]. split; [exact E2|exact Hd].
Defined.

(** ** References of a parallel node *)

(** A reference into a list can be read by the nodes of the body; in the outputs of a
    Parallel node it gives nil. *)
Example parallel_list_index :
  let h := Heap {[1%positive := {["xs" := AList (Some (Slice 1 0 1 1))]}]} {[1%positive := [AStr "a"]]} in
  @GetVar demo_lib demo_state "llm@xs.0" h = Ret (inr (AStr "a"), h)
  ∧ resolveParallelItemRef h {["llm" := AMap (Some 1%positive)]} "llm@xs.0" = ANil.
Proof. vm_compute. done. Qed.
