(* ===== verification/DSLProps.v ===== *)
(** * Properties of the DSL: copies, normal form, reset *)

From S2P Require Import Prelude GoValue TitleLevels StateMap AgentValue CanvasState AgentLemmas.
From S2P Require Import AgentLemmas CanvasTemplate CanvasDSL DSLNormalize CanvasProps.

Open Scope go_scope.

(** ** Total computations and their results *)

(** [wp c Q h]: run in [h], [c] does not panic and ends in a result and a heap with [Q]. *)
Definition wp {A} (c : mem A) (Q : A → heap → Prop) (h : heap) : Prop := ∃ a h', c h = Ret (a, h') ∧ Q a h'.

Lemma wp_ret {A} (a : A) (Q : A → heap → Prop) h : Q a h → wp (mret' a) Q h.
Proof. intros HQ. by exists a, h. Qed.
Lemma wp_get (Q : heap → heap → Prop) h : Q h h → wp mget Q h.
Proof. intros HQ. by exists h, h. Qed.
Lemma wp_bind {A B} (c : mem A) (k : A → mem B) Q h : wp c (λ a, wp (k a) Q) h → wp (mbind' c k) Q h.
Proof.
  intros (a & h1 & E1 & b & h2 & E2 & HQ). exists b, h2. split; [|done]. by rewrite (mbind_step _ _ _ _ _ E1).
Qed.
Lemma wp_bind_inv {A B} (c : mem A) (k : A → mem B) Q h : wp (mbind' c k) Q h → wp c (λ a, wp (k a) Q) h.
Proof. intros (b & h2 & (a & h1 & E1 & E2)%mbind_Ret & HQ). exists a, h1. split; [done|]. by exists b, h2. Qed.
Lemma wp_mono {A} (c : mem A) (Q Q' : A → heap → Prop) h : wp c Q h → (∀ a h', Q a h' → Q' a h') → wp c Q' h.
Proof. intros (a & h1 & E & HQ) HQQ. exists a, h1. auto. Qed.
Lemma wp_new_map m (Q : loc → heap → Prop) h : Q (fresh_map h) (set_map (fresh_map h) m h) → wp (new_map m) Q h.
Proof. intros HQ. by eexists _, _. Qed.
Lemma wp_put_key l k v (Q : unit → heap → Prop) h :
  Q () (set_map l (<[k := v]> (map_at h (Some l))) h) → wp (put_key (Some l) k v) Q h.
Proof. intros HQ. by eexists _, _. Qed.
Lemma wp_new_slice_cap n l (Q : option slice → heap → Prop) h :
  Q (Some (Slice (fresh_arr h) 0 (length l) n)) (set_arr (fresh_arr h) (l ++ replicate (n - length l) ANil) h) →
  wp (new_slice_cap n l) Q h.
Proof. intros HQ. by eexists _, _. Qed.

(** One step of a computation. *)
Ltac wp_step :=
  match goal with
  | |- wp (mbind' _ _) _ _ => apply wp_bind
  | |- wp (mret' _) _ _ => apply wp_ret
  | |- wp mget _ _ => apply wp_get
  | |- wp (new_map _) _ _ => apply wp_new_map
  | |- wp (put_key (Some _) _ _) _ _ => apply wp_put_key
  end; cbv beta.

(** Loops that only allocate. *)
Lemma wp_mmap {A B} (f : A → mem B) (Q : A → B → heap → Prop) l h0 :
  (∀ x y h h', extends h h' → Q x y h → Q x y h') →
  (∀ x h, x ∈ l → extends h0 h → wp (f x) (λ y h', extends h h' ∧ Q x y h') h) →
  ∀ h, extends h0 h → wp (mmap f l) (λ ys h', extends h h' ∧ Forall2 (λ x y, Q x y h') l ys) h.
Proof.
  intros HQ. induction l as [|x l IH]; intros Hf h Hh; cbn [mmap].
  - wp_step. by split; [|constructor].
  - wp_step. eapply wp_mono; [apply Hf; [by left|done]|]. intros y h1 [Hx Hy]. wp_step.
    eapply wp_mono; [apply IH; [intros; apply Hf; [by right|done]|by etrans]|]. intros ys h2 [Hx2 Hys]. wp_step.
    split; [by etrans|]. constructor; [by eapply HQ|done].
Qed.
Lemma Forall2_elem_r {A B} (R : A → B → Prop) l ys y : Forall2 R l ys → y ∈ ys → ∃ x, x ∈ l ∧ R x y.
Proof.
  intros HF [i Hi]%list_elem_of_lookup. destruct (Forall2_lookup_r _ _ _ _ _ HF Hi) as (x & Hx & HR).
  exists x. split; [by eapply list_elem_of_lookup_2|done].
Qed.
Lemma Forall2_elem_l {A B} (R : A → B → Prop) l ys x : Forall2 R l ys → x ∈ l → ∃ y, y ∈ ys ∧ R x y.
Proof.
  intros HF [i Hi]%list_elem_of_lookup. destruct (Forall2_lookup_l _ _ _ _ _ HF Hi) as (y & Hy & HR).
  exists y. split; [by eapply list_elem_of_lookup_2|done].
Qed.

Lemma Forall2_impl_elem {A B} (R S : A → B → Prop) l ys :
  Forall2 R l ys → (∀ x y, x ∈ l → R x y → S x y) → Forall2 S l ys.
Proof.
  induction 1 as [|x y l ys Hxy _ IH]; intros HS; constructor; [apply HS; [by left|done]|].
  apply IH. intros; apply HS; [by right|done].
Qed.

(** ** Objects that a computation made

    [owned n h v]: down to depth [n], every map of [v] was not there in [h0]. *)
Section owned.
Context `{GoLib} `{MapOrder}.
Variable h0 : heap.

Fixpoint owned (n : nat) (h : heap) (v : any) : Prop :=
  match n with
  | O => True
  | S n =>
      match v with
      | AMap (Some l) =>
          h_maps h0 !! l = None ∧ ∃ m, h_maps h !! l = Some m ∧ ∀ k w, m !! k = Some w → owned n h w
      | AList (Some s) =>
          is_Some (h_arrs h !! s_arr s) ∧ ∀ w, w ∈ elems h (Some s) → owned n h w
      | _ => True
      end
  end.
Definition own (h : heap) (v : any) : Prop := ∀ n, owned n h v.

Lemma elems_extends h h' s : extends h h' → is_Some (h_arrs h !! s_arr s) → elems h' (Some s) = elems h (Some s).
Proof. intros [_ Ha] [cells Hc]. unfold elems, cells_at. by rewrite Hc, (lookup_weaken _ _ _ _ Hc Ha). Qed.

Lemma own_extends h h' v : extends h h' → own h v → own h' v.
Proof.
  intros Hx Hv n. specialize (Hv n). revert v Hv.
  induction n as [|n IH]; intros v Hv; [done|]. destruct v as [| | | | | | | | |[s|]|[l|]| |]; try done; cbn [owned] in *.
  - destruct Hv as [Hs Hw]. split; [destruct Hs as [c Hc]; eexists; eapply lookup_weaken; [exact Hc|apply Hx]|].
    intros w Hin. apply IH, Hw. by rewrite <- (elems_extends h h').
  - destruct Hv as (Hl & m & Hm & Hw). split; [done|]. exists m. split; [by eapply lookup_weaken, Hx|]. eauto.
Qed.

Lemma own_put h l k w v :
  own h w → own h v → own (set_map l (<[k := w]> (map_at h (Some l))) h) v.
Proof.
  intros Hw0 Hv n. specialize (Hv n). revert v Hv.
  induction n as [|n IH]; intros v Hv; [done|]. destruct v as [| | | | | | | | |[s'|]|[l'|]| |]; try done; cbn [owned] in *.
  - destruct Hv as [Hs Hw]. split; [done|]. intros w' Hin. by apply IH, Hw.
  - destruct Hv as (Hl & m & Hm & Hw). split; [done|]. destruct (decide (l = l')) as [<-|Hne].
    + rewrite maps_set. eexists. split; [done|]. intros k' w' [[_ <-]|[_ Hk]]%lookup_insert_Some; [by apply IH, Hw0|].
      rewrite (map_at_Some _ _ _ Hm) in Hk. eauto.
    + rewrite maps_set_ne by done. exists m. eauto.
Qed.

Lemma own_key h l k : own h (AMap (Some l)) → own h (get_key h (Some l) k).
Proof.
  intros Hv n. destruct (Hv (S n)) as (_ & m & Hm & Hw). unfold get_key. rewrite (map_at_Some _ _ _ Hm).
  destruct (m !! k) as [w|] eqn:E; [by eapply Hw|by destruct n].
Qed.
Lemma own_elem h v w : own h v → w ∈ list_of h v → own h w.
Proof.
  intros Hv Hw n. destruct v as [| | | | | | | | |[s|]|[l|]| |]; try by apply not_elem_of_nil in Hw.
  destruct (Hv (S n)) as [_ He]. by apply He.
Qed.
Lemma own_leaf h v : (∀ m, v ≠ AMap m) → (∀ s, v ≠ AList s) → own h v.
Proof. intros Hm Hl [|n]; [done|]. destruct v as [| | | | | | | | |s|m| |]; try done; [by destruct (Hl s)|by destruct (Hm m)]. Qed.
Lemma own_not_old h l : own h (AMap (Some l)) → h_maps h0 !! l = None.
Proof. intros Hv. apply (Hv 1). Qed.

Lemma own_new_map h m :
  extends h0 h → (∀ k w, m !! k = Some w → own h w) → own (set_map (fresh_map h) m h) (AMap (Some (fresh_map h))).
Proof.
  intros Hx Hm [|n]; [done|]. simpl. split; [eapply lookup_weaken_None; [apply fresh_map_None|apply Hx]|].
  exists m. split; [apply maps_set|]. intros k w Hk.
  eapply own_extends; [apply extends_new_map|by eapply Hm].
Qed.
Lemma own_new_slice h n l :
  (∀ w, w ∈ l → own h w) →
  own (set_arr (fresh_arr h) (l ++ replicate (n - length l) ANil) h) (AList (Some (Slice (fresh_arr h) 0 (length l) n))).
Proof.
  intros Hl [|m]; [done|]. cbn [owned s_arr]. simpl. rewrite lookup_insert_eq. split; [eauto|]. intros w.
  unfold cells_at. simpl. rewrite lookup_insert_eq. simpl. rewrite drop_0, take_app_length. intros Hw.
  eapply own_extends; [apply extends_new_arr|by apply Hl].
Qed.

(** ** Copies own what they contain *)

Lemma new_slice_list h n l :
  list_of (set_arr (fresh_arr h) (l ++ replicate (n - length l) ANil) h) (AList (Some (Slice (fresh_arr h) 0 (length l) n))) = l.
Proof. simpl. unfold cells_at. simpl. rewrite lookup_insert_eq. simpl. by rewrite drop_0, take_app_length. Qed.

Lemma extends_not_old h l : extends h0 h → h_maps h !! l = None → h_maps h0 !! l = None.
Proof. intros Hx Hl. eapply lookup_weaken_None; [exact Hl|apply Hx]. Qed.

Lemma wp_clone_entries (cl : any → mem any) m h1 :
  extends h0 h1 →
  (∀ k v h, m !! k = Some v → extends h1 h → wp (cl v) (λ v' h', extends h h' ∧ own h' v') h) →
  ∀ h, extends h1 h → wp (clone_entries cl m) (λ v' h', extends h h' ∧ own h' v') h.
Proof.
  intros H01 Hcl h Hh. unfold clone_entries. wp_step.
  eapply wp_mono; [apply (wp_mmap _ (λ _ kv h, own h kv.2) _ h1)|].
  - intros x [k y] h2 h3 Hx. by apply own_extends.
  - intros [k v] h2 Hkv%elem_of_range Hh2. wp_step. eapply wp_mono; [by eapply Hcl|].
    intros v' h3 [Hx Hv]. by wp_step.
  - done.
  - intros kvs h2 [Hx Hkvs]. cbv beta. wp_step. wp_step. wp_step. split; [etrans; [done|apply extends_new_map]|].
    apply own_new_map; [do 2 (etrans; [eassumption|]); done|].
    intros k w Hk%elem_of_list_to_map_2. by destruct (Forall2_elem_r _ _ _ _ Hkvs Hk) as (? & _ & Hw).
Qed.
Lemma wp_clone_items (cl : any → mem any) l h1 :
  (∀ v h, v ∈ l → extends h1 h → wp (cl v) (λ v' h', extends h h' ∧ own h' v') h) →
  ∀ h, extends h1 h → wp (clone_items cl l) (λ v' h', extends h h' ∧ own h' v') h.
Proof.
  intros Hcl h Hh. unfold clone_items. wp_step.
  eapply wp_mono; [apply (wp_mmap _ (λ _ v h, own h v) _ h1); [intros; by eapply own_extends|auto|done]|].
  intros ws h2 [Hx Hws]. cbv beta. unfold new_slice. wp_step. apply wp_new_slice_cap. wp_step.
  split; [etrans; [done|apply extends_new_arr]|]. apply own_new_slice. intros w Hw.
  by destruct (Forall2_elem_r _ _ _ _ Hws Hw) as (? & _ & ?).
Qed.

Lemma deepCopyAny_own n : ∀ h v t, extends h0 h → readback n h v = Some t →
  wp (deepCopyAny n v) (λ v' h', extends h h' ∧ own h' v') h.
Proof.
  induction n as [|n IH]; intros h v t Hh Hv; [done|].
  destruct v as [| | | | | | | | |[s|]|[l|]| |]; cbn [deepCopyAny]; try (wp_step; split; [done|]; by intros [|]).
  - cbn [readback] in Hv. apply bind_Some in Hv as (cells & Hc & (ts & Hts & ->)%fmap_Some). apply mapM_Some_1 in Hts.
    do 2 wp_step. apply (wp_clone_items _ _ h); [|done]. intros v h1 Hv Hh1.
    apply list_elem_of_lookup in Hv as [i Hi]. destruct (Forall2_lookup_l _ _ _ _ _ Hts Hi) as (tv & _ & Htv).
    eapply (IH h1); [by etrans|]. by eapply readback_mono.
  - do 2 wp_step. by apply (wp_clone_items _ _ h); [intros v h1 ?%not_elem_of_nil|].
  - cbn [readback readback_map] in Hv. apply bind_Some in Hv as (m & Hl & Hm).
    do 2 wp_step. rewrite (map_at_Some _ _ _ Hl). apply (wp_clone_entries _ _ h); [done| |done].
    intros k v h1 Hk Hh1. destruct (readback_entries_all _ _ _ _ _ Hm Hk) as [tv Htv].
    eapply (IH h1); [by etrans|]. by eapply readback_mono.
  - do 2 wp_step. apply (wp_clone_entries _ _ h); [done|done|done].
Qed.
Lemma deep_copy_own h v t : extends h0 h → reads h v t → wp (deep_copy v) (λ v' h', extends h h' ∧ own h' v') h.
Proof.
  intros Hh [n Hn]. unfold deep_copy. do 2 wp_step. eapply deepCopyAny_own; [done|]. by eapply readback_bound.
Qed.
End owned.

(** [Inv] holds of the elements a loop has gone through. *)
Lemma wp_mfold {A B} (f : B → A → mem B) (Inv : list A → B → heap → Prop) l b h :
  (∀ p x q b h, l = p ++ x :: q → Inv p b h → wp (f b x) (Inv (p ++ [x])) h) → Inv [] b h → wp (mfold f l b) (Inv l) h.
Proof.
  intros Hf. assert (Hgen : ∀ q p b h, l = p ++ q → Inv p b h → wp (mfold f q b) (Inv l) h); [|by apply (Hgen l [])].
  induction q as [|x q IH]; intros p b1 h1 Hl Hb; cbn [mfold]; wp_step; [by rewrite Hl, app_nil_r|].
  eapply wp_mono; [by eapply Hf|]. intros b' h' Hb'. apply (IH (p ++ [x])); [|done]. by rewrite <- app_assoc.
Qed.

(** ** Repairs

    The writes of the repairs of a canvas: constants in place of texts, in maps
    that are not in [h0]. *)
Definition repairs : list (string * string) :=
  [("sourceHandle", "start"); ("targetHandle", "end"); ("component_name", componentNameIteration);
   ("name", componentNameIteration); ("type", "iterationNode"); ("label", componentNameIteration)].

(** Which of the keys and texts are written. *)
Ltac by_table := apply (bool_decide_unpack _); vm_compute; exact I.

Section repairs.
Context `{GoLib} `{MapOrder}.
Variable h0 : heap.

Inductive repair : relation heap :=
| Repair h l k s old : h_maps h0 !! l = None → (k, s) ∈ repairs → get_key h (Some l) k = AStr old → repair h (set_map l (<[k := AStr s]> (map_at h (Some l))) h).
Notation repaired := (rtc repair).

Lemma repair_key h h' m k : repair h h' →
  get_key h' m k = get_key h m k ∨ ∃ s, (k, s) ∈ repairs ∧ get_key h' m k = AStr s.
Proof.
  intros [? l k' s old Hl Hks _]. destruct m as [l'|]; [|by left]. unfold get_key.
  destruct (decide (l = l')) as [<-|Hne]; [|rewrite map_at_set_ne by done; by left]. rewrite map_at_set.
  destruct (decide (k' = k)) as [<-|Hk]; [rewrite lookup_insert_eq; eauto|rewrite lookup_insert_ne by done; by left].
Qed.
Lemma repair_other h h' m k : repair h h' → k ∉ repairs.*1 → get_key h' m k = get_key h m k.
Proof.
  intros Hr Hk. destruct (repair_key h h' m k Hr) as [E|(s & Hs & _)]; [done|].
  destruct Hk. by apply (list_elem_of_fmap_2 fst _ (k, s)).
Qed.
Lemma repair_map h h' m k x : repair h h' → get_key h' m k = AMap x → get_key h m k = AMap x.
Proof. intros Hr E. destruct (repair_key h h' m k Hr) as [<-|(s & _ & E')]; [done|congruence]. Qed.
Lemma map_repair h h' m k x : repair h h' → get_key h m k = AMap x → get_key h' m k = AMap x.
Proof.
  intros [? l k' s old Hl Hks Hold] E. destruct m as [l'|]; [|done]. rewrite <- E. unfold get_key.
  destruct (decide (l = l')) as [<-|Hne]; [|by rewrite map_at_set_ne]. rewrite map_at_set.
  rewrite lookup_insert_ne; [done|]. intros ->. congruence.
Qed.
Lemma repair_list h h' v : repair h h' → list_of h' v = list_of h v.
Proof. by intros []. Qed.

(** What is not written by a repair stays as it is. *)
Definition key_not (h : heap) (m : option loc) (k s : string) : Prop := get_key h m k ≠ AStr s.
Definition handles_ok (h : heap) (e : any) : Prop :=
  ∀ m, e = AMap (Some m) → key_not h (Some m) "sourceHandle" "end" ∧ key_not h (Some m) "targetHandle" "start".
Definition component_ok (h : heap) (v : any) : Prop :=
  ∀ m, v = AMap (Some m) → key_not h (Some m) "name" componentNameParallel
    ∧ ∀ obj, get_key h (Some m) "obj" = AMap obj → key_not h obj "component_name" componentNameParallel.
Definition node_ok (h : heap) (v : any) : Prop :=
  ∀ m, v = AMap (Some m) → key_not h (Some m) "type" "parallelNode"
    ∧ ∀ data, get_key h (Some m) "data" = AMap (Some data) →
        key_not h (Some data) "label" componentNameParallel ∧ key_not h (Some data) "name" componentNameParallel.

Lemma key_not_repair h h' m k s : (k, s) ∉ repairs → repair h h' → key_not h m k s → key_not h' m k s.
Proof. intros Hks Hr Hn E. destruct (repair_key h h' m k Hr) as [E'|(s' & Hs & E')]; [by apply Hn; rewrite <- E'|congruence]. Qed.

Lemma repaired_key_not h h' m k s : (k, s) ∉ repairs → repaired h h' → key_not h m k s → key_not h' m k s.
Proof. intros Hks. induction 1 as [|? ? ? Hr _ IH]; [done|]. intros Hn. by eapply IH, key_not_repair. Qed.
Lemma repaired_map h h' m k x : repaired h h' → get_key h' m k = AMap x → get_key h m k = AMap x.
Proof. induction 1 as [|? ? ? Hr _ IH]; [done|]. intros E%IH. by eapply repair_map. Qed.
Lemma map_repaired h h' m k x : repaired h h' → get_key h m k = AMap x → get_key h' m k = AMap x.
Proof. induction 1 as [|? ? ? Hr _ IH]; [done|]. intros E. by eapply IH, map_repair. Qed.
Lemma repaired_other h h' m k : repaired h h' → k ∉ repairs.*1 → get_key h' m k = get_key h m k.
Proof. induction 1 as [|? ? ? Hr _ IH]; [done|]. intros Hk. rewrite IH by done. by eapply repair_other. Qed.
Lemma repaired_list h h' v : repaired h h' → list_of h' v = list_of h v.
Proof. induction 1 as [|? ? ? Hr _ IH]; [done|]. rewrite IH. by eapply repair_list. Qed.

Lemma handles_ok_repair h h' e : repaired h h' → handles_ok h e → handles_ok h' e.
Proof. intros Hr He m Hm. destruct (He m Hm). split; (eapply repaired_key_not; [by_table|exact Hr|done]). Qed.
Lemma component_ok_repair h h' v : repaired h h' → component_ok h v → component_ok h' v.
Proof.
  intros Hr Hv m Hm. destruct (Hv m Hm) as [Hn Ho]. split; [by eapply repaired_key_not; [by_table|exact Hr|]|].
  intros obj Hobj%(repaired_map _ _ _ _ _ Hr). eapply repaired_key_not; [by_table|exact Hr|by apply Ho].
Qed.
Lemma node_ok_repair h h' v : repaired h h' → node_ok h v → node_ok h' v.
Proof.
  intros Hr Hv m Hm. destruct (Hv m Hm) as [Hn Ho]. split; [by eapply repaired_key_not; [by_table|exact Hr|]|].
  intros data Hd%(repaired_map _ _ _ _ _ Hr). destruct (Ho data Hd). split; (eapply repaired_key_not; [by_table|exact Hr|done]).
Qed.
Lemma maps_repair h h' l : repaired h h' → is_Some (h_maps h !! l) → is_Some (h_maps h' !! l).
Proof. induction 1 as [|h h1 h2 [] _ IH]; [done|]. intros Hl. by apply IH, maps_put_is_Some. Qed.
Lemma own_repair h h' v : repaired h h' → own h0 h v → own h0 h' v.
Proof. induction 1 as [|h h1 h2 [] _ IH]; [done|]. intros Hv. apply IH, own_put; [by intros [|]|done]. Qed.
Lemma base_repair h h' : repaired h h' → extends h0 h → extends h0 h'.
Proof.
  induction 1 as [|h h1 h2 [? l k s old Hl _ _] _ IH]; [done|]. intros [Hm Ha]. apply IH. split; [|done]. simpl.
  by apply insert_subseteq_r.
Qed.

(** A loop of repairs. *)
Lemma wp_repair_loop {A} (f : A → mem unit) (P : A → heap → Prop) l h1 :
  (∀ x h h', repaired h h' → P x h → P x h') →
  (∀ x h, x ∈ l → repaired h1 h → wp (f x) (λ _ h', repaired h h' ∧ P x h') h) →
  wp (for_each f l) (λ _ h', repaired h1 h' ∧ ∀ x, x ∈ l → P x h') h1.
Proof.
  intros HP. assert (Hgen : ∀ h, repaired h1 h →
    (∀ x h, x ∈ l → repaired h1 h → wp (f x) (λ _ h', repaired h h' ∧ P x h') h) →
    wp (for_each f l) (λ _ h', repaired h h' ∧ ∀ x, x ∈ l → P x h') h); [|intros Hf; by apply Hgen].
  induction l as [|x l IH]; intros h Hh Hf; unfold for_each; cbn [mfold].
  - wp_step. split; [done|]. by intros x ?%not_elem_of_nil.
  - wp_step. eapply wp_mono; [apply Hf; [by left|done]|]. intros [] h2 [Hr Hx].
    eapply wp_mono; [apply IH; [by etrans|intros; apply Hf; [by right|done]]|].
    intros [] h3 [Hr3 Hl]. split; [by etrans|]. intros y [->|Hy]%elem_of_cons; [by eapply HP|auto].
Qed.

Lemma wp_rename_key m k from to h :
  (k, to) ∈ repairs → from ≠ to → (∀ l, m = Some l → h_maps h0 !! l = None) →
  wp (rename_key m k from to) (λ _ h', repaired h h' ∧ key_not h' m k from) h.
Proof.
  intros Hk Hne Hm. unfold rename_key, key_not. do 2 wp_step. unfold is_str. case_bool_decide as E.
  - assert (Ho : get_key h m k = AStr from) by (destruct (get_key h m k); simplify_eq/=; done).
    destruct m as [l|]; [|done]. wp_step. split; [apply rtc_once; by eapply Repair; [apply Hm|..]|].
    unfold get_key. rewrite map_at_set, lookup_insert_eq. simpl. congruence.
  - wp_step. split; [done|]. intros E'. by rewrite E' in E.
Qed.
End repairs.

(** ** The copy of a DSL *)

Lemma own_base h0 h1 h v : extends h0 h1 → own h1 h v → own h0 h v.
Proof.
  intros Hx Hv n. specialize (Hv n). revert v Hv. induction n as [|n IH]; intros v Hv; [done|].
  destruct v as [| | | | | | | | |[s|]|[l|]| |]; try done; cbn [owned] in *.
  - destruct Hv. eauto.
  - destruct Hv as (Hl & m & Hm & Hw). split; [by eapply extends_not_old|]. eauto.
Qed.

Section copy.
Context `{GoLib} `{MapOrder}.

Lemma reads_entry h l m t k v : reads h (AMap (Some l)) t → h_maps h !! l = Some m → m !! k = Some v → ∃ tv, reads h v tv.
Proof.
  intros [[|n] Hn] Hm Hk; [done|]. cbn [readback readback_map] in Hn. rewrite Hm in Hn. simpl in Hn.
  destruct (readback_entries_all _ _ _ _ _ Hn Hk) as [tv Htv]. by exists tv, n.
Qed.
Lemma reads_here h l t : reads h (AMap (Some l)) t → ∃ m, h_maps h !! l = Some m.
Proof. intros [[|n] Hn]; [done|]. cbn [readback readback_map] in Hn. apply bind_Some in Hn as (m & Hm & _). eauto. Qed.
Lemma reads_elem h s t v : reads h (AList s) t → v ∈ elems h s → ∃ tv, reads h v tv.
Proof.
  destruct s as [s|]; [|by intros _ ?%not_elem_of_nil]. intros [[|n] Hn] Hv; [done|]. cbn [readback] in Hn.
  apply bind_Some in Hn as (c & _ & (ts & Hts & _)%fmap_Some). apply mapM_Some_1 in Hts.
  destruct (Forall2_elem_l _ _ _ _ Hts Hv) as (tv & _ & Htv). by exists tv, n.
Qed.

Lemma get_key_entry h l m k v : h_maps h !! l = Some m → get_key h (Some l) k = v → v ≠ ANil → m !! k = Some v.
Proof. intros Hm. unfold get_key. rewrite (map_at_Some _ _ _ Hm). intros Hk Hv. destruct (m !! k); simpl in Hk; congruence. Qed.
Lemma entry_get_key h l m k v : h_maps h !! l = Some m → m !! k = Some v → get_key h (Some l) k = v.
Proof. intros Hm Hk. unfold get_key. by rewrite (map_at_Some _ _ _ Hm), Hk. Qed.

(** The entries of [m'] are those of [m], related by [Q]. *)
Definition entries_by (Q : string → any → any → Prop) (m m' : gmap string any) : Prop :=
  (∀ k v', m' !! k = Some v' → ∃ v, m !! k = Some v ∧ Q k v v') ∧ (∀ k v, m !! k = Some v → ∃ v', m' !! k = Some v' ∧ Q k v v').

Lemma wp_copy_entries (f : string → any → mem any) (Q : string → any → any → heap → Prop) l m h :
  h_maps h !! l = Some m →
  (∀ k v v' h h', extends h h' → Q k v v' h → Q k v v' h') →
  (∀ k v h1, m !! k = Some v → extends h h1 → wp (f k v) (λ v' h', extends h1 h' ∧ Q k v v' h') h1) →
  wp (copy_entries f (Some l)) (λ r h', ∃ lr m', r = AMap (Some lr) ∧ h_maps h' !! lr = Some m' ∧ h_maps h !! lr = None
    ∧ extends h h' ∧ entries_by (λ k v v', Q k v v' h') m m') h.
Proof.
  intros Hl HQ Hf. unfold copy_entries. do 3 wp_step. rewrite (map_at_Some _ _ _ Hl).
  eapply wp_mono; [apply (wp_mmap _ (λ kv kv' h', kv'.1 = kv.1 ∧ Q kv.1 kv.2 kv'.2 h') _ h); [..|done]|].
  - intros x y h1 h2 Hx [? ?]. eauto.
  - intros [k v] h1 Hkv%elem_of_range Hh1. wp_step. eapply wp_mono; [by apply Hf|]. intros v' h2 [Hx Hv]. by wp_step.
  - intros kvs h1 [Hx HF]. cbv beta. do 3 wp_step. exists (fresh_map h1), (list_to_map kvs).
    split; [done|]. split; [apply maps_set|]. split; [eapply lookup_weaken_None; [apply fresh_map_None|apply Hx]|].
    split; [etrans; [done|apply extends_new_map]|].
    assert (Hnd : NoDup kvs.*1).
    { replace kvs.*1 with (range m).*1; [apply range_NoDup|]. clear -HF. induction HF as [|? ? ? ? [] ? IH]; [done|]. rewrite !fmap_cons. congruence. }
    split.
    + intros k v' Hk%elem_of_list_to_map_2. destruct (Forall2_elem_r _ _ _ _ HF Hk) as ([k' v] & Hin%elem_of_range & [E Hv]).
      simpl in *. subst k'. exists v. split; [done|]. eapply HQ; [apply extends_new_map|done].
    + intros k v Hk%elem_of_range. destruct (Forall2_elem_l _ _ _ _ HF Hk) as ([k' v'] & Hin & [E Hv]).
      simpl in *. subst k'. exists v'. split; [by apply elem_of_list_to_map_1|]. eapply HQ; [apply extends_new_map|done].
Qed.
Lemma wp_copy_nil (f : string → any → mem any) h :
  wp (copy_entries f None) (λ r h', extends h h' ∧ ∃ lr, r = AMap (Some lr) ∧ h_maps h' !! lr = Some ∅) h.
Proof.
  unfold copy_entries. do 3 wp_step. cbn [map_at]. rewrite range_empty. cbn [mmap]. do 4 wp_step.
  split; [apply extends_new_map|]. eexists. split; [done|]. apply maps_set.
Qed.

Variable h0 : heap.

(** Copies of the graph and of the components. *)
Definition graph_copied (v' : any) (h : heap) : Prop :=
  ∀ g, v' = AMap (Some g) → ∃ mg, h_maps h !! g = Some mg ∧
    ∀ k s, k = "nodes" ∨ k = "edges" → mg !! k = Some (AList s) → own h0 h (AList s).
Definition components_copied (v v' : any) (h : heap) : Prop :=
  ∀ c, v' = AMap (Some c) → ∃ mc, h_maps h !! c = Some mc
    ∧ (∀ k l, mc !! k = Some (AMap (Some l)) → own h0 h (AMap (Some l)))
    ∧ ∀ x k y, v = AMap x → get_key h0 x k = AMap y → ∃ l, mc !! k = Some (AMap (Some l)).

Lemma graph_copied_extends v h h' : extends h h' → graph_copied v h → graph_copied v h'.
Proof.
  intros Hx Hg g ->. destruct (Hg g eq_refl) as (mg & Hm & Hn). exists mg. split; [by eapply lookup_weaken, Hx|].
  intros k s Hk Hs. eapply own_extends; [done|eauto].
Qed.
Lemma components_copied_extends v v' h h' : extends h h' → components_copied v v' h → components_copied v v' h'.
Proof.
  intros Hx Hc c ->. destruct (Hc c eq_refl) as (mc & Hm & Hn & Hk). exists mc. split; [by eapply lookup_weaken, Hx|].
  split; [|done]. intros k l Hl. eapply own_extends; [done|eauto].
Qed.

Lemma wp_deepCopyGraph h x t : extends h0 h → reads h (AMap x) t →
  wp (deepCopyGraph x) (λ v' h', extends h h' ∧ graph_copied v' h') h.
Proof.
  intros Hh Hg. destruct x as [g|].
  2:{ eapply wp_mono; [apply wp_copy_nil|]. intros v' h' (Hx & lr & -> & Hm). split; [done|]. intros ? [= <-]. by exists ∅. }
  destruct (reads_here _ _ _ Hg) as [m Hm]. eapply wp_mono.
  - apply (wp_copy_entries _ (λ k _ v' h', k = "nodes" ∨ k = "edges" → ∀ s, v' = AList s → own h0 h' v') _ _ _ Hm).
    + intros k v v' h1 h2 Hx Hv Hk s ->. eapply own_extends; [done|by eapply Hv].
    + intros k v h1 Hk Hx. case_decide; [|by wp_step]. destruct (reads_entry _ _ _ _ _ _ Hg Hm Hk) as [tv Htv].
      destruct v as [| | | | | | | | |s| | |]; try (wp_step; split; [done|]; by intros _ ?). do 2 wp_step. eapply wp_mono.
      * apply (wp_clone_items h0 _ _ h1); [|done]. intros v h2 Hv Hx2.
        destruct (reads_elem h1 s tv v) as [tv' Hv']; [by eapply reads_extends|done|].
        eapply deep_copy_own; [do 2 (etrans; [eassumption|]); done|by eapply reads_extends].
      * intros v' h2 [Hx2 Hv']. eauto.
  - intros v' h' (lr & m' & -> & Hm' & Hnew & Hx & He). split; [done|]. intros ? [= <-]. exists m'. split; [done|].
    intros k s Hk Hs. destruct (proj1 He _ _ Hs) as (v & _ & Hv). by eapply Hv.
Qed.

Lemma wp_deepCopyComponent h cm t : extends h0 h → reads h (AMap cm) t →
  wp (entry ⇐ deep_copy (AMap cm); h ⇐ mget;
      match get_key h cm "obj" with
      | AMap obj => o ⇐ deep_copy (AMap obj); _ ⇐ put_key (non_nil_map entry) "obj" o; mret' entry
      | _ => mret' entry
      end) (λ v' h', extends h h' ∧ own h0 h' v' ∧ ∃ l, v' = AMap (Some l)) h.
Proof.
  intros Hh Hcm. wp_step. unfold deep_copy at 1. do 2 wp_step.
  eapply wp_mono.
  { apply (wp_mono _ (λ v' h', (extends h h' ∧ own h h' v') ∧ ∃ l, v' = AMap (Some l))); [|intros a h' Hq; exact Hq].
    pose proof Hcm as [n Hn]. apply readback_bound in Hn.
    destruct (deepCopyAny_own h _ h (AMap cm) t (reflexivity h) Hn) as (v' & h' & E & Hv).
    exists v', h'. split; [done|]. split; [done|]. cbn [deepCopyAny Nat.add] in E.
    unfold clone_entries in E. apply mbind_Ret in E as (a & h1 & [= <- <-] & E).
    apply mbind_Ret in E as (kvs & h2 & _ & (l & h3 & _ & [= <- _])%mbind_Ret). eauto. }
  intros entry h1 [[Hx1 Ho1] [le ->]]. cbv beta. do 2 wp_step.
  assert (Hobj : get_key h1 cm "obj" = get_key h cm "obj").
  { destruct cm as [c|]; [|done]. destruct (reads_here _ _ _ Hcm) as [m Hm]. apply get_key_other. rewrite Hm. by eapply lookup_weaken, Hx1. }
  rewrite Hobj. destruct (get_key h cm "obj") as [| | | | | | | | | |obj| |] eqn:Eo;
    try (wp_step; split; [done|]; split; [by eapply own_base|by eauto]).
  assert (Hro : ∃ tob, reads h1 (AMap obj) tob).
  { destruct cm as [c|]; [|done]. destruct (reads_here _ _ _ Hcm) as [m Hm]. apply (get_key_entry _ _ _ _ _ Hm) in Eo as Ew; [|done].
    destruct (reads_entry _ _ _ _ _ _ Hcm Hm Ew) as [tob Hto]. exists tob. by eapply reads_extends. }
  destruct Hro as [tob Hto]. wp_step. eapply wp_mono; [eapply (deep_copy_own h0 h1); [by etrans|exact Hto]|]. intros o h2 [Hx2 Ho2]. cbv beta. cbn [non_nil_map].
  do 3 wp_step. assert (Hown : own h0 h2 (AMap (Some le))) by (eapply own_extends; [done|]; by eapply own_base).
  split; [|split; [by apply own_put|eauto]].
  assert (Hx : extends h h2) by (by etrans). destruct Hx as [HM HA]. split; [|done]. apply insert_subseteq_r; [|done].
  by eapply own_not_old.
Qed.

Lemma wp_deepCopyComponents h x t : extends h0 h → reads h0 (AMap x) t →
  wp (deepCopyComponents x) (λ v' h', extends h h' ∧ components_copied (AMap x) v' h' ∧ ∃ l, v' = AMap (Some l)) h.
Proof.
  intros Hh Hc. destruct x as [c|].
  2:{ eapply wp_mono; [apply wp_copy_nil|]. intros v' h' (Hx & lr & -> & Hm). split; [done|]. split; [|eauto].
      intros ? [= <-]. exists ∅. split; [done|]. split; [done|]. by intros x k y [= <-]. }
  destruct (reads_here _ _ _ Hc) as [m Hm]. pose proof (lookup_weaken _ _ _ _ Hm (proj1 Hh)) as Hm1. eapply wp_mono.
  - apply (wp_copy_entries _ (λ k v v' h', (∀ l, v' = AMap (Some l) → own h0 h' v') ∧ ∀ y, v = AMap y → ∃ l, v' = AMap (Some l)) _ _ _ Hm1).
    + intros k v v' h1 h2 Hx [Hv Hy]. split; [|done]. intros l ->. eapply own_extends; [done|by eapply Hv].
    + intros k v h1 Hk Hx. destruct (reads_entry _ _ _ _ _ _ Hc Hm Hk) as [tv Htv].
      destruct v as [| | | | | | | | | |cm| |]; try (wp_step; split; [done|]; by split).
      eapply wp_mono; [apply (wp_deepCopyComponent h1 cm tv); [by etrans|eapply reads_extends; [|done]; by etrans]|].
      intros v' h2 (Hx2 & Hv' & l & ->). eauto.
  - intros v' h' (lr & m' & -> & Hm' & _ & Hx & He). split; [done|]. split; [|eauto]. intros ? [= <-]. exists m'. split; [done|]. split.
    + intros k l Hl. destruct (proj1 He _ _ Hl) as (v & _ & Hv & _). by eapply Hv.
    + intros x k y [= <-] Ew%(get_key_entry _ _ _ _ _ Hm); [|done]. destruct (proj2 He _ _ Ew) as (v' & Hv' & _ & Hl). destruct (Hl y eq_refl) as [l ->]. eauto.
Qed.
End copy.

(** ** The normal form of a canvas *)

Section canvas.
Context `{GoLib} `{MapOrder}.
Variable h0 : heap.
Notation repaired := (rtc (repair h0)).

(** A DSL whose graph and components belong to the computation. *)
Record copied (h : heap) (out : loc) : Prop := {
  copied_base : extends h0 h;
  copied_new : h_maps h0 !! out = None;
  copied_here : is_Some (h_maps h !! out);
  copied_parts k m : k = "graph" ∨ k = "components" → get_key h (Some out) k = AMap (Some m) → is_Some (h_maps h !! m);
  copied_lists g k s : get_key h (Some out) "graph" = AMap (Some g) → k = "nodes" ∨ k = "edges" →
    get_key h (Some g) k = AList s → own h0 h (AList s);
  copied_components c k l : get_key h (Some out) "components" = AMap (Some c) →
    get_key h (Some c) k = AMap (Some l) → own h0 h (AMap (Some l));
}.

Lemma copied_repair h h' out : repaired h h' → copied h out → copied h' out.
Proof.
  intros Hr [Hb Hn Hh Hp Hl Hc]. split; [by eapply base_repair|done|by eapply maps_repair|..].
  - intros k m Hk Hm%(repaired_map _ _ _ _ _ _ Hr). eapply maps_repair; [done|eauto].
  - intros g k s Hg%(repaired_map _ _ _ _ _ _ Hr) Hk Hks. eapply own_repair; [done|]. eapply Hl; [done|done|].
    rewrite <- Hks. symmetry. eapply repaired_other; [exact Hr|]. destruct Hk as [->| ->]; by_table.
  - intros c k l Hg%(repaired_map _ _ _ _ _ _ Hr) Hk%(repaired_map _ _ _ _ _ _ Hr). eapply own_repair; [done|eauto].
Qed.

Lemma wp_deepCopyDSL l t : reads h0 (AMap (Some l)) t →
  wp (deepCopyDSL (Some l)) (λ r h, ∃ out, r = Some out ∧ copied h out
    ∧ ∀ c k y, get_key h0 (Some l) "components" = AMap (Some c) → get_key h0 (Some c) k = AMap y →
        ∃ c' l', get_key h (Some out) "components" = AMap (Some c') ∧ get_key h (Some c') k = AMap (Some l')) h0.
Proof.
  intros Hl. destruct (reads_here _ _ _ Hl) as [m Hm]. unfold deepCopyDSL. wp_step. eapply wp_mono.
  { apply (wp_copy_entries _ (λ k v v' h,
      (k = "graph" → graph_copied h0 v' h) ∧ (k = "components" → components_copied h0 v v' h ∧ ∀ c, v = AMap (Some c) → ∃ c', v' = AMap (Some c'))) _ _ _ Hm).
    - intros k v v' h1 h2 Hx [Hg Hc]. split; [intros; eapply graph_copied_extends; eauto|].
      intros Hk. destruct (Hc Hk). split; [by eapply components_copied_extends|done].
    - intros k v h1 Hk Hx. destruct (reads_entry _ _ _ _ _ _ Hl Hm Hk) as [tv Htv].
      destruct v as [| | | | | | | | | |x| |]; try (wp_step; split; [done|]; by split; [intros _ ?|intros _; split; intros ?]).
      case_decide as Eg; [|case_decide as Ec].
      + eapply wp_mono; [eapply wp_deepCopyGraph; [done|by eapply reads_extends]|]. intros v' h2 [Hx2 Hv]. split; [done|]. by subst k.
      + eapply wp_mono; [eapply wp_deepCopyComponents; [done|done]|]. intros v' h2 (Hx2 & Hv & l' & ->). split; [done|]. by split; [|eauto].
      + wp_step. by split. }
  intros r h (out & m' & -> & Hm' & Hnew & Hx & He). cbv beta. wp_step. exists out. split; [done|].
  pose proof (λ k v, get_key_entry _ _ _ k v Hm') as Hget. split; [split|].
  - done.
  - done.
  - eauto.
  - intros k m1 Hk E%Hget; [|done]. destruct (proj1 He _ _ E) as (v & _ & Hvg & Hvc). destruct Hk as [-> | ->].
    + destruct (Hvg eq_refl m1 eq_refl) as (? & ? & _). eauto.
    + destruct (Hvc eq_refl) as [Hcc _]. destruct (Hcc m1 eq_refl) as (? & ? & _). eauto.
  - intros g k s Hg%Hget Hk Hs; [|done]. destruct (proj1 He _ _ Hg) as (v & _ & Hv & _).
    destruct (Hv eq_refl g eq_refl) as (mg & Hmg & Hown). eapply Hown; [exact Hk|].
    by eapply get_key_entry.
  - intros c k l' Hc%Hget Hk; [|done]. destruct (proj1 He _ _ Hc) as (v & _ & _ & Hv).
    destruct (Hv eq_refl) as [Hcc _]. destruct (Hcc c eq_refl) as (mc & Hmc & Hown & _). eapply (Hown k). by eapply get_key_entry.
  - intros c k y Ev%(get_key_entry _ _ _ _ _ Hm) Hk; [|done].
    destruct (proj2 He _ _ Ev) as (v' & Hv' & _ & Hcc). destruct (Hcc eq_refl) as [Hcop Hc']. destruct (Hc' c eq_refl) as [c' ->].
    destruct (Hcop c' eq_refl) as (mc & Hmc & _ & Hkeys). destruct (Hkeys _ _ _ eq_refl Hk) as [l' Hl'].
    exists c', l'. split; by eapply entry_get_key.
Qed.

(** *** The repairs *)

Lemma non_nil_map_Some v l : non_nil_map v = Some l → v = AMap (Some l).
Proof. destruct v as [| | | | | | | | | |m| |]; simpl; congruence. Qed.

Lemma str_of_text v : str_of v ≠ "" → v = AStr (str_of v).
Proof. by destruct v. Qed.
Lemma str_of_one v a b : a ≠ "" → b ≠ "" → str_of v = a ∨ str_of v = b → v = AStr (str_of v).
Proof. intros Ha Hb Hv. apply str_of_text. destruct Hv as [-> | ->]; done. Qed.
Lemma copied_elem h out g k v : copied h out → get_key h (Some out) "graph" = AMap (Some g) → k = "nodes" ∨ k = "edges" →
  v ∈ list_of h (get_key h (Some g) k) → own h0 h v.
Proof.
  intros Hcop Hg Hk Hv. destruct (get_key h (Some g) k) as [| | | | | | | | |s| | |] eqn:Es; try by apply not_elem_of_nil in Hv.
  eapply own_elem; [by eapply (copied_lists _ _ Hcop)|done].
Qed.

Lemma wp_enforceHandleIds h out : copied h out →
  wp (enforceHandleIds (Some out)) (λ _ h', repaired h h' ∧
    ∀ g e, get_key h (Some out) "graph" = AMap (Some g) → e ∈ list_of h (get_key h (Some g) "edges") → handles_ok h' e) h.
Proof.
  intros Hcop. unfold enforceHandleIds. do 2 wp_step.
  destruct (non_nil_map (get_key h (Some out) "graph")) as [g|] eqn:Eg.
  2:{ wp_step. split; [done|]. intros g e E. by rewrite E in Eg. }
  apply non_nil_map_Some in Eg as Hg.
  eapply wp_mono; [apply (wp_repair_loop h0 _ (λ e h, handles_ok h e)); [intros; by eapply handles_ok_repair|]|].
  - intros e h1 He Hr. destruct (non_nil_map e) as [m|] eqn:Em.
    2:{ wp_step. split; [done|]. by intros m ->. }
    apply non_nil_map_Some in Em as ->.
    assert (Hm : h_maps h0 !! m = None) by (eapply own_not_old, (copied_elem h out g "edges"); [done|done|by right|done]).
    do 3 wp_step. set (src := str_of _). apply (wp_mono _ (λ _ h2, repaired h1 h2 ∧ key_not h2 (Some m) "sourceHandle" "end")).
    + case_decide as Ed; wp_step.
      * split; [by eapply rtc_once, Repair; [|by_table|eapply str_of_one; [..|exact Ed]]|].
        unfold key_not, get_key. rewrite map_at_set, lookup_insert_eq. done.
      * split; [done|]. unfold key_not. intros E. destruct Ed. left. unfold src. by rewrite E.
    + intros _ h2 [Hr2 Hsrc]. do 2 wp_step. case_decide as Ed; wp_step.
      * assert (Hr3 : repair h0 h2 (set_map m (<["targetHandle" := AStr "end"]> (map_at h2 (Some m))) h2)).
        { by eapply Repair; [|by_table|eapply str_of_one; [..|exact Ed]]. }
        split; [etrans; [done|by apply rtc_once]|]. intros ? [= <-].
        split; [eapply key_not_repair; [|exact Hr3|done]; by_table|].
        unfold key_not, get_key. rewrite map_at_set, lookup_insert_eq. done.
      * split; [done|]. intros ? [= <-]. split; [done|]. unfold key_not. intros E. destruct Ed. left. by rewrite E.
  - intros _ h' [Hr He]. split; [done|]. intros g' e E Hin. rewrite Hg in E. simplify_eq. auto.
Qed.

(** A rename of a key of a map that the computation owns. *)
Lemma wp_rename_own m k from to h :
  (k, to) ∈ repairs → from ≠ to → own h0 h (AMap m) → wp (rename_key m k from to) (λ _ h', repaired h h' ∧ key_not h' m k from) h.
Proof. intros Hk Hne Hm. apply wp_rename_key; [done|done|]. intros l ->. by eapply own_not_old. Qed.

Lemma wp_repair_component m h : own h0 h (AMap (Some m)) →
  wp (h ⇐ mget;
      _ ⇐ match get_key h (Some m) "obj" with
          | AMap obj => rename_key obj "component_name" componentNameParallel componentNameIteration
          | _ => mret' ()
          end;
      rename_key (Some m) "name" componentNameParallel componentNameIteration)
    (λ _ h', repaired h h' ∧ component_ok h' (AMap (Some m))) h.
Proof.
  intros Hown. do 3 wp_step. apply (wp_mono _ (λ _ h2, repaired h h2 ∧
    ∀ obj, get_key h (Some m) "obj" = AMap obj → key_not h2 obj "component_name" componentNameParallel)).
  - pose proof (own_key _ _ _ "obj" Hown) as Hobj. destruct (get_key h (Some m) "obj") as [| | | | | | | | | |obj| |];
      try (wp_step; by split).
    eapply wp_mono; [apply wp_rename_own; [by_table|done|done]|]. intros _ h2 [Hr2 Hk]. split; [done|]. by intros ? [= <-].
  - intros _ h2 [Hr2 Hobj]. eapply wp_mono; [apply wp_rename_own; [by_table|done|by eapply own_repair]|].
    intros _ h3 [Hr3 Hk]. split; [by etrans|]. intros ? [= <-]. split; [done|]. intros obj Hob.
    eapply repaired_key_not; [by_table|exact Hr3|]. apply Hobj. eapply repaired_map; [|exact Hob]. by etrans.
Qed.

Lemma wp_repair_node m h : own h0 h (AMap (Some m)) →
  wp (_ ⇐ rename_key (Some m) "type" "parallelNode" "iterationNode";
      h ⇐ mget;
      match non_nil_map (get_key h (Some m) "data") with
      | None => mret' ()
      | Some data =>
          _ ⇐ rename_key (Some data) "label" componentNameParallel componentNameIteration;
          rename_key (Some data) "name" componentNameParallel componentNameIteration
      end) (λ _ h', repaired h h' ∧ node_ok h' (AMap (Some m))) h.
Proof.
  intros Hown. wp_step. eapply wp_mono; [apply wp_rename_own; [by_table|done|done]|]. intros _ h1 [Hr1 Ht]. cbv beta. do 2 wp_step.
  destruct (non_nil_map (get_key h1 (Some m) "data")) as [data|] eqn:Ed.
  2:{ wp_step. split; [done|]. intros ? [= <-]. split; [done|]. intros data E. by rewrite E in Ed. }
  apply non_nil_map_Some in Ed. assert (Hown1 : own h0 h1 (AMap (Some data))).
  { rewrite <- Ed. apply own_key. by eapply own_repair. }
  wp_step. eapply wp_mono; [apply wp_rename_own; [by_table|done|done]|]. intros _ h2 [Hr2 Hl]. cbv beta.
  eapply wp_mono; [apply wp_rename_own; [by_table|done|by eapply own_repair]|]. intros _ h3 [Hr3 Hn].
  assert (Hr13 : repaired h1 h3) by (by etrans). split; [by etrans|]. intros ? [= <-].
  split; [by eapply repaired_key_not; [by_table|exact Hr13|]|]. intros d Hd%(repaired_map _ _ _ _ _ _ Hr13).
  rewrite Ed in Hd. injection Hd as <-. split; [by eapply repaired_key_not; [by_table|exact Hr3|]|done].
Qed.

Lemma wp_repairParallel h out : copied h out →
  wp (repairParallelLeaksForCanvas (Some out)) (λ _ h', repaired h h'
    ∧ (∀ c k v, get_key h (Some out) "components" = AMap (Some c) → map_at h (Some c) !! k = Some v → component_ok h' v)
    ∧ ∀ g n, get_key h (Some out) "graph" = AMap (Some g) → n ∈ list_of h (get_key h (Some g) "nodes") → node_ok h' n) h.
Proof.
  intros Hcop. unfold repairParallelLeaksForCanvas. do 3 wp_step.
  eapply wp_mono; [apply (wp_repair_loop h0 _ (λ kv h, component_ok h kv.2)); [intros; by eapply component_ok_repair|]|].
  - intros [k v] h1 Hkv%elem_of_range Hr. cbn [fst snd] in *. destruct (non_nil_map v) as [m|] eqn:Em.
    2:{ wp_step. split; [done|]. by intros m ->. }
    apply non_nil_map_Some in Em as ->. apply wp_repair_component. eapply own_repair; [done|].
    destruct (non_nil_map (get_key h (Some out) "components")) as [c|] eqn:Ec; [|done]. apply non_nil_map_Some in Ec.
    eapply (copied_components _ _ Hcop c k); [done|]. unfold get_key. by rewrite Hkv.
  - intros _ h1 [Hr1 Hc]. cbv beta. do 2 wp_step.
    destruct (non_nil_map (get_key h1 (Some out) "graph")) as [g|] eqn:Eg.
    + apply non_nil_map_Some in Eg. pose proof (copied_repair _ _ _ Hr1 Hcop) as Hcop1.
      eapply wp_mono; [apply (wp_repair_loop h0 _ (λ n h, node_ok h n)); [intros; by eapply node_ok_repair|]|].
      * intros n h2 Hn Hr2. destruct (non_nil_map n) as [m|] eqn:Em.
        2:{ wp_step. split; [done|]. by intros m ->. }
        apply non_nil_map_Some in Em as ->. apply wp_repair_node. eapply own_repair; [done|].
        by eapply (copied_elem h1 out g "nodes"); [..|left|].
      * intros _ h3 [Hr3 Hn]. split; [by etrans|]. split.
        { intros c k v Hc1 Hkv. eapply component_ok_repair; [done|]. apply (Hc (k, v)). rewrite Hc1. by apply elem_of_range. }
        intros g' n Hg' Hin. assert (g' = g) as ->.
        { rewrite <- (repaired_other h0 _ _ (Some out) "graph" Hr1) in Hg' by by_table. congruence. }
        apply Hn. rewrite (repaired_other h0 _ _ _ _ Hr1) by by_table. by rewrite (repaired_list h0 _ _ _ Hr1).
    + wp_step. split; [done|]. split.
      * intros c k v Hc1 Hkv. apply (Hc (k, v)). rewrite Hc1. by apply elem_of_range.
      * intros g n Hg. rewrite <- (repaired_other h0 _ _ (Some out) "graph" Hr1) in Hg by by_table. by rewrite Hg in Eg.
Qed.

(** *** The graph of the components *)

Lemma own_here h l : own h0 h (AMap (Some l)) → is_Some (h_maps h !! l).
Proof. intros Ho. destruct (Ho 1) as (_ & m & Hm & _). eauto. Qed.
Lemma get_key_extends h h' l k : extends h h' → is_Some (h_maps h !! l) → get_key h' (Some l) k = get_key h (Some l) k.
Proof. intros Hx [m Hm]. apply get_key_other. rewrite Hm. by eapply lookup_weaken, Hx. Qed.
Lemma handles_ok_extends h h' e : extends h h' → own h0 h e → handles_ok h e → handles_ok h' e.
Proof.
  intros Hx Ho He m ->. destruct (He m eq_refl). unfold key_not in *.
  by rewrite !(get_key_extends h h') by (done || by apply own_here).
Qed.

Lemma extract_own h comp name params downstream :
  own h0 h (AMap (Some comp)) → extractComponent h (Some comp) = (name, params, downstream) → own h0 h (AMap params).
Proof.
  intros Ho E. assert (Hnn : ∀ l k, own h0 h (AMap l) → own h0 h (AMap (non_nil_map (get_key h l k)))).
  { intros [l|] k Hl; [|by intros [|]]. pose proof (own_key _ _ _ k Hl) as Hk.
    destruct (get_key h (Some l) k) as [| | | | | | | | | |m| |]; done || by intros [|]. }
  unfold extractComponent in E. pose proof (own_key _ _ _ "obj" Ho) as Hobj. pose proof (Hnn _ "params" Ho) as Hp.
  destruct (get_key h (Some comp) "obj") as [| | | | | | | | | |obj| |]; simplify_eq/=; try done.
  pose proof (Hnn _ "params" Hobj) as Hop. by destruct (non_nil_map (get_key h obj "params")).
Qed.

(** What the loop has built so far from the components of [cs]. *)
Definition built (h1 : heap) (cs : gmap string any) (keys : list string) (acc : list any * list any * gmap string any) (h : heap) : Prop :=
  let '(nodes, edges, normalized) := acc in
  extends h1 h ∧ (∀ n, n ∈ nodes → own h0 h n) ∧ (∀ e, e ∈ edges → own h0 h e ∧ handles_ok h e)
  ∧ map_Forall (λ _ v, own h0 h v) normalized ∧ (∀ k l, k ∈ keys → cs !! k = Some (AMap (Some l)) → nodes ≠ []).

Ltac own_entries := repeat (apply map_Forall_empty || apply map_Forall_insert_2 || apply map_Forall_singleton);
  try (apply own_leaf; by intros ?).

Lemma wp_new_edge key dst h : extends h0 h →
  wp (e ⇐ new_map (edge_entries key dst); mret' (AMap (Some e))) (λ e h', extends h h' ∧ own h0 h' e ∧ handles_ok h' e) h.
Proof.
  intros Hx. do 3 wp_step. split; [apply extends_new_map|]. split.
  - apply own_new_map; [done|]. unfold edge_entries. own_entries.
  - intros ? [= <-]. unfold key_not, get_key. rewrite map_at_set. done.
Qed.

Lemma built_extends h1 cs keys nodes edges normalized h h' :
  extends h h' → built h1 cs keys (nodes, edges, normalized) h → built h1 cs keys (nodes, edges, normalized) h'.
Proof.
  intros Hx (Hb & Hn & He & Hm & Hk). split; [by etrans|]. split; [intros; eapply own_extends; eauto|]. split; [|split; [|done]].
  - intros e Hin. destruct (He e Hin). split; [by eapply own_extends|by eapply handles_ok_extends].
  - intros k v Hv. eapply own_extends; [done|by eapply Hm].
Qed.

Lemma wp_build_component h1 h comps cs p key q acc :
  extends h0 h1 → h_maps h1 !! comps = Some cs →
  (∀ k l, cs !! k = Some (AMap (Some l)) → own h0 h1 (AMap (Some l))) →
  sorted_keys cs = p ++ key :: q → built h1 cs p acc h →
  wp (build_component (Some comps) acc key) (built h1 cs (p ++ [key])) h.
Proof.
  intros H01 Hcs Hcomp Hkeys Hb. destruct acc as [[nodes edges] normalized]. pose proof Hb as (Hx & Hn & He & Hnorm & Hk).
  unfold build_component. do 2 wp_step. rewrite (get_key_extends h1) by (done || eauto).
  destruct (non_nil_map (get_key h1 (Some comps) key)) as [comp|] eqn:Ec.
  2:{ wp_step. repeat (split; [done|]). intros k l [Hin|Hin%list_elem_of_singleton]%elem_of_app Hl; [eauto|].
      subst k. by rewrite (entry_get_key _ _ _ _ _ Hcs Hl) in Ec. }
  apply non_nil_map_Some in Ec. apply (get_key_entry _ _ _ _ _ Hcs) in Ec as Ec'; [|done].
  assert (Hown : own h0 h (AMap (Some comp))) by (eapply own_extends; [done|eauto]).
  destruct (extractComponent h (Some comp)) as [[name params] downstream] eqn:Ex.
  assert (Hpar : own h0 h (AMap params)) by (by eapply extract_own). assert (H0h : extends h0 h) by (by etrans).
  do 2 wp_step. set (hp := set_map _ _ h). assert (Hxp : extends h hp) by apply extends_new_map.
  do 2 wp_step. set (hd := set_map _ _ hp). assert (Hxd : extends hp hd) by apply extends_new_map.
  do 2 wp_step. set (hn := set_map _ _ hd). assert (Hxn : extends hd hn) by apply extends_new_map.
  assert (H0d : extends h0 hd) by (transitivity hp; [by transitivity h|done]).
  assert (Hxhn : extends h hn) by (transitivity hd; [by transitivity hp|done]).
  assert (Hpos : own h0 hp (AMap (Some (fresh_map h)))) by (apply own_new_map; [done|]; own_entries).
  assert (Hdata : own h0 hd (AMap (Some (fresh_map hp)))).
  { apply own_new_map; [by transitivity h|]. own_entries. by eapply own_extends. }
  assert (Hnode : own h0 hn (AMap (Some (fresh_map hd)))).
  { apply own_new_map; [done|]. own_entries; [eapply own_extends; [exact Hxd|done]|done]. }
  wp_step. eapply wp_mono; [apply (wp_mmap _ (λ _ e h', own h0 h' e ∧ handles_ok h' e) _ hn); [..|done]|].
  - intros _ e h2 h3 Hx23 [Ho Hh]. split; [by eapply own_extends|by eapply handles_ok_extends].
  - intros dst h2 _ Hx2. apply wp_new_edge. transitivity h; [done|by transitivity hn].
  - intros es h2 [Hx2 Hes]. cbv beta. do 2 wp_step. set (hf := set_map _ _ h2). assert (Hxf : extends h2 hf) by apply extends_new_map.
    assert (Hxh2 : extends h h2) by (by transitivity hn). wp_step.
    assert (Hxhf : extends h hf) by (by transitivity h2). assert (Hxn2 : extends hn hf) by (by transitivity h2).
    destruct (built_extends _ _ _ _ _ _ _ hf Hxhf Hb) as (Hb' & Hn' & He' & Hnorm' & _). split; [done|]. split; [|split; [|split]].
    + intros n [Hin|Hin%list_elem_of_singleton]%elem_of_app; [auto|]. subst n. by eapply own_extends; [exact Hxn2|].
    + intros e [Hin|Hin]%elem_of_app; [auto|]. destruct (Forall2_elem_r _ _ _ _ Hes Hin) as (? & _ & Ho & Hh).
      split; [by eapply own_extends; [exact Hxf|]|by eapply handles_ok_extends; [exact Hxf|..]].
    + apply map_Forall_insert_2; [|done]. apply own_new_map; [by transitivity h|]. own_entries.
      by eapply own_extends; [exact Hxh2|].
    + intros k l _ _. by destruct nodes.
Qed.

Lemma wp_buildGraph h comps cs :
  extends h0 h → h_maps h !! comps = Some cs → (∀ k l, cs !! k = Some (AMap (Some l)) → own h0 h (AMap (Some l))) →
  wp (buildGraphFromComponents (Some comps)) (λ '(nodes, edges, nl) h', ∃ normalized,
    built h cs (sorted_keys cs) (nodes, edges, normalized) h' ∧ own h0 h' (AMap (Some nl))) h.
Proof.
  intros H0h Hcs Hcomp. unfold buildGraphFromComponents. do 3 wp_step. rewrite (map_at_Some _ _ _ Hcs). eapply wp_mono.
  - apply (wp_mfold _ (built h cs)).
    + intros p x q acc h1 Hl Hb. by eapply wp_build_component.
    + do 3 (split; [done || by intros ? ?%not_elem_of_nil|]). split; [apply map_Forall_empty|]. by intros k l ?%not_elem_of_nil.
  - intros [[nodes edges] normalized] h1 Hb. do 3 wp_step. exists normalized.
    split; [eapply built_extends; [apply extends_new_map|done]|]. destruct Hb as (Hx & _ & _ & Hm & _).
    apply own_new_map; [by transitivity h|done].
Qed.

(** The step of [normalize] that derives a missing graph. *)
Definition derive_graph (out : option loc) : mem unit :=
  h ⇐ mget;
  if graphHasNodes h out then mret' () else
  match non_nil_map (get_key h out "components") with
  | None => mret' ()
  | Some rawComps =>
      '(nodes, edges, normComps) ⇐ buildGraphFromComponents (Some rawComps);
      match nodes with
      | [] => mret' ()
      | _ =>
          ns ⇐ new_slice_cap (size (map_at h (Some rawComps))) nodes;
          es ⇐ new_slice edges;
          graph ⇐ new_map {["nodes" := AList ns; "edges" := AList es]};
          _ ⇐ put_key out "graph" (AMap (Some graph));
          put_key out "components" (AMap (Some normComps))
      end
  end.

(** The edges of the graph are repaired. *)
Definition edges_ok (h : heap) (out : loc) : Prop :=
  ∀ g e, get_key h (Some out) "graph" = AMap (Some g) → e ∈ list_of h (get_key h (Some g) "edges") → handles_ok h e.

Lemma list_extends h h' v : extends h h' → own h0 h v → list_of h' v = list_of h v.
Proof.
  intros Hx Ho. destruct v as [| | | | | | | | |[s|]| | |]; try done. apply elems_extends; [done|]. apply (Ho 1).
Qed.
Lemma copied_graph_key h h' out g k : extends h h' → copied h out → get_key h (Some out) "graph" = AMap (Some g) →
  get_key h' (Some g) k = get_key h (Some g) k.
Proof. intros Hx Hcop Hg. apply get_key_extends; [done|]. eapply copied_parts; [done|by left|done]. Qed.
Lemma copied_key h h' out k : extends h h' → copied h out → get_key h' (Some out) k = get_key h (Some out) k.
Proof. intros Hx Hcop. apply get_key_extends; [done|apply Hcop]. Qed.

Lemma copied_extends h h' out : extends h h' → copied h out → copied h' out.
Proof.
  intros Hx Hcop. pose proof (λ k, copied_key _ _ _ k Hx Hcop) as Hk. destruct Hcop as [Hb Hn Hh Hp Hl Hc] eqn:Ecop.
  assert (His : ∀ l, is_Some (h_maps h !! l) → is_Some (h_maps h' !! l)).
  { intros l [m Hm]. exists m. by eapply lookup_weaken, Hx. }
  split; [by etrans|done|by apply His|..].
  - intros k m Hkm. rewrite Hk. eauto.
  - intros g k s Hg Hks. rewrite Hk in Hg. rewrite (get_key_extends h) by eauto. intros Hs. eapply own_extends; eauto.
  - intros c k l Hg. rewrite Hk in Hg. rewrite (get_key_extends h) by eauto. intros Hs. eapply own_extends; eauto.
Qed.
Lemma edges_ok_extends h h' out : extends h h' → copied h out → edges_ok h out → edges_ok h' out.
Proof.
  intros Hx Hcop He g e Hg Hin. rewrite (copied_key h) in Hg by done. rewrite (copied_graph_key h h' out) in Hin by done.
  destruct (get_key h (Some g) "edges") as [| | | | | | | | |s| | |] eqn:Es; try by apply not_elem_of_nil in Hin.
  rewrite (list_extends h) in Hin by (done || by eapply (copied_lists h out Hcop g "edges"); [done|right|]).
  assert (e ∈ list_of h (get_key h (Some g) "edges")) by by rewrite Es.
  eapply handles_ok_extends; [done| |by eapply He]. by eapply (copied_elem h out g "edges"); [..|right|].
Qed.

(** Writing the two keys of the derived graph. *)
Definition put_at (l : loc) (k : string) (v : any) (h : heap) : heap := set_map l (<[k := v]> (map_at h (Some l))) h.
Lemma get_key_put_ne h l k v m k' : k ≠ k' → get_key (put_at l k v h) m k' = get_key h m k'.
Proof.
  intros Hk. destruct m as [l'|]; [|done]. unfold get_key, put_at. destruct (decide (l = l')) as [<-|Hl].
  - by rewrite map_at_set, lookup_insert_ne.
  - by rewrite map_at_set_ne.
Qed.
Lemma get_key_put_eq h l k v : get_key (put_at l k v h) (Some l) k = v.
Proof. unfold get_key, put_at. by rewrite map_at_set, lookup_insert_eq. Qed.
Lemma base_put h l k v : h_maps h0 !! l = None → extends h0 h → extends h0 (put_at l k v h).
Proof. intros Hl [HM HA]. split; [|done]. by apply insert_subseteq_r. Qed.

Lemma put_graph h out g c : let h' := put_at out "components" (AMap (Some c)) (put_at out "graph" (AMap (Some g)) h) in
  extends h0 h → h_maps h0 !! out = None → own h0 h (AMap (Some g)) → own h0 h (AMap (Some c)) →
  (∀ e, e ∈ list_of h (get_key h (Some g) "edges") → handles_ok h e) →
  (∃ ns, get_key h (Some g) "nodes" = AList (Some ns) ∧ 0 < s_len ns) →
  copied h' out ∧ edges_ok h' out ∧ graphHasNodes h' (Some out) = true.
Proof.
  intros h' Hx Hout Hg Hc He (ns & Hns & Hlen).
  assert (Hg1 : own h0 (put_at out "graph" (AMap (Some g)) h) (AMap (Some g))) by by apply own_put.
  assert (Hc1 : own h0 (put_at out "graph" (AMap (Some g)) h) (AMap (Some c))) by by apply own_put.
  assert (Hg2 : own h0 h' (AMap (Some g))) by by apply own_put. assert (Hc2 : own h0 h' (AMap (Some c))) by by apply own_put.
  assert (Hkg : get_key h' (Some out) "graph" = AMap (Some g)).
  { unfold h'. rewrite get_key_put_ne by done. apply get_key_put_eq. }
  assert (Hkc : get_key h' (Some out) "components" = AMap (Some c)) by apply get_key_put_eq.
  assert (Hoth : ∀ m k, "components" ≠ k → "graph" ≠ k → get_key h' m k = get_key h m k).
  { intros m k Hk1 Hk2. unfold h'. by rewrite !get_key_put_ne. }
  split; [split|split].
  - by apply base_put, base_put.
  - done.
  - unfold h', put_at. rewrite maps_set. eauto.
  - intros k m [-> | ->] Hm; rewrite ?Hkg, ?Hkc in Hm; injection Hm as <-; by apply own_here.
  - intros g' k s Hg' _ Hs. rewrite Hkg in Hg'. injection Hg' as <-. rewrite <- Hs. by apply own_key.
  - intros c' k l Hc' Hl. rewrite Hkc in Hc'. injection Hc' as <-. rewrite <- Hl. by apply own_key.
  - intros g' e Hg' Hin. rewrite Hkg in Hg'. injection Hg' as <-. rewrite Hoth in Hin by done.
    intros m Hm. unfold key_not. rewrite !Hoth by done. by apply (He e).
  - unfold graphHasNodes. rewrite Hkg, Hoth, Hns by done. by apply bool_decide_eq_true.
Qed.

Lemma wp_derive_graph h out : copied h out → edges_ok h out →
  wp (derive_graph (Some out)) (λ _ h', copied h' out ∧ edges_ok h' out ∧
    (∀ c k l, get_key h (Some out) "components" = AMap (Some c) → get_key h (Some c) k = AMap (Some l) →
       graphHasNodes h' (Some out) = true)) h.
Proof.
  intros Hcop He. unfold derive_graph. do 2 wp_step. destruct (graphHasNodes h (Some out)) eqn:Eg; [by wp_step|].
  destruct (non_nil_map (get_key h (Some out) "components")) as [c|] eqn:Ec.
  2:{ wp_step. split; [done|]. split; [done|]. intros c k l E. by rewrite E in Ec. }
  apply non_nil_map_Some in Ec. destruct (copied_parts _ _ Hcop "components" c) as [cs Hcs]; [by right|done|].
  wp_step. eapply wp_mono; [apply (wp_buildGraph h c cs); [apply Hcop|done|]|].
  { intros k l Hl. eapply (copied_components _ _ Hcop c k); [done|by eapply entry_get_key]. }
  intros [[nodes edges] nl] h1 (normalized & (Hx & Hn & Hed & Hnorm & Hne) & Hnl). cbv beta iota. destruct nodes as [|n nodes].
  - wp_step. split; [by eapply copied_extends|]. split; [by eapply edges_ok_extends|].
    intros c' k l Hc Hk. rewrite Ec in Hc. injection Hc as <-. apply (get_key_entry _ _ _ _ _ Hcs) in Hk; [|done].
    destruct (Hne k l); [|done|done]. apply elem_of_sorted_keys. eauto.
  - wp_step. apply wp_new_slice_cap. set (ns := Slice _ _ _ _). set (h2 := set_arr _ _ h1).
    assert (Hx2 : extends h1 h2) by apply extends_new_arr. assert (Hns : own h0 h2 (AList (Some ns))) by by apply own_new_slice.
    wp_step. apply wp_new_slice_cap. set (es := Slice _ _ _ _). set (h3 := set_arr _ _ h2).
    assert (Hx3 : extends h2 h3) by apply extends_new_arr. assert (Hx13 : extends h1 h3) by by transitivity h2.
    assert (H03 : extends h0 h3) by (transitivity h1; [transitivity h; [apply Hcop|done]|done]).
    assert (Hes : own h0 h3 (AList (Some es))).
    { apply own_new_slice. intros e Hin. eapply own_extends; [exact Hx2|by apply Hed]. }
    do 2 wp_step. set (g := fresh_map h3). set (h4 := set_map g _ h3). assert (Hx4 : extends h3 h4) by apply extends_new_map.
    assert (Hx14 : extends h1 h4) by by transitivity h3.
    assert (Hg : own h0 h4 (AMap (Some g))).
    { apply own_new_map; [done|]. own_entries; [|done]. by eapply own_extends; [exact Hx3|]. }
    do 3 wp_step.
    destruct (put_graph h4 out g nl) as (Hc' & He' & Hgn).
    + by transitivity h3.
    + apply Hcop.
    + done.
    + by eapply own_extends.
    + assert (Ee : get_key h4 (Some g) "edges" = AList (Some es)) by (unfold get_key, h4; by rewrite map_at_set).
      intros e Hin. rewrite Ee in Hin. change (e ∈ list_of h3 (AList (Some es))) in Hin.
      unfold h3, es in Hin. rewrite new_slice_list in Hin. destruct (Hed e Hin).
      by eapply handles_ok_extends; [exact Hx14|..].
    + exists ns. split; [|simpl; lia]. unfold get_key, h4. by rewrite map_at_set.
    + done.
Qed.

(** What the front end expects of a canvas: handles as it draws them, and no
    component or node of the kind that only the runtime knows. *)
Record front_end (h : heap) (out : loc) : Prop := {
  fe_edges : edges_ok h out;
  fe_nodes g n : get_key h (Some out) "graph" = AMap (Some g) → n ∈ list_of h (get_key h (Some g) "nodes") → node_ok h n;
  fe_components c k comp : get_key h (Some out) "components" = AMap (Some c) → get_key h (Some c) k = AMap (Some comp) →
    componentNameFromComp h (Some comp) ≠ componentNameParallel;
}.

Lemma component_ok_name h comp : component_ok h (AMap (Some comp)) → componentNameFromComp h (Some comp) ≠ componentNameParallel.
Proof.
  intros Hc. destruct (Hc comp eq_refl) as [Hn Ho]. unfold componentNameFromComp.
  assert (Hstr : ∀ v, v ≠ AStr componentNameParallel → str_of v ≠ componentNameParallel).
  { intros v Hv E. apply Hv. rewrite <- E. apply str_of_text. by rewrite E. }
  destruct (get_key h (Some comp) "obj") as [| | | | | | | | | |obj| |]; case_decide; try done; try by apply Hstr.
  apply Hstr. by apply (Ho obj).
Qed.

Lemma wp_normalize_canvas l t : reads h0 (AMap (Some l)) t →
  wp (NormalizeForCanvas (Some l)) (λ r h', ∃ out, r = Some out ∧ extends h0 h' ∧ front_end h' out ∧
    ∀ c k m, get_key h0 (Some l) "components" = AMap (Some c) → get_key h0 (Some c) k = AMap m → graphHasNodes h' (Some out) = true) h0.
Proof.
  intros Hl. unfold NormalizeForCanvas, normalize. wp_step.
  eapply wp_mono; [by eapply wp_deepCopyDSL|]. intros r h1 (out & -> & Hcop & Hcomps). cbv beta. wp_step.
  eapply wp_mono; [by apply wp_enforceHandleIds|]. intros _ h2 [Hr2 He2]. cbv beta. pose proof (copied_repair _ _ _ Hr2 Hcop) as Hcop2.
  do 3 wp_step. apply (wp_mono _ (λ _ h3, copied h3 out ∧ edges_ok h3 out ∧
    (∀ c k l, get_key h2 (Some out) "components" = AMap (Some c) → get_key h2 (Some c) k = AMap (Some l) → graphHasNodes h3 (Some out) = true))).
  { apply (wp_derive_graph h2 out Hcop2). intros g e Hg Hin. rewrite (repaired_other h0 _ _ _ _ Hr2) in Hg by by_table.
    rewrite (repaired_other h0 _ _ _ _ Hr2), (repaired_list h0 _ _ _ Hr2) in Hin by by_table. by eapply He2. }
  intros _ h3 (Hcop3 & He3 & Hg3). wp_step. eapply wp_mono; [by apply wp_repairParallel|]. intros _ h4 (Hr4 & Hc4 & Hn4). cbv beta. do 3 wp_step.
  exists out. split; [done|]. split; [apply (copied_repair _ _ _ Hr4 Hcop3)|]. split; [split|].
  - intros g e Hg Hin. rewrite (repaired_other h0 _ _ _ _ Hr4) in Hg by by_table.
    rewrite (repaired_other h0 _ _ _ _ Hr4), (repaired_list h0 _ _ _ Hr4) in Hin by by_table.
    eapply handles_ok_repair; [done|by eapply He3].
  - intros g n Hg Hin. rewrite (repaired_other h0 _ _ _ _ Hr4) in Hg by by_table.
    rewrite (repaired_other h0 _ _ _ _ Hr4), (repaired_list h0 _ _ _ Hr4) in Hin by by_table. by eapply Hn4.
  - intros c k comp Hc Hk. rewrite (repaired_other h0 _ _ _ _ Hr4) in Hc by by_table. apply (repaired_map h0 _ _ _ _ _ Hr4) in Hk.
    apply component_ok_name. destruct (copied_parts _ _ Hcop3 "components" c) as [cs Hcs]; [by right|done|].
    eapply (Hc4 c k); [done|]. rewrite (map_at_Some _ _ _ Hcs). by eapply get_key_entry.
  - intros c k m Hc Hk. destruct (Hcomps c k m Hc Hk) as (c' & l' & Hc' & Hk').
    apply (map_repaired h0 _ _ _ _ _ Hr2) in Hc', Hk'. specialize (Hg3 c' k l' Hc' Hk'). unfold graphHasNodes in *.
    destruct (get_key h3 (Some out) "graph") as [| | | | | | | | | |g| |] eqn:Eg; try done.
    rewrite (map_repaired h0 _ _ _ _ _ Hr4 Eg). by rewrite (repaired_other h0 _ _ g "nodes" Hr4) by by_table.
Qed.
End canvas.

(** ** Deep equality and the copies of a reset *)

(** Two values of two heaps: the same structure with the same leaves. *)
Fixpoint same (n : nat) (h : heap) (v : any) (h' : heap) (v' : any) : Prop :=
  match n with
  | O => False
  | S n =>
      match v with
      | AMap (Some l) => ∃ m l' m', h_maps h !! l = Some m ∧ v' = AMap (Some l') ∧ h_maps h' !! l' = Some m'
          ∧ entries_by (λ _ x x', same n h x h' x') m m'
      | AList (Some s) => ∃ s', v' = AList (Some s') ∧ Forall2 (λ x x', same n h x h' x') (elems h (Some s)) (elems h' (Some s'))
      | v => v' = v
      end
  end.
Definition deep_equal (h : heap) (v : any) (h' : heap) (v' : any) : Prop := ∃ n, same n h v h' v'.

Section reset.
Context `{GoLib} `{MapOrder}.

Definition copies_same (n : nat) (h0 h : heap) (v v' : any) (h' : heap) : Prop :=
  extends h h' ∧ ∀ h'', agree_new h h' h'' → same n h0 v h'' v'.

(** The entries of a copied map, at the heap [h1] before the map itself is made. *)
Lemma copy_map_entries (f : any → mem any) n h0 m h :
  (∀ k v h, m !! k = Some v → extends h0 h → ∃ v' h', f v h = Ret (v', h') ∧ copies_same n h0 h v v' h') →
  extends h0 h →
  ∃ kvs h1, mmap (λ kv : string * any, v ⇐ f kv.2; mret' (kv.1, v)) (range m) h = Ret (kvs, h1) ∧ extends h h1 ∧
    ∀ h'', agree_new h h1 h'' → entries_by (λ _ x x', same n h0 x h'' x') m (list_to_map kvs).
Proof.
  intros Hf Hh. set (R := λ kv kt : string * any, kv = kt ∧ m !! kv.1 = Some kv.2).
  set (Q := λ h'' (kv kt : string * any), kv.1 = kt.1 ∧ same n h0 kt.2 h'' kv.2).
  destruct (mmap_copies (λ kv : string * any, v ⇐ f kv.2; mret' (kv.1, v)) R Q h0 (range m) (range m)) with (h := h)
    as (kvs & h1 & E & Hx & HQ); [| |done|].
  - intros h1 [k v] ? Hx [<- Hk]. simpl in Hk. destruct (Hf k v h1 Hk Hx) as (v' & h2 & E & Hx2 & Hs).
    exists (k, v'), h2. rewrite (mbind_step _ _ _ _ _ E). split; [done|]. split; [done|]. intros h'' Hag. by split; [|apply Hs].
  - assert (Hall : ∀ l, (∀ kv, kv ∈ l → m !! kv.1 = Some kv.2) → Forall2 R l l).
    { induction l as [|x l IH]; intros Hl; constructor; [split; [done|apply Hl; by left]|]. apply IH. intros; apply Hl; by right. }
    apply Hall. intros [k v] ?%elem_of_range. done.
  - exists kvs, h1. split; [done|]. split; [done|]. intros h'' Hag. specialize (HQ h'' Hag).
    assert (Hnd : NoDup kvs.*1).
    { replace kvs.*1 with (range m).*1; [apply range_NoDup|]. clear -HQ. induction HQ as [|? ? ? ? [] ? IH]; [done|]. rewrite !fmap_cons. congruence. }
    split.
    + intros k v' Hk%elem_of_list_to_map_2. destruct (Forall2_elem_l _ _ _ _ HQ Hk) as ([k' v] & Hin%elem_of_range & [Ek Hs]).
      simpl in *. subst k'. eauto.
    + intros k v Hk%elem_of_range. destruct (Forall2_elem_r _ _ _ _ HQ Hk) as ([k' v'] & Hin & [Ek Hs]).
      simpl in *. subst k'. exists v'. split; [by apply elem_of_list_to_map_1|done].
Qed.

Lemma agree_new_prefix h h1 h2 h'' : extends h h1 → extends h1 h2 → agree_new h h2 h'' → agree_new h h1 h''.
Proof. intros Hx1 Hx2 Hag. by eapply (agree_new_mid h h h1 h2). Qed.
Lemma agree_new_map h h1 m h'' :
  extends h h1 → agree_new h (set_map (fresh_map h1) m h1) h'' → h_maps h'' !! fresh_map h1 = Some m.
Proof.
  intros Hx Hag. rewrite <- (maps_set (fresh_map h1) m h1). apply Hag; [|rewrite maps_set; eauto].
  eapply lookup_weaken_None; [apply fresh_map_None|apply Hx].
Qed.

Lemma copy_value_same n : ∀ h0 h v t, extends h0 h → readback n h0 v = Some t →
  ∃ v' h', copy_value (deepCopyMap n) (deepCopySlice n) v h = Ret (v', h') ∧ copies_same n h0 h v v' h'.
Proof.
  induction n as [|n IH]; intros h0 h v t Hh Hv; [done|].
  destruct v as [| | | | | | | | |[s|]|[l|]| |]; cbn [copy_value]; try (by eexists _, _).
  - cbn [readback] in Hv. apply bind_Some in Hv as (cells & Hc & (ts & Hts & _)%fmap_Some). apply mapM_Some_1 in Hts.
    set (R := λ x y : any, x = y ∧ ∃ tx, readback n h0 x = Some tx).
    destruct (mmap_copies (copy_value (deepCopyMap n) (deepCopySlice n)) R (λ h'' y x, same n h0 x h'' y) h0
      (elems h0 (Some s)) (elems h0 (Some s))) with (h := h) as (ws & h1 & E & Hx & HQ); [| |done|].
    + intros h1 x ? Hx [<- [tx Htx]]. by eapply IH.
    + clear -Hts. induction Hts as [|x y l l' Hxy _ IHl]; constructor; [|done]. split; [done|eauto].
    + unfold mbind'. cbn [deepCopySlice]. unfold mbind', mget. cbn [go_bind fst snd].
      rewrite (elems_extends h0 h) by (done || eauto). rewrite E. cbn [go_bind fst snd new_slice new_slice_cap].
      eexists _, _. split; [done|]. split; [etrans; [exact Hx|apply extends_new_arr]|]. intros h'' Hag. cbn [same].
      eexists. split; [done|]. specialize (HQ h'' (agree_new_prefix _ _ _ _ Hx (extends_new_arr _ _) Hag)).
      assert (Ha : h_arrs h'' !! fresh_arr h1 = Some (ws ++ replicate (length ws - length ws) ANil)).
      { rewrite (proj2 Hag); simpl; rewrite ?lookup_insert_eq; [done| |eauto]. eapply lookup_weaken_None; [apply fresh_arr_None|apply Hx]. }
      unfold elems at 2, cells_at. simpl. rewrite Ha. simpl. rewrite drop_0, take_app_length. by apply Forall2_flip.
  - cbn [readback readback_map] in Hv. apply bind_Some in Hv as (m & Hl & Hm).
    pose proof (lookup_weaken _ _ _ _ Hl (proj1 Hh)) as Hl1.
    destruct (copy_map_entries (copy_value (deepCopyMap n) (deepCopySlice n)) n h0 m h) as (kvs & h1 & E & Hx & Hs); [|done|].
    + intros k v h1 Hk Hx. destruct (readback_entries_all _ _ _ _ _ Hm Hk) as [tv Htv]. by eapply IH.
    + unfold mbind'. cbn [deepCopyMap]. unfold mbind' at 1, mget. cbn [go_bind fst snd]. rewrite (map_at_Some _ _ _ Hl1).
      rewrite (mbind_step _ _ _ _ _ E). unfold mbind', new_map. cbn [go_bind fst snd].
      eexists _, _. split; [done|]. split; [etrans; [exact Hx|apply extends_new_map]|]. intros h'' Hag. cbn [same].
      eexists m, _, (list_to_map kvs). split; [done|]. split; [done|]. split; [by eapply agree_new_map|].
      apply Hs. by eapply agree_new_prefix; [done|apply extends_new_map|].
Qed.

(** The copy of a map: a new map whose entries do not depend on it. *)
Lemma wp_deep_copy_map h l m t : reads h (AMap (Some l)) t → h_maps h !! l = Some m →
  wp (deep_copy_map (Some l)) (λ r h', ∃ l' m' h1, r = Some l' ∧ h' = set_map l' m' h1 ∧ extends h h1 ∧ h_maps h1 !! l' = None
    ∧ ∀ h'', agree_new h h1 h'' → entries_by (λ _ x x', deep_equal h x h'' x') m m') h.
Proof.
  intros [n Hn] Hl. apply readback_bound in Hn. cbn [readback readback_map Nat.add] in Hn. rewrite Hl in Hn. simpl in Hn.
  unfold deep_copy_map. do 2 wp_step. cbn [deepCopyMap Nat.add]. do 3 wp_step. rewrite (map_at_Some _ _ _ Hl).
  destruct (copy_map_entries (copy_value (deepCopyMap (S (heap_cells h))) (deepCopySlice (S (heap_cells h)))) (S (heap_cells h)) h m h)
    as (kvs & h1 & E & Hx & Hs); [|done|].
  - intros k v h1 Hk Hx. destruct (readback_entries_all _ _ _ _ _ Hn Hk) as [tv Htv]. by eapply copy_value_same.
  - exists kvs, h1. split; [done|]. do 3 wp_step. eexists _, _, h1. split; [done|]. split; [done|]. split; [done|].
    split; [apply fresh_map_None|]. intros h'' Hag. destruct (Hs h'' Hag) as [H1 H2]. split.
    + intros k v' Hk. destruct (H1 k v' Hk) as (v & Hv & Hsame). exists v. split; [done|by eexists].
    + intros k v Hk. destruct (H2 k v Hk) as (v' & Hv & Hsame). exists v'. split; [done|by eexists].
Qed.

(** A value that could be read before is compared as it was. *)
Lemma same_base n : ∀ h0 h v t h'' v', extends h0 h → reads h0 v t → same n h v h'' v' → same n h0 v h'' v'.
Proof.
  induction n as [|n IH]; intros h0 h v t h'' v' Hx Hr Hs; [done|].
  destruct v as [| | | | | | | | |[s|]|[l|]| |]; cbn [same] in *; try done.
  - destruct Hs as (s' & -> & HF). exists s'. split; [done|].
    assert (He : elems h (Some s) = elems h0 (Some s)).
    { apply elems_extends; [done|]. destruct Hr as [[|k] Hk]; [done|]. cbn [readback] in Hk. apply bind_Some in Hk as (c & Hc & _). eauto. }
    rewrite He in HF. eapply Forall2_impl_elem; [exact HF|]. intros x y Hin Hxy.
    destruct (reads_elem _ _ _ _ Hr Hin) as [tx Htx]. by eapply IH.
  - destruct Hs as (m & l' & m' & Hm & -> & Hm' & He). destruct (reads_here _ _ _ Hr) as [m0 Hm0].
    pose proof (lookup_weaken _ _ _ _ Hm0 (proj1 Hx)) as Hm1. assert (m = m0) as -> by congruence.
    exists m0, l', m'. split; [done|]. split; [done|]. split; [done|]. destruct He as [H1 H2]. split.
    + intros k x' Hk. destruct (H1 k x' Hk) as (x & Hkx & Hxx). exists x. split; [done|].
      destruct (reads_entry _ _ _ _ _ _ Hr Hm0 Hkx) as [tx Htx]. by eapply IH.
    + intros k x Hk. destruct (H2 k x Hk) as (x' & Hkx & Hxx). exists x'. split; [done|].
      destruct (reads_entry _ _ _ _ _ _ Hr Hm0 Hk) as [tx Htx]. by eapply IH.
Qed.

(** The entries of the copy of a map of [h0], in every later heap that keeps what the copy made. *)
Lemma wp_copy_of h0 h l m t : extends h0 h → reads h0 (AMap (Some l)) t → h_maps h0 !! l = Some m →
  wp (deep_copy_map (Some l)) (λ r h', ∃ l' m' h1, r = Some l' ∧ h' = set_map l' m' h1 ∧ extends h h1 ∧ h_maps h1 !! l' = None
    ∧ ∀ h'', agree_new h h1 h'' → entries_by (λ _ x x', deep_equal h0 x h'' x') m m') h.
Proof.
  intros Hx Hr Hm. eapply wp_mono; [eapply wp_deep_copy_map; [by eapply reads_extends|by eapply lookup_weaken, Hx]|].
  intros r h' (l' & m' & h1 & -> & -> & Hx1 & Hl' & He). exists l', m', h1. repeat (split; [done|]). intros h'' Hag.
  destruct (He h'' Hag) as [H1 H2]. split.
  - intros k x' Hk. destruct (H1 k x' Hk) as (x & Hkx & n & Hxx). exists x. split; [done|].
    destruct (reads_entry _ _ _ _ _ _ Hr Hm Hkx) as [tx Htx]. exists n. by eapply same_base.
  - intros k x Hk. destruct (H2 k x Hk) as (x' & Hkx & n & Hxx). exists x'. split; [done|].
    destruct (reads_entry _ _ _ _ _ _ Hr Hm Hk) as [tx Htx]. exists n. by eapply same_base.
Qed.

(** *** The keys that are emptied *)

Record emptied (h0 : heap) (m : gmap string any) (out : loc) (ks : list string) (h : heap) : Prop := {
  em_base : extends h0 h;
  em_new : h_maps h0 !! out = None;
  em_map : ∃ m1, h_maps h !! out = Some m1 ∧ (∀ k, k ∈ ks → ∃ s, m1 !! k = Some (AList (Some s)) ∧ s_len s = 0)
    ∧ ∀ k, k ∉ ks → m1 !! k = m !! k;
}.
Lemma wp_put_empty h0 m out ks k h : emptied h0 m out ks h →
  wp (put_empty_list (Some out) k) (λ _ h', emptied h0 m out (k :: ks) h' ∧ ∀ l, l ≠ out → h_maps h' !! l = h_maps h !! l) h.
Proof.
  intros [Hb Hn (m1 & Hm1 & Hin & Hout)]. unfold put_empty_list, new_slice. wp_step. apply wp_new_slice_cap. wp_step.
  set (h2 := set_arr _ _ h). split; [split|].
  - apply base_put; [done|]. etrans; [exact Hb|]. apply extends_new_arr.
  - done.
  - unfold map_at. change (h_maps h2) with (h_maps h). rewrite Hm1. eexists. split; [apply maps_set|]. split.
    + intros k' Hk'. destruct (decide (k = k')) as [<-|Hne]; [rewrite lookup_insert_eq; by eexists|].
      rewrite lookup_insert_ne by done. apply elem_of_cons in Hk' as [|]; [done|auto].
    + intros k' [Hne Hk']%not_elem_of_cons. rewrite lookup_insert_ne by done. auto.
  - intros l Hl. by rewrite maps_set_ne.
Qed.

(** *** The loops over the globals *)

(** Every object but the map [g] is kept. *)
Definition evolves (g : loc) (h h' : heap) : Prop :=
  (∀ l x, l ≠ g → h_maps h !! l = Some x → h_maps h' !! l = Some x) ∧ h_arrs h ⊆ h_arrs h'.
#[local] Instance evolves_preorder g : PreOrder (evolves g).
Proof.
  split; [by intros h; split|]. intros h1 h2 h3 [M1 A1] [M2 A2]. split; [|by etrans]. intros l x Hl Hx. eauto.
Qed.
Lemma extends_evolves g h h' : extends h h' → evolves g h h'.
Proof. intros [HM HA]. split; [|done]. intros l x _ Hl. by eapply lookup_weaken. Qed.
Lemma put_evolves g k v h : evolves g h (put_at g k v h).
Proof. split; [|done]. intros l x Hl Hx. unfold put_at. by rewrite maps_set_ne. Qed.

Lemma evolves_base h0 g h h' : extends h0 h → evolves g h h' → h_maps h0 !! g = None → extends h0 h'.
Proof.
  intros [HM HA] [EM EA] Hg. split; [|by etrans]. apply map_subseteq_spec. intros l x Hx.
  apply EM; [congruence|]. by eapply lookup_weaken.
Qed.

Lemma wp_set_keys g (f : string → mem any) (Z : string → any → heap → Prop) keys h m :
  NoDup keys → h_maps h !! g = Some m → (∀ k v h1 h2, evolves g h1 h2 → Z k v h1 → Z k v h2) →
  (∀ k h1, k ∈ keys → evolves g h h1 → is_Some (h_maps h1 !! g) → get_key h1 (Some g) k = default ANil (m !! k) →
     wp (f k) (λ v h2, extends h1 h2 ∧ Z k v h2) h1) →
  wp (for_each (λ k, v ⇐ f k; put_key (Some g) k v) keys) (λ _ h', evolves g h h' ∧ ∃ m', h_maps h' !! g = Some m'
    ∧ (∀ k, k ∈ keys → ∃ v, m' !! k = Some v ∧ Z k v h') ∧ ∀ k, k ∉ keys → m' !! k = m !! k) h.
Proof.
  intros Hnd Hm HZ Hf. unfold for_each.
  apply (wp_mfold _ (λ p _ h', evolves g h h' ∧ ∃ m', h_maps h' !! g = Some m'
    ∧ (∀ k, k ∈ p → ∃ v, m' !! k = Some v ∧ Z k v h') ∧ ∀ k, k ∉ p → m' !! k = m !! k)).
  2:{ split; [done|]. exists m. split; [done|]. split; [|done]. by intros k ?%not_elem_of_nil. }
  intros p x q _ h1 Hkeys (Hev & m1 & Hm1 & Hp & Hnp). subst keys.
  assert (Hx : x ∉ p). { intros Hin. apply NoDup_app in Hnd as (_ & Hd & _). apply (Hd x Hin). by left. }
  wp_step. eapply wp_mono.
  { apply (Hf x h1); [apply elem_of_app; right; by left|done|eauto|]. unfold get_key. by rewrite (map_at_Some _ _ _ Hm1), Hnp. }
  intros v h2 [Hx2 Hz]. cbv beta. wp_step. pose proof (lookup_weaken _ _ _ _ Hm1 (proj1 Hx2)) as Hm2.
  assert (Hev2 : evolves g h2 (put_at g x v h2)) by apply put_evolves.
  assert (Hev1 : evolves g h1 (put_at g x v h2)) by (etrans; [by apply extends_evolves|done]).
  split; [by etrans|]. exists (<[x := v]> m1). split; [rewrite (map_at_Some _ _ _ Hm2); apply maps_set|]. split.
  - intros k [Hk|Hk%list_elem_of_singleton]%elem_of_app.
    + destruct (decide (x = k)) as [<-|Hne]; [done|]. rewrite lookup_insert_ne by done. destruct (Hp k Hk) as (w & Hw & Hzw). eauto.
    + subst k. rewrite lookup_insert_eq. eauto.
  - intros k [Hk Hne]%not_elem_of_app. rewrite lookup_insert_ne by set_solver. auto.
Qed.

(** The zero of a value, of a declared type, and the default of a variable. *)
Definition new_list (v : any) : Prop := ∃ s, v = AList (Some s) ∧ s_len s = 0.
Definition new_object (g : loc) (v : any) (h : heap) : Prop := ∃ l, v = AMap (Some l) ∧ l ≠ g ∧ h_maps h !! l = Some ∅.
Definition zero_value (g : loc) (v v' : any) (h : heap) : Prop :=
  match v with
  | AStr _ => v' = AStr ""
  | ABool _ => v' = ABool false
  | AInt _ => v' = AInt 0
  | AInt32 _ => v' = AInt32 0
  | AInt64 _ => v' = AInt64 0
  | AFloat32 _ => v' = AFloat32 (f64_of_int 0)
  | AFloat _ => v' = AFloat (f64_of_int 0)
  | AList _ => new_list v'
  | AMap _ => new_object g v' h
  | _ => v' = ANil
  end.
Definition type_zero (g : loc) (type : string) (v' : any) (h : heap) : Prop :=
  if decide (type = "number") then v' = AInt 0
  else if decide (type = "boolean") then v' = ABool false
  else if decide (type = "object") then new_object g v' h
  else if has_prefix type "array" then new_list v'
  else v' = AStr "".
(** [vars] are the declared variables in [h0]. *)
Definition env_value (h0 : heap) (vars : option loc) (g : loc) (name : string) (v' : any) (h : heap) : Prop :=
  match get_key h0 vars name with
  | AMap d =>
      let value := get_key h0 d "value" in
      if is_nil value then type_zero g (str_of (get_key h0 d "type")) v' h else deep_equal h0 value h v'
  | _ => v' = AStr ""
  end.

Lemma new_object_evolves g v h h' : evolves g h h' → new_object g v h → new_object g v h'.
Proof. intros Hev (l & -> & Hl & Hm). exists l. split; [done|]. split; [done|]. by apply Hev. Qed.
Lemma zero_value_evolves g v v' h h' : evolves g h h' → zero_value g v v' h → zero_value g v v' h'.
Proof. intros Hev. destruct v; try done. by apply new_object_evolves. Qed.
Lemma type_zero_evolves g ty v' h h' : evolves g h h' → type_zero g ty v' h → type_zero g ty v' h'.
Proof. intros Hev. unfold type_zero. repeat case_decide; try done. by apply new_object_evolves. Qed.

Lemma wp_new_object g h : is_Some (h_maps h !! g) →
  wp (l ⇐ new_map ∅; mret' (AMap (Some l))) (λ v h', extends h h' ∧ new_object g v h') h.
Proof.
  intros [m Hm]. do 3 wp_step. split; [apply extends_new_map|]. eexists. split; [done|]. split; [|apply maps_set].
  intros E. pose proof (fresh_map_None h) as Hf. rewrite E in Hf. congruence.
Qed.
Lemma wp_new_list h : wp (s ⇐ new_slice []; mret' (AList s)) (λ v h', extends h h' ∧ new_list v) h.
Proof. wp_step. apply wp_new_slice_cap. wp_step. split; [apply extends_new_arr|]. by eexists. Qed.
Lemma wp_zeroByType g v h : is_Some (h_maps h !! g) → wp (zeroByType v) (λ v' h', extends h h' ∧ zero_value g v v' h') h.
Proof. intros Hg. destruct v; cbn [zeroByType zero_value]; try (by wp_step); [apply wp_new_list|by apply wp_new_object]. Qed.
Lemma wp_zeroByVariableType g d h ty : is_Some (h_maps h !! g) → str_of (get_key h d "type") = ty →
  wp (zeroByVariableType d) (λ v' h', extends h h' ∧ type_zero g ty v' h') h.
Proof.
  intros Hg <-. unfold zeroByVariableType, type_zero. do 2 wp_step. repeat case_decide; try (by wp_step); [by apply wp_new_object|].
  case_match; [apply wp_new_list|by wp_step].
Qed.

(** *** Reading a copy *)

Lemma deep_equal_leaf h v h' v' : deep_equal h v h' v' → is_nil v' = is_nil v ∧ str_of v' = str_of v.
Proof.
  intros [[|n] Hs]; [done|]. destruct v as [| | | | | | | | |[s|]|[l|]| |]; cbn [same] in Hs; try (by subst v').
  - by destruct Hs as (s' & -> & _).
  - by destruct Hs as (m & l' & m' & _ & -> & _).
Qed.
Lemma deep_equal_map h v h' x : deep_equal h v h' (AMap x) → ∃ y, v = AMap y.
Proof.
  intros [[|n] Hs]; [done|]. destruct v as [| | | | | | | | |[s|]|[l|]| |]; cbn [same] in Hs; try done; [|by eexists..].
  by destruct Hs as (s' & ? & _).
Qed.
Lemma deep_equal_key h x h' v' : deep_equal h (AMap x) h' v' →
  ∃ y, v' = AMap y ∧ (∀ l, y = Some l → is_Some (h_maps h' !! l)) ∧ ∀ k, deep_equal h (get_key h x k) h' (get_key h' y k).
Proof.
  intros [[|n] Hs]; [done|]. destruct x as [l|]; cbn [same] in Hs.
  - destruct Hs as (m & l' & m' & Hm & -> & Hm' & [H1 H2]). exists (Some l'). split; [done|]. split; [by intros ? [= <-]; eauto|].
    intros k. unfold get_key. rewrite (map_at_Some _ _ _ Hm), (map_at_Some _ _ _ Hm').
    destruct (m !! k) as [v|] eqn:Ev; [destruct (H2 k v Ev) as (w & -> & Hw); by exists n|].
    destruct (m' !! k) as [w|] eqn:Ew; [|by exists 1]. destruct (H1 k w Ew) as (v & Hv & _). congruence.
  - subst v'. exists None. split; [done|]. split; [done|]. intros k. by exists 1.
Qed.

Lemma env_default_eq vars name h :
  env_default vars name h =
  match get_key h vars name with
  | AMap d => if is_nil (get_key h d "value") then zeroByVariableType d h else Ret (get_key h d "value", h)
  | _ => Ret (AStr "", h)
  end.
Proof.
  unfold env_default, mbind', mget. cbn [go_bind fst snd]. destruct (get_key h vars name) as [| | | | | | | | | |d| |]; try done.
  unfold get_key. by destruct (map_at h d !! "value") as [v|]; [destruct v|].
Qed.

Lemma wp_env_default h0 vars lv mv g hB hD name h1 :
  (∀ h', h' = hB ∨ evolves g hD h' → h_maps h' !! lv = Some mv ∧ entries_by (λ _ x x', deep_equal h0 x h' x') (map_at h0 vars) mv) →
  h_maps hB !! g = None → evolves g hD h1 → is_Some (h_maps h1 !! g) →
  wp (env_default (Some lv) name) (λ v h2, extends h1 h2 ∧ ∀ h', evolves g h2 h' → env_value h0 vars g name v h') h1.
Proof.
  intros HV HB Hev Hg. unfold wp. rewrite env_default_eq.
  assert (Hent : ∀ h', h' = hB ∨ evolves g hD h' → deep_equal h0 (get_key h0 vars name) h' (default ANil (mv !! name))).
  { intros h' Hh'. destruct (HV h' Hh') as (_ & H1 & H2). unfold get_key.
    destruct (map_at h0 vars !! name) as [x|] eqn:Ex; [by destruct (H2 name x Ex) as (x' & -> & Hx)|].
    destruct (mv !! name) as [x'|] eqn:Ex'; [|by exists 1]. destruct (H1 name x' Ex') as (x & Hx & _). congruence. }
  assert (Ek : get_key h1 (Some lv) name = default ANil (mv !! name)).
  { unfold get_key. by rewrite (map_at_Some _ _ _ (proj1 (HV h1 (or_intror Hev)))). }
  rewrite Ek. unfold env_value. pose proof (Hent h1 (or_intror Hev)) as Hd1.
  destruct (get_key h0 vars name) as [| | | | | | | | | |d| |] eqn:Ed.
  11:{ destruct (deep_equal_key _ _ _ _ Hd1) as (d' & Ed' & _ & Hk). rewrite Ed' in *.
    destruct (deep_equal_leaf _ _ _ _ (Hk "value")) as [En _]. destruct (deep_equal_leaf _ _ _ _ (Hk "type")) as [_ Et].
    rewrite En. destruct (is_nil (get_key h0 d "value")).
    - eapply wp_mono; [by eapply (wp_zeroByVariableType g)|]. intros v h2 [Hx Hz]. split; [done|]. intros h' Hev'. by eapply type_zero_evolves.
    - eexists _, _. split; [done|]. split; [done|]. intros h' Hev'. assert (Hev2 : evolves g hD h') by by etrans.
      destruct (deep_equal_key _ _ _ _ (Hent h' (or_intror Hev2))) as (d2 & [= <-] & _ & Hk'). specialize (Hk' "value").
      destruct d' as [l|]; [|done]. destruct (deep_equal_key _ _ _ _ (Hent hB (or_introl eq_refl))) as (? & [= <-] & HlB & _).
      destruct (deep_equal_key _ _ _ _ Hd1) as (? & [= <-] & Hl1 & _).
      destruct (HlB l eq_refl) as [mB HmB]. destruct (Hl1 l eq_refl) as [m1 Hm1]. assert (Hlg : l ≠ g) by congruence.
      erewrite (get_key_other h1 h') in Hk'; [done|]. rewrite Hm1. by apply Hev'. }
  all: destruct (default ANil (mv !! name)) as [| | | | | | | | | |y| |]; try (by eexists _, _); by destruct (deep_equal_map _ _ _ _ Hd1).
Qed.

(** *** The two copies of a reset *)

(** [h''] keeps everything from [h] to [h'], and then more. *)
Lemma agree_copy h h1 l m h'' : extends h h1 → h_maps h1 !! l = None → agree_new h (set_map l m h1) h'' →
  h_maps h'' !! l = Some m ∧ agree_new h h1 h''.
Proof.
  intros Hx Hl Hag. split.
  - rewrite <- (maps_set l m h1). apply Hag; [|rewrite maps_set; eauto]. eapply lookup_weaken_None; [exact Hl|apply Hx].
  - eapply agree_new_prefix; [done| |exact Hag]. split; [|done]. by apply insert_subseteq.
Qed.

Lemma reads_empty h l : h_maps h !! l = Some ∅ → reads h (AMap (Some l)) (TMap []).
Proof. intros Hl. exists 1. cbn [readback readback_map]. by rewrite Hl. Qed.

(** The copy of the declared variables. *)
Lemma wp_copy_vars h0 h vars t : extends h0 h → (∀ v, vars = Some v → reads h0 (AMap (Some v)) t) →
  wp (vars ⇐ ensure_map vars; deep_copy_map vars) (λ r hB, ∃ lv mv, r = Some lv ∧ extends h hB ∧
    ∀ h'', agree_new h hB h'' → h_maps h'' !! lv = Some mv ∧ entries_by (λ _ x x', deep_equal h0 x h'' x') (map_at h0 vars) mv) h.
Proof.
  intros Hx Hv. wp_step. destruct vars as [v|]; cbn [ensure_map]; do 2 (try wp_step).
  - specialize (Hv v eq_refl). destruct (reads_here _ _ _ Hv) as [m Hm]. eapply wp_mono; [by eapply (wp_copy_of h0 h)|].
    intros r h' (l' & m' & h1 & -> & -> & Hx1 & Hl' & He). exists l', m'. split; [done|]. split.
    { etrans; [exact Hx1|]. split; [|done]. by apply insert_subseteq. }
    intros h'' Hag. destruct (agree_copy _ _ _ _ _ Hx1 Hl' Hag) as [Hm' Hag1]. split; [done|]. rewrite (map_at_Some _ _ _ Hm). auto.
  - wp_step. set (h1 := set_map _ _ h). assert (Hx1 : extends h h1) by apply extends_new_map.
    assert (Hm : h_maps h1 !! fresh_map h = Some ∅) by apply maps_set.
    eapply wp_mono; [eapply (wp_copy_of h1 h1); [done|by apply reads_empty|done]|].
    intros r h' (l' & m' & h2 & -> & -> & Hx2 & Hl' & He). exists l', m'. assert (Hx12 : extends h h2) by by etrans.
    split; [done|]. split; [etrans; [exact Hx12|]; split; [|done]; by apply insert_subseteq|].
    intros h'' Hag. destruct (agree_copy _ _ _ _ _ Hx12 Hl' Hag) as [Hm' Hag1]. split; [done|].
    destruct (He h'') as [H1 _]; [by eapply (agree_new_mid h h1 h2 h2)|]. split; [|done].
    intros k x' Hk. destruct (H1 k x' Hk) as (x & Hx' & _). done.
Qed.

Lemma zero_value_deep g h x h' x' v h2 : deep_equal h x h' x' → zero_value g x' v h2 → zero_value g x v h2.
Proof.
  intros [[|n] Hs]; [done|]. destruct x as [| | | | | | | | |[s|]|[l|]| |]; cbn [same] in Hs; try (by subst x').
  - by destruct Hs as (s' & -> & _).
  - by destruct Hs as (m & l' & m' & _ & -> & _).
Qed.

Lemma namespaces_differ k : in_namespace "sys." k = true → in_namespace "env." k = true → False.
Proof.
  unfold in_namespace, has_prefix. intros [_ H1]%andb_prop [_ H2]%andb_prop. destruct k as [|c k]; [done|].
  cbn [String.prefix] in H1, H2. destruct (Ascii.ascii_dec _ c) as [<-|] in H1; [discriminate H2|done].
Qed.

(** What a reset leaves under a key of the globals. *)
Definition reset_value (h0 : heap) (vars : option loc) (g : loc) (k : string) (v v' : any) (h : heap) : Prop :=
  if in_namespace "sys." k then zero_value g v v' h
  else if in_namespace "env." k then env_value h0 vars g (drop_prefix "env." k) v' h
  else deep_equal h0 v h v'.

Lemma wp_reset_loops h0 vars lv mv g hB hD m0 m1 :
  (∀ h', h' = hB ∨ evolves g hD h' → h_maps h' !! lv = Some mv ∧ entries_by (λ _ x x', deep_equal h0 x h' x') (map_at h0 vars) mv) →
  h_maps hB !! g = None → h_maps hD !! g = Some m1 →
  (∀ h', evolves g hD h' → entries_by (λ _ x x', deep_equal h0 x h' x') m0 m1) →
  wp (_ ⇐ for_each (λ k, z ⇐ (h ⇐ mget; zeroByType (get_key h (Some g) k)); put_key (Some g) k z)
            (filter (λ k, in_namespace "sys." k) (range m1).*1);
      for_each (λ k, v ⇐ env_default (Some lv) (drop_prefix "env." k); put_key (Some g) k v)
            (filter (λ k, in_namespace "env." k) (range m1).*1))
    (λ _ h', evolves g hD h' ∧ ∃ m2, h_maps h' !! g = Some m2 ∧ entries_by (λ k v v', reset_value h0 vars g k v v' h') m0 m2) hD.
Proof.
  intros HV HB Hg Hm. wp_step. eapply wp_mono.
  { apply (wp_set_keys g _ (λ k v h, zero_value g (default ANil (m1 !! k)) v h) _ hD m1); [apply NoDup_filter, range_NoDup|done| |].
    - intros. by eapply zero_value_evolves.
    - intros k h1 _ _ Hg1 Hk. do 2 wp_step. rewrite Hk. by apply wp_zeroByType. }
  intros _ h1 (Hev1 & m2 & Hm2 & Hsys & Hoth). cbv beta. eapply wp_mono.
  { apply (wp_set_keys g _ (λ k v h, ∀ h', evolves g h h' → env_value h0 vars g (drop_prefix "env." k) v h') _ h1 m2);
      [apply NoDup_filter, range_NoDup|done| |].
    - intros k v h2 h3 Hev HZ h' Hev'. apply HZ. by etrans.
    - intros k h2 _ Hev Hg2 _. eapply wp_env_default; [exact HV|done|by etrans|done]. }
  intros _ h2 (Hev2 & m3 & Hm3 & Henv & Hoth2). assert (Hev : evolves g hD h2) by by etrans. split; [done|]. exists m3. split; [done|].
  destruct (Hm h2 Hev) as [E1 E2].
  assert (Hkey : ∀ ns k, k ∈ filter (λ k, in_namespace ns k) (range m1).*1 ↔ in_namespace ns k = true ∧ is_Some (m1 !! k)).
  { intros ns k. rewrite list_elem_of_filter, elem_of_range_keys. by rewrite Is_true_true. }
  assert (Hall : ∀ k x x', m0 !! k = Some x → m1 !! k = Some x' → deep_equal h0 x h2 x' →
    ∃ v, m3 !! k = Some v ∧ reset_value h0 vars g k x v h2).
  { intros k x x' Hx Hx' Hd. unfold reset_value. destruct (in_namespace "sys." k) eqn:Es; [|destruct (in_namespace "env." k) eqn:Ee].
    - rewrite Hoth2 by (rewrite Hkey; intros [? _]; by eapply namespaces_differ).
      destruct (Hsys k) as (v & Hv & Hz); [apply Hkey; eauto|]. exists v. split; [done|]. rewrite Hx' in Hz.
      eapply zero_value_deep; [exact Hd|]. simpl in Hz. eapply zero_value_evolves; [exact Hev2|exact Hz].
    - destruct (Henv k) as (v & Hv & Hz); [apply Hkey; eauto|]. exists v. split; [done|]. by apply Hz.
    - exists x'. rewrite Hoth2, Hoth by (rewrite Hkey; intros [? _]; congruence). done. }
  split.
  - intros k v' Hv'. assert (Hk1 : is_Some (m1 !! k)).
    { destruct (decide (k ∈ filter (λ k, in_namespace "env." k) (range m1).*1)) as [Hin|Hin]; [by apply Hkey in Hin as [_ ?]|].
      rewrite Hoth2 in Hv' by done.
      destruct (decide (k ∈ filter (λ k, in_namespace "sys." k) (range m1).*1)) as [Hin'|Hin']; [by apply Hkey in Hin' as [_ ?]|].
      rewrite Hoth in Hv' by done. eauto. }
    destruct Hk1 as [x' Hx']. destruct (E1 k x' Hx') as (x & Hx & Hd). exists x. split; [done|].
    destruct (Hall k x x' Hx Hx' Hd) as (v & Hv & Hr). congruence.
  - intros k x Hx. destruct (E2 k x Hx) as (x' & Hx' & Hd). eauto.
Qed.

(** *** The reset *)

Definition emptied_keys : list string := ["path"; "memory"; "retrieval"; "history"].

Lemma copied_globals_kept (hA hB hC h' : heap) g m out v :
  is_Some (h_maps hA !! out) → extends hA hB → extends hB hC → h_maps hC !! g = None →
  evolves g (put_at out "globals" v (set_map g m hC)) h' → agree_new hA hB h' ∧ agree_new hB hC h'.
Proof.
  intros [mo Ho] HAB HBC Hg [HM HA].
  assert (Hkept : ∀ h l x, h_maps h !! l = None → is_Some (h_maps h !! out) → h_maps hC !! l = Some x → h_maps h' !! l = Some x).
  { intros h l x Hl [? Hout] Hx. assert (l ≠ g) by congruence. assert (out ≠ l) by congruence. apply HM; [done|].
    unfold put_at. rewrite maps_set_ne by done. by rewrite maps_set_ne. }
  assert (HoB : is_Some (h_maps hB !! out)) by (eexists; by eapply lookup_weaken, HAB).
  split; split; intros l Hl [x Hx]; rewrite Hx.
  - eapply Hkept; [exact Hl|eauto|by eapply lookup_weaken, HBC].
  - eapply lookup_weaken; [|exact HA]. simpl. by eapply lookup_weaken, HBC.
  - by eapply Hkept.
  - by eapply lookup_weaken; [|exact HA].
Qed.

Lemma wp_reset l m t h0 : reads h0 (AMap (Some l)) t → h_maps h0 !! l = Some m →
  wp (ResetForCanvas (Some l)) (λ r h', ∃ out m', r = Some out ∧ extends h0 h' ∧ h_maps h' !! out = Some m'
    ∧ (∀ k, k ∈ emptied_keys → ∃ v, m' !! k = Some v ∧ new_list v)
    ∧ (∀ k, k ∉ "globals" :: emptied_keys → m' !! k = m !! k)
    ∧ match non_nil_map (get_key h0 (Some l) "globals") with
      | None => m' !! "globals" = m !! "globals"
      | Some g => ∃ g' m2, m' !! "globals" = Some (AMap (Some g')) ∧ h_maps h' !! g' = Some m2 ∧
          entries_by (λ k v v', reset_value h0 (non_nil_map (get_key h0 (Some l) "variables")) g' k v v' h') (map_at h0 (Some g)) m2
      end) h0.
Proof.
  intros Hr Hm. unfold ResetForCanvas, copyMapStringAny, copy_map. do 6 wp_step. rewrite (map_at_Some _ _ _ Hm).
  set (out := fresh_map h0). assert (Hem : emptied h0 m out [] (set_map out m h0)).
  { split; [apply extends_new_map|apply fresh_map_None|]. exists m. split; [apply maps_set|]. split; [by intros k ?%not_elem_of_nil|done]. }
  do 4 (wp_step; eapply wp_mono; [by apply wp_put_empty|]; clear Hem; intros _ ? [Hem _]; cbv beta).
  match goal with Hem : emptied _ _ _ _ ?h |- _ => set (hA := h) in * end. do 2 wp_step.
  destruct (em_map _ _ _ _ _ Hem) as (m1 & Hm1 & Hin & Hout). pose proof (em_base _ _ _ _ _ Hem) as H0A.
  assert (Hkey : ∀ k, k ∉ emptied_keys → get_key hA (Some out) k = get_key h0 (Some l) k).
  { intros k Hk. unfold get_key. rewrite (map_at_Some _ _ _ Hm1), (map_at_Some _ _ _ Hm). by rewrite Hout. }
  rewrite Hkey by by_table. set (vars := non_nil_map (get_key h0 (Some l) "variables")).
  assert (Hpart : ∀ k v, non_nil_map (get_key h0 (Some l) k) = Some v → ∃ tv, reads h0 (AMap (Some v)) tv).
  { intros k v Hv%non_nil_map_Some. apply (get_key_entry _ _ _ _ _ Hm) in Hv; [|done]. by eapply reads_entry. }
  assert (Hvars : ∃ tv, ∀ v, vars = Some v → reads h0 (AMap (Some v)) tv).
  { destruct vars as [v|] eqn:Ev; [|by exists (TMap [])]. destruct (Hpart "variables" v Ev) as [tv Htv]. exists tv. by intros ? [= <-]. }
  destruct Hvars as [tv Htv]. wp_step. eapply wp_mono; [eapply wp_bind_inv, wp_copy_vars; [exact H0A|exact Htv]|].
  intros vars' h1 Hv. cbv beta in Hv |- *. wp_step. eapply wp_mono; [exact Hv|]. clear Hv h1 vars'.
  intros r hB (lv & mv & -> & HAB & HV). cbv beta. do 2 wp_step.
  pose proof (lookup_weaken _ _ _ _ Hm1 (proj1 HAB)) as HmB. assert (H0B : extends h0 hB) by by etrans.
  rewrite (get_key_extends hA hB), Hkey by (done || eauto || by_table).
  destruct (non_nil_map (get_key h0 (Some l) "globals")) as [g|] eqn:Eg.
  - destruct (Hpart "globals" g Eg) as [tg Htg]. destruct (reads_here _ _ _ Htg) as [mg Hmg].
    wp_step. eapply wp_mono; [by eapply (wp_copy_of h0 hB)|]. intros r h1 (g' & mg' & hC & -> & -> & HBC & Hg' & He). cbv beta.
    assert (Hog : out ≠ g').
    { intros E. pose proof (lookup_weaken _ _ _ _ HmB (proj1 HBC)) as Hc. congruence. }
    do 4 wp_step. set (hD := set_map out _ (set_map g' mg' hC)).
    assert (HgD : h_maps hD !! g' = Some mg') by (unfold hD; rewrite maps_set_ne by done; apply maps_set).
    rewrite (map_at_Some _ _ _ HgD). cbv zeta.
    assert (Hkept : ∀ hE, evolves g' hD hE → agree_new hA hB hE ∧ agree_new hB hC hE).
    { intros hE. eapply copied_globals_kept; [eauto|done|done|done]. }
    assert (HBC' : h_maps hB !! g' = None) by (eapply lookup_weaken_None; [exact Hg'|apply HBC]).
    wp_step. eapply wp_mono; [eapply wp_bind_inv, (wp_reset_loops h0 vars lv mv g' hB hD mg mg')|].
    + intros hE [-> |Hev]; apply HV; [|by apply Hkept]. by split; intros ? _ [? ->].
    + done.
    + done.
    + intros hE Hev. apply He. by apply Hkept.
    + intros [] h1 Hw. cbv beta in Hw |- *. wp_step. eapply wp_mono; [exact Hw|]. clear Hw.
      intros _ hE (Hev & m2 & Hm2 & Hent). cbv beta. wp_step.
      exists out, (<["globals" := AMap (Some g')]> m1). split; [done|].
      assert (HoD : h_maps hD !! out = Some (<["globals" := AMap (Some g')]> m1)).
      { unfold hD. rewrite maps_set, map_at_set_ne by done. by rewrite (map_at_Some _ _ _ (lookup_weaken _ _ _ _ HmB (proj1 HBC))). }
      split; [|split; [by apply Hev|split; [|split]]].
      * eapply evolves_base; [|exact Hev|by eapply lookup_weaken_None; [|apply H0B]]. apply base_put; [apply Hem|].
        transitivity hC; [by transitivity hB|]. split; [|done]. by apply insert_subseteq.
      * intros k Hk. rewrite lookup_insert_ne by (intros <-; revert Hk; by_table).
        destruct (Hin k Hk) as (s & Hs & Hlen). eexists. split; [done|]. by exists s.
      * intros k [Hne Hk]%not_elem_of_cons. rewrite lookup_insert_ne by done. by apply Hout.
      * exists g', m2. split; [apply lookup_insert_eq|]. split; [done|]. by rewrite (map_at_Some _ _ _ Hmg).
  - wp_step. exists out, m1. split; [done|]. split; [done|]. split; [done|]. split; [|split].
    + intros k Hk. destruct (Hin k Hk) as (s & Hs & Hlen). eexists. split; [done|]. by exists s.
    + intros k [_ Hk]%not_elem_of_cons. by apply Hout.
    + apply Hout. by_table.
Qed.
End reset.

(** C22: the canvas that goes to the front end.  For every stored DSL without cycles
    [NormalizeForCanvas] returns one in which the handles of the edges are those the
    front end draws, and no node or component has the runtime's kind Parallel; when
    the DSL has a component it has a graph with nodes; and no object of the caller
    has changed. *)
Theorem canvas_normal_form `{GoLib} `{MapOrder} h l t :
  reads h (AMap (Some l)) t →
  ∃ out h', NormalizeForCanvas (Some l) h = Ret (Some out, h') ∧ extends h h' ∧ front_end h' out
    ∧ ∀ c k m, get_key h (Some l) "components" = AMap (Some c) → get_key h (Some c) k = AMap m →
        graphHasNodes h' (Some out) = true.
Proof.
  intros Hl. destruct (wp_normalize_canvas h l t Hl) as (r & h' & E & out & -> & Hx & Hf & Hg). by exists out, h'.
Qed.

(** C23: a reset.  For every stored DSL without cycles [ResetForCanvas] returns one with
    an empty history, retrieval, memory and path; every variable of the system is the
    zero of its type, every variable of the environment has its declared value or the
    zero of its declared type, the other globals are equal to what they were, as is
    everything else; and no object of the caller has changed. *)
Theorem reset_restores `{GoLib} `{MapOrder} h l m t :
  reads h (AMap (Some l)) t → h_maps h !! l = Some m →
  ∃ out h' m', ResetForCanvas (Some l) h = Ret (Some out, h') ∧ extends h h' ∧ h_maps h' !! out = Some m'
    ∧ (∀ k, k ∈ emptied_keys → ∃ v, m' !! k = Some v ∧ new_list v)
    ∧ (∀ k, k ∉ "globals" :: emptied_keys → m' !! k = m !! k)
    ∧ match non_nil_map (get_key h (Some l) "globals") with
      | None => m' !! "globals" = m !! "globals"
      | Some g => ∃ g' m2, m' !! "globals" = Some (AMap (Some g')) ∧ h_maps h' !! g' = Some m2 ∧
          entries_by (λ k v v', reset_value h (non_nil_map (get_key h (Some l) "variables")) g' k v v' h') (map_at h (Some g)) m2
      end.
Proof.
  intros Hl Hm. destruct (wp_reset l m t h Hl Hm) as (r & h' & E & out & m' & -> & HR). by exists out, h', m'.
Qed.

(** ** Folding of old loops *)

Lemma add_unseen_spec names : ∀ out, NoDup out → "" ∉ out →
  NoDup (add_unseen out names) ∧ ∀ s, s ∈ add_unseen out names ↔ s ∈ out ∨ (s ∈ names ∧ s ≠ "").
Proof.
  unfold add_unseen. induction names as [|n names IH]; intros out Hnd He; simpl; [set_solver|].
  case_decide as Hd.
  - destruct (IH out Hnd He) as [H1 H2]. split; [done|]. intros s. rewrite H2, elem_of_cons. set_solver.
  - apply Decidable.not_or in Hd as [Hn Hin]. destruct (IH (out ++ [n])) as [H1 H2].
    + apply NoDup_app. split; [done|]. split; [set_solver|apply NoDup_singleton].
    + set_solver.
    + split; [done|]. intros s. rewrite H2, elem_of_app, list_elem_of_singleton, elem_of_cons. naive_solver.
Qed.

(** The edges of a loop whose first child is folded into it: those of both, each
    once, without the edge to the child.  Every occurrence of the child goes. *)
Lemma merged_downstream parent child id :
  id ≠ "" → "" ∉ parent → "" ∉ child →
  (∀ s, s ∈ removeFromSlice (mergeDownstream parent child) id ↔ (s ∈ parent ∨ s ∈ child) ∧ s ≠ id)
  ∧ (child ≠ [] → NoDup (removeFromSlice (mergeDownstream parent child) id)).
Proof.
  intros Hid Hp Hc. unfold removeFromSlice. rewrite decide_False by done. destruct child as [|c child].
  - simpl. split; [|done]. intros s. rewrite list_elem_of_filter. set_solver.
  - unfold mergeDownstream. destruct (add_unseen_spec parent []) as [N1 E1]; [constructor|set_solver|].
    destruct (add_unseen_spec (c :: child) (add_unseen [] parent)) as [N2 E2]; [done|rewrite E1; set_solver|].
    split; [|by intros _; apply NoDup_filter]. intros s. rewrite list_elem_of_filter, E2, E1.
    assert (Hs : s ∈ parent ∨ s ∈ c :: child → s ≠ "") by (intros [?|?] ->; done). set_solver.
Qed.

(** ** Concrete DSLs *)

(** A Begin whose edge is written in [obj] only, and a leaked Parallel. *)
Definition demo_dsl : heap := Heap
  {[1%positive := {["components" := AMap (Some 2%positive); "globals" := AMap (Some 7%positive); "variables" := AMap (Some 8%positive)]};
    2%positive := {["begin" := AMap (Some 3%positive); "p" := AMap (Some 5%positive)]};
    3%positive := {["obj" := AMap (Some 4%positive)]};
    4%positive := {["component_name" := AStr "Begin"; "downstream" := AList (Some (Slice 1 0 1 1))]};
    5%positive := {["obj" := AMap (Some 6%positive)]};
    6%positive := {["component_name" := AStr "Parallel"]};
    7%positive := {["sys.query" := AStr "hi"; "env.n" := AInt 3; "env.text" := AStr "old"; "note" := AStr "IterationItem:a@item"]};
    8%positive := {["n" := AMap (Some 9%positive)]};
    9%positive := {["type" := AStr "number"]}]}
  {[1%positive := [AStr "p"]]}.

Lemma canvas_normal_form_witness :
  ∃ out h', @NormalizeForCanvas order_fwd (Some 1%positive) demo_dsl = Ret (Some out, h')
    ∧ extends demo_dsl h' ∧ front_end h' out ∧ graphHasNodes h' (Some out) = true.
Proof.
  destruct (@canvas_normal_form demo_lib order_fwd demo_dsl 1%positive
    (default (TMap []) (@readback demo_lib 8 demo_dsl (AMap (Some 1%positive)))))
    as (out & h' & E & Hx & Hf & Hg); [exists 8; vm_compute; reflexivity|].
  exists out, h'. split; [exact E|]. split; [exact Hx|]. split; [exact Hf|].
  eapply (Hg 2%positive "p"); reflexivity.
Defined.

Lemma reset_restores_witness :
  ∃ out h' m' g' m2, @ResetForCanvas order_fwd (Some 1%positive) demo_dsl = Ret (Some out, h')
    ∧ h_maps h' !! out = Some m' ∧ m' !! "globals" = Some (AMap (Some g')) ∧ h_maps h' !! g' = Some m2
    ∧ m2 !! "sys.query" = Some (AStr "") ∧ m2 !! "env.n" = Some (AInt 0) ∧ m2 !! "env.text" = Some (AStr "").
Proof.
  destruct (@reset_restores demo_lib order_fwd demo_dsl 1%positive
    {["components" := AMap (Some 2%positive); "globals" := AMap (Some 7%positive); "variables" := AMap (Some 8%positive)]}
    (default (TMap []) (@readback demo_lib 8 demo_dsl (AMap (Some 1%positive)))))
    as (out & h' & m' & E & Hx & Hm' & _ & _ & g' & m2 & Hg & Hm2 & He); [exists 8; vm_compute; reflexivity|reflexivity|].
  exists out, h', m', g', m2. split; [exact E|]. split; [exact Hm'|]. split; [exact Hg|]. split; [exact Hm2|].
  destruct He as [_ He]. split; [|split].
  - destruct (He "sys.query" (AStr "hi") eq_refl) as (v & Hv & Hz). rewrite Hv. f_equal. exact Hz.
  - destruct (He "env.n" (AInt 3) eq_refl) as (v & Hv & Hz). rewrite Hv. f_equal. exact Hz.
  - destruct (He "env.text" (AStr "old") eq_refl) as (v & Hv & Hz). rewrite Hv. f_equal. exact Hz.
Defined.

(** For a run, the references to items are rewritten in the caller's own globals. *)
Example run_changes_input :
  match @NormalizeForRun order_fwd (Some 1%positive) demo_dsl with
  | Ret (_, h') => get_key demo_dsl (Some 7%positive) "note" = AStr "IterationItem:a@item" ∧ get_key h' (Some 7%positive) "note" = AStr "item"
  | Panic => False
  end.
Proof. vm_compute. done. Qed.

(** The edge in [obj] is drawn, and lost in the components that are run. *)
Example obj_downstream_lost :
  match @NormalizeForCanvas order_fwd (Some 1%positive) demo_dsl with
  | Ret (Some out, h') =>
      let comp h l := get_key h (non_nil_map (get_key h (Some l) "components")) "begin" in
      Downstream (decodeComponentFields demo_dsl (non_nil_map (comp demo_dsl 1%positive))) = ["p"]
      ∧ Downstream (decodeComponentFields h' (non_nil_map (comp h' out))) = []
      ∧ length (list_of h' (get_key h' (non_nil_map (get_key h' (Some out) "graph")) "edges")) = 1
  | _ => False
  end.
Proof. vm_compute. done. Qed.
