(* ===== verification/WorkflowProps.v ===== *)
(** * Loop and parallel nodes of the canvas: theorems

    Parallel nodes: what a valid snapshot is, and that a node which is interrupted
    any number of times and resumed from what it saved ends with the outputs of
    all items in order.  Loop nodes: the stream of a loop agrees with its plain
    call, and ends within the limit of iterations. *)

From S2P Require Import Prelude GoValue Workflow.
From stdpp Require Import pretty list_numbers.

Open Scope go_scope.

(** ** Snapshots of parallel nodes *)

Lemma cover_Some what total l c c' :
  cover what total l c = inr c' ↔
  c' = list_to_set l ∪ c ∧ NoDup l ∧ (∀ i, i ∈ l → i ∉ c ∧ 0 ≤ i < total)%Z.
Proof.
  revert c. induction l as [|i l IH]; intros c; cbn [cover].
  - split; [intros [= ->]|intros (-> & _)]; [split_and!; [set_solver|constructor|set_solver]|f_equal; set_solver].
  - rewrite NoDup_cons. destruct (decide (i < 0 ∨ total ≤ i)%Z) as [Hr|Hr].
    { split; [done|]. intros (_ & _ & Hi). specialize (Hi i ltac:(left)). lia. }
    destruct (decide (i ∈ c)) as [Hc|Hc].
    { split; [done|]. intros (_ & _ & Hi). by destruct (Hi i ltac:(left)). }
    rewrite IH. split.
    + intros (-> & Hn & Hl). split_and!; [set_solver| |done|].
      * intros Hi. destruct (Hl _ Hi). set_solver.
      * intros j [->|Hj]%elem_of_cons; [split; [done|lia]|]. destruct (Hl _ Hj). set_solver.
    + intros (-> & [Hi Hn] & Hl). split_and!; [set_solver|done|].
      intros j Hj. destruct (Hl j ltac:(by right)). set_solver.
Qed.

Lemma elem_of_keys {R} (m : gmap Z R) i : i ∈ (map_to_list m).*1 ↔ is_Some (m !! i).
Proof.
  rewrite list_elem_of_fmap. split.
  - intros ([j x] & -> & Hx%elem_of_map_to_list). eauto.
  - intros [x Hx]. exists (i, x). by rewrite elem_of_map_to_list.
Qed.

(** A snapshot passes the check exactly when the completed and the interrupted
    indices are a partition of the indices of the items. *)
Lemma snapshot_valid_iff {R} (st : ParallelInterruptState R) :
  validateParallelSnapshot st = None ↔
  (map_to_list (CompletedResults st)).*1 ++ InterruptedIndices st ≡ₚ seqZ 0 (TotalCount st).
Proof.
  unfold validateParallelSnapshot.
  set (keys := (map_to_list (CompletedResults st)).*1). set (total := TotalCount st).
  assert (Hk : NoDup keys) by apply NoDup_fst_map_to_list. split.
  - destruct (cover "completed" _ _ _) as [|c] eqn:E1; [done|]. destruct (cover "interrupted" _ _ _) as [|c'] eqn:E2; [done|].
    apply cover_Some in E1 as (-> & _ & H1). apply cover_Some in E2 as (-> & Hn & H2).
    destruct (decide (Forall _ _)) as [Hf|]; [intros _|done]. apply NoDup_Permutation; [|apply NoDup_seqZ|].
    + apply NoDup_app. split_and!; [done| |done]. intros i Hi Hi'. destruct (H2 _ Hi'). set_solver.
    + intros i. rewrite elem_of_app, elem_of_seqZ. split.
      * intros [Hi|Hi]; [destruct (H1 _ Hi)|destruct (H2 _ Hi)]; lia.
      * intros Hi. rewrite Forall_forall in Hf. specialize (Hf i). rewrite elem_of_seqZ in Hf. set_solver.
  - intros Hp. assert (Hin : ∀ i, i ∈ keys ∨ i ∈ InterruptedIndices st ↔ (0 ≤ i < total)%Z).
    { intros i. rewrite <- elem_of_app, Hp, elem_of_seqZ. lia. }
    assert (Hn : NoDup (keys ++ InterruptedIndices st)) by (rewrite Hp; apply NoDup_seqZ).
    apply NoDup_app in Hn as (_ & Hd & Hn).
    assert (E1 : cover "completed" total keys ∅ = inr (list_to_set keys ∪ ∅)).
    { apply cover_Some. split_and!; [done..|]. intros i Hi. split; [set_solver|]. apply Hin. by left. }
    rewrite E1.
    assert (E2 : cover "interrupted" total (InterruptedIndices st) (list_to_set keys ∪ ∅)
                 = inr (list_to_set (InterruptedIndices st) ∪ (list_to_set keys ∪ ∅))).
    { apply cover_Some. split_and!; [done..|]. intros i Hi. split; [set_solver|]. apply Hin. by right. }
    rewrite E2. rewrite decide_True; [done|]. apply Forall_forall. intros i Hi%elem_of_seqZ.
    assert (i ∈ keys ∨ i ∈ InterruptedIndices st) by (apply Hin; lia). set_solver.
Qed.

(** What a node saves passes the check. *)
Lemma pending_partition {R} total (completed : gmap Z R) :
  (∀ i, is_Some (completed !! i) → 0 ≤ i < total)%Z →
  (map_to_list completed).*1 ++ buildPendingIndices total completed ≡ₚ seqZ 0 total.
Proof.
  intros Hc. unfold buildPendingIndices. apply NoDup_Permutation; [|apply NoDup_seqZ|].
  - apply NoDup_app. split_and!; [apply NoDup_fst_map_to_list| |apply NoDup_filter, NoDup_seqZ].
    intros i [x Hx]%elem_of_keys [Hi _]%list_elem_of_filter. congruence.
  - intros i. rewrite elem_of_app, elem_of_keys, list_elem_of_filter, elem_of_seqZ.
    split; [intros [Hi|[_ Hi]]; [apply Hc in Hi|]; lia|intros Hi].
    destruct (completed !! i) eqn:E; [left; eauto|right; split; [done|lia]].
Qed.

(** ** Rounds of a parallel node *)

(** The state as JSON gives it back, results encoded by [g]. *)
Definition json_state {O} (g : O → value) (st : ParallelInterruptState O) : ParallelInterruptState value :=
  {| OriginalInputsJSON := OriginalInputsJSON st; CompletedResults := g <$> CompletedResults st;
     InterruptedIndices := InterruptedIndices st; TotalCount := TotalCount st; ItemCheckpoints := ItemCheckpoints st |}.

Section rounds.
Context {A O W I : Type} (J : ParCodec A O) (OT : OutType O) (options : parallelOptions) (nodeKey : string).
Context (run : Z → option string → A → gmap string string → W → item_result I O * gmap string string * W).
Context `{ItemOrder} (items : list A) (f : Z → A → O) (g : O → value).

(** Every run of an item gives its output or interrupts, and JSON keeps the items,
    the state, and the outputs. *)
Record item_laws : Prop := {
  law_run idx opt a b w : ∃ b' w',
    run idx opt a b w = (ItemOut (f idx a), b', w') ∨ ∃ i, run idx opt a b w = (ItemErr (SubInterrupt i), b', w');
  law_items : ∃ t, items_text J items = Some t ∧ items_of J t = Some items;
  law_state st : ∃ t, par_text J st = Some t ∧ par_of J t = Some (json_state g st);
  law_coerce idx a : coerceAnyToO OT (g (f idx a)) = Some (f idx a);
}.

Definition right_output (idx : Z) (o : O) : Prop := (0 ≤ idx)%Z ∧ ∃ a, items !! Z.to_nat idx = Some a ∧ o = f idx a.

Lemma right_range idx o : right_output idx o → (0 ≤ idx < Z.of_nat (length items))%Z.
Proof. intros (? & a & ?%lookup_lt_Some & _). lia. Qed.

Definition right_result (r : Z * (sub_error I + O)) : Prop :=
  match r.2 with inr o => right_output r.1 o | inl (SubInterrupt _) => True | inl (SubFail _) => False end.

Lemma run_items_right l b w :
  item_laws → Forall (λ idx, 0 ≤ idx < Z.of_nat (length items))%Z l →
  ∃ rs b' w', run_items options nodeKey run items l b w = Ret (rs, b', w') ∧ rs.*1 = l ∧ Forall right_result rs.
Proof.
  intros HL Hl. revert b w. induction Hl as [|idx l Hi Hl IH]; intros b w.
  { exists [], b, w. split_and!; [done..|constructor]. }
  cbn [run_items]. unfold runOne. rewrite decide_True by lia.
  destruct (lookup_lt_is_Some_2 items (Z.to_nat idx)) as [a Ha]; [lia|]. rewrite Ha.
  set (opt := if decide (_ = "") then _ else _). destruct (law_run HL idx opt a b w) as (b1 & w1 & Hr).
  destruct (IH b1 w1) as (rs & b2 & w2 & E & Hk & Hrs).
  destruct Hr as [Hr|[i Hr]]; rewrite Hr; cbn [go_bind]; rewrite E; cbn [go_bind fst snd];
    do 3 eexists; (split_and!; [done|by cbn; f_equal|constructor; [|done]]); [|done].
  split; [cbn; lia|eauto].
Qed.

(** What is known when the results [done] have been collected. *)
Record drained (outs : list O) (done : list Z) (acc : list O * gmap Z O * list I * option par_error) : Prop := {
  dr_error : acc.2 = None;
  dr_right idx o : acc.1.1.2 !! idx = Some o → right_output idx o ∧ idx ∈ done;
  dr_done idx : acc.1.2 = [] → idx ∈ done → is_Some (acc.1.1.2 !! idx);
  dr_length : length acc.1.1.1 = length outs;
  dr_outputs idx : (0 ≤ idx)%Z → (Z.to_nat idx < length outs)%nat →
    acc.1.1.1 !! Z.to_nat idx = match acc.1.1.2 !! idx with Some o => Some o | None => outs !! Z.to_nat idx end;
}.

Lemma drain_step outs done acc r :
  right_result r → drained outs done acc → drained outs (done ++ [r.1]) (drain acc r).
Proof.
  destruct acc as [[[os c] ints] e], r as [idx [[i|why]|o]]; intros Hr Hd; [| |destruct Hr]; destruct Hd as [He Hok Hdone Hlen Ho]; cbn in *; subst.
  - split; cbn; [done|..|done|done].
    + intros idx' o' Hc. apply Hok in Hc as []. set_solver.
    + by destruct ints.
  - done.
  - rewrite decide_True by done. split; cbn; [done|..].
    + intros idx' o' [[<- <-]|[Hne Hc]]%lookup_insert_Some; [split; [by split|set_solver]|].
      apply Hok in Hc as []. set_solver.
    + intros idx' Hi [Hin|Hin]%elem_of_app.
      * apply lookup_insert_is_Some'. right. by apply Hdone.
      * apply list_elem_of_singleton in Hin as ->. rewrite lookup_insert_eq. eauto.
    + by rewrite length_insert.
    + intros idx' Hpos Hlt. destruct (decide (idx' = idx)) as [->|Hne].
      * rewrite lookup_insert_eq. apply list_lookup_insert_eq. lia.
      * rewrite lookup_insert_ne by done. rewrite list_lookup_insert_ne by lia. by apply Ho.
Qed.

Lemma drain_all outs rs : Forall right_result rs → drained outs rs.*1 (foldl drain (outs, ∅, [], None) rs).
Proof.
  induction rs as [|r rs IH] using rev_ind; intros Hrs.
  { split; cbn; [done|by intros ? ? ?%lookup_empty_Some|by intros ? _ ?%elem_of_nil|done|]. intros idx _ _. by rewrite lookup_empty. }
  apply Forall_app in Hrs as [Hrs Hr]. rewrite Forall_singleton in Hr.
  rewrite foldl_app, fmap_app. by apply drain_step, IH.
Qed.

(** The outputs of all items, in order. *)
Definition all_outputs : list O := imap (λ n a, f (Z.of_nat n) a) items.

(** A state from which a later run continues rightly. *)
Definition saved (s : string) : Prop := ∃ st,
  par_of J s = Some st ∧ validateParallelSnapshot st = None ∧ items_of J (OriginalInputsJSON st) = Some items ∧
  TotalCount st = Z.of_nat (length items) ∧
  ∀ idx v, CompletedResults st !! idx = Some v → ∃ o, right_output idx o ∧ v = g o.

(** What [par_start] prepares. *)
Definition started (indices : list Z) (outs : list O) : Prop :=
  Forall (λ idx, 0 ≤ idx < Z.of_nat (length items))%Z indices ∧ length outs = length items ∧
  ∀ n, (n < length items)%nat → Z.of_nat n ∈ indices ∨ outs !! n = all_outputs !! n.

Lemma right_all n o : right_output (Z.of_nat n) o → all_outputs !! n = Some o.
Proof.
  intros (_ & a & Ha & ->). unfold all_outputs. rewrite list_lookup_imap.
  rewrite Nat2Z.id in Ha. by rewrite Ha.
Qed.

Lemma replay_right (completed : gmap Z value) :
  item_laws → (∀ idx v, completed !! idx = Some v → ∃ o, right_output idx o ∧ v = g o) →
  ∃ outs, replay_completed OT completed (Z.of_nat (length items)) = Some outs ∧ length outs = length items ∧
    ∀ n, is_Some (completed !! Z.of_nat n) → outs !! n = all_outputs !! n.
Proof.
  intros HL Hc. unfold replay_completed.
  assert (Hl : ∀ kv, kv ∈ map_to_list completed → ∃ o, right_output kv.1 o ∧ kv.2 = g o).
  { intros [k v] Hkv%elem_of_map_to_list. by apply Hc. }
  assert (Hk : ∀ n, is_Some (completed !! Z.of_nat n) → Z.of_nat n ∈ (map_to_list completed).*1)
    by (intros n; apply elem_of_keys).
  cut (∃ outs, foldl (λ outputs kv, outputs ← outputs;
      if decide (0 ≤ kv.1 < Z.of_nat (length items))%Z
      then o ← coerceAnyToO OT kv.2; Some (<[Z.to_nat kv.1 := o]> outputs) else None)
      (Some (replicate (Z.to_nat (Z.of_nat (length items))) (out_zero OT))) (map_to_list completed) = Some outs ∧
      length outs = length items ∧ ∀ n, Z.of_nat n ∈ (map_to_list completed).*1 → outs !! n = all_outputs !! n).
  { intros (outs & E & ? & ?). exists outs. split_and!; [done..|]. auto. }
  clear Hc Hk. induction (map_to_list completed) as [|[k v] l IH] using rev_ind.
  { eexists. split_and!; [done|by rewrite length_replicate, Nat2Z.id|]. intros n []%elem_of_nil. }
  destruct IH as (outs & E & Hlen & Ho); [intros; apply Hl; set_solver|].
  destruct (Hl (k, v)) as (o & Hr & Hv); [set_solver|]. cbn in Hr, Hv. subst v.
  pose proof (right_range _ _ Hr). destruct Hr as (Hk & a & Ha & ->).
  rewrite foldl_app, E. cbn [foldl fst snd mbind option_bind]. rewrite decide_True by done. rewrite (law_coerce HL). cbn.
  eexists. split_and!; [done|by rewrite length_insert|]. intros n. rewrite fmap_app, elem_of_app.
  destruct (decide (Z.of_nat n = k)) as [<-|Hne].
  - intros _. cbn. rewrite Nat2Z.id, list_lookup_insert_eq by lia. symmetry. apply right_all. split; [lia|]. rewrite Nat2Z.id in *. eauto.
  - intros [Hn|?%list_elem_of_singleton]; [|done]. cbn. rewrite list_lookup_insert_ne by lia. by apply Ho.
Qed.

(** The state of a run is fresh, or was saved. *)
Definition continues (r : option string) (input : list A) : Prop :=
  match r with None => input = items | Some s => saved s end.

(** What the state says was completed. *)
Definition completed_before (r : option string) (idx : Z) : Prop :=
  ∃ s st, r = Some s ∧ par_of J s = Some st ∧ is_Some (CompletedResults st !! idx).

Lemma par_start_right r input b :
  item_laws → continues r input → items ≠ [] →
  ∃ indices outs bridge,
    par_start J OT r input b = inr (items, Z.of_nat (length items), indices, outs, bridge) ∧ started indices outs ∧
    ∀ idx, completed_before r idx → (0 ≤ idx < Z.of_nat (length items))%Z ∧ idx ∉ indices.
Proof.
  intros HL Hc Hne. unfold par_start, loadParallelSnapshot. destruct r as [s|]; cbn in Hc.
  - destruct Hc as (st & E & Hv & Hi & Ht & Hr). rewrite E, Hv. rewrite decide_False by lia.
    destruct (replay_right _ HL Hr) as (outs & Eo & Hlen & Ho). rewrite Hi, Ht, Eo.
    exists (InterruptedIndices st), outs, (ItemCheckpoints st). split; [by destruct items|]. apply snapshot_valid_iff in Hv. rewrite Ht in Hv.
    assert (Hin : ∀ i, is_Some (CompletedResults st !! i) ∨ i ∈ InterruptedIndices st ↔ (0 ≤ i < Z.of_nat (length items))%Z).
    { intros i. rewrite <- elem_of_keys, <- elem_of_app, Hv, elem_of_seqZ. lia. }
    assert (Hnd : NoDup ((map_to_list (CompletedResults st)).*1 ++ InterruptedIndices st)) by (rewrite Hv; apply NoDup_seqZ).
    apply NoDup_app in Hnd as (_ & Hd & _). split; [split_and!|].
    + apply Forall_forall. intros i ?. apply Hin. by right.
    + done.
    + intros n Hn. destruct (proj2 (Hin (Z.of_nat n))) as [Hs|]; [lia| |by left]. right. by apply Ho.
    + intros idx (s' & st' & [= <-] & E' & Hs). rewrite E in E'. injection E' as <-.
      split; [apply Hin; by left|]. apply Hd. by apply elem_of_keys.
  - subst input. do 3 eexists. split; [done|]. split; [split_and!|by intros ? (? & ? & ? & _)].
    + apply Forall_forall. intros i Hi%elem_of_seqZ. lia.
    + by rewrite length_replicate.
    + intros n Hn. left. apply elem_of_seqZ. lia.
Qed.

Lemma saved_state completed bridge t :
  item_laws → (∀ idx o, completed !! idx = Some o → right_output idx o) →
  items_of J t = Some items →
  ∃ s, par_text J {| OriginalInputsJSON := t; CompletedResults := completed;
                     InterruptedIndices := buildPendingIndices (Z.of_nat (length items)) completed;
                     TotalCount := Z.of_nat (length items); ItemCheckpoints := bridge |} = Some s ∧ saved s ∧
    ∀ st, par_of J s = Some st → InterruptedIndices st = buildPendingIndices (Z.of_nat (length items)) completed.
Proof.
  intros HL Hc Ht. destruct (law_state HL {| OriginalInputsJSON := t; CompletedResults := completed;
    InterruptedIndices := buildPendingIndices (Z.of_nat (length items)) completed;
    TotalCount := Z.of_nat (length items); ItemCheckpoints := bridge |}) as (s & E & Es).
  exists s. split; [done|]. split; [|intros st Hst; rewrite Es in Hst; by injection Hst as <-].
  eexists. split; [done|]. split_and!; [|done..|].
  - apply snapshot_valid_iff. cbn. rewrite map_to_list_fmap, <- list_fmap_compose.
    rewrite (list_fmap_ext _ fst) by done. apply pending_partition.
    intros i [o Ho%Hc]. by eapply right_range.
  - cbn. intros idx v. rewrite lookup_fmap. intros (o & Ho & ->)%fmap_Some. eauto.
Qed.

(** One round: all outputs in order, or an interrupt with a state to continue from. *)
Definition right_outcome (out : par_outcome I O) : Prop :=
  match out with
  | ParDone outputs => outputs = all_outputs
  | ParInterrupts s signals => signals ≠ [] ∧ saved s
  | ParFails _ => False
  end.
(** When the round interrupts, what was completed before it is pending again. *)
Definition forgets (r : option string) (out : par_outcome I O) : Prop :=
  ∀ s signals st idx, out = ParInterrupts s signals → par_of J s = Some st → completed_before r idx → idx ∈ InterruptedIndices st.

Lemma fanout_right indices b w :
  item_laws → Forall (λ idx, 0 ≤ idx < Z.of_nat (length items))%Z indices →
  ∃ rs b' w', runParallelFanout options nodeKey run items indices b w = Ret (rs, b', w') ∧
    (∀ idx, idx ∈ rs.*1 ↔ idx ∈ indices) ∧ Forall right_result rs.
Proof.
  intros HL Hi. unfold runParallelFanout. set (order := if decide _ then _ else _).
  assert (Hp : order ≡ₚ indices).
  { subst order. case_decide; [done|]. destruct indices; [done|]. by rewrite item_order_perm. }
  destruct (run_items_right order b w HL) as (rs & b' & w' & E & Hk & Hr); [by rewrite Hp|].
  exists rs, b', w'. split_and!; [done| |done]. intros idx. by rewrite Hk, Hp.
Qed.

Lemma no_items r input b w :
  items = [] → continues r input →
  runParallelInvoke J OT options nodeKey run r input b w = Ret (ParDone [], b, w).
Proof.
  intros Hnil Hc. unfold runParallelInvoke, par_start, loadParallelSnapshot. destruct r as [s|]; cbn in Hc.
  - destruct Hc as (st & E & Hv & Hi & Ht & _). rewrite E, Hv, decide_False by lia. by rewrite Hi, Hnil.
  - by subst input; rewrite Hnil.
Qed.

Lemma outputs_right indices outs rs acc :
  started indices outs → (∀ idx, idx ∈ rs ↔ idx ∈ indices) → drained outs rs acc → acc.1.2 = [] → acc.1.1.1 = all_outputs.
Proof.
  intros (_ & Hlen & Hs) Hk Hd Hi. apply list_eq. intros n.
  destruct (decide (n < length items)%nat) as [Hn|Hn].
  - pose proof (dr_outputs _ _ _ Hd (Z.of_nat n) ltac:(lia)) as Ho. rewrite Nat2Z.id in Ho. rewrite Ho by lia.
    destruct (acc.1.1.2 !! Z.of_nat n) as [o|] eqn:E.
    + symmetry. apply right_all. by eapply dr_right.
    + destruct (Hs n Hn) as [Hin|]; [|done]. apply Hk in Hin.
      destruct (dr_done _ _ _ Hd _ Hi Hin) as [o Ho']. congruence.
  - rewrite !lookup_ge_None_2; [done| |].
    + unfold all_outputs. rewrite length_imap. lia.
    + rewrite (dr_length _ _ _ Hd). lia.
Qed.

Lemma round_right r input b w :
  item_laws → continues r input →
  ∃ out b' w', runParallelInvoke J OT options nodeKey run r input b w = Ret (out, b', w') ∧ right_outcome out ∧ forgets r out.
Proof.
  intros HL Hc. destruct (decide (items = [])) as [Hnil|Hne].
  { rewrite (no_items _ _ _ _ Hnil Hc). do 3 eexists. split; [done|]. split; [|by intros ?].
    cbn. unfold all_outputs. by rewrite Hnil. }
  destruct (par_start_right r input b HL Hc Hne) as (indices & outs & bridge & Es & Hst & Hbefore).
  destruct (fanout_right indices bridge w HL (proj1 Hst)) as (rs & b1 & w1 & Ef & Hk & Hrs).
  pose proof (drain_all outs rs Hrs) as Hd. pose proof (outputs_right _ _ _ _ Hst Hk Hd) as Hdone.
  destruct (law_items HL) as (t & Et & Ht).
  unfold runParallelInvoke. rewrite Es. destruct items as [|a l] eqn:Hit; [done|]. rewrite <- Hit in *.
  rewrite Ef. cbn [go_bind]. destruct (foldl drain _ rs) as [[[os c] ints] e] eqn:Ed.
  destruct Hd as [He Hr _ _ _]. cbn in He, Hr, Hdone. subst e.
  do 3 eexists. split; [done|]. destruct ints as [|i ints]; [split; [by apply Hdone|by intros ?]|].
  rewrite Et. destruct (saved_state c b1 t HL) as (s & E & Hs & Hp); [by intros ? ? []%Hr|done|].
  rewrite E. split; [by split|]. intros ? ? st idx [= <- <-] Hst' Hidx. rewrite (Hp _ Hst').
  destruct (Hbefore _ Hidx) as [Hrange Hnot]. unfold buildPendingIndices. apply list_elem_of_filter.
  split; [|apply elem_of_seqZ; lia]. destruct (c !! idx) as [o|] eqn:Eo; [|done].
  apply Hr in Eo as [_ Hin]. by apply Hk in Hin.
Qed.
End rounds.

(** ** Streams of loops *)

Section streams.
Context {T W I : Type} (J : Codec T) (options : loopOptions W) (nodeKey : string).
Context (invoke : option string → T → gmap string string → W → (sub_error I + T) * gmap string string * W).
Context (stream : option string → T → gmap string string → W → (sub_error I + list T * option (sub_error I)) * gmap string string * W).
Context (shouldQuit : Z → T → T → W → (string + bool) * W).
(** What the sub-workflow has streamed, in the world. *)
Context (log : W → list (list T)).

(** The sub-workflow streams what a call returns as the last chunk, and fails and
    interrupts alike; only its complete streams are in the log. *)
Definition same_call (r : sub_error I + T) (s : sub_error I + list T * option (sub_error I)) : Prop :=
  match r with
  | inr v => ∃ chunks, s = inr (chunks, None) ∧ last chunks = Some v
  | inl (SubInterrupt i) => s = inl (SubInterrupt i) ∨ ∃ chunks, s = inr (chunks, Some (SubInterrupt i))
  | inl (SubFail why) => s = inl (SubFail why)
  end.
Definition logged (s : sub_error I + list T * option (sub_error I)) : list (list T) :=
  match s with inr (chunks, None) => [chunks] | _ => [] end.

Record stream_laws : Prop := {
  law_same opt v b w : ∃ r s b' w',
    invoke opt v b w = (r, b', w') ∧ stream opt v b w = (s, b', w') ∧ same_call r s ∧ log w' = log w ++ logged s;
  law_quit it a b w : log (shouldQuit it a b w).2 = log w;
  law_id key it w : log (checkpointBuilder options key it w).2 = log w;
  law_marshal v : is_Some (marshal J v);
}.

Definition with_replay (h : list string) (s : loopSnapshot) : loopSnapshot :=
  {| startIteration := startIteration s; current := current s; snap_streamMode := snap_streamMode s;
     subCheckID := subCheckID s; subCheckpoints := subCheckpoints s; replayChunks := h |}.

(** How a stream ends when the call ends with [out], after the chunks [emitted]. *)
Definition same_end (mode : LoopStreamMode) (emitted : list T) (out : outcome I T) (err : option (loop_error + string * I)) : Prop :=
  match out with
  | Done v => err = None ∧ last emitted = Some v
  | Fails e => err = Some (inl e)
  | Interrupts s i => ∃ st h,
      s = encodeState J (with_replay [] st) ∧ err = Some (inr (encodeState J (with_replay h st), i)) ∧
      (mode = LoopStreamEveryIteration → mapM (marshal J) emitted = Some h)
  end.

Lemma mapM_app {X Y} (g : X → option Y) l l' k k' :
  mapM g l = Some k → mapM g l' = Some k' → mapM g (l ++ l') = Some (k ++ k').
Proof. rewrite !mapM_Some. apply Forall2_app. Qed.

Lemma mapM_total {X Y} (g : X → option Y) l : (∀ x, is_Some (g x)) → is_Some (mapM g l).
Proof. intros Hg. apply mapM_is_Some_2, Forall_forall. auto. Qed.

Lemma child_id_log id it w : stream_laws → log (child_id options nodeKey id it w).2 = log w.
Proof. intros HL. unfold child_id. case_decide; [apply (law_id HL)|done]. Qed.

Lemma after_log it a b w : stream_laws → log (after_iteration (I := I) options shouldQuit it a b w).2 = log w.
Proof.
  intros HL. unfold after_iteration. pose proof (law_quit HL it a b w) as Hq.
  by destruct (shouldQuit it a b w) as [[|[]] w'].
Qed.

Lemma after_end it a b w r w' :
  after_iteration (I := I) options shouldQuit it a b w = (r, w') →
  match r with
  | Some (Done v) => v = b
  | Some (Interrupts _ _) => False
  | Some (Fails _) => True
  | None => (it < maxIterations options)%Z
  end.
Proof.
  unfold after_iteration. destruct (shouldQuit it a b w) as [[|[]] w1]; [by intros [= <- <-]..|].
  case_decide; [|intros [= <- <-]; lia]. destruct (maxIterationsSet options); by intros [= <- <-].
Qed.

Definition produced (it : Z) (cur : T) (id : string) (bridge : gmap string string) (readers : list (list T)) (h : list string) : producing (T := T) :=
  {| p_iteration := it; p_current := cur; p_id := id; p_bridge := bridge; p_readers := readers; p_history := h; p_prefilled := false |}.

(** The history that a stream keeps for a replay. *)
Definition history (mode : LoopStreamMode) (readers : list (list T)) (h : list string) : Prop :=
  mode = LoopStreamEveryIteration → mapM (marshal J) (concat readers) = Some h.

Lemma last_concat (readers : list (list T)) chunks v : last chunks = Some v → last (concat (readers ++ [chunks])) = Some v.
Proof. intros Hl. rewrite concat_app. cbn. rewrite app_nil_r, last_app, Hl. done. Qed.

Lemma publish_agrees mode start it cur next chunks id bridge readers h w r w' :
  stream_laws → last chunks = Some next → history mode readers h →
  after_iteration options shouldQuit it cur next w = (r, w') →
  match r with
  | Some out => ∃ err, publish (I := I) J options shouldQuit mode start chunks (produced it cur id bridge readers h) w
                       = (inl (readers ++ [chunks], err), w') ∧ same_end mode (concat (readers ++ [chunks])) out err
  | None => ∃ h', publish (I := I) J options shouldQuit mode start chunks (produced it cur id bridge readers h) w
                  = (inr (produced (int_add it 1) next "" (loopBridgeState_delete bridge id) (readers ++ [chunks]) h'), w') ∧
                  history mode (readers ++ [chunks]) h'
  end.
Proof.
  intros HL Hlast Hh Ha. unfold publish. rewrite Hlast. cbn [p_prefilled p_iteration p_current p_readers p_history p_id p_bridge produced].
  rewrite andb_false_r, andb_false_l. destruct (mapM_total (marshal J) chunks (law_marshal HL)) as [enc Henc].
  assert (∃ enc', (if bool_decide (mode = LoopStreamEveryIteration) then encodeReplayChunks J chunks else Some []) = Some enc' ∧
          history mode (readers ++ [chunks]) (h ++ enc')) as (enc' & -> & Hh').
  { case_bool_decide as Hm.
    - exists enc. split; [done|]. intros _. rewrite concat_app. cbn. rewrite app_nil_r. by apply mapM_app; [apply Hh|].
    - exists []. split; [done|]. by intros ?. }
  rewrite Ha. pose proof (after_end _ _ _ _ _ _ Ha) as He. destruct r as [[v|e|s i]|]; [| |done|].
  - exists None. split; [done|]. split; [done|]. subst v. by apply last_concat.
  - by exists (Some (inl e)).
  - by exists (h ++ enc').
Qed.

(** The loop of calls and the loop of streams go through the same iterations. *)
Lemma loops_agree fuel mode start it cur id bridge readers h w :
  stream_laws → in_int64 (maxIterations options) → (1 ≤ it)%Z → (Z.to_nat (maxIterations options - it) < fuel)%nat → history mode readers h →
  ∃ out new err w',
    invoke_loop J options nodeKey invoke shouldQuit fuel mode it cur id bridge w = Some (out, w') ∧
    produce J options nodeKey stream shouldQuit fuel mode start (produced it cur id bridge readers h) w = Some (readers ++ new, err, w') ∧
    log w' = log w ++ new ∧ same_end mode (concat (readers ++ new)) out err.
Proof.
  intros HL Hmax. revert it cur id bridge readers h w.
  induction fuel as [|fuel IH]; intros it cur id bridge readers h w Hit Hf Hh; [lia|].
  cbn [invoke_loop produce p_id p_iteration p_current p_bridge p_readers p_history p_prefilled produced].
  pose proof (child_id_log id it w HL) as Hl1. destruct (child_id options nodeKey id it w) as [id1 w1]. cbn in Hl1.
  destruct (law_marshal HL cur) as [json ->].
  destruct (law_same HL (withSubCheckpoint options id1) cur bridge w1) as (r & s & b2 & w2 & -> & -> & Hs & Hl2).
  rewrite Hl1 in Hl2. destruct r as [[i|why]|next]; cbn in Hs.
  - exists (Interrupts (encodeState J (with_replay [] {| startIteration := it; current := Some json; snap_streamMode := mode;
      subCheckID := id1; subCheckpoints := b2; replayChunks := [] |})) i), [], (stream_interrupt J mode
      (produced it cur id1 b2 readers h) json i), w2. rewrite !app_nil_r.
    destruct Hs as [->|[chunks ->]]; (split_and!; [done|done|by rewrite Hl2, app_nil_r|]); do 2 eexists; (split_and!; [done..|]); apply Hh.
  - subst s. do 4 eexists. split_and!; [done| |exact Hl2|]; [by rewrite app_nil_r|done].
  - destruct Hs as (chunks & -> & Hlast).
    destruct (after_iteration options shouldQuit it cur next w2) as [r w3] eqn:Ea.
    pose proof (after_log it cur next w2 HL) as Hl3. rewrite Ea, Hl2 in Hl3. cbn in Hl3.
    pose proof (publish_agrees mode start it cur next chunks id1 b2 readers h w2 r w3 HL Hlast Hh Ea) as Hp.
    destruct r as [out|]; cbn [produced] in Hp.
    + destruct Hp as (err & Hp & He). exists out, [chunks], err, w3. split_and!; [done| |done|done].
      unfold produced in Hp. by rewrite Hp.
    + destruct Hp as (h' & Hp & Hh'). pose proof (after_end _ _ _ _ _ _ Ea) as Hlt. cbn in Hlt.
      unfold in_int64, int64_min, int64_max in *. rewrite int_add_small in Hp |- * by (unfold in_int64, int64_min, int64_max; lia).
      destruct (IH (it + 1)%Z next "" (loopBridgeState_delete b2 id1) (readers ++ [chunks]) h' w3 ltac:(lia) ltac:(lia) Hh')
        as (out & new & err & w' & E1 & E2 & Hl & He).
      exists out, (chunks :: new), err, w'. rewrite E1. unfold produced in Hp, E2. rewrite Hp, E2.
      rewrite <- !app_assoc in *. cbn in *. split_and!; [done..| |done]. by rewrite Hl, Hl3, <- app_assoc.
Qed.
End streams.

Lemma loaded_start {T} (J : Codec T) resume mode snap : loadLoopSnapshot J resume mode = inr snap → (1 ≤ startIteration snap)%Z.
Proof.
  unfold loadLoopSnapshot. destruct resume as [t|]; [|intros [= <-]; done].
  destruct (state_of J t) as [st|]; [|done]. case_decide; [done|]. destruct (CurrentInput st); [|done].
  intros [= <-]. cbn. lia.
Qed.


(** A resumed stream of every iteration first replays what was streamed before and
    then leaves out the chunks of the iteration it resumes: when that iteration is
    the last one, the reader never gets its chunks. *)
Lemma resumed_iteration_dropped {T W I} (J : Codec T) (options : loopOptions W) nodeKey
    (stream : option string → T → gmap string string → W → (sub_error I + list T * option (sub_error I)) * gmap string string * W)
    shouldQuit closed_first resume input w snap v json replayed chunks next enc b' w1 w2 :
  loadLoopSnapshot J resume (streamMode options) = inr snap → start_input J snap input = inr v →
  snap_streamMode snap = LoopStreamEveryIteration → replayChunks snap ≠ [] → subCheckID snap ≠ "" →
  decodeReplayChunks J (replayChunks snap) = Some replayed → marshal J v = Some json →
  stream (withSubCheckpoint options (subCheckID snap)) v (subCheckpoints snap) w = (inr (chunks, None), b', w1) →
  last chunks = Some next → encodeReplayChunks J chunks = Some enc →
  shouldQuit (startIteration snap) v next w1 = (inr true, w2) →
  runLoopStream J options nodeKey stream shouldQuit closed_first resume input w = Some (inr (replayed, None), w2).
Proof.
  intros Hload Hstart Hmode Hre Hid Hdec Hm Hs Hl Henc Hq. unfold runLoopStream. rewrite Hload, Hstart.
  rewrite bool_decide_true by done. rewrite Hdec. unfold loop_fuel. cbn [produce p_id p_iteration p_current p_bridge p_readers p_history p_prefilled].
  unfold child_id. rewrite decide_False by done. rewrite Hm, Hs. unfold publish. cbn [p_id p_iteration p_current p_bridge p_readers p_history p_prefilled].
  rewrite Hl, Hmode. rewrite !bool_decide_true by done. cbn [andb]. rewrite Henc. unfold after_iteration. rewrite Hq.
  unfold emit, sendIterations. rewrite decide_False by done. cbn [concat]. by rewrite app_nil_r.
Qed.

(** ** Rounds that are reached *)

(** The runs of a node over the items, each after the first resumed with what the
    one before saved; a resumed run is given any input. *)
Inductive round {A O W I} (J : ParCodec A O) (OT : OutType O) (options : parallelOptions) (nodeKey : string)
    (run : Z → option string → A → gmap string string → W → item_result I O * gmap string string * W) `{ItemOrder}
    (items : list A) : option string → list A → Prop :=
| round_fresh : round J OT options nodeKey run items None items
| round_again r input b w s signals b' w' input' :
    round J OT options nodeKey run items r input →
    runParallelInvoke J OT options nodeKey run r input b w = Ret (ParInterrupts s signals, b', w') →
    round J OT options nodeKey run items (Some s) input'.


(** The state saved by a resumed round has only the items of that round: those completed
    in earlier rounds are pending again, which the description of [CompletedResults]
    rules out. *)
Lemma rounds_forget {A O W I} (J : ParCodec A O) (OT : OutType O) options nodeKey
    (run : Z → option string → A → gmap string string → W → item_result I O * gmap string string * W) `{ItemOrder}
    items f g r input b w :
  item_laws J OT run items f g → continues J items f g r input →
  ∃ out b' w', runParallelInvoke J OT options nodeKey run r input b w = Ret (out, b', w') ∧ forgets J r out.
Proof.
  intros HL Hc. destruct (round_right J OT options nodeKey run items f g r input b w HL Hc) as (out & b' & w' & E & _ & Hf). eauto.
Qed.


(** ** Examples *)

Definition pack_state {R} (st : ParallelInterruptState R) : string * gmap Z R * list Z * Z * gmap string string :=
  (OriginalInputsJSON st, CompletedResults st, InterruptedIndices st, TotalCount st, ItemCheckpoints st).
Definition unpack_state {R} (t : string * gmap Z R * list Z * Z * gmap string string) : ParallelInterruptState R :=
  let '(i, c, p, n, k) := t in
  {| OriginalInputsJSON := i; CompletedResults := c; InterruptedIndices := p; TotalCount := n; ItemCheckpoints := k |}.

(** Texts of strings and of states with strings as results. *)
Definition string_codec : ParCodec string string :=
  {| items_text := λ l, Some (bits (encode l)); items_of := λ t, decode (unbits t);
     par_text := λ st, Some (bits (encode (pack_state st)));
     par_of := λ t, json_state VStr ∘ unpack_state <$> decode (unbits t) |}.
Definition string_out : OutType string :=
  {| out_zero := ""; out_assert := λ v, match v with VStr s => Some s | _ => None end; out_float := None |}.
Definition backwards : ItemOrder := {| item_order := @reverse Z; item_order_perm := @reverse_Permutation Z |}.

(** Every item asks in its first run, but the item "b"; [w] are the indices that ran. *)
Definition asking (idx : Z) (_ : option string) (a : string) (b : gmap string string) (w : list Z)
    : item_result string string * gmap string string * list Z :=
  (if decide (a = "b" ∨ idx ∈ w) then ItemOut (a +:+ "!") else ItemErr (SubInterrupt a), b, w ++ [idx]).

Lemma asking_laws items : item_laws string_codec string_out asking items (λ _ a, a +:+ "!") VStr.
Proof.
  split.
  - intros idx opt a b w. unfold asking. do 2 eexists. case_decide; [by left|right; by eexists].
  - eexists. split; [done|]. cbn. by rewrite unbits_bits, decode_encode.
  - intros st. eexists. split; [done|]. cbn. rewrite unbits_bits, decode_encode. by destruct st.
  - done.
Qed.

Definition three_at_a_time : parallelOptions := getParallelOptions [WithParallelMaxConcurrency 3].


(** The saved state names the item that was completed, and the two that asked; the
    resumed round runs these and gives all outputs. *)
Definition saved_text (r : go (par_outcome string string * gmap string string * list Z)) : option string :=
  match r with Ret (ParInterrupts s _, _, _) => Some s | _ => None end.
Example two_rounds :
  let first := runParallelInvoke string_codec string_out three_at_a_time "n" asking (H := backwards) None ["a"; "b"; "c"] ∅ [] in
  (st ← saved_text first ≫= par_of string_codec; Some (InterruptedIndices st)) = Some [0%Z; 2%Z] ∧
  (s ← saved_text first; match runParallelInvoke string_codec string_out three_at_a_time "n" asking (H := backwards) (Some s) [] ∅ [0%Z; 1%Z; 2%Z] with
                         | Ret (ParDone l, _, w) => Some (l, w) | _ => None end)
  = Some (["a!"; "b!"; "c!"], [0%Z; 1%Z; 2%Z; 0%Z; 2%Z]).
Proof. vm_compute. done. Qed.

(** A loop that appends a letter and streams the value before and after. *)
Definition pack_loop (st : loopInterruptState) : Z * option string * string * string * gmap string string * list string :=
  (Iteration st, CurrentInput st, StreamMode st, SubCheckpointID st, SubCheckpoints st, ReplayChunks st).
Definition unpack_loop (t : Z * option string * string * string * gmap string string * list string) : loopInterruptState :=
  let '(i, c, m, k, b, r) := t in
  {| Iteration := i; CurrentInput := c; StreamMode := m; SubCheckpointID := k; SubCheckpoints := b; ReplayChunks := r |}.
Definition loop_codec : Codec string :=
  {| marshal := Some; unmarshal := Some; state_text := λ st, bits (encode (pack_loop st));
     state_of := λ t, unpack_loop <$> decode (unbits t) |}.
Notation World := (nat * list (list string))%type.
Definition appending (_ : option string) (v : string) (b : gmap string string) (w : World) : (sub_error string + string) * gmap string string * World :=
  match w.1 with
  | S O => (inl (SubInterrupt "more?"), b, (O, w.2))
  | n => (inr (v +:+ "x"), b, (pred n, w.2 ++ [[v; v +:+ "x"]]))
  end.
Definition streaming (_ : option string) (v : string) (b : gmap string string) (w : World)
    : (sub_error string + list string * option (sub_error string)) * gmap string string * World :=
  match w.1 with
  | S O => (inl (SubInterrupt "more?"), b, (O, w.2))
  | n => (inr ([v; v +:+ "x"], None), b, (pred n, w.2 ++ [[v; v +:+ "x"]]))
  end.
Definition until_three (it : Z) (_ _ : string) (w : World) : (string + bool) * World := (inr (bool_decide (it = 3%Z)), w).
Definition every_iteration : loopOptions World :=
  getLoopOptions (λ w, ("id", w)) [WithLoopMaxIterations 5; WithLoopStream LoopStreamEveryIteration].

Lemma streaming_laws : stream_laws loop_codec every_iteration appending streaming until_three snd.
Proof.
  split; [|done|done|by eexists].
  intros opt v b [n l]. unfold appending, streaming. cbn.
  destruct n as [|[|n]]; (do 4 eexists; split_and!; [done|done|..]); cbn; try done.
  - by eexists.
  - by left.
  - by rewrite app_nil_r.
  - by eexists.
Qed.


(** The third iteration interrupts.  Resumed, the loop completes it, but the reader
    gets only the chunks of the first two. *)
Example resumed_chunks_lost :
  let stream := runLoopStream loop_codec every_iteration "n" streaming until_three false in
  (match stream None "a" (3, []) with Some (inr (chunks, Some (inr (s, _))), _) => Some chunks | _ => None end)
    = Some ["a"; "ax"; "ax"; "axx"] ∧
  (match stream None "a" (3, []) with
   | Some (inr (_, Some (inr (s, _))), w) =>
       match stream (Some s) "" w with Some (inr r, w) => Some (r, w.2) | _ => None end
   | _ => None end)
    = Some ((["a"; "ax"; "ax"; "axx"], None), [["a"; "ax"]; ["ax"; "axx"]; ["axx"; "axxx"]]).
Proof. vm_compute. done. Qed.
