(* ===== verification/CliLexer.v ===== *)
(** * The lexer of the command line (internal/cli/lexer.go, types.go)

    Commands of the command line client are texts in a small language of keywords,
    quoted strings, numbers and punctuation.  A lexer stands at a byte of its
    input; [NextToken] gives the next token and where the lexer stands then.  Bytes
    are characters, and 0 stands for the end of the input. *)

From S2P Require Import Prelude GoValue.

(** ** Tokens *)

(* internal/cli/types.go:26-234 TokenLogin *)
Inductive TokenType :=
| TokenLogin | TokenLogout | TokenRegister | TokenList | TokenServices | TokenShow | TokenCreate | TokenService
| TokenShutdown | TokenRestart | TokenUsers | TokenDrop | TokenUser | TokenAlter | TokenActive | TokenInactive
| TokenAdmin | TokenServer | TokenAPI | TokenAdd | TokenLive | TokenHealth | TokenHost | TokenDelete | TokenPassword
| TokenDataset | TokenDatasets | TokenChunkStore | TokenOf | TokenAgents | TokenSearches | TokenRole | TokenRoles
| TokenDescription | TokenGrant | TokenRevoke | TokenAll | TokenPermission | TokenTo | TokenFrom | TokenFor
| TokenResources | TokenOn | TokenSet | TokenReset | TokenVersion | TokenVar | TokenVars | TokenConfigs | TokenConfig
| TokenEnvs | TokenKey | TokenKeys | TokenGenerate | TokenAvailable | TokenSupported | TokenModel | TokenModels
| TokenProvider | TokenProviders | TokenDefault | TokenChats | TokenChat | TokenMessage | TokenImage | TokenVideo
| TokenAudio | TokenStream | TokenFiles | TokenAs | TokenParse | TokenImport | TokenInto | TokenIn | TokenWith
| TokenParser | TokenPipeline | TokenSearch | TokenAgent | TokenMemories | TokenMemory | TokenRetrieve | TokenCurrent
| TokenSoft | TokenFingerprint | TokenLicense | TokenVision | TokenEmbedding | TokenRerank | TokenASR | TokenTTS
| TokenOCR | TokenDocParse | TokenEmbed | TokenText | TokenQuery | TokenFormat | TokenParam | TokenPlay | TokenSave
| TokenTop | TokenDimension | TokenAsync | TokenSync | TokenSyncLogs | TokenBenchmark | TokenPing | TokenToken
| TokenTokens | TokenUnset | TokenIndex | TokenVector | TokenSize | TokenStore | TokenEngine | TokenName
| TokenBalance | TokenInstance | TokenInstances | TokenDisable | TokenEnable | TokenUse | TokenCheck | TokenThink
| TokenEffort | TokenVerbosity | TokenNone | TokenMinimal | TokenLow | TokenMedium | TokenHigh | TokenMax | TokenLS
| TokenCat | TokenInsert | TokenFile | TokenMetadata | TokenTable | TokenGet | TokenUpdate | TokenRemove
| TokenExplain | TokenChunk | TokenChunks | TokenDocument | TokenDocuments | TokenTag | TokenRegion | TokenURL
| TokenTask | TokenTasks | TokenIngestor | TokenIngestors | TokenStart | TokenStop | TokenIngestion | TokenCache
| TokenMQ | TokenPublish | TokenPull | TokenPending | TokenNoACK | TokenAnalyze | TokenSummary | TokenStats
| TokenStorage | TokenQuota | TokenTree | TokenOrphan | TokenHour | TokenDay | TokenMonth | TokenDays | TokenWindow
| TokenActivity | TokenData | TokenPurge | TokenPlan | TokenPreview | TokenOpenaiChat | TokenLog | TokenLogs
| TokenLevel | TokenDebug | TokenInfo | TokenWarn | TokenError | TokenFatal | TokenPanic | TokenIdentifier
| TokenQuotedString | TokenInteger | TokenFloat | TokenSemicolon | TokenComma | TokenSlash | TokenEOF | TokenDash
| TokenIllegal | TokenLBracket | TokenRBracket.

(** The value of the constant. *)
Definition iota (t : TokenType) : Z :=
  match t with
  | TokenLogin => 0 | TokenLogout => 1 | TokenRegister => 2 | TokenList => 3 | TokenServices => 4 | TokenShow => 5
  | TokenCreate => 6 | TokenService => 7 | TokenShutdown => 8 | TokenRestart => 9 | TokenUsers => 10 | TokenDrop => 11
  | TokenUser => 12 | TokenAlter => 13 | TokenActive => 14 | TokenInactive => 15 | TokenAdmin => 16
  | TokenServer => 17 | TokenAPI => 18 | TokenAdd => 19 | TokenLive => 20 | TokenHealth => 21 | TokenHost => 22
  | TokenDelete => 23 | TokenPassword => 24 | TokenDataset => 25 | TokenDatasets => 26 | TokenChunkStore => 27
  | TokenOf => 28 | TokenAgents => 29 | TokenSearches => 30 | TokenRole => 31 | TokenRoles => 32
  | TokenDescription => 33 | TokenGrant => 34 | TokenRevoke => 35 | TokenAll => 36 | TokenPermission => 37
  | TokenTo => 38 | TokenFrom => 39 | TokenFor => 40 | TokenResources => 41 | TokenOn => 42 | TokenSet => 43
  | TokenReset => 44 | TokenVersion => 45 | TokenVar => 46 | TokenVars => 47 | TokenConfigs => 48 | TokenConfig => 49
  | TokenEnvs => 50 | TokenKey => 51 | TokenKeys => 52 | TokenGenerate => 53 | TokenAvailable => 54
  | TokenSupported => 55 | TokenModel => 56 | TokenModels => 57 | TokenProvider => 58 | TokenProviders => 59
  | TokenDefault => 60 | TokenChats => 61 | TokenChat => 62 | TokenMessage => 63 | TokenImage => 64 | TokenVideo => 65
  | TokenAudio => 66 | TokenStream => 67 | TokenFiles => 68 | TokenAs => 69 | TokenParse => 70 | TokenImport => 71
  | TokenInto => 72 | TokenIn => 73 | TokenWith => 74 | TokenParser => 75 | TokenPipeline => 76 | TokenSearch => 77
  | TokenAgent => 78 | TokenMemories => 79 | TokenMemory => 80 | TokenRetrieve => 81 | TokenCurrent => 82
  | TokenSoft => 83 | TokenFingerprint => 84 | TokenLicense => 85 | TokenVision => 86 | TokenEmbedding => 87
  | TokenRerank => 88 | TokenASR => 89 | TokenTTS => 90 | TokenOCR => 91 | TokenDocParse => 92 | TokenEmbed => 93
  | TokenText => 94 | TokenQuery => 95 | TokenFormat => 96 | TokenParam => 97 | TokenPlay => 98 | TokenSave => 99
  | TokenTop => 100 | TokenDimension => 101 | TokenAsync => 102 | TokenSync => 103 | TokenSyncLogs => 104
  | TokenBenchmark => 105 | TokenPing => 106 | TokenToken => 107 | TokenTokens => 108 | TokenUnset => 109
  | TokenIndex => 110 | TokenVector => 111 | TokenSize => 112 | TokenStore => 113 | TokenEngine => 114
  | TokenName => 115 | TokenBalance => 116 | TokenInstance => 117 | TokenInstances => 118 | TokenDisable => 119
  | TokenEnable => 120 | TokenUse => 121 | TokenCheck => 122 | TokenThink => 123 | TokenEffort => 124
  | TokenVerbosity => 125 | TokenNone => 126 | TokenMinimal => 127 | TokenLow => 128 | TokenMedium => 129
  | TokenHigh => 130 | TokenMax => 131 | TokenLS => 132 | TokenCat => 133 | TokenInsert => 134 | TokenFile => 135
  | TokenMetadata => 136 | TokenTable => 137 | TokenGet => 138 | TokenUpdate => 139 | TokenRemove => 140
  | TokenExplain => 141 | TokenChunk => 142 | TokenChunks => 143 | TokenDocument => 144 | TokenDocuments => 145
  | TokenTag => 146 | TokenRegion => 147 | TokenURL => 148 | TokenTask => 149 | TokenTasks => 150
  | TokenIngestor => 151 | TokenIngestors => 152 | TokenStart => 153 | TokenStop => 154 | TokenIngestion => 155
  | TokenCache => 156 | TokenMQ => 157 | TokenPublish => 158 | TokenPull => 159 | TokenPending => 160
  | TokenNoACK => 161 | TokenAnalyze => 162 | TokenSummary => 163 | TokenStats => 164 | TokenStorage => 165
  | TokenQuota => 166 | TokenTree => 167 | TokenOrphan => 168 | TokenHour => 169 | TokenDay => 170 | TokenMonth => 171
  | TokenDays => 172 | TokenWindow => 173 | TokenActivity => 174 | TokenData => 175 | TokenPurge => 176
  | TokenPlan => 177 | TokenPreview => 178 | TokenOpenaiChat => 179 | TokenLog => 180 | TokenLogs => 181
  | TokenLevel => 182 | TokenDebug => 183 | TokenInfo => 184 | TokenWarn => 185 | TokenError => 186
  | TokenFatal => 187 | TokenPanic => 188 | TokenIdentifier => 189 | TokenQuotedString => 190 | TokenInteger => 191
  | TokenFloat => 192 | TokenSemicolon => 195 | TokenComma => 196 | TokenSlash => 197 | TokenEOF => 198
  | TokenDash => 199 | TokenIllegal => 200 | TokenLBracket => 201 | TokenRBracket => 202
  end.
Definition all_tokens : list TokenType :=
  [TokenLogin; TokenLogout; TokenRegister; TokenList; TokenServices; TokenShow; TokenCreate; TokenService;
   TokenShutdown; TokenRestart; TokenUsers; TokenDrop; TokenUser; TokenAlter; TokenActive; TokenInactive; TokenAdmin;
   TokenServer; TokenAPI; TokenAdd; TokenLive; TokenHealth; TokenHost; TokenDelete; TokenPassword; TokenDataset;
   TokenDatasets; TokenChunkStore; TokenOf; TokenAgents; TokenSearches; TokenRole; TokenRoles; TokenDescription;
   TokenGrant; TokenRevoke; TokenAll; TokenPermission; TokenTo; TokenFrom; TokenFor; TokenResources; TokenOn;
   TokenSet; TokenReset; TokenVersion; TokenVar; TokenVars; TokenConfigs; TokenConfig; TokenEnvs; TokenKey; TokenKeys;
   TokenGenerate; TokenAvailable; TokenSupported; TokenModel; TokenModels; TokenProvider; TokenProviders;
   TokenDefault; TokenChats; TokenChat; TokenMessage; TokenImage; TokenVideo; TokenAudio; TokenStream; TokenFiles;
   TokenAs; TokenParse; TokenImport; TokenInto; TokenIn; TokenWith; TokenParser; TokenPipeline; TokenSearch;
   TokenAgent; TokenMemories; TokenMemory; TokenRetrieve; TokenCurrent; TokenSoft; TokenFingerprint; TokenLicense;
   TokenVision; TokenEmbedding; TokenRerank; TokenASR; TokenTTS; TokenOCR; TokenDocParse; TokenEmbed; TokenText;
   TokenQuery; TokenFormat; TokenParam; TokenPlay; TokenSave; TokenTop; TokenDimension; TokenAsync; TokenSync;
   TokenSyncLogs; TokenBenchmark; TokenPing; TokenToken; TokenTokens; TokenUnset; TokenIndex; TokenVector; TokenSize;
   TokenStore; TokenEngine; TokenName; TokenBalance; TokenInstance; TokenInstances; TokenDisable; TokenEnable;
   TokenUse; TokenCheck; TokenThink; TokenEffort; TokenVerbosity; TokenNone; TokenMinimal; TokenLow; TokenMedium;
   TokenHigh; TokenMax; TokenLS; TokenCat; TokenInsert; TokenFile; TokenMetadata; TokenTable; TokenGet; TokenUpdate;
   TokenRemove; TokenExplain; TokenChunk; TokenChunks; TokenDocument; TokenDocuments; TokenTag; TokenRegion; TokenURL;
   TokenTask; TokenTasks; TokenIngestor; TokenIngestors; TokenStart; TokenStop; TokenIngestion; TokenCache; TokenMQ;
   TokenPublish; TokenPull; TokenPending; TokenNoACK; TokenAnalyze; TokenSummary; TokenStats; TokenStorage;
   TokenQuota; TokenTree; TokenOrphan; TokenHour; TokenDay; TokenMonth; TokenDays; TokenWindow; TokenActivity;
   TokenData; TokenPurge; TokenPlan; TokenPreview; TokenOpenaiChat; TokenLog; TokenLogs; TokenLevel; TokenDebug;
   TokenInfo; TokenWarn; TokenError; TokenFatal; TokenPanic; TokenIdentifier; TokenQuotedString; TokenInteger;
   TokenFloat; TokenSemicolon; TokenComma; TokenSlash; TokenEOF; TokenDash; TokenIllegal; TokenLBracket;
   TokenRBracket].

(** Two types are equal when their values are. *)
Lemma iota_inj t t' : iota t = iota t' → t = t'.
Proof.
  assert (Hf : ∀ t, snd <$> list_find (λ u, iota u = iota t) all_tokens = Some t) by (intros []; vm_compute; reflexivity).
  intros E. pose proof (Hf t) as H. rewrite E, Hf in H. by injection H.
Qed.
#[export] Instance TokenType_eq_dec : EqDecision TokenType := λ t t',
  match decide (iota t = iota t') with
  | left E => left (iota_inj t t' E)
  | right E => right (λ E', E (f_equal iota E'))
  end.

(* internal/cli/types.go:237-240 Token *)
Record Token := { Type_ : TokenType; Value : string }.

(** ** Bytes *)

Notation byte_code c := (Ascii.N_of_ascii c) (only parsing).
Definition zero_byte : Ascii.ascii := Ascii.ascii_of_N 0.

(** [unicode.IsLetter] and [unicode.IsDigit] of the code points below 256. *)
(* internal/cli/lexer.go:583-585 isLetter *)
Definition isLetter (ch : Ascii.ascii) : bool :=
  byte_in 65 90 ch || byte_in 97 122 ch || bool_decide (byte_code ch ∈ [170; 181; 186]%N)
  || byte_in 192 214 ch || byte_in 216 246 ch || byte_in 248 255 ch.
(* internal/cli/lexer.go:587-589 isDigit *)
Definition isDigit (ch : Ascii.ascii) : bool := byte_in 48 57 ch.
Definition is_byte (n : N) (ch : Ascii.ascii) : bool := bool_decide (byte_code ch = n).
Definition white (ch : Ascii.ascii) : bool := bool_decide (byte_code ch ∈ [32; 9; 10; 13]%N).
(** The bytes of identifiers: letters, digits, and the bytes _, - and . *)
Definition ident_byte (ch : Ascii.ascii) : bool := isLetter ch || isDigit ch || bool_decide (byte_code ch ∈ [95; 45; 46]%N).

(** [string(ch)]: the code point in UTF-8. *)
Definition byte_string (ch : Ascii.ascii) : string :=
  if (byte_code ch <? 128)%N then String ch ""
  else String (Ascii.ascii_of_N (192 + byte_code ch / 64)) (String (Ascii.ascii_of_N (128 + byte_code ch mod 64)) "").

(** [strings.ToUpper] as it decides about keywords: no other letter has an ASCII
    letter as its upper case in a text of bytes that are letters one by one. *)
Definition upper_byte (ch : Ascii.ascii) : Ascii.ascii := if byte_in 97 122 ch then Ascii.ascii_of_N (byte_code ch - 32) else ch.
Fixpoint ascii_upper (s : string) : string :=
  match s with "" => "" | String c s => String (upper_byte c) (ascii_upper s) end.

(** ** The lexer *)

(* internal/cli/lexer.go:25-30 Lexer *)
Record Lexer := { input : string; pos : nat; readPos : nat; ch : Ascii.ascii }.

Definition byte_at (s : string) (n : nat) : Ascii.ascii := default zero_byte (String.get n s).

(* internal/cli/lexer.go:39-47 Lexer.readChar *)
Definition readChar (l : Lexer) : Lexer :=
  {| input := input l; pos := readPos l; readPos := S (readPos l); ch := byte_at (input l) (readPos l) |}.
(* internal/cli/lexer.go:33-37 NewLexer *)
Definition NewLexer (s : string) : Lexer := readChar {| input := s; pos := 0; readPos := 0; ch := zero_byte |}.
(* internal/cli/lexer.go:49-54 Lexer.peekChar *)
Definition peekChar (l : Lexer) : Ascii.ascii := byte_at (input l) (readPos l).

(** A loop that reads while the byte is of a class that does not have 0: it ends at
    the end of the input at the latest. *)
Fixpoint read_fuel (fuel : nat) (c : Ascii.ascii → bool) (l : Lexer) : Lexer :=
  match fuel with
  | O => l
  | S fuel => if c (ch l) then read_fuel fuel c (readChar l) else l
  end.
Definition read_while (c : Ascii.ascii → bool) (l : Lexer) : Lexer := read_fuel (S (String.length (input l))) c l.

(** [l.input[start:l.pos]] *)
Definition since (start : nat) (l : Lexer) : string := String.substring start (pos l - start) (input l).

(** The bytes of a class from a position on. *)
Fixpoint span (c : Ascii.ascii → bool) (s : string) : string * string :=
  match s with
  | "" => ("", "")
  | String a s' => if c a then let '(x, y) := span c s' in (String a x, y) else ("", s)
  end.
(* internal/cli/lexer.go:56-70 Lexer.peekToken *)
Definition lexer_peekToken (l : Lexer) : string :=
  let rest := String.substring (readPos l) (String.length (input l)) (input l) in
  (span ident_byte (span white rest).2).1.

(* internal/cli/lexer.go:72-76 Lexer.skipWhitespace *)
Definition skipWhitespace (l : Lexer) : Lexer := read_while white l.

(* internal/cli/lexer.go:132-139 Lexer.readMetaCommand *)
Definition readMetaCommand (l : Lexer) : string * Lexer :=
  let l' := read_while (λ c, isLetter c || is_byte 63 c) (readChar l) in (since (pos l) l', l').
(* internal/cli/lexer.go:141-143 newToken *)
Definition newToken (tokenType : TokenType) (ch : Ascii.ascii) : Token := {| Type_ := tokenType; Value := byte_string ch |}.
(* internal/cli/lexer.go:145-151 Lexer.readIdentifier *)
Definition readIdentifier (l : Lexer) : string * Lexer :=
  let l' := read_while ident_byte l in (since (pos l) l', l').
(* internal/cli/lexer.go:153-172 Lexer.readNumber *)
Definition readNumber (l : Lexer) : Token * Lexer :=
  let l' := read_while isDigit l in
  if is_byte 46 (ch l') && isDigit (peekChar l')
  then let l' := read_while isDigit (readChar l') in ({| Type_ := TokenFloat; Value := since (pos l) l' |}, l')
  else ({| Type_ := TokenInteger; Value := since (pos l) l' |}, l').
(* internal/cli/lexer.go:174-185 Lexer.readQuotedString *)
Definition readQuotedString (quote : Ascii.ascii) (l : Lexer) : string * Lexer :=
  let l := readChar l in
  let l' := read_while (λ c, bool_decide (c ≠ quote) && bool_decide (c ≠ zero_byte)) l in
  (since (pos l) l', if decide (ch l' = quote) then readChar l' else l').

(** The words of the language, in upper case. *)
Definition keywords : list (string * TokenType) :=
  [("LOGIN", TokenLogin); ("LOGOUT", TokenLogout); ("REGISTER", TokenRegister); ("LIST", TokenList);
   ("SERVICES", TokenServices); ("SHOW", TokenShow); ("CREATE", TokenCreate); ("SERVICE", TokenService);
   ("SHUTDOWN", TokenShutdown); ("RESTART", TokenRestart); ("USERS", TokenUsers); ("DROP", TokenDrop);
   ("USER", TokenUser); ("ALTER", TokenAlter); ("ACTIVE", TokenActive); ("INACTIVE", TokenInactive);
   ("ADMIN", TokenAdmin); ("SERVER", TokenServer); ("API", TokenAPI); ("ADD", TokenAdd); ("LIVE", TokenLive);
   ("HEALTH", TokenHealth); ("HOST", TokenHost); ("DELETE", TokenDelete); ("PASSWORD", TokenPassword);
   ("DATASET", TokenDataset); ("DATASETS", TokenDatasets); ("OF", TokenOf); ("AGENTS", TokenAgents);
   ("SEARCHES", TokenSearches); ("ROLE", TokenRole); ("ROLES", TokenRoles); ("DESCRIPTION", TokenDescription);
   ("GRANT", TokenGrant); ("REVOKE", TokenRevoke); ("ALL", TokenAll); ("PERMISSION", TokenPermission);
   ("TO", TokenTo); ("FROM", TokenFrom); ("FOR", TokenFor); ("RESOURCES", TokenResources); ("ON", TokenOn);
   ("SET", TokenSet); ("UNSET", TokenUnset); ("RESET", TokenReset); ("VERSION", TokenVersion); ("VAR", TokenVar);
   ("VARS", TokenVars); ("CONFIGS", TokenConfigs); ("CONFIG", TokenConfig); ("ENVS", TokenEnvs); ("KEY", TokenKey);
   ("KEYS", TokenKeys); ("GENERATE", TokenGenerate); ("MODEL", TokenModel); ("MODELS", TokenModels);
   ("PROVIDER", TokenProvider); ("PROVIDERS", TokenProviders); ("DEFAULT", TokenDefault); ("CHATS", TokenChats);
   ("CHAT", TokenChat); ("OPENAI_CHAT", TokenOpenaiChat); ("MESSAGE", TokenMessage); ("IMAGE", TokenImage);
   ("VIDEO", TokenVideo); ("AUDIO", TokenAudio); ("THINK", TokenThink); ("EFFORT", TokenEffort);
   ("VERBOSITY", TokenVerbosity); ("NONE", TokenNone); ("MINIMAL", TokenMinimal); ("LOW", TokenLow);
   ("MEDIUM", TokenMedium); ("HIGH", TokenHigh); ("MAX", TokenMax); ("STORE", TokenStore); ("ENGINE", TokenEngine);
   ("STREAM", TokenStream); ("LS", TokenLS); ("CAT", TokenCat); ("FILES", TokenFiles); ("AS", TokenAs);
   ("PARSE", TokenParse); ("IMPORT", TokenImport); ("INTO", TokenInto); ("WITH", TokenWith); ("PARSER", TokenParser);
   ("PIPELINE", TokenPipeline); ("GET", TokenGet); ("SEARCH", TokenSearch); ("AGENT", TokenAgent);
   ("MEMORY", TokenMemory); ("MEMORIES", TokenMemories); ("RETRIEVE", TokenRetrieve); ("CURRENT", TokenCurrent);
   ("SOFT", TokenSoft); ("FINGERPRINT", TokenFingerprint); ("LICENSE", TokenLicense); ("VISION", TokenVision);
   ("EMBEDDING", TokenEmbedding); ("RERANK", TokenRerank); ("ASR", TokenASR); ("TTS", TokenTTS);
   ("EMBED", TokenEmbed); ("TEXT", TokenText); ("QUERY", TokenQuery); ("TOP", TokenTop);
   ("DIMENSION", TokenDimension); ("OCR", TokenOCR); ("DOC_PARSE", TokenDocParse); ("ASYNC", TokenAsync);
   ("SYNC", TokenSync); ("SYNC_LOGS", TokenSyncLogs); ("BENCHMARK", TokenBenchmark); ("PING", TokenPing);
   ("TOKEN", TokenToken); ("TOKENS", TokenTokens); ("INDEX", TokenIndex); ("VECTOR", TokenVector);
   ("SIZE", TokenSize); ("METADATA", TokenMetadata); ("TABLE", TokenTable); ("AVAILABLE", TokenAvailable);
   ("SUPPORTED", TokenSupported); ("NAME", TokenName); ("BALANCE", TokenBalance); ("INSTANCE", TokenInstance);
   ("INSTANCES", TokenInstances); ("DISABLE", TokenDisable); ("ENABLE", TokenEnable); ("INSERT", TokenInsert);
   ("FILE", TokenFile); ("USE", TokenUse); ("CHECK", TokenCheck); ("UPDATE", TokenUpdate); ("REMOVE", TokenRemove);
   ("EXPLAIN", TokenExplain); ("CHUNK", TokenChunk); ("CHUNKS", TokenChunks); ("DOCUMENT", TokenDocument);
   ("DOCUMENTS", TokenDocuments); ("TAGS", TokenTag); ("REGION", TokenRegion); ("URL", TokenURL); ("TASK", TokenTask);
   ("TASKS", TokenTasks); ("START", TokenStart); ("STOP", TokenStop); ("INGESTOR", TokenIngestor);
   ("INGESTORS", TokenIngestors); ("INGESTION", TokenIngestion); ("CACHE", TokenCache); ("MQ", TokenMQ);
   ("PUBLISH", TokenPublish); ("PULL", TokenPull); ("PENDING", TokenPending); ("NOACK", TokenNoACK);
   ("ANALYZE", TokenAnalyze); ("SUMMARY", TokenSummary); ("STATS", TokenStats); ("STORAGE", TokenStorage);
   ("QUOTA", TokenQuota); ("TREE", TokenTree); ("ORPHAN", TokenOrphan); ("DAYS", TokenDays); ("HOUR", TokenHour);
   ("DAY", TokenDay); ("MONTH", TokenMonth); ("WINDOW", TokenWindow); ("ACTIVITY", TokenActivity);
   ("PURGE", TokenPurge); ("PREVIEW", TokenPreview); ("PLAN", TokenPlan); ("DATA", TokenData); ("LOG", TokenLog);
   ("LOGS", TokenLogs); ("LEVEL", TokenLevel); ("DEBUG", TokenDebug); ("INFO", TokenInfo); ("IN", TokenIn);
   ("WARN", TokenWarn); ("ERROR", TokenError); ("FATAL", TokenFatal); ("PANIC", TokenPanic); ("PARAM", TokenParam);
   ("PLAY", TokenPlay); ("FORMAT", TokenFormat); ("SAVE", TokenSave)].
Definition keyword (upper : string) : option TokenType :=
  snd <$> (snd <$> list_find (λ k, k.1 = upper) keywords).

(* internal/cli/lexer.go:187-581 Lexer.lookupIdent *)
Definition lookupIdent (ident : string) (l : Lexer) : Token * Lexer :=
  match keyword (ascii_upper ident) with
  | None => ({| Type_ := TokenIdentifier; Value := ident |}, l)
  | Some TokenChunk =>
      if decide (ascii_upper (lexer_peekToken l) = "STORE")
      then ({| Type_ := TokenChunkStore; Value := "CHUNK STORE" |}, read_while ident_byte (read_while white l))
      else ({| Type_ := TokenChunk; Value := ident |}, l)
  | Some t => ({| Type_ := t; Value := ident |}, l)
  end.

(** Tokens of one byte. *)
Definition punctuation (c : Ascii.ascii) : option TokenType :=
  match byte_code c with
  | 59 => Some TokenSemicolon | 44 => Some TokenComma | 47 => Some TokenSlash | 45 => Some TokenDash
  | 91 => Some TokenLBracket | 93 => Some TokenRBracket | _ => None
  end%N.

(* internal/cli/lexer.go:79-130 Lexer.NextToken *)
Definition NextToken (l : Lexer) : Token * Lexer :=
  let l := skipWhitespace l in
  let c := ch l in
  match punctuation c with
  | Some t => (newToken t c, readChar l)
  | None =>
      if is_byte 39 c || is_byte 34 c
      then let '(s, l) := readQuotedString c l in ({| Type_ := TokenQuotedString; Value := s |}, l)
      else if is_byte 92 c then let '(s, l) := readMetaCommand l in ({| Type_ := TokenIdentifier; Value := s |}, l)
      else if is_byte 0 c then ({| Type_ := TokenEOF; Value := "" |}, l)
      else if isLetter c || is_byte 95 c then let '(s, l) := readIdentifier l in lookupIdent s l
      else if isDigit c then readNumber l
      else (newToken TokenIllegal c, readChar l)
  end.
