(* ===== verification/CliParser.v ===== *)
(** * The parser of the command line: state, helpers (internal/cli/parser.go)

    A recursive descent parser with two tokens in view.  Its functions are
    computations on the state of the parser that give a value or an error, whose
    text is the value of the error.  A loop that reads tokens may run for ever,
    which is an outcome of its own ([RLoop]). *)

From S2P Require Import Prelude GoValue AgentValue CliLexer.
From stdpp Require Import pretty.

(** ** Texts of errors that the library makes *)

Class CliText := {
  quote : string → string;          (* strconv.Quote, and the verb %q *)
  float_error : string → string;    (* of a text that strconv.ParseFloat refuses *)
  json_error : string → string;     (* of a text that json.Unmarshal refuses *)
}.

(** ** Commands *)

(** Parameters: the types of values the parser stores. *)
Inductive Param :=
| PStr (s : string)
| PInt (n : Z)
| PFloat (f : float64)
| PBool (b : bool)
| PStrs (l : list string)                   (* []string *)
| PInts (l : list Z)                        (* []int *)
| PModels (l : list (gmap string Param))    (* []map[string]any *)
| PSet (s : gset string)                    (* map[string]bool, true at these keys *)
| PNested (type_ : string) (params : gmap string Param).  (* *Command *)

(* internal/cli/types.go:20-23 Command *)
Record Command := { CmdType : string; CmdParams : gmap string Param }.
(* internal/cli/types.go:243-248 NewCommand *)
Definition NewCommand (cmdType : string) : Command := {| CmdType := cmdType; CmdParams := ∅ |}.
Definition PCmd (c : Command) : Param := PNested (CmdType c) (CmdParams c).
(** [cmd.Params[key] = v] *)
Definition param (cmd : Command) (key : string) (v : Param) : Command :=
  {| CmdType := CmdType cmd; CmdParams := <[key := v]> (CmdParams cmd) |}.

(** ** The state and computations on it *)

(* internal/cli/parser.go:27-32 Parser *)
Record Parser := { lexer : Lexer; cur : Token; peek : Token; original : string }.

Inductive res (A : Type) := ROk (a : A) (p : Parser) | RErr (err : string) | RLoop.
Arguments ROk {_} _ _. Arguments RErr {_} _. Arguments RLoop {_}.

Definition P (A : Type) : Type := Parser → res A.
#[export] Instance P_ret : MRet P := λ A a p, ROk a p.
#[export] Instance P_bind : MBind P := λ A B k m p,
  match m p with ROk a p => k a p | RErr e => RErr e | RLoop => RLoop end.
#[export] Instance P_fmap : FMap P := λ A B f m, a ← m; mret (f a).

Definition fail {A} (err : string) : P A := λ _, RErr err.
(** [p.curToken] *)
Definition curToken : P Token := λ p, ROk (cur p) p.
Definition tok_is (tok : Token) (t : TokenType) : bool := bool_decide (Type_ tok = t).
Definition tok_isnt (tok : Token) (t : TokenType) : bool := bool_decide (Type_ tok ≠ t).

(* internal/cli/parser.go:44-47 Parser.nextToken *)
Definition nextToken : P unit := λ p,
  let '(tok, l) := NextToken (lexer p) in
  ROk () {| lexer := l; cur := peek p; peek := tok; original := original p |}.

(** A parser before its first token: the zero token is of the first type. *)
(* internal/cli/parser.go:35-42 NewParser *)
Definition NewParser (s : string) : res unit :=
  let zero := {| Type_ := TokenLogin; Value := "" |} in
  (nextToken;; nextToken) {| lexer := NewLexer s; cur := zero; peek := zero; original := s |}.

(** *** The shapes of the statements *)

(** [fmt.Errorf("... %s", p.curToken.Value)] *)
Definition fail_got {A} (err : string) : P A := tok ← curToken; fail (err +:+ Value tok).
(** [if p.curToken.Type != t { return nil, fmt.Errorf(err) }] *)
Definition expect (t : TokenType) (err : string) : P unit := tok ← curToken; if tok_isnt tok t then fail err else mret ().
Definition expect_got (t : TokenType) (err : string) : P unit := tok ← curToken; if tok_isnt tok t then fail_got err else mret ().
(** [if p.curToken.Type == t { p.nextToken() }] *)
Definition skip (t : TokenType) : P unit := tok ← curToken; if tok_is tok t then nextToken else mret ().
(** [if err != nil { return nil, fmt.Errorf(prefix + "%w", err) }] after a call, and
    such a statement that drops the error. *)
Definition wrap {A} (prefix : string) (m : P A) : P A := λ p,
  match m p with RErr e => RErr (prefix +:+ e) | r => r end.
Definition instead {A} (err : string) (m : P A) : P A := λ p,
  match m p with RErr _ => RErr err | r => r end.
(** The same with [p.curToken.Value]: a call that fails has not moved. *)
Definition instead_got {A} (err : string) (m : P A) : P A := tok ← curToken; instead (err +:+ Value tok) m.
(** A call whose error is no error of the caller. *)
Definition try {A} (m : P A) : P (option A) := λ p,
  match m p with ROk a p' => ROk (Some a) p' | RErr _ => ROk None p | RLoop => RLoop end.

(** [switch p.curToken.Type], and a switch on a string. *)
Fixpoint select {A K} `{EqDecision K} (k : K) (cases : list (list K * P A)) (default : P A) : P A :=
  match cases with
  | [] => default
  | (ks, m) :: cases => if decide (k ∈ ks) then m else select k cases default
  end.
Definition switch {A} (cases : list (list TokenType * P A)) (default : P A) : P A :=
  tok ← curToken; select (Type_ tok) cases default.
Definition switch_str {A} (s : string) (cases : list (list string * P A)) (default : P A) : P A := select s cases default.

(** A loop over its variables; every iteration that goes on reads a token, so the
    number of bytes and tokens that are left is enough fuel. *)
Inductive flow (S : Type) := Continue (s : S) | Break (s : S).
Arguments Continue {_} _. Arguments Break {_} _.
Definition tokens_left (p : Parser) : nat := 3 + (String.length (input (lexer p)) - pos (lexer p)).
Fixpoint iterate {S} (fuel : nat) (body : S → P (flow S)) (s : S) : P S :=
  match fuel with
  | O => λ _, RLoop
  | Datatypes.S fuel => r ← body s; match r with Break s => mret s | Continue s => iterate fuel body s end
  end.
Definition loop {S} (body : S → P (flow S)) (s : S) : P S := λ p, iterate (Datatypes.S (tokens_left p)) body s p.

(** ** Numbers *)

(** [strconv.Atoi]: a sign and digits, within an int. *)
Definition all_digits (s : string) : bool := forallb isDigit (String.list_ascii_of_string s).
Definition atoi_value (s : string) : option Z :=
  let '(neg, d) := match s with
                   | String c d => if is_byte 45 c then (true, d) else if is_byte 43 c then (false, d) else (false, s)
                   | "" => (false, s)
                   end in
  if decide (d = "") then None else
  if all_digits d then
    let n := digits_value (digits (String.list_ascii_of_string d)) in
    let n := if neg : bool then (- n)%Z else n in
    if decide (in_int64 n) then Some n else None
  else None.
(** Whether the digits are the problem, or the range. *)
Definition atoi_reason (s : string) : string :=
  let d := match s with String c d => if is_byte 45 c || is_byte 43 c then d else s | "" => s end in
  if bool_decide (d ≠ "") && all_digits d then "value out of range" else "invalid syntax".

Section parser.
Context `{GoLib, CliText}.

Definition atoi (s : string) : P Z :=
  match atoi_value s with
  | Some n => mret n
  | None => fail ("strconv.Atoi: parsing " +:+ quote s +:+ ": " +:+ atoi_reason s)
  end.

(** ** Helpers of the parser *)

(* internal/cli/parser.go:272-274 isKeyword *)
Definition isKeyword (t : TokenType) : bool := bool_decide (iota TokenLogin ≤ iota t ∧ iota t ≤ iota TokenPanic)%Z.

(* internal/cli/parser.go:373-395 tokenTypeToString *)
Definition tokenTypeToString (t : TokenType) : string :=
  match t with
  | TokenEOF => "end of input"
  | TokenIdentifier => "identifier"
  | TokenInteger => "integer"
  | TokenFloat => "float"
  | TokenQuotedString => "quoted string"
  | TokenLBracket => "'['"
  | TokenRBracket => "']'"
  | TokenComma => "','"
  | TokenSemicolon => "';'"
  | _ => "token(" +:+ pretty (iota t) +:+ ")"
  end.

(* internal/cli/parser.go:253-259 Parser.expectPeek *)
Definition expectPeek (t : TokenType) : P unit := λ p,
  if decide (Type_ (peek p) ≠ t) then RErr ("expected " +:+ tokenTypeToString t +:+ ", got " +:+ Value (peek p))
  else nextToken p.
(* internal/cli/parser.go:261-270 Parser.expectSemicolon *)
Definition expectSemicolon : P unit := λ p,
  if decide (Type_ (cur p) = TokenSemicolon) then ROk () p
  else if decide (Type_ (peek p) = TokenSemicolon) then nextToken p
  else RErr "expected semicolon".

(* internal/cli/parser.go:287-292 Parser.parseQuotedString *)
Definition parseQuotedString : P string :=
  tok ← curToken; if tok_isnt tok TokenQuotedString then fail_got "expected quoted string, got " else mret (Value tok).
(* internal/cli/parser.go:294-299 Parser.parseIdentifier *)
Definition parseIdentifier : P string :=
  tok ← curToken; if tok_isnt tok TokenIdentifier then fail_got "expected identifier, got " else mret (Value tok).
(* internal/cli/parser.go:301-308 Parser.parseVariableValue *)
Definition parseVariableValue : P string :=
  tok ← curToken;
  switch [([TokenIdentifier; TokenQuotedString; TokenInteger; TokenFloat], mret (Value tok))]
    (fail_got "expected variable value, got ").
(* internal/cli/parser.go:310-315 Parser.parseNumber *)
Definition parseNumber : P Z :=
  tok ← curToken; if tok_isnt tok TokenInteger then fail_got "expected number, got " else atoi (Value tok).
(* internal/cli/parser.go:317-330 Parser.parseFloat *)
Definition parseFloat : P float64 :=
  tok ← curToken;
  if tok_isnt tok TokenInteger && tok_isnt tok TokenFloat then fail_got "expected number, got " else
  match parse_float (Value tok) with
  | Some f => mret f
  | None => fail (float_error (Value tok))
  end.

(* internal/cli/parser.go:338-371 Parser.parseQuotedStringList *)
Definition parseQuotedStringList : P (list string) :=
  expect_got TokenLBracket "expected '[', got ";;
  nextToken;;
  tok ← curToken;
  if tok_is tok TokenRBracket then nextToken;; mret [] else
  loop (λ list,
    s ← wrap "expected quoted string in list: " parseQuotedString;
    let list := list ++ [s] in
    nextToken;;
    switch [
      ([TokenComma], nextToken;; mret (Continue list));
      ([TokenRBracket], nextToken;; mret (Break list))
    ] (fail_got "expected ',' or ']' in list, got ")) [].

(* internal/cli/parser.go:397-404 Parser.parseFileSystemCommands *)
Definition parseFileSystemCommands : P Command := λ p,
  (nextToken;; mret (param (NewCommand "file_system_command") "command" (PStr (original p)))) p.

(* internal/cli/parser.go:63-78 Parser.parseMetaCommand *)
Definition parseMetaCommand : P Command :=
  tok ← curToken;
  let cmdName := match Value tok with String c s => if is_byte 92 c then s else Value tok | "" => "" end in
  let cmd := param (NewCommand "meta") "command" (PStr (to_lower cmdName)) in
  nextToken;;
  args ← loop (λ args : list string,
    tok ← curToken;
    if tok_isnt tok TokenEOF then nextToken;; mret (Continue (args ++ [Value tok])) else mret (Break args)) [];
  mret (param cmd "args" (PStrs args)).

(** ** Text that parameters are made of *)

(* internal/common/format.go:42-48 IsCompositeModelName *)
Definition IsCompositeModelName (modelName : string) : bool :=
  let parts := split_on (Ascii.ascii_of_N 64) modelName in
  bool_decide (length parts = 3%nat) && negb (bool_decide ("" ∈ parts)).
(* internal/common/format.go:50-60 IsUUID *)
Definition IsUUID (uuid : string) : bool :=
  bool_decide (String.length uuid = 32%nat)
  && forallb (λ c, byte_in 97 122 c || isDigit c) (String.list_ascii_of_string uuid).
(* internal/cli/cli.go:419-437 parseHostPort *)
Definition parseHostPort (hostPort : string) : P (string * Z) :=
  if decide (hostPort = "") then mret ("", (-1)%Z) else
  match split_on colon hostPort with
  | [host; port] =>
      match atoi_value port with
      | Some n => mret (host, n)
      | None => fail ("invalid port number: " +:+ port)
      end
  | _ => fail ("invalid host format, expected host:port, got: " +:+ hostPort)
  end.
(** [strings.Trim] of quotation marks *)
Definition quote_mark (c : Ascii.ascii) : bool := is_byte 39 c || is_byte 34 c.
Fixpoint drop_bytes (c : Ascii.ascii → bool) (l : list Ascii.ascii) : list Ascii.ascii :=
  match l with a :: l' => if c a then drop_bytes c l' else l | [] => [] end.
Definition TrimQuotes (s : string) : string :=
  String.string_of_list_ascii (reverse (drop_bytes quote_mark (reverse (drop_bytes quote_mark (String.list_ascii_of_string s))))).
(** [%s] of a parameter that may be missing; the code formats strings only. *)
Definition sprint (v : option Param) : string := match v with Some (PStr s) => s | _ => "" end.
(* internal/cli/user_parser.go:11-16 tokenTypeDescription *)
Definition tokenTypeDescription (t : TokenType) (tok : Token) : string :=
  if tok_is tok t && bool_decide (Value tok ≠ "") then tokenTypeToString t +:+ " " +:+ quote (Value tok) else tokenTypeToString t.
End parser.

Notation Split s sep := (split_on (default zero_byte (String.get 0 sep)) s) (only parsing).
Notation TrimSpace := trim_space (only parsing).
Notation ToLower := to_lower (only parsing).
Notation EqualFold := equal_fold (only parsing).
