(* ===== verification/CliLexerProps.v ===== *)
(** * The lexer of the command line: theorems

    Every token but the end of the input takes bytes away, so the lexer ends.  Texts
    that spell a list of tokens, with any white space, are read back as that list. *)

From S2P Require Import Prelude GoValue CliLexer CliParser.

(** ** The lexer moves on *)

Definition lexer_ok (l : Lexer) : Prop := readPos l = S (pos l) ∧ ch l = byte_at (input l) (pos l).
Definition rem (l : Lexer) : nat := String.length (input l) - pos l.
Definition weight (tok : Token) : nat := if tok_is tok TokenEOF then 0 else 1.

Lemma byte_at_inside s n : byte_at s n ≠ zero_byte → n < String.length s.
Proof.
  unfold byte_at. intros Hb. destruct (decide (n < String.length s)) as [|Hn]; [done|].
  exfalso. apply Hb. assert (String.get n s = None) as ->; [|done]. clear Hb.
  revert n Hn. induction s as [|c s IH]; intros [|n] Hn; cbn in *; try done; [lia|]. apply IH. lia.
Qed.
Lemma readChar_ok l : lexer_ok (readChar l).
Proof. by split. Qed.
Lemma readChar_rem l : lexer_ok l → rem (readChar l) ≤ rem l.
Proof. intros [Hr _]. unfold rem, readChar. cbn. rewrite Hr. lia. Qed.
Lemma readChar_less l : lexer_ok l → ch l ≠ zero_byte → rem (readChar l) < rem l.
Proof.
  intros [Hr Hc] Hne. rewrite Hc in Hne. apply byte_at_inside in Hne. unfold rem, readChar. cbn. rewrite Hr. lia.
Qed.

Lemma read_fuel_ok fuel c l : lexer_ok l → lexer_ok (read_fuel fuel c l) ∧ rem (read_fuel fuel c l) ≤ rem l.
Proof.
  revert l. induction fuel as [|fuel IH]; intros l Hl; cbn [read_fuel]; [done|].
  destruct (c (ch l)); [|done]. destruct (IH (readChar l) (readChar_ok l)) as [Ho Hr].
  split; [done|]. pose proof (readChar_rem l Hl). lia.
Qed.
Lemma read_while_ok c l : lexer_ok l → lexer_ok (read_while c l) ∧ rem (read_while c l) ≤ rem l.
Proof. apply read_fuel_ok. Qed.
Lemma read_while_less c l :
  lexer_ok l → c (ch l) = true → c zero_byte = false → lexer_ok (read_while c l) ∧ rem (read_while c l) < rem l.
Proof.
  intros Hl Hc Hz. unfold read_while. cbn [read_fuel]. rewrite Hc.
  destruct (read_fuel_ok (String.length (input l)) c (readChar l) (readChar_ok l)) as [Ho Hr].
  split; [done|]. assert (rem (readChar l) < rem l); [|lia]. apply readChar_less; [done|]. congruence.
Qed.

Definition moves (l : Lexer) (r : Token * Lexer) : Prop := lexer_ok r.2 ∧ weight r.1 + rem r.2 ≤ rem l.
Lemma moves_less l tok l' : lexer_ok l' → rem l' < rem l → moves l (tok, l').
Proof. intros Ho Hr. split; [done|]. cbn. unfold weight. case_match; lia. Qed.

Lemma lookupIdent_moves l l' s : lexer_ok l' → rem l' < rem l → moves l (lookupIdent s l').
Proof.
  intros Ho Hr. unfold lookupIdent. destruct (keyword _) as [t|]; [|by apply moves_less].
  assert (Hd : moves l ({| Type_ := t; Value := s |}, l')) by by apply moves_less.
  destruct t; try exact Hd. case_decide; [|exact Hd]. clear Hd.
  destruct (read_while_ok white l' Ho) as [Ho1 Hr1]. destruct (read_while_ok ident_byte _ Ho1) as [Ho2 Hr2].
  apply moves_less; [done|lia].
Qed.
Lemma readNumber_moves l : lexer_ok l → isDigit (ch l) = true → moves l (readNumber l).
Proof.
  intros Hl Hd. unfold readNumber. destruct (read_while_less isDigit l Hl Hd eq_refl) as [Ho Hr].
  case_match; [|by apply moves_less]. destruct (read_while_ok isDigit _ (readChar_ok (read_while isDigit l))) as [Ho1 Hr1].
  pose proof (readChar_rem _ Ho). apply moves_less; [done|lia].
Qed.
Lemma readQuotedString_moves c l :
  lexer_ok l → ch l ≠ zero_byte → lexer_ok (readQuotedString c l).2 ∧ rem (readQuotedString c l).2 < rem l.
Proof.
  intros Hl Hc. unfold readQuotedString. set (f := λ c0 : Ascii.ascii, _).
  destruct (read_while_ok f _ (readChar_ok l)) as [Ho Hr]. pose proof (readChar_less l Hl Hc). cbn [snd].
  case_decide; [|split; [done|lia]]. pose proof (readChar_rem _ Ho). split; [apply readChar_ok|lia].
Qed.

Lemma NextToken_moves l : lexer_ok l → moves l (NextToken l).
Proof.
  intros Hl. unfold NextToken, skipWhitespace. destruct (read_while_ok white l Hl) as [Ho Hr].
  set (l1 := read_while white l) in *. clearbody l1.
  assert (Hw : ∀ r, moves l1 r → moves l r) by (intros r [? ?]; split; [done|lia]). apply Hw. clear Hw Hr Hl l.
  destruct (punctuation (ch l1)) as [t|] eqn:Ep.
  { apply moves_less; [apply readChar_ok|]. apply readChar_less; [done|]. intros E. by rewrite E in Ep. }
  destruct (is_byte 39 (ch l1) || is_byte 34 (ch l1)) eqn:Eq.
  { assert (ch l1 ≠ zero_byte) by (intros E; by rewrite E in Eq).
    pose proof (readQuotedString_moves (ch l1) l1 Ho) as Hq. destruct (readQuotedString (ch l1) l1) as [s l2].
    destruct Hq; [done|]. by apply moves_less. }
  destruct (is_byte 92 (ch l1)) eqn:Eb.
  { unfold readMetaCommand. set (f := λ c : Ascii.ascii, _).
    destruct (read_while_ok f _ (readChar_ok l1)) as [Ho1 Hr1].
    assert (rem (readChar l1) < rem l1) by (apply readChar_less; [done|intros E; by rewrite E in Eb]).
    apply moves_less; [done|lia]. }
  destruct (is_byte 0 (ch l1)) eqn:E0; [by split|].
  destruct (isLetter (ch l1) || is_byte 95 (ch l1)) eqn:El.
  { unfold readIdentifier. destruct (read_while_less ident_byte l1 Ho) as [Ho1 Hr1]; [|done|by apply lookupIdent_moves].
    unfold ident_byte. apply orb_true_iff in El as [->|Eu]; [done|]. unfold is_byte in Eu. apply bool_decide_eq_true in Eu.
    rewrite Eu. by rewrite !orb_true_r. }
  destruct (isDigit (ch l1)) eqn:Ed; [by apply readNumber_moves|].
  apply moves_less; [apply readChar_ok|]. apply readChar_less; [done|]. intros E. by rewrite E in E0.
Qed.

(** The tokens of an input, one by one; after the last one, the end of the input. *)
Fixpoint nth_token (n : nat) (l : Lexer) : Token :=
  match n with O => (NextToken l).1 | S n => nth_token n (NextToken l).2 end.
Definition same_tokens (l l' : Lexer) : Prop := ∀ n, nth_token n l = nth_token n l'.
Lemma same_next l l' : same_tokens l l' → (NextToken l).1 = (NextToken l').1 ∧ same_tokens (NextToken l).2 (NextToken l').2.
Proof. intros Hs. split; [apply (Hs 0)|intros n; apply (Hs (S n))]. Qed.

(** ** Words are read back *)

Definition every (c : Ascii.ascii → bool) (s : string) : bool := forallb c (String.list_ascii_of_string s).
(** A lexer that has read [pre] and stands before [rest]. *)
Record stands (l : Lexer) (pre rest : string) : Prop := {
  stands_input : input l = pre +:+ rest;
  stands_pos : pos l = String.length pre;
  stands_next : readPos l = S (pos l);
  stands_ch : ch l = byte_at rest 0;
}.

Lemma byte_at_app s t n : byte_at (s +:+ t) (String.length s + n) = byte_at t n.
Proof. induction s as [|c s IH]; [done|]. exact IH. Qed.
Lemma substring_middle s t u : String.substring (String.length s) (String.length t) (s +:+ t +:+ u) = t.
Proof.
  induction s as [|c s IH]; [|exact IH]. cbn [String.length].
  induction t as [|c t IH]; [by destruct u|]. exact (f_equal (String c) IH).
Qed.

Lemma stands_new s : stands (NewLexer s) "" s.
Proof. by split. Qed.
Lemma stands_read l pre c rest : stands l pre (String c rest) → stands (readChar l) (pre +:+ String c "") rest.
Proof.
  intros [Hi Hp Hr _]. split; unfold readChar; cbn [input pos readPos ch].
  - by rewrite Hi, string_app_assoc.
  - rewrite Hr, Hp, string_length_app. cbn. lia.
  - done.
  - rewrite Hi, Hr, Hp. replace (S (String.length pre)) with (String.length pre + 1) by lia. by rewrite byte_at_app.
Qed.
Lemma stands_fuel fuel c l pre w rest :
  stands l pre (w +:+ rest) → every c w = true → c (byte_at rest 0) = false → String.length w < fuel →
  stands (read_fuel fuel c l) (pre +:+ w) rest.
Proof.
  revert fuel l pre. induction w as [|a w IH]; intros [|fuel] l pre Hs Hw Hr Hf; cbn in Hf; try lia; cbn [read_fuel].
  - change ("" +:+ rest) with rest in Hs. rewrite (stands_ch _ _ _ Hs), Hr. by rewrite string_app_nil.
  - apply andb_true_iff in Hw as [Ha Hw]. rewrite (stands_ch _ _ _ Hs). change (byte_at (String a w +:+ rest) 0) with a.
    rewrite Ha. replace (pre +:+ String a w) with ((pre +:+ String a "") +:+ w) by by rewrite string_app_assoc.
    apply IH; [by apply stands_read|done..|lia].
Qed.
Lemma stands_while c l pre w rest :
  stands l pre (w +:+ rest) → every c w = true → c (byte_at rest 0) = false → stands (read_while c l) (pre +:+ w) rest.
Proof.
  intros Hs Hw Hr. apply stands_fuel; [done..|]. rewrite (stands_input _ _ _ Hs), !string_length_app. lia.
Qed.
Lemma since_read l pre w rest : stands l (pre +:+ w) rest → since (String.length pre) l = w.
Proof.
  intros [Hi Hp _ _]. unfold since. rewrite Hi, Hp, string_length_app, string_app_assoc.
  replace (_ + _ - _) with (String.length w) by lia. apply substring_middle.
Qed.

(** Words: quoted strings without the quotation mark, numbers, punctuation, and
    identifiers and keywords but CHUNK, which looks at the word after it. *)
Definition mark : Ascii.ascii := Ascii.ascii_of_N 39.
Definition dot : string := String (Ascii.ascii_of_N 46) "".
Inductive word : Token → string → Prop :=
| word_quoted v :
    every (λ c, bool_decide (c ≠ mark) && bool_decide (c ≠ zero_byte)) v = true →
    word {| Type_ := TokenQuotedString; Value := v |} (String mark v +:+ String mark "")
| word_integer c v : every isDigit (String c v) = true → word {| Type_ := TokenInteger; Value := String c v |} (String c v)
| word_float c v c' v' :
    every isDigit (String c v) = true → every isDigit (String c' v') = true →
    word {| Type_ := TokenFloat; Value := String c v +:+ dot +:+ String c' v' |} (String c v +:+ dot +:+ String c' v')
| word_mark c t : punctuation c = Some t → word {| Type_ := t; Value := String c "" |} (String c "")
| word_identifier c v t :
    isLetter c || is_byte 95 c = true → every ident_byte (String c v) = true → t ≠ TokenChunk →
    default TokenIdentifier (keyword (ascii_upper (String c v))) = t →
    word {| Type_ := t; Value := String c v |} (String c v).


(** Facts about single bytes, by looking at all of them. *)
Ltac all_bytes c := destruct c as [[] [] [] [] [] [] [] []]; vm_compute; naive_solver.
(** Which case of [NextToken] a byte is in. *)
Inductive byte_kind := BWhite | BMark (t : TokenType) | BQuote | BMeta | BEnd | BLetter | BDigit | BOther.
Definition kind (c : Ascii.ascii) : byte_kind :=
  if white c then BWhite else
  match punctuation c with
  | Some t => BMark t
  | None => if is_byte 39 c || is_byte 34 c then BQuote else if is_byte 92 c then BMeta else if is_byte 0 c then BEnd
            else if isLetter c || is_byte 95 c then BLetter else if isDigit c then BDigit else BOther
  end.
Lemma kind_digit c : isDigit c = true → kind c = BDigit.
Proof. all_bytes c. Qed.
Lemma kind_letter c : isLetter c || is_byte 95 c = true → kind c = BLetter.
Proof. all_bytes c. Qed.
Lemma kind_mark c t : punctuation c = Some t → kind c = BMark t.
Proof. all_bytes c. Qed.
Lemma mark_byte c t : punctuation c = Some t → byte_string c = String c "".
Proof. all_bytes c. Qed.
Lemma ident_other c : ident_byte c = false → isDigit c = false ∧ is_byte 46 c = false.
Proof. all_bytes c. Qed.

Lemma next_kind l pre w c rest :
  stands l pre (w +:+ String c rest) → every white w = true → white c = false →
  ∃ l', stands l' (pre +:+ w) (String c rest) ∧ 
  NextToken l =
    match kind c with
    | BMark t => (newToken t c, readChar l')
    | BQuote => let '(s, l) := readQuotedString c l' in ({| Type_ := TokenQuotedString; Value := s |}, l)
    | BMeta => let '(s, l) := readMetaCommand l' in ({| Type_ := TokenIdentifier; Value := s |}, l)
    | BEnd => ({| Type_ := TokenEOF; Value := "" |}, l')
    | BLetter => let '(s, l) := readIdentifier l' in lookupIdent s l
    | BDigit => readNumber l'
    | _ => (newToken TokenIllegal c, readChar l')
    end.
Proof.
  intros Hs Hw Hc. pose proof (stands_while white l pre w (String c rest) Hs Hw Hc) as Hl.
  exists (read_while white l). split; [done|]. unfold NextToken, skipWhitespace, kind. rewrite (stands_ch _ _ _ Hl).
  change (byte_at (String c rest) 0) with c. rewrite Hc. destruct (punctuation c); [done|].
  repeat (case_match; try done).
Qed.

Section words.
Context (l : Lexer) (pre w : string) (rest : string).
Hypothesis Hw : every white w = true.
Hypothesis Hc : ident_byte (byte_at rest 0) = false.
Definition reads (tok : Token) (s : string) : Prop :=
  stands l pre (w +:+ s +:+ rest) →
  ∃ l', NextToken l = (tok, l') ∧ stands l' ((pre +:+ w) +:+ s) rest.

Lemma read_quoted v :
  every (λ c, bool_decide (c ≠ mark) && bool_decide (c ≠ zero_byte)) v = true →
  reads {| Type_ := TokenQuotedString; Value := v |} (String mark v +:+ String mark "").
Proof.
  intros Hv Hs. destruct (next_kind l pre w mark (v +:+ String mark rest)) as (l1 & H1 & ->); [|done|done|].
  { rewrite string_app_assoc in Hs. exact Hs. }
  change (kind mark) with BQuote. cbv iota. unfold readQuotedString. apply stands_read in H1.
  eapply stands_while in H1 as H2; [|exact Hv|by vm_compute].
  rewrite (stands_ch _ _ _ H2). change (byte_at (String mark rest) 0) with mark. rewrite decide_True by done.
  eexists. split; [f_equal; f_equal|].
  - rewrite (stands_pos _ _ _ H1). by apply since_read in H2.
  - apply stands_read in H2. rewrite !string_app_assoc in H2. by rewrite !string_app_assoc.
Qed.
Lemma read_mark a t : punctuation a = Some t → reads {| Type_ := t; Value := String a "" |} (String a "").
Proof.
  intros Ha Hs. pose proof (mark_byte a t Ha) as Hb. apply kind_mark in Ha. destruct (next_kind l pre w a rest) as (l1 & H1 & ->); [done..| |].
  { unfold kind in Ha. by destruct (white a). }
  rewrite Ha. unfold newToken. rewrite Hb. eexists. split; [done|]. by apply stands_read.
Qed.
Lemma read_integer a v :
  every isDigit (String a v) = true → reads {| Type_ := TokenInteger; Value := String a v |} (String a v).
Proof.
  intros Hv Hs. assert (Ha : kind a = BDigit) by (apply kind_digit; by apply andb_true_iff in Hv as [? _]).
  destruct (next_kind l pre w a (v +:+ rest)) as (l1 & H1 & ->); [done..| |].
  { unfold kind in Ha. by destruct (white a). }
  rewrite Ha. destruct (ident_other _ Hc) as [Hd Hdot]. unfold readNumber.
  pose proof (stands_while isDigit l1 (pre +:+ w) (String a v) rest H1 Hv Hd) as H2.
  rewrite (stands_ch _ _ _ H2). rewrite Hdot. cbn [andb].
  eexists. split; [|exact H2]. rewrite (stands_pos _ _ _ H1). by rewrite (since_read _ _ _ _ H2).
Qed.
Lemma read_float a v a' v' :
  every isDigit (String a v) = true → every isDigit (String a' v') = true →
  reads {| Type_ := TokenFloat; Value := String a v +:+ dot +:+ String a' v' |} (String a v +:+ dot +:+ String a' v').
Proof.
  intros Hv Hv' Hs. assert (Ha : kind a = BDigit) by (apply kind_digit; by apply andb_true_iff in Hv as [? _]).
  destruct (next_kind l pre w a (v +:+ dot +:+ String a' v' +:+ rest)) as (l1 & H1 & ->); [|done| |].
  { rewrite !string_app_assoc in Hs. exact Hs. } { unfold kind in Ha. by destruct (white a). }
  rewrite Ha. unfold readNumber.
  pose proof (stands_while isDigit l1 (pre +:+ w) (String a v) (dot +:+ String a' v' +:+ rest) H1 Hv eq_refl) as H2.
  rewrite (stands_ch _ _ _ H2). change (byte_at (dot +:+ _) 0) with (Ascii.ascii_of_N 46).
  assert (peekChar (read_while isDigit l1) = a') as ->.
  { unfold peekChar. destruct H2 as [Hi Hp Hr _]. rewrite Hi, Hr, Hp.
    replace (S _) with (String.length ((pre +:+ w) +:+ String a v) + 1) by lia. by rewrite byte_at_app. }
  assert (isDigit a' = true) as -> by by apply andb_true_iff in Hv' as [? _].
  change (is_byte 46 (Ascii.ascii_of_N 46) && true) with true. cbv iota.
  apply (stands_read _ _ _ (String a' v' +:+ rest)) in H2.
  eapply stands_while in H2 as H3; [|exact Hv'|by apply ident_other].
  rewrite (stands_pos _ _ _ H1). rewrite !string_app_assoc in H3. change (String (Ascii.ascii_of_N 46) "") with dot in H3.
  rewrite <- (string_app_assoc pre w) in H3. eexists. split; [|exact H3]. by rewrite (since_read _ _ _ _ H3).
Qed.
Lemma read_identifier a v t :
  isLetter a || is_byte 95 a = true → every ident_byte (String a v) = true → t ≠ TokenChunk →
  default TokenIdentifier (keyword (ascii_upper (String a v))) = t → reads {| Type_ := t; Value := String a v |} (String a v).
Proof.
  intros Ha Hv Hne Hk Hs. apply kind_letter in Ha.
  destruct (next_kind l pre w a (v +:+ rest)) as (l1 & H1 & ->); [done..| |].
  { unfold kind in Ha. by destruct (white a). }
  rewrite Ha. unfold readIdentifier.
  pose proof (stands_while ident_byte l1 (pre +:+ w) (String a v) rest H1 Hv Hc) as H2.
  rewrite (stands_pos _ _ _ H1), (since_read _ _ _ _ H2). exists (read_while ident_byte l1). split; [|exact H2].
  unfold lookupIdent. subst t. destruct (keyword _) as [k|]; [|done]. by destruct k.
Qed.
Lemma read_word tok s : word tok s → reads tok s.
Proof. destruct 1; auto using read_quoted, read_mark, read_integer, read_float, read_identifier. Qed.
End words.

(** Texts that spell a list of tokens: white space before a word is free, and it is
    needed where the word would go on otherwise. *)
Inductive spelled : list Token → string → Prop :=
| spelled_end w : every white w = true → spelled [] w
| spelled_word w tok s rest ts :
    every white w = true → word tok s → ident_byte (byte_at rest 0) = false → spelled ts rest →
    spelled (tok :: ts) (w +:+ s +:+ rest).
Definition eof : Token := {| Type_ := TokenEOF; Value := "" |}.

Lemma read_end l pre w : stands l pre w → every white w = true → ∃ l', NextToken l = (eof, l') ∧ stands l' (pre +:+ w) "".
Proof.
  intros Hs Hw. rewrite <- (string_app_nil w) in Hs. pose proof (stands_while white l pre w "" Hs Hw eq_refl) as Hl.
  exists (read_while white l). split; [|done]. unfold NextToken, skipWhitespace. by rewrite (stands_ch _ _ _ Hl).
Qed.
Lemma spelled_tokens ts s n : spelled ts s → ∀ l pre, stands l pre s → nth_token n l = default eof (ts !! n).
Proof.
  intros Hs. revert n. induction Hs as [w Hw|w tok s rest ts Hw Hword Hc _ IH]; intros n l pre Hl.
  - cbn. revert l pre w Hw Hl. induction n as [|n IH]; intros l pre w Hw Hl; cbn [nth_token];
      destruct (read_end l pre w Hl Hw) as (l' & -> & Hl'); [done|]. by apply (IH l' (pre +:+ w) "").
  - destruct (read_word l pre w rest Hw Hc tok s Hword Hl) as (l' & Hn & Hl').
    destruct n as [|n]; cbn [nth_token]; rewrite Hn; [done|]. by apply (IH n l' _ Hl').
Qed.

(** C21: A text that spells a list of tokens (quoted strings, numbers, punctuation,
    identifiers and keywords, in upper or lower case, between them any white space,
    or none where the word ends anyway) is read by the lexer as exactly these tokens,
    followed by the end of the input for ever. *)
Theorem lexer_reads_back ts s : spelled ts s → ∀ n, nth_token n (NewLexer s) = default eof (ts !! n).
Proof. intros Hs n. by apply (spelled_tokens ts s n Hs _ ""), stands_new. Qed.

(** Two spellings of a short command. *)
Definition list_users : list Token :=
  [{| Type_ := TokenList; Value := "LIST" |}; {| Type_ := TokenUsers; Value := "users" |}; {| Type_ := TokenSemicolon; Value := ";" |}].
Ltac spell := first [apply word_identifier; [reflexivity..|discriminate|reflexivity] | by apply word_mark].
Lemma spelled_close : spelled list_users "LIST users;".
Proof.
  apply (spelled_word "" _ "LIST" " users;"); [done|spell|done|].
  apply (spelled_word " " _ "users" ";"); [done|spell|done|].
  apply (spelled_word "" _ ";" ""); [done|spell|done|by apply spelled_end].
Qed.
Lemma spelled_wide : spelled list_users " LIST   users ;  ".
Proof.
  apply (spelled_word " " _ "LIST" "   users ;  "); [done|spell|done|].
  apply (spelled_word "   " _ "users" " ;  "); [done|spell|done|].
  apply (spelled_word " " _ ";" "  "); [done|spell|done|by apply spelled_end].
Qed.
Lemma same_spelled ts s s' : spelled ts s → spelled ts s' → same_tokens (NewLexer s) (NewLexer s').
Proof.
  intros Hs Hs' n. by rewrite (spelled_tokens ts s n Hs _ "" (stands_new s)), (spelled_tokens ts s' n Hs' _ "" (stands_new s')).
Qed.
Lemma lexer_reads_back_witness :
  nth_token 1 (NewLexer " LIST   users ;  ") = {| Type_ := TokenUsers; Value := "users" |}
  ∧ nth_token 7 (NewLexer " LIST   users ;  ") = eof.
Proof. split; exact (lexer_reads_back list_users _ spelled_wide _). Defined.
