(* ===== verification/CliDev.v ===== *)
(** * Commands for developers (internal/cli/dev_parser.go) *)

From S2P Require Import Prelude GoValue AgentValue Reranker CliLexer CliParser.
From stdpp Require Import pretty.

Section commands.
Context `{GoLib, CliText}.

(* internal/cli/dev_parser.go:41-71 Parser.parseInsertChunksFromFile *)
Definition parseInsertChunksFromFile : P Command :=
  nextToken;; expect_got TokenFrom "expected FROM, got ";;
  nextToken;; expect_got TokenFile "expected FILE, got ";; nextToken;;
  filePath ← parseQuotedString;
  let cmd := NewCommand "dev_insert_chunks_from_file" in
  let cmd := param cmd "file_path" (PStr filePath) in
  nextToken;; skip TokenSemicolon;; mret cmd.

(* internal/cli/dev_parser.go:75-105 Parser.parseInsertMetadataFromFile *)
Definition parseInsertMetadataFromFile : P Command :=
  nextToken;; expect_got TokenFrom "expected FROM, got ";;
  nextToken;; expect_got TokenFile "expected FILE, got ";; nextToken;;
  filePath ← parseQuotedString;
  let cmd := NewCommand "dev_insert_metadata_from_file" in
  let cmd := param cmd "file_path" (PStr filePath) in
  nextToken;; skip TokenSemicolon;; mret cmd.

(* internal/cli/dev_parser.go:26-37 Parser.parseDevInsertCommand *)
Definition parseDevInsertCommand : P Command :=
  nextToken;;
  tok ← curToken;
  if tok_is tok TokenChunks then parseInsertChunksFromFile else
  tok ← curToken;
  if tok_is tok TokenMetadata then parseInsertMetadataFromFile
  else fail_got "expected CHUNKS or METADATA after INSERT, got ".

(* internal/cli/dev_parser.go:122-177 Parser.parseGetChunk *)
Definition parseGetChunk : P Command :=
  nextToken;;
  chunkID ← wrap "expected chunk_id: " parseQuotedString;
  let cmd := param (NewCommand "dev_get_chunk") "chunk_id" (PStr chunkID) in
  nextToken;; expect TokenOf "expected OF after chunk_id";;
  nextToken;; expect TokenDocument "expected DOCUMENT after OF";; nextToken;;
  docID ← wrap "expected doc_id: " parseQuotedString;
  let cmd := param cmd "doc_id" (PStr docID) in
  nextToken;; expect TokenIn "expected IN after doc_id";;
  nextToken;; expect TokenDataset "expected DATASET after IN";; nextToken;;
  datasetID ← wrap "expected dataset_id: " parseQuotedString;
  let cmd := param cmd "dataset_id" (PStr datasetID) in
  nextToken;; skip TokenSemicolon;; mret cmd.

(* internal/cli/dev_parser.go:661-707 Parser.parseGetMetadata *)
Definition parseGetMetadata : P Command :=
  nextToken;; expect TokenOf "expected OF after METADATA";;
  nextToken;; expect TokenDataset "expected DATASET after OF";; nextToken;;
  let datasetNames : list string := [] in
  datasetNames ← loop (λ datasetNames,
      name ← wrap "expected dataset name: " parseQuotedString;
      let datasetNames := datasetNames ++ [name] in
      nextToken;;
      tok ← curToken;
      if tok_is tok TokenComma then
        fail ("syntax error: dataset names must be space-separated, not comma-separated (got " +:+ (quote "'") +:+ " after " +:+ (quote name) +:+ ")")
      else
      tok ← curToken;
      if tok_is tok TokenSemicolon then mret (Break datasetNames) else
      tok ← curToken;
      if tok_isnt tok TokenQuotedString then mret (Break datasetNames) else mret (Continue datasetNames)) datasetNames;
  let cmd := NewCommand "dev_get_metadata" in
  let cmd := param cmd "dataset_names" (PStrs datasetNames) in
  skip TokenSemicolon;; mret cmd.

(* internal/cli/dev_parser.go:108-119 Parser.parseDevGetCommand *)
Definition parseDevGetCommand : P Command :=
  nextToken;;
  tok ← curToken;
  if tok_is tok TokenChunk then parseGetChunk else
  tok ← curToken;
  if tok_is tok TokenMetadata then parseGetMetadata else fail_got "unknown GET target: ".

(* internal/cli/dev_parser.go:193-261 Parser.parseUpdateChunk *)
Definition parseUpdateChunk : P Command :=
  nextToken;;
  chunkID ← wrap "expected chunk_id: " parseQuotedString;
  let cmd := param (NewCommand "dev_update_chunk") "chunk_id" (PStr chunkID) in
  nextToken;; expect TokenOf "expected OF after chunk_id";;
  nextToken;; expect TokenDocument "expected DOCUMENT after OF";; nextToken;;
  docID ← wrap "expected doc_id: " parseQuotedString;
  let cmd := param cmd "doc_id" (PStr docID) in
  nextToken;; expect TokenIn "expected IN after doc_id";;
  nextToken;; expect TokenDataset "expected DATASET after IN";; nextToken;;
  datasetName ← wrap "expected dataset_name: " parseQuotedString;
  let cmd := param cmd "dataset_name" (PStr datasetName) in
  nextToken;; expect TokenSet "expected SET after dataset_name";; nextToken;;
  jsonBody ← wrap "expected JSON body: " parseQuotedString;
  let cmd := param cmd "json_body" (PStr jsonBody) in
  nextToken;; skip TokenSemicolon;; mret cmd.

(* internal/cli/dev_parser.go:181-189 Parser.parseDevUpdateCommand *)
Definition parseDevUpdateCommand : P Command :=
  nextToken;;
  tok ← curToken;
  if tok_is tok TokenChunk then parseUpdateChunk else fail_got "unknown UPDATE target: ".

(* internal/cli/dev_parser.go:264-308 Parser.parseDevSetMeta *)
Definition parseDevSetMeta : P Command :=
  nextToken;; expect TokenOf "expected OF after SET METADATA";;
  nextToken;; expect TokenDocument "expected DOCUMENT after SET METADATA OF";; nextToken;;
  docID ← wrap "expected doc_id: " parseQuotedString;
  let cmd := param (NewCommand "dev_set_meta") "doc_id" (PStr docID) in
  nextToken;; expect TokenTo "expected TO after doc_id";; nextToken;;
  meta ← wrap "expected meta JSON: " parseQuotedString;
  let cmd := param cmd "meta" (PStr meta) in
  nextToken;; skip TokenSemicolon;; mret cmd.

(* internal/cli/dev_parser.go:312-367 Parser.parseDevDeleteMeta *)
Definition parseDevDeleteMeta : P Command :=
  nextToken;; expect TokenOf "expected OF after DELETE METADATA";;
  nextToken;; expect TokenDocument "expected DOCUMENT after DELETE METADATA OF";; nextToken;;
  docID ← wrap "expected doc_id: " parseQuotedString;
  let cmd := param (NewCommand "dev_delete_meta") "doc_id" (PStr docID) in
  nextToken;;
  tok ← curToken;
  if tok_isnt tok TokenKeys then
    tok ← curToken;
    if tok_is tok TokenSemicolon then nextToken;; mret cmd else
    tok ← curToken;
    if tok_is tok TokenEOF then mret cmd else fail "expected KEYS or end of command after doc_id"
  else
  nextToken;;
  keys ← wrap "expected keys JSON array: " parseQuotedString;
  let cmd := param cmd "keys" (PStr keys) in
  nextToken;;
  tok ← curToken;
  if tok_is tok TokenSemicolon then nextToken;; mret cmd
  else expect TokenEOF "expected end of command after KEYS";; mret cmd.

(* internal/cli/dev_parser.go:370-422 Parser.parseDevRemoveTags *)
Definition parseDevRemoveTags : P Command :=
  nextToken;;
  tag ← wrap "expected tag: " parseQuotedString;
  let tags := [tag] in
  tags ← loop (λ tags,
      nextToken;;
      tok ← curToken;
      if tok_is tok TokenComma then
        nextToken;;
        tag ← wrap "expected tag after comma: " parseQuotedString;
        let tags := tags ++ [tag] in
        mret (Continue tags)
      else mret (Break tags)) tags;
  let cmd := param (NewCommand "dev_rm_tags") "tags" (PStrs tags) in
  expect TokenFrom "expected FROM after tags";;
  nextToken;; expect TokenDataset "expected DATASET after FROM";; nextToken;;
  datasetName ← wrap "expected dataset_name: " parseQuotedString;
  let cmd := param cmd "dataset_name" (PStr datasetName) in
  skip TokenSemicolon;; mret cmd.

(* internal/cli/dev_parser.go:427-513 Parser.parseDevRemoveChunk *)
Definition parseDevRemoveChunk : P Command :=
  let cmd := NewCommand "dev_remove_chunks" in
  tok ← curToken;
  cmd ← (
    if tok_is tok TokenAll then
      nextToken;; expect TokenChunks "expected CHUNKS after ALL";; nextToken;;
      mret (param cmd "delete_all" (PBool true))
    else
    nextToken;;
    chunkID ← wrap "expected chunk_id: " parseQuotedString;
    let chunkIDs := [chunkID] in
    chunkIDs ← loop (λ chunkIDs,
        nextToken;;
        tok ← curToken;
        if tok_is tok TokenFrom || tok_isnt tok TokenQuotedString then mret (Break chunkIDs) else
        chunkID ← wrap "expected chunk_id: " parseQuotedString;
        let chunkIDs := chunkIDs ++ [chunkID] in
        mret (Continue chunkIDs)) chunkIDs;
    mret (param cmd "chunk_ids" (PStrs chunkIDs)));
  expect TokenFrom "expected FROM after chunk(s)";;
  nextToken;; expect TokenDocument "expected DOCUMENT after FROM";; nextToken;;
  docID ← wrap "expected doc_id: " parseQuotedString;
  let cmd := param cmd "doc_id" (PStr docID) in
  nextToken;; expect TokenIn "expected IN after doc_id";;
  nextToken;; expect TokenDataset "expected DATASET after IN";; nextToken;;
  datasetName ← wrap "expected dataset_name: " parseQuotedString;
  let cmd := param cmd "dataset_name" (PStr datasetName) in
  nextToken;; skip TokenSemicolon;; mret cmd.

(* internal/cli/dev_parser.go:517-545 Parser.parseDevDropChunkStore *)
Definition parseDevDropChunkStore : P Command :=
  nextToken;; expect_got TokenFor "expected FOR after CHUNK STORE, got ";;
  nextToken;; expect_got TokenDataset "expected Dataset after FOR, got ";; nextToken;;
  datasetName ← instead_got "expected dataset name, got " parseQuotedString;
  nextToken;; skip TokenSemicolon;;
  let cmd := NewCommand "dev_drop_chunk_store" in
  mret (param cmd "dataset_name" (PStr datasetName)).

(* internal/cli/dev_parser.go:548-562 Parser.parseDevDropMetadataStore *)
Definition parseDevDropMetadataStore : P Command :=
  nextToken;;
  expect_got TokenStore "expected STORE after METADATA, got ";; nextToken;; skip TokenSemicolon;;
  mret (NewCommand "dev_drop_metadata_store").

(* internal/cli/dev_parser.go:566-613 Parser.parseDevCreateChunkStore *)
Definition parseDevCreateChunkStore : P Command :=
  nextToken;; expect_got TokenFor "expected FOR after CHUNK STORE, got ";;
  nextToken;; expect_got TokenDataset "expected Dataset after FOR, got ";; nextToken;;
  datasetName ← instead_got "expected dataset name, got " parseQuotedString;
  nextToken;; expect_got TokenVector "expected VECTOR after dataset name, got ";;
  nextToken;; expect_got TokenSize "expected SIZE after VECTOR, got ";;
  nextToken;; expect_got TokenInteger "expected vector size number, got ";;
  tok ← curToken;
  vectorSize ← instead_got "invalid vector size: " (atoi (Value tok));
  nextToken;; skip TokenSemicolon;;
  let cmd := NewCommand "dev_create_chunk_store" in
  let cmd := param cmd "dataset_name" (PStr datasetName) in
  mret (param cmd "vector_size" (PInt vectorSize)).

(* internal/cli/dev_parser.go:617-631 Parser.parseDevCreateMetadataStore *)
Definition parseDevCreateMetadataStore : P Command :=
  nextToken;; expect_got TokenStore "expected STORE after METADATA, got ";;
  nextToken;; skip TokenSemicolon;; mret (NewCommand "dev_create_metadata_store").

(* internal/cli/dev_parser.go:633-659 Parser.parseCreateRole *)
Definition parseCreateRole : P Command :=
  nextToken;;
  roleName ← parseIdentifier;
  let cmd := param (NewCommand "create_role") "role_name" (PStr roleName) in
  nextToken;;
  tok ← curToken;
  cmd ← (
    if tok_is tok TokenDescription then
      nextToken;;
      description ← parseQuotedString;
      let cmd := param cmd "description" (PStr description) in
      nextToken;; mret cmd
    else mret cmd);
  skip TokenSemicolon;; mret cmd.

(* internal/cli/dev_parser.go:720-751 Parser.parseDevChunk *)
Definition parseDevChunk (explain : bool) : P Command :=
  nextToken;;
  filename ← wrap "expected filename: " parseQuotedString;
  nextToken;; expect TokenWith "expected WITH after filename";; nextToken;;
  dsl ← wrap "expected chunk options file: " parseQuotedString;
  skip TokenSemicolon;; nextToken;;
  let cmd := param (NewCommand "dev_chunk") "dsl" (PStr dsl) in
  let cmd := param cmd "filename" (PStr filename) in
  mret (param cmd "explain" (PBool explain)).

(* internal/cli/dev_parser.go:709-718 Parser.parseDevExplain *)
Definition parseDevExplain : P Command :=
  nextToken;;
  switch [
    ([TokenChunk], parseDevChunk true)
  ] (fail "expected CHUNK after EXPLAIN").

End commands.
