(* ===== verification/CliUser.v ===== *)
(** * Commands of users: login, LIST, SHOW, CREATE, DROP, ADD, DELETE, ALTER (internal/cli/user_parser.go) *)

From S2P Require Import Prelude GoValue AgentValue Reranker CliLexer CliParser CliDev.
From stdpp Require Import pretty.

Section commands.
Context `{GoLib, CliText}.

(* internal/cli/user_parser.go:19-53 Parser.parseAPILoginUser *)
Definition parseAPILoginUser : P Command :=
  let cmd := NewCommand "api_login_user" in
  nextToken;; expect TokenUser "expected USER after LOGIN";; nextToken;;
  email ← parseQuotedString;
  let cmd := param cmd "email" (PStr email) in
  nextToken;;
  tok ← curToken;
  cmd ← (
    if tok_is tok TokenPassword then
      nextToken;;
      password ← parseQuotedString;
      let cmd := param cmd "password" (PStr password) in
      nextToken;; mret cmd
    else mret cmd);
  skip TokenSemicolon;; mret cmd.

(* internal/cli/user_parser.go:55-63 Parser.parseAPILogout *)
Definition parseAPILogout : P Command :=
  let cmd := NewCommand "api_logout" in
  nextToken;; skip TokenSemicolon;; mret cmd.

(* internal/cli/user_parser.go:65-73 Parser.parseAPIPingServer *)
Definition parseAPIPingServer : P Command :=
  let cmd := NewCommand "api_ping_server" in
  nextToken;; skip TokenSemicolon;; mret cmd.

(* internal/cli/user_parser.go:75-120 Parser.parseAPIRegister *)
Definition parseAPIRegister : P Command :=
  let cmd := NewCommand "api_register_user" in
  expectPeek TokenUser;; nextToken;;
  userName ← parseQuotedString;
  let cmd := param cmd "user_name" (PStr userName) in
  nextToken;; expect TokenAs "expected AS";; nextToken;;
  nickname ← parseQuotedString;
  let cmd := param cmd "nickname" (PStr nickname) in
  nextToken;; expect TokenPassword "expected PASSWORD";; nextToken;;
  password ← parseQuotedString;
  let cmd := param cmd "password" (PStr password) in
  nextToken;; skip TokenSemicolon;; mret cmd.

(* internal/cli/user_parser.go:171-180 Parser.parseAPIListDatasets *)
Definition parseAPIListDatasets : P Command :=
  let cmd := NewCommand "api_list_datasets" in
  nextToken;; skip TokenSemicolon;; mret cmd.

(* internal/cli/user_parser.go:206-217 Parser.parseAPIListDatasetDocuments *)
Definition parseAPIListDatasetDocuments (datasetID : string) : P Command :=
  nextToken;; skip TokenSemicolon;;
  let cmd := NewCommand "api_list_dataset_documents" in
  mret (param cmd "dataset_id" (PStr datasetID)).

(* internal/cli/user_parser.go:219-230 Parser.parseAPIListDatasetFiles *)
Definition parseAPIListDatasetFiles (datasetName : string) : P Command :=
  nextToken;; skip TokenSemicolon;;
  let cmd := NewCommand "api_list_dataset_files" in
  mret (param cmd "dataset_name" (PStr datasetName)).

(* internal/cli/user_parser.go:232-247 Parser.parseAPIListDatasetIngestionTasks *)
Definition parseAPIListDatasetIngestionTasks (datasetName : string) : P Command :=
  nextToken;; expect TokenTasks "expected TASKS";; skip TokenSemicolon;;
  let cmd := NewCommand "api_list_ingestion_tasks" in
  mret (param cmd "dataset_name" (PStr datasetName)).

(* internal/cli/user_parser.go:299-335 Parser.parseSyncLogsWithOptions *)
Definition parseSyncLogsWithOptions (cmd : Command) : P Command :=
  tok ← curToken;
  if tok_isnt tok TokenWith && negb (tok_is tok TokenIdentifier && EqualFold (Value tok) "with") then mret cmd else
  nextToken;;
  cmd ← loop (λ cmd,
      tok ← curToken;
      if tok_isnt tok TokenEOF && tok_isnt tok TokenSemicolon then
        tok ← curToken;
        if tok_is tok TokenComma then fail "syntax error: WITH options must be space-separated, not comma-separated" else
        tok ← curToken;
        if tok_isnt tok TokenIdentifier then mret (Break cmd) else
        tok ← curToken;
        let paramName := ToLower (Value tok) in
        nextToken;;
        tok ← curToken;
        if tok_isnt tok TokenInteger then
          tok ← curToken;
          if tok_is tok TokenEOF || tok_is tok TokenSemicolon then fail ("WITH option " +:+ (quote paramName) +:+ " is missing a value")
          else tok ← curToken; fail ("WITH option " +:+ (quote paramName) +:+ " must be an integer, got " +:+ (tokenTypeDescription (Type_ tok) tok))
        else
        value ← parseNumber;
        nextToken;;
        switch_str paramName [
          (["page"; "page_size"],
            let cmd := param cmd paramName (PInt value) in
            mret (Continue cmd))
        ] (fail ("unknown WITH option " +:+ (quote paramName)))
      else mret (Break cmd)) cmd;
  mret cmd.

(* internal/cli/user_parser.go:279-294 Parser.parseAPIListDatasetSyncLogs *)
Definition parseAPIListDatasetSyncLogs (datasetName : string) : P Command :=
  nextToken;;
  let cmd := NewCommand "api_list_sync_logs" in
  let cmd := param cmd "dataset_name" (PStr datasetName) in
  cmd ← parseSyncLogsWithOptions cmd;
  skip TokenSemicolon;; mret cmd.

(* internal/cli/user_parser.go:183-204 Parser.parseAPIListDatasetCommands *)
Definition parseAPIListDatasetCommands : P Command :=
  nextToken;;
  datasetID ← parseQuotedString;
  nextToken;;
  switch [
    ([TokenDocuments], parseAPIListDatasetDocuments datasetID);
    ([TokenFiles], parseAPIListDatasetFiles datasetID);
    ([TokenIngestion], parseAPIListDatasetIngestionTasks datasetID);
    ([TokenSyncLogs], parseAPIListDatasetSyncLogs datasetID)
  ] (fail_got "unknown LIST target: ").

(* internal/cli/user_parser.go:252-276 Parser.parseAPIListSyncLogs *)
Definition parseAPIListSyncLogs : P Command :=
  nextToken;;
  let cmd := NewCommand "api_list_sync_logs" in
  tok ← curToken;
  cmd ← (
    if tok_is tok TokenFrom then
      nextToken;;
      datasetID ← parseQuotedString;
      let cmd := param cmd "dataset_id" (PStr datasetID) in
      nextToken;; mret cmd
    else mret cmd);
  cmd ← parseSyncLogsWithOptions cmd;
  skip TokenSemicolon;; mret cmd.

(* internal/cli/user_parser.go:337-346 Parser.parseAPIListAgents *)
Definition parseAPIListAgents : P Command :=
  nextToken;; skip TokenSemicolon;; mret (NewCommand "api_list_agents").

(* internal/cli/user_parser.go:348-357 Parser.parseAPIListChats *)
Definition parseAPIListChats : P Command :=
  nextToken;; skip TokenSemicolon;; mret (NewCommand "api_list_chats").

(* internal/cli/user_parser.go:359-368 Parser.parseAPIListSearches *)
Definition parseAPIListSearches : P Command :=
  nextToken;; skip TokenSemicolon;; mret (NewCommand "api_list_searches").

(* internal/cli/user_parser.go:370-379 Parser.parseAPIListMemories *)
Definition parseAPIListMemories : P Command :=
  nextToken;; skip TokenSemicolon;; mret (NewCommand "api_list_memories").

(* internal/cli/user_parser.go:381-389 Parser.parseAPIListAPIKeys *)
Definition parseAPIListAPIKeys : P Command :=
  nextToken;;
  let cmd := NewCommand "api_list_api_keys" in
  skip TokenSemicolon;; mret cmd.

(* internal/cli/user_parser.go:392-399 Parser.parseAPIListProviders *)
Definition parseAPIListProviders : P Command :=
  nextToken;; skip TokenSemicolon;; mret (NewCommand "api_list_providers").

(* internal/cli/user_parser.go:424-434 Parser.parseListProviderInstances *)
Definition parseListProviderInstances (providerName : string) : P Command :=
  nextToken;; skip TokenSemicolon;;
  let cmd := NewCommand "api_list_provider_instances" in
  mret (param cmd "provider_name" (PStr providerName)).

(* internal/cli/user_parser.go:458-473 Parser.parseListProviderInstanceModels *)
Definition parseListProviderInstanceModels (providerName : string) (instanceName : string) : P Command :=
  nextToken;;
  let cmd := NewCommand "api_list_provider_instance_models" in
  tok ← curToken;
  let cmd :=
    if tok_is tok TokenSync then
      NewCommand "api_list_provider_instance_models_sync"
    else cmd
  in
  skip TokenSemicolon;;
  let cmd := param cmd "provider_name" (PStr providerName) in
  mret (param cmd "instance_name" (PStr instanceName)).

(* internal/cli/user_parser.go:475-488 Parser.parseListProviderInstanceTasks *)
Definition parseListProviderInstanceTasks (providerName : string) (instanceName : string) : P Command :=
  nextToken;; skip TokenSemicolon;;
  let cmd := NewCommand "api_list_provider_instance_tasks" in
  let cmd := param cmd "provider_name" (PStr providerName) in
  mret (param cmd "instance_name" (PStr instanceName)).

(* internal/cli/user_parser.go:438-456 Parser.parseListProviderInstanceCommands *)
Definition parseListProviderInstanceCommands (providerName : string) : P Command :=
  nextToken;;
  instanceName ← parseQuotedString;
  nextToken;;
  switch [
    ([TokenModels], parseListProviderInstanceModels providerName instanceName);
    ([TokenTasks], parseListProviderInstanceTasks providerName instanceName)
  ] (fail_got "unknown LIST target: ").

(* internal/cli/user_parser.go:490-500 Parser.parseListProviderModels *)
Definition parseListProviderModels (providerName : string) : P Command :=
  nextToken;;
  let cmd := NewCommand "api_list_provider_models" in
  skip TokenSemicolon;; mret (param cmd "provider_name" (PStr providerName)).

(* internal/cli/user_parser.go:402-421 Parser.parseAPIListProviderCommands *)
Definition parseAPIListProviderCommands : P Command :=
  nextToken;;
  providerName ← parseQuotedString;
  nextToken;;
  switch [
    ([TokenInstances], parseListProviderInstances providerName);
    ([TokenInstance], parseListProviderInstanceCommands providerName);
    ([TokenModels], parseListProviderModels providerName)
  ] (fail_got "unknown LIST target: ").

(* internal/cli/user_parser.go:503-512 Parser.parseAPIListAllModels *)
Definition parseAPIListAllModels : P Command :=
  nextToken;;
  let cmd := NewCommand "api_list_all_models" in
  skip TokenSemicolon;; mret cmd.

(* internal/cli/user_parser.go:514-538 Parser.parseAPIListIngestionTasks *)
Definition parseAPIListIngestionTasks : P Command :=
  nextToken;; expect TokenTasks "expected TASKS";; nextToken;;
  let cmd := NewCommand "api_list_ingestion_tasks" in
  tok ← curToken;
  cmd ← (
    if tok_is tok TokenFrom then
      nextToken;;
      datasetID ← parseQuotedString;
      mret (param cmd "dataset_id" (PStr datasetID))
    else mret cmd);
  skip TokenSemicolon;; mret cmd.

(* internal/cli/user_parser.go:540-551 Parser.parseAPIListDefaultModels *)
Definition parseAPIListDefaultModels : P Command :=
  nextToken;; expect TokenModels "expected MODELS";;
  nextToken;; skip TokenSemicolon;; mret (NewCommand "api_list_default_models").

(* internal/cli/user_parser.go:553-561 Parser.parseAPIListAvailableProviders *)
Definition parseAPIListAvailableProviders : P Command :=
  nextToken;; expect TokenProviders "expected PROVIDERS";; mret (NewCommand "api_list_available_providers").

(* internal/cli/user_parser.go:563-581 Parser.parseAPIListAPIServers *)
Definition parseAPIListAPIServers : P Command :=
  nextToken;;
  switch [
    ([TokenServer],
      nextToken;;
      let cmd := NewCommand "api_list_api_servers" in
      skip TokenSemicolon;; mret cmd)
  ] (fail "expected SERVER after API").

(* internal/cli/user_parser.go:583-594 Parser.parseAPIListEnvironments *)
Definition parseAPIListEnvironments : P Command :=
  nextToken;;
  let cmd := NewCommand "api_list_environments" in
  skip TokenSemicolon;; mret cmd.

(* internal/cli/user_parser.go:596-607 Parser.parseAPIListVariables *)
Definition parseAPIListVariables : P Command :=
  nextToken;;
  let cmd := NewCommand "api_list_variables" in
  skip TokenSemicolon;; mret cmd.

(* internal/cli/user_parser.go:128-169 Parser.parseAPIListCommands *)
Definition parseAPIListCommands : P Command :=
  nextToken;;
  switch [
    ([TokenDatasets], parseAPIListDatasets);
    ([TokenDataset], parseAPIListDatasetCommands);
    ([TokenAgents], parseAPIListAgents);
    ([TokenChats], parseAPIListChats);
    ([TokenSearches], parseAPIListSearches);
    ([TokenMemories], parseAPIListMemories);
    ([TokenKeys], parseAPIListAPIKeys);
    ([TokenProviders], parseAPIListProviders);
    ([TokenProvider], parseAPIListProviderCommands);
    ([TokenModels], parseAPIListAllModels);
    ([TokenIngestion], parseAPIListIngestionTasks);
    ([TokenSyncLogs], parseAPIListSyncLogs);
    ([TokenDefault], parseAPIListDefaultModels);
    ([TokenAvailable], parseAPIListAvailableProviders);
    ([TokenAPI], parseAPIListAPIServers);
    ([TokenEnvs], parseAPIListEnvironments);
    ([TokenVars], parseAPIListVariables)
  ] (fail_got "unknown LIST target: ").

(* internal/cli/user_parser.go:639-647 Parser.parseAPIShowVersion *)
Definition parseAPIShowVersion : P Command :=
  nextToken;; skip TokenSemicolon;; mret (NewCommand "api_show_version").

(* internal/cli/user_parser.go:649-657 Parser.parseAPIShowKey *)
Definition parseAPIShowKey : P Command :=
  nextToken;; skip TokenSemicolon;; mret (NewCommand "api_show_api_key").

(* internal/cli/user_parser.go:659-667 Parser.parseAPIShowCurrent *)
Definition parseAPIShowCurrent : P Command :=
  nextToken;; skip TokenSemicolon;; mret (NewCommand "api_show_current").

(* internal/cli/user_parser.go:669-685 Parser.parseAPIShowVariable *)
Definition parseAPIShowVariable : P Command :=
  nextToken;;
  varName ← parseQuotedString;
  nextToken;;
  let cmd := param (NewCommand "api_show_variable") "var_name" (PStr varName) in
  skip TokenSemicolon;; mret cmd.

(* internal/cli/user_parser.go:747-759 Parser.parseAPIShowProviderInstanceBalance *)
Definition parseAPIShowProviderInstanceBalance (providerName : string) (instanceName : string) : P Command :=
  nextToken;;
  let cmd := NewCommand "api_show_provider_instance_balance" in
  let cmd := param cmd "instance_name" (PStr instanceName) in
  let cmd := param cmd "provider_name" (PStr providerName) in
  skip TokenSemicolon;; mret cmd.

(* internal/cli/user_parser.go:762-781 Parser.parseAPIShowProviderInstanceTask *)
Definition parseAPIShowProviderInstanceTask (providerName : string) (instanceName : string) : P Command :=
  nextToken;;
  taskID ← wrap "expected task id: " parseQuotedString;
  nextToken;;
  let cmd := NewCommand "api_show_provider_instance_task" in
  let cmd := param cmd "instance_name" (PStr instanceName) in
  let cmd := param cmd "provider_name" (PStr providerName) in
  let cmd := param cmd "task_id" (PStr taskID) in
  skip TokenSemicolon;; mret cmd.

(* internal/cli/user_parser.go:719-744 Parser.parseAPIShowProviderInstance *)
Definition parseAPIShowProviderInstance (providerName : string) : P Command :=
  nextToken;;
  instanceName ← wrap "expected instance name: " parseQuotedString;
  nextToken;;
  switch [
    ([TokenBalance], parseAPIShowProviderInstanceBalance providerName instanceName);
    ([TokenTask], parseAPIShowProviderInstanceTask providerName instanceName);
    ([TokenSemicolon; TokenEOF],
      nextToken;;
      let cmd := NewCommand "api_show_provider_instance" in
      let cmd := param cmd "instance_name" (PStr instanceName) in
      mret (param cmd "provider_name" (PStr providerName)))
  ] (fail_got "unknown SHOW target: ").

(* internal/cli/user_parser.go:784-802 Parser.parseAPIShowProviderModel *)
Definition parseAPIShowProviderModel (providerName : string) : P Command :=
  nextToken;;
  modelName ← wrap "expected model name: " parseQuotedString;
  nextToken;;
  let cmd := NewCommand "api_show_provider_model" in
  let cmd := param cmd "model_name" (PStr modelName) in
  let cmd := param cmd "provider_name" (PStr providerName) in
  skip TokenSemicolon;; mret cmd.

(* internal/cli/user_parser.go:692-716 Parser.parseAPIShowProviderCommands *)
Definition parseAPIShowProviderCommands : P Command :=
  nextToken;;
  providerName ← wrap "expected provider name: " parseQuotedString;
  nextToken;;
  switch [
    ([TokenInstance], parseAPIShowProviderInstance providerName);
    ([TokenModel], parseAPIShowProviderModel providerName);
    ([TokenSemicolon; TokenEOF],
      nextToken;;
      let cmd := NewCommand "api_show_provider" in
      mret (param cmd "provider_name" (PStr providerName)))
  ] (fail_got "unknown SHOW target: ").

(* internal/cli/user_parser.go:805-820 Parser.parseAPIShowModel *)
Definition parseAPIShowModel : P Command :=
  nextToken;;
  modelName ← wrap "expected model name: " parseQuotedString;
  nextToken;; skip TokenSemicolon;; mret (param (NewCommand "api_show_model") "model_name" (PStr modelName)).

(* internal/cli/user_parser.go:823-840 Parser.parseAPIShowAdmin *)
Definition parseAPIShowAdmin : P Command :=
  nextToken;;
  switch [
    ([TokenServer],
      nextToken;;
      let cmd := NewCommand "api_show_admin_server" in
      skip TokenSemicolon;; mret cmd)
  ] (fail "expected SERVER after ADMIN").

(* internal/cli/user_parser.go:843-869 Parser.parseAPIShowAPI *)
Definition parseAPIShowAPI : P Command :=
  nextToken;;
  switch [
    ([TokenServer],
      nextToken;;
      let cmd := NewCommand "api_show_api_server" in
      serverName ← wrap "expected API server name: " parseQuotedString;
      let cmd := param cmd "api_server_name" (PStr serverName) in
      nextToken;; skip TokenSemicolon;; mret cmd)
  ] (fail "expected SERVER after API").

(* internal/cli/user_parser.go:882-893 Parser.parseShowLogLevel *)
Definition parseShowLogLevel : P Command :=
  nextToken;;
  let cmd := NewCommand "api_show_log_level" in
  skip TokenSemicolon;; mret cmd.

(* internal/cli/user_parser.go:871-880 Parser.parseAPIShowLogCommands *)
Definition parseAPIShowLogCommands : P Command :=
  nextToken;;
  switch [
    ([TokenLevel], parseShowLogLevel)
  ] (fail "expected LEVEL after LOG").

(* internal/cli/user_parser.go:613-637 Parser.parseAPIShowCommands *)
Definition parseAPIShowCommands : P Command :=
  nextToken;;
  switch [
    ([TokenVersion], parseAPIShowVersion);
    ([TokenKey], parseAPIShowKey);
    ([TokenCurrent], parseAPIShowCurrent);
    ([TokenVar], parseAPIShowVariable);
    ([TokenProvider], parseAPIShowProviderCommands);
    ([TokenModel], parseAPIShowModel);
    ([TokenAdmin], parseAPIShowAdmin);
    ([TokenAPI], parseAPIShowAPI);
    ([TokenLog], parseAPIShowLogCommands)
  ] (fail_got "unknown SHOW target: ").

(* internal/cli/user_parser.go:927-942 Parser.parseAPICreateDataset *)
Definition parseAPICreateDataset : P Command :=
  nextToken;;
  datasetName ← parseQuotedString;
  skip TokenSemicolon;;
  let cmd := NewCommand "api_create_dataset" in
  mret (param cmd "dataset_name" (PStr datasetName)).

(* internal/cli/user_parser.go:945-962 Parser.parseAPICreateChat *)
Definition parseAPICreateChat : P Command :=
  nextToken;;
  chatName ← parseQuotedString;
  nextToken;; skip TokenSemicolon;; mret (param (NewCommand "api_create_chat") "chat_name" (PStr chatName)).

(* internal/cli/user_parser.go:965-982 Parser.parseAPICreateSearch *)
Definition parseAPICreateSearch : P Command :=
  nextToken;;
  searchName ← parseQuotedString;
  nextToken;; skip TokenSemicolon;; mret (param (NewCommand "api_create_search") "search_name" (PStr searchName)).

(* internal/cli/user_parser.go:985-1002 Parser.parseAPICreateAgent *)
Definition parseAPICreateAgent : P Command :=
  nextToken;;
  agentName ← parseQuotedString;
  nextToken;; skip TokenSemicolon;; mret (param (NewCommand "api_create_agent") "agent_name" (PStr agentName)).

(* internal/cli/user_parser.go:1005-1021 Parser.parseAPICreateMemory *)
Definition parseAPICreateMemory : P Command :=
  nextToken;;
  memoryName ← parseQuotedString;
  nextToken;; skip TokenSemicolon;; mret (param (NewCommand "api_create_memory") "memory_name" (PStr memoryName)).

(* internal/cli/user_parser.go:1024-1033 Parser.parseAPICreateKey *)
Definition parseAPICreateKey : P Command :=
  nextToken;; skip TokenSemicolon;; mret (NewCommand "api_create_api_key").

(* internal/cli/user_parser.go:1036-1110 Parser.parseAPICreateProviderInstance *)
Definition parseAPICreateProviderInstance : P Command :=
  nextToken;;
  providerName ← wrap "expected provider name: " parseQuotedString;
  nextToken;; expect TokenInstance "expected INSTANCE after provider name";; nextToken;;
  instanceName ← wrap "expected instance name: " parseQuotedString;
  nextToken;; expect TokenKey "expected KEY after instance name";; nextToken;;
  apiKey ← wrap "expected API key: " parseQuotedString;
  nextToken;;
  let baseURL := "" in
  let region := "" in
  '(region, baseURL) ← loop (λ '(region, baseURL),
      switch [
        ([TokenRegion],
          nextToken;;
          region ← wrap "expected region: " parseQuotedString;
          nextToken;; mret (Continue (region, baseURL)));
        ([TokenURL],
          nextToken;;
          baseURL ← wrap "expected base URL: " parseQuotedString;
          nextToken;; mret (Continue (region, baseURL)))
      ] (mret (Break (region, baseURL)))) (region, baseURL);
  let cmd := NewCommand "api_create_provider_instance" in
  let cmd := param cmd "provider_name" (PStr providerName) in
  let cmd := param cmd "instance_name" (PStr instanceName) in
  let cmd := param cmd "api_key" (PStr apiKey) in
  let cmd :=
    if bool_decide (baseURL ≠ "") then
      param cmd "base_url" (PStr baseURL)
    else cmd
  in
  let cmd :=
    if bool_decide (region ≠ "") then
      param cmd "region" (PStr region)
    else cmd
  in
  nextToken;; skip TokenSemicolon;; mret cmd.

(* internal/cli/user_parser.go:899-924 Parser.parseAPICreateCommands *)
Definition parseAPICreateCommands : P Command :=
  nextToken;;
  switch [
    ([TokenDataset], parseAPICreateDataset);
    ([TokenChat], parseAPICreateChat);
    ([TokenSearch], parseAPICreateSearch);
    ([TokenAgent], parseAPICreateAgent);
    ([TokenMemory], parseAPICreateMemory);
    ([TokenKey], parseAPICreateKey);
    ([TokenChunkStore], parseDevCreateChunkStore);
    ([TokenMetadata], parseDevCreateMetadataStore);
    ([TokenProvider], parseAPICreateProviderInstance)
  ] (fail_got "unknown CREATE target: ").

(* internal/cli/user_parser.go:1140-1156 Parser.parseAPIDropDataset *)
Definition parseAPIDropDataset : P Command :=
  nextToken;;
  datasetName ← parseQuotedString;
  nextToken;;
  let cmd := NewCommand "api_drop_dataset" in
  let cmd := param cmd "dataset_name" (PStr datasetName) in
  skip TokenSemicolon;; mret cmd.

(* internal/cli/user_parser.go:1158-1174 Parser.parseAPIDropChat *)
Definition parseAPIDropChat : P Command :=
  nextToken;;
  chatName ← parseQuotedString;
  let cmd := param (NewCommand "api_drop_chat") "chat_name" (PStr chatName) in
  nextToken;; skip TokenSemicolon;; mret cmd.

(* internal/cli/user_parser.go:1176-1192 Parser.parseAPIDropSearch *)
Definition parseAPIDropSearch : P Command :=
  nextToken;;
  searchName ← parseQuotedString;
  nextToken;;
  let cmd := param (NewCommand "api_drop_search") "search_name" (PStr searchName) in
  skip TokenSemicolon;; mret cmd.

(* internal/cli/user_parser.go:1194-1210 Parser.parseAPIDropMemory *)
Definition parseAPIDropMemory : P Command :=
  nextToken;;
  memoryName ← parseQuotedString;
  let cmd := param (NewCommand "api_drop_memory") "memory_name" (PStr memoryName) in
  nextToken;; skip TokenSemicolon;; mret cmd.

(* internal/cli/user_parser.go:1212-1228 Parser.parseAPIDropAgent *)
Definition parseAPIDropAgent : P Command :=
  nextToken;;
  agentName ← parseQuotedString;
  let cmd := param (NewCommand "api_drop_agent") "agent_name" (PStr agentName) in
  nextToken;; skip TokenSemicolon;; mret cmd.

(* internal/cli/user_parser.go:1230-1247 Parser.parseAPIDropAPIKey *)
Definition parseAPIDropAPIKey : P Command :=
  nextToken;;
  apiKey ← parseQuotedString;
  nextToken;;
  let cmd := param (NewCommand "api_delete_api_key") "api_key" (PStr apiKey) in
  skip TokenSemicolon;; mret cmd.

(* internal/cli/user_parser.go:1115-1138 Parser.parseAPIDropCommands *)
Definition parseAPIDropCommands : P Command :=
  nextToken;;
  switch [
    ([TokenDataset], parseAPIDropDataset);
    ([TokenChat], parseAPIDropChat);
    ([TokenSearch], parseAPIDropSearch);
    ([TokenMemory], parseAPIDropMemory);
    ([TokenAgent], parseAPIDropAgent);
    ([TokenKey], parseAPIDropAPIKey);
    ([TokenChunkStore], parseDevDropChunkStore);
    ([TokenMetadata], parseDevDropMetadataStore)
  ] (fail_got "unknown DROP target: ").

(* internal/cli/user_parser.go:1298-1361 Parser.parseAddProviderInstance *)
Definition parseAddProviderInstance (providerName : string) : P Command :=
  nextToken;;
  instanceName ← wrap "expected instance name: " parseQuotedString;
  nextToken;; expect TokenKey "expected KEY after instance name";; nextToken;;
  apiKey ← wrap "expected API key: " parseQuotedString;
  nextToken;;
  let baseURL := "" in
  let region := "" in
  '(region, baseURL) ← loop (λ '(region, baseURL),
      switch [
        ([TokenRegion],
          nextToken;;
          region ← wrap "expected region: " parseQuotedString;
          nextToken;; mret (Continue (region, baseURL)));
        ([TokenURL],
          nextToken;;
          baseURL ← wrap "expected base URL: " parseQuotedString;
          nextToken;; mret (Continue (region, baseURL)))
      ] (mret (Break (region, baseURL)))) (region, baseURL);
  let cmd := NewCommand "api_add_provider_instance" in
  let cmd := param cmd "provider_name" (PStr providerName) in
  let cmd := param cmd "instance_name" (PStr instanceName) in
  let cmd := param cmd "api_key" (PStr apiKey) in
  let cmd :=
    if bool_decide (baseURL ≠ "") then
      param cmd "base_url" (PStr baseURL)
    else cmd
  in
  let cmd :=
    if bool_decide (region ≠ "") then
      param cmd "region" (PStr region)
    else cmd
  in
  nextToken;; skip TokenSemicolon;; mret cmd.

(* internal/cli/user_parser.go:1272-1295 Parser.parseAPIAddProvider *)
Definition parseAPIAddProvider : P Command :=
  nextToken;;
  providerName ← wrap "expected provider name: " parseQuotedString;
  nextToken;;
  switch [
    ([TokenInstance], parseAddProviderInstance providerName);
    ([TokenEOF; TokenSemicolon],
      nextToken;;
      let cmd := NewCommand "api_add_provider" in
      let cmd := param cmd "provider_name" (PStr providerName) in
      nextToken;; mret cmd)
  ] (fail_got "unknown ADD PROVIDER target: ").

(** The first text of a list that is in it before. *)
Fixpoint first_duplicate (seen : gset string) (l : list string) : option string :=
  match l with
  | [] => None
  | x :: l => if decide (x ∈ seen) then Some x else first_duplicate ({[x]} ∪ seen) l
  end.

(* internal/cli/user_parser.go:1363-1379 Parser.parseModelNames *)
Definition parseModelNames (raw : string) : P (list string) :=
  let modelNames := fields raw in
  if bool_decide (modelNames = []) then fail "model name is required" else
  match first_duplicate ∅ modelNames with
  | Some modelName => fail ("duplicate model name: " +:+ modelName)
  | None => mret modelNames
  end.

(** A list without its repetitions. *)
Fixpoint distinct (seen : gset string) (l : list string) : list string :=
  match l with
  | [] => []
  | x :: l => if decide (x ∈ seen) then distinct seen l else x :: distinct ({[x]} ∪ seen) l
  end.

(** The configuration of a model as it is read. *)
(* internal/cli/user_parser.go:1432-1436 Parser.parseAPIAddModel(part) *)
Record model_config := {
  modelTypes : list string;
  supportThink : option bool;
  maxTokens : Z;
  maxDimension : option Z;
  dimensions : list Z;
}.
Definition no_config : model_config :=
  {| modelTypes := []; supportThink := None; maxTokens := 0; maxDimension := None; dimensions := [] |}.
Definition add_type (t : string) (m : model_config) : model_config :=
  {| modelTypes := modelTypes m ++ [t]; supportThink := supportThink m; maxTokens := maxTokens m;
     maxDimension := maxDimension m; dimensions := dimensions m |}.
Definition set_think (m : model_config) : model_config :=
  {| modelTypes := modelTypes m; supportThink := Some true; maxTokens := maxTokens m;
     maxDimension := maxDimension m; dimensions := dimensions m |}.
Definition set_tokens (n : Z) (m : model_config) : model_config :=
  {| modelTypes := modelTypes m; supportThink := supportThink m; maxTokens := n;
     maxDimension := maxDimension m; dimensions := dimensions m |}.
Definition set_dimension (n : Z) (dims : list Z) (m : model_config) : model_config :=
  {| modelTypes := modelTypes m; supportThink := supportThink m; maxTokens := maxTokens m;
     maxDimension := Some n; dimensions := dims |}.

(** The configuration of one model is complete: its entry in the list. *)
(* internal/cli/user_parser.go:1431-1597 Parser.parseAPIAddModel(part) *)
Definition model_entry (currentModelName : string) (m : model_config) : P (gmap string Param) :=
  if bool_decide (modelTypes m = []) then fail ("model type is required for model " +:+ currentModelName) else
  let types := distinct ∅ (filter (λ t, t ≠ "") (map TrimSpace (modelTypes m))) in
  if bool_decide (types = []) then fail ("model type is required for model " +:+ currentModelName) else
  let model := {[ "model_name" := PStr currentModelName; "model_types" := PStrs types; "max_tokens" := PInt (maxTokens m) ]} in
  let model := match supportThink m with Some b => <["thinking" := PBool b]> model | None => model end in
  mret (match maxDimension m with
        | Some d => <["dimensions" := PInts (dimensions m)]> (<["max_dimension" := PInt d]> model)
        | None => model
        end).

(* internal/cli/user_parser.go:1382-1597 Parser.parseAPIAddModel *)
Definition parseAPIAddModel : P Command :=
  nextToken;; expect TokenQuotedString "expected model name";;
  rawModelNames ← parseQuotedString;
  modelNames ← parseModelNames rawModelNames;
  nextToken;; expect TokenTo "expected TO";; nextToken;; expect TokenProvider "expected PROVIDER";;
  nextToken;; expect TokenQuotedString "expected provider name";;
  providerName ← parseQuotedString;
  nextToken;; expect TokenInstance "expected INSTANCE";;
  nextToken;; expect TokenQuotedString "expected provider name";;
  instanceName ← parseQuotedString;
  nextToken;;
  '(models, _) ← loop (λ '(models, m),
      match modelNames !! length models with
      | None => fail "too many model configs: got more configs than model names"
      | Some currentModelName =>
          let typed := λ type_, nextToken;; mret (Continue (models, add_type type_ m)) in
          switch [
            ([TokenThink],
              match supportThink m with
              | Some _ => fail ("think model is already set for model " +:+ currentModelName)
              | None => nextToken;; mret (Continue (models, set_think m))
              end);
            ([TokenVision], typed "vision");
            ([TokenChat], typed "chat");
            ([TokenEmbedding],
              nextToken;;
              let m := add_type "embedding" m in
              tok ← curToken;
              if tok_is tok TokenInteger then
                val ← parseNumber;
                nextToken;;
                dims ← loop (λ dims,
                    tok ← curToken;
                    if tok_is tok TokenInteger then dim ← parseNumber; nextToken;; mret (Continue (dims ++ [dim]))
                    else mret (Break dims)) [];
                mret (Continue (models, set_dimension val dims m))
              else mret (Continue (models, m)));
            ([TokenRerank], typed "rerank");
            ([TokenOCR], typed "ocr");
            ([TokenDocParse], typed "doc_parse");
            ([TokenTTS], typed "tts");
            ([TokenASR], typed "asr");
            ([TokenToken; TokenTokens],
              nextToken;;
              if bool_decide (maxTokens m ≠ 0%Z)
              then fail ("max tokens is already given " +:+ pretty (maxTokens m) +:+ " for model " +:+ currentModelName) else
              expect TokenInteger "expected integer";;
              n ← parseNumber;
              nextToken;; mret (Continue (models, set_tokens n m)));
            ([TokenComma; TokenSemicolon; TokenEOF],
              model ← model_entry currentModelName m;
              let models := models ++ [model] in
              tok ← curToken;
              if tok_is tok TokenComma then nextToken;; mret (Continue (models, no_config)) else
              skip TokenSemicolon;; mret (Break (models, no_config)))
          ] (fail_got "unexpected token type: ")
      end) ([], no_config);
  if bool_decide (length models ≠ length modelNames)
  then fail ("model config count " +:+ pretty (length models) +:+ " does not match model name count " +:+ pretty (length modelNames)) else
  let cmd := param (NewCommand "api_add_custom_model") "provider_name" (PStr providerName) in
  let cmd := param cmd "instance_name" (PStr instanceName) in
  mret (param cmd "models" (PModels models)).

(* internal/cli/user_parser.go:1600-1631 Parser.parseAddAPIServer *)
Definition parseAddAPIServer : P Command :=
  nextToken;;
  serverName ← parseQuotedString;
  nextToken;; expect TokenHost "expected HOST";; nextToken;;
  host ← parseQuotedString;
  nextToken;;
  '(ip, port) ← parseHostPort host;
  let cmd := NewCommand "api_add_api_server" in
  let cmd := param cmd "server_name" (PStr serverName) in
  let cmd := param cmd "server_ip" (PStr ip) in
  mret (param cmd "server_port" (PInt port)).

(* internal/cli/user_parser.go:1634-1658 Parser.parseAddAdminServer *)
Definition parseAddAdminServer : P Command :=
  nextToken;; expect TokenHost "expected HOST";; nextToken;;
  host ← parseQuotedString;
  nextToken;;
  '(ip, port) ← parseHostPort host;
  let cmd := param (NewCommand "api_add_admin_server") "server_ip" (PStr ip) in
  mret (param cmd "server_port" (PInt port)).

(* internal/cli/user_parser.go:1253-1267 Parser.parseAPIAddCommands *)
Definition parseAPIAddCommands : P Command :=
  nextToken;;
  switch [
    ([TokenProvider], parseAPIAddProvider);
    ([TokenModel], parseAPIAddModel);
    ([TokenAPI], parseAddAPIServer);
    ([TokenAdmin], parseAddAdminServer)
  ] (fail_got "unknown ADD target: ").

(* internal/cli/user_parser.go:1742-1764 Parser.parseAPIDeleteProviderInstanceModels *)
Definition parseAPIDeleteProviderInstanceModels (providerName : string) (instanceName : string) : P Command :=
  nextToken;;
  rawModels ← wrap "expected model name: " parseQuotedString;
  nextToken;;
  let modelNames := Split rawModels " " in
  let cmd := NewCommand "api_delete_provider_instance_model" in
  let cmd := param cmd "instance_name" (PStr instanceName) in
  let cmd := param cmd "provider_name" (PStr providerName) in
  let cmd := param cmd "model_names" (PStrs modelNames) in
  nextToken;; skip TokenSemicolon;; mret cmd.

(* internal/cli/user_parser.go:1711-1738 Parser.parseAPIDeleteProviderInstance *)
Definition parseAPIDeleteProviderInstance (providerName : string) : P Command :=
  nextToken;;
  instanceName ← wrap "expected instance name: " parseQuotedString;
  nextToken;;
  let cmd := NewCommand "api_delete_provider_instance" in
  let cmd := param cmd "provider_name" (PStr providerName) in
  let cmd := param cmd "instance_name" (PStr instanceName) in
  switch [
    ([TokenModels], parseAPIDeleteProviderInstanceModels providerName instanceName);
    ([TokenEOF; TokenSemicolon], nextToken;; skip TokenSemicolon;; mret cmd)
  ] (fail_got "unknown DELETE target: ").

(* internal/cli/user_parser.go:1683-1709 Parser.parseAPIDeleteProvider *)
Definition parseAPIDeleteProvider : P Command :=
  nextToken;;
  providerName ← wrap "expected provider name: " parseQuotedString;
  nextToken;;
  switch [
    ([TokenInstance], parseAPIDeleteProviderInstance providerName);
    ([TokenEOF; TokenSemicolon],
      nextToken;;
      let cmd := NewCommand "api_delete_provider" in
      let cmd := param cmd "provider_name" (PStr providerName) in
      skip TokenSemicolon;; mret cmd)
  ] (fail_got "unknown DELETE target: ").

(* internal/cli/user_parser.go:1767-1785 Parser.parseAPIDeleteAPIServer *)
Definition parseAPIDeleteAPIServer : P Command :=
  nextToken;;
  serverName ← parseQuotedString;
  nextToken;;
  let cmd := NewCommand "api_delete_api_server" in
  let cmd := param cmd "server_name" (PStr serverName) in
  skip TokenSemicolon;; mret cmd.

(* internal/cli/user_parser.go:1788-1799 Parser.parseAPIDeleteAdminServer *)
Definition parseAPIDeleteAdminServer : P Command :=
  nextToken;;
  let cmd := NewCommand "api_delete_admin_server" in
  skip TokenSemicolon;; mret cmd.

(* internal/cli/user_parser.go:1664-1679 Parser.parseAPIDeleteCommands *)
Definition parseAPIDeleteCommands : P Command :=
  nextToken;;
  switch [
    ([TokenProvider], parseAPIDeleteProvider);
    ([TokenMetadata], parseDevDeleteMeta);
    ([TokenAdmin], parseAPIDeleteAdminServer);
    ([TokenAPI], parseAPIDeleteAPIServer)
  ] (fail_got "unknown DELETE target: ").

(* internal/cli/user_parser.go:1816-1876 Parser.parseAPIAlterInstance *)
Definition parseAPIAlterInstance : P Command :=
  nextToken;;
  providerName ← wrap "expected provider name: " parseQuotedString;
  nextToken;; expect TokenInstance "expected INSTANCE after provider name";; nextToken;;
  instanceName ← wrap "expected instance name: " parseQuotedString;
  nextToken;;
  let newInstanceName := "" in
  let newAPIKey := "" in
  '(newInstanceName, newAPIKey) ← loop (λ '(newInstanceName, newAPIKey),
      switch [
        ([TokenName],
          nextToken;;
          newInstanceName ← wrap "expected model name: " parseQuotedString;
          nextToken;; mret (Continue (newInstanceName, newAPIKey)));
        ([TokenKey],
          nextToken;;
          newAPIKey ← wrap "expected API key: " parseQuotedString;
          nextToken;; mret (Continue (newInstanceName, newAPIKey)))
      ] (mret (Break (newInstanceName, newAPIKey)))) (newInstanceName, newAPIKey);
  if bool_decide (newInstanceName = "") && bool_decide (newAPIKey = "") then fail "expected NAME or KEY after INSTANCE" else
  let cmd := NewCommand "api_alter_provider_instance" in
  let cmd := param cmd "provider_name" (PStr providerName) in
  let cmd := param cmd "instance_name" (PStr instanceName) in
  let cmd := param cmd "new_instance_name" (PStr newInstanceName) in
  let cmd := param cmd "new_api_key" (PStr newAPIKey) in
  nextToken;; skip TokenSemicolon;; mret cmd.

(* internal/cli/user_parser.go:1804-1813 Parser.parseAPIAlterCommands *)
Definition parseAPIAlterCommands : P Command :=
  nextToken;;
  switch [
    ([TokenProvider], parseAPIAlterInstance)
  ] (fail_got "unknown ALTER target: ").

(* internal/cli/user_parser.go:1878-1899 Parser.parseIdentifierList *)
Definition parseIdentifierList : P (list string) :=
  let list : list string := [] in
  ident ← parseIdentifier;
  let list := list ++ [ident] in
  nextToken;;
  '(ident, list) ← loop (λ '(ident, list),
      tok ← curToken;
      if tok_is tok TokenComma then
        nextToken;;
        ident ← parseIdentifier;
        let list := list ++ [ident] in
        nextToken;; mret (Continue (ident, list))
      else mret (Break (ident, list))) (ident, list);
  mret list.

End commands.
