(* ===== verification/CliUserOps.v ===== *)
(** * Commands of users: SET, RESET, search, parsing, models, chat, ingestion (internal/cli/user_parser.go) *)

From S2P Require Import Prelude GoValue AgentValue Reranker CliLexer CliParser CliDev CliUser.
From stdpp Require Import pretty.

Section commands.
Context `{GoLib, CliText}.

(* internal/cli/user_parser.go:1924-1948 Parser.parseAPISetVariable *)
Definition parseAPISetVariable : P Command :=
  nextToken;;
  varName ← parseQuotedString;
  nextToken;;
  varValue ← parseVariableValue;
  nextToken;;
  let cmd := param (NewCommand "api_set_variable") "var_name" (PStr varName) in
  let cmd := param cmd "var_value" (PStr varValue) in
  skip TokenSemicolon;; mret cmd.

(* internal/cli/user_parser.go:1950-2009 Parser.parseAPISetDefault *)
Definition parseAPISetDefault : P Command :=
  nextToken;;
  let modelType := "" in
  let modelNameOrID := "" in
  modelType ← (
    switch [
      ([TokenChat], mret "chat");
      ([TokenVision], mret "vision");
      ([TokenEmbedding], mret "embedding");
      ([TokenRerank], mret "rerank");
      ([TokenASR], mret "asr");
      ([TokenTTS], mret "tts");
      ([TokenOCR], mret "ocr")
    ] (fail_got "unknown model type: "));
  nextToken;; expect TokenModel "expected MODEL";;
  nextToken;; expect TokenQuotedString "expected quoted string with format model@instance@provider";;
  modelNameOrID ← parseQuotedString;
  nextToken;;
  let cmd := NewCommand "api_set_default_model" in
  let cmd := param cmd "model_type" (PStr modelType) in
  cmd ← (
    if IsCompositeModelName modelNameOrID then
      mret (param cmd "composite_model_name" (PStr modelNameOrID))
    else if IsUUID modelNameOrID then
      mret (param cmd "model_id" (PStr modelNameOrID))
    else fail ("invalid format of model name or ID: " +:+ modelNameOrID));
  nextToken;; skip TokenSemicolon;; mret cmd.

(* internal/cli/user_parser.go:2011-2028 Parser.parseAPISetAPIKey *)
Definition parseAPISetAPIKey : P Command :=
  nextToken;;
  apiKey ← parseQuotedString;
  nextToken;;
  let cmd := param (NewCommand "api_set_api_key") "api_key" (PStr apiKey) in
  skip TokenSemicolon;; mret cmd.

(* internal/cli/user_parser.go:2041-2067 Parser.parseAPISetLogLevel *)
Definition parseAPISetLogLevel : P Command :=
  nextToken;;
  let cmd := NewCommand "api_set_log_level" in
  cmd ← (
    switch [
      ([TokenDebug], mret (param cmd "level" (PStr "debug")));
      ([TokenInfo], mret (param cmd "level" (PStr "info")));
      ([TokenWarn], mret (param cmd "level" (PStr "warn")));
      ([TokenError], mret (param cmd "level" (PStr "error")));
      ([TokenFatal], mret (param cmd "level" (PStr "fatal")));
      ([TokenPanic], mret (param cmd "level" (PStr "panic")))
    ] (fail_got "unknown log level: "));
  nextToken;; skip TokenSemicolon;; mret cmd.

(* internal/cli/user_parser.go:2030-2039 Parser.parseAPISetLog *)
Definition parseAPISetLog : P Command :=
  nextToken;;
  switch [
    ([TokenLevel], parseAPISetLogLevel)
  ] (fail_got "unknown log target: ").

(* internal/cli/user_parser.go:1905-1922 Parser.parseAPISetCommands *)
Definition parseAPISetCommands : P Command :=
  nextToken;;
  switch [
    ([TokenVar], parseAPISetVariable);
    ([TokenDefault], parseAPISetDefault);
    ([TokenKey], parseAPISetAPIKey);
    ([TokenLog], parseAPISetLog);
    ([TokenMetadata], parseDevSetMeta)
  ] (fail_got "unknown SET target: ").

(* internal/cli/user_parser.go:2086-2123 Parser.parseAPIResetDefaultModel *)
Definition parseAPIResetDefaultModel : P Command :=
  nextToken;;
  modelType ← (
    switch [
      ([TokenChat], mret "chat");
      ([TokenVision], mret "vision");
      ([TokenEmbedding], mret "embedding");
      ([TokenRerank], mret "rerank");
      ([TokenASR], mret "asr");
      ([TokenTTS], mret "tts");
      ([TokenOCR], mret "ocr")
    ] (fail_got "unknown model type: "));
  let cmd := param (NewCommand "reset_default_model") "model_type" (PStr modelType) in
  nextToken;; expect TokenModel "expected MODEL";; nextToken;; skip TokenSemicolon;; mret cmd.

(* internal/cli/user_parser.go:2125-2133 Parser.parseAPIResetKey *)
Definition parseAPIResetKey : P Command :=
  nextToken;; skip TokenSemicolon;; mret (NewCommand "api_unset_api_key").

(* internal/cli/user_parser.go:2073-2084 Parser.parseAPIResetCommands *)
Definition parseAPIResetCommands : P Command :=
  nextToken;;
  switch [
    ([TokenDefault], parseAPIResetDefaultModel);
    ([TokenKey], parseAPIResetKey)
  ] (fail_got "unknown RESET target: ").

(* internal/cli/user_parser.go:2137-2169 Parser.parseAPIImport *)
Definition parseAPIImport : P Command :=
  nextToken;;
  documentPaths ← parseQuotedString;
  nextToken;; expect TokenInto "expected INTO";; nextToken;; expect TokenDataset "expected DATASET";; nextToken;;
  datasetName ← parseQuotedString;
  let cmd := NewCommand "import_docs_into_dataset" in
  let cmd := param cmd "document_paths" (PStr documentPaths) in
  let cmd := param cmd "dataset_name" (PStr datasetName) in
  nextToken;; skip TokenSemicolon;; mret cmd.

(** Dashes before the name of a flag: only help is known. *)
(* internal/cli/user_parser.go:2180-2194 Parser.parseAPIRetrieve(part) *)
Definition dashed_help (help err : string) : P Command :=
  dashCount ← loop (λ dashCount,
      tok ← curToken;
      if tok_is tok TokenDash then nextToken;; mret (Continue (int_add dashCount 1)) else mret (Break dashCount)) 0%Z;
  tok ← curToken;
  if bool_decide (0 < dashCount)%Z && tok_is tok TokenIdentifier
  then switch_str (ToLower (Value tok)) [(["h"; "help"], mret (NewCommand help))] (fail err)
  else fail err.

(** One option of the clause WITH: its name, its value, and what it sets. *)
(* internal/cli/user_parser.go:2232-2345 Parser.parseAPIRetrieve(part) *)
Definition with_options (cmd : Command) : P (flow Command) :=
  tok ← curToken;
  if tok_isnt tok TokenEOF && tok_isnt tok TokenSemicolon then
    if tok_is tok TokenComma then fail "syntax error: WITH options must be space-separated, not comma-separated" else
    if tok_isnt tok TokenIdentifier then mret (Break cmd) else
    let paramName := ToLower (Value tok) in
    nextToken;;
    tok ← curToken;
    let valueToken := Type_ tok in
    paramValue ← switch [
      ([TokenInteger], n ← parseNumber; nextToken;; mret (Some (PInt n)));
      ([TokenFloat], f ← parseFloat; nextToken;; mret (Some (PFloat f)));
      ([TokenQuotedString], s ← parseQuotedString; nextToken;; mret (Some (PStr s)));
      ([TokenIdentifier], nextToken;; mret (Some (PStr (Value tok))));
      ([TokenLBracket], mret None)
    ] (fail ("WITH option " +:+ quote paramName +:+ " is missing a value"));
    tok ← curToken;
    let refuse := λ what, fail ("WITH option " +:+ quote paramName +:+ " must be " +:+ what +:+ ", got " +:+ tokenTypeDescription valueToken tok) in
    switch_str paramName [
      (["top_k"; "page_size"; "page"],
        match paramValue with
        | Some (PInt n) => mret (Continue (param cmd paramName (PInt n)))
        | _ => refuse "an integer"
        end);
      (["similarity_threshold"; "vector_similarity_weight"],
        match paramValue with
        | Some (PInt n) => mret (Continue (param cmd paramName (PFloat (f64_of_int n))))
        | Some (PFloat f) => mret (Continue (param cmd paramName (PFloat f)))
        | _ => refuse "a number"
        end);
      (["keyword"; "use_kg"],
        match paramValue with
        | Some (PStr s) =>
            switch_str (ToLower s) [
              (["true"], mret (Continue (param cmd paramName (PBool true))));
              (["false"], mret (Continue (param cmd paramName (PBool false))))
            ] (fail ("WITH option " +:+ quote paramName +:+ " must be true or false, got " +:+ quote s))
        | _ => refuse "true or false"
        end);
      (["rerank_id"; "tenant_rerank_id"; "search_id"; "meta_data_filter"],
        match paramValue with
        | Some v => if bool_decide (valueToken = TokenQuotedString) then mret (Continue (param cmd paramName v)) else refuse "a quoted string"
        | None => refuse "a quoted string"
        end);
      (["cross_languages"; "doc_ids"],
        if tok_isnt tok TokenLBracket
        then fail ("WITH option " +:+ quote paramName +:+ " must be a list, e.g. " +:+ quote paramName +:+ " ['a', 'b']") else
        list ← parseQuotedStringList;
        mret (Continue (param cmd paramName (PStrs list))))
    ] (fail ("unknown WITH option " +:+ quote paramName))
  else mret (Break cmd).

(** One step of the path or a flag of the search. *)
(* internal/cli/user_parser.go:2363-2426 Parser.parseAPIRetrieve(part) *)
Definition search_path (cmd : Command) : P (flow Command) :=
  let extend := λ text, param cmd "path" (PStr (sprint (CmdParams cmd !! "path") +:+ text)) in
  tok ← curToken;
  if tok_isnt tok TokenEOF then
    if tok_is tok TokenDash then
      nextToken;; expect TokenIdentifier "expect identifier";;
      tok ← curToken;
      if bool_decide (ToLower (Value tok) = "n") then
        nextToken;; expect TokenInteger "expect number";;
        n ← parseNumber;
        nextToken;; mret (Continue (param cmd "number" (PInt n)))
      else fail_got "unknow parameter: "
    else if tok_is tok TokenIdentifier then nextToken;; mret (Continue (extend (Value tok)))
    else if tok_is tok TokenSlash then
      let cmd := extend "/" in
      nextToken;;
      tok ← curToken;
      if tok_is tok TokenIdentifier
      then nextToken;; mret (Continue (param cmd "path" (PStr (sprint (CmdParams cmd !! "path") +:+ Value tok))))
      else mret (Continue cmd)
    else if tok_is tok TokenIllegal && bool_decide (Value tok = ".") then nextToken;; mret (Continue (extend "."))
    else fail ("unexpected token " +:+ quote (Value tok) +:+ " in search path")
  else mret (Break cmd).

(* internal/cli/user_parser.go:2171-2428 Parser.parseAPIRetrieve *)
Definition parseAPIRetrieve : P Command :=
  nextToken;;
  tok ← curToken;
  if tok_is tok TokenDash then dashed_help "search_help" "expected quoted string or identifier" else
  question ← (
    if tok_is tok TokenQuotedString then parseQuotedString
    else if tok_is tok TokenIdentifier then parseIdentifier
    else fail "expected quoted string or identifier");
  nextToken;;
  tok ← curToken;
  if tok_is tok TokenOn then
    nextToken;; expect TokenDatasets "expected DATASETS";; nextToken;;
    datasets ← parseQuotedString;
    let cmd := param (NewCommand "search_on_datasets") "question" (PStr question) in
    let cmd := param cmd "datasets" (PStr datasets) in
    nextToken;;
    tok ← curToken;
    cmd ← (
      if tok_is tok TokenWith || (tok_is tok TokenIdentifier && bool_decide (ToLower (Value tok) = "with")) then
        nextToken;; loop with_options cmd
      else mret cmd);
    skip TokenSemicolon;; mret cmd
  else
  let cmd := param (NewCommand "ce_search") "query" (PStr question) in
  if tok_is tok TokenEOF then mret (param cmd "path" (PStr ".")) else loop search_path cmd.

(* internal/cli/user_parser.go:2448-2475 Parser.parseAPIParseDataset *)
Definition parseAPIParseDataset : P Command :=
  nextToken;;
  datasetName ← parseQuotedString;
  nextToken;;
  let method := "" in
  tok ← curToken;
  method ← (
    if tok_is tok TokenSync then
      mret "sync"
    else
    tok ← curToken;
    if tok_is tok TokenAsync then
      mret "async"
    else fail "expected SYNC or ASYNC");
  nextToken;;
  let cmd := param (NewCommand "parse_dataset") "dataset_name" (PStr datasetName) in
  let cmd := param cmd "method" (PStr method) in
  skip TokenSemicolon;; mret cmd.

(* internal/cli/user_parser.go:2477-2525 Parser.parseAPIModelParse *)
Definition parseAPIModelParse : P Command :=
  nextToken;;
  modelNameOrID ← parseQuotedString;
  nextToken;;
  let cmd := NewCommand "api_model_parse_file" in
  cmd ← (
    switch [
      ([TokenFile],
        nextToken;;
        file ← parseQuotedString;
        let cmd := param cmd "file" (PStr file) in
        nextToken;; mret cmd);
      ([TokenURL],
        nextToken;;
        url ← parseQuotedString;
        let cmd := param cmd "url" (PStr url) in
        nextToken;; mret cmd)
    ] (fail "expected FILE or URL"));
  cmd ← (
    if IsCompositeModelName modelNameOrID then
      mret (param cmd "composite_model_name" (PStr modelNameOrID))
    else if IsUUID modelNameOrID then
      mret (param cmd "model_id" (PStr modelNameOrID))
    else fail ("invalid format of model name or ID: " +:+ modelNameOrID));
  skip TokenSemicolon;; mret cmd.

(* internal/cli/user_parser.go:2527-2559 Parser.parseAPIParseDocs *)
Definition parseAPIParseDocs : P Command :=
  nextToken;;
  documentsStr ← parseQuotedString;
  nextToken;; expect TokenFrom "expected FROM";; nextToken;;
  datasetID ← parseQuotedString;
  nextToken;;
  let cmd := NewCommand "api_parse_documents" in
  let documents := Split documentsStr " " in
  let cmd := param cmd "documents" (PStrs documents) in
  let cmd := param cmd "dataset_id" (PStr datasetID) in
  skip TokenSemicolon;; mret cmd.

(* internal/cli/user_parser.go:2561-2641 Parser.parseAPIParseLocalFile *)
Definition parseAPIParseLocalFile : P Command :=
  nextToken;;
  filename ← parseQuotedString;
  nextToken;;
  let cmd := NewCommand "user_parse_local_file_command" in
  let cmd := param cmd "filename" (PStr filename) in
  cmd ← loop (λ cmd,
      switch [
        ([TokenVision],
          nextToken;;
          visionModel ← parseQuotedString;
          let cmd := param cmd "vision_model" (PStr visionModel) in
          nextToken;; mret (Continue cmd));
        ([TokenASR],
          nextToken;;
          asrModel ← parseQuotedString;
          let cmd := param cmd "asr_model" (PStr asrModel) in
          nextToken;; mret (Continue cmd));
        ([TokenOCR],
          nextToken;;
          ocrModel ← parseQuotedString;
          let cmd := param cmd "ocr_model" (PStr ocrModel) in
          nextToken;; mret (Continue cmd));
        ([TokenChat],
          nextToken;;
          chatModel ← parseQuotedString;
          let cmd := param cmd "chat_model" (PStr chatModel) in
          nextToken;; mret (Continue cmd));
        ([TokenEmbed],
          nextToken;;
          embedModel ← parseQuotedString;
          let cmd := param cmd "embedding_model" (PStr embedModel) in
          nextToken;; mret (Continue cmd));
        ([TokenDocParse],
          nextToken;;
          docParseModel ← parseQuotedString;
          let cmd := param cmd "doc_parse_model" (PStr docParseModel) in
          nextToken;; mret (Continue cmd));
        ([TokenSemicolon], nextToken;; mret (Break cmd))
      ] (mret (Break cmd))) cmd;
  mret cmd.

(* internal/cli/user_parser.go:2431-2446 Parser.parseParseCommands *)
Definition parseParseCommands : P Command :=
  nextToken;;
  switch [
    ([TokenDataset], parseAPIParseDataset);
    ([TokenWith], parseAPIModelParse);
    ([TokenDocument], parseAPIParseDocs);
    ([TokenFile], parseAPIParseLocalFile)
  ] (fail "expected DATASET, WITH, or DOCUMENT").

(* internal/cli/user_parser.go:2673-2690 Parser.parseUserStatement *)
Definition parseUserStatement : P Command :=
  switch [
    ([TokenPing], parseAPIPingServer);
    ([TokenShow], parseAPIShowCommands);
    ([TokenList], parseAPIListCommands);
    ([TokenImport], parseAPIImport);
    ([TokenInsert], parseDevInsertCommand);
    ([TokenRetrieve], parseAPIRetrieve)
  ] (fail_got "invalid user statement: ").

(* internal/cli/user_parser.go:2645-2671 Parser.parseBenchmarkCommand *)
Definition parseBenchmarkCommand : P Command :=
  let cmd := NewCommand "benchmark" in
  nextToken;;
  concurrency ← parseNumber;
  let cmd := param cmd "concurrency" (PInt concurrency) in
  nextToken;;
  iterations ← parseNumber;
  let cmd := param cmd "iterations" (PInt iterations) in
  nextToken;;
  nestedCmd ← parseUserStatement;
  mret (param cmd "command" (PCmd nestedCmd)).

(* internal/cli/user_parser.go:2692-2733 Parser.parseAPIEnable *)
Definition parseAPIEnable : P Command :=
  nextToken;; expect TokenModel "expected MODEL";; nextToken;;
  modelName ← parseQuotedString;
  nextToken;; expect TokenFrom "expected FROM";; nextToken;;
  modelProvider ← parseQuotedString;
  nextToken;;
  modelInstance ← parseQuotedString;
  nextToken;; skip TokenSemicolon;;
  let cmd := param (NewCommand "enable_model") "model_name" (PStr modelName) in
  let cmd := param cmd "instance_name" (PStr modelInstance) in
  mret (param cmd "provider_name" (PStr modelProvider)).

(* internal/cli/user_parser.go:2735-2776 Parser.parseAPIDisable *)
Definition parseAPIDisable : P Command :=
  nextToken;; expect TokenModel "expected MODEL";; nextToken;;
  modelName ← parseQuotedString;
  nextToken;; expect TokenFrom "expected FROM";; nextToken;;
  modelProvider ← parseQuotedString;
  nextToken;;
  modelInstance ← parseQuotedString;
  nextToken;; skip TokenSemicolon;;
  let cmd := param (NewCommand "disable_model") "model_name" (PStr modelName) in
  let cmd := param cmd "instance_name" (PStr modelInstance) in
  mret (param cmd "provider_name" (PStr modelProvider)).

(* internal/cli/user_parser.go:3978-3982 markSet *)
Definition markSet (cmd : Command) (name : string) : Command :=
  match CmdParams cmd !! "_set" with
  | Some (PSet s) => param cmd "_set" (PSet ({[name]} ∪ s))
  | _ => cmd
  end.

(* internal/cli/user_parser.go:4010-4020 Parser.parseBool *)
Definition parseBool : P bool :=
  tok ← curToken;
  switch_str (ToLower (Value tok)) [
    (["true"], nextToken;; mret true);
    (["false"], nextToken;; mret false)
  ] (tok ← curToken; fail ("expected true or false, got " +:+ (quote (Value tok)))).

(* internal/cli/user_parser.go:3853-3976 Parser.parseChatCompletionsBody *)
Definition parseChatCompletionsBody : P Command :=
  tok ← curToken;
  if tok_is tok TokenDash then
    let dashCount := 0%Z in
    dashCount ← loop (λ dashCount,
        tok ← curToken;
        if tok_is tok TokenDash then
          let dashCount := int_add dashCount 1 in
          nextToken;; mret (Continue dashCount)
        else mret (Break dashCount)) dashCount;
    let k := λ _,
      fail "CHAT COMPLETIONS: only -h/--help takes no args; otherwise expected question"
    in
    tok ← curToken;
    if bool_decide (0 < dashCount)%Z && tok_is tok TokenIdentifier then
      tok ← curToken;
      switch_str (ToLower (Value tok)) [
        (["h"; "help"], mret (NewCommand "chat completions help"))
      ] (k tt)
    else k tt
  else
  let cmd := param (NewCommand "chat completions") "chat_id" (PStr "") in
  let cmd := param cmd "temperature" (PFloat (f64_of_int 0)) in
  let cmd := param cmd "max_tokens" (PInt 0) in
  let cmd := param cmd "stream" (PBool false) in
  let cmd := param cmd "_set" (PSet ∅) in
  question ← wrap "CHAT COMPLETIONS: expected question: " parseQuotedString;
  let cmd := param cmd "question" (PStr question) in
  nextToken;;
  let handleOption := λ (name : string) (cmd : Command),
    switch_str name [
      (["chat_id"; "session"; "llm"; "system"],
        tok ← curToken;
        v ← instead ("CHAT COMPLETIONS " +:+ name +:+ ": expected quoted string, got " +:+ (Value tok)) parseQuotedString;
        let cmd := param cmd name (PStr v) in
        nextToken;; mret (markSet cmd name));
      (["temperature"; "top_p"; "frequency_penalty"; "presence_penalty"],
        tok ← curToken;
        v ← instead ("CHAT COMPLETIONS " +:+ name +:+ ": expected number, got " +:+ (Value tok)) parseFloat;
        let cmd := param cmd name (PFloat v) in
        nextToken;; mret (markSet cmd name));
      (["max_tokens"],
        v ← instead_got "CHAT COMPLETIONS max_tokens: expected integer, got " parseNumber;
        let cmd := param cmd "max_tokens" (PInt v) in
        nextToken;; mret (markSet cmd "max_tokens"));
      (["stream"; "pass_all_history"; "legacy"],
        tok ← curToken;
        v ← instead ("CHAT COMPLETIONS " +:+ name +:+ ": expected true|false, got " +:+ (Value tok)) parseBool;
        let cmd := param cmd name (PBool v) in
        mret (markSet cmd name));
      (["history"],
        raw ← instead_got "CHAT COMPLETIONS history: expected quoted string, got " parseQuotedString;
        let cmd := param cmd "history_raw" (PStr raw) in
        nextToken;; mret cmd);
      (["history_delimiter"],
        v ← instead_got "CHAT COMPLETIONS history_delimiter: expected quoted string, got " parseQuotedString;
        let cmd := param cmd "history_delimiter" (PStr v) in
        nextToken;; mret cmd)
    ] (fail ("CHAT COMPLETIONS: unknown option " +:+ (quote name) +:+ " (valid: chat_id, session, llm, system, history, history_delimiter, temperature, max_tokens, stream, top_p, frequency_penalty, presence_penalty, pass_all_history, legacy)"))
  in
  cmd ← loop (λ cmd,
      switch [
        ([TokenSemicolon], nextToken;; mret (Break cmd));
        ([TokenEOF], mret (Break cmd));
        ([TokenIdentifier; TokenQuotedString],
          tok ← curToken;
          let name := Value tok in
          tok ← curToken;
          let name :=
            if tok_is tok TokenQuotedString then
              TrimQuotes name
            else name
          in
          nextToken;;
          cmd ← handleOption name cmd;
          mret (Continue cmd))
      ] (
        tok ← curToken;
        if negb (isKeyword (Type_ tok)) then
          tok ← curToken; fail ("CHAT COMPLETIONS: unexpected token " +:+ (quote (Value tok)) +:+ " in option list (valid options: chat_id, session, llm, system, history, history_delimiter, temperature, max_tokens, stream, top_p, frequency_penalty, presence_penalty, pass_all_history, legacy)")
        else
        tok ← curToken;
        let name := Value tok in
        nextToken;;
        cmd ← handleOption name cmd;
        mret (Continue cmd))) cmd;
  mret cmd.

(* internal/cli/user_parser.go:2781-2969 Parser.parseAPIChat *)
Definition parseAPIChat : P Command :=
  nextToken;;
  tok ← curToken;
  if tok_is tok TokenIdentifier && (EqualFold (Value tok) "completion" || EqualFold (Value tok) "completions") then
    nextToken;; parseChatCompletionsBody
  else
  let modelNameOrID := "" in
  let messages : list string := [] in
  let images : list string := [] in
  let videos : list string := [] in
  let audios : list string := [] in
  let files : list string := [] in
  let effort := "default" in
  let verbosity := "low" in
  '(modelNameOrID, messages, images, videos, audios, files, effort, verbosity) ←
    loop (λ '(modelNameOrID, messages, images, videos, audios, files, effort, verbosity),
      switch [
        ([TokenWith],
          nextToken;;
          if bool_decide (modelNameOrID ≠ "") then fail "model name or ID is already set" else
          modelNameOrID ← parseQuotedString;
          nextToken;;
          mret (Continue (modelNameOrID, messages, images, videos, audios, files, effort, verbosity)));
        ([TokenMessage],
          nextToken;;
          if bool_decide (Z.of_nat (length messages) ≠ 0)%Z then fail "message is already set" else
          messages ← loop (λ messages,
              tok ← curToken;
              if tok_isnt tok TokenQuotedString then mret (Break messages) else
              message ← parseQuotedString;
              let message := TrimSpace message in
              let messages := messages ++ [message] in
              nextToken;; mret (Continue messages)) messages;
          mret (Continue (modelNameOrID, messages, images, videos, audios, files, effort, verbosity)));
        ([TokenImage],
          nextToken;;
          if bool_decide (Z.of_nat (length images) ≠ 0)%Z then fail "image is already set" else
          images ← loop (λ images,
              tok ← curToken;
              if tok_isnt tok TokenQuotedString then mret (Break images) else
              image ← parseQuotedString;
              let images := images ++ [image] in
              nextToken;; mret (Continue images)) images;
          mret (Continue (modelNameOrID, messages, images, videos, audios, files, effort, verbosity)));
        ([TokenVideo],
          nextToken;;
          if bool_decide (Z.of_nat (length videos) ≠ 0)%Z then fail "video is already set" else
          videos ← loop (λ videos,
              tok ← curToken;
              if tok_isnt tok TokenQuotedString then mret (Break videos) else
              video ← parseQuotedString;
              let videos := videos ++ [video] in
              nextToken;; mret (Continue videos)) videos;
          mret (Continue (modelNameOrID, messages, images, videos, audios, files, effort, verbosity)));
        ([TokenAudio],
          nextToken;;
          if bool_decide (Z.of_nat (length audios) ≠ 0)%Z then fail "video is already set" else
          audios ← loop (λ audios,
              tok ← curToken;
              if tok_isnt tok TokenQuotedString then mret (Break audios) else
              audio ← parseQuotedString;
              let audios := audios ++ [audio] in
              nextToken;; mret (Continue audios)) audios;
          mret (Continue (modelNameOrID, messages, images, videos, audios, files, effort, verbosity)));
        ([TokenFile],
          nextToken;;
          if bool_decide (Z.of_nat (length files) ≠ 0)%Z then fail "video is already set" else
          files ← loop (λ files,
              tok ← curToken;
              if tok_isnt tok TokenQuotedString then mret (Break files) else
              file ← parseQuotedString;
              let files := files ++ [file] in
              nextToken;; mret (Continue files)) files;
          mret (Continue (modelNameOrID, messages, images, videos, audios, files, effort, verbosity)));
        ([TokenEffort],
          nextToken;;
          effort ← (
            switch [
              ([TokenNone], mret "none");
              ([TokenMinimal], mret "minimal");
              ([TokenLow], mret "low");
              ([TokenMedium], mret "medium");
              ([TokenHigh], mret "high");
              ([TokenMax], mret "max")
            ] (fail "invalid effort level"));
          nextToken;; mret (Break (modelNameOrID, messages, images, videos, audios, files, effort, verbosity)));
        ([TokenVerbosity],
          nextToken;;
          verbosity ← (
            switch [
              ([TokenLow], mret "low");
              ([TokenMedium], mret "median");
              ([TokenHigh], mret "high")
            ] (fail "invalid verbosity level"));
          nextToken;; mret (Break (modelNameOrID, messages, images, videos, audios, files, effort, verbosity)));
        ([TokenSemicolon],
          nextToken;; mret (Break (modelNameOrID, messages, images, videos, audios, files, effort, verbosity)))
      ] (mret (Break (modelNameOrID, messages, images, videos, audios, files, effort, verbosity))))
        (modelNameOrID, messages, images, videos, audios, files, effort, verbosity);
  let cmd := NewCommand "api_chat_to_model" in
  cmd ← (
    if bool_decide (modelNameOrID ≠ "") then
      if IsCompositeModelName modelNameOrID then
        mret (param cmd "composite_model_name" (PStr modelNameOrID))
      else if IsUUID modelNameOrID then
        mret (param cmd "model_id" (PStr modelNameOrID))
      else fail ("invalid format of model name or ID: " +:+ modelNameOrID)
    else mret cmd);
  let cmd := param cmd "messages" (PStrs messages) in
  let cmd := param cmd "images" (PStrs images) in
  let cmd := param cmd "videos" (PStrs videos) in
  let cmd := param cmd "audios" (PStrs audios) in
  let cmd := param cmd "files" (PStrs files) in
  let cmd := param cmd "thinking" (PBool false) in
  let cmd := param cmd "stream" (PBool false) in
  let cmd := param cmd "effort" (PStr effort) in
  mret (param cmd "verbosity" (PStr verbosity)).

(* internal/cli/user_parser.go:2971-2985 Parser.parseAPIThink *)
Definition parseAPIThink : P Command :=
  nextToken;; expect TokenChat "expected CHAT after THINK";;
  command ← parseAPIChat;
  mret (param command "thinking" (PBool true)).

(* internal/cli/user_parser.go:3169-3224 Parser.parseAPIASR *)
Definition parseAPIASR : P Command :=
  nextToken;; expect TokenWith "expected WITH after ASR";; nextToken;;
  modelNameOrID ← parseQuotedString;
  nextToken;; expect TokenAudio "expected AUDIO to ASR";; nextToken;;
  audioFile ← parseQuotedString;
  nextToken;;
  let cmd := NewCommand "asr_user_command" in
  cmd ← (
    if IsCompositeModelName modelNameOrID then
      mret (param cmd "composite_model_name" (PStr modelNameOrID))
    else if IsUUID modelNameOrID then
      mret (param cmd "model_id" (PStr modelNameOrID))
    else fail ("invalid format of model name or ID: " +:+ modelNameOrID));
  let cmd := param cmd "audio_file" (PStr audioFile) in
  cmd ← loop (λ cmd,
      tok ← curToken;
      if tok_isnt tok TokenEOF && tok_isnt tok TokenSemicolon then
        switch [
          ([TokenParam],
            nextToken;; expect TokenQuotedString "expect quoted string after 'param'";;
            tok ← curToken;
            let cmd := param cmd "param_str" (PStr (TrimQuotes (Value tok))) in
            nextToken;; mret (Continue cmd))
        ] (fail_got "unexpected token in asr command: ")
      else mret (Break cmd)) cmd;
  skip TokenSemicolon;; mret cmd.

(* internal/cli/user_parser.go:3226-3302 Parser.parseAPITTS *)
Definition parseAPITTS : P Command :=
  nextToken;;
  let cmd := NewCommand "tts_user_command" in
  expect TokenWith "expect 'with' after tts";; nextToken;;
  tok ← curToken;
  if tok_isnt tok TokenQuotedString && tok_isnt tok TokenIdentifier then fail "expect model name after 'with'" else
  tok ← curToken;
  let modelNameOrID := TrimQuotes (Value tok) in
  nextToken;;
  cmd ← (
    if IsCompositeModelName modelNameOrID then
      mret (param cmd "composite_model_name" (PStr modelNameOrID))
    else if IsUUID modelNameOrID then
      mret (param cmd "model_id" (PStr modelNameOrID))
    else fail ("invalid format of model name or ID: " +:+ modelNameOrID));
  expect TokenText "expect 'text' parameter";;
  nextToken;; expect TokenQuotedString "expect quoted string after 'text'";;
  tok ← curToken;
  let cmd := param cmd "text" (PStr (TrimQuotes (Value tok))) in
  nextToken;;
  cmd ← loop (λ cmd,
      tok ← curToken;
      if tok_isnt tok TokenEOF && tok_isnt tok TokenSemicolon then
        switch [
          ([TokenPlay],
            nextToken;;
            let cmd := param cmd "play" (PBool true) in
            mret (Continue cmd));
          ([TokenParam],
            nextToken;; expect TokenQuotedString "expect quoted string after 'param'";;
            tok ← curToken;
            let cmd := param cmd "param_str" (PStr (TrimQuotes (Value tok))) in
            nextToken;; nextToken;; mret (Continue cmd));
          ([TokenSave],
            nextToken;;
            tok ← curToken;
            if tok_isnt tok TokenQuotedString && tok_isnt tok TokenIdentifier then fail "expect directory path after 'save'" else
            let cmd := param cmd "save" (PBool true) in
            tok ← curToken;
            let cmd := param cmd "save_path" (PStr (TrimQuotes (Value tok))) in
            nextToken;; mret (Continue cmd));
          ([TokenFormat],
            nextToken;;
            tok ← curToken;
            if tok_isnt tok TokenQuotedString && tok_isnt tok TokenIdentifier then
              fail "expect format string (e.g. 'wav') after 'format'"
            else
            tok ← curToken;
            let cmd := param cmd "format" (PStr (TrimQuotes (Value tok))) in
            nextToken;; mret (Continue cmd))
        ] (fail_got "unexpected token: ")
      else mret (Break cmd)) cmd;
  skip TokenSemicolon;; mret cmd.

(* internal/cli/user_parser.go:2987-3021 Parser.parseAPIStream *)
Definition parseAPIStream : P Command :=
  nextToken;;
  command ← (
    switch [
      ([TokenChat],
        command ← parseAPIChat;
        mret command);
      ([TokenThink],
        command ← parseAPIThink;
        mret command);
      ([TokenASR],
        command ← parseAPIASR;
        mret command);
      ([TokenTTS],
        command ← parseAPITTS;
        mret command)
    ] (fail "expected CHAT, THINK, ASR, or TTS after STREAM"));
  mret (param command "stream" (PBool true)).

(* internal/cli/user_parser.go:3023-3094 Parser.parseAPIEmbed *)
Definition parseAPIEmbed : P Command :=
  nextToken;; expect TokenText "expected WITH after EMBED";; nextToken;;
  let texts : list string := [] in
  texts ← loop (λ texts,
      tok ← curToken;
      if tok_isnt tok TokenQuotedString then mret (Break texts) else
      text ← parseQuotedString;
      let text := TrimSpace text in
      let texts := texts ++ [text] in
      nextToken;; mret (Continue texts)) texts;
  expect TokenWith "expected WITH after EMBED";; nextToken;;
  modelNameOrID ← parseQuotedString;
  nextToken;;
  let dimension := 0%Z in
  tok ← curToken;
  dimension ← (
    if tok_is tok TokenDimension then
      nextToken;; expect TokenInteger "expected integer after DIMENSION";;
      dimension ← parseNumber;
      nextToken;; mret dimension
    else mret dimension);
  skip TokenSemicolon;; expect_got TokenEOF "unexpected token after embed command: ";;
  let cmd := NewCommand "api_embed_user_text" in
  cmd ← (
    if IsCompositeModelName modelNameOrID then
      mret (param cmd "composite_model_name" (PStr modelNameOrID))
    else if IsUUID modelNameOrID then
      mret (param cmd "model_id" (PStr modelNameOrID))
    else fail ("invalid format of model name or ID: " +:+ modelNameOrID));
  let cmd := param cmd "texts" (PStrs texts) in
  let cmd :=
    if bool_decide (0 < dimension)%Z then
      param cmd "dimension" (PInt dimension)
    else cmd
  in
  mret cmd.

(* internal/cli/user_parser.go:3096-3167 Parser.parseAPIRerank *)
Definition parseAPIRerank : P Command :=
  nextToken;; expect TokenQuery "expected WITH after EMBED";; nextToken;;
  query ← parseQuotedString;
  let query := TrimSpace query in
  nextToken;; expect TokenDocument "expected DOCUMENT after query";; nextToken;;
  let documents : list string := [] in
  documents ← loop (λ documents,
      tok ← curToken;
      if tok_isnt tok TokenQuotedString then mret (Break documents) else
      document ← parseQuotedString;
      let document := TrimSpace document in
      let documents := documents ++ [document] in
      nextToken;; mret (Continue documents)) documents;
  expect TokenWith "expected WITH after EMBED";; nextToken;;
  modelNameOrID ← parseQuotedString;
  nextToken;; expect TokenTop "expected TOP after model";; nextToken;;
  topN ← parseNumber;
  nextToken;;
  let cmd := NewCommand "api_rarank_user_document" in
  cmd ← (
    if IsCompositeModelName modelNameOrID then
      mret (param cmd "composite_model_name" (PStr modelNameOrID))
    else if IsUUID modelNameOrID then
      mret (param cmd "model_id" (PStr modelNameOrID))
    else fail ("invalid format of model name or ID: " +:+ modelNameOrID));
  let cmd := param cmd "query" (PStr query) in
  let cmd := param cmd "documents" (PStrs documents) in
  mret (param cmd "top_n" (PInt topN)).

(* internal/cli/user_parser.go:3304-3357 Parser.parseAPIOCR *)
Definition parseAPIOCR : P Command :=
  nextToken;; expect TokenWith "expected WITH after OCR";; nextToken;;
  modelNameOrID ← parseQuotedString;
  nextToken;;
  let cmd := NewCommand "ocr_user_command" in
  cmd ← (
    switch [
      ([TokenFile],
        nextToken;;
        file ← parseQuotedString;
        let cmd := param cmd "file" (PStr file) in
        nextToken;; mret cmd);
      ([TokenURL],
        nextToken;;
        url ← parseQuotedString;
        let cmd := param cmd "url" (PStr url) in
        nextToken;; mret cmd)
    ] (fail "expected FILE or URL"));
  cmd ← (
    if IsCompositeModelName modelNameOrID then
      mret (param cmd "composite_model_name" (PStr modelNameOrID))
    else if IsUUID modelNameOrID then
      mret (param cmd "model_id" (PStr modelNameOrID))
    else fail ("invalid format of model name or ID: " +:+ modelNameOrID));
  skip TokenSemicolon;; mret cmd.

(* internal/cli/user_parser.go:3441-3473 Parser.parseCheckInstanceCommand *)
Definition parseCheckInstanceCommand : P Command :=
  expect TokenInstance "expected INSTANCE after CHECK";;
  nextToken;; expect TokenQuotedString "expected instance name after INSTANCE";;
  tok ← curToken;
  let instanceName := Value tok in
  nextToken;; expect TokenFrom "expected FROM after instance name";;
  nextToken;; expect TokenQuotedString "expected provider name after FROM";;
  tok ← curToken;
  let providerName := Value tok in
  nextToken;; skip TokenSemicolon;;
  let cmd := NewCommand "check_provider_connection" in
  let cmd := param cmd "provider_name" (PStr providerName) in
  mret (param cmd "instance_name" (PStr instanceName)).

(* internal/cli/user_parser.go:3475-3535 Parser.parseCheckProviderByKeyCommand *)
Definition parseCheckProviderByKeyCommand : P Command :=
  expect TokenProvider "expected PROVIDER after CHECK";;
  nextToken;; expect TokenQuotedString "expected provider name after PROVIDER";;
  tok ← curToken;
  let providerName := Value tok in
  nextToken;; expect TokenRegion "expected REGION after provider name";;
  nextToken;; expect TokenQuotedString "expected region name after REGION";;
  tok ← curToken;
  let regionName := Value tok in
  nextToken;; expect TokenKey "expected KEY after region name";;
  nextToken;; expect TokenQuotedString "expected API key after KEY";;
  tok ← curToken;
  let apiKey := Value tok in
  nextToken;;
  let baseURL := "" in
  tok ← curToken;
  baseURL ← (
    if tok_is tok TokenURL then
      nextToken;; expect TokenQuotedString "expected base URL after URL";;
      tok ← curToken;
      let baseURL := Value tok in
      nextToken;; mret baseURL
    else mret baseURL);
  skip TokenSemicolon;; expect_got TokenEOF "unexpected token: ";;
  let cmd := NewCommand "check_provider_with_key" in
  let cmd := param cmd "provider_name" (PStr providerName) in
  let cmd := param cmd "region" (PStr regionName) in
  let cmd := param cmd "api_key" (PStr apiKey) in
  let cmd :=
    if bool_decide (baseURL ≠ "") then
      param cmd "base_url" (PStr baseURL)
    else cmd
  in
  mret cmd.

(* internal/cli/user_parser.go:3361-3372 Parser.parseAPICheck *)
Definition parseAPICheck : P Command :=
  nextToken;;
  switch [
    ([TokenInstance], parseCheckInstanceCommand);
    ([TokenProvider], parseCheckProviderByKeyCommand)
  ] (fail "expected INSTANCE or PROVIDER after CHECK").

(* internal/cli/user_parser.go:3374-3408 Parser.parseUserStartIngestion *)
Definition parseUserStartIngestion : P Command :=
  nextToken;; expect TokenIngestion "expect INGESTION";; nextToken;;
  documentID ← parseQuotedString;
  nextToken;; expect TokenFrom "expect FROM";; nextToken;;
  datasetID ← parseQuotedString;
  let cmd := NewCommand "api_start_ingestion" in
  let cmd := param cmd "document_id" (PStr documentID) in
  let cmd := param cmd "dataset_id" (PStr datasetID) in
  nextToken;; skip TokenSemicolon;; mret cmd.

(* internal/cli/user_parser.go:3410-3439 Parser.parseUserStopIngestion *)
Definition parseUserStopIngestion : P Command :=
  nextToken;;
  expect TokenIngestion "expect INGESTION";; nextToken;; expect TokenTasks "expect TASKS";; nextToken;;
  taskStr ← parseQuotedString;
  let tasks := Split taskStr " " in
  let cmd := param (NewCommand "api_stop_ingestion") "tasks" (PStrs tasks) in
  nextToken;; skip TokenSemicolon;; mret cmd.

(* internal/cli/user_parser.go:3548-3570 Parser.parseAPISaveConfig *)
Definition parseAPISaveConfig : P Command :=
  nextToken;; expect TokenAs "expected AS after CONFIG";; nextToken;;
  path ← parseQuotedString;
  let cmd := param (NewCommand "api_save_config_command") "path" (PStr path) in
  skip TokenSemicolon;; mret cmd.

(* internal/cli/user_parser.go:3537-3545 Parser.parseAPISave *)
Definition parseAPISave : P Command :=
  nextToken;;
  switch [
    ([TokenConfig], parseAPISaveConfig)
  ] (fail_got "unknown ADD target: ").

(* internal/cli/user_parser.go:3587-3612 Parser.parseAPIUseModel *)
Definition parseAPIUseModel : P Command :=
  nextToken;;
  modelNameOrID ← wrap "expected model identifier in format 'model@instance@provider': " parseQuotedString;
  nextToken;; skip TokenSemicolon;;
  let cmd := NewCommand "api_use_model" in
  if IsCompositeModelName modelNameOrID then
    mret (param cmd "composite_model_name" (PStr modelNameOrID))
  else if IsUUID modelNameOrID then
    mret (param cmd "model_id" (PStr modelNameOrID))
  else fail ("invalid format of model name or ID: " +:+ modelNameOrID).

(* internal/cli/user_parser.go:3614-3630 Parser.parseAPIUseAPIServer *)
Definition parseAPIUseAPIServer : P Command :=
  nextToken;;
  serverName ← parseQuotedString;
  nextToken;;
  let cmd := NewCommand "api_use_api_server" in
  let cmd := param cmd "server_name" (PStr serverName) in
  skip TokenSemicolon;; mret cmd.

(* internal/cli/user_parser.go:3632-3642 Parser.parseAPIUseAdminServer *)
Definition parseAPIUseAdminServer : P Command :=
  nextToken;;
  let cmd := NewCommand "api_use_admin_server" in
  skip TokenSemicolon;; mret cmd.

(* internal/cli/user_parser.go:3572-3585 Parser.parseAPIUseCommands *)
Definition parseAPIUseCommands : P Command :=
  nextToken;;
  switch [
    ([TokenModel], parseAPIUseModel);
    ([TokenAPI], parseAPIUseAPIServer);
    ([TokenAdmin], parseAPIUseAdminServer)
  ] (fail "expected MODEL or SKILL after USE").

(* internal/cli/user_parser.go:3661-3686 Parser.parseAPIRemoveTask *)
Definition parseAPIRemoveTask : P Command :=
  nextToken;; expect TokenTasks "expected TASKS";; nextToken;;
  taskStr ← parseQuotedString;
  let cmd := NewCommand "api_remove_task" in
  let tasks := Split taskStr " " in
  let cmd := param cmd "tasks" (PStrs tasks) in
  skip TokenSemicolon;; mret cmd.

(* internal/cli/user_parser.go:3644-3660 Parser.parseAPIRemove *)
Definition parseAPIRemove : P Command :=
  nextToken;;
  switch [
    ([TokenIngestion], parseAPIRemoveTask);
    ([TokenTag], parseDevRemoveTags);
    ([TokenChunks; TokenAll], parseDevRemoveChunk)
  ] (fail_got "unknown REMOVE target: ").

(* internal/cli/user_parser.go:3995-4007 Parser.parseJSONLiteral *)
Definition parseJSONLiteral : P string :=
  expect_got TokenQuotedString "expected JSON literal in single/double quotes, got ";;
  tok ← curToken;
  match unmarshal (Value tok) with
  | Some _ => mret (Value tok)
  | None => fail ("invalid JSON literal " +:+ quote (Value tok) +:+ ": " +:+ json_error (Value tok))
  end.

(* internal/cli/user_parser.go:3714-3846 Parser.parseOpenaiChat *)
Definition parseOpenaiChat : P Command :=
  nextToken;;
  tok ← curToken;
  if tok_is tok TokenDash then
    let dashCount := 0%Z in
    dashCount ← loop (λ dashCount,
        tok ← curToken;
        if tok_is tok TokenDash then
          let dashCount := int_add dashCount 1 in
          nextToken;; mret (Continue dashCount)
        else mret (Break dashCount)) dashCount;
    let k := λ _,
      fail "OPENAI_CHAT: only -h/--help takes no args; otherwise expected chat_id and message"
    in
    tok ← curToken;
    if bool_decide (0 < dashCount)%Z && tok_is tok TokenIdentifier then
      tok ← curToken;
      switch_str (ToLower (Value tok)) [
        (["h"; "help"], mret (NewCommand "openai_chat_help"))
      ] (k tt)
    else k tt
  else
  let cmd := param (NewCommand "api_openai_chat") "model" (PStr "model") in
  let cmd := param cmd "temperature" (PFloat (f64_of_int 0)) in
  let cmd := param cmd "max_tokens" (PInt 0) in
  let cmd := param cmd "stream" (PBool false) in
  chatID ← wrap "OPENAI_CHAT: expected chat_id as first argument: " parseQuotedString;
  let cmd := param cmd "chat_id" (PStr chatID) in
  nextToken;;
  message ← wrap "OPENAI_CHAT: expected message as second argument: " parseQuotedString;
  let cmd := param cmd "message" (PStr message) in
  nextToken;;
  let handleOption := λ (name : string) (cmd : Command),
    switch_str name [
      (["model"; "system"],
        tok ← curToken;
        v ← instead ("OPENAI_CHAT " +:+ name +:+ ": expected quoted string, got " +:+ (Value tok)) parseQuotedString;
        let cmd := param cmd name (PStr v) in
        nextToken;; mret cmd);
      (["temperature"; "top_p"; "frequency_penalty"; "presence_penalty"],
        tok ← curToken;
        v ← instead ("OPENAI_CHAT " +:+ name +:+ ": expected number, got " +:+ (Value tok)) parseFloat;
        let cmd := param cmd name (PFloat v) in
        nextToken;; mret cmd);
      (["max_tokens"],
        v ← instead_got "OPENAI_CHAT max_tokens: expected integer, got " parseNumber;
        let cmd := param cmd "max_tokens" (PInt v) in
        nextToken;; mret cmd);
      (["stream"],
        tok ← curToken;
        v ← instead ("OPENAI_CHAT " +:+ name +:+ ": expected true|false, got " +:+ (Value tok)) parseBool;
        mret (param cmd name (PBool v)));
      (["extra_body"],
        raw ← wrap ("OPENAI_CHAT " +:+ name +:+ ": ") parseJSONLiteral;
        let cmd := param cmd name (PStr raw) in
        nextToken;; mret cmd);
      (["history"],
        raw ← instead_got "OPENAI_CHAT history: expected quoted string, got " parseQuotedString;
        let cmd := param cmd "history_raw" (PStr raw) in
        nextToken;; mret cmd);
      (["history_delimiter"],
        v ← instead_got "OPENAI_CHAT history_delimiter: expected quoted string, got " parseQuotedString;
        let cmd := param cmd "history_delimiter" (PStr v) in
        nextToken;; mret cmd)
    ] (fail ("OPENAI_CHAT: unknown option " +:+ (quote name) +:+ " (valid: model, system, history, history_delimiter, temperature, max_tokens, stream, top_p, frequency_penalty, presence_penalty, extra_body)"))
  in
  cmd ← loop (λ cmd,
      switch [
        ([TokenSemicolon], nextToken;; mret (Break cmd));
        ([TokenEOF], mret (Break cmd));
        ([TokenIdentifier; TokenQuotedString],
          tok ← curToken;
          let name := Value tok in
          tok ← curToken;
          let name :=
            if tok_is tok TokenQuotedString then
              TrimQuotes name
            else name
          in
          nextToken;;
          cmd ← handleOption name cmd;
          mret (Continue cmd))
      ] (
        tok ← curToken;
        if negb (isKeyword (Type_ tok)) then
          tok ← curToken; fail ("OPENAI_CHAT: unexpected token " +:+ (quote (Value tok)) +:+ " in option list (valid options: model, system, history, history_delimiter, temperature, max_tokens, stream, top_p, frequency_penalty, presence_penalty, extra_body)")
        else
        tok ← curToken;
        let name := Value tok in
        nextToken;;
        cmd ← handleOption name cmd;
        mret (Continue cmd))) cmd;
  mret cmd.

(* internal/cli/user_parser.go:3984-3989 isSet *)
Definition isSet (cmd : Command) (name : string) : bool :=
  match CmdParams cmd !! "_set" with
  | Some (PSet s) => bool_decide (name ∈ s)
  | _ => false
  end.

(** [strings.Split] for a separator that is not empty. *)
Fixpoint split_sep (fuel : nat) (sep current s : string) : list string :=
  match fuel, s with
  | Datatypes.S fuel, String c s' =>
      if String.prefix sep s
      then current :: split_sep fuel sep "" (String.substring (String.length sep) (String.length s) s)
      else split_sep fuel sep (current +:+ String c "") s'
  | _, _ => [current +:+ s]
  end.
Definition strings_Split (s sep : string) : list string := split_sep (String.length s) sep "" s.

(** A word in any case at the front of a text, as the pattern [(?i)] has it: the
    long s counts as an s.  The text that matched, and the rest. *)
Definition long_s : string := String (Ascii.ascii_of_N 197) (String (Ascii.ascii_of_N 191) "").
Fixpoint any_case (word s : string) : option (string * string) :=
  match word with
  | "" => Some ("", s)
  | String a word =>
      let more := λ m rest, '(x, y) ← any_case word rest; Some (m +:+ x, y) in
      match s with
      | String c rest =>
          if decide (lower_ascii c = a) then more (String c "") rest
          else if decide (a = Ascii.ascii_of_N 115 ∧ String.prefix long_s s = true)
               then more long_s (String.substring 2 (String.length s) s) else None
      | "" => None
      end
  end.
(** A turn: the role and the content after the colon. *)
Definition turn (segment : string) : option (string * string) :=
  let with_role := λ word, '(m, rest) ← any_case word segment;
                           match rest with String c content => if is_byte 58 c then Some (ToLower m, content) else None | "" => None end in
  match with_role "user" with Some t => Some t | None => with_role "assistant" end.
Fixpoint history_turns (segments : list string) : string + list (string * string) :=
  match segments with
  | [] => inr []
  | segment :: l =>
      match turn segment with
      | None => inl segment
      | Some t => match history_turns l with inl s => inl s | inr ts => inr (t :: ts) end
      end
  end.
(** A text without one pair of quotation marks around it. *)
Definition unquote (s : string) : string :=
  match String.get 0 s, String.get (String.length s - 1) s with
  | Some a, Some b => if bool_decide (2 ≤ String.length s)%nat && bool_decide (a = b) && quote_mark a
                      then String.substring 1 (String.length s - 2) s else s
  | _, _ => s
  end.

(* internal/cli/user_parser.go:4040-4078 parseHistory *)
Definition parseHistory (literal delimiter : string) : string + list (string * string) :=
  let delimiter := if bool_decide (delimiter = "") then ";" else delimiter in
  let s := unquote (TrimSpace literal) in
  match history_turns (filter (λ t, t ≠ "") (map TrimSpace (strings_Split s delimiter))) with
  | inl segment => inl ("history segment " +:+ quote segment +:+ " must start with 'user:' or 'assistant:'")
  | inr [] => inl ("history is empty or unparseable: " +:+ quote literal)
  | inr turns => inr turns
  end.

End commands.
