(* ===== verification/CliAdmin.v ===== *)
(** * Commands of administrators: LIST, SHOW, CREATE, DROP, ALTER (internal/cli/admin_parser.go) *)

From S2P Require Import Prelude GoValue AgentValue Reranker CliLexer CliParser CliDev CliUser CliUserOps.
From stdpp Require Import pretty.

Section commands.
Context `{GoLib, CliText}.

(* internal/cli/admin_parser.go:26-60 Parser.parseAdminLoginUser *)
Definition parseAdminLoginUser : P Command :=
  let cmd := NewCommand "admin_login_user" in
  nextToken;; expect TokenAdmin "expected ADMIN after LOGIN";; nextToken;;
  email ← parseQuotedString;
  let cmd := param cmd "email" (PStr email) in
  nextToken;;
  tok ← curToken;
  cmd ← (
    if tok_is tok TokenPassword then
      nextToken;;
      password ← parseQuotedString;
      let cmd := param cmd "password" (PStr password) in
      nextToken;; mret cmd
    else mret cmd);
  skip TokenSemicolon;; mret cmd.

(* internal/cli/admin_parser.go:62-70 Parser.parseAdminLogout *)
Definition parseAdminLogout : P Command :=
  let cmd := NewCommand "admin_logout" in
  nextToken;; skip TokenSemicolon;; mret cmd.

(* internal/cli/admin_parser.go:72-98 Parser.parseAdminPingServer *)
Definition parseAdminPingServer : P Command :=
  nextToken;;
  switch [
    ([TokenStore], nextToken;; mret (NewCommand "admin_ping_store"));
    ([TokenEngine], nextToken;; mret (NewCommand "admin_ping_engine"));
    ([TokenMQ], nextToken;; mret (NewCommand "admin_ping_mq"));
    ([TokenCache], nextToken;; mret (NewCommand "admin_ping_cache"));
    ([TokenSemicolon; TokenEOF], nextToken;; mret (NewCommand "admin_ping_server"))
  ] (fail "expected semicolon after PING").

(* internal/cli/admin_parser.go:100-104 Parser.parseAdminLiveServer *)
Definition parseAdminLiveServer : P Command :=
  nextToken;; mret (NewCommand "admin_live_server").

(* internal/cli/admin_parser.go:106-110 Parser.parseAdminHealthServer *)
Definition parseAdminHealthServer : P Command :=
  nextToken;; mret (NewCommand "admin_health_server").

(* internal/cli/admin_parser.go:154-162 Parser.parseAdminListServices *)
Definition parseAdminListServices : P Command :=
  nextToken;; skip TokenSemicolon;; mret (NewCommand "admin_list_services").

(* internal/cli/admin_parser.go:164-172 Parser.parseAdminListRoles *)
Definition parseAdminListRoles : P Command :=
  nextToken;; skip TokenSemicolon;; mret (NewCommand "admin_list_roles_command").

(* internal/cli/admin_parser.go:174-182 Parser.parseAdminListResources *)
Definition parseAdminListResources : P Command :=
  nextToken;; skip TokenSemicolon;; mret (NewCommand "admin_list_resources_command").

(* internal/cli/admin_parser.go:184-192 Parser.parseAdminListVariables *)
Definition parseAdminListVariables : P Command :=
  nextToken;; skip TokenSemicolon;; mret (NewCommand "admin_list_variables").

(* internal/cli/admin_parser.go:194-202 Parser.parseAdminListConfigs *)
Definition parseAdminListConfigs : P Command :=
  nextToken;; skip TokenSemicolon;; mret (NewCommand "admin_list_configs").

(* internal/cli/admin_parser.go:204-212 Parser.parseAdminListEnvironments *)
Definition parseAdminListEnvironments : P Command :=
  nextToken;; skip TokenSemicolon;; mret (NewCommand "admin_list_environments").

(* internal/cli/admin_parser.go:214-222 Parser.parseAdminListAvailableProviders *)
Definition parseAdminListAvailableProviders : P Command :=
  nextToken;; expect TokenProviders "expected PROVIDERS";; mret (NewCommand "admin_list_available_providers").

(* internal/cli/admin_parser.go:251-256 Parser.parseAdminListIngestors *)
Definition parseAdminListIngestors : P Command :=
  nextToken;; mret (NewCommand "admin_list_ingestors").

(* internal/cli/admin_parser.go:258-274 Parser.parseAdminListIngestionTasks *)
Definition parseAdminListIngestionTasks : P Command :=
  nextToken;; expect TokenTasks "expected TASKS";; nextToken;;
  let cmd := NewCommand "list_admin_ingestion_tasks" in
  skip TokenSemicolon;; mret cmd.

(* internal/cli/admin_parser.go:299-322 Parser.parseAdminListProviderInstance *)
Definition parseAdminListProviderInstance (providerName : string) : P Command :=
  nextToken;;
  instanceName ← parseQuotedString;
  nextToken;; expect TokenModels "expected MODELS";; nextToken;;
  let cmd := NewCommand "admin_list_provider_instance_models" in
  let cmd := param cmd "provider_name" (PStr providerName) in
  let cmd := param cmd "instance_name" (PStr instanceName) in
  skip TokenSemicolon;; mret cmd.

(* internal/cli/admin_parser.go:325-334 Parser.parseAdminListProviderInstances *)
Definition parseAdminListProviderInstances (providerName : string) : P Command :=
  nextToken;;
  let cmd := NewCommand "admin_list_provider_instances" in
  let cmd := param cmd "provider_name" (PStr providerName) in
  skip TokenSemicolon;; mret cmd.

(* internal/cli/admin_parser.go:336-346 Parser.parseAdminListProviderModels *)
Definition parseAdminListProviderModels (providerName : string) : P Command :=
  nextToken;;
  let cmd := NewCommand "admin_list_provider_models" in
  let cmd := param cmd "provider_name" (PStr providerName) in
  skip TokenSemicolon;; mret cmd.

(* internal/cli/admin_parser.go:277-296 Parser.parseAdminListProviderCommands *)
Definition parseAdminListProviderCommands : P Command :=
  nextToken;;
  providerName ← parseQuotedString;
  nextToken;;
  switch [
    ([TokenInstances], parseAdminListProviderInstances providerName);
    ([TokenInstance], parseAdminListProviderInstance providerName);
    ([TokenModels], parseAdminListProviderModels providerName)
  ] (fail_got "unknown LIST target: ").

(* internal/cli/admin_parser.go:349-356 Parser.parseAdminListProviders *)
Definition parseAdminListProviders : P Command :=
  nextToken;; skip TokenSemicolon;; mret (NewCommand "admin_list_providers").

(* internal/cli/admin_parser.go:358-367 Parser.parseAdminListModels *)
Definition parseAdminListModels : P Command :=
  nextToken;;
  let cmd := NewCommand "admin_list_all_models" in
  skip TokenSemicolon;; mret cmd.

(* internal/cli/admin_parser.go:369-387 Parser.parseAdminListAPIServers *)
Definition parseAdminListAPIServers : P Command :=
  nextToken;;
  switch [
    ([TokenServer],
      nextToken;;
      let cmd := NewCommand "admin_list_api_servers" in
      skip TokenSemicolon;; mret cmd)
  ] (fail "expected SERVER after API").

(* internal/cli/admin_parser.go:2873-2984 Parser.parseAdminListUsersCommand *)
Definition parseAdminListUsersCommand : P Command :=
  nextToken;;
  let orderBy := "" in
  let userStatus := "" in
  let top : option Z := None in
  let plan : option string := None in
  let quota : option Z := None in
  let days : option Z := None in
  let condition := false in
  '(condition, top, days, plan, quota, orderBy, userStatus) ← loop (λ '(condition, top, days, plan, quota, orderBy, userStatus),
      switch [
        ([TokenTop],
          let condition := true in
          nextToken;;
          topInt ← parseNumber;
          if bool_decide (topInt < 0)%Z then fail "invalid number of TOP" else
          nextToken;;
          let top := Some topInt in
          mret (Continue (condition, top, days, plan, quota, orderBy, userStatus)));
        ([TokenDays],
          let condition := true in
          nextToken;;
          daysInt ← parseNumber;
          if bool_decide (daysInt < 0)%Z then fail "invalid number of DAYS" else
          nextToken;;
          let days := Some daysInt in
          mret (Continue (condition, top, days, plan, quota, orderBy, userStatus)));
        ([TokenPlan],
          let condition := true in
          nextToken;;
          planStr ← parseQuotedString;
          if bool_decide (planStr = "") then fail "invalid plan" else
          let plan := Some planStr in
          nextToken;; mret (Continue (condition, top, days, plan, quota, orderBy, userStatus)));
        ([TokenQuota],
          let condition := true in
          nextToken;;
          quotaInt ← parseNumber;
          if bool_decide (quotaInt < 0)%Z then fail "invalid number of QUOTA" else
          let quota := Some quotaInt in
          nextToken;; mret (Continue (condition, top, days, plan, quota, orderBy, userStatus)));
        ([TokenDocuments; TokenIndex; TokenStorage],
          let condition := true in
          if bool_decide (orderBy ≠ "") then fail "order by already set" else
          tok ← curToken;
          let orderBy := Value tok in
          nextToken;; mret (Continue (condition, top, days, plan, quota, orderBy, userStatus)));
        ([TokenActive; TokenInactive],
          let condition := true in
          tok ← curToken;
          let userStatus := Value tok in
          nextToken;; mret (Continue (condition, top, days, plan, quota, orderBy, userStatus)));
        ([TokenSemicolon], nextToken;; mret (Break (condition, top, days, plan, quota, orderBy, userStatus)))
      ] (mret (Break (condition, top, days, plan, quota, orderBy, userStatus))))
        (condition, top, days, plan, quota, orderBy, userStatus);
  skip TokenSemicolon;;
  if negb condition then mret (NewCommand "admin_list_users_command") else
  let cmd := NewCommand "admin_list_users_condition_command" in
  let cmd :=
    if bool_decide (orderBy ≠ "") then
      param cmd "order_by" (PStr orderBy)
    else cmd
  in
  let cmd :=
    if bool_decide (userStatus ≠ "") then
      param cmd "user_status" (PStr userStatus)
    else cmd
  in
  let cmd := match top with Some x => param cmd "top" (PInt x) | None => cmd end in
  let cmd := match plan with Some x => param cmd "plan" (PStr x) | None => cmd end in
  let cmd := match quota with Some x => param cmd "quota" (PInt x) | None => cmd end in
  mret (match days with Some x => param cmd "days" (PInt x) | None => cmd end).

(* internal/cli/admin_parser.go:3278-3300 Parser.parseAdminListUserIngestionTasks *)
Definition parseAdminListUserIngestionTasks (userName : string) : P Command :=
  nextToken;; expect TokenTasks "expected TASKS after INGESTION";; nextToken;;
  let cmd := NewCommand "admin_list_user_ingestion_tasks" in
  let cmd := param cmd "user_name" (PStr userName) in
  tok ← curToken;
  if tok_is tok TokenQuotedString then
    status ← parseQuotedString;
    let cmd := param cmd "status" (PStr status) in
    nextToken;; mret cmd
  else mret cmd.

(* internal/cli/admin_parser.go:3304-3350 Parser.parseAdminListUserProviderInstanceModels *)
Definition parseAdminListUserProviderInstanceModels (userName : string) : P Command :=
  nextToken;;
  providerName ← parseQuotedString;
  nextToken;;
  tok ← curToken;
  if tok_is tok TokenInstances then
    nextToken;;
    let cmd := NewCommand "admin_list_user_provider_instances" in
    let cmd := param cmd "user_name" (PStr userName) in
    let cmd := param cmd "provider_name" (PStr providerName) in
    skip TokenSemicolon;; mret cmd
  else
  expect TokenInstance "expected INSTANCE after PROVIDER";; nextToken;;
  instanceName ← parseQuotedString;
  nextToken;; expect TokenModels "expected MODELS after INSTANCE";; nextToken;;
  let cmd := NewCommand "admin_list_user_provider_instance_models" in
  let cmd := param cmd "user_name" (PStr userName) in
  let cmd := param cmd "provider_name" (PStr providerName) in
  let cmd := param cmd "instance_name" (PStr instanceName) in
  skip TokenSemicolon;; mret cmd.

(* internal/cli/admin_parser.go:3353-3368 Parser.parseAdminListUserDefaultModels *)
Definition parseAdminListUserDefaultModels (userName : string) : P Command :=
  nextToken;; expect TokenModels "expected MODELS after INSTANCE";; nextToken;;
  let cmd := NewCommand "admin_list_user_default_models" in
  let cmd := param cmd "user_name" (PStr userName) in
  skip TokenSemicolon;; mret cmd.

(* internal/cli/admin_parser.go:3372-3393 Parser.parseAdminListUserLogs *)
Definition parseAdminListUserLogs (userName : string) : P Command :=
  nextToken;;
  let dayCount := 7%Z in
  let cmd := NewCommand "admin_list_user_operation_logs" in
  tok ← curToken;
  dayCount ← (
    if tok_is tok TokenInteger then
      dayCount ← parseNumber;
      nextToken;; mret dayCount
    else mret dayCount);
  let cmd := param cmd "user_name" (PStr userName) in
  let cmd := param cmd "days" (PInt dayCount) in
  skip TokenSemicolon;; mret cmd.

(* internal/cli/admin_parser.go:3220-3275 Parser.parseAdminListUserCommand *)
Definition parseAdminListUserCommand : P Command :=
  nextToken;;
  userName ← parseQuotedString;
  nextToken;;
  let k := λ cmd,
    skip TokenSemicolon;; mret (param cmd "user_name" (PStr userName))
  in
  switch [
    ([TokenIngestion], parseAdminListUserIngestionTasks userName);
    ([TokenDatasets],
      nextToken;;
      k (NewCommand "admin_list_user_datasets"));
    ([TokenAgents],
      nextToken;;
      k (NewCommand "admin_list_user_agents"));
    ([TokenChats],
      nextToken;;
      k (NewCommand "admin_list_user_chats"));
    ([TokenSearches],
      nextToken;;
      k (NewCommand "admin_list_user_searches"));
    ([TokenModels],
      nextToken;;
      k (NewCommand "admin_list_user_models"));
    ([TokenFiles],
      nextToken;;
      k (NewCommand "admin_list_user_files"));
    ([TokenKeys],
      nextToken;;
      k (NewCommand "admin_list_user_keys"));
    ([TokenProvider], parseAdminListUserProviderInstanceModels userName);
    ([TokenProviders],
      nextToken;;
      k (NewCommand "admin_list_user_providers"));
    ([TokenLogs], parseAdminListUserLogs userName);
    ([TokenDefault], parseAdminListUserDefaultModels userName)
  ] (fail "expected INGESTION or DATASETS or AGENTS or CHATS or SEARCHES or MODELS or FILES or KEYS or LOGS after USER").

(* internal/cli/admin_parser.go:115-152 Parser.parseAdminListCommands *)
Definition parseAdminListCommands : P Command :=
  nextToken;;
  switch [
    ([TokenServices], parseAdminListServices);
    ([TokenUsers], parseAdminListUsersCommand);
    ([TokenRoles], parseAdminListRoles);
    ([TokenResources], parseAdminListResources);
    ([TokenVars], parseAdminListVariables);
    ([TokenConfigs], parseAdminListConfigs);
    ([TokenEnvs], parseAdminListEnvironments);
    ([TokenAvailable], parseAdminListAvailableProviders);
    ([TokenProvider], parseAdminListProviderCommands);
    ([TokenProviders], parseAdminListProviders);
    ([TokenModels], parseAdminListModels);
    ([TokenUser], parseAdminListUserCommand);
    ([TokenIngestors], parseAdminListIngestors);
    ([TokenIngestion], parseAdminListIngestionTasks);
    ([TokenAPI], parseAdminListAPIServers)
  ] (fail_got "unknown LIST target: ").

(* internal/cli/admin_parser.go:224-249 Parser.parseAdminListFiles *)
Definition parseAdminListFiles : P Command :=
  nextToken;; expect TokenOf "expected OF";; nextToken;; expect TokenDataset "expected DATASET";; nextToken;;
  datasetName ← parseQuotedString;
  let cmd := NewCommand "list_user_dataset_files" in
  let cmd := param cmd "dataset_name" (PStr datasetName) in
  nextToken;; skip TokenSemicolon;; mret cmd.

(* internal/cli/admin_parser.go:438-454 Parser.parseAdminShowService *)
Definition parseAdminShowService : P Command :=
  nextToken;;
  serviceName ← parseQuotedString;
  let cmd := NewCommand "admin_show_service" in
  let cmd := param cmd "service_name" (PStr serviceName) in
  nextToken;; skip TokenSemicolon;; mret cmd.

(* internal/cli/admin_parser.go:494-505 Parser.parseAdminShowUser *)
Definition parseAdminShowUser (userName : string) : P Command :=
  skip TokenSemicolon;; mret (param (NewCommand "admin_show_user") "user_name" (PStr userName)).

(* internal/cli/admin_parser.go:508-538 Parser.parseAdminShowActivityCommand *)
Definition parseAdminShowActivityCommand (userName : string) : P Command :=
  nextToken;;
  let days := 0%Z in
  tok ← curToken;
  days ← (
    if tok_is tok TokenDays then
      nextToken;;
      days ← parseNumber;
      if bool_decide (days < 1)%Z then fail "invalid number of DAYS" else nextToken;; mret days
    else
    mret (7%Z));
  skip TokenSemicolon;;
  let cmd := NewCommand "admin_show_user_activity_command" in
  let cmd := param cmd "user_name" (PStr userName) in
  mret (param cmd "days" (PInt days)).

(* internal/cli/admin_parser.go:541-553 Parser.parseAdminShowUserSummaryCommand *)
Definition parseAdminShowUserSummaryCommand (userName : string) : P Command :=
  nextToken;;
  let cmd := NewCommand "admin_show_user_summary_command" in
  let cmd := param cmd "user_name" (PStr userName) in
  skip TokenSemicolon;; mret cmd.

(* internal/cli/admin_parser.go:556-588 Parser.parseAdminShowUserDataSetCommand *)
Definition parseAdminShowUserDataSetCommand (userName : string) : P Command :=
  nextToken;;
  let tree := false in
  datasetName ← parseQuotedString;
  nextToken;;
  tok ← curToken;
  tree ← (
    if tok_is tok TokenTree then
      let tree := true in
      nextToken;; mret tree
    else mret tree);
  let cmd := NewCommand "admin_show_user_dataset_command" in
  let cmd := param cmd "user_name" (PStr userName) in
  let cmd :=
    if bool_decide (datasetName ≠ "") then
      param cmd "dataset_name" (PStr datasetName)
    else cmd
  in
  let cmd :=
    if (tree : bool) then
      param cmd "tree" (PBool true)
    else cmd
  in
  skip TokenSemicolon;; mret cmd.

(* internal/cli/admin_parser.go:591-603 Parser.parseAdminShowUserStorageCommand *)
Definition parseAdminShowUserStorageCommand (userName : string) : P Command :=
  nextToken;;
  let cmd := NewCommand "admin_show_user_storage_command" in
  let cmd := param cmd "user_name" (PStr userName) in
  skip TokenSemicolon;; mret cmd.

(* internal/cli/admin_parser.go:606-618 Parser.parseAdminShowUserQuotaCommand *)
Definition parseAdminShowUserQuotaCommand (userName : string) : P Command :=
  nextToken;;
  let cmd := NewCommand "admin_show_user_quota_command" in
  let cmd := param cmd "user_name" (PStr userName) in
  skip TokenSemicolon;; mret cmd.

(* internal/cli/admin_parser.go:621-633 Parser.parseAdminShowUserIndexCommand *)
Definition parseAdminShowUserIndexCommand (userName : string) : P Command :=
  nextToken;;
  let cmd := NewCommand "admin_show_user_index_command" in
  let cmd := param cmd "user_name" (PStr userName) in
  skip TokenSemicolon;; mret cmd.

(* internal/cli/admin_parser.go:636-647 Parser.parseAdminShowUserPermissionCommand *)
Definition parseAdminShowUserPermissionCommand (userName : string) : P Command :=
  nextToken;;
  let cmd := NewCommand "admin_show_user_permission_command" in
  let cmd := param cmd "user_name" (PStr userName) in
  skip TokenSemicolon;; mret cmd.

(* internal/cli/admin_parser.go:464-491 Parser.parseAdminShowUserCommands *)
Definition parseAdminShowUserCommands : P Command :=
  nextToken;;
  userName ← parseQuotedString;
  nextToken;;
  switch [
    ([TokenActivity], parseAdminShowActivityCommand userName);
    ([TokenSummary], parseAdminShowUserSummaryCommand userName);
    ([TokenDataset], parseAdminShowUserDataSetCommand userName);
    ([TokenStorage], parseAdminShowUserStorageCommand userName);
    ([TokenQuota], parseAdminShowUserQuotaCommand userName);
    ([TokenIndex], parseAdminShowUserIndexCommand userName);
    ([TokenPermission], parseAdminShowUserPermissionCommand userName)
  ] (parseAdminShowUser userName).

(* internal/cli/admin_parser.go:651-684 Parser.parseAdminShowRole *)
Definition parseAdminShowRole : P Command :=
  nextToken;;
  roleName ← parseQuotedString;
  nextToken;;
  switch [
    ([TokenPermission],
      nextToken;;
      let cmd := NewCommand "admin_show_role_permission" in
      mret (param cmd "role_name" (PStr roleName)));
    ([TokenDefault],
      nextToken;; expect TokenModels "expect MODELS after DEFAULT";; nextToken;;
      let cmd := NewCommand "admin_show_role_default_models" in
      mret (param cmd "role_name" (PStr roleName)));
    ([TokenSemicolon], nextToken;; mret (param (NewCommand "admin_show_role") "role_name" (PStr roleName)))
  ] (tok ← curToken; fail ("invalid command " +:+ (tokenTypeToString (Type_ tok)))).

(* internal/cli/admin_parser.go:687-696 Parser.parseAdminShowVersion *)
Definition parseAdminShowVersion : P Command :=
  nextToken;; skip TokenSemicolon;; mret (NewCommand "admin_show_version_command").

(* internal/cli/admin_parser.go:699-715 Parser.parseAdminShowVariable *)
Definition parseAdminShowVariable : P Command :=
  nextToken;;
  varName ← parseQuotedString;
  let cmd := param (NewCommand "admin_show_variable") "var_name" (PStr varName) in
  nextToken;; skip TokenSemicolon;; mret cmd.

(* internal/cli/admin_parser.go:718-727 Parser.parseAdminShowCurrent *)
Definition parseAdminShowCurrent : P Command :=
  nextToken;; skip TokenSemicolon;; mret (NewCommand "admin_show_current").

(* internal/cli/admin_parser.go:730-739 Parser.parseAdminShowFingerprint *)
Definition parseAdminShowFingerprint : P Command :=
  nextToken;; skip TokenSemicolon;; mret (NewCommand "admin_show_fingerprint").

(* internal/cli/admin_parser.go:742-756 Parser.parseAdminShowSoftFingerprint *)
Definition parseAdminShowSoftFingerprint : P Command :=
  nextToken;; expect TokenFingerprint "expected FINGERPRINT";;
  nextToken;; skip TokenSemicolon;; mret (NewCommand "admin_show_soft_fingerprint").

(* internal/cli/admin_parser.go:759-768 Parser.parseAdminShowLicense *)
Definition parseAdminShowLicense : P Command :=
  nextToken;; skip TokenSemicolon;; mret (NewCommand "admin_show_license").

(* internal/cli/admin_parser.go:820-832 Parser.parseAdminShowProviderInstanceBalance *)
Definition parseAdminShowProviderInstanceBalance (providerName : string) (instanceName : string) : P Command :=
  nextToken;;
  let cmd := NewCommand "admin_show_provider_instance_balance" in
  let cmd := param cmd "instance_name" (PStr instanceName) in
  let cmd := param cmd "provider_name" (PStr providerName) in
  skip TokenSemicolon;; mret cmd.

(* internal/cli/admin_parser.go:795-817 Parser.parseAdminShowProviderInstance *)
Definition parseAdminShowProviderInstance (providerName : string) : P Command :=
  nextToken;;
  instanceName ← wrap "expected instance name: " parseQuotedString;
  nextToken;;
  tok ← curToken;
  if tok_is tok TokenBalance then parseAdminShowProviderInstanceBalance providerName instanceName else
  let cmd := NewCommand "admin_show_provider_instance" in
  let cmd := param cmd "instance_name" (PStr instanceName) in
  let cmd := param cmd "provider_name" (PStr providerName) in
  skip TokenSemicolon;; mret cmd.

(* internal/cli/admin_parser.go:835-853 Parser.parseAdminShowProviderModel *)
Definition parseAdminShowProviderModel (providerName : string) : P Command :=
  nextToken;;
  modelName ← wrap "expected model name: " parseQuotedString;
  nextToken;;
  let cmd := NewCommand "admin_show_provider_model" in
  let cmd := param cmd "model_name" (PStr modelName) in
  let cmd := param cmd "provider_name" (PStr providerName) in
  skip TokenSemicolon;; mret cmd.

(* internal/cli/admin_parser.go:771-792 Parser.parseAdminShowProvider *)
Definition parseAdminShowProvider : P Command :=
  nextToken;;
  providerName ← wrap "expected provider name: " parseQuotedString;
  nextToken;;
  switch [
    ([TokenInstance], parseAdminShowProviderInstance providerName);
    ([TokenModel], parseAdminShowProviderModel providerName)
  ] (
    nextToken;;
    let cmd := NewCommand "admin_show_provider" in
    mret (param cmd "provider_name" (PStr providerName))).

(* internal/cli/admin_parser.go:856-873 Parser.parseAdminShowModel *)
Definition parseAdminShowModel : P Command :=
  nextToken;;
  modelName ← wrap "expected model name: " parseQuotedString;
  nextToken;; skip TokenSemicolon;; mret (param (NewCommand "admin_show_model") "model_name" (PStr modelName)).

(* internal/cli/admin_parser.go:876-893 Parser.parseAdminShowAdminServer *)
Definition parseAdminShowAdminServer : P Command :=
  nextToken;;
  switch [
    ([TokenServer],
      nextToken;;
      let cmd := NewCommand "admin_show_admin_server" in
      skip TokenSemicolon;; mret cmd)
  ] (fail "expected SERVER after ADMIN").

(* internal/cli/admin_parser.go:896-922 Parser.parseAdminShowAPI *)
Definition parseAdminShowAPI : P Command :=
  nextToken;;
  switch [
    ([TokenServer],
      nextToken;;
      let cmd := NewCommand "admin_show_api_server" in
      serverName ← wrap "expected API server name: " parseQuotedString;
      let cmd := param cmd "api_server_name" (PStr serverName) in
      nextToken;; skip TokenSemicolon;; mret cmd)
  ] (fail "expected SERVER after API").

(* internal/cli/admin_parser.go:2777-2825 Parser.parseAdminShowUsersActivity *)
Definition parseAdminShowUsersActivity : P Command :=
  nextToken;;
  let days := 0%Z in
  let windowSize := 0%Z in
  '(days, windowSize) ← loop (λ '(days, windowSize),
      switch [
        ([TokenDays],
          nextToken;;
          days ← parseNumber;
          if bool_decide (days < 1)%Z then fail "invalid number of DAYS"
          else nextToken;; mret (Continue (days, windowSize)));
        ([TokenWindow],
          nextToken;;
          windowSize ← parseNumber;
          if bool_decide (windowSize < 0)%Z then fail "invalid number of WINDOWS"
          else nextToken;; mret (Continue (days, windowSize)));
        ([TokenSemicolon], nextToken;; mret (Break (days, windowSize)))
      ] (mret (Break (days, windowSize)))) (days, windowSize);
  skip TokenSemicolon;;
  let cmd := NewCommand "admin_show_users_activity_command" in
  let cmd := param cmd "days" (PInt days) in
  mret (param cmd "window" (PInt windowSize)).

(* internal/cli/admin_parser.go:2828-2861 Parser.parseAdminShowUsersPlan *)
Definition parseAdminShowUsersPlan : P Command :=
  nextToken;;
  cmd ← (
    switch [
      ([TokenSummary], nextToken;; mret (NewCommand "admin_show_users_plan_summary"));
      ([TokenQuota],
        nextToken;;
        let cmd := NewCommand "admin_show_users_plan_quota" in
        expect TokenInteger "expected QUOTA";;
        quotaInt ← parseNumber;
        nextToken;;
        if bool_decide (quotaInt < 0)%Z || bool_decide (100 < quotaInt)%Z then fail "invalid quota value" else
        mret (param cmd "quota" (PInt quotaInt)))
    ] (fail "expected SUMMARY or QUOTA"));
  skip TokenSemicolon;; mret cmd.

(* internal/cli/admin_parser.go:2759-2774 Parser.parseAdminShowUsersCommands *)
Definition parseAdminShowUsersCommands : P Command :=
  nextToken;;
  switch [
    ([TokenSummary], nextToken;; mret (NewCommand "admin_show_users_summary_command"));
    ([TokenActivity], parseAdminShowUsersActivity);
    ([TokenPlan], parseAdminShowUsersPlan)
  ] (fail "invalid command").

(* internal/cli/admin_parser.go:2990-3016 Parser.parseAdminShowData *)
Definition parseAdminShowData : P Command :=
  nextToken;;
  cmd ← (
    switch [
      ([TokenSummary], nextToken;; mret (NewCommand "admin_show_data_summary"));
      ([TokenOrphan], nextToken;; mret (NewCommand "admin_show_data_orphan"));
      ([TokenStorage], nextToken;; mret (NewCommand "admin_show_data_storage"));
      ([TokenIndex], nextToken;; mret (NewCommand "admin_show_data_index"))
    ] (fail "expected SUMMARY, ORPHAN, STORAGE, INDEX after DATA"));
  skip TokenSemicolon;; mret cmd.

(* internal/cli/admin_parser.go:3019-3036 Parser.parseAdminShowQuota *)
Definition parseAdminShowQuota : P Command :=
  nextToken;;
  switch [
    ([TokenSummary],
      nextToken;;
      let cmd := NewCommand "admin_show_quota_summary" in
      skip TokenSemicolon;; mret cmd)
  ] (fail "expected SUMMARY after QUOTA").

(* internal/cli/admin_parser.go:3039-3056 Parser.parseAdminShowTasks *)
Definition parseAdminShowTasks : P Command :=
  nextToken;;
  switch [
    ([TokenSummary],
      nextToken;;
      let cmd := NewCommand "admin_show_tasks_summary" in
      skip TokenSemicolon;; mret cmd)
  ] (fail "expected SUMMARY after TASKS").

(* internal/cli/admin_parser.go:3069-3080 Parser.parseAdminShowLogLevel *)
Definition parseAdminShowLogLevel : P Command :=
  nextToken;;
  let cmd := NewCommand "admin_show_log_level" in
  skip TokenSemicolon;; mret cmd.

(* internal/cli/admin_parser.go:3058-3067 Parser.parseAdminShowLogCommands *)
Definition parseAdminShowLogCommands : P Command :=
  nextToken;;
  switch [
    ([TokenLevel], parseAdminShowLogLevel)
  ] (fail "expected LEVEL after LOG").

(* internal/cli/admin_parser.go:393-436 Parser.parseAdminShowCommands *)
Definition parseAdminShowCommands : P Command :=
  nextToken;;
  switch [
    ([TokenService], parseAdminShowService);
    ([TokenUser], parseAdminShowUserCommands);
    ([TokenRole], parseAdminShowRole);
    ([TokenVersion], parseAdminShowVersion);
    ([TokenVar], parseAdminShowVariable);
    ([TokenCurrent], parseAdminShowCurrent);
    ([TokenFingerprint], parseAdminShowFingerprint);
    ([TokenSoft], parseAdminShowSoftFingerprint);
    ([TokenLicense], parseAdminShowLicense);
    ([TokenProvider], parseAdminShowProvider);
    ([TokenModel], parseAdminShowModel);
    ([TokenAdmin], parseAdminShowAdminServer);
    ([TokenAPI], parseAdminShowAPI);
    ([TokenUsers], parseAdminShowUsersCommands);
    ([TokenData], parseAdminShowData);
    ([TokenQuota], parseAdminShowQuota);
    ([TokenTasks], parseAdminShowTasks);
    ([TokenLog], parseAdminShowLogCommands)
  ] (fail_got "unknown SHOW target: ").

(* internal/cli/admin_parser.go:924-967 Parser.parseCommonShowPoolModel *)
Definition parseCommonShowPoolModel : P Command :=
  nextToken;;
  tok ← curToken;
  if tok_is tok TokenProvider then
    nextToken;;
    providerName ← parseQuotedString;
    let cmd := NewCommand "show_pool_provider" in
    let cmd := param cmd "provider_name" (PStr providerName) in
    nextToken;; skip TokenSemicolon;; mret cmd
  else
  tok ← curToken;
  if tok_is tok TokenModel then
    nextToken;;
    modelName ← parseQuotedString;
    nextToken;; expect TokenFrom "expected FROM";; nextToken;;
    providerName ← parseQuotedString;
    nextToken;;
    let cmd := NewCommand "show_pool_model" in
    let cmd := param cmd "provider_name" (PStr providerName) in
    let cmd := param cmd "model_name" (PStr modelName) in
    skip TokenSemicolon;; mret cmd
  else fail "expected PROVIDERS or MODELS".

(* internal/cli/admin_parser.go:994-1044 Parser.parseAdminStatsUser *)
Definition parseAdminStatsUser : P Command :=
  nextToken;;
  let cmd := NewCommand "admin_stats_user" in
  userName ← parseQuotedString;
  let cmd := param cmd "user_name" (PStr userName) in
  nextToken;;
  tok ← curToken;
  cmd ← (
    if tok_is tok TokenFrom then
      nextToken;;
      value ← parseQuotedString;
      let cmd := param cmd "from" (PStr value) in
      nextToken;; mret cmd
    else mret cmd);
  tok ← curToken;
  cmd ← (
    if tok_is tok TokenTo then
      nextToken;;
      value ← parseQuotedString;
      let cmd := param cmd "to" (PStr value) in
      nextToken;; mret cmd
    else mret cmd);
  cmd ← (
    switch [
      ([TokenHour], nextToken;; mret (param cmd "granularity" (PStr "HOUR")));
      ([TokenDay], nextToken;; mret (param cmd "granularity" (PStr "DAY")));
      ([TokenMonth], nextToken;; mret (param cmd "granularity" (PStr "MONTH")))
    ] (
      nextToken;; mret (param cmd "granularity" (PStr "HOUR"))));
  skip TokenSemicolon;; mret cmd.

(* internal/cli/admin_parser.go:1047-1084 Parser.parseAdminStatsUsers *)
Definition parseAdminStatsUsers : P Command :=
  nextToken;;
  let cmd := param (NewCommand "admin_stats_users") "top" (PInt 10) in
  tok ← curToken;
  cmd ← (
    if tok_is tok TokenTop then
      nextToken;;
      value ← parseNumber;
      let cmd := param cmd "top" (PInt value) in
      nextToken;; mret cmd
    else mret cmd);
  tok ← curToken;
  cmd ← (
    if tok_is tok TokenFrom then
      nextToken;;
      value ← parseQuotedString;
      let cmd := param cmd "from" (PStr value) in
      nextToken;; mret cmd
    else mret cmd);
  tok ← curToken;
  cmd ← (
    if tok_is tok TokenTo then
      nextToken;;
      value ← parseQuotedString;
      let cmd := param cmd "to" (PStr value) in
      nextToken;; mret cmd
    else mret cmd);
  skip TokenSemicolon;; mret cmd.

(* internal/cli/admin_parser.go:1087-1112 Parser.parseAdminStatsSummary *)
Definition parseAdminStatsSummary : P Command :=
  nextToken;;
  let cmd := NewCommand "admin_stats_summary" in
  tok ← curToken;
  cmd ← (
    if tok_is tok TokenFrom then
      nextToken;;
      value ← parseQuotedString;
      let cmd := param cmd "from" (PStr value) in
      nextToken;; mret cmd
    else mret cmd);
  tok ← curToken;
  cmd ← (
    if tok_is tok TokenTo then
      nextToken;;
      value ← parseQuotedString;
      let cmd := param cmd "to" (PStr value) in
      nextToken;; mret cmd
    else mret cmd);
  skip TokenSemicolon;; mret cmd.

(* internal/cli/admin_parser.go:977-990 Parser.parseAdminStatsCommands *)
Definition parseAdminStatsCommands : P Command :=
  nextToken;;
  switch [
    ([TokenUser], parseAdminStatsUser);
    ([TokenUsers], parseAdminStatsUsers);
    ([TokenSummary], parseAdminStatsSummary)
  ] (fail "expected USER or MODEL or SUMMARY after STATS").

(* internal/cli/admin_parser.go:1132-1141 Parser.parseAdminCheckLicense *)
Definition parseAdminCheckLicense : P Command :=
  nextToken;;
  let cmd := NewCommand "admin_check_license" in
  skip TokenSemicolon;; mret cmd.

(* internal/cli/admin_parser.go:1211-1225 Parser.parseAdminCheckProviderInstance *)
Definition parseAdminCheckProviderInstance (providerName : string) : P Command :=
  expect TokenInstance "expected PROVIDER after CHECK";; nextToken;;
  instanceName ← parseQuotedString;
  let cmd := NewCommand "admin_check_provider_instance" in
  let cmd := param cmd "provider_name" (PStr providerName) in
  mret (param cmd "instance_name" (PStr instanceName)).

(* internal/cli/admin_parser.go:1145-1209 Parser.parseAdminCheckProvider *)
Definition parseAdminCheckProvider : P Command :=
  expect TokenProvider "expected PROVIDER after CHECK";;
  nextToken;; expect TokenQuotedString "expected provider name after PROVIDER";;
  tok ← curToken;
  let providerName := Value tok in
  nextToken;;
  tok ← curToken;
  if tok_is tok TokenInstance then parseAdminCheckProviderInstance providerName else
  expect TokenRegion "expected REGION after provider name";;
  nextToken;; expect TokenQuotedString "expected region name after REGION";;
  tok ← curToken;
  let regionName := Value tok in
  nextToken;; expect TokenKey "expected KEY after region name";;
  nextToken;; expect TokenQuotedString "expected API key after KEY";;
  tok ← curToken;
  let apiKey := Value tok in
  nextToken;;
  let baseURL := "" in
  tok ← curToken;
  baseURL ← (
    if tok_is tok TokenURL then
      nextToken;; expect TokenQuotedString "expected base URL after URL";;
      tok ← curToken;
      let baseURL := Value tok in
      nextToken;; mret baseURL
    else mret baseURL);
  skip TokenSemicolon;; expect_got TokenEOF "unexpected token: ";;
  let cmd := NewCommand "admin_check_provider_with_key" in
  let cmd := param cmd "provider_name" (PStr providerName) in
  let cmd := param cmd "region" (PStr regionName) in
  let cmd := param cmd "api_key" (PStr apiKey) in
  let cmd :=
    if bool_decide (baseURL ≠ "") then
      param cmd "base_url" (PStr baseURL)
    else cmd
  in
  mret cmd.

(* internal/cli/admin_parser.go:1119-1129 Parser.parseAdminCheck *)
Definition parseAdminCheck : P Command :=
  nextToken;;
  switch [
    ([TokenLicense], parseAdminCheckLicense);
    ([TokenProvider], parseAdminCheckProvider)
  ] (fail_got "unknown CHECK target: ").

(* internal/cli/admin_parser.go:3396-3429 Parser.parseAdminStopUserCommand *)
Definition parseAdminStopUserCommand : P Command :=
  nextToken;;
  userName ← parseQuotedString;
  nextToken;;
  switch [
    ([TokenIngestion],
      nextToken;; expect TokenTasks "expected TASKS after INGESTION";; nextToken;;
      let cmd := NewCommand "admin_stop_user_ingestion_tasks_command" in
      tok ← curToken;
      cmd ← (
        if tok_is tok TokenQuotedString then
          status ← parseQuotedString;
          let cmd := param cmd "status" (PStr status) in
          nextToken;; mret cmd
        else mret cmd);
      mret (param cmd "user_name" (PStr userName)))
  ] (fail "expected INGESTION after USER").

(* internal/cli/admin_parser.go:1228-1263 Parser.parseAdminStopIngestionTasks *)
Definition parseAdminStopIngestionTasks : P Command :=
  nextToken;;
  switch [
    ([TokenIngestion],
      nextToken;; expect TokenTasks "expected TASKS";; nextToken;;
      taskString ← parseQuotedString;
      let tasks := Split taskString " " in
      nextToken;;
      let cmd := param (NewCommand "admin_stop_ingestion_tasks") "tasks" (PStrs tasks) in
      skip TokenSemicolon;; mret cmd);
    ([TokenUser], parseAdminStopUserCommand)
  ] (fail "expected USER or INGESTION").

(* internal/cli/admin_parser.go:1265-1290 Parser.parseAdminRemoveIngestionTasks *)
Definition parseAdminRemoveIngestionTasks : P Command :=
  nextToken;; expect TokenTasks "expected TASKS";; nextToken;;
  taskString ← parseQuotedString;
  let tasks := Split taskString " " in
  nextToken;;
  let cmd := NewCommand "admin_remove_ingestion_tasks" in
  let cmd := param cmd "tasks" (PStrs tasks) in
  skip TokenSemicolon;; mret cmd.

(* internal/cli/admin_parser.go:1344-1356 Parser.parseAdminCreateUserAPIKeyCommand *)
Definition parseAdminCreateUserAPIKeyCommand (userName : string) : P Command :=
  nextToken;; skip TokenSemicolon;;
  let cmd := NewCommand "admin_create_user_api_key" in
  mret (param cmd "user_name" (PStr userName)).

(* internal/cli/admin_parser.go:1307-1341 Parser.parseAdminCreateUser *)
Definition parseAdminCreateUser : P Command :=
  nextToken;;
  userName ← parseQuotedString;
  nextToken;;
  switch [
    ([TokenQuotedString],
      password ← parseQuotedString;
      nextToken;;
      let cmd := param (NewCommand "admin_create_user") "user_name" (PStr userName) in
      let cmd := param cmd "password" (PStr password) in
      let cmd := param cmd "role" (PStr "user") in
      skip TokenSemicolon;; mret cmd);
    ([TokenKey], parseAdminCreateUserAPIKeyCommand userName)
  ] (fail_got "expected password or KEY after USER, got ").

(* internal/cli/admin_parser.go:1358-1385 Parser.parseAdminCreateRole *)
Definition parseAdminCreateRole : P Command :=
  nextToken;;
  roleName ← parseQuotedString;
  let cmd := param (NewCommand "admin_create_role") "role_name" (PStr roleName) in
  nextToken;;
  tok ← curToken;
  cmd ← (
    if tok_is tok TokenDescription then
      nextToken;;
      description ← parseQuotedString;
      let cmd := param cmd "description" (PStr description) in
      nextToken;; mret cmd
    else mret cmd);
  skip TokenSemicolon;; mret cmd.

(* internal/cli/admin_parser.go:1293-1304 Parser.parseAdminCreateCommand *)
Definition parseAdminCreateCommand : P Command :=
  nextToken;;
  switch [
    ([TokenUser], parseAdminCreateUser);
    ([TokenRole], parseAdminCreateRole)
  ] (fail_got "unknown CREATE target: ").

(* internal/cli/admin_parser.go:1428-1446 Parser.parseAdminDropUserAPIKey *)
Definition parseAdminDropUserAPIKey (userName : string) : P Command :=
  nextToken;;
  apiKey ← parseQuotedString;
  skip TokenSemicolon;;
  let cmd := NewCommand "admin_drop_user_api_key" in
  let cmd := param cmd "user_name" (PStr userName) in
  mret (param cmd "api_key" (PStr apiKey)).

(* internal/cli/admin_parser.go:1403-1426 Parser.parseAdminDropUser *)
Definition parseAdminDropUser : P Command :=
  nextToken;; expect_got TokenQuotedString "expected USER name, got ";;
  userName ← parseQuotedString;
  nextToken;;
  switch [
    ([TokenKey], parseAdminDropUserAPIKey userName)
  ] (
    nextToken;; mret (param (NewCommand "admin_drop_user") "user_name" (PStr userName))).

(* internal/cli/admin_parser.go:1448-1464 Parser.parseAdminDropRole *)
Definition parseAdminDropRole : P Command :=
  nextToken;;
  roleName ← parseQuotedString;
  let cmd := param (NewCommand "admin_drop_role") "role_name" (PStr roleName) in
  nextToken;; skip TokenSemicolon;; mret cmd.

(* internal/cli/admin_parser.go:1390-1401 Parser.parseAdminDropCommands *)
Definition parseAdminDropCommands : P Command :=
  nextToken;;
  switch [
    ([TokenUser], parseAdminDropUser);
    ([TokenRole], parseAdminDropRole)
  ] (fail_got "unknown DROP target: ").

(* internal/cli/admin_parser.go:1548-1573 Parser.parseAdminActivateUser *)
Definition parseAdminActivateUser : P Command :=
  nextToken;;
  userName ← parseQuotedString;
  nextToken;;
  tok ← curToken;
  let status := Value tok in
  if bool_decide (status ≠ "on") && bool_decide (status ≠ "off") then fail_got "expected 'on' or 'off', got " else
  nextToken;;
  let cmd := param (NewCommand "admin_activate_user") "user_name" (PStr userName) in
  let cmd := param cmd "activate_status" (PStr status) in
  skip TokenSemicolon;; mret cmd.

(* internal/cli/admin_parser.go:1484-1546 Parser.parseAdminAlterUser *)
Definition parseAdminAlterUser : P Command :=
  nextToken;;
  tok ← curToken;
  if tok_is tok TokenActive then parseAdminActivateUser else
  tok ← curToken;
  if tok_is tok TokenPassword then
    nextToken;;
    userName ← parseQuotedString;
    nextToken;;
    password ← parseQuotedString;
    let cmd := param (NewCommand "admin_alter_user") "user_name" (PStr userName) in
    let cmd := param cmd "password" (PStr password) in
    nextToken;; skip TokenSemicolon;; mret cmd
  else
  userName ← parseQuotedString;
  nextToken;; expect TokenSet "expected SET";; nextToken;; expect TokenRole "expected ROLE";; nextToken;;
  roleName ← parseIdentifier;
  let cmd := param (NewCommand "alter_user_role") "user_name" (PStr userName) in
  let cmd := param cmd "role_name" (PStr roleName) in
  nextToken;; skip TokenSemicolon;; mret cmd.

(* internal/cli/admin_parser.go:1575-1609 Parser.parseAdminAlterRole *)
Definition parseAdminAlterRole : P Command :=
  nextToken;;
  roleName ← parseQuotedString;
  nextToken;; expect TokenSet "expected SET";;
  nextToken;; expect TokenDescription "expected DESCRIPTION";; nextToken;;
  description ← parseQuotedString;
  nextToken;;
  let cmd := param (NewCommand "admin_alter_role") "role_name" (PStr roleName) in
  let cmd := param cmd "description" (PStr description) in
  skip TokenSemicolon;; mret cmd.

(* internal/cli/admin_parser.go:1611-1670 Parser.parseAdminAlterProvider *)
Definition parseAdminAlterProvider : P Command :=
  nextToken;;
  providerName ← parseQuotedString;
  nextToken;; expect TokenInstance "expected INSTANCE";; nextToken;;
  instanceName ← parseQuotedString;
  nextToken;;
  let newInstanceName := "" in
  let newAPIKey := "" in
  '(newInstanceName, newAPIKey) ← loop (λ '(newInstanceName, newAPIKey),
      switch [
        ([TokenName],
          nextToken;;
          newInstanceName ← wrap "expected model name: " parseQuotedString;
          nextToken;; mret (Continue (newInstanceName, newAPIKey)));
        ([TokenKey],
          nextToken;;
          newAPIKey ← wrap "expected API key: " parseQuotedString;
          nextToken;; mret (Continue (newInstanceName, newAPIKey)))
      ] (mret (Break (newInstanceName, newAPIKey)))) (newInstanceName, newAPIKey);
  if bool_decide (newInstanceName = "") && bool_decide (newAPIKey = "") then fail "expected NAME or KEY after INSTANCE" else
  let cmd := NewCommand "admin_alter_provider_instance" in
  let cmd := param cmd "provider_name" (PStr providerName) in
  let cmd := param cmd "instance_name" (PStr instanceName) in
  let cmd := param cmd "new_instance_name" (PStr newInstanceName) in
  let cmd := param cmd "new_api_key" (PStr newAPIKey) in
  nextToken;; skip TokenSemicolon;; mret cmd.

(* internal/cli/admin_parser.go:1469-1482 Parser.parseAdminAlterCommands *)
Definition parseAdminAlterCommands : P Command :=
  nextToken;;
  switch [
    ([TokenUser], parseAdminAlterUser);
    ([TokenRole], parseAdminAlterRole);
    ([TokenProvider], parseAdminAlterProvider)
  ] (fail_got "unknown ALTER target: ").

End commands.
