(* ===== verification/CliAdminOps.v ===== *)
(** * Commands of administrators: the others; the entry of the parser (internal/cli/admin_parser.go, parser.go) *)

From S2P Require Import Prelude GoValue AgentValue Reranker CliLexer CliParser CliDev CliUser CliUserOps CliAdmin.
From stdpp Require Import pretty.

Definition backslash : string := String (Ascii.ascii_of_N 92) "".

Section commands.
Context `{GoLib, CliText}.

(* internal/cli/admin_parser.go:1684-1700 Parser.parseAdminGrantAdmin *)
Definition parseAdminGrantAdmin : P Command :=
  nextToken;;
  userName ← parseQuotedString;
  let cmd := NewCommand "admin_grant_user_admin" in
  let cmd := param cmd "user_name" (PStr userName) in
  nextToken;; skip TokenSemicolon;; mret cmd.

(* internal/cli/admin_parser.go:1702-1750 Parser.parseAdminGrantPermission *)
Definition parseAdminGrantPermission : P Command :=
  actionListStr ← parseQuotedString;
  let actions := Split actionListStr "," in
  nextToken;;
  let actions := map TrimSpace actions in
  expect TokenOn "expected ON";; nextToken;;
  resource ← parseQuotedString;
  nextToken;; expect TokenTo "expected TO";; nextToken;; expect TokenRole "expected ROLE";; nextToken;;
  roleName ← parseQuotedString;
  let cmd := NewCommand "admin_grant_role_permission" in
  let cmd := param cmd "actions" (PStrs actions) in
  let cmd := param cmd "resource" (PStr resource) in
  let cmd := param cmd "role_name" (PStr roleName) in
  nextToken;; skip TokenSemicolon;; mret cmd.

(* internal/cli/admin_parser.go:1674-1682 Parser.parseAdminGrantCommands *)
Definition parseAdminGrantCommands : P Command :=
  nextToken;;
  tok ← curToken;
  if tok_is tok TokenAdmin then parseAdminGrantAdmin else parseAdminGrantPermission.

(* internal/cli/admin_parser.go:1762-1778 Parser.parseAdminRevokeAdmin *)
Definition parseAdminRevokeAdmin : P Command :=
  nextToken;;
  userName ← parseQuotedString;
  let cmd := NewCommand "admin_revoke_user_admin" in
  let cmd := param cmd "user_name" (PStr userName) in
  nextToken;; skip TokenSemicolon;; mret cmd.

(* internal/cli/admin_parser.go:1780-1827 Parser.parseAdminRevokePermission *)
Definition parseAdminRevokePermission : P Command :=
  actionListStr ← parseQuotedString;
  let actions := Split actionListStr "," in
  nextToken;;
  let actions := map TrimSpace actions in
  expect TokenOn "expected ON";; nextToken;;
  resource ← parseQuotedString;
  nextToken;; expect TokenFrom "expected FROM";; nextToken;; expect TokenRole "expected ROLE";; nextToken;;
  roleName ← parseQuotedString;
  let cmd := NewCommand "admin_revoke_role_permission" in
  let cmd := param cmd "actions" (PStrs actions) in
  let cmd := param cmd "resource" (PStr resource) in
  let cmd := param cmd "role_name" (PStr roleName) in
  nextToken;; skip TokenSemicolon;; mret cmd.

(* internal/cli/admin_parser.go:1752-1760 Parser.parseAdminRevokeCommands *)
Definition parseAdminRevokeCommands : P Command :=
  nextToken;;
  tok ← curToken;
  if tok_is tok TokenAdmin then parseAdminRevokeAdmin else parseAdminRevokePermission.

(* internal/cli/admin_parser.go:1829-1850 Parser.parseAdminIdentifierList *)
Definition parseAdminIdentifierList : P (list string) :=
  let list : list string := [] in
  ident ← parseIdentifier;
  let list := list ++ [ident] in
  nextToken;;
  list ← loop (λ list,
      tok ← curToken;
      if tok_is tok TokenComma then
        nextToken;;
        ident ← parseIdentifier;
        let list := list ++ [ident] in
        nextToken;; mret (Continue list)
      else mret (Break list)) list;
  mret list.

(* internal/cli/admin_parser.go:1871-1907 Parser.parseAdminSetLicense *)
Definition parseAdminSetLicense : P Command :=
  nextToken;;
  tok ← curToken;
  if tok_is tok TokenConfig then
    nextToken;;
    let cmd := NewCommand "admin_set_license_config" in
    number1 ← parseNumber;
    nextToken;;
    number2 ← parseNumber;
    nextToken;;
    let cmd := param cmd "number1" (PInt number1) in
    mret (param cmd "number2" (PInt number2))
  else
  license ← parseQuotedString;
  nextToken;;
  let cmd := param (NewCommand "admin_set_license") "license" (PStr license) in
  skip TokenSemicolon;; mret cmd.

(* internal/cli/admin_parser.go:1909-1931 Parser.parseAdminSetSoftFingerprint *)
Definition parseAdminSetSoftFingerprint : P Command :=
  nextToken;; expect TokenFingerprint "expected FINGERPRINT";; nextToken;;
  softFingerprint ← parseQuotedString;
  nextToken;;
  let cmd := NewCommand "admin_set_soft_fingerprint" in
  let cmd := param cmd "soft_fingerprint" (PStr softFingerprint) in
  skip TokenSemicolon;; mret cmd.

(* internal/cli/admin_parser.go:1933-1957 Parser.parseAdminSetVariable *)
Definition parseAdminSetVariable : P Command :=
  nextToken;;
  varName ← parseQuotedString;
  nextToken;;
  varValue ← parseVariableValue;
  let cmd := param (NewCommand "admin_set_variable") "var_name" (PStr varName) in
  let cmd := param cmd "var_value" (PStr varValue) in
  nextToken;; skip TokenSemicolon;; mret cmd.

(* internal/cli/admin_parser.go:1959-2017 Parser.parseAdminSetRoleDefaultModel *)
Definition parseAdminSetRoleDefaultModel : P Command :=
  nextToken;;
  roleName ← parseQuotedString;
  nextToken;; expect TokenDefault "expected DEFAULT";; nextToken;;
  modelType ← (
    switch [
      ([TokenChat], mret "chat");
      ([TokenVision], mret "vision");
      ([TokenEmbedding], mret "embedding");
      ([TokenRerank], mret "rerank");
      ([TokenASR], mret "asr");
      ([TokenTTS], mret "tts");
      ([TokenOCR], mret "ocr")
    ] (fail_got "unknown model type: "));
  nextToken;;
  modelNameOrID ← parseQuotedString;
  let cmd := NewCommand "admin_set_role_default_model" in
  let cmd := param cmd "role_name" (PStr roleName) in
  let cmd := param cmd "model_type" (PStr modelType) in
  cmd ← (
    if IsCompositeModelName modelNameOrID then
      mret (param cmd "composite_model_name" (PStr modelNameOrID))
    else if IsUUID modelNameOrID then
      mret (param cmd "model_id" (PStr modelNameOrID))
    else fail ("invalid format of model name or ID: " +:+ modelNameOrID));
  nextToken;; skip TokenSemicolon;; mret cmd.

(* internal/cli/admin_parser.go:2030-2056 Parser.parseAdminSetLogLevel *)
Definition parseAdminSetLogLevel : P Command :=
  nextToken;;
  let cmd := NewCommand "admin_set_log_level" in
  cmd ← (
    switch [
      ([TokenDebug], mret (param cmd "level" (PStr "debug")));
      ([TokenInfo], mret (param cmd "level" (PStr "info")));
      ([TokenWarn], mret (param cmd "level" (PStr "warn")));
      ([TokenError], mret (param cmd "level" (PStr "error")));
      ([TokenFatal], mret (param cmd "level" (PStr "fatal")));
      ([TokenPanic], mret (param cmd "level" (PStr "panic")))
    ] (fail_got "unknown log level: "));
  nextToken;; skip TokenSemicolon;; mret cmd.

(* internal/cli/admin_parser.go:2019-2028 Parser.parseAdminSetLog *)
Definition parseAdminSetLog : P Command :=
  nextToken;;
  switch [
    ([TokenLevel], parseAdminSetLogLevel)
  ] (fail_got "unknown log target: ").

(* internal/cli/admin_parser.go:1852-1869 Parser.parseAdminSetCommand *)
Definition parseAdminSetCommand : P Command :=
  nextToken;;
  switch [
    ([TokenLicense], parseAdminSetLicense);
    ([TokenSoft], parseAdminSetSoftFingerprint);
    ([TokenVar], parseAdminSetVariable);
    ([TokenRole], parseAdminSetRoleDefaultModel);
    ([TokenLog], parseAdminSetLog)
  ] (fail_got "unknown SET target: ").

(* internal/cli/admin_parser.go:2058-2107 Parser.parseAdminResetCommand *)
Definition parseAdminResetCommand : P Command :=
  nextToken;; expect TokenRole "expected ROLE";; nextToken;;
  roleName ← parseQuotedString;
  nextToken;; expect TokenDefault "expected DEFAULT";; nextToken;;
  modelType ← (
    switch [
      ([TokenChat], mret "chat");
      ([TokenVision], mret "vision");
      ([TokenEmbedding], mret "embedding");
      ([TokenRerank], mret "rerank");
      ([TokenASR], mret "asr");
      ([TokenTTS], mret "tts");
      ([TokenOCR], mret "ocr")
    ] (fail_got "unknown model type: "));
  nextToken;;
  let cmd := NewCommand "admin_reset_role_default_model" in
  let cmd := param cmd "role_name" (PStr roleName) in
  let cmd := param cmd "model_type" (PStr modelType) in
  skip TokenSemicolon;; mret cmd.

(* internal/cli/admin_parser.go:2109-2135 Parser.parseAdminBenchmarkCommand *)
Definition parseAdminBenchmarkCommand : P Command :=
  let cmd := NewCommand "benchmark" in
  nextToken;;
  concurrency ← parseNumber;
  let cmd := param cmd "concurrency" (PInt concurrency) in
  nextToken;;
  iterations ← parseNumber;
  let cmd := param cmd "iterations" (PInt iterations) in
  nextToken;;
  nestedCmd ← parseUserStatement;
  mret (param cmd "command" (PCmd nestedCmd)).

(* internal/cli/admin_parser.go:2137-2159 Parser.parseAdminStartService *)
Definition parseAdminStartService : P Command :=
  nextToken;; expect TokenService "expected SERVICE";; nextToken;;
  serviceName ← parseQuotedString;
  let cmd := NewCommand "admin_start_service" in
  let cmd := param cmd "service_name" (PStr serviceName) in
  nextToken;; skip TokenSemicolon;; mret cmd.

(* internal/cli/admin_parser.go:2174-2191 Parser.parseAdminShutdownService *)
Definition parseAdminShutdownService : P Command :=
  nextToken;;
  serviceName ← parseQuotedString;
  let cmd := NewCommand "admin_shutdown_service" in
  let cmd := param cmd "service_name" (PStr serviceName) in
  nextToken;; skip TokenSemicolon;; mret cmd.

(* internal/cli/admin_parser.go:2193-2210 Parser.parseAdminShutdownIngestor *)
Definition parseAdminShutdownIngestor : P Command :=
  nextToken;;
  ingestorName ← parseQuotedString;
  let cmd := NewCommand "admin_shutdown_ingestor_command" in
  let cmd := param cmd "ingestor_name" (PStr ingestorName) in
  nextToken;; skip TokenSemicolon;; mret cmd.

(* internal/cli/admin_parser.go:2161-2172 Parser.parseAdminShutdownCommands *)
Definition parseAdminShutdownCommands : P Command :=
  nextToken;;
  switch [
    ([TokenService], parseAdminShutdownService);
    ([TokenIngestor], parseAdminShutdownIngestor)
  ] (fail "expected SERVICE or INGESTOR").

(* internal/cli/admin_parser.go:2212-2233 Parser.parseAdminRestart *)
Definition parseAdminRestart : P Command :=
  nextToken;; expect TokenService "expected SERVICE";; nextToken;;
  serviceName ← parseQuotedString;
  let cmd := NewCommand "admin_restart_service" in
  let cmd := param cmd "service_name" (PStr serviceName) in
  nextToken;; skip TokenSemicolon;; mret cmd.

(* internal/cli/admin_parser.go:2298-2317 Parser.parseAdminAddModel *)
Definition parseAdminAddModel (providerName : string) (instanceName : string) : P Command :=
  nextToken;;
  modelName ← wrap "expected model name: " parseQuotedString;
  nextToken;;
  let cmd := NewCommand "admin_add_models" in
  let cmd := param cmd "provider_name" (PStr providerName) in
  let cmd := param cmd "instance_name" (PStr instanceName) in
  let cmd := param cmd "model_names" (PStrs [modelName]) in
  skip TokenSemicolon;; mret cmd.

(* internal/cli/admin_parser.go:2274-2296 Parser.parseAdminAddModelInstance *)
Definition parseAdminAddModelInstance (providerName : string) : P Command :=
  nextToken;;
  instanceName ← wrap "expected model instance name: " parseQuotedString;
  nextToken;;
  tok ← curToken;
  if tok_is tok TokenModel then parseAdminAddModel providerName instanceName else
  let cmd := NewCommand "admin_add_model_instance" in
  let cmd := param cmd "provider_name" (PStr providerName) in
  let cmd := param cmd "instance_name" (PStr instanceName) in
  skip TokenSemicolon;; mret cmd.

(* internal/cli/admin_parser.go:2251-2272 Parser.parseAdminAddModelProvider *)
Definition parseAdminAddModelProvider : P Command :=
  nextToken;;
  providerName ← wrap "expected provider name: " parseQuotedString;
  nextToken;;
  tok ← curToken;
  if tok_is tok TokenInstance then parseAdminAddModelInstance providerName else
  let cmd := NewCommand "admin_add_provider" in
  let cmd := param cmd "provider_name" (PStr providerName) in
  skip TokenSemicolon;; mret cmd.

(* internal/cli/admin_parser.go:2235-2247 Parser.parseAdminAddCommand *)
Definition parseAdminAddCommand : P Command :=
  nextToken;;
  switch [
    ([TokenAPI], parseAddAPIServer);
    ([TokenAdmin], parseAddAdminServer);
    ([TokenProvider], parseAdminAddModelProvider)
  ] (fail_got "unknown ADD target: ").

(* internal/cli/admin_parser.go:2388-2407 Parser.parseAdminDeleteModel *)
Definition parseAdminDeleteModel (providerName : string) (instanceName : string) : P Command :=
  nextToken;;
  modelName ← wrap "expected model name: " parseQuotedString;
  nextToken;;
  let cmd := NewCommand "admin_delete_model" in
  let cmd := param cmd "provider_name" (PStr providerName) in
  let cmd := param cmd "instance_name" (PStr instanceName) in
  let cmd := param cmd "model_names" (PStrs [modelName]) in
  skip TokenSemicolon;; mret cmd.

(* internal/cli/admin_parser.go:2363-2385 Parser.parseAdminDeleteModelInstance *)
Definition parseAdminDeleteModelInstance (providerName : string) : P Command :=
  nextToken;;
  instanceName ← wrap "expected model instance name: " parseQuotedString;
  nextToken;;
  tok ← curToken;
  if tok_is tok TokenModel then parseAdminDeleteModel providerName instanceName else
  let cmd := NewCommand "admin_delete_model_instance" in
  let cmd := param cmd "provider_name" (PStr providerName) in
  let cmd := param cmd "instance_names" (PStrs [instanceName]) in
  skip TokenSemicolon;; mret cmd.

(* internal/cli/admin_parser.go:2338-2359 Parser.parseAdminDeleteProvider *)
Definition parseAdminDeleteProvider : P Command :=
  nextToken;;
  providerName ← wrap "expected provider name: " parseQuotedString;
  nextToken;;
  tok ← curToken;
  if tok_is tok TokenInstance then parseAdminDeleteModelInstance providerName else
  let cmd := NewCommand "admin_delete_model_providers" in
  let cmd := param cmd "provider_names" (PStrs [providerName]) in
  skip TokenSemicolon;; mret cmd.

(* internal/cli/admin_parser.go:2410-2426 Parser.parseAdminDeleteSoftFingerprint *)
Definition parseAdminDeleteSoftFingerprint : P Command :=
  nextToken;; expect TokenFingerprint "expected FINGERPRINT after SOFT";; nextToken;;
  let cmd := NewCommand "admin_delete_soft_fingerprint" in
  skip TokenSemicolon;; mret cmd.

(* internal/cli/admin_parser.go:2319-2333 Parser.parseAdminDeleteCommands *)
Definition parseAdminDeleteCommands : P Command :=
  nextToken;;
  switch [
    ([TokenAPI], parseAPIDeleteAPIServer);
    ([TokenAdmin], parseAPIDeleteAdminServer);
    ([TokenProvider], parseAdminDeleteProvider);
    ([TokenSoft], parseAdminDeleteSoftFingerprint)
  ] (fail_got "unknown ADD target: ").

(* internal/cli/admin_parser.go:2438-2479 Parser.parseAdminEnableModel *)
Definition parseAdminEnableModel : P Command :=
  nextToken;;
  providerName ← wrap "expected provider name: " parseQuotedString;
  nextToken;; expect TokenInstance "expected INSTANCE";; nextToken;;
  instanceName ← wrap "expected model instance name: " parseQuotedString;
  nextToken;; expect TokenModel "expected MODEL";; nextToken;;
  modelName ← wrap "expected model name: " parseQuotedString;
  nextToken;;
  let cmd := NewCommand "admin_enable_model" in
  let cmd := param cmd "provider_name" (PStr providerName) in
  let cmd := param cmd "instance_name" (PStr instanceName) in
  let cmd := param cmd "model_name" (PStr modelName) in
  skip TokenSemicolon;; mret cmd.

(* internal/cli/admin_parser.go:2428-2436 Parser.parseAdminEnableCommand *)
Definition parseAdminEnableCommand : P Command :=
  nextToken;;
  switch [
    ([TokenProvider], parseAdminEnableModel)
  ] (fail_got "unknown ENABLE target: ").

(* internal/cli/admin_parser.go:2491-2532 Parser.parseAdminDisableModel *)
Definition parseAdminDisableModel : P Command :=
  nextToken;;
  providerName ← wrap "expected provider name: " parseQuotedString;
  nextToken;; expect TokenInstance "expected INSTANCE";; nextToken;;
  instanceName ← wrap "expected model instance name: " parseQuotedString;
  nextToken;; expect TokenModel "expected MODEL";; nextToken;;
  modelName ← wrap "expected model name: " parseQuotedString;
  nextToken;;
  let cmd := NewCommand "admin_disable_model" in
  let cmd := param cmd "provider_name" (PStr providerName) in
  let cmd := param cmd "instance_name" (PStr instanceName) in
  let cmd := param cmd "model_name" (PStr modelName) in
  skip TokenSemicolon;; mret cmd.

(* internal/cli/admin_parser.go:2481-2489 Parser.parseAdminDisableCommand *)
Definition parseAdminDisableCommand : P Command :=
  nextToken;;
  switch [
    ([TokenProvider], parseAdminDisableModel)
  ] (fail_got "unknown DISABLE target: ").

(* internal/cli/admin_parser.go:2544-2566 Parser.parseAdminSaveConfig *)
Definition parseAdminSaveConfig : P Command :=
  nextToken;; expect TokenAs "expected AS after CONFIG";; nextToken;;
  path ← parseQuotedString;
  let cmd := param (NewCommand "admin_save_config_command") "path" (PStr path) in
  skip TokenSemicolon;; mret cmd.

(* internal/cli/admin_parser.go:2534-2542 Parser.parseAdminSaveCommand *)
Definition parseAdminSaveCommand : P Command :=
  nextToken;;
  switch [
    ([TokenConfig], parseAdminSaveConfig)
  ] (fail_got "unknown ADD target: ").

(* internal/cli/admin_parser.go:2580-2596 Parser.parseAdminUseAPIServer *)
Definition parseAdminUseAPIServer : P Command :=
  nextToken;;
  serverName ← parseQuotedString;
  nextToken;;
  let cmd := NewCommand "admin_use_api_server" in
  let cmd := param cmd "server_name" (PStr serverName) in
  skip TokenSemicolon;; mret cmd.

(* internal/cli/admin_parser.go:2598-2608 Parser.parseAdminUseAdminServer *)
Definition parseAdminUseAdminServer : P Command :=
  nextToken;;
  let cmd := NewCommand "admin_use_admin_server" in
  skip TokenSemicolon;; mret cmd.

(* internal/cli/admin_parser.go:2568-2578 Parser.parseAdminUseCommand *)
Definition parseAdminUseCommand : P Command :=
  nextToken;;
  switch [
    ([TokenAPI], parseAdminUseAPIServer);
    ([TokenAdmin], parseAdminUseAdminServer)
  ] (fail "expected API or ADMIN after USE").

(* internal/cli/admin_parser.go:2610-2632 Parser.parseStartIngestion *)
Definition parseStartIngestion : P Command :=
  nextToken;; expect TokenIngestion "expect INGESTION";; nextToken;;
  uri ← parseQuotedString;
  let cmd := param (NewCommand "admin_start_ingestion_command") "uri" (PStr uri) in
  nextToken;; skip TokenSemicolon;; mret cmd.

(* internal/cli/admin_parser.go:2634-2656 Parser.parseStopIngestion *)
Definition parseStopIngestion : P Command :=
  nextToken;; expect TokenIngestion "expect INGESTION";; nextToken;;
  taskID ← parseQuotedString;
  let cmd := NewCommand "admin_stop_ingestion_command" in
  let cmd := param cmd "task_id" (PStr taskID) in
  nextToken;; skip TokenSemicolon;; mret cmd.

(* internal/cli/admin_parser.go:2658-2675 Parser.parseAdminIngestCommand *)
Definition parseAdminIngestCommand : P Command :=
  nextToken;;
  uri ← parseQuotedString;
  let cmd := param (NewCommand "admin_ingest_command") "uri" (PStr uri) in
  nextToken;; skip TokenSemicolon;; mret cmd.

(* internal/cli/admin_parser.go:2677-2740 Parser.parseMessageQueueCommand *)
Definition parseMessageQueueCommand : P Command :=
  nextToken;;
  cmd ← (
    switch [
      ([TokenShow], nextToken;; mret (NewCommand "user_show_message_queue_command"));
      ([TokenList],
        nextToken;;
        let cmd := NewCommand "user_list_message_queue_command" in
        tok ← curToken;
        if tok_is tok TokenPending then
          let cmd := param cmd "pending" (PBool true) in
          nextToken;; mret cmd
        else
        mret (param cmd "pending" (PBool false)));
      ([TokenPublish],
        nextToken;;
        message ← instead "expected message after PUBLISH" parseQuotedString;
        nextToken;;
        let cmd := NewCommand "user_publish_message_command" in
        mret (param cmd "message" (PStr message)));
      ([TokenPull],
        nextToken;;
        found ← try parseNumber;
        messageCount ← match found with Some n => nextToken;; mret n | None => mret 1%Z end;
        if bool_decide (messageCount ≤ 0)%Z || bool_decide (100 < messageCount)%Z then
          fail "message count cannot be less than 0 or greater than 100"
        else
        let cmd := NewCommand "user_pull_message_command" in
        let cmd := param cmd "message_count" (PInt messageCount) in
        tok ← curToken;
        if tok_is tok TokenNoACK then
          let cmd := param cmd "ack_policy" (PStr "NOACK") in
          nextToken;; mret cmd
        else
        mret (param cmd "ack_policy" (PStr "ACK")))
    ] (fail "expected WITH"));
  skip TokenSemicolon;; mret cmd.

(* internal/cli/admin_parser.go:3432-3465 Parser.parseAdminRemoveUserCommand *)
Definition parseAdminRemoveUserCommand : P Command :=
  nextToken;;
  userName ← parseQuotedString;
  nextToken;;
  switch [
    ([TokenIngestion],
      nextToken;; expect TokenTasks "expected TASKS after INGESTION";; nextToken;;
      let cmd := NewCommand "admin_remove_user_ingestion_tasks_command" in
      tok ← curToken;
      cmd ← (
        if tok_is tok TokenQuotedString then
          status ← parseQuotedString;
          let cmd := param cmd "status" (PStr status) in
          nextToken;; mret cmd
        else mret cmd);
      mret (param cmd "user_name" (PStr userName)))
  ] (fail "expected INGESTION after USER").

(* internal/cli/admin_parser.go:2744-2755 Parser.parseAdminRemoveCommands *)
Definition parseAdminRemoveCommands : P Command :=
  nextToken;;
  switch [
    ([TokenIngestion], parseAdminRemoveIngestionTasks);
    ([TokenUser], parseAdminRemoveUserCommand)
  ] (fail "expected SERVICE").

(* internal/cli/admin_parser.go:3115-3121 Parser.parseAdminPurgeOrphanCommand *)
Definition parseAdminPurgeOrphanCommand (preview : bool) : P Command :=
  nextToken;;
  let cmd := NewCommand "admin_purge_orphan_command" in
  mret (param cmd "preview" (PBool preview)).

(* internal/cli/admin_parser.go:3125-3136 Parser.parseAdminPurgeUserCommand *)
Definition parseAdminPurgeUserCommand (preview : bool) : P Command :=
  nextToken;;
  userName ← parseQuotedString;
  let cmd := NewCommand "admin_purge_user_command" in
  let cmd := param cmd "preview" (PBool preview) in
  mret (param cmd "user_name" (PStr userName)).

(* internal/cli/admin_parser.go:3142-3209 Parser.parseAdminPurgeUsersCommand *)
Definition parseAdminPurgeUsersCommand (preview : bool) : P Command :=
  nextToken;;
  let userStatus : option string := None in
  let days : option Z := None in
  let planName : option string := None in
  '(planName, days, userStatus) ← loop (λ '(planName, days, userStatus),
      switch [
        ([TokenPlan],
          nextToken;;
          if bool_decide (is_Some planName) then fail "duplicate PLAN after USERS" else
          plan ← parseQuotedString;
          let planName := Some plan in
          nextToken;; mret (Continue (planName, days, userStatus)));
        ([TokenDays],
          nextToken;;
          if bool_decide (is_Some days) then fail "duplicate DAYS after USERS" else
          dayCount ← parseNumber;
          let days := Some dayCount in
          nextToken;; mret (Continue (planName, days, userStatus)));
        ([TokenInactive],
          nextToken;;
          if bool_decide (is_Some userStatus) then fail "duplicate INACTIVE or ACTIVE after USERS" else
          let inactiveStatus := "inactive" in
          let userStatus := Some inactiveStatus in
          mret (Continue (planName, days, userStatus)));
        ([TokenActive],
          nextToken;;
          if bool_decide (is_Some userStatus) then fail "duplicate INACTIVE or ACTIVE after USERS" else
          let activeStatus := "active" in
          let userStatus := Some activeStatus in
          mret (Continue (planName, days, userStatus)));
        ([TokenSemicolon], nextToken;; mret (Break (planName, days, userStatus)))
      ] (mret (Break (planName, days, userStatus)))) (planName, days, userStatus);
  let cmd := NewCommand "admin_purge_users_command" in
  let cmd := param cmd "preview" (PBool preview) in
  let cmd := match planName with Some x => param cmd "plan_name" (PStr x) | None => cmd end in
  let cmd := match userStatus with Some x => param cmd "user_status" (PStr x) | None => cmd end in
  mret (match days with Some x => param cmd "days" (PInt x) | None => cmd end).

(* internal/cli/admin_parser.go:3093-3111 Parser.parseAdminPurgeCommand *)
Definition parseAdminPurgeCommand : P Command :=
  nextToken;;
  let preview := false in
  tok ← curToken;
  preview ← (
    if tok_is tok TokenPreview then
      nextToken;; mret true
    else mret preview);
  switch [
    ([TokenOrphan], parseAdminPurgeOrphanCommand preview);
    ([TokenUser], parseAdminPurgeUserCommand preview);
    ([TokenUsers], parseAdminPurgeUsersCommand preview)
  ] (fail "expected PREVIEW, USER, USERS after PURGE").

(* internal/cli/parser.go:80-146 Parser.parseAdminCommand *)
Definition parseAdminCommand : P Command :=
  switch [
    ([TokenLogin], parseAdminLoginUser);
    ([TokenLogout], parseAdminLogout);
    ([TokenPing], parseAdminPingServer);
    ([TokenLive], parseAdminLiveServer);
    ([TokenHealth], parseAdminHealthServer);
    ([TokenList], parseAdminListCommands);
    ([TokenShow], parseAdminShowCommands);
    ([TokenStats], parseAdminStatsCommands);
    ([TokenCheck], parseAdminCheck);
    ([TokenCreate], parseAdminCreateCommand);
    ([TokenDrop], parseAdminDropCommands);
    ([TokenAlter], parseAdminAlterCommands);
    ([TokenGrant], parseAdminGrantCommands);
    ([TokenRevoke], parseAdminRevokeCommands);
    ([TokenSet], parseAdminSetCommand);
    ([TokenReset], parseAdminResetCommand);
    ([TokenBenchmark], parseAdminBenchmarkCommand);
    ([TokenStart], parseAdminStartService);
    ([TokenShutdown], parseAdminShutdownCommands);
    ([TokenRestart], parseAdminRestart);
    ([TokenMQ], parseMessageQueueCommand);
    ([TokenRemove], parseAdminRemoveCommands);
    ([TokenStop], parseAdminStopIngestionTasks);
    ([TokenAdd], parseAdminAddCommand);
    ([TokenDelete], parseAdminDeleteCommands);
    ([TokenEnable], parseAdminEnableCommand);
    ([TokenDisable], parseAdminDisableCommand);
    ([TokenSave], parseAdminSaveCommand);
    ([TokenUse], parseAdminUseCommand);
    ([TokenPurge], parseAdminPurgeCommand)
  ] (fail_got "unknown command: ").

(* internal/cli/parser.go:148-236 Parser.parseUserCommand *)
Definition parseUserCommand : P Command :=
  switch [
    ([TokenLogin], parseAPILoginUser);
    ([TokenLogout], parseAPILogout);
    ([TokenPing], parseAPIPingServer);
    ([TokenRegister], parseAPIRegister);
    ([TokenList], parseAPIListCommands);
    ([TokenShow], parseAPIShowCommands);
    ([TokenCreate], parseAPICreateCommands);
    ([TokenDrop], parseAPIDropCommands);
    ([TokenAdd], parseAPIAddCommands);
    ([TokenDelete], parseAPIDeleteCommands);
    ([TokenAlter], parseAPIAlterCommands);
    ([TokenSet], parseAPISetCommands);
    ([TokenReset], parseAPIResetCommands);
    ([TokenImport], parseAPIImport);
    ([TokenInsert], parseDevInsertCommand);
    ([TokenRetrieve], parseAPIRetrieve);
    ([TokenParse], parseParseCommands);
    ([TokenBenchmark], parseBenchmarkCommand);
    ([TokenEnable], parseAPIEnable);
    ([TokenDisable], parseAPIDisable);
    ([TokenChat], parseAPIChat);
    ([TokenStream], parseAPIStream);
    ([TokenThink], parseAPIThink);
    ([TokenEmbed], parseAPIEmbed);
    ([TokenRerank], parseAPIRerank);
    ([TokenASR], parseAPIASR);
    ([TokenTTS], parseAPITTS);
    ([TokenOCR], parseAPIOCR);
    ([TokenCheck], parseAPICheck);
    ([TokenStart], parseUserStartIngestion);
    ([TokenStop], parseUserStopIngestion);
    ([TokenSave], parseAPISave);
    ([TokenUse], parseAPIUseCommands);
    ([TokenUpdate], parseDevUpdateCommand);
    ([TokenRemove], parseAPIRemove);
    ([TokenGet], parseDevGetCommand);
    ([TokenExplain], parseDevExplain);
    ([TokenChunk], parseDevChunk false);
    ([TokenOpenaiChat], parseOpenaiChat);
    ([TokenLS; TokenCat; TokenSearch], parseFileSystemCommands)
  ] (fail_got "unknown command: ").

(* internal/cli/cli.go:68-74 AdminMode *)
Definition AdminMode : string := "admin".
Definition APIMode : string := "api".

(* internal/cli/parser.go:238-251 Parser.parseCommand *)
Definition parseCommand (cliMode : string) : P Command :=
  tok ← curToken;
  if tok_isnt tok TokenIdentifier && negb (isKeyword (Type_ tok)) then fail_got "expected command, got " else
  switch_str cliMode [
    ([AdminMode], parseAdminCommand);
    ([APIMode], parseUserCommand)
  ] (fail ("unknown mode: " +:+ cliMode)).

(** [None] is the absence of a command, not an error. *)
(* internal/cli/parser.go:50-61 Parser.Parse *)
Definition Parse (cliMode : string) : P (option Command) :=
  tok ← curToken;
  if tok_is tok TokenEOF then mret None else
  Some <$> (if tok_is tok TokenIdentifier && String.prefix backslash (Value tok) then parseMetaCommand
            else parseCommand cliMode).

(** A whole run: [NewParser(input).Parse(mode)]. *)
Definition parse_input (mode input : string) : res (option Command) :=
  match NewParser input with ROk _ p => Parse mode p | RErr e => RErr e | RLoop => RLoop end.
End commands.
