(* ===== verification/CliProps.v ===== *)
(** * The command line: theorems

    The parser returns on every input, and what it returns depends on the tokens
    only, not on the white space between them.  Examples follow the documented
    syntax. *)

From S2P Require Import Prelude GoValue AgentValue CanvasProps CliLexer CliParser CliLexerProps CliDev CliUser CliUserOps CliAdmin CliAdminOps.

(** ** Two parsers that see the same tokens

    [agree] relates the outcomes of a computation on two parsers: they are the same
    but for the states, and none is a loop for ever.  With both parsers equal it says
    that the computation returns. *)

Record same (p q : Parser) : Prop := {
  same_ok : lexer_ok (lexer p) ∧ lexer_ok (lexer q);
  same_cur : cur p = cur q;
  same_peek : peek p = peek q;
  same_rest : same_tokens (lexer p) (lexer q);
}.
Definition amount (p : Parser) : nat := weight (cur p) + weight (peek p) + rem (lexer p).

Definition agree {A} (r s : res A) (Q : A → Parser → Parser → Prop) : Prop :=
  match r, s with
  | ROk a p, ROk b q => a = b ∧ Q a p q
  | RErr e, RErr e' => e = e'
  | _, _ => False
  end.
(** What every piece of the parser does: it agrees, and no tokens come back. *)
Definition kept (p q p' q' : Parser) : Prop := same p' q' ∧ amount p' ≤ amount p ∧ amount q' ≤ amount q.
Definition good {A} (m : P A) : Prop := ∀ p q, same p q → agree (m p) (m q) (λ _, kept p q).

Lemma kept_refl p q : same p q → kept p q p q.
Proof. intros Hs. unfold kept. by split_and!. Qed.
Lemma kept_trans p q p1 q1 p2 q2 : kept p q p1 q1 → kept p1 q1 p2 q2 → kept p q p2 q2.
Proof. unfold kept. intros (_ & ? & ?) (? & ? & ?). split_and!; [done|lia..]. Qed.

Lemma agree_mono {A} (r s : res A) (Q Q' : A → Parser → Parser → Prop) :
  agree r s Q → (∀ a p q, Q a p q → Q' a p q) → agree r s Q'.
Proof. destruct r, s; cbn; try done. intros [-> HQ] HQ'. split; [done|]. by apply HQ'. Qed.
Lemma agree_bind {A B} (m : P A) (k : A → P B) p q Q :
  agree (m p) (m q) (λ a p q, agree (k a p) (k a q) Q) → agree ((m ≫= k) p) ((m ≫= k) q) Q.
Proof. unfold mbind, P_bind. destruct (m p), (m q); cbn; try done. by intros [-> HQ]. Qed.
Lemma agree_good {A} (m : P A) p q Q :
  good m → same p q → (∀ a p' q', kept p q p' q' → Q a p' q') → agree (m p) (m q) Q.
Proof. intros Hm Hs HQ. eapply agree_mono; [by apply Hm|]. auto. Qed.
Lemma agree_step {A B} (m : P A) (k : A → P B) p q Q :
  same p q → good m → (∀ a p' q', kept p q p' q' → agree (k a p') (k a q') Q) → agree ((m ≫= k) p) ((m ≫= k) q) Q.
Proof. intros Hs Hm Hk. apply agree_bind, agree_good; done. Qed.

Lemma agree_next {B} (k : unit → P B) p q Q :
  same p q →
  (∀ p' q', kept p q p' q' → amount p' + weight (cur p) ≤ amount p ∧ amount q' + weight (cur q) ≤ amount q → agree (k () p') (k () q') Q) →
  agree ((nextToken ≫= k) p) ((nextToken ≫= k) q) Q.
Proof.
  intros [[Hp Hq] Hc Hpk Hr] Hk. apply agree_bind. unfold nextToken.
  pose proof (NextToken_moves _ Hp) as [Hp1 Hp2]. pose proof (NextToken_moves _ Hq) as [Hq1 Hq2].
  destruct (same_next _ _ Hr) as [Ht Hs]. unfold agree.
  destruct (NextToken (lexer p)) as [t l], (NextToken (lexer q)) as [t' l']. cbn in *. subst t'. split; [done|].
  unfold kept, amount in *. cbn. apply Hk; cbn; [|lia]. split; [by split|lia].
Qed.
Lemma good_next : good nextToken.
Proof.
  intros p q Hs. assert (agree ((nextToken ≫= mret) p) ((nextToken ≫= mret) q) (λ _, kept p q)) as Ha.
  { apply agree_next; [done|]. intros p' q' Hk _. by split. }
  revert Ha. unfold mbind, P_bind, nextToken. by destruct (NextToken _), (NextToken _).
Qed.
Lemma agree_cur {B} (k : Token → P B) p q Q :
  same p q → agree (k (cur p) p) (k (cur p) q) Q → agree ((curToken ≫= k) p) ((curToken ≫= k) q) Q.
Proof. intros Hs Ha. unfold mbind, P_bind, curToken. rewrite <- (same_cur _ _ Hs). done. Qed.
Lemma agree_ret {A} (a : A) p q (Q : A → Parser → Parser → Prop) : Q a p q → agree ((mret a : P A) p) ((mret a : P A) q) Q.
Proof. by split. Qed.
Lemma agree_fail {A} err p q (Q : A → Parser → Parser → Prop) : agree (fail err p) (fail err q) Q.
Proof. done. Qed.
Lemma agree_fail_got {A} err p q (Q : A → Parser → Parser → Prop) : same p q → agree (fail_got err p) (fail_got err q) Q.
Proof. intros Hs. apply agree_cur; [done|]. apply agree_fail. Qed.

Lemma agree_select {A K} `{EqDecision K} (k : K) (cases : list (list K * P A)) d p q Q :
  Forall (λ c, k ∈ c.1 → agree (c.2 p) (c.2 q) Q) cases → agree (d p) (d q) Q →
  agree (select k cases d p) (select k cases d q) Q.
Proof. induction 1 as [|[ks m] cases Hc _ IH]; intros Hd; cbn [select]; [done|]. case_decide; auto. Qed.
Lemma agree_switch {A} (cases : list (list TokenType * P A)) d p q Q :
  same p q → Forall (λ c, Type_ (cur p) ∈ c.1 → agree (c.2 p) (c.2 q) Q) cases → agree (d p) (d q) Q →
  agree (switch cases d p) (switch cases d q) Q.
Proof. intros Hs Hc Hd. apply agree_cur; [done|]. by apply agree_select. Qed.

(** A loop of which every iteration that goes on takes a token away, or takes one
    out of view. *)
Definition ahead (p : Parser) : nat := weight (peek p) + rem (lexer p).
Definition advances {S} (μ : Parser → nat) (p q : Parser) (r : flow S) (p' q' : Parser) : Prop :=
  kept p q p' q' ∧ match r with Continue _ => μ p' < μ p ∧ μ q' < μ q | Break _ => True end.
Lemma iterate_agree {S} μ (body : S → P (flow S)) n m s p q :
  (∀ s p q, same p q → agree (body s p) (body s q) (advances μ p q)) →
  same p q → μ p < n → μ q < m →
  agree (iterate n body s p) (iterate m body s q) (λ _, kept p q).
Proof.
  intros Hb. revert m s p q. induction n as [|n IH]; intros m s p q Hs Hn Hm; [lia|].
  destruct m as [|m]; [lia|]. cbn [iterate]. unfold mbind, P_bind. specialize (Hb s p q Hs).
  destruct (body s p) as [r p1| |], (body s q) as [r' q1| |]; cbn in Hb; try done. destruct Hb as [<- [Hk Hr]].
  destruct r as [s1|s1]; [|by split]. eapply agree_mono; [apply IH; [apply Hk|lia..]|].
  intros x p2 q2. by apply kept_trans.
Qed.
Lemma good_loop {S} μ (body : S → P (flow S)) s :
  (∀ p, μ p ≤ amount p) →
  (∀ s p q, same p q → agree (body s p) (body s q) (advances μ p q)) → good (loop body s).
Proof.
  intros Hμ Hb p q Hs. assert (∀ p, μ p < Datatypes.S (tokens_left p)).
  { intros p0. specialize (Hμ p0). revert Hμ. unfold amount, tokens_left, rem, weight. repeat case_match; lia. }
  eapply iterate_agree; eauto.
Qed.
Lemma loop_amount {S} (body : S → P (flow S)) s :
  (∀ s p q, same p q → agree (body s p) (body s q) (advances amount p q)) → good (loop body s).
Proof. by apply good_loop. Qed.
Lemma loop_ahead {S} (body : S → P (flow S)) s :
  (∀ s p q, same p q → agree (body s p) (body s q) (advances ahead p q)) → good (loop body s).
Proof. apply good_loop. intros p. unfold ahead, amount. lia. Qed.

Lemma good_expectPeek t : good (expectPeek t).
Proof.
  intros p q Hs. unfold expectPeek. rewrite <- (same_peek _ _ Hs). case_decide; [done|]. by apply good_next.
Qed.
Lemma good_wrap {A} err (m : P A) : good m → good (wrap err m).
Proof. intros Hm p q Hs. specialize (Hm p q Hs). unfold wrap. destruct (m p), (m q); cbn in *; congruence || done. Qed.
Lemma good_instead {A} err (m : P A) : good m → good (instead err m).
Proof. intros Hm p q Hs. specialize (Hm p q Hs). unfold instead. by destruct (m p), (m q). Qed.
Lemma good_try {A} (m : P A) : good m → good (try m).
Proof.
  intros Hm p q Hs. specialize (Hm p q Hs). unfold try. destruct (m p), (m q); cbn in *; try done.
  by destruct Hm as [-> ?].
Qed.

(** ** The parser returns, on every input *)

(** A piece that only looks at the current token, and succeeds for some types. *)
Definition looks {A} (φ : TokenType → Prop) (m : P A) : Prop :=
  ∀ p q, cur p = cur q → agree (m p) (m q) (λ _ p' q', p' = p ∧ q' = q ∧ φ (Type_ (cur p))).

Lemma agree_looks {A B} φ (m : P A) (k : A → P B) p q Q :
  same p q → looks φ m → (∀ a, φ (Type_ (cur p)) → agree (k a p) (k a q) Q) → agree ((m ≫= k) p) ((m ≫= k) q) Q.
Proof.
  intros Hs Hm Hk. apply agree_bind. eapply agree_mono; [apply Hm, same_cur, Hs|].
  intros a p' q' (-> & -> & Hφ). by apply Hk.
Qed.
Lemma good_looks {A} φ (m : P A) : looks φ m → good m.
Proof.
  intros Hm p q Hs. eapply agree_mono; [apply Hm, same_cur, Hs|]. intros a p' q' (-> & -> & _). by apply kept_refl.
Qed.

Lemma looks_wrap {A} φ err (m : P A) : looks φ m → looks φ (wrap err m).
Proof. intros Hm p q Hs. specialize (Hm p q Hs). unfold wrap. destruct (m p), (m q); cbn in *; congruence || done. Qed.
Lemma looks_instead {A} φ err (m : P A) : looks φ m → looks φ (instead err m).
Proof. intros Hm p q Hs. specialize (Hm p q Hs). unfold instead. by destruct (m p), (m q). Qed.
Lemma looks_instead_got {A} φ err (m : P A) : looks φ m → looks φ (instead_got err m).
Proof.
  intros Hm p q Hs. unfold instead_got, mbind, P_bind, curToken. rewrite <- Hs. by apply (looks_instead φ).
Qed.
(** A piece that is a function of the current token. *)
Lemma looks_token {A} (φ : TokenType → Prop) (f : Token → string + A) (m : P A) :
  (∀ p, m p = match f (cur p) with inl e => RErr e | inr a => ROk a p end) →
  (∀ t a, f t = inr a → φ (Type_ t)) → looks φ m.
Proof.
  intros Hm Hφ p q Hs. rewrite !Hm, <- Hs. destruct (f (cur p)) as [e|a] eqn:E; cbn; [done|]. split; [done|].
  split_and!; [done..|]. by eapply Hφ.
Qed.

Lemma looks_expect t err : looks (eq t) (expect t err).
Proof.
  apply (looks_token _ (λ tok, if tok_isnt tok t then inl err else inr ())).
  - intros p. unfold expect, mbind, P_bind, curToken. by destruct (tok_isnt (cur p) t).
  - intros tok a. unfold tok_isnt. case_bool_decide as E; [done|]. done.
Qed.
Lemma looks_expect_got t err : looks (eq t) (expect_got t err).
Proof.
  apply (looks_token _ (λ tok, if tok_isnt tok t then inl (err +:+ Value tok) else inr ())).
  - intros p. unfold expect_got, mbind, P_bind, curToken. by destruct (tok_isnt (cur p) t).
  - intros tok a. unfold tok_isnt. case_bool_decide as E; [done|]. done.
Qed.
Lemma looks_quoted : looks (eq TokenQuotedString) parseQuotedString.
Proof.
  apply (looks_token _ (λ tok, if tok_isnt tok TokenQuotedString then inl ("expected quoted string, got " +:+ Value tok) else inr (Value tok))).
  - intros p. unfold parseQuotedString, mbind, P_bind, curToken. by destruct (tok_isnt (cur p) _).
  - intros tok a. unfold tok_isnt. case_bool_decide as E; [done|]. done.
Qed.
Lemma looks_identifier : looks (eq TokenIdentifier) parseIdentifier.
Proof.
  apply (looks_token _ (λ tok, if tok_isnt tok TokenIdentifier then inl ("expected identifier, got " +:+ Value tok) else inr (Value tok))).
  - intros p. unfold parseIdentifier, mbind, P_bind, curToken. by destruct (tok_isnt (cur p) _).
  - intros tok a. unfold tok_isnt. case_bool_decide as E; [done|]. done.
Qed.

Section library.
Context `{GoLib, CliText}.

Lemma looks_atoi s : looks (λ _, True) (atoi s).
Proof. intros p q Hs. unfold atoi. by destruct (atoi_value s). Qed.
Lemma looks_variable : looks (λ _, True) parseVariableValue.
Proof.
  intros p q Hs. unfold parseVariableValue, switch, mbind, P_bind, curToken. rewrite Hs.
  cbn [select]. case_decide; [done|]. unfold fail_got, mbind, P_bind, curToken. by rewrite Hs.
Qed.
Lemma looks_number : looks (eq TokenInteger) parseNumber.
Proof.
  intros p q Hs. unfold parseNumber, mbind, P_bind, curToken. rewrite Hs. unfold tok_isnt. case_bool_decide as E.
  - unfold fail_got, mbind, P_bind, curToken. by rewrite Hs.
  - unfold atoi. destruct (atoi_value _); cbn; [|done]. by rewrite E.
Qed.
Lemma looks_float : looks (λ t, t ≠ TokenEOF) parseFloat.
Proof.
  intros p q Hs. unfold parseFloat, mbind, P_bind, curToken. rewrite Hs. unfold tok_isnt.
  case_bool_decide as E1; cbn [andb]; [case_bool_decide as E2; [unfold fail_got, mbind, P_bind, curToken; by rewrite Hs|]|].
  all: match goal with E : Type_ _ = _ |- _ => destruct (parse_float _); cbn; [|done]; by rewrite E end.
Qed.
Lemma looks_json : looks (eq TokenQuotedString) parseJSONLiteral.
Proof.
  intros p q Hs. unfold parseJSONLiteral. apply agree_bind. eapply agree_mono; [by apply looks_expect_got|].
  intros _ p' q' (-> & -> & <-). unfold mbind, P_bind, curToken. rewrite Hs. by destruct (unmarshal _).
Qed.
Lemma looks_host s : looks (λ _, True) (parseHostPort s).
Proof.
  intros p q Hs. unfold parseHostPort. case_decide; [done|].
  destruct (split_on colon s) as [|host [|port [|]]]; try done. by destruct (atoi_value port).
Qed.
Lemma looks_names s : looks (λ _, True) (parseModelNames s).
Proof. intros p q Hs. unfold parseModelNames. case_bool_decide; [done|]. by destruct (first_duplicate _ _). Qed.
Lemma looks_entry s m : looks (λ _, True) (model_entry s m).
Proof. intros p q Hs. unfold model_entry. case_bool_decide; [done|]. by case_bool_decide. Qed.
End library.

(** The tactic [walk] goes through a piece of the parser.  A statement before
    another one is taken as a whole, unless it only looks; a token that is known not
    to be the end of the input is taken away by [nextToken]. *)

Create HintDb cli discriminated.
#[export] Hint Resolve looks_wrap looks_instead looks_instead_got looks_expect looks_expect_got looks_quoted looks_identifier
  looks_atoi looks_variable looks_number looks_float looks_json looks_host looks_names looks_entry : cli.
#[export] Hint Resolve good_next good_expectPeek good_wrap good_instead good_try : cli.

Lemma weight_other tok : Type_ tok ≠ TokenEOF → weight tok = 1.
Proof. intros Hne. unfold weight, tok_is. by rewrite bool_decide_false. Qed.

Lemma keyword_other t : isKeyword t = true → t ≠ TokenEOF.
Proof. intros Hk ->. by vm_compute in Hk. Qed.

Ltac types_known :=
  repeat match goal with
  | H : negb _ = false |- _ => apply negb_false_iff in H
  | H : isKeyword _ = true |- _ => apply keyword_other in H
  | H : Type_ (cur _) ∈ _ :: _ |- _ => apply elem_of_cons in H as [H|H]
  | H : Type_ (cur _) ∈ [] |- _ => by apply elem_of_nil in H
  | H : tok_is _ _ = true |- _ => unfold tok_is in H; apply bool_decide_eq_true in H
  | H : tok_isnt _ _ = false |- _ => unfold tok_isnt in H; apply bool_decide_eq_false, dec_stable in H
  | H : tok_isnt _ _ = true |- _ => unfold tok_isnt in H; apply bool_decide_eq_true in H
  | H : _ && _ = true |- _ => apply andb_true_iff in H as [? ?]
  end.
Ltac weigh :=
  repeat match goal with
  | S : same ?p ?q, H : context [weight (cur ?q)] |- _ => rewrite <- (same_cur p q S) in H
  | H : context [weight (cur ?p)] |- _ => rewrite (weight_other (cur p)) in H by congruence
  end.
Ltac settle :=
  unfold advances, kept; split_and!;
  first [assumption | exact I | lia | types_known; weigh; lia | types_known; unfold ahead, amount in *; weigh; lia].

Ltac same_here := assumption.
Ltac each_case := repeat first [apply Forall_nil_2 | apply Forall_cons_2].
Ltac unfold_head m := lazymatch m with ?f _ => unfold_head f | _ => unfold m end.

Ltac walk :=
  cbv zeta; cbn [fst snd];
  lazymatch goal with
  | |- good (loop _ _) => first [apply loop_amount; intros ? ? ? ?; solve [walk] | apply loop_ahead; intros ? ? ? ?; walk]
  | |- good (wrap _ ?m) => apply good_wrap; walk
  | |- good (instead _ ?m) => apply good_instead; walk
  | |- good (try ?m) => apply good_try; walk
  | |- good ?m => first [ solve [eapply good_looks; eauto with cli] | solve [eauto with cli] | intros ? ? ? ]; walk
  | |- agree ((match ?x with _ => _ end) _) _ _ => let E := fresh "E" in destruct x eqn:E; types_known; walk
  | |- agree ((nextToken ≫= _) _) _ _ => apply agree_next; [same_here|intros ? ? (? & ? & ?) [? ?]; walk]
  | |- agree ((curToken ≫= _) _) _ _ => apply agree_cur; [same_here|walk]
  | |- agree ((_ ≫= _) _) _ _ =>
      first [ eapply agree_looks; [same_here|solve [eauto with cli]|intros ? ?]
            | eapply agree_step; [same_here| |intros ? ? ? (? & ? & ?)] ]; walk
  | |- agree (mret _ _) _ _ => apply agree_ret; settle
  | |- agree (fail _ _) _ _ => apply agree_fail
  | |- agree (fail_got _ _) _ _ => apply agree_fail_got; same_here
  | |- agree (switch _ _ _) _ _ => apply agree_switch; [same_here|each_case; cbn [fst snd]; intros ?; types_known; walk|walk]
  | |- agree (switch_str _ _ _ _) _ _ => unfold switch_str; apply agree_select; [each_case; cbn [fst snd]; intros ?; walk|walk]
  | |- agree ((fmap _ _) _) _ _ => unfold fmap, P_fmap; walk
  | |- agree (loop _ _ _) _ _ => eapply agree_good; [walk|same_here|intros ? ? ? (? & ? & ?); settle]
  | |- agree (nextToken _) _ _ => eapply agree_good; [apply good_next|same_here|intros ? ? ? (? & ? & ?); settle]
  | |- agree (?m _) _ _ =>
      first [ eapply agree_good; [solve [eapply good_looks; eauto with cli]|same_here|intros ? ? ? (? & ? & ?)]; settle
            | unfold_head m ]; walk
  end.

Section returns.
Context `{GoLib, CliText}.

Lemma good_skip t : good (skip t).
Proof. intros p q Hs. unfold skip. walk. Qed.
Lemma good_list : good parseQuotedStringList.
Proof. intros p q Hs. unfold parseQuotedStringList. walk. Qed.
Lemma good_bool : good parseBool.
Proof. intros p q Hs. unfold parseBool. walk. Qed.
#[local] Hint Resolve good_skip good_list good_bool : cli.
Lemma good_meta : good parseMetaCommand.
Proof. intros p q Hs. unfold parseMetaCommand. walk. Qed.

(** The commands of both modes, but for those of the file system. *)
Lemma good_user_commands : Forall good [
    parseAPILoginUser; parseAPILogout; parseAPIPingServer; parseAPIRegister; parseAPIListCommands;
    parseAPIShowCommands; parseAPICreateCommands; parseAPIDropCommands; parseAPIAddCommands; parseAPIDeleteCommands;
    parseAPIAlterCommands; parseAPISetCommands; parseAPIResetCommands; parseAPIImport; parseDevInsertCommand;
    parseAPIRetrieve; parseParseCommands; parseBenchmarkCommand; parseAPIEnable; parseAPIDisable; parseAPIChat;
    parseAPIStream; parseAPIThink; parseAPIEmbed; parseAPIRerank; parseAPIASR; parseAPITTS; parseAPIOCR;
    parseAPICheck; parseUserStartIngestion; parseUserStopIngestion; parseAPISave; parseAPIUseCommands;
    parseDevUpdateCommand; parseAPIRemove; parseDevGetCommand; parseDevExplain; parseDevChunk false; parseOpenaiChat].
Proof. each_case; walk. Qed.
Lemma good_admin_commands : Forall good [
    parseAdminLoginUser; parseAdminLogout; parseAdminPingServer; parseAdminLiveServer; parseAdminHealthServer;
    parseAdminListCommands; parseAdminShowCommands; parseAdminStatsCommands; parseAdminCheck; parseAdminCreateCommand;
    parseAdminDropCommands; parseAdminAlterCommands; parseAdminGrantCommands; parseAdminRevokeCommands;
    parseAdminSetCommand; parseAdminResetCommand; parseAdminBenchmarkCommand; parseAdminStartService;
    parseAdminShutdownCommands; parseAdminRestart; parseMessageQueueCommand; parseAdminRemoveCommands;
    parseAdminStopIngestionTasks; parseAdminAddCommand; parseAdminDeleteCommands; parseAdminEnableCommand;
    parseAdminDisableCommand; parseAdminSaveCommand; parseAdminUseCommand; parseAdminPurgeCommand].
Proof. each_case; walk. Qed.

Lemma good_admin : good parseAdminCommand.
Proof.
  intros p q Hs. pose proof good_admin_commands as Hc. decompose_Forall_hyps.
  apply agree_switch; [done|each_case; cbn [fst snd]; intros _; auto|by apply agree_fail_got].
Qed.

Lemma agree_file_system p q :
  same p q → original p = original q → agree (parseFileSystemCommands p) (parseFileSystemCommands q) (λ _, kept p q).
Proof. intros Hs Ho. unfold parseFileSystemCommands. rewrite Ho. walk. Qed.
(** The commands of the file system keep the text of the input. *)
Definition file_system_tokens : list TokenType := [TokenLS; TokenCat; TokenSearch].
Definition text_known (p q : Parser) : Prop := Type_ (cur p) ∈ file_system_tokens → original p = original q.
Lemma agree_user p q :
  same p q → text_known p q → agree (parseUserCommand p) (parseUserCommand q) (λ _, kept p q).
Proof.
  intros Hs Ho. pose proof good_user_commands as Hc. decompose_Forall_hyps.
  apply agree_switch; [done|each_case; cbn [fst snd]; intros Ht; auto using agree_file_system|by apply agree_fail_got].
Qed.
Lemma agree_Parse mode p q :
  same p q → text_known p q → agree (Parse mode p) (Parse mode q) (λ _, kept p q).
Proof.
  intros Hs Ho. unfold Parse. apply agree_cur; [done|]. case_match; [by apply agree_ret, kept_refl|].
  unfold fmap, P_fmap. apply agree_bind.
  assert (∀ m : P Command, agree (m p) (m q) (λ _, kept p q) →
    agree (m p) (m q) (λ a p' q', agree ((mret (Some a) : P (option Command)) p') ((mret (Some a) : P (option Command)) q') (λ _, kept p q))) as Hret.
  { intros m Hm. eapply agree_mono; [exact Hm|]. by intros. }
  apply Hret. case_match; [by apply good_meta|]. unfold parseCommand. apply agree_cur; [done|].
  case_match; [by apply agree_fail_got|]. unfold switch_str.
  apply agree_select; [each_case; cbn [fst snd]; intros _; [by apply good_admin|by apply agree_user]|done].
Qed.

(** A parser at its first token. *)
Definition first_parser (s : string) : Parser :=
  let '(t1, l) := NextToken (NewLexer s) in let '(t2, l) := NextToken l in
  {| lexer := l; cur := t1; peek := t2; original := s |}.
Lemma NewParser_first s : NewParser s = ROk () (first_parser s).
Proof.
  unfold NewParser, first_parser, mbind, P_bind, nextToken. cbn [lexer peek original].
  destruct (NextToken (NewLexer s)) as [t1 l1]. cbn [lexer peek original]. by destruct (NextToken l1).
Qed.
Lemma first_same s s' : same_tokens (NewLexer s) (NewLexer s') → same (first_parser s) (first_parser s').
Proof.
  intros Hs. unfold first_parser. destruct (same_next _ _ Hs) as [H1 Hs1]. destruct (same_next _ _ Hs1) as [H2 Hs2].
  pose proof (NextToken_moves _ (readChar_ok {| input := s; pos := 0; readPos := 0; ch := zero_byte |})) as [Ho1 _].
  pose proof (NextToken_moves _ (readChar_ok {| input := s'; pos := 0; readPos := 0; ch := zero_byte |})) as [Ho1' _].
  fold (NewLexer s) in Ho1. fold (NewLexer s') in Ho1'.
  pose proof (NextToken_moves _ Ho1) as [Ho2 _]. pose proof (NextToken_moves _ Ho1') as [Ho2' _].
  destruct (NextToken (NewLexer s)) as [t1 l1], (NextToken (NewLexer s')) as [t1' l1']. cbn [fst snd] in *.
  destruct (NextToken l1), (NextToken l1'). cbn [fst snd] in *. by split.
Qed.
Lemma first_type s : cur (first_parser s) = (NextToken (NewLexer s)).1.
Proof. unfold first_parser. destruct (NextToken (NewLexer s)) as [t1 l1]. by destruct (NextToken l1). Qed.

(** C19: The command line parser returns on every input, in every mode: it gives a
    command, no command or an error, and none of its loops over tokens runs for ever.
    Every loop of every command takes a token away before it goes on, and the lexer
    takes a byte away for every token but the end of the input. *)
Theorem parse_total mode s :
  match parse_input mode s with ROk _ _ | RErr _ => True | RLoop => False end.
Proof.
  unfold parse_input. rewrite NewParser_first.
  assert (agree (Parse mode (first_parser s)) (Parse mode (first_parser s)) (λ _, kept (first_parser s) (first_parser s))) as Ha
    by (apply agree_Parse; [by apply first_same|done]).
  by destruct (Parse mode (first_parser s)).
Qed.

(** What the caller sees of a run. *)
Definition outcome {A} (r : res A) : option (string + A) :=
  match r with ROk a _ => Some (inr a) | RErr e => Some (inl e) | RLoop => None end.
(** C20: What the parser makes of an input depends on its tokens only: two inputs with
    the same tokens give the same command or the same error, whatever the white
    space, unless the input starts with LS, CAT or SEARCH, whose command is the text
    of the input itself. *)
Theorem layout_irrelevant mode s s' :
  same_tokens (NewLexer s) (NewLexer s') →
  Type_ (NextToken (NewLexer s)).1 ∉ file_system_tokens →
  outcome (parse_input mode s) = outcome (parse_input mode s').
Proof.
  intros Hs Hf. unfold parse_input. rewrite !NewParser_first.
  assert (agree (Parse mode (first_parser s)) (Parse mode (first_parser s')) (λ _, kept (first_parser s) (first_parser s'))) as Ha.
  { apply agree_Parse; [by apply first_same|]. intros Ht. by rewrite first_type in Ht. }
  destruct (Parse mode (first_parser s)), (Parse mode (first_parser s')); cbn in *; try done; [by destruct Ha as [-> _]|by subst].
Qed.
End returns.

(** ** Examples *)

Definition demo_text : CliText := {|
  quote := λ s, s; float_error := λ _, "invalid syntax"; json_error := λ _, "invalid character" |}.
(** The command of an input with its parameters, and the token after it. *)
Definition parsed (mode s : string) : string + (option (string * list (string * Param)) * string) :=
  match @parse_input demo_lib demo_text mode s with
  | ROk c p => inr ((λ c, (CmdType c, map_to_list (CmdParams c))) <$> c, Value (cur p))
  | RErr e => inl e
  | RLoop => inl "no end"
  end.

Example purge_parsed :
  parsed AdminMode "PURGE USERS INACTIVE PLAN 'gold' DAYS 30;" =
  inr (Some ("admin_purge_users_command",
    [("user_status", PStr "inactive"); ("days", PInt 30); ("preview", PBool false); ("plan_name", PStr "gold")]), "").
Proof. by vm_compute. Qed.

(** Inputs of the tests of the repository. *)
Example sync_logs_parsed :
  parsed APIMode "LIST SYNC_LOGS WITH PAGE 2 PAGE_SIZE 50;"
  = inr (Some ("api_list_sync_logs", [("page_size", PInt 50); ("page", PInt 2)]), "")
  ∧ parsed APIMode "LIST DATASET 'my dataset' SYNC_LOGS WITH PAGE_SIZE 20;"
    = inr (Some ("api_list_sync_logs", [("dataset_name", PStr "my dataset"); ("page_size", PInt 20)]), "")
  ∧ (∃ e, parsed APIMode "LIST SYNC_LOGS WITH PAGE 2, PAGE_SIZE 50;" = inl e).
Proof. split_and!; [by vm_compute..|]. eexists. by vm_compute. Qed.
Definition models_of (s : string) : list (list (string * Param)) :=
  match @parse_input demo_lib demo_text APIMode s with
  | ROk (Some c) _ => match CmdParams c !! "models" with Some (PModels l) => map_to_list <$> l | _ => [] end
  | _ => []
  end.
Example models_parsed :
  models_of "add model 'x1 x4 x5' to provider 'vllm' instance 'test' tokens 1024 chat think vision, token 0 embedding 2048 64 1024 2048, token 0 embedding 2048;"
  = [[("model_name", PStr "x1"); ("model_types", PStrs ["chat"; "vision"]); ("max_tokens", PInt 1024); ("thinking", PBool true)];
     [("model_name", PStr "x4"); ("model_types", PStrs ["embedding"]); ("max_tokens", PInt 0); ("max_dimension", PInt 2048);
      ("dimensions", PInts [64; 1024; 2048]%Z)];
     [("model_name", PStr "x5"); ("model_types", PStrs ["embedding"]); ("max_tokens", PInt 0); ("max_dimension", PInt 2048);
      ("dimensions", PInts [])]].
Proof. by vm_compute. Qed.

(** The documented syntax of [LIST USERS]: the days of ACTIVE are ignored, and QUOTA TOP
    and QUOTA OVER are refused. *)
Example active_days_ignored :
  parsed AdminMode "LIST USERS ACTIVE 30 DAYS;"
  = inr (Some ("admin_list_users_condition_command", [("user_status", PStr "ACTIVE")]), "30").
Proof. by vm_compute. Qed.
Example quota_top_refused :
  parsed AdminMode "LIST USERS QUOTA TOP 10;" = inl "expected number, got TOP"
  ∧ parsed AdminMode "LIST USERS QUOTA OVER;" = inl "expected number, got OVER".
Proof. by vm_compute. Qed.

(** After EFFORT or VERBOSITY the other options of a chat are not read: the message is
    lost. *)
Example chat_after_effort :
  match @parse_input demo_lib demo_text APIMode "CHAT WITH 'm@i@p' EFFORT HIGH MESSAGE 'hi';" with
  | ROk (Some c) p => CmdParams c !! "messages" = Some (PStrs []) ∧ Value (cur p) = "MESSAGE"
  | _ => False
  end.
Proof. by vm_compute. Qed.
Example chat_verbosity :
  match @parse_input demo_lib demo_text APIMode "CHAT WITH 'm@i@p' MESSAGE 'hi' VERBOSITY MEDIUM;" with
  | ROk (Some c) _ => CmdParams c !! "verbosity" = Some (PStr "median")
  | _ => False
  end.
Proof. by vm_compute. Qed.

(** The token after the parameters of a speech command is skipped unread. *)
Example tts_play_lost :
  let params s := match @parse_input demo_lib demo_text APIMode s with ROk (Some c) _ => CmdParams c | _ => ∅ end in
  params "TTS WITH 'm@i@p' TEXT 't' PLAY PARAM 'p';" !! "play" = Some (PBool true)
  ∧ params "TTS WITH 'm@i@p' TEXT 't' PARAM 'p' PLAY;" !! "play" = None.
Proof. by vm_compute. Qed.

(** What follows a complete command is accepted and not looked at; the name of a key
    is such a rest. *)
Example trailing_accepted :
  parsed APIMode "LIST DATASETS nonsense;" = inr (Some ("api_list_datasets", []), "nonsense")
  ∧ parsed APIMode "CREATE KEY 'name';" = inr (Some ("api_create_api_key", []), "name").
Proof. by vm_compute. Qed.

(** The word after CHUNK is looked for one byte too far. *)
Example chunk_store_merged :
  nth_token 0 (NewLexer "CHUNK;STORE") = {| Type_ := TokenChunkStore; Value := "CHUNK STORE" |}
  ∧ nth_token 1 (NewLexer "CHUNK;STORE") = {| Type_ := TokenSemicolon; Value := ";" |}.
Proof. by vm_compute. Qed.

Lemma layout_irrelevant_witness :
  outcome (@parse_input demo_lib demo_text AdminMode "LIST users;")
  = outcome (@parse_input demo_lib demo_text AdminMode " LIST   users ;  ").
Proof.
  apply layout_irrelevant.
  - exact (same_spelled list_users _ _ spelled_close spelled_wide).
  - by apply (bool_decide_unpack _); vm_compute.
Defined.
